(* ===== verification/_CoqProject ===== *)
-Q . S2P
Prelude.v
Types.v
Fields.v
Pack.v
Codec.v
Utf16.v
Name.v
Header.v
FileIo.v
Create.v
Signing.v
Kdf.v
Ntlm.v
Spnego.v
Transform.v
Compound.v
Credits.v
Oplock.v
Session.v
Query.v
Negotiate.v
Contexts.v
Referral.v
Connection.v
Routing.v
Liveness.v
Revival.v
Request.v
Typing.v
Ioctl.v
Copy.v
Pipeline.v
Exec.v
Setup.v
Rpc.v
Dfs.v
Transfer.v
Tree.v
Share.v
Shares.v
Script.v
Listing.v
Metadata.v
Disk.v
Reads.v
Writes.v
Stream.v
Triple.v
Readers.v
Upload.v
Writer.v
Durable.v
Watcher.v
Utf8.v
KrbCrypto.v
KrbFold.v
KrbProfile.v
KrbMessages.v
KrbWire.v
Ccache.v
KrbTime.v
Kdc.v
KrbAuth.v
KrbLogin.v
KrbSession.v
Tcp.v
WriteQueue.v
Probing.v
Calls.v
CopyFiles.v
Loops.v
Batch.v
Client.v
Facade.v
Diagnostics.v
Messages.v
