(* ===== verification/Prelude.v ===== *)
(** * smb2: a verification library for the SMB2/3 client

    ** The program

    The crate is an asynchronous SMB2/SMB3 client.  Its parts, bottom up:
    - [src/pack/]: read and write cursors, file times, GUIDs;
    - [src/types/], [src/error.rs]: protocol enums, flag words, NTSTATUS codes,
      the error type and its classification;
    - [src/name.rs]: the mapping between a caller's names and wire names;
    - [src/msg/]: one codec per protocol message;
    - [src/crypto/]: signing, encryption and compression of frames, key derivation;
    - [src/auth/]: NTLM, SPNEGO and Kerberos tokens;
    - [src/client/credits.rs]: how many requests may be in flight;
    - [src/client/connection.rs]: many tasks share one socket: a request
      reserves credits, takes a message id, registers a waiter and is sent;
      one receiver task decrypts, decompresses, splits and verifies what
      arrives and hands each response to its waiter;
    - [src/client/session.rs]: authentication, the keys and their activation;
    - [src/client/copy.rs], [tree.rs], [stream.rs], [pipeline.rs], ...: file operations on top;
    - [src/client/mod.rs]: [SmbClient], which picks the connection of a tree, follows DFS
      referrals and brings lost sessions back;
    - [src/transport/]: frames on a socket.

    ** Files of the library

    - [Prelude] (this file): bytes, machine integers, the [result] type with a
      [Panic] outcome, the state monad, slices, little-endian words, hints.
    - [Types]: [src/types/mod.rs], [flags.rs], [status.rs], [src/error.rs].
    - [Fields]: words read at a position and messages written as fields.
    - [Pack]: [src/pack/mod.rs], [filetime.rs], [guid.rs].
    - [Codec]: the program logic of cursors: what a reader consumes, what a
      writer appends, safety of a reader, and the class [Codec], the interface
      every message implements and its clients rely on.
    - [Utf16]: strings on the wire.
    - [Name]: [src/name.rs].
    - [Header]: [src/msg/header.rs], the trivial messages of [src/msg/mod.rs].
    - [FileIo]: [close.rs], [read.rs], [write.rs], [flush.rs], [lock.rs].
    - [Create]: [create.rs].  [Oplock]: [oplock_break.rs].
    - [Ioctl]: [ioctl.rs], [copychunk.rs].
    - [Session]: [session_setup.rs], [tree_connect.rs], [change_notify.rs].
    - [Query]: [query_info.rs], [set_info.rs], [query_directory.rs].
    - [Negotiate]: [negotiate.rs] with its contexts.
    - [Contexts]: [create_context.rs].  [Referral]: [src/msg/dfs.rs].
    - [Signing]: [src/crypto/signing.rs].  [Kdf]: [src/crypto/kdf.rs].
    - [Ntlm]: [src/auth/ntlm.rs] and a server that checks everything; [Spnego]:
      [src/auth/der.rs] and [spnego.rs].
    - [Transform]: [src/msg/transform.rs], [src/crypto/encryption.rs],
      [src/crypto/compression.rs], and the frame-level functions of
      [connection.rs] that use them.
    - [Compound]: assembling and splitting compound frames ([pack_message], the
      linking in [execute_compound_inner], [split_compound]).
    - [Credits]: [src/client/credits.rs], and a step relation for tasks that
      share one pool.
    - [Connection]: the shared state [Inner] and every operation on it that the
      request and receive paths perform; [Routing]: its invariants.
    - [Liveness]: the clocks of [connection.rs]: response deadlines, long polls,
      liveness readings, forgiveness of scheduling stalls.
    - [Revival]: bringing a dead connection back ([reconnect_if_needed] down to
      [revive_once] and [give_up]).
    - [Request]: the sending half of [execute_with_credits_inner] and
      [execute_compound_inner], [send_cancel], activation of protection; [Typing]: the
      widths of the fields of the shared state.
    - [Copy]: [src/client/copy.rs].
    - [Pipeline]: the interface [Wire] a file operation uses of a connection
      ([execute_with_credits], [execute_compound]), requests in flight
      ([FuturesUnordered]) under a schedule of service and delivery, and
      [FileServer], what a server owes; [Disk]: a server in memory that meets
      it, used by witnesses and examples.
    - [Tree]: paths, handles, and the compound, pipelined and streamed reads and
      writes of [src/client/tree.rs]; [Transfer]: the invariant of concurrent
      writes; [Reads], [Writes]: their theorems.
    - [Exec]: one request at a time against a list of answers, for code that
      needs whole response frames; [Dfs]: [src/client/dfs.rs]; [Share]:
      [Tree::connect] and [Tree::disconnect]; [Rpc]: [src/rpc/]; [Shares]:
      [src/client/shares.rs]; [Durable]: [src/client/durable.rs]; [Watcher]:
      [src/client/watcher.rs] over a script of what its connection does.
    - [Setup]: [Connection::negotiate] and [src/client/session.rs], on the part of
      the connection they touch, and the server's side of the key derivation.
    - [Script]: an instance of [Wire] that answers from a list and records what
      it was sent, with the rules to compute both; [Listing]: directory listings;
      [Metadata]: stat, file-system information, rename and delete.
    - [Stream]: [src/client/stream.rs]; [Triple]: a program logic for its
      methods; [Readers], [Writer]: the theorems; [Upload]: [FileUpload] and the
      two uploads of [src/client/mod.rs].
    - [Utf8]: strings of Rust as bytes.  [KrbCrypto]: [src/auth/kerberos/crypto.rs];
      [KrbFold], [KrbProfile]: its n-fold and its encryption profiles.
    - [KrbMessages]: [src/auth/kerberos/messages.rs]; [KrbWire]: its theorems.
      [Ccache]: [ccache.rs].  [Kdc]: [kdc.rs] over an arbitrary network.
    - [KrbTime]: the clock of [src/auth/kerberos/authenticator.rs]; [KrbAuth]: the rest
      of that file; [KrbLogin]: its theorems.
    - [KrbSession]: [setup_kerberos] and [setup_kerberos_from_ccache] of [session.rs],
      which join [KrbAuth] to [Setup], and the server that opens the AP-REQ.
    - [Tcp]: [src/transport/tcp.rs] over a network that cuts bytes up as it likes.
    - [WriteQueue]: [send_and_count] and [writer_loop] of [connection.rs] as a step relation over callers
      that may be dropped, the queue, the writer and the socket; [Probing]: [reserve_credits],
      [dispatch], [echo_probe], [keepalive_loop]; [Calls]: [execute_with_credits] and
      [execute_compound] from the wait for credits to the answer.
    - [CopyFiles]: the rest of [copy.rs], from resume key and range to copies by path;
      [Loops]: the instrumented listing and the sequential loops of [tree.rs]; [Batch]:
      [src/client/pipeline.rs].
    - [Client]: [SmbClient] of [src/client/mod.rs] over the interface [ClientConn] of what it
      asks of a connection; [Facade]: its theorems against [ClientConnLaws];
      [Diagnostics]: the snapshots of [src/client/diagnostics.rs].
    - [Messages]: the guarantees of the wire format in one place.

    ** How the code is modelled

    A fallible function returns [result Error A] with the constructors [Ok],
    [Err] and [Panic]; the last stands for every way Rust can panic (a slice out
    of range, an overflowing addition in a debug build, a violated
    [debug_assert]), so that "never panics" is a theorem.  Integers are [Z] with
    the truncations and saturations of the source written out.  Cursors are
    state-passing functions.  Code that runs under one lock is one function on
    [Inner]; tasks interleave at that grain, as sequences of steps
    ([Credits.step], [Routing.conn_step]) or as traces of what other tasks do
    between two ticks of a wait loop.  Clock readings, fresh channel numbers
    and what the transport reports are arguments.  Text of error messages that
    the source formats from values keeps the format string only.  Logging is
    left out.

    Code outside the repository is a class of operations with the laws its
    documentation gives: MACs ([MacPrimitives]/[MacLaws]), AEAD ciphers
    ([AeadPrimitives]/[AeadLaws]), MD4 and HMAC-MD5 ([NtlmPrimitives]/[NtlmLaws]),
    the AES block cipher, HMAC-SHA1 and PBKDF2 ([KrbPrimitives]/[KrbLaws]), SHA-512 ([Sha512]), LZ4 ([Lz4]/[Lz4Laws]), tokio's semaphore
    ([Semaphore]/[SemaphoreLaws]).  Session setup uses the Kerberos authenticator through
    the interface [KerberosAuthenticator], and [KrbSession] gives its instance.  Each has a concrete instance, used by the
    witnesses only.  The server of a server-side copy is a function from its
    state and a request to an answer, with [faithful_server] as what it owes.
    For file operations the connection together with the server behind it is a
    state with the operations of [Wire] (or, where response headers matter, a
    [Dialog] of scripted answers); [FileServer] states what a READ, a
    WRITE, a FLUSH and a CLOSE answered with success mean for the content of an
    open file, and nothing about failures.

    ** What the theorems show

    - Wire format ([Messages], [Create]): every modelled parser is safe on
      arbitrary bytes; every modelled message parses back from its bytes and its
      truncations are refused; UTF-16 strings and file times round-trip.
    - Names ([Name]): encoded names are legal on the wire; names and paths
      round-trip, with the exceptions stated.
    - Protection ([Signing], [Transform]): signing and verification agree with a
      specification of the signed bytes; GMAC nonces are injective; encryption
      nonces never repeat; encryption and compression are undone by the peer.
    - Authentication ([Ntlm], [Spnego], [Setup]): a server that checks proof, MIC and
      key exchange accepts the client's NTLM message and holds the same key; tokens
      parse back; a session setup ends with the keys the server derives from the
      bytes exchanged, for every dialect, and a failed one changes nothing; a
      negotiation records what the answer says or nothing.
    - Kerberos ([KrbSession], [KrbLogin], [KrbProfile], [KrbFold], [KrbWire], [Ccache], [Kdc],
      [KrbTime]): client, KDC and server end a login with the same keys; a login succeeds
      only with a KDC that knows the key of the user; decryption undoes encryption and
      accepts nothing with another checksum; n-fold is that of RFC 3961; messages and
      credential caches parse back, and their parsers are safe; an exchange with a KDC is
      bounded whatever the network does; timestamps are exact.
    - Compounds ([Compound]): [split_compound] decides the specification [chain],
      and undoes assembly.
    - Credits ([Credits]): no interleaving spends more than was granted, except through the two
      ways shown there: a reservation that outlives its connection, and a request dropped while its frame is queued.
    - Connection ([Routing]): no arriving bytes make the receiver panic; a
      response reaches exactly its waiter; interim responses keep waiters;
      forged signatures are rejected; teardown leaves nobody waiting, in every
      reachable state; the response counters partition the responses.
    - Types ([Typing]): in every reachable state the fields of the shared state are within their
      widths, so that every header built from it fits.
    - Clocks ([Liveness]): a silent request is given up on within six deadlines
      and never before one; time this process did not run is not held against
      the server; the two readings of the liveness clock agree; long polls end
      for the documented reasons only.
    - Revival ([Revival]): bounded in time and attempts, never half-alive, no
      stampede.
    - Requests ([Request]): what goes on the wire for a single request, a
      compound and a CANCEL, what it costs, and that a failed send leaves no
      waiter and no credit behind.
    - Sending ([WriteQueue], [Probing], [Calls]): no dropped caller and no failed write
      desynchronises the stream, and every send returns; waiting for credits is bounded; a keepalive
      probe disturbs nobody; a request that returns leaves no waiter.
    - Snapshots ([Diagnostics]): what is in flight is reported exactly, and counters survive teardown and
      revival.
    - Server-side copy ([Copy]): batches tile the range within the limits; a
      successful copy is exact; the loop ends when the server stops rejecting.
    - File operations ([Reads], [Writes], [Readers], [Upload], [Writer]): every
      way to read returns exactly the file or the range asked for; every way to
      write that reports all its bytes has stored exactly them; neither depends
      on the order in which concurrent requests are served and answered, and
      every call returns once its requests are answered.
    - Transport ([Tcp]): messages arrive whole and in order however the network cuts
      them up.
    - Files copied by the server ([CopyFiles]): a copy by paths is exact, and whatever the
      server answers both handles are closed.
    - Batches ([Batch]): a batch is its operations one at a time.
    - Client ([Facade]): in every sequence of calls the client holds the connection of every
      tree; a referral leads to the first target that grants a tree; a mutation is never
      replayed after a lost connection; a recovered tree is protected by the new session.
    - Listings ([Listing], [Loops]): any sequence of pages is reported exactly; the handle
      is closed whatever the server answers; no page makes the parser panic.
    - Metadata ([Metadata]): [stat] reports what the server's structures say;
      [rename] and [delete] report success exactly when the server did and leak
      no handle.
    - Shares ([Rpc], [Shares]): any fragmentation of the server's answer gives exactly
      its visible disk shares; pipe and tree are always given back.
    - Durable handles ([Durable]): an open is presented as durable exactly when it can
      be claimed back; a handle is claimed back with both proofs or closed.
    - Watching ([Watcher]): a request is armed at all times and none is left behind;
      change records are reported exactly.
    - DFS ([Dfs], [Referral], [Share]): the referral exchange always gives back
      its tree; lookups take the longest live prefix in any map order; referral
      responses parse safely into well-formed entries; the set of DFS trees
      follows connects and disconnects.
    - Create contexts ([Contexts]): a chain parses back from its bytes.
    - Divergences between comments and code, each with a theorem or an example:
      reservations and guards that outlive a reconnection, unsigned responses,
      alternating copy limits, the session id a second revival attempt forgets,
      short reads and writes that are not resumed, handles that a failed flush or
      a short answer to [stat] leaks, an unbounded listing, sizes that overflow,
      referral prefixes that split a component, a nonce that is not compared, caches of
      version 3 that are misread, a frame whose length does not fit its header, a session
      that comes back under the same id, referral targets that are not encrypted or are
      forgotten by a reconnection, the target name of a rename that follows a referral, sends
      that are dropped after their frame was queued.

    ** Fuel

    [split_loop] runs on one unit per byte of the frame, and
    [Compound.split_compound_correct] shows that this is never exhausted;
    [batch_loop] on one unit per allowed chunk, and its specification shows the
    same; [copy_loop] takes its number of rounds as an argument, with a
    termination theorem that one round per byte and per rejection is enough.
    The loops of [Tree], [Stream] and [Loops] run on one round per chunk or per byte
    left, and running out is [Panic], so that "never panics" includes that the
    rounds suffice; a schedule that stops early is [None], and the theorems say
    that serving what is outstanding ([service]) makes every call return.
    [parse_contexts_loop], [parse_dir_loop] and [parse_notify_loop] run on one unit per byte, and
    running out is [Panic], excluded by their theorems; [query_rounds] and
    [next_frame] take a number of rounds, because the source has no bound.
    The loops over DER elements and over a credential cache run on one unit per byte, and
    running out is [Panic], excluded by [KrbWire] and [Ccache]; [carry_loop] on four rounds,
    which [KrbFold] shows to be enough.

    ** Not modelled

    Of [connection.rs]: the spawning and aborting of tasks, setters that only store a value,
    and the sweeper that logs what [classify_outstanding] finds.  Of [src/transport/]: name
    resolution and connecting, which are calls of the operating system.  Of [diagnostics.rs]: the text
    a snapshot is printed as.  Logging, [Display] implementations and test support
    ([src/testing/], [mock.rs], [test_helpers.rs], [fuzzing.rs]) are left out. *)

From Stdlib Require Import ZArith Lia.
From Stdlib Require Strings.Byte.
From stdpp Require Export base list gmap strings.

Export Corelib.Init.Byte(byte(..)).

#[global] Open Scope Z_scope.

(** ** Bytes and machine-width integers

    A [u8] array is a [list byte]; a wire integer of width [8*n] is a [Z] kept
    in [0 .. 2^(8n)).  [usize] quantities (lengths, cursor positions) are [Z]
    as well, so that a length field such as [0xFFFF_FFFF] never has to be
    turned into a unary number before it has been checked. *)

Abbreviation bytes := (list byte).

#[global] Instance byte_eq_dec : EqDecision byte := Byte.byte_eq_dec.

Definition u8_of_byte (b : byte) : Z := Z.of_N (Byte.to_N b).

(** [z as u8]: the low eight bits. *)
Definition byte_of_u8 (z : Z) : byte :=
  match Byte.of_N (Z.to_N (z mod 256)) with Some b => b | None => x00 end.

(** Length of a list as a [usize]. *)
Definition len {A} (l : list A) : Z := Z.of_nat (length l).

(** [Vec::is_empty] *)
Definition is_empty {A} (l : list A) : bool := match l with [] => true | _ => false end.

(** [n.div_ceil(d)] *)
Definition div_ceil (n d : Z) : Z := (n + d - 1) / d.

(** [x as u16], [x as u32], ...: truncation to a width. *)
Definition u_max (w : Z) : Z := 2 ^ w - 1.
Definition trunc (w : Z) (z : Z) : Z := z mod 2 ^ w.
Definition in_range (w : Z) (z : Z) : Prop := 0 <= z < 2 ^ w.

Abbreviation is_u8 := (in_range 8).
Abbreviation is_u16 := (in_range 16).
Abbreviation is_u32 := (in_range 32).
Abbreviation is_u64 := (in_range 64).

#[global] Instance in_range_dec w z : Decision (in_range w z).
Proof. unfold in_range. apply _. Defined.

(** [saturating_sub] on an unsigned type. *)
Definition sat_sub (a b : Z) : Z := Z.max 0 (a - b).
(** [saturating_add] on a [w]-bit unsigned type. *)
Definition sat_add (w a b : Z) : Z := Z.min (u_max w) (a + b).

(** ** Results

    A Rust computation returns [Ok], returns [Err] with an error value, or
    panics (slice out of range, [expect] on [None]).  Panics are a separate
    constructor, so "does not panic" is a statement about the model. *)

Inductive result (E A : Type) : Type :=
| Ok (a : A)
| Err (e : E)
| Panic.
Arguments Ok {E A} a.
Arguments Err {E A} e.
Arguments Panic {E A}.

#[global] Instance result_ret {E} : MRet (result E) := λ A a, Ok a.
#[global] Instance result_bind {E} : MBind (result E) := λ A B f r,
  match r with Ok a => f a | Err e => Err e | Panic => Panic end.

Lemma bind_ok {E A B} (a : A) (k : A → result E B) : (x ← Ok a; k x) = k a.
Proof. reflexivity. Qed.

Definition is_ok {E A} (r : result E A) : bool :=
  match r with Ok _ => true | _ => false end.
Definition is_err {E A} (r : result E A) : bool :=
  match r with Err _ => true | _ => false end.

(** ** State-and-error computations: a cursor threaded by [&mut]. *)

Definition st (E S A : Type) : Type := S → result E (A * S).

#[global] Instance st_ret {E S} : MRet (st E S) := λ A a s, Ok (a, s).
#[global] Instance st_bind {E S} : MBind (st E S) := λ A B f m s,
  match m s with
  | Ok (a, s') => f a s'
  | Err e => Err e
  | Panic => Panic
  end.

Definition st_err {E S A} (e : E) : st E S A := λ _, Err e.
Definition st_panic {E S A} : st E S A := λ _, Panic.
(** [if cond { return Err(e) }] *)
Definition fail_if {E S} (cond : bool) (e : E) : st E S unit :=
  if cond then st_err e else mret tt.
(** A pure fallible step used with [?]. *)
Definition st_lift {E S A} (r : result E A) : st E S A := λ s,
  match r with Ok a => Ok (a, s) | Err e => Err e | Panic => Panic end.

(** [for x in l { f(x)? }] *)
Fixpoint for_each {E S A} (f : A → st E S unit) (l : list A) : st E S unit :=
  match l with
  | [] => mret tt
  | x :: l => f x ;; for_each f l
  end.

(** [for _ in 0..n { out.push(m?) }] *)
Fixpoint repeat_push {E S A} (n : nat) (m : st E S A) : st E S (list A) :=
  match n with
  | O => mret []
  | S n => x ← m; xs ← repeat_push n m; mret (x :: xs)
  end.

(** ** Slices: [&data[a..b]], which panics unless [a <= b <= len]. *)

Definition subslice {A} (l : list A) (a b : Z) : list A :=
  take (Z.to_nat (b - a)) (drop (Z.to_nat a) l).

Definition slice {E A} (l : list A) (a b : Z) : result E (list A) :=
  if (0 <=? a) && (a <=? b) && (b <=? len l) then Ok (subslice l a b) else Panic.

(** ** Little-endian encodings *)

Fixpoint to_le (n : nat) (z : Z) : bytes :=
  match n with
  | O => []
  | S n => byte_of_u8 z :: to_le n (z / 256)
  end.

Fixpoint of_le (l : bytes) : Z :=
  match l with
  | [] => 0
  | b :: l => u8_of_byte b + 256 * of_le l
  end.

Definition zeros (n : Z) : bytes := replicate (Z.to_nat n) x00.

(** ** Tactics *)

Create HintDb smb.
Create Rewrite HintDb len.

(** [lia] with lengths pushed through the list operations. *)
Ltac len_simpl :=
  unfold len, zeros in *;
  repeat (rewrite ?length_app, ?length_cons, ?length_nil, ?length_take, ?length_drop,
            ?length_replicate in *).
Ltac len_lia := len_simpl; lia.

(** Case analysis on the innermost test of the goal. *)
Ltac case_test :=
  match goal with
  | |- context [if ?b then _ else _] => destruct b eqn:?
  | H : context [if ?b then _ else _] |- _ => destruct b eqn:?
  end.

(** Turn boolean comparisons into propositions. *)
Ltac bool_prop :=
  repeat match goal with
  | H : _ && _ = true |- _ => apply andb_true_iff in H; destruct H
  | H : _ || _ = false |- _ => apply orb_false_iff in H; destruct H
  | H : _ && _ = false |- _ => apply andb_false_iff in H
  | H : _ || _ = true |- _ => apply orb_true_iff in H
  | H : negb _ = true |- _ => apply negb_true_iff in H
  | H : negb _ = false |- _ => apply negb_false_iff in H
  | H : (_ =? _) = true |- _ => apply Z.eqb_eq in H
  | H : (_ =? _) = false |- _ => apply Z.eqb_neq in H
  | H : (_ <? _) = true |- _ => apply Z.ltb_lt in H
  | H : (_ <? _) = false |- _ => apply Z.ltb_ge in H
  | H : (_ <=? _) = true |- _ => apply Z.leb_le in H
  | H : (_ <=? _) = false |- _ => apply Z.leb_gt in H
  end.

(** ** Lemmas on bytes and little-endian lists *)

Lemma u8_of_byte_range b : is_u8 (u8_of_byte b).
Proof. unfold in_range, u8_of_byte. pose proof (Byte.to_N_bounded b). lia. Qed.

Lemma u8_of_byte_of_u8 z : u8_of_byte (byte_of_u8 z) = z mod 256.
Proof.
  unfold byte_of_u8, u8_of_byte.
  pose proof (Z.mod_pos_bound z 256 ltac:(lia)) as Hb.
  destruct (Byte.of_N (Z.to_N (z mod 256))) eqn:E.
  - apply Byte.to_of_N in E. rewrite E. lia.
  - apply Byte.of_N_None_iff in E. lia.
Qed.

Lemma byte_of_u8_of_byte b : byte_of_u8 (u8_of_byte b) = b.
Proof.
  unfold byte_of_u8. pose proof (u8_of_byte_range b) as H. unfold in_range in H.
  rewrite Z.mod_small by lia. unfold u8_of_byte. rewrite N2Z.id.
  by rewrite Byte.of_to_N.
Qed.

Lemma len_nonneg {A} (l : list A) : 0 <= len l.
Proof. unfold len. lia. Qed.
Lemma len_nil {A} : len (@nil A) = 0.
Proof. done. Qed.
Lemma len_cons {A} (x : A) l : len (x :: l) = 1 + len l.
Proof. len_lia. Qed.
Lemma len_app {A} (l1 l2 : list A) : len (l1 ++ l2) = len l1 + len l2.
Proof. len_lia. Qed.
Lemma length_to_le n z : length (to_le n z) = n.
Proof. revert z; induction n; intros; simpl; auto. Qed.
Lemma len_to_le n z : len (to_le n z) = Z.of_nat n.
Proof. unfold len. by rewrite length_to_le. Qed.
Lemma len_zeros n : 0 <= n → len (zeros n) = n.
Proof. len_lia. Qed.

Lemma len_0_nil {A} (l : list A) : len l = 0 → l = [].
Proof. destruct l; [done|]. intros H. exfalso. len_lia. Qed.

#[export] Hint Rewrite @len_nil @len_cons @len_app len_to_le : len.

Lemma of_le_to_le n z : of_le (to_le n z) = z mod 256 ^ Z.of_nat n.
Proof.
  revert z; induction n as [|n IH]; intros z; cbn [to_le of_le].
  - by rewrite Z.mod_1_r.
  - rewrite IH, u8_of_byte_of_u8, Nat2Z.inj_succ, Z.pow_succ_r by lia.
    rewrite Z.rem_mul_r by (try apply Z.pow_nonzero; lia). lia.
Qed.

Lemma of_le_range l : 0 <= of_le l < 256 ^ len l.
Proof.
  induction l as [|b l IH]; [done|].
  rewrite len_cons, Z.pow_add_r by (pose proof (len_nonneg l); lia).
  pose proof (u8_of_byte_range b) as Hb. unfold in_range in Hb.
  cbn [of_le]. lia.
Qed.

Lemma to_le_of_le l : to_le (length l) (of_le l) = l.
Proof.
  induction l as [|b l IH]; [done|]. cbn [length to_le of_le].
  pose proof (u8_of_byte_range b) as Hb. unfold in_range in Hb.
  f_equal.
  - rewrite <- (byte_of_u8_of_byte b) at 2. unfold byte_of_u8.
    do 3 f_equal. rewrite (Z.mul_comm 256), Z_mod_plus_full. done.
  - rewrite (Z.mul_comm 256), Z_div_plus_full by lia.
    rewrite Z.div_small by lia. by rewrite Z.add_0_l.
Qed.

Lemma of_le_to_le_small n z :
  in_range (8 * Z.of_nat n) z → of_le (to_le n z) = z.
Proof.
  unfold in_range. intros H. rewrite of_le_to_le.
  change 256 with (2 ^ 8). rewrite <- Z.pow_mul_r by lia. by apply Z.mod_small.
Qed.

Lemma to_le_mod n z : to_le n (z mod 256 ^ Z.of_nat n) = to_le n z.
Proof.
  revert z; induction n as [|n IH]; intros z; [done|].
  cbn [to_le]. rewrite Nat2Z.inj_succ, Z.pow_succ_r by lia.
  assert (0 < 256 ^ Z.of_nat n) by (apply Z.pow_pos_nonneg; lia).
  rewrite Z.rem_mul_r by lia. f_equal.
  - unfold byte_of_u8.
    by rewrite (Z.mul_comm 256), Z_mod_plus_full, Z.mod_mod by lia.
  - rewrite (Z.mul_comm 256), Z_div_plus_full by lia.
    rewrite (Z.div_small (z mod 256)) by (apply Z.mod_pos_bound; lia).
    by rewrite Z.add_0_l.
Qed.

(** An [as u16] or [as u32] cast just before a write changes nothing. *)
Lemma to_le_trunc n w z : w = 8 * Z.of_nat n → to_le n (trunc w z) = to_le n z.
Proof.
  intros ->. unfold trunc. rewrite Z.pow_mul_r by lia. apply (to_le_mod n z).
Qed.
Lemma to_le_trunc16 z : to_le 2 (trunc 16 z) = to_le 2 z.
Proof. by apply to_le_trunc. Qed.
Lemma to_le_trunc32 z : to_le 4 (trunc 32 z) = to_le 4 z.
Proof. by apply to_le_trunc. Qed.

Lemma div_ceil_spec n d : 0 < d → 0 < n → (div_ceil n d - 1) * d < n <= div_ceil n d * d.
Proof.
  intros Hd Hn. unfold div_ceil. pose proof (Z.div_mod (n + d - 1) d).
  pose proof (Z.mod_pos_bound (n + d - 1) d). lia.
Qed.

Lemma trunc_small w z : in_range w z → trunc w z = z.
Proof. apply Z.mod_small. Qed.

Lemma trunc_range w z : 0 <= w → in_range w (trunc w z).
Proof. intros. apply Z.mod_pos_bound. apply Z.pow_pos_nonneg; lia. Qed.

(** ** Lemmas on slices *)

Lemma subslice_app {A} (pre bs post : list A) a b :
  a = len pre → b = len pre + len bs → subslice (pre ++ bs ++ post) a b = bs.
Proof.
  intros -> ->. unfold subslice, len.
  rewrite Z.add_simpl_l, !Nat2Z.id.
  rewrite drop_app_length. by rewrite take_app_length.
Qed.

Lemma slice_app {E A} (pre bs post : list A) a b :
  a = len pre → b = len pre + len bs →
  slice (E:=E) (pre ++ bs ++ post) a b = Ok bs.
Proof.
  intros Ha Hb. unfold slice.
  rewrite (subslice_app pre bs post) by done.
  pose proof (len_nonneg pre). pose proof (len_nonneg bs). pose proof (len_nonneg post).
  replace (0 <=? a) with true by lia. replace (a <=? b) with true by lia.
  rewrite !len_app. by replace (b <=? _) with true by lia.
Qed.

Lemma len_subslice {A} (l : list A) a b :
  0 <= a <= b → b <= len l → len (subslice l a b) = b - a.
Proof. unfold subslice, len. intros. rewrite length_take, length_drop. lia. Qed.

Lemma slice_ok {E A} (l : list A) a b :
  0 <= a <= b → b <= len l → slice (E:=E) l a b = Ok (subslice l a b).
Proof.
  intros. unfold slice. replace (0 <=? a) with true by lia.
  replace (a <=? b) with true by lia. by replace (b <=? len l) with true by lia.
Qed.

Lemma subslice_full_prefix {A} (a b : list A) n : n = len a → subslice (a ++ b) 0 n = a.
Proof.
  intros ->. apply (subslice_app [] a b); [done|]. by rewrite len_nil.
Qed.

Lemma subslice_suffix {A} (a b : list A) n m :
  n = len a → m = len a + len b → subslice (a ++ b) n m = b.
Proof. intros -> ->. rewrite <- (app_nil_r b) at 1. by apply subslice_app. Qed.

Lemma subslice_app_l {A} (l post : list A) a b :
  0 <= a <= b → b <= len l → subslice (l ++ post) a b = subslice l a b.
Proof.
  unfold subslice, len. intros.
  rewrite skipn_app, firstn_app, length_drop.
  replace (Z.to_nat (b - a) - _)%nat with 0%nat by lia.
  rewrite take_0. by rewrite app_nil_r.
Qed.

(** The list splits at the two ends of a slice. *)
Lemma subslice_split {A} (l : list A) a b :
  0 <= a <= b → b <= len l →
  l = take (Z.to_nat a) l ++ subslice l a b ++ drop (Z.to_nat b) l.
Proof.
  intros Ha Hb. unfold subslice.
  rewrite <- (take_drop (Z.to_nat a) l) at 1. f_equal.
  rewrite <- (take_drop (Z.to_nat (b - a)) (drop (Z.to_nat a) l)) at 1. f_equal.
  rewrite drop_drop. f_equal. lia.
Qed.
