(* ===== verification/Types.v ===== *)
(** * Protocol types, flag words, NTSTATUS codes and the error type

    Models [src/types/mod.rs], [src/types/flags.rs], [src/types/status.rs] and
    [src/error.rs].  The newtypes [SessionId], [MessageId], [TreeId] and
    [CreditCharge] are the integers they wrap; the enums are inductive types
    with their discriminants as a function and [TryFrom] as its partial
    inverse.  Messages of [Error::InvalidData] are kept as the format template
    of the source, without the formatted arguments. *)

From S2P Require Import Prelude.

(** ** Identifiers ([types/mod.rs]) *)

Definition SessionId_NONE : Z := 0.
Definition MessageId_UNSOLICITED : Z := 0xFFFFFFFFFFFFFFFF.

Record FileId := mkFileId { persistent : Z; volatile : Z }.

#[global] Instance FileId_eq_dec : EqDecision FileId.
Proof. solve_decision. Defined.
#[global] Program Instance FileId_countable : Countable FileId :=
  inj_countable' (λ f, (persistent f, volatile f)) (λ p, mkFileId p.1 p.2) _.
Next Obligation. by intros []. Qed.

Definition FileId_SENTINEL : FileId :=
  mkFileId 0xFFFFFFFFFFFFFFFF 0xFFFFFFFFFFFFFFFF.

Definition FileId_wf (f : FileId) : Prop :=
  is_u64 (persistent f) ∧ is_u64 (volatile f).

(** ** Command codes *)

Inductive Command :=
| Negotiate | SessionSetup | Logoff | TreeConnect | TreeDisconnect
| Create | Close | Flush | Read | Write | Lock | Ioctl | Cancel | Echo
| QueryDirectory | ChangeNotify | QueryInfo | SetInfo | OplockBreak.

#[global] Instance Command_eq_dec : EqDecision Command.
Proof. solve_decision. Defined.

Definition Command_all : list Command :=
  [Negotiate; SessionSetup; Logoff; TreeConnect; TreeDisconnect; Create; Close;
   Flush; Read; Write; Lock; Ioctl; Cancel; Echo; QueryDirectory; ChangeNotify;
   QueryInfo; SetInfo; OplockBreak].

Definition Command_code (c : Command) : Z :=
  match c with
  | Negotiate => 0x0000 | SessionSetup => 0x0001 | Logoff => 0x0002
  | TreeConnect => 0x0003 | TreeDisconnect => 0x0004 | Create => 0x0005
  | Close => 0x0006 | Flush => 0x0007 | Read => 0x0008 | Write => 0x0009
  | Lock => 0x000A | Ioctl => 0x000B | Cancel => 0x000C | Echo => 0x000D
  | QueryDirectory => 0x000E | ChangeNotify => 0x000F | QueryInfo => 0x0010
  | SetInfo => 0x0011 | OplockBreak => 0x0012
  end.

(** [TryFrom<discriminant>] of a fieldless enum: the variant with that code. *)
Definition enum_try_from {A} (code : A → Z) (all : list A) (v : Z) : option A :=
  list_find (λ a, code a = v) all ≫= λ p, Some p.2.

Definition Command_try_from : Z → option Command :=
  enum_try_from Command_code Command_all.

(** ** Dialects *)

Inductive Dialect := Smb2_0_2 | Smb2_1 | Smb3_0 | Smb3_0_2 | Smb3_1_1.

#[global] Instance Dialect_eq_dec : EqDecision Dialect.
Proof. solve_decision. Defined.

Definition Dialect_ALL : list Dialect :=
  [Smb2_0_2; Smb2_1; Smb3_0; Smb3_0_2; Smb3_1_1].

Definition Dialect_code (d : Dialect) : Z :=
  match d with
  | Smb2_0_2 => 0x0202 | Smb2_1 => 0x0210 | Smb3_0 => 0x0300
  | Smb3_0_2 => 0x0302 | Smb3_1_1 => 0x0311
  end.

Definition Dialect_try_from : Z → option Dialect :=
  enum_try_from Dialect_code Dialect_ALL.

(** ** Oplock levels *)

Inductive OplockLevel := OplockNone | LevelII | Exclusive | Batch | Lease.

#[global] Instance OplockLevel_eq_dec : EqDecision OplockLevel.
Proof. solve_decision. Defined.

Definition OplockLevel_code (o : OplockLevel) : Z :=
  match o with
  | OplockNone => 0x00 | LevelII => 0x01 | Exclusive => 0x08 | Batch => 0x09 | Lease => 0xFF
  end.

Definition OplockLevel_try_from : Z → option OplockLevel :=
  enum_try_from OplockLevel_code [OplockNone; LevelII; Exclusive; Batch; Lease].

(** ** NTSTATUS ([types/status.rs]) *)

Module NtStatus.

Definition SUCCESS : Z := 0x00000000.
Definition PENDING : Z := 0x00000103.
Definition NOTIFY_ENUM_DIR : Z := 0x0000010C.
Definition MORE_PROCESSING_REQUIRED : Z := 0xC0000016.
Definition BUFFER_OVERFLOW : Z := 0x80000005.
Definition NO_MORE_FILES : Z := 0x80000006.
Definition UNSUCCESSFUL : Z := 0xC0000001.
Definition NOT_IMPLEMENTED : Z := 0xC0000002.
Definition INVALID_PARAMETER : Z := 0xC000000D.
Definition NO_SUCH_DEVICE : Z := 0xC000000E.
Definition NO_SUCH_FILE : Z := 0xC000000F.
Definition INVALID_DEVICE_REQUEST : Z := 0xC0000010.
Definition END_OF_FILE : Z := 0xC0000011.
Definition ACCESS_DENIED : Z := 0xC0000022.
Definition BUFFER_TOO_SMALL : Z := 0xC0000023.
Definition OBJECT_NAME_INVALID : Z := 0xC0000033.
Definition OBJECT_NAME_NOT_FOUND : Z := 0xC0000034.
Definition OBJECT_NAME_COLLISION : Z := 0xC0000035.
Definition OBJECT_PATH_NOT_FOUND : Z := 0xC000003A.
Definition SHARING_VIOLATION : Z := 0xC0000043.
Definition FILE_LOCK_CONFLICT : Z := 0xC0000054.
Definition DELETE_PENDING : Z := 0xC0000056.
Definition DISK_FULL : Z := 0xC000007F.
Definition LOGON_FAILURE : Z := 0xC000006D.
Definition ACCOUNT_RESTRICTION : Z := 0xC000006E.
Definition INVALID_LOGON_HOURS : Z := 0xC000006F.
Definition INVALID_WORKSTATION : Z := 0xC0000070.
Definition PASSWORD_EXPIRED : Z := 0xC0000071.
Definition ACCOUNT_DISABLED : Z := 0xC0000072.
Definition ACCOUNT_EXPIRED : Z := 0xC0000193.
Definition PASSWORD_MUST_CHANGE : Z := 0xC0000224.
Definition ACCOUNT_LOCKED_OUT : Z := 0xC0000234.
Definition INSUFFICIENT_RESOURCES : Z := 0xC000009A.
Definition FILE_IS_A_DIRECTORY : Z := 0xC00000BA.
Definition NOT_SUPPORTED : Z := 0xC00000BB.
Definition BAD_NETWORK_PATH : Z := 0xC00000BE.
Definition NETWORK_NAME_DELETED : Z := 0xC00000C9.
Definition BAD_NETWORK_NAME : Z := 0xC00000CC.
Definition REQUEST_NOT_ACCEPTED : Z := 0xC00000D0.
Definition DIRECTORY_NOT_EMPTY : Z := 0xC0000101.
Definition NOT_A_DIRECTORY : Z := 0xC0000103.
Definition CANCELLED : Z := 0xC0000120.
Definition FILE_CLOSED : Z := 0xC0000128.
Definition USER_SESSION_DELETED : Z := 0xC0000203.
Definition INSUFF_SERVER_RESOURCES : Z := 0xC0000205.
Definition NOT_FOUND : Z := 0xC0000225.
Definition PATH_NOT_COVERED : Z := 0xC0000257.
Definition NETWORK_SESSION_EXPIRED : Z := 0xC000035C.

(** The severity is the top two bits of the 32-bit code. *)
Definition severity (s : Z) : Z := trunc 8 (Z.shiftr s 30).
Definition is_success (s : Z) : bool := severity s =? 0.
Definition is_warning (s : Z) : bool := severity s =? 2.
Definition is_error (s : Z) : bool := severity s =? 3.
Definition is_pending (s : Z) : bool := s =? PENDING.
Definition is_success_or_partial (s : Z) : bool :=
  is_success s || (s =? BUFFER_OVERFLOW).
Definition is_more_processing_required (s : Z) : bool :=
  s =? MORE_PROCESSING_REQUIRED.

End NtStatus.

(** ** Flag words ([types/flags.rs], the [impl_flags!] macro)

    Every flag type is its raw integer; [w] is the width of the inner type,
    which [clear] needs for the complement. *)

Module Flags.

Definition contains (f flag : Z) : bool := Z.land f flag =? flag.
Definition set (f flag : Z) : Z := Z.lor f flag.
Definition clear (w f flag : Z) : Z := Z.land f (Z.lxor flag (u_max w)).
Definition bitor (f g : Z) : Z := Z.lor f g.
Definition bitand (f g : Z) : Z := Z.land f g.

End Flags.

Module HeaderFlags.

Definition SERVER_TO_REDIR : Z := 0x00000001.
Definition ASYNC_COMMAND : Z := 0x00000002.
Definition RELATED_OPERATIONS : Z := 0x00000004.
Definition SIGNED : Z := 0x00000008.
Definition PRIORITY_MASK : Z := 0x00000070.
Definition DFS_OPERATIONS : Z := 0x10000000.
Definition REPLAY_OPERATION : Z := 0x20000000.

Definition is_response (f : Z) : bool := Flags.contains f SERVER_TO_REDIR.
Definition is_async (f : Z) : bool := Flags.contains f ASYNC_COMMAND.
Definition is_related (f : Z) : bool := Flags.contains f RELATED_OPERATIONS.
Definition is_signed (f : Z) : bool := Flags.contains f SIGNED.
Definition set_response (f : Z) : Z := Flags.set f SERVER_TO_REDIR.
Definition set_async (f : Z) : Z := Flags.set f ASYNC_COMMAND.
Definition set_related (f : Z) : Z := Flags.set f RELATED_OPERATIONS.
Definition set_signed (f : Z) : Z := Flags.set f SIGNED.

End HeaderFlags.

Module SecurityMode.
Definition SIGNING_ENABLED : Z := 0x0001.
Definition SIGNING_REQUIRED : Z := 0x0002.
Definition signing_enabled (f : Z) : bool := Flags.contains f SIGNING_ENABLED.
Definition signing_required (f : Z) : bool := Flags.contains f SIGNING_REQUIRED.
End SecurityMode.

(** ** Errors ([error.rs]) *)

Inductive DurableLoss :=
| Expired | IdentityUnavailable | IdentityMismatch | NotDurable.

Inductive ErrorKind :=
| KAuthRequired | KSigningRequired | KAccessDenied | KNotFound | KAlreadyExists
| KSharingViolation | KIsADirectory | KNotADirectory | KDiskFull
| KConnectionLost | KTimedOut | KCancelled | KSessionExpired | KDfsReferral
| KInvalidData | KTooLarge | KIo | KInvalidName | KUnsupported | KOther.

(** Durations are nanosecond counts.  [Io] carries the description of the
    operating-system error. *)
Inductive Error :=
| InvalidData (message : string)
| Protocol (status : Z) (command : Command)
| Auth (message : string)
| Io (what : string)
| Timeout
| Disconnected
| ReconnectFailed (attempts : Z) (waited : Z) (cause : ErrorKind) (reason : string)
| DurableHandleLost (path : list Z) (reason : DurableLoss)
| DfsReferralRequired (path : list Z)
| Cancelled
| SessionExpired
| FileTooLargeForSingleRead (size max_read : Z)
| CreditStarvation (needed available waited : Z)
| SendTimeout (command : Command) (bytes waited : Z)
| ServerUnresponsive (silent_for : Z).

Definition invalid_data (msg : string) : Error := InvalidData msg.

Definition classify_status (s : Z) : ErrorKind :=
  if existsb (Z.eqb s)
       [NtStatus.LOGON_FAILURE; NtStatus.ACCOUNT_RESTRICTION;
        NtStatus.INVALID_LOGON_HOURS; NtStatus.INVALID_WORKSTATION;
        NtStatus.PASSWORD_EXPIRED; NtStatus.ACCOUNT_DISABLED;
        NtStatus.ACCOUNT_EXPIRED; NtStatus.PASSWORD_MUST_CHANGE;
        NtStatus.ACCOUNT_LOCKED_OUT] then KAuthRequired
  else if s =? NtStatus.ACCESS_DENIED then KAccessDenied
  else if s =? NtStatus.OBJECT_NAME_INVALID then KInvalidName
  else if existsb (Z.eqb s)
       [NtStatus.NO_SUCH_FILE; NtStatus.OBJECT_NAME_NOT_FOUND;
        NtStatus.OBJECT_PATH_NOT_FOUND; NtStatus.BAD_NETWORK_NAME] then KNotFound
  else if s =? NtStatus.OBJECT_NAME_COLLISION then KAlreadyExists
  else if s =? NtStatus.FILE_IS_A_DIRECTORY then KIsADirectory
  else if s =? NtStatus.NOT_A_DIRECTORY then KNotADirectory
  else if existsb (Z.eqb s)
       [NtStatus.SHARING_VIOLATION; NtStatus.FILE_LOCK_CONFLICT] then KSharingViolation
  else if s =? NtStatus.DISK_FULL then KDiskFull
  else if s =? NtStatus.NETWORK_SESSION_EXPIRED then KSessionExpired
  else if existsb (Z.eqb s)
       [NtStatus.NETWORK_NAME_DELETED; NtStatus.USER_SESSION_DELETED] then KConnectionLost
  else if s =? NtStatus.PATH_NOT_COVERED then KDfsReferral
  else if existsb (Z.eqb s)
       [NtStatus.NOT_SUPPORTED; NtStatus.INVALID_DEVICE_REQUEST;
        NtStatus.NOT_IMPLEMENTED] then KUnsupported
  else KOther.

Definition kind (e : Error) : ErrorKind :=
  match e with
  | InvalidData _ => KInvalidData
  | Auth _ => KAuthRequired
  | Io _ => KIo
  | Disconnected => KConnectionLost
  | Timeout => KTimedOut
  | Cancelled => KCancelled
  | SessionExpired => KSessionExpired
  | DfsReferralRequired _ => KDfsReferral
  | FileTooLargeForSingleRead _ _ => KTooLarge
  | CreditStarvation _ _ _ => KTimedOut
  | SendTimeout _ _ _ => KTimedOut
  | ServerUnresponsive _ => KConnectionLost
  | ReconnectFailed _ _ _ _ => KConnectionLost
  | DurableHandleLost _ _ => KConnectionLost
  | Protocol s _ => classify_status s
  end.

Definition is_retryable (e : Error) : bool :=
  match e with
  | Timeout | Disconnected | CreditStarvation _ _ _ | SendTimeout _ _ _
  | ServerUnresponsive _ | ReconnectFailed _ _ _ _ | DurableHandleLost _ _ => true
  | Protocol s _ =>
      (s =? NtStatus.INSUFFICIENT_RESOURCES) || (s =? NtStatus.INSUFF_SERVER_RESOURCES)
  | _ => false
  end.

(** [Error::status]: the NTSTATUS of a protocol error. *)
Definition error_status (e : Error) : option Z :=
  match e with Protocol s _ => Some s | _ => None end.

(** ** Lemmas *)

(** A computable injective code makes [enum_try_from] its inverse. *)
Lemma enum_try_from_code {A} (code : A → Z) all a :
  a ∈ all → (∀ x y, code x = code y → x = y) →
  enum_try_from code all (code a) = Some a.
Proof.
  intros Hin Hinj. unfold enum_try_from.
  destruct (list_find (λ x, code x = code a) all) as [[i b]|] eqn:E; simpl.
  - apply list_find_Some in E as (_ & Hb & _). f_equal. by apply Hinj.
  - apply list_find_None in E. rewrite Forall_forall in E. by destruct (E a Hin).
Qed.

Lemma enum_try_from_Some {A} (code : A → Z) all v a :
  enum_try_from code all v = Some a → code a = v.
Proof.
  unfold enum_try_from.
  destruct (list_find _ all) as [[i b]|] eqn:E; simpl; [|done].
  apply list_find_Some in E as (_ & Hb & _). by intros [= ->].
Qed.

Lemma Command_try_from_code c : Command_try_from (Command_code c) = Some c.
Proof. by destruct c. Qed.

Lemma Command_code_u16 c : is_u16 (Command_code c).
Proof. by destruct c. Qed.

Lemma Dialect_try_from_code d : Dialect_try_from (Dialect_code d) = Some d.
Proof. by destruct d. Qed.

Lemma Dialect_code_u16 d : is_u16 (Dialect_code d).
Proof. by destruct d. Qed.

Lemma OplockLevel_try_from_code o : OplockLevel_try_from (OplockLevel_code o) = Some o.
Proof. by destruct o. Qed.

Lemma OplockLevel_code_u8 o : is_u8 (OplockLevel_code o).
Proof. by destruct o. Qed.

#[export] Hint Resolve OplockLevel_code_u8 OplockLevel_try_from_code Command_code_u16 Dialect_code_u16 Command_try_from_code
  Dialect_try_from_code : smb.

Lemma contains_spec f flag :
  Flags.contains f flag = true ↔ (∀ i, Z.testbit flag i = true → Z.testbit f i = true).
Proof.
  unfold Flags.contains. rewrite Z.eqb_eq. split.
  - intros H i Hi. rewrite <- H, Z.land_spec in Hi. by destruct (Z.testbit f i).
  - intros H. apply Z.bits_inj'. intros i _. rewrite Z.land_spec.
    destruct (Z.testbit flag i) eqn:E; [by rewrite H | by destruct (Z.testbit f i)].
Qed.

Lemma lor_range w a b : 0 <= w → in_range w a → in_range w b → in_range w (Z.lor a b).
Proof.
  unfold in_range. intros Hw [Ha Ha'] [Hb Hb'].
  assert (0 <= Z.lor a b) by (apply Z.lor_nonneg; lia). split; [done|].
  destruct (Z.eq_dec (Z.lor a b) 0) as [->|Hne]; [apply Z.pow_pos_nonneg; lia|].
  apply Z.log2_lt_pow2; [lia|]. rewrite Z.log2_lor by done.
  assert (∀ x, 0 <= x → x < 2 ^ w → x = 0 ∨ Z.log2 x < w) as Hlog.
  { intros x Hx Hx'. destruct (Z.eq_dec x 0); [by left|]. right.
    apply Z.log2_lt_pow2; lia. }
  assert (w ≠ 0). { intros ->. assert (a = 0 ∧ b = 0) as [-> ->] by lia. done. }
  destruct (Hlog a), (Hlog b); subst; simpl; try lia.
  all: change (Z.log2 0) with 0; lia.
Qed.
