(* ===== verification/Fields.v ===== *)
(** * Fixed fields of byte buffers

    Client code that does not use cursors reads integers at fixed offsets of a
    slice, and builds messages as concatenations of integers.  Both sides are here:
    the reads, which panic out of range, and the layouts, with the lemmas that tie a
    read to the field it hits. *)

From S2P Require Import Prelude Types.

(** [uN::from_le_bytes(buf[a..b].try_into().unwrap())] *)
Definition le_at (buf : bytes) (a b : Z) : result Error Z := bs ← slice buf a b; Ok (of_le bs).
(** [buf[i]] *)
Definition byte_at (buf : bytes) (i : Z) : result Error Z := le_at buf i (i + 1).

(** [uN::to_be_bytes] and [uN::from_be_bytes] *)
Definition to_be (n : nat) (z : Z) : bytes := rev (to_le n z).
Definition of_be (l : bytes) : Z := of_le (rev l).

(** ** Layouts *)

(** Little-endian integers of the given widths, one after the other. *)
Definition fields (l : list (nat * Z)) : bytes := concat (map (λ f, to_le f.1 f.2) l).
Definition width (l : list (nat * Z)) : Z := foldr (λ f z, Z.of_nat f.1 + z) 0 l.

(** ** Lemmas *)

Lemma len_fields l : len (fields l) = width l.
Proof.
  induction l as [|[n v] l IH]; [done|]. unfold fields in *. cbn [map concat width foldr fst snd].
  rewrite len_app, IH, len_to_le. done.
Qed.

Lemma fields_app l l' : fields (l ++ l') = fields l ++ fields l'.
Proof. unfold fields. by rewrite map_app, concat_app. Qed.
Lemma fields_cons n v l : fields ((n, v) :: l) = to_le n v ++ fields l.
Proof. done. Qed.

(** Reading field [k]. *)
Lemma le_at_field l k n v a b :
  l !! k = Some (n, v) → a = width (take k l) → b = a + Z.of_nat n → in_range (8 * Z.of_nat n) v →
  le_at (fields l) a b = Ok v.
Proof.
  intros Hk -> -> Hv. unfold le_at.
  rewrite <- (take_drop_middle l k (n, v) Hk) at 1. rewrite fields_app, fields_cons.
  rewrite (slice_app (fields (take k l))); [|by rewrite len_fields|by rewrite len_fields, len_to_le].
  cbn [mbind result_bind]. by rewrite of_le_to_le_small.
Qed.

Ltac field k a :=
  erewrite (le_at_field _ k _ _ a); [cbn [mbind result_bind]|reflexivity|reflexivity|reflexivity|assumption].

(** A read inside the buffer gives a value. *)
Lemma le_at_ok buf a b : 0 <= a <= b → b <= len buf → ∃ v, le_at buf a b = Ok v.
Proof. intros Ha Hb. unfold le_at. rewrite slice_ok by lia. cbn [mbind result_bind]. eauto. Qed.

Ltac in_buffer :=
  repeat match goal with
  | |- context [le_at ?b ?x ?y] =>
      let v := fresh "v" in let E := fresh "E" in
      destruct (le_at_ok b x y) as [v E]; [lia|lia|]; rewrite E; cbn [mbind result_bind]
  end.

Lemma le_at_range (buf : bytes) a b v : 0 <= a <= b → le_at buf a b = Ok v → in_range (8 * (b - a)) v.
Proof.
  intros Ha. unfold le_at, slice. destruct (_ && _) eqn:E; [|done]. bool_prop.
  cbn [mbind result_bind]. intros [= <-]. pose proof (of_le_range (subslice buf a b)) as Hr.
  rewrite len_subslice in Hr by lia. unfold in_range. rewrite Z.pow_mul_r by lia. exact Hr.
Qed.

Lemma len_to_be n z : len (to_be n z) = Z.of_nat n.
Proof. unfold to_be, len. rewrite length_rev. by rewrite length_to_le. Qed.
Lemma of_be_to_be n z : in_range (8 * Z.of_nat n) z → of_be (to_be n z) = z.
Proof. intros Hz. unfold of_be, to_be. rewrite rev_involutive. by apply of_le_to_le_small. Qed.
#[export] Hint Rewrite len_to_be : len.

(** Reads that stay in the first part of a buffer. *)
Lemma le_at_app_l x rest a b : 0 <= a <= b → b <= len x → le_at (x ++ rest) a b = le_at x a b.
Proof.
  intros Ha Hb. unfold le_at. rewrite !slice_ok; [|lia|lia|lia|rewrite len_app; pose proof (len_nonneg rest); lia].
  by rewrite subslice_app_l.
Qed.

(** Reading an integer that is followed by anything. *)
Lemma le_at_app pre n v post a b :
  a = len pre → b = len pre + Z.of_nat n → in_range (8 * Z.of_nat n) v →
  le_at (pre ++ to_le n v ++ post) a b = Ok v.
Proof.
  intros -> -> Hv. unfold le_at. rewrite slice_app by (autorewrite with len; lia).
  cbn [mbind result_bind]. by rewrite of_le_to_le_small.
Qed.
