(* ===== verification/Pack.v ===== *)
(** * Binary serialisation primitives

    Models [src/pack/mod.rs] (the [ReadCursor] and [WriteCursor] types and the
    [Pack]/[Unpack] traits), [src/pack/filetime.rs] and [src/pack/guid.rs],
    and the two pieces of the Rust standard library they lean on: [u16]
    chunking of a byte slice and the UTF-16 codec of [String].

    The second half is the program logic the message files use: [reads_at] and
    [wtriple], judgements about a reader and a writer at a cursor position,
    with one rule per primitive, and [reader_ok], the safety contract every
    [unpack] is shown to meet. *)

From S2P Require Import Prelude Types.

(** ** ReadCursor *)

Record ReadCursor := RC { data : bytes; pos : Z }.

Abbreviation Reader := (st Error ReadCursor).

Definition ReadCursor_new (d : bytes) : ReadCursor := RC d 0.

Definition remaining (c : ReadCursor) : Z := len (data c) - pos c.
Definition rc_position : Reader Z := λ c, Ok (pos c, c).
Definition rc_remaining : Reader Z := λ c, Ok (remaining c, c).
Definition rc_is_empty (c : ReadCursor) : bool := remaining c =? 0.

Definition MAX_UNPACK_BUFFER : Z := 16 * 1024 * 1024.

Definition ensure (n : Z) : Reader unit := λ c,
  if remaining c <? n
  then Err (invalid_data "need {} bytes but only {} remain at offset {}")
  else Ok (tt, c).

(** [&self.data[self.pos..self.pos + n]] followed by [self.pos += n]. *)
Definition take_slice (n : Z) : Reader bytes := λ c,
  match slice (data c) (pos c) (pos c + n) with
  | Ok s => Ok (s, RC (data c) (pos c + n))
  | Err e => Err e
  | Panic => Panic
  end.

Definition read_array (n : Z) : Reader bytes := ensure n ;; take_slice n.

Definition read_u8 : Reader Z :=
  ensure 1 ;; bs ← take_slice 1;
  match bs with b :: _ => mret (u8_of_byte b) | [] => st_panic end.

Definition read_u16_le : Reader Z := bs ← read_array 2; mret (of_le bs).
Definition read_u32_le : Reader Z := bs ← read_array 4; mret (of_le bs).
Definition read_u64_le : Reader Z := bs ← read_array 8; mret (of_le bs).
Definition read_u128_le : Reader Z := bs ← read_array 16; mret (of_le bs).

Definition read_bytes (n : Z) : Reader bytes := ensure n ;; take_slice n.

Definition advance (n : Z) : Reader unit := λ c, Ok (tt, RC (data c) (pos c + n)).
Definition skip (n : Z) : Reader unit := ensure n ;; advance n.

Definition read_bytes_bounded (n : Z) : Reader bytes :=
  if n >? MAX_UNPACK_BUFFER
  then st_err (invalid_data "buffer size {} exceeds maximum {} bytes")
  else read_bytes n.

(** ** Strings: sequences of Unicode scalar values

    [char] is a [Z]; a Rust [String] is a list of scalar values. *)

Definition is_char (c : Z) : bool :=
  (0 <=? c) && (c <? 0xD800) || (0xE000 <=? c) && (c <? 0x110000).

Definition str_wf (s : list Z) : Prop := Forall (λ c, is_char c = true) s.

(** [char::encode_utf16] and [str::encode_utf16]. *)
Definition char_utf16 (c : Z) : list Z :=
  if c <? 0x10000 then [c]
  else [0xD800 + (c - 0x10000) / 0x400; 0xDC00 + (c - 0x10000) mod 0x400].

Definition encode_utf16 (s : list Z) : list Z := s ≫= char_utf16.

(** [String::from_utf16]: fails on an unpaired surrogate. *)
Fixpoint from_utf16 (us : list Z) : option (list Z) :=
  match us with
  | [] => Some []
  | u :: rest =>
      if (u <? 0xD800) || (0xDFFF <? u) then
        s ← from_utf16 rest; Some (u :: s)
      else if 0xDC00 <=? u then None
      else match rest with
           | [] => None
           | u2 :: rest' =>
               if (u2 <? 0xDC00) || (0xDFFF <? u2) then None
               else s ← from_utf16 rest';
                    Some ((0x10000 + (u - 0xD800) * 0x400 + (u2 - 0xDC00)) :: s)
           end
  end.

(** [chunks_exact(2).map(u16::from_le_bytes)] *)
Fixpoint chunks_u16 (bs : bytes) : list Z :=
  match bs with
  | b0 :: b1 :: rest => of_le [b0; b1] :: chunks_u16 rest
  | _ => []
  end.

Definition read_utf16_le (byte_len : Z) : Reader (list Z) :=
  if negb (byte_len mod 2 =? 0)
  then st_err (invalid_data "UTF-16LE byte length must be even, got {}")
  else
    raw ← read_bytes byte_len;
    match from_utf16 (chunks_u16 raw) with
    | Some s => mret s
    | None => st_err (invalid_data "invalid UTF-16LE encoding")
    end.

(** ** WriteCursor *)

Record WriteCursor := WC { buf : bytes }.

Abbreviation Writer := (st Error WriteCursor).

Definition WriteCursor_new : WriteCursor := WC [].
Definition into_inner (c : WriteCursor) : bytes := buf c.

Definition write_bytes (bs : bytes) : Writer unit := λ c, Ok (tt, WC (buf c ++ bs)).
Definition write_u8 (v : Z) : Writer unit := write_bytes [byte_of_u8 v].
Definition write_u16_le (v : Z) : Writer unit := write_bytes (to_le 2 v).
Definition write_u32_le (v : Z) : Writer unit := write_bytes (to_le 4 v).
Definition write_u64_le (v : Z) : Writer unit := write_bytes (to_le 8 v).
Definition write_u128_le (v : Z) : Writer unit := write_bytes (to_le 16 v).

Definition utf16_le_bytes (s : list Z) : bytes := encode_utf16 s ≫= to_le 2.
Definition write_utf16_le (s : list Z) : Writer unit := write_bytes (utf16_le_bytes s).

Definition write_zeros (n : Z) : Writer unit := write_bytes (zeros n).

Definition wc_position : Writer Z := λ c, Ok (len (buf c), c).

Definition align_to (alignment : Z) : Writer unit :=
  if alignment <=? 1 then mret tt
  else
    p ← wc_position;
    let remainder := p mod alignment in
    if negb (remainder =? 0) then write_zeros (alignment - remainder) else mret tt.

(** [self.buf[pos..pos + n].copy_from_slice(..)]: panics out of range. *)
Definition patch (l : bytes) (p : Z) (new : bytes) : bytes :=
  take (Z.to_nat p) l ++ new ++ drop (Z.to_nat (p + len new)) l.

Definition set_bytes_at (p : Z) (new : bytes) : Writer unit := λ c,
  if (0 <=? p) && (p + len new <=? len (buf c))
  then Ok (tt, WC (patch (buf c) p new))
  else Panic.

Definition set_u16_le_at (p v : Z) : Writer unit := set_bytes_at p (to_le 2 v).
Definition set_u32_le_at (p v : Z) : Writer unit := set_bytes_at p (to_le 4 v).

(** ** The [Pack] and [Unpack] traits *)

Class Pack (A : Type) := pack : A → Writer unit.
Class Unpack (A : Type) := unpack : Reader A.
#[global] Hint Mode Pack ! : typeclass_instances.
Arguments unpack A {_}.

(** The buffer of a cursor that has written [W]. *)
Definition written (W : Writer unit) : result Error bytes :=
  match W WriteCursor_new with
  | Ok (_, c) => Ok (into_inner c)
  | Err e => Err e
  | Panic => Panic
  end.

(** The bytes a value packs to, from an empty cursor. *)
Definition packed {A} `{Pack A} (a : A) : result Error bytes :=
  match pack a WriteCursor_new with
  | Ok (_, c) => Ok (into_inner c)
  | Err e => Err e
  | Panic => Panic
  end.

(** ** Idioms shared by the message bodies *)

(** [if n > 0 { read_bytes_bounded(n)?.to_vec() } else { Vec::new() }] *)
Definition read_opt_bounded (n : Z) : Reader bytes :=
  if n >? 0 then read_bytes_bounded n else mret [].

(** [T::try_from(raw)?] for an enum [T]. *)
Definition try_enum {A} (r : option A) (msg : string) : Reader A :=
  st_lift (match r with Some a => Ok a | None => Err (invalid_data msg) end).

(** The two halves of a [FileId], written and read one after the other. *)
Definition write_file_id (f : FileId) : Writer unit :=
  write_u64_le (persistent f) ;; write_u64_le (volatile f).
Definition read_file_id : Reader FileId :=
  persistent ← read_u64_le; volatile ← read_u64_le; mret (mkFileId persistent volatile).

(** Move forward to a wire offset counted from the SMB2 header, [start] being
    the position of the body: [target = start + offset.saturating_sub(64)],
    and [skip(target - current)] when that lies ahead. *)
Definition seek_body_offset (start offset : Z) : Reader unit :=
  current ← rc_position;
  let target := start + sat_sub offset 64 in
  if target >? current then skip (target - current) else mret tt.

(** ** FileTime ([pack/filetime.rs]) *)

Definition EPOCH_DIFF_100NS : Z := 116444736000000000.

Record FileTime := mkFileTime { ticks : Z }.

#[global] Instance FileTime_eq_dec : EqDecision FileTime.
Proof. solve_decision. Defined.

Definition FileTime_ZERO : FileTime := mkFileTime 0.
Definition FileTime_wf (t : FileTime) : Prop := is_u64 (ticks t).

(** A [SystemTime] is its signed distance from the Unix epoch in nanoseconds.
    [intervals as u64 + EPOCH_DIFF_100NS] panics on overflow (the behaviour of
    a debug build). *)
Definition from_system_time (t : Z) : result Error FileTime :=
  if 0 <=? t then
    let v := trunc 64 (t / 100) + EPOCH_DIFF_100NS in
    if v <? 2 ^ 64 then Ok (mkFileTime v) else Panic
  else
    Ok (mkFileTime (sat_sub EPOCH_DIFF_100NS (trunc 64 ((- t) / 100)))).

Definition to_system_time (ft : FileTime) : option Z :=
  if ticks ft <? EPOCH_DIFF_100NS then None
  else
    let nanos := (ticks ft - EPOCH_DIFF_100NS) * 100 in
    Some (trunc 64 (nanos / 1000000000) * 1000000000
          + trunc 32 (nanos mod 1000000000)).

#[global] Instance FileTime_pack : Pack FileTime := λ t, write_u64_le (ticks t).
#[global] Instance FileTime_unpack : Unpack FileTime :=
  v ← read_u64_le; mret (mkFileTime v).

(** ** Guid ([pack/guid.rs]) *)

Record Guid := mkGuid { data1 : Z; data2 : Z; data3 : Z; data4 : bytes }.

Definition Guid_ZERO : Guid := mkGuid 0 0 0 (zeros 8).

Definition Guid_wf (g : Guid) : Prop :=
  is_u32 (data1 g) ∧ is_u16 (data2 g) ∧ is_u16 (data3 g) ∧ len (data4 g) = 8.

#[global] Instance Guid_pack : Pack Guid := λ g,
  write_u32_le (data1 g) ;; write_u16_le (data2 g) ;;
  write_u16_le (data3 g) ;; write_bytes (data4 g).

#[global] Instance Guid_unpack : Unpack Guid :=
  data1 ← read_u32_le;
  data2 ← read_u16_le;
  data3 ← read_u16_le;
  raw ← read_bytes 8;
  mret (mkGuid data1 data2 data3 raw).
