(* ===== verification/Codec.v ===== *)
(** * A small program logic for cursors

    - [reads_at p R bs v]: started at position [p] with the bytes [bs] next in
      the buffer, [R] returns [v] and consumes exactly [bs].
    - [wtriple p b0 W b1 v]: started with [b0] written since position [p], [W]
      returns [v] with [b1] written since [p].
    - [reader_ok R P]: on every buffer [R] either fails with an error or
      returns a value satisfying [P] having moved forward inside the buffer,
      never panics, and does not depend on the bytes it did not consume.

    The class [Codec] ties a [Pack] and an [Unpack] instance together: the
    contract a message type promises to the connection layer. *)

From S2P Require Import Prelude Types Pack.

(** ** Readers at a known input *)

Definition reads_at {A} (p : Z) (R : Reader A) (bs : bytes) (v : A) : Prop :=
  ∀ pre post, len pre = p →
    R (RC (pre ++ bs ++ post) p) = Ok (v, RC (pre ++ bs ++ post) (p + len bs)).

Section reads_rules.
Context {A B : Type}.
Implicit Types (R : Reader A) (K : A → Reader B).

Lemma reads_ret p (v : A) : reads_at p (mret v) [] v.
Proof. intros pre post Hp. cbn. by rewrite len_nil, Z.add_0_r. Qed.

Lemma reads_bind p R K b1 b2 v w :
  reads_at p R b1 v → reads_at (p + len b1) (K v) b2 w →
  reads_at p (R ≫= K) (b1 ++ b2) w.
Proof.
  intros H1 H2 pre post Hp. unfold mbind, st_bind.
  rewrite <- app_assoc, (H1 pre (b2 ++ post) Hp).
  specialize (H2 (pre ++ b1) post). rewrite len_app, Hp, <- app_assoc in H2.
  rewrite H2 by done. by rewrite len_app, Z.add_assoc.
Qed.

Lemma reads_bind_nil p R K b v w :
  reads_at p R b v → reads_at (p + len b) (K v) [] w → reads_at p (R ≫= K) b w.
Proof. intros H1 H2. rewrite <- (app_nil_r b). by eapply reads_bind. Qed.

Lemma reads_bind_0 p R K b v w :
  reads_at p R [] v → reads_at p (K v) b w → reads_at p (R ≫= K) b w.
Proof.
  intros H1 H2. change b with ([] ++ b). eapply reads_bind; [done|].
  by rewrite len_nil, Z.add_0_r.
Qed.

Lemma reads_lift p (r : result Error A) v : r = Ok v → reads_at p (st_lift r) [] v.
Proof. intros ->. apply reads_ret. Qed.

End reads_rules.

Lemma reads_position p : reads_at p rc_position [] p.
Proof. intros pre post Hp. cbn. by rewrite len_nil, Z.add_0_r. Qed.

Lemma reads_fail_if p cond (e : Error) :
  cond = false → reads_at p (fail_if cond e) [] tt.
Proof. intros ->. apply reads_ret. Qed.

Lemma ensure_ok pre bs post n :
  n <= len bs → ensure n (RC (pre ++ bs ++ post) (len pre)) =
                Ok (tt, RC (pre ++ bs ++ post) (len pre)).
Proof.
  intros H. unfold ensure, remaining. cbn [data pos].
  rewrite !len_app. pose proof (len_nonneg post).
  by replace (_ <? n) with false by lia.
Qed.

Lemma reads_read_bytes p bs n : n = len bs → reads_at p (read_bytes n) bs bs.
Proof.
  intros -> pre post <-. unfold read_bytes, mbind, st_bind.
  rewrite ensure_ok by lia. unfold take_slice. cbn [data pos].
  by rewrite slice_app.
Qed.

Lemma reads_read_array p bs n : n = len bs → reads_at p (read_array n) bs bs.
Proof. apply reads_read_bytes. Qed.

Lemma reads_le n p v :
  in_range (8 * Z.of_nat n) v →
  reads_at p (bs ← read_array (Z.of_nat n); mret (of_le bs)) (to_le n v) v.
Proof.
  intros Hv. eapply reads_bind_nil.
  - apply reads_read_array. by rewrite len_to_le.
  - rewrite of_le_to_le_small by done. apply reads_ret.
Qed.

Lemma reads_u16 p v : is_u16 v → reads_at p read_u16_le (to_le 2 v) v.
Proof. apply (reads_le 2). Qed.
Lemma reads_u32 p v : is_u32 v → reads_at p read_u32_le (to_le 4 v) v.
Proof. apply (reads_le 4). Qed.
Lemma reads_u64 p v : is_u64 v → reads_at p read_u64_le (to_le 8 v) v.
Proof. apply (reads_le 8). Qed.

Lemma reads_u8 p v : is_u8 v → reads_at p read_u8 [byte_of_u8 v] v.
Proof.
  intros Hv pre post <-. unfold read_u8, mbind, st_bind.
  rewrite ensure_ok by done. unfold take_slice. cbn [data pos].
  rewrite (slice_app pre [byte_of_u8 v] post) by done. cbn.
  unfold in_range in Hv. by rewrite u8_of_byte_of_u8, Z.mod_small by lia.
Qed.

Lemma reads_skip p bs n : n = len bs → reads_at p (skip n) bs tt.
Proof.
  intros -> pre post <-. unfold skip, mbind, st_bind.
  by rewrite ensure_ok by lia.
Qed.

Lemma reads_bytes_bounded p bs n :
  n = len bs → n <= MAX_UNPACK_BUFFER → reads_at p (read_bytes_bounded n) bs bs.
Proof.
  intros Hn Hm. unfold read_bytes_bounded.
  replace (n >? _) with false by lia. by apply reads_read_bytes.
Qed.

Lemma reads_repeat {A} (enc : A → bytes) (R : Reader A) p l :
  (∀ q a, p <= q → a ∈ l → reads_at q R (enc a) a) →
  reads_at p (repeat_push (length l) R) (l ≫= enc) l.
Proof.
  revert p; induction l as [|a l IH]; intros p H; [apply reads_ret|].
  cbn [length repeat_push]. rewrite bind_cons.
  eapply reads_bind; [apply H; [lia|set_solver]|].
  eapply reads_bind_nil; [apply IH|apply reads_ret].
  intros q a' Hq Ha'. apply H; [pose proof (len_nonneg (enc a)); lia|set_solver].
Qed.

Lemma reads_opt_bounded p bs n :
  n = len bs → n <= MAX_UNPACK_BUFFER → reads_at p (read_opt_bounded n) bs bs.
Proof.
  intros -> Hm. unfold read_opt_bounded. case_test.
  - by apply reads_bytes_bounded.
  - assert (bs = []) as -> by (apply len_0_nil; pose proof (len_nonneg bs); lia).
    apply reads_ret.
Qed.

Lemma reads_try_enum {A} p (r : option A) msg a :
  r = Some a → reads_at p (try_enum r msg) [] a.
Proof. intros ->. apply reads_ret. Qed.

Lemma reads_file_id p f :
  FileId_wf f → reads_at p read_file_id (to_le 8 (persistent f) ++ to_le 8 (volatile f)) f.
Proof.
  intros [H1 H2]. destruct f as [a b]. cbn [persistent volatile] in *.
  unfold read_file_id.
  eapply reads_bind; [by apply reads_u64|].
  eapply reads_bind_nil; [by apply reads_u64|]. apply reads_ret.
Qed.

Lemma reads_filetime p t : FileTime_wf t → reads_at p (unpack FileTime) (to_le 8 (ticks t)) t.
Proof.
  intros H. destruct t as [v]. eapply reads_bind_nil; [by apply reads_u64|]. apply reads_ret.
Qed.

(** Seeking over the padding [pad] that precedes the wire offset. *)
Lemma reads_seek p start off pad :
  0 <= off - 64 → start + (off - 64) = p + len pad →
  reads_at p (seek_body_offset start off) pad tt.
Proof.
  intros H1 H2. unfold seek_body_offset.
  eapply reads_bind_0; [apply reads_position|]. cbv beta zeta.
  unfold sat_sub. rewrite Z.max_r by lia. rewrite H2. pose proof (len_nonneg pad).
  case_test.
  - apply reads_skip. lia.
  - assert (pad = []) as -> by (apply len_0_nil; lia). apply reads_ret.
Qed.

(** ** Writers *)

Definition wtriple {A} (p : Z) (b0 : bytes) (W : Writer A) (b1 : bytes) (v : A) : Prop :=
  ∀ pre, len pre = p → W (WC (pre ++ b0)) = Ok (v, WC (pre ++ b1)).

Section wrules.
Context {A B : Type}.
Implicit Types (W : Writer A) (K : A → Writer B).

Lemma w_ret p b (v : A) : wtriple p b (mret v) b v.
Proof. by intros pre Hp. Qed.

Lemma w_bind p b0 b1 b2 W K v w :
  wtriple p b0 W b1 v → wtriple p b1 (K v) b2 w → wtriple p b0 (W ≫= K) b2 w.
Proof.
  intros H1 H2 pre Hp. unfold mbind, st_bind. rewrite (H1 pre Hp). by apply H2.
Qed.

End wrules.

Lemma w_bytes p b bs : wtriple p b (write_bytes bs) (b ++ bs) tt.
Proof. intros pre Hp. unfold write_bytes. cbn. by rewrite app_assoc. Qed.
Lemma w_u8 p b v : wtriple p b (write_u8 v) (b ++ [byte_of_u8 v]) tt.
Proof. apply w_bytes. Qed.
Lemma w_u16 p b v : wtriple p b (write_u16_le v) (b ++ to_le 2 v) tt.
Proof. apply w_bytes. Qed.
Lemma w_u32 p b v : wtriple p b (write_u32_le v) (b ++ to_le 4 v) tt.
Proof. apply w_bytes. Qed.
Lemma w_u64 p b v : wtriple p b (write_u64_le v) (b ++ to_le 8 v) tt.
Proof. apply w_bytes. Qed.
Lemma w_utf16 p b s : wtriple p b (write_utf16_le s) (b ++ utf16_le_bytes s) tt.
Proof. apply w_bytes. Qed.
Lemma w_zeros p b n : wtriple p b (write_zeros n) (b ++ zeros n) tt.
Proof. apply w_bytes. Qed.
Lemma w_position p b : wtriple p b wc_position b (p + len b).
Proof. intros pre <-. unfold wc_position. cbn. by rewrite len_app. Qed.

Lemma w_file_id p b f :
  wtriple p b (write_file_id f) (b ++ to_le 8 (persistent f) ++ to_le 8 (volatile f)) tt.
Proof.
  unfold write_file_id. rewrite app_assoc. eapply w_bind; [apply w_u64|]. apply w_u64.
Qed.
Lemma w_filetime p b t : wtriple p b (pack t) (b ++ to_le 8 (ticks t)) tt.
Proof. apply w_u64. Qed.

(** Padding [align_to] adds at absolute position [q]. *)
Definition align_pad (alignment q : Z) : Z :=
  if q mod alignment =? 0 then 0 else alignment - q mod alignment.

Lemma align_pad_range al q : 1 < al → 0 <= align_pad al q < al.
Proof.
  intros H. unfold align_pad. pose proof (Z.mod_pos_bound q al ltac:(lia)).
  case_test; bool_prop; lia.
Qed.

Lemma align_pad_aligned al q : 1 < al → (q + align_pad al q) mod al = 0.
Proof.
  intros H. unfold align_pad. case_test; bool_prop.
  - by rewrite Z.add_0_r.
  - pose proof (Z.mod_pos_bound q al ltac:(lia)).
    rewrite (Z.div_mod q al) at 1 by lia.
    replace (_ + _ + _) with ((q / al + 1) * al) by lia. apply Z.mod_mul. lia.
Qed.

Lemma w_align p b al :
  1 < al → wtriple p b (align_to al) (b ++ zeros (align_pad al (p + len b))) tt.
Proof.
  intros Hal pre Hp. unfold align_to. replace (al <=? 1) with false by lia.
  unfold mbind, st_bind, wc_position. cbn [buf]. rewrite len_app, Hp.
  unfold align_pad. case_test; cbn; bool_prop.
  - replace (_ =? 0) with false by lia. cbn. by rewrite app_assoc.
  - replace (_ =? 0) with true by lia. cbn. by rewrite app_nil_r.
Qed.

Lemma w_set p a old b q new :
  q = p + len a → len old = len new →
  wtriple p (a ++ old ++ b) (set_bytes_at q new) (a ++ new ++ b) tt.
Proof.
  intros -> Hl pre <-. unfold set_bytes_at. cbn [buf].
  pose proof (len_nonneg a). pose proof (len_nonneg b). pose proof (len_nonneg pre).
  rewrite !len_app, Hl. replace (_ && _) with true by lia.
  do 3 f_equal. unfold patch.
  rewrite (app_assoc pre a).
  replace (Z.to_nat _) with (length (pre ++ a)) by len_lia.
  rewrite take_app_length, <- !app_assoc. do 3 f_equal.
  replace (Z.to_nat _) with (length (pre ++ a ++ old)) by len_lia.
  replace (pre ++ a ++ old ++ b) with ((pre ++ a ++ old) ++ b) by by rewrite <- !app_assoc.
  apply drop_app_length.
Qed.

Lemma w_set16 p a x b q v :
  q = p + len a → wtriple p (a ++ to_le 2 x ++ b) (set_u16_le_at q v) (a ++ to_le 2 v ++ b) tt.
Proof. intros. apply w_set; [done|]. by rewrite !len_to_le. Qed.
Lemma w_set32 p a x b q v :
  q = p + len a → wtriple p (a ++ to_le 4 x ++ b) (set_u32_le_at q v) (a ++ to_le 4 v ++ b) tt.
Proof. intros. apply w_set; [done|]. by rewrite !len_to_le. Qed.

(** The same with the split of the buffer given by an equation. *)
Lemma w_set16_at a x b p B q v :
  B = a ++ to_le 2 x ++ b → q = p + len a →
  wtriple p B (set_u16_le_at q v) (a ++ to_le 2 v ++ b) tt.
Proof. intros ->. apply w_set16. Qed.
Lemma w_set32_at a x b p B q v :
  B = a ++ to_le 4 x ++ b → q = p + len a →
  wtriple p B (set_u32_le_at q v) (a ++ to_le 4 v ++ b) tt.
Proof. intros ->. apply w_set32. Qed.

Lemma w_for_each {A} (enc : A → bytes) (f : A → Writer unit) p l b :
  (∀ a b', a ∈ l → wtriple p b' (f a) (b' ++ enc a) tt) →
  wtriple p b (for_each f l) (b ++ (l ≫= enc)) tt.
Proof.
  revert b; induction l as [|a l IH]; intros b H; cbn [for_each].
  - rewrite app_nil_r. apply w_ret.
  - rewrite bind_cons, app_assoc. eapply w_bind; [apply H; set_solver|].
    apply IH. set_solver.
Qed.

(** [pack] appends [bs] when started at position [p]. *)
Definition writes_at (p : Z) (W : Writer unit) (bs : bytes) : Prop :=
  wtriple p [] W bs tt.

Lemma writes_at_packed {A} `{Pack A} (a : A) bs :
  writes_at 0 (pack a) bs → packed a = Ok bs.
Proof.
  intros H0. unfold packed. unfold WriteCursor_new.
  pose proof (H0 [] eq_refl) as E. cbn in E. by rewrite E.
Qed.

Lemma written_layout W bs : writes_at 0 W bs → written W = Ok bs.
Proof. intros Hw. specialize (Hw [] eq_refl). unfold written, WriteCursor_new. cbn [app] in Hw. by rewrite Hw. Qed.

Lemma writes_at_wtriple p b W bs :
  writes_at (p + len b) W bs → wtriple p b W (b ++ bs) tt.
Proof.
  intros H pre Hp. specialize (H (pre ++ b)). rewrite app_nil_r in H.
  rewrite H; [by rewrite app_assoc|]. rewrite len_app. lia.
Qed.

(** ** Safety of readers *)

Definition reader_ok {A} (R : Reader A) (P : A → Prop) : Prop :=
  ∀ d p, 0 <= p <= len d →
    match R (RC d p) with
    | Ok (v, c) =>
        P v ∧ data c = d ∧ p <= pos c <= len d
        ∧ ∀ post, R (RC (d ++ post) p) = Ok (v, RC (d ++ post) (pos c))
    | Err _ => True
    | Panic => False
    end.

Section reader_ok_rules.
Context {A B : Type}.
Implicit Types (R : Reader A) (K : A → Reader B) (P : A → Prop) (Q : B → Prop).

Lemma rok_ret v P : P v → reader_ok (mret v) P.
Proof. intros HP d p Hp. cbn. auto with lia. Qed.

Lemma rok_err e P : reader_ok (st_err e) P.
Proof. by intros d p Hp. Qed.

Lemma rok_weaken R P P' : (∀ v, P v → P' v) → reader_ok R P → reader_ok R P'.
Proof.
  intros HP H d p Hp. specialize (H d p Hp).
  destruct (R (RC d p)) as [[v c]|e|]; [|done|done].
  destruct H as [Hv H]. split; [by apply HP|done].
Qed.

Lemma rok_bind R K P Q :
  reader_ok R P → (∀ v, P v → reader_ok (K v) Q) → reader_ok (R ≫= K) Q.
Proof.
  intros HR HK d p Hp. unfold mbind, st_bind. specialize (HR d p Hp).
  destruct (R (RC d p)) as [[v [d' p']]|e|] eqn:E; [|done|done].
  destruct HR as (HP & Hd & Hp' & Hext). cbn in Hd, Hp'. subst d'.
  specialize (HK v HP d p' ltac:(lia)).
  destruct (K v (RC d p')) as [[w [d'' p'']]|e|] eqn:E'; [|done|done].
  destruct HK as (HQ & Hd & Hp'' & Hext'). cbn in Hd, Hp''. subst d''.
  cbn. repeat split; [done|lia|lia|]. intros post. by rewrite Hext, Hext'.
Qed.

Lemma rok_if (b : bool) R R' P :
  (b = true → reader_ok R P) → (b = false → reader_ok R' P) →
  reader_ok (if b then R else R') P.
Proof. destruct b; auto. Qed.

End reader_ok_rules.

Lemma rok_ensure_take n :
  0 <= n → reader_ok (ensure n ;; take_slice n) (λ bs, len bs = n).
Proof.
  intros Hn d p Hp. unfold mbind, st_bind, ensure, remaining. cbn [data pos].
  case_test; [done|]. bool_prop. unfold take_slice. cbn [data pos].
  rewrite slice_ok by lia. cbn [pos data]. split; [|split; [done|split; [lia|]]].
  - rewrite len_subslice by lia. lia.
  - intros post. cbn [data pos]. pose proof (len_nonneg post).
    replace (_ <? n) with false by (rewrite len_app; lia). cbn [data pos].
    rewrite slice_ok by (rewrite ?len_app; lia).
    by rewrite subslice_app_l by lia.
Qed.

Lemma rok_read_bytes n : 0 <= n → reader_ok (read_bytes n) (λ bs, len bs = n).
Proof. apply rok_ensure_take. Qed.

Lemma rok_le n :
  reader_ok (bs ← read_array (Z.of_nat n); mret (of_le bs)) (in_range (8 * Z.of_nat n)).
Proof.
  eapply rok_bind; [apply rok_ensure_take; lia|]. intros bs Hbs. apply rok_ret.
  unfold in_range. pose proof (of_le_range bs) as H. rewrite Hbs in H.
  change 256 with (2 ^ 8) in H. by rewrite <- Z.pow_mul_r in H by lia.
Qed.

Lemma rok_u16 : reader_ok read_u16_le is_u16.
Proof. apply (rok_le 2). Qed.
Lemma rok_u32 : reader_ok read_u32_le is_u32.
Proof. apply (rok_le 4). Qed.
Lemma rok_u64 : reader_ok read_u64_le is_u64.
Proof. apply (rok_le 8). Qed.

Lemma rok_u8 : reader_ok read_u8 is_u8.
Proof.
  pose proof (rok_ensure_take 1 ltac:(lia)) as H. intros d p Hp.
  specialize (H d p Hp). unfold read_u8. unfold mbind, st_bind in *.
  destruct (ensure 1 (RC d p)) as [[[] c]|e|] eqn:E; [|done|done].
  destruct (take_slice 1 c) as [[bs c']|e|] eqn:E'; [|done|done].
  destruct H as (Hl & Hd & Hp' & Hext).
  destruct bs as [|b [|]]; try by (exfalso; revert Hl; len_lia).
  cbn. repeat split; try done; try apply u8_of_byte_range; try lia.
  intros post. specialize (Hext post).
  destruct (ensure 1 (RC (d ++ post) p)) as [[[] c2]|e|]; [|done|done].
  by rewrite Hext.
Qed.

Lemma rok_skip n : 0 <= n → reader_ok (skip n) (λ _, True).
Proof.
  intros Hn d p Hp. unfold skip, mbind, st_bind, ensure, remaining. cbn [data pos].
  case_test; [done|]. bool_prop. cbn. repeat split; try lia.
  intros post. pose proof (len_nonneg post).
  by replace (_ <? n) with false by (rewrite len_app; lia).
Qed.

Lemma rok_bytes_bounded n :
  0 <= n → reader_ok (read_bytes_bounded n) (λ bs, len bs = n ∧ n <= MAX_UNPACK_BUFFER).
Proof.
  intros Hn. unfold read_bytes_bounded. apply rok_if; intros H; [apply rok_err|].
  eapply rok_weaken; [|by apply rok_read_bytes]. cbn. lia.
Qed.

Lemma rok_position : reader_ok rc_position (λ v, 0 <= v).
Proof. intros d p Hp. cbn. auto with lia. Qed.

Lemma rok_fail_if cond (e : Error) : reader_ok (fail_if cond e) (λ _, cond = false).
Proof. destruct cond; [apply rok_err|by apply rok_ret]. Qed.

Lemma rok_lift {A} (r : result Error A) (P : A → Prop) :
  r ≠ Panic → (∀ v, r = Ok v → P v) → reader_ok (st_lift r) P.
Proof.
  intros Hr HP d p Hp. unfold st_lift. destruct r; [|done|done].
  cbn. repeat split; auto; lia.
Qed.

Lemma rok_repeat {A} n (R : Reader A) P :
  reader_ok R P → reader_ok (repeat_push n R) (λ l, length l = n ∧ Forall P l).
Proof.
  intros HR. induction n as [|n IH]; cbn [repeat_push]; [by apply rok_ret|].
  eapply rok_bind; [done|]. intros v Hv.
  eapply rok_bind; [done|]. intros l [Hl HP]. apply rok_ret. cbn. auto.
Qed.

Lemma rok_opt_bounded n :
  0 <= n → reader_ok (read_opt_bounded n) (λ bs, len bs = n ∧ n <= MAX_UNPACK_BUFFER).
Proof.
  intros Hn. unfold read_opt_bounded. apply rok_if; intros H; [by apply rok_bytes_bounded|].
  apply rok_ret. rewrite len_nil. unfold MAX_UNPACK_BUFFER. lia.
Qed.

Lemma rok_try_enum {A} (r : option A) msg : reader_ok (try_enum r msg) (λ a, r = Some a).
Proof. apply rok_lift; destruct r; congruence. Qed.

Lemma rok_file_id : reader_ok read_file_id FileId_wf.
Proof.
  unfold read_file_id. eapply rok_bind; [apply rok_u64|]. intros.
  eapply rok_bind; [apply rok_u64|]. intros. by apply rok_ret.
Qed.

Lemma rok_filetime : reader_ok (unpack FileTime) FileTime_wf.
Proof. eapply rok_bind; [apply rok_u64|]. intros. by apply rok_ret. Qed.

Lemma rok_seek start off : reader_ok (seek_body_offset start off) (λ _, True).
Proof.
  unfold seek_body_offset. eapply rok_bind; [apply rok_position|]. intros c Hc. cbv zeta.
  apply rok_if; intros H; [|by apply rok_ret]. apply rok_skip. lia.
Qed.

(** Wire integers are non-negative: what the length-driven rules need. *)
Lemma in_range_nonneg w z : in_range w z → 0 <= z.
Proof. unfold in_range. lia. Qed.

#[export] Hint Resolve in_range_nonneg : smb.
#[export] Hint Resolve rok_opt_bounded rok_try_enum rok_file_id rok_filetime rok_seek : smb.
#[export] Hint Resolve rok_u8 rok_u16 rok_u32 rok_u64 rok_read_bytes rok_skip
  rok_bytes_bounded rok_position rok_fail_if rok_repeat : smb.

(** A truncated input of a reader that needs all of [bs] is rejected. *)
Lemma reads_at_truncated {A} (R : Reader A) P bs v k :
  reader_ok R P → reads_at 0 R bs v → 0 <= k < len bs →
  is_err (R (ReadCursor_new (take (Z.to_nat k) bs))) = true.
Proof.
  intros Hok Hr Hk. unfold ReadCursor_new.
  specialize (Hok (take (Z.to_nat k) bs) 0).
  assert (len (take (Z.to_nat k) bs) = k) as Hlk by (revert Hk; len_lia).
  specialize (Hok ltac:(lia)).
  destruct (R (RC (take _ bs) 0)) as [[w c]|e|]; [|done|done].
  destruct Hok as (_ & _ & Hpos & Hext).
  specialize (Hext (drop (Z.to_nat k) bs)). rewrite take_drop in Hext.
  specialize (Hr [] [] eq_refl). cbn in Hr. rewrite app_nil_r, Hext in Hr.
  injection Hr as _ Hc. cbn in Hc. lia.
Qed.

(** A reader at the start of a buffer. *)
Lemma rok_start {A} (R : Reader A) P d :
  reader_ok R P →
  match R (ReadCursor_new d) with Ok (v, _) => P v | Err _ => True | Panic => False end.
Proof.
  intros H. specialize (H d 0). pose proof (len_nonneg d). unfold ReadCursor_new.
  destruct (R (RC d 0)) as [[v c]|e|]; [|done|]; apply H; lia.
Qed.

(** ** The codec contract *)

Class Codec (A : Type) `{Pack A, Unpack A} := {
  codec_wf : A → Prop;
  (** The bytes of a well-formed value packed at absolute position [p]. *)
  codec_layout : Z → A → bytes;
  codec_pack : ∀ p a, 0 <= p → codec_wf a → writes_at p (pack a) (codec_layout p a);
  codec_unpack : ∀ p a, 0 <= p → codec_wf a → reads_at p (unpack A) (codec_layout p a) a;
  codec_safe : reader_ok (unpack A) (λ _, True)
}.
Arguments codec_wf {A _ _ _} a.
Arguments codec_layout {A _ _ _} p a.

(** Packing never panics and unpacking what was packed gives the value back,
    with the cursor exactly at the end. *)
Definition round_trips {A} `{Pack A, Unpack A} (a : A) : Prop :=
  ∃ bs, packed a = Ok bs ∧
        unpack A (ReadCursor_new bs) = Ok (a, RC bs (len bs)) ∧
        ∀ k, 0 <= k < len bs →
             is_err (unpack A (ReadCursor_new (take (Z.to_nat k) bs))) = true.

Lemma codec_round_trips {A} `{Codec A} (a : A) : codec_wf a → round_trips a.
Proof.
  intros Hwf. exists (codec_layout 0 a). split.
  - apply writes_at_packed. by apply codec_pack.
  - pose proof (codec_unpack 0 a ltac:(lia) Hwf) as Hr. split.
    + specialize (Hr [] [] eq_refl). cbn in Hr. by rewrite app_nil_r in Hr.
    + intros k Hk. eapply reads_at_truncated; [apply codec_safe|done|done].
Qed.

(** ** Automation for codecs *)

(** One step of a writer; the remaining goal is the rest of the program. *)
Ltac wprim :=
  first [ apply w_u16 | apply w_u32 | apply w_u64 | apply w_u8 | apply w_utf16
        | apply w_file_id | apply w_filetime | apply w_zeros | apply w_position | apply w_bytes | apply w_ret ].
Ltac wstep := eapply w_bind; [wprim|]; cbv beta.
Ltac wsteps := repeat wstep.
(** Close a writer goal whose last step is a primitive, up to associativity. *)
Ltac wdone :=
  first [ eapply eq_ind_r with (P := λ b, wtriple _ _ _ b _); [wprim|]; cbn [app];
          rewrite <- ?app_assoc; cbn [app]; try reflexivity ].

(** Side conditions of the reader rules: ranges and lengths. *)
Ltac rside :=
  first [ assumption | reflexivity | done | solve [auto with smb]
        | by rewrite Z.eqb_refl | by rewrite bool_decide_eq_true_2
        | autorewrite with len; done | autorewrite with len; lia ].
Ltac rprim :=
  first [ apply reads_u16 | apply reads_u32 | apply reads_u64 | apply reads_u8
        | apply reads_file_id | apply reads_filetime
        | apply reads_read_bytes | apply reads_opt_bounded | apply reads_bytes_bounded ]; rside.
Ltac rstep :=
  first
    [ eapply reads_bind_0;
        [first [apply reads_position | apply reads_fail_if; rside
               | apply reads_try_enum; rside]|]
    | eapply reads_bind; [rprim|]
    | eapply reads_bind_nil; [rprim|] ]; cbv beta.
Ltac rsteps := repeat rstep; try apply reads_ret.

Ltac rokstep :=
  first
    [ apply rok_err
    | eapply rok_bind; [solve [eauto with smb lia] | intros; cbv beta in *]
    | apply rok_if; intros ].
Ltac roks := repeat rokstep.

(** The fields a well-formedness record speaks about. *)
Ltac rokdone := apply rok_ret; first [done | constructor; done | idtac].

(** [as u16]/[as u32] casts before writes disappear. *)
Ltac wtrunc := rewrite ?to_le_trunc16, ?to_le_trunc32.
