(* ===== verification/Utf16.v ===== *)
(** * UTF-16LE strings on the wire

    [write_utf16_le] and [read_utf16_le] of [src/pack/mod.rs] are inverse to
    each other: every Rust string survives the trip, and every byte sequence
    the reader accepts is the encoding of the string it returns. *)

From S2P Require Import Prelude Types Pack Codec.

Lemma char_utf16_u16 c : is_char c = true → Forall is_u16 (char_utf16 c).
Proof.
  unfold is_char, char_utf16, in_range. intros H.
  assert (0 <= c < 0x110000) by (bool_prop; destruct H; bool_prop; lia).
  case_test; bool_prop; repeat (apply Forall_cons; split); try apply Forall_nil; try done;
    pose proof (Z.div_mod (c - 0x10000) 0x400); pose proof (Z.mod_pos_bound (c - 0x10000) 0x400); lia.
Qed.

Lemma encode_utf16_u16 s : str_wf s → Forall is_u16 (encode_utf16 s).
Proof.
  induction 1 as [|c s Hc Hs IH]; [constructor|].
  unfold encode_utf16. rewrite bind_cons. apply Forall_app. split; [by apply char_utf16_u16|done].
Qed.

(** Decoding one encoded character. *)
Lemma from_utf16_char c us :
  is_char c = true → from_utf16 (char_utf16 c ++ us) = s ← from_utf16 us; Some (c :: s).
Proof.
  intros Hc. unfold char_utf16, is_char in *.
  destruct (c <? 0x10000) eqn:E; cbn [app from_utf16]; bool_prop.
  - replace (_ || _) with true by (destruct Hc; bool_prop; lia). done.
  - assert (0x10000 <= c < 0x110000) by (destruct Hc; bool_prop; lia).
    set (h := (c - 0x10000) / 0x400). set (l := (c - 0x10000) mod 0x400).
    assert (0 <= h < 0x400) by (subst h; split; [apply Z.div_pos|apply Z.div_lt_upper_bound]; lia).
    assert (0 <= l < 0x400) by (apply Z.mod_pos_bound; lia).
    replace ((_ <? 0xD800) || _) with false by lia.
    replace (0xDC00 <=? _) with false by lia.
    replace (_ || _) with false by lia.
    replace (0x10000 + _ + _) with c; [done|].
    subst h l. pose proof (Z.div_mod (c - 0x10000) 0x400). lia.
Qed.

Lemma from_utf16_encode s : str_wf s → from_utf16 (encode_utf16 s) = Some s.
Proof.
  induction 1 as [|c s Hc Hs IH]; [done|].
  unfold encode_utf16 in *. rewrite bind_cons, from_utf16_char by done.
  by rewrite IH.
Qed.

(** The other direction: a decoded string is well-formed and re-encodes to the
    same units. *)
Lemma from_utf16_sound us s :
  Forall is_u16 us → from_utf16 us = Some s → str_wf s ∧ encode_utf16 s = us.
Proof.
  remember (length us) as n eqn:Hn. revert us s Hn.
  induction (lt_wf n) as [n _ IH]. intros us s -> Hus Hs.
  destruct us as [|u us]; cbn [from_utf16] in Hs; [injection Hs as <-; split; [constructor|done]|].
  apply Forall_cons in Hus as [Hu Hus]. unfold in_range in Hu.
  unfold encode_utf16, str_wf. destruct (_ || _) eqn:E1.
  - destruct (from_utf16 us) as [s'|] eqn:E; [|done]. injection Hs as <-.
    destruct (IH (length us) ltac:(cbn; lia) us s' eq_refl Hus E) as [Hw He].
    rewrite bind_cons. unfold char_utf16 at 1. replace (u <? 0x10000) with true by lia.
    split; [|by cbn; f_equal]. constructor; [|done].
    unfold is_char. bool_prop. destruct E1; bool_prop; lia.
  - destruct (_ <=? u) eqn:E2; [done|]. destruct us as [|u2 us]; [done|].
    destruct ((u2 <? _) || _) eqn:E3; [done|].
    destruct (from_utf16 us) as [s'|] eqn:E; [|done]. injection Hs as <-.
    apply Forall_cons in Hus as [Hu2 Hus]. bool_prop.
    destruct (IH (length us) ltac:(cbn; lia) us s' eq_refl Hus E) as [Hw He].
    set (c := 0x10000 + (u - 0xD800) * 0x400 + (u2 - 0xDC00)).
    rewrite bind_cons. unfold char_utf16 at 1. replace (c <? 0x10000) with false by lia.
    split; [constructor; [unfold is_char; lia|done]|].
    cbn [app]. unfold encode_utf16 in He. rewrite He.  f_equal; [|f_equal].
    + replace (c - 0x10000) with ((u2 - 0xDC00) + (u - 0xD800) * 0x400) by (subst c; lia).
      rewrite Z.div_add, Z.div_small by lia. lia.
    + replace (c - 0x10000) with ((u2 - 0xDC00) + (u - 0xD800) * 0x400) by (subst c; lia).
      rewrite Z_mod_plus_full, Z.mod_small by lia. lia.
Qed.

Lemma chunks_u16_to_le us : Forall is_u16 us → chunks_u16 (us ≫= to_le 2) = us.
Proof.
  induction 1 as [|u us Hu Hus IH]; [done|].
  rewrite bind_cons. change (to_le 2 u) with [byte_of_u8 u; byte_of_u8 (u / 256)].
  cbn [app chunks_u16]. rewrite IH. f_equal.
  apply (of_le_to_le_small 2 u Hu).
Qed.

Lemma len_units us : len (us ≫= to_le 2) = 2 * len us.
Proof.
  induction us as [|u us IH]; [done|].
  rewrite bind_cons, len_app, IH, len_to_le, len_cons. lia.
Qed.

Lemma len_utf16_even s : len (utf16_le_bytes s) mod 2 = 0.
Proof.
  unfold utf16_le_bytes. rewrite len_units, Z.mul_comm. apply Z.mod_mul. lia.
Qed.

Lemma len_utf16_nil s : str_wf s → len (utf16_le_bytes s) = 0 → s = [].
Proof.
  intros _. destruct s as [|c s]; [done|]. unfold utf16_le_bytes, encode_utf16.
  rewrite bind_cons, len_units, len_app. unfold char_utf16 at 1.
  pose proof (len_nonneg (s ≫= char_utf16)). case_test; rewrite !len_cons, len_nil; intros; exfalso; lia.
Qed.

Lemma reads_utf16 p s n :
  str_wf s → n = len (utf16_le_bytes s) →
  reads_at p (read_utf16_le n) (utf16_le_bytes s) s.
Proof.
  intros Hs ->. unfold read_utf16_le. rewrite len_utf16_even. cbn [Z.eqb negb].
  eapply reads_bind_nil; [by apply reads_read_bytes|]. cbv beta.
  unfold utf16_le_bytes. rewrite chunks_u16_to_le by by apply encode_utf16_u16.
  rewrite from_utf16_encode by done. apply reads_ret.
Qed.

Lemma chunks_u16_range bs : Forall is_u16 (chunks_u16 bs).
Proof.
  remember (length bs) as n eqn:Hn. revert bs Hn.
  induction (lt_wf n) as [n _ IH]. intros bs ->.
  destruct bs as [|b0 [|b1 bs]]; [constructor|constructor|]. cbn [chunks_u16].
  constructor; [|apply (IH (length bs)); [cbn; lia|done]].
  pose proof (of_le_range [b0; b1]) as H. exact H.
Qed.

Lemma rok_utf16 n : 0 <= n → reader_ok (read_utf16_le n) str_wf.
Proof.
  intros Hn. unfold read_utf16_le. apply rok_if; intros _; [apply rok_err|].
  eapply rok_bind; [by apply rok_read_bytes|]. intros raw _.
  destruct (from_utf16 _) as [s|] eqn:E; [|apply rok_err]. apply rok_ret.
  eapply from_utf16_sound; [|done]. apply chunks_u16_range.
Qed.

#[export] Hint Resolve rok_utf16 : smb.
