(* ===== verification/Name.v ===== *)
(** * Mapping of file names onto the wire ([src/name.rs])

    SMB2 forbids some characters in names; the client substitutes private-use
    code points on the way out and maps them back on the way in.  Strings are
    lists of Unicode scalar values, as in [Pack].

    Shown here: an encoded name is legal for the server; decoding inverts
    encoding on every name free of the private-use block; encoding inverts
    decoding on every wire name this client or a compatible one can have
    written; and paths round-trip component by component. *)

From S2P Require Import Prelude Types Pack.

Module Name.

(** [char::from_u32] *)
Definition from_u32 (v : Z) : option Z := if is_char v then Some v else None.

Definition PUA_BASE : Z := 0xF000.
Definition PUA_LAST : Z := 0xF029.
Definition WIRE_TRAILING_SPACE : Z := 0xF028.
Definition WIRE_TRAILING_PERIOD : Z := 0xF029.

(** ASCII characters the code names. *)
Definition SPACE : Z := 0x20.
Definition QUOTE : Z := 0x22.
Definition STAR : Z := 0x2A.
Definition PERIOD : Z := 0x2E.
Definition SLASH : Z := 0x2F.
Definition COLON : Z := 0x3A.
Definition LT : Z := 0x3C.
Definition GT : Z := 0x3E.
Definition QUESTION : Z := 0x3F.
Definition BACKSLASH : Z := 0x5C.
Definition PIPE : Z := 0x7C.

Definition encode_char (c : Z) : option Z :=
  if (0x01 <=? c) && (c <=? 0x1F) then from_u32 (PUA_BASE + c)
  else if c =? QUOTE then Some 0xF020
  else if c =? STAR then Some 0xF021
  else if c =? COLON then Some 0xF022
  else if c =? LT then Some 0xF023
  else if c =? GT then Some 0xF024
  else if c =? QUESTION then Some 0xF025
  else if c =? BACKSLASH then Some 0xF026
  else if c =? PIPE then Some 0xF027
  else None.

Definition decode_char (c : Z) : option Z :=
  if (0xF001 <=? c) && (c <=? 0xF01F) then from_u32 (c - PUA_BASE)
  else if c =? 0xF020 then Some QUOTE
  else if c =? 0xF021 then Some STAR
  else if c =? 0xF022 then Some COLON
  else if c =? 0xF023 then Some LT
  else if c =? 0xF024 then Some GT
  else if c =? 0xF025 then Some QUESTION
  else if c =? 0xF026 then Some BACKSLASH
  else if c =? 0xF027 then Some PIPE
  else if c =? 0xF028 then Some SPACE
  else if c =? 0xF029 then Some PERIOD
  else None.

(** The [while let] loop of [encode_name], [rest] being what [peek] sees. *)
Fixpoint encode_loop (chars : list Z) : list Z :=
  match chars with
  | [] => []
  | c :: rest =>
      let is_last := match rest with [] => true | _ => false end in
      let mapped :=
        if (c =? SPACE) && is_last then Some WIRE_TRAILING_SPACE
        else if (c =? PERIOD) && is_last then Some WIRE_TRAILING_PERIOD
        else encode_char c in
      default c mapped :: encode_loop rest
  end.

Definition encode_name (name : list Z) : list Z :=
  let ends_illegally :=
    match last name with
    | Some c => (c =? SPACE) || (c =? PERIOD)
    | None => false
    end in
  if negb ends_illegally && negb (existsb (λ c, bool_decide (is_Some (encode_char c))) name)
  then name
  else encode_loop name.

Definition is_mapped (c : Z) : bool := (c >? PUA_BASE) && (c <=? PUA_LAST).

Definition decode_name (name : list Z) : list Z :=
  if negb (existsb is_mapped name) then name
  else map (λ c, default c (decode_char c)) name.

(** [str::trim_start_matches(c)], [str::split(c)] and pushing the pieces back
    with a separator between them. *)
Fixpoint trim_start (sep : Z) (s : list Z) : list Z :=
  match s with
  | c :: rest => if c =? sep then trim_start sep rest else s
  | [] => []
  end.

Fixpoint split (sep : Z) (s : list Z) : list (list Z) :=
  match s with
  | [] => [[]]
  | c :: rest =>
      if c =? sep then [] :: split sep rest
      else match split sep rest with
           | piece :: pieces => (c :: piece) :: pieces
           | [] => [[c]]
           end
  end.

(** [for (i, component) in it.enumerate() { if i > 0 { out.push(sep) } .. }] *)
Fixpoint push_pieces (sep : Z) (i : nat) (pieces : list (list Z)) : list Z :=
  match pieces with
  | [] => []
  | p :: ps => (if (0 <? i)%nat then [sep] else []) ++ p ++ push_pieces sep (S i) ps
  end.

Definition encode_component (component : list Z) : list Z :=
  if bool_decide (component = [PERIOD]) || bool_decide (component = [PERIOD; PERIOD])
  then component
  else encode_name component.

Definition encode_path (path : list Z) : list Z :=
  push_pieces BACKSLASH 0 (map encode_component (split SLASH (trim_start SLASH path))).

Definition decode_path (path : list Z) : list Z :=
  push_pieces SLASH 0 (map decode_name (split BACKSLASH path)).

(** ** Characters *)

(** Legal anywhere in an SMB2 name. *)
Definition legal_char (c : Z) : Prop := encode_char c = None.
(** Illegal only as the last character of a component. *)
Definition illegal_at_end (c : Z) : Prop := c = SPACE ∨ c = PERIOD.
(** Free of the private-use block of the scheme. *)
Definition unmapped (s : list Z) : Prop := Forall (λ c, is_mapped c = false) s.

(** A name the server accepts. *)
Definition wire_legal (w : list Z) : Prop :=
  Forall legal_char w ∧ ∀ c, last w = Some c → ¬ illegal_at_end c.

(** The two positional substitutes appear at the end only. *)
Fixpoint trailing_only (w : list Z) : Prop :=
  match w with
  | [] | [_] => True
  | c :: rest => c ≠ WIRE_TRAILING_SPACE ∧ c ≠ WIRE_TRAILING_PERIOD ∧ trailing_only rest
  end.

(** Case analysis over the tables. *)
Ltac table_step :=
  match goal with
  | H : context [if ?b then _ else _] |- _ => destruct b eqn:?; bool_prop
  | |- context [if ?b then _ else _] => destruct b eqn:?; bool_prop
  end.
Ltac consts := unfold PUA_BASE, PUA_LAST, WIRE_TRAILING_SPACE, WIRE_TRAILING_PERIOD, SPACE,
  QUOTE, STAR, PERIOD, SLASH, COLON, LT, GT, QUESTION, BACKSLASH, PIPE in *.

Lemma is_mapped_false c : is_mapped c = false ↔ ¬ (0xF001 <= c <= 0xF029).
Proof. unfold is_mapped. consts. lia. Qed.

Lemma encode_char_range c c' : encode_char c = Some c' → 0xF001 <= c' <= 0xF027.
Proof.
  unfold encode_char, from_u32, is_char. consts. intros H.
  repeat table_step; try done; injection H as <-; lia.
Qed.

Lemma decode_encode_char c c' : encode_char c = Some c' → decode_char c' = Some c.
Proof.
  intros H. unfold encode_char in H. repeat table_step; try done.
  { unfold from_u32, is_char in H. consts. table_step; [|done]. injection H as <-.
    unfold decode_char, from_u32. consts.
    replace ((_ <=? _) && _) with true by lia.
    replace (0xF000 + c - 0xF000) with c by lia.
    unfold is_char. by replace (_ || _) with true by lia. }
  all: by injection H as <-; subst.
Qed.

Lemma encode_decode_char c c' :
  decode_char c = Some c' → c ≠ WIRE_TRAILING_SPACE → c ≠ WIRE_TRAILING_PERIOD →
  encode_char c' = Some c.
Proof.
  intros H H1 H2. unfold decode_char in H.
  destruct ((_ <=? c) && _) eqn:E.
  - unfold from_u32, is_char in H. consts. table_step; [|done]. injection H as <-.
    unfold encode_char, from_u32. consts. replace ((_ <=? _) && _) with true by lia.
    replace (0xF000 + (c - 0xF000)) with c by lia.
    unfold is_char. by replace (_ || _) with true by lia.
  - clear E. consts. repeat (table_step; [injection H as <-; subst; done|]). done.
Qed.

Lemma decode_char_None c : decode_char c = None ↔ is_mapped c = false.
Proof.
  rewrite is_mapped_false. unfold decode_char, from_u32, is_char. consts.
  split; [|intros; repeat table_step; (done || (exfalso; lia))].
  intros H. repeat table_step; try done; try lia.
Qed.

Lemma decode_char_identity c : is_mapped c = false → default c (decode_char c) = c.
Proof. rewrite <- decode_char_None. by intros ->. Qed.

(** ** Names *)

(** The fast paths change nothing. *)
Lemma decode_name_map name : decode_name name = map (λ c, default c (decode_char c)) name.
Proof.
  unfold decode_name. destruct (existsb is_mapped name) eqn:E; [done|]. cbn [negb].
  induction name as [|c s IH]; [done|]. cbn [existsb map] in *. bool_prop.
  rewrite decode_char_identity by done. f_equal. by apply IH.
Qed.

Lemma encode_loop_fixed name :
  wire_legal name → encode_loop name = name.
Proof.
  induction name as [|c s IH]; [done|]. intros [Hl Hend]. apply Forall_cons in Hl as [Hc Hl].
  cbn [encode_loop]. f_equal.
  - unfold legal_char in Hc. rewrite Hc.
    destruct s; [|by rewrite !andb_false_r].
    specialize (Hend c eq_refl). unfold illegal_at_end in Hend.
    destruct (c =? SPACE) eqn:E1; bool_prop; [tauto|].
    destruct (c =? PERIOD) eqn:E2; bool_prop; [tauto|]. done.
  - destruct s as [|d s]; [done|]. apply IH. by split.
Qed.

Lemma encode_name_loop name : encode_name name = encode_loop name.
Proof.
  unfold encode_name. destruct (negb _ && negb _) eqn:E; [|done]. bool_prop.
  symmetry. apply encode_loop_fixed. split.
  - clear H. apply Forall_forall. intros c Hc. unfold legal_char.
    destruct (encode_char c) eqn:Ec; [|done]. exfalso.
    assert (existsb (λ c, bool_decide (is_Some (encode_char c))) name = true); [|congruence].
    apply existsb_exists. exists c. split; [by apply list_elem_of_In|].
    rewrite Ec. by apply bool_decide_eq_true.
  - intros c Hc. rewrite Hc in H. bool_prop. intros [-> | ->]; done.
Qed.

(** One character of the loop: what is written for [c], last or not. *)
Definition encode_at (is_last : bool) (c : Z) : Z :=
  default c (if (c =? SPACE) && is_last then Some WIRE_TRAILING_SPACE
             else if (c =? PERIOD) && is_last then Some WIRE_TRAILING_PERIOD
             else encode_char c).

Lemma encode_at_legal is_last c : legal_char (encode_at is_last c).
Proof.
  unfold encode_at. case_test; [done|]. case_test; [done|].
  destruct (encode_char c) as [c'|] eqn:E; [|done]. cbn.
  apply encode_char_range in E. unfold legal_char, encode_char. consts.
  repeat table_step; try done; lia.
Qed.

Lemma encode_at_end c : ¬ illegal_at_end (encode_at true c).
Proof.
  unfold encode_at, illegal_at_end. rewrite !andb_true_r.
  case_test; [consts; cbn; lia|]. case_test; [consts; cbn; lia|]. bool_prop.
  destruct (encode_char c) as [c'|] eqn:E; cbn; [apply encode_char_range in E; consts; lia|tauto].
Qed.

Lemma decode_encode_at is_last c :
  is_mapped c = false → default (encode_at is_last c) (decode_char (encode_at is_last c)) = c.
Proof.
  intros Hc. unfold encode_at. case_test; [cbn; bool_prop; done|].
  case_test; [cbn; bool_prop; done|].
  destruct (encode_char c) as [c'|] eqn:E; cbn.
  - by rewrite (decode_encode_char _ _ E).
  - by apply decode_char_identity.
Qed.

Lemma encode_loop_legal name : wire_legal (encode_loop name).
Proof.
  induction name as [|c s [IHl IHe]]; [split; [constructor|done]|].
  change (encode_loop (c :: s)) with
    (encode_at (match s with [] => true | _ => false end) c :: encode_loop s).
  split.
  - constructor; [apply encode_at_legal|done].
  - intros x Hx. destruct s as [|d s].
    + injection Hx as <-. apply encode_at_end.
    + by apply IHe.
Qed.

Lemma decode_encode_name name : unmapped name → decode_name (encode_name name) = name.
Proof.
  rewrite encode_name_loop, decode_name_map. induction 1 as [|c s Hc Hs IH]; [done|].
  change (encode_loop (c :: s)) with
    (encode_at (match s with [] => true | _ => false end) c :: encode_loop s).
  cbn [map]. by rewrite decode_encode_at, IH.
Qed.

(** A legal wire character, decoded and written again at the same place. *)
Lemma encode_at_decode is_last c :
  legal_char c → (is_last = true → ¬ illegal_at_end c) →
  (is_last = false → c ≠ WIRE_TRAILING_SPACE ∧ c ≠ WIRE_TRAILING_PERIOD) →
  encode_at is_last (default c (decode_char c)) = c.
Proof.
  intros Hl Hend Htr. destruct (decode_char c) as [c'|] eqn:E; cbn.
  - destruct (decide (c = WIRE_TRAILING_SPACE)) as [->|N1].
    { destruct is_last; [by injection E as <-|]. by destruct (Htr eq_refl). }
    destruct (decide (c = WIRE_TRAILING_PERIOD)) as [->|N2].
    { destruct is_last; [by injection E as <-|]. by destruct (Htr eq_refl). }
    pose proof (encode_decode_char _ _ E N1 N2) as E'. unfold encode_at.
    destruct (c' =? SPACE) eqn:E1; bool_prop; [by subst c'|].
    destruct (c' =? PERIOD) eqn:E2; bool_prop; [by subst c'|].
    cbn. by rewrite E'.
  - unfold encode_at. unfold legal_char in Hl. rewrite Hl. destruct is_last.
    + specialize (Hend eq_refl). unfold illegal_at_end in Hend.
      destruct (c =? SPACE) eqn:E1; bool_prop; [tauto|].
      destruct (c =? PERIOD) eqn:E2; bool_prop; [tauto|]. done.
    + by rewrite !andb_false_r.
Qed.

(** ** Paths *)

Lemma split_not_nil sep s : split sep s ≠ [].
Proof. induction s; cbn [split]; [done|]. case_test; [done|]. by destruct (split sep s). Qed.

Lemma split_no_sep sep s : Forall (λ p, sep ∉ p) (split sep s).
Proof.
  induction s as [|c s IH]; cbn [split]; [repeat constructor; set_solver|].
  case_test; bool_prop; [constructor; [set_solver|done]|].
  destruct (split sep s) as [|p ps]; [repeat constructor; set_solver|].
  inversion_clear IH. constructor; [set_solver|done].
Qed.

Lemma push_pieces_S sep i pieces :
  push_pieces sep (S i) pieces = pieces ≫= (λ p, sep :: p).
Proof. revert i; induction pieces as [|p ps IH]; intros i; cbn; [done|]. by rewrite IH. Qed.

Lemma push_pieces_cons sep p ps :
  push_pieces sep 0 (p :: ps) = p ++ (ps ≫= (λ p, sep :: p)).
Proof. cbn [push_pieces]. by rewrite push_pieces_S. Qed.

Lemma join_split sep s : push_pieces sep 0 (split sep s) = s.
Proof.
  induction s as [|c s IH]; [done|]. cbn [split]. case_test; bool_prop.
  - rewrite push_pieces_cons. destruct (split sep s) as [|p ps] eqn:E; [by apply split_not_nil in E|].
    rewrite push_pieces_cons in IH. rewrite bind_cons. cbn. by rewrite IH; subst.
  - destruct (split sep s) as [|p ps] eqn:E; [by apply split_not_nil in E|].
    rewrite push_pieces_cons in *. cbn. by rewrite IH.
Qed.

Lemma split_piece sep p s :
  sep ∉ p → split sep (p ++ sep :: s) = p :: split sep s.
Proof.
  induction p as [|c p IH]; intros H; cbn [app split]; [by rewrite Z.eqb_refl|].
  replace (c =? sep) with false by (symmetry; apply Z.eqb_neq; set_solver).
  rewrite IH by set_solver. done.
Qed.

Lemma split_single sep p : sep ∉ p → split sep p = [p].
Proof.
  induction p as [|c p IH]; intros H; cbn [split]; [done|].
  replace (c =? sep) with false by (symmetry; apply Z.eqb_neq; set_solver).
  rewrite IH by set_solver. done.
Qed.

Lemma split_join sep pieces :
  pieces ≠ [] → Forall (λ p, sep ∉ p) pieces → split sep (push_pieces sep 0 pieces) = pieces.
Proof.
  intros Hne H. induction H as [|p ps Hp Hps IH]; [done|].
  rewrite push_pieces_cons. destruct ps as [|q qs].
  - cbn. rewrite app_nil_r. by apply split_single.
  - rewrite bind_cons. cbn [app]. rewrite split_piece by done.
    f_equal. rewrite <- push_pieces_cons. by apply IH.
Qed.

Lemma wire_legal_no_backslash w : wire_legal w → BACKSLASH ∉ w.
Proof. intros [H _] Hin. by apply (Forall_forall _ _) with (x := BACKSLASH) in H. Qed.

Lemma encode_component_no_backslash p : BACKSLASH ∉ encode_component p.
Proof.
  unfold encode_component. case_test.
  - apply orb_true_iff in Heqb as [H|H]; apply bool_decide_eq_true in H; subst; set_solver.
  - rewrite encode_name_loop. apply wire_legal_no_backslash, encode_loop_legal.
Qed.

Lemma decode_encode_component p : unmapped p → decode_name (encode_component p) = p.
Proof.
  intros H. unfold encode_component. case_test; [|by apply decode_encode_name].
  apply orb_true_iff in Heqb as [E|E]; apply bool_decide_eq_true in E; by subst.
Qed.

Lemma elem_of_split sep s p c : p ∈ split sep s → c ∈ p → c ∈ s.
Proof.
  revert p; induction s as [|d s IH]; intros p; cbn [split]; [by intros ->%list_elem_of_singleton|].
  case_test.
  - intros [->|Hp]%elem_of_cons Hc; [by apply elem_of_nil in Hc|]. right. by apply (IH p).
  - destruct (split sep s) as [|q qs]; [intros ->%list_elem_of_singleton ->%list_elem_of_singleton; by left|].
    intros [->|Hp]%elem_of_cons Hc; [|right; apply (IH p); [by right|done]].
    apply elem_of_cons in Hc as [->|Hc]; [by left|].
    right. by apply (IH q); [left|].
Qed.

Lemma trim_start_elem sep s c : c ∈ trim_start sep s → c ∈ s.
Proof. induction s as [|d s IH]; cbn; [done|]. case_test; set_solver. Qed.

Lemma split_encode_path path :
  split BACKSLASH (encode_path path) =
  map encode_component (split SLASH (trim_start SLASH path)).
Proof.
  unfold encode_path. apply split_join.
  - intros H. apply map_eq_nil in H. by apply split_not_nil in H.
  - apply Forall_forall. intros p Hp. apply list_elem_of_fmap in Hp as (q & -> & _).
    apply encode_component_no_backslash.
Qed.

(** ** Properties *)

(** Whatever the caller's name is, what [encode_name] puts on the
    wire holds no character SMB2 forbids and does not end in a space or a
    period; encoding twice is encoding once; and when the name is free of the
    private-use block, decoding gives it back. *)
Theorem encode_name_legal name :
  wire_legal (encode_name name) ∧
  encode_name (encode_name name) = encode_name name ∧
  (unmapped name → decode_name (encode_name name) = name).
Proof.
  split; [|split; [|apply decode_encode_name]]; rewrite !encode_name_loop.
  - apply encode_loop_legal.
  - apply encode_loop_fixed, encode_loop_legal.
Qed.

(** Re-encoding the decoded form of a legal wire name whose
    positional substitutes sit at the end restores the wire name exactly. *)
Theorem encode_decode_name w :
  wire_legal w → trailing_only w → encode_name (decode_name w) = w.
Proof.
  rewrite encode_name_loop, decode_name_map. induction w as [|c s IH]; [done|].
  intros [Hl Hend] Htr. apply Forall_cons in Hl as [Hc Hl]. cbn [map].
  change (encode_at (match map (λ c, default c (decode_char c)) s with [] => true | _ => false end)
            (default c (decode_char c)) :: encode_loop (map (λ c, default c (decode_char c)) s)
          = c :: s).
  f_equal.
  - apply encode_at_decode; [done| |]; destruct s; try done; intros _.
    + by apply Hend.
    + cbn in Htr. tauto.
  - destruct s as [|d s]; [done|]. apply IH; [by split|]. cbn in Htr. tauto.
Qed.

Lemma encode_decode_name_witness :
  encode_name (decode_name [0x61; 0xF025; 0x2E; 0xF028]) = [0x61; 0xF025; 0x2E; 0xF028].
Proof.
  apply encode_decode_name.
  - split; [repeat constructor|]. intros c [= <-] [H|H]; done.
  - cbn. repeat split; done.
Defined.

(** A path whose characters are outside the private-use block comes
    back from the wire unchanged, leading separators dropped; on the wire its
    components are the encoded components of the caller's path. *)
Theorem decode_encode_path path :
  unmapped path →
  decode_path (encode_path path) = trim_start SLASH path ∧
  split BACKSLASH (encode_path path) =
    map encode_component (split SLASH (trim_start SLASH path)).
Proof.
  intros Hu. split; [|apply split_encode_path].
  unfold decode_path. rewrite split_encode_path, map_map.
  rewrite <- (join_split SLASH (trim_start SLASH path)) at 2. f_equal.
  rewrite <- (map_id (split _ _)) at 2. apply map_ext_in. intros p Hp.
  apply decode_encode_component. unfold unmapped in *. rewrite Forall_forall in *.
  intros c Hc. apply Hu, (trim_start_elem SLASH). eapply elem_of_split; [|done].
  by apply list_elem_of_In.
Qed.

Lemma decode_encode_path_witness :
  decode_path (encode_path [0x2F; 0x61; 0x3F; 0x2F; 0x2E; 0x2E; 0x2F; 0x62; 0x20]) =
    [0x61; 0x3F; 0x2F; 0x2E; 0x2E; 0x2F; 0x62; 0x20].
Proof. apply decode_encode_path. repeat constructor. Defined.

(** A wire component that is exactly the substitute of a trailing period
    decodes to the component [.], which [encode_path] then passes through: the
    wire path is not restored. *)
Example decode_path_period_component :
  let w := [0x61; BACKSLASH; WIRE_TRAILING_PERIOD] in
  decode_path w = [0x61; SLASH; PERIOD] ∧
  encode_path (decode_path w) = [0x61; BACKSLASH; PERIOD] ∧
  encode_name (decode_name [WIRE_TRAILING_PERIOD]) = [WIRE_TRAILING_PERIOD].
Proof. by vm_compute. Qed.

End Name.
