(* ===== verification/Header.v ===== *)
(** * The SMB2 packet header and the ERROR response

    Models [src/msg/header.rs]: the 64-byte header in its sync and async
    variants (bytes 32-39 hold a tree id or an async id depending on a flag
    bit) and the ERROR response body.  Messages that consist of a structure
    size and a reserved field ([trivial_message!] of [src/msg/mod.rs]: echo,
    cancel, logoff, tree disconnect, flush response) are here too. *)

From S2P Require Import Prelude Types Pack Codec.

Definition PROTOCOL_ID : bytes := [xfe; x53; x4d; x42].

Record Header := mkHeader {
  credit_charge : Z;
  status : Z;
  command : Command;
  credits : Z;
  flags : Z;
  next_command : Z;
  message_id : Z;
  tree_id : option Z;
  async_id : option Z;
  session_id : Z;
  signature : bytes
}.

Definition Header_STRUCTURE_SIZE : Z := 64.
Definition Header_SIZE : Z := 64.

Definition Header_new_request (c : Command) : Header :=
  mkHeader 0 NtStatus.SUCCESS c 1 0 0 0 (Some 0) None 0 (zeros 16).

Definition Header_is_response (h : Header) : bool := HeaderFlags.is_response (flags h).

#[global] Instance Header_pack : Pack Header := λ h,
  write_bytes PROTOCOL_ID ;;
  write_u16_le Header_STRUCTURE_SIZE ;;
  write_u16_le (credit_charge h) ;;
  write_u32_le (status h) ;;
  write_u16_le (Command_code (command h)) ;;
  write_u16_le (credits h) ;;
  write_u32_le (flags h) ;;
  write_u32_le (next_command h) ;;
  write_u64_le (message_id h) ;;
  (if HeaderFlags.is_async (flags h)
   then write_u64_le (default 0 (async_id h))
   else write_u32_le 0 ;; write_u32_le (default 0 (tree_id h))) ;;
  write_u64_le (session_id h) ;;
  write_bytes (signature h).

#[global] Instance Header_unpack : Unpack Header :=
  proto ← read_bytes 4;
  fail_if (negb (bool_decide (proto = PROTOCOL_ID)))
    (invalid_data "invalid SMB2 protocol ID: expected {}, got {}") ;;
  structure_size ← read_u16_le;
  fail_if (negb (structure_size =? Header_STRUCTURE_SIZE))
    (invalid_data "invalid SMB2 header structure size: expected {}, got {}") ;;
  credit_charge ← read_u16_le;
  status ← read_u32_le;
  command_raw ← read_u16_le;
  command ← try_enum (Command_try_from command_raw) "invalid SMB2 command code: {}";
  credits ← read_u16_le;
  flags ← read_u32_le;
  next_command ← read_u32_le;
  message_id ← read_u64_le;
  ids ← (if HeaderFlags.is_async flags
         then async_id ← read_u64_le; mret (None, Some async_id)
         else _reserved ← read_u32_le; tree_id ← read_u32_le; mret (Some tree_id, None));
  session_id ← read_u64_le;
  signature ← read_bytes 16;
  mret (mkHeader credit_charge status command credits flags next_command message_id
          ids.1 ids.2 session_id signature).

(** ** ERROR response *)

Record ErrorResponse := mkErrorResponse {
  error_context_count : Z;
  error_data : bytes
}.

Definition ErrorResponse_STRUCTURE_SIZE : Z := 9.

#[global] Instance ErrorResponse_pack : Pack ErrorResponse := λ e,
  write_u16_le ErrorResponse_STRUCTURE_SIZE ;;
  write_u8 (error_context_count e) ;;
  write_u8 0 ;;
  write_u32_le (trunc 32 (len (error_data e))) ;;
  write_bytes (error_data e).

#[global] Instance ErrorResponse_unpack : Unpack ErrorResponse :=
  structure_size ← read_u16_le;
  fail_if (negb (structure_size =? ErrorResponse_STRUCTURE_SIZE))
    (invalid_data "invalid ErrorResponse structure size: expected {}, got {}") ;;
  error_context_count ← read_u8;
  _reserved ← read_u8;
  byte_count ← read_u32_le;
  error_data ← read_opt_bounded byte_count;
  mret (mkErrorResponse error_context_count error_data).

(** ** Trivial messages: StructureSize (4) and a reserved word *)

Inductive TrivialMessage := mkTrivialMessage.

Definition Trivial_STRUCTURE_SIZE : Z := 4.

#[global] Instance TrivialMessage_pack : Pack TrivialMessage := λ _,
  write_u16_le Trivial_STRUCTURE_SIZE ;; write_u16_le 0.

#[global] Instance TrivialMessage_unpack : Unpack TrivialMessage :=
  structure_size ← read_u16_le;
  fail_if (negb (structure_size =? Trivial_STRUCTURE_SIZE))
    (invalid_data "invalid {} structure size: expected {}, got {}") ;;
  _reserved ← read_u16_le;
  mret mkTrivialMessage.

(** [EchoRequest], [EchoResponse], [CancelRequest], [LogoffRequest],
    [LogoffResponse], [TreeDisconnectRequest], [TreeDisconnectResponse] and
    [FlushResponse] are instances of the macro. *)
Abbreviation EchoRequest := TrivialMessage.
Abbreviation CancelRequest := TrivialMessage.
Abbreviation FlushResponse := TrivialMessage.

(** ** Well-formedness *)

(** The two variants of bytes 32-39: exactly the id the async bit selects. *)
Definition ids_wf (fl : Z) (tid aid : option Z) : Prop :=
  if HeaderFlags.is_async fl
  then tid = None ∧ ∃ a, aid = Some a ∧ is_u64 a
  else aid = None ∧ ∃ t, tid = Some t ∧ is_u32 t.

Record Header_wf (h : Header) : Prop := {
  hw_charge : is_u16 (credit_charge h);
  hw_status : is_u32 (status h);
  hw_credits : is_u16 (credits h);
  hw_flags : is_u32 (flags h);
  hw_next : is_u32 (next_command h);
  hw_msgid : is_u64 (message_id h);
  hw_ids : ids_wf (flags h) (tree_id h) (async_id h);
  hw_session : is_u64 (session_id h);
  hw_signature : len (signature h) = 16
}.

Definition Header_layout (h : Header) : bytes :=
  PROTOCOL_ID ++ to_le 2 64 ++ to_le 2 (credit_charge h) ++ to_le 4 (status h)
  ++ to_le 2 (Command_code (command h)) ++ to_le 2 (credits h) ++ to_le 4 (flags h)
  ++ to_le 4 (next_command h) ++ to_le 8 (message_id h)
  ++ (if HeaderFlags.is_async (flags h)
      then to_le 8 (default 0 (async_id h))
      else to_le 4 0 ++ to_le 4 (default 0 (tree_id h)))
  ++ to_le 8 (session_id h) ++ signature h.

Lemma Header_pack_layout p h : writes_at p (pack h) (Header_layout h).
Proof.
  unfold writes_at, pack, Header_pack. wsteps.
  eapply w_bind with (b1 := _ ++ (if HeaderFlags.is_async (flags h)
    then to_le 8 (default 0 (async_id h)) else to_le 4 0 ++ to_le 4 (default 0 (tree_id h)))).
  { destruct (HeaderFlags.is_async _); [wprim|]. rewrite app_assoc. wstep. wprim. }
  wsteps. wdone.
Qed.

Lemma Header_layout_len h :
  Header_wf h → len (Header_layout h) = 64.
Proof.
  intros []. unfold Header_layout.
  destruct (HeaderFlags.is_async _); autorewrite with len; rewrite hw_signature0; done.
Qed.

Lemma Header_unpack_layout p h :
  Header_wf h → reads_at p (unpack Header) (Header_layout h) h.
Proof.
  intros [Hc Hs Hcr Hf Hn Hm Hi Hse Hsig].
  destruct h as [cc st cmd cr fl nc mi ti ai si sg].
  unfold unpack, Header_unpack, Header_layout.
  cbn [credit_charge status command credits flags next_command message_id tree_id
       async_id session_id signature] in *.
  repeat rstep.
  rsteps.
  eapply reads_bind with (v := (ti, ai)).
  { unfold ids_wf in Hi. destruct (HeaderFlags.is_async fl).
    - destruct Hi as (-> & a & -> & Ha). rsteps.
    - destruct Hi as (-> & t & -> & Ht). rsteps. }
  rsteps.
Qed.

(** Every header [unpack] accepts is well-formed. *)
Lemma Header_safe : reader_ok (unpack Header) Header_wf.
Proof.
  unfold unpack, Header_unpack. roks.
  match goal with |- reader_ok (mbind _ (if HeaderFlags.is_async ?f then _ else _)) _ =>
    eapply rok_bind with (P := λ ids, ids_wf f ids.1 ids.2) end.
  { unfold ids_wf. apply rok_if; intros ->; roks; apply rok_ret; eauto. }
  intros ids Hids. roks. apply rok_ret. by constructor.
Qed.

#[global] Instance Header_codec : Codec Header := {
  codec_wf := Header_wf;
  codec_layout _ := Header_layout;
  codec_pack p h _ _ := Header_pack_layout p h;
  codec_unpack p h _ := Header_unpack_layout p h;
  codec_safe := rok_weaken _ _ _ (λ _ _, I) Header_safe
}.

(** ** ERROR response and trivial messages: codecs *)

Record ErrorResponse_wf (e : ErrorResponse) : Prop := {
  er_count : is_u8 (error_context_count e);
  er_data : len (error_data e) <= MAX_UNPACK_BUFFER
}.

Definition ErrorResponse_layout (e : ErrorResponse) : bytes :=
  to_le 2 9 ++ [byte_of_u8 (error_context_count e)] ++ [byte_of_u8 0]
  ++ to_le 4 (len (error_data e)) ++ error_data e.

(** A buffer that fits the unpack bound has a 32-bit length. *)
Lemma bounded_len_u32 (bs : bytes) : len bs <= MAX_UNPACK_BUFFER → is_u32 (len bs).
Proof. unfold MAX_UNPACK_BUFFER, in_range. pose proof (len_nonneg bs). lia. Qed.
#[export] Hint Resolve bounded_len_u32 : smb.

Lemma ErrorResponse_pack_layout p e : writes_at p (pack e) (ErrorResponse_layout e).
Proof. unfold writes_at, pack, ErrorResponse_pack. wsteps. wtrunc. wdone. Qed.

Lemma ErrorResponse_unpack_layout p e :
  ErrorResponse_wf e → reads_at p (unpack ErrorResponse) (ErrorResponse_layout e) e.
Proof.
  intros [Hc Hd]. destruct e as [n d]. unfold ErrorResponse_layout, unpack, ErrorResponse_unpack.
  cbn [error_context_count error_data] in *. rsteps.
Qed.

Lemma ErrorResponse_safe : reader_ok (unpack ErrorResponse) ErrorResponse_wf.
Proof.
  unfold unpack, ErrorResponse_unpack. roks. rokdone. constructor; [done|].
  cbn [error_data]. lia.
Qed.

#[global] Instance ErrorResponse_codec : Codec ErrorResponse := {
  codec_wf := ErrorResponse_wf;
  codec_layout _ := ErrorResponse_layout;
  codec_pack p e _ _ := ErrorResponse_pack_layout p e;
  codec_unpack p e _ := ErrorResponse_unpack_layout p e;
  codec_safe := rok_weaken _ _ _ (λ _ _, I) ErrorResponse_safe
}.

#[global] Program Instance TrivialMessage_codec : Codec TrivialMessage := {
  codec_wf _ := True;
  codec_layout _ _ := to_le 2 4 ++ to_le 2 0
}.
Next Obligation. intros. unfold writes_at, pack, TrivialMessage_pack. wsteps. wdone. Qed.
Next Obligation. intros p [] _ _. unfold unpack, TrivialMessage_unpack. rsteps. Qed.
Next Obligation. unfold unpack, TrivialMessage_unpack. roks. rokdone. Qed.
