(* ===== verification/FileIo.v ===== *)
(** * CLOSE, READ, WRITE, FLUSH and LOCK messages

    Models [src/msg/close.rs], [src/msg/read.rs], [src/msg/write.rs],
    [src/msg/flush.rs] and [src/msg/lock.rs]: the request and response bodies,
    their [Pack] and [Unpack] implementations, and a [Codec] instance for each
    one, that is, wire layout, round trip, and safety of the parser. *)

From S2P Require Import Prelude Types Pack Codec Header.

(** ** CLOSE *)

Record CloseRequest := mkCloseRequest { clq_flags : Z; clq_file_id : FileId }.
Definition CloseRequest_STRUCTURE_SIZE : Z := 24.

#[global] Instance CloseRequest_pack : Pack CloseRequest := λ m,
  write_u16_le CloseRequest_STRUCTURE_SIZE ;;
  write_u16_le (clq_flags m) ;;
  write_u32_le 0 ;;
  write_file_id (clq_file_id m).

#[global] Instance CloseRequest_unpack : Unpack CloseRequest :=
  structure_size ← read_u16_le;
  fail_if (negb (structure_size =? CloseRequest_STRUCTURE_SIZE))
    (invalid_data "invalid CloseRequest structure size: expected {}, got {}") ;;
  flags ← read_u16_le;
  _reserved ← read_u32_le;
  file_id ← read_file_id;
  mret (mkCloseRequest flags file_id).

Record CloseResponse := mkCloseResponse {
  clr_flags : Z;
  clr_creation_time : FileTime;
  clr_last_access_time : FileTime;
  clr_last_write_time : FileTime;
  clr_change_time : FileTime;
  clr_allocation_size : Z;
  clr_end_of_file : Z;
  clr_file_attributes : Z
}.
Definition CloseResponse_STRUCTURE_SIZE : Z := 60.

#[global] Instance CloseResponse_pack : Pack CloseResponse := λ m,
  write_u16_le CloseResponse_STRUCTURE_SIZE ;;
  write_u16_le (clr_flags m) ;;
  write_u32_le 0 ;;
  pack (clr_creation_time m) ;;
  pack (clr_last_access_time m) ;;
  pack (clr_last_write_time m) ;;
  pack (clr_change_time m) ;;
  write_u64_le (clr_allocation_size m) ;;
  write_u64_le (clr_end_of_file m) ;;
  write_u32_le (clr_file_attributes m).

#[global] Instance CloseResponse_unpack : Unpack CloseResponse :=
  structure_size ← read_u16_le;
  fail_if (negb (structure_size =? CloseResponse_STRUCTURE_SIZE))
    (invalid_data "invalid CloseResponse structure size: expected {}, got {}") ;;
  flags ← read_u16_le;
  _reserved ← read_u32_le;
  creation_time ← unpack FileTime;
  last_access_time ← unpack FileTime;
  last_write_time ← unpack FileTime;
  change_time ← unpack FileTime;
  allocation_size ← read_u64_le;
  end_of_file ← read_u64_le;
  file_attributes ← read_u32_le;
  mret (mkCloseResponse flags creation_time last_access_time last_write_time
          change_time allocation_size end_of_file file_attributes).

(** ** READ *)

Record ReadRequest := mkReadRequest {
  rdq_padding : Z;
  rdq_flags : Z;
  rdq_length : Z;
  rdq_offset : Z;
  rdq_file_id : FileId;
  rdq_minimum_count : Z;
  rdq_channel : Z;
  rdq_remaining_bytes : Z;
  rdq_read_channel_info : bytes
}.
Definition ReadRequest_STRUCTURE_SIZE : Z := 49.

#[global] Instance ReadRequest_pack : Pack ReadRequest := λ m,
  write_u16_le ReadRequest_STRUCTURE_SIZE ;;
  write_u8 (rdq_padding m) ;;
  write_u8 (rdq_flags m) ;;
  write_u32_le (rdq_length m) ;;
  write_u64_le (rdq_offset m) ;;
  write_file_id (rdq_file_id m) ;;
  write_u32_le (rdq_minimum_count m) ;;
  write_u32_le (rdq_channel m) ;;
  write_u32_le (rdq_remaining_bytes m) ;;
  (if is_empty (rdq_read_channel_info m)
   then write_u16_le 0 ;; write_u16_le 0
   else write_u16_le 0 ;; write_u16_le (trunc 16 (len (rdq_read_channel_info m)))) ;;
  (if is_empty (rdq_read_channel_info m)
   then write_u8 0
   else write_bytes (rdq_read_channel_info m)).

#[global] Instance ReadRequest_unpack : Unpack ReadRequest :=
  structure_size ← read_u16_le;
  fail_if (negb (structure_size =? ReadRequest_STRUCTURE_SIZE))
    (invalid_data "invalid ReadRequest structure size: expected {}, got {}") ;;
  padding ← read_u8;
  flags ← read_u8;
  length ← read_u32_le;
  offset ← read_u64_le;
  file_id ← read_file_id;
  minimum_count ← read_u32_le;
  channel ← read_u32_le;
  remaining_bytes ← read_u32_le;
  _read_channel_info_offset ← read_u16_le;
  read_channel_info_length ← read_u16_le;
  read_channel_info ← (if read_channel_info_length >? 0
                       then read_bytes read_channel_info_length
                       else skip 1 ;; mret []);
  mret (mkReadRequest padding flags length offset file_id minimum_count channel
          remaining_bytes read_channel_info).

Record ReadResponse := mkReadResponse {
  rdr_data_offset : Z;
  rdr_data_remaining : Z;
  rdr_flags : Z;
  rdr_data : bytes
}.
Definition ReadResponse_STRUCTURE_SIZE : Z := 17.

#[global] Instance ReadResponse_pack : Pack ReadResponse := λ m,
  write_u16_le ReadResponse_STRUCTURE_SIZE ;;
  write_u8 (rdr_data_offset m) ;;
  write_u8 0 ;;
  write_u32_le (trunc 32 (len (rdr_data m))) ;;
  write_u32_le (rdr_data_remaining m) ;;
  write_u32_le (rdr_flags m) ;;
  write_bytes (rdr_data m).

#[global] Instance ReadResponse_unpack : Unpack ReadResponse :=
  structure_size ← read_u16_le;
  fail_if (negb (structure_size =? ReadResponse_STRUCTURE_SIZE))
    (invalid_data "invalid ReadResponse structure size: expected {}, got {}") ;;
  data_offset ← read_u8;
  _reserved ← read_u8;
  data_length ← read_u32_le;
  data_remaining ← read_u32_le;
  flags ← read_u32_le;
  data ← read_opt_bounded data_length;
  mret (mkReadResponse data_offset data_remaining flags data).

(** ** WRITE *)

Record WriteRequest := mkWriteRequest {
  wrq_data_offset : Z;
  wrq_offset : Z;
  wrq_file_id : FileId;
  wrq_channel : Z;
  wrq_remaining_bytes : Z;
  wrq_write_channel_info_offset : Z;
  wrq_write_channel_info_length : Z;
  wrq_flags : Z;
  wrq_data : bytes
}.
Definition WriteRequest_STRUCTURE_SIZE : Z := 49.

#[global] Instance WriteRequest_pack : Pack WriteRequest := λ m,
  write_u16_le WriteRequest_STRUCTURE_SIZE ;;
  write_u16_le (wrq_data_offset m) ;;
  write_u32_le (trunc 32 (len (wrq_data m))) ;;
  write_u64_le (wrq_offset m) ;;
  write_file_id (wrq_file_id m) ;;
  write_u32_le (wrq_channel m) ;;
  write_u32_le (wrq_remaining_bytes m) ;;
  write_u16_le (wrq_write_channel_info_offset m) ;;
  write_u16_le (wrq_write_channel_info_length m) ;;
  write_u32_le (wrq_flags m) ;;
  (if is_empty (wrq_data m) then write_u8 0 else write_bytes (wrq_data m)).

#[global] Instance WriteRequest_unpack : Unpack WriteRequest :=
  structure_size ← read_u16_le;
  fail_if (negb (structure_size =? WriteRequest_STRUCTURE_SIZE))
    (invalid_data "invalid WriteRequest structure size: expected {}, got {}") ;;
  data_offset ← read_u16_le;
  length ← read_u32_le;
  offset ← read_u64_le;
  file_id ← read_file_id;
  channel ← read_u32_le;
  remaining_bytes ← read_u32_le;
  write_channel_info_offset ← read_u16_le;
  write_channel_info_length ← read_u16_le;
  flags ← read_u32_le;
  data ← (if length >? 0 then read_bytes_bounded length else skip 1 ;; mret []);
  mret (mkWriteRequest data_offset offset file_id channel remaining_bytes
          write_channel_info_offset write_channel_info_length flags data).

Record WriteResponse := mkWriteResponse {
  wrr_count : Z;
  wrr_remaining : Z;
  wrr_write_channel_info_offset : Z;
  wrr_write_channel_info_length : Z
}.
Definition WriteResponse_STRUCTURE_SIZE : Z := 17.

#[global] Instance WriteResponse_pack : Pack WriteResponse := λ m,
  write_u16_le WriteResponse_STRUCTURE_SIZE ;;
  write_u16_le 0 ;;
  write_u32_le (wrr_count m) ;;
  write_u32_le (wrr_remaining m) ;;
  write_u16_le (wrr_write_channel_info_offset m) ;;
  write_u16_le (wrr_write_channel_info_length m).

#[global] Instance WriteResponse_unpack : Unpack WriteResponse :=
  structure_size ← read_u16_le;
  fail_if (negb (structure_size =? WriteResponse_STRUCTURE_SIZE))
    (invalid_data "invalid WriteResponse structure size: expected {}, got {}") ;;
  _reserved ← read_u16_le;
  count ← read_u32_le;
  remaining ← read_u32_le;
  write_channel_info_offset ← read_u16_le;
  write_channel_info_length ← read_u16_le;
  mret (mkWriteResponse count remaining write_channel_info_offset write_channel_info_length).

(** ** FLUSH *)

Record FlushRequest := mkFlushRequest { flq_file_id : FileId }.
Definition FlushRequest_STRUCTURE_SIZE : Z := 24.

#[global] Instance FlushRequest_pack : Pack FlushRequest := λ m,
  write_u16_le FlushRequest_STRUCTURE_SIZE ;;
  write_u16_le 0 ;;
  write_u32_le 0 ;;
  write_file_id (flq_file_id m).

#[global] Instance FlushRequest_unpack : Unpack FlushRequest :=
  structure_size ← read_u16_le;
  fail_if (negb (structure_size =? FlushRequest_STRUCTURE_SIZE))
    (invalid_data "invalid FlushRequest structure size: expected {}, got {}") ;;
  _reserved1 ← read_u16_le;
  _reserved2 ← read_u32_le;
  file_id ← read_file_id;
  mret (mkFlushRequest file_id).

(** ** LOCK *)

Record LockElement := mkLockElement { lke_offset : Z; lke_length : Z; lke_flags : Z }.
Definition LockElement_SIZE : Z := 24.

#[global] Instance LockElement_pack : Pack LockElement := λ m,
  write_u64_le (lke_offset m) ;;
  write_u64_le (lke_length m) ;;
  write_u32_le (lke_flags m) ;;
  write_u32_le 0.

#[global] Instance LockElement_unpack : Unpack LockElement :=
  offset ← read_u64_le;
  length ← read_u64_le;
  flags ← read_u32_le;
  _reserved ← read_u32_le;
  mret (mkLockElement offset length flags).

Record LockRequest := mkLockRequest {
  lkq_lock_sequence : Z;
  lkq_file_id : FileId;
  lkq_locks : list LockElement
}.
Definition LockRequest_STRUCTURE_SIZE : Z := 48.

#[global] Instance LockRequest_pack : Pack LockRequest := λ m,
  write_u16_le LockRequest_STRUCTURE_SIZE ;;
  write_u16_le (trunc 16 (len (lkq_locks m))) ;;
  write_u32_le (lkq_lock_sequence m) ;;
  write_file_id (lkq_file_id m) ;;
  for_each pack (lkq_locks m).

#[global] Instance LockRequest_unpack : Unpack LockRequest :=
  structure_size ← read_u16_le;
  fail_if (negb (structure_size =? LockRequest_STRUCTURE_SIZE))
    (invalid_data "invalid LockRequest structure size: expected {}, got {}") ;;
  lock_count ← read_u16_le;
  lock_sequence ← read_u32_le;
  file_id ← read_file_id;
  locks ← repeat_push (Z.to_nat lock_count) (unpack LockElement);
  mret (mkLockRequest lock_sequence file_id locks).

(** [LockResponse] is the four-byte structure of the trivial messages, written
    out in the source instead of generated. *)
Inductive LockResponse := mkLockResponse.
Definition LockResponse_STRUCTURE_SIZE : Z := 4.

#[global] Instance LockResponse_pack : Pack LockResponse := λ _,
  write_u16_le LockResponse_STRUCTURE_SIZE ;; write_u16_le 0.

#[global] Instance LockResponse_unpack : Unpack LockResponse :=
  structure_size ← read_u16_le;
  fail_if (negb (structure_size =? LockResponse_STRUCTURE_SIZE))
    (invalid_data "invalid LockResponse structure size: expected {}, got {}") ;;
  _reserved ← read_u16_le;
  mret mkLockResponse.

(** ** Codecs *)

Definition CloseRequest_wf (m : CloseRequest) : Prop :=
  is_u16 (clq_flags m) ∧ FileId_wf (clq_file_id m).

#[global] Program Instance CloseRequest_codec : Codec CloseRequest := {
  codec_wf := CloseRequest_wf;
  codec_layout _ m :=
    to_le 2 24 ++ to_le 2 (clq_flags m) ++ to_le 4 0
    ++ to_le 8 (persistent (clq_file_id m)) ++ to_le 8 (volatile (clq_file_id m))
}.
Next Obligation. intros. unfold writes_at, pack, CloseRequest_pack. wsteps. wdone. Qed.
Next Obligation.
  intros p [] _ []. unfold unpack, CloseRequest_unpack. cbn [clq_flags clq_file_id] in *. rsteps.
Qed.
Next Obligation. unfold unpack, CloseRequest_unpack. roks. rokdone. Qed.

Definition CloseResponse_wf (m : CloseResponse) : Prop :=
  is_u16 (clr_flags m) ∧ FileTime_wf (clr_creation_time m) ∧
  FileTime_wf (clr_last_access_time m) ∧ FileTime_wf (clr_last_write_time m) ∧
  FileTime_wf (clr_change_time m) ∧ is_u64 (clr_allocation_size m) ∧
  is_u64 (clr_end_of_file m) ∧ is_u32 (clr_file_attributes m).

#[global] Program Instance CloseResponse_codec : Codec CloseResponse := {
  codec_wf := CloseResponse_wf;
  codec_layout _ m :=
    to_le 2 60 ++ to_le 2 (clr_flags m) ++ to_le 4 0 ++ to_le 8 (ticks (clr_creation_time m))
    ++ to_le 8 (ticks (clr_last_access_time m)) ++ to_le 8 (ticks (clr_last_write_time m))
    ++ to_le 8 (ticks (clr_change_time m)) ++ to_le 8 (clr_allocation_size m)
    ++ to_le 8 (clr_end_of_file m) ++ to_le 4 (clr_file_attributes m)
}.
Next Obligation. intros. unfold writes_at, pack at 1, CloseResponse_pack. wsteps. wdone. Qed.
Next Obligation.
  intros p [] _ (?&?&?&?&?&?&?&?). unfold unpack at 1, CloseResponse_unpack.
  cbn [clr_flags clr_creation_time clr_last_access_time clr_last_write_time clr_change_time
       clr_allocation_size clr_end_of_file clr_file_attributes] in *. rsteps.
Qed.
Next Obligation. unfold unpack at 1, CloseResponse_unpack. roks. rokdone. Qed.

(** A buffer sent with at least one byte on the wire: an empty one is padded
    with a single zero byte, which the reader skips. *)
Definition min1 (d : bytes) : bytes := if is_empty d then [byte_of_u8 0] else d.

Lemma reads_min1 p n (R : Reader bytes) d :
  n = len d → reads_at p R d d →
  reads_at p (if n >? 0 then R else skip 1 ;; mret []) (min1 d) d.
Proof.
  intros -> HR. destruct d as [|b d]; unfold min1; cbn [is_empty].
  - rewrite len_nil. cbn [Z.gtb Z.compare].
    eapply reads_bind_nil; [by apply reads_skip|]. apply reads_ret.
  - rewrite len_cons. pose proof (len_nonneg d).
    by replace (_ >? 0) with true by lia.
Qed.

Lemma rok_min1 n (R : Reader bytes) P :
  reader_ok R P → P [] → reader_ok (if n >? 0 then R else skip 1 ;; mret []) P.
Proof.
  intros HR HP. apply rok_if; intros _; [done|].
  eapply rok_bind; [by apply rok_skip|]. intros. by apply rok_ret.
Qed.

Lemma w_min1 p b d :
  wtriple p b (if is_empty d then write_u8 0 else write_bytes d) (b ++ min1 d) tt.
Proof. unfold min1. destruct (is_empty d); wprim. Qed.

Lemma w_channel_info p b (d : bytes) :
  wtriple p b (if is_empty d then write_u16_le 0 ;; write_u16_le 0
               else write_u16_le 0 ;; write_u16_le (trunc 16 (len d)))
    (b ++ to_le 2 0 ++ to_le 2 (len d)) tt.
Proof.
  rewrite app_assoc.
  destruct d; cbn [is_empty]; (eapply w_bind; [apply w_u16|]); [apply w_u16|].
  rewrite <- (to_le_trunc16 (len _)). apply w_u16.
Qed.

Record ReadRequest_wf (m : ReadRequest) : Prop := {
  rdq_w1 : is_u8 (rdq_padding m);
  rdq_w2 : is_u8 (rdq_flags m);
  rdq_w3 : is_u32 (rdq_length m);
  rdq_w4 : is_u64 (rdq_offset m);
  rdq_w5 : FileId_wf (rdq_file_id m);
  rdq_w6 : is_u32 (rdq_minimum_count m);
  rdq_w7 : is_u32 (rdq_channel m);
  rdq_w8 : is_u32 (rdq_remaining_bytes m);
  rdq_w9 : is_u16 (len (rdq_read_channel_info m))
}.

#[global] Program Instance ReadRequest_codec : Codec ReadRequest := {
  codec_wf := ReadRequest_wf;
  codec_layout _ m :=
    to_le 2 49 ++ [byte_of_u8 (rdq_padding m)] ++ [byte_of_u8 (rdq_flags m)]
    ++ to_le 4 (rdq_length m) ++ to_le 8 (rdq_offset m)
    ++ (to_le 8 (persistent (rdq_file_id m)) ++ to_le 8 (volatile (rdq_file_id m)))
    ++ to_le 4 (rdq_minimum_count m) ++ to_le 4 (rdq_channel m)
    ++ to_le 4 (rdq_remaining_bytes m) ++ to_le 2 0
    ++ to_le 2 (len (rdq_read_channel_info m)) ++ min1 (rdq_read_channel_info m)
}.
Next Obligation.
  intros p m Hp Hw. unfold writes_at, pack, ReadRequest_pack. wsteps.
  eapply w_bind; [apply w_channel_info|].
  eapply eq_ind_r with (P := λ b, wtriple _ _ _ b _); [apply w_min1|].
  by rewrite <- !app_assoc.
Qed.
Next Obligation.
  intros p [] _ []. unfold unpack, ReadRequest_unpack.
  cbn [rdq_padding rdq_flags rdq_length rdq_offset rdq_file_id rdq_minimum_count rdq_channel
       rdq_remaining_bytes rdq_read_channel_info] in *. rsteps.
  eapply reads_bind_nil; [apply reads_min1; [done|by apply reads_read_bytes]|]. apply reads_ret.
Qed.
Next Obligation.
  unfold unpack, ReadRequest_unpack. roks.
  eapply rok_bind; [apply rok_min1 with (P := λ _, True); [|done]|].
  - eapply rok_weaken; [|eauto with smb]. done.
  - intros. rokdone.
Qed.

Definition ReadResponse_wf (m : ReadResponse) : Prop :=
  is_u8 (rdr_data_offset m) ∧ is_u32 (rdr_data_remaining m) ∧ is_u32 (rdr_flags m)
  ∧ len (rdr_data m) <= MAX_UNPACK_BUFFER.

#[global] Program Instance ReadResponse_codec : Codec ReadResponse := {
  codec_wf := ReadResponse_wf;
  codec_layout _ m :=
    to_le 2 17 ++ [byte_of_u8 (rdr_data_offset m)] ++ [byte_of_u8 0]
    ++ to_le 4 (len (rdr_data m)) ++ to_le 4 (rdr_data_remaining m)
    ++ to_le 4 (rdr_flags m) ++ rdr_data m
}.
Next Obligation.
  intros. unfold writes_at, pack, ReadResponse_pack. wsteps. wtrunc. wdone.
Qed.
Next Obligation.
  intros p [] _ (?&?&?&?). unfold unpack, ReadResponse_unpack.
  cbn [rdr_data_offset rdr_data_remaining rdr_flags rdr_data] in *. rsteps.
Qed.
Next Obligation. unfold unpack, ReadResponse_unpack. roks. rokdone. Qed.

Record WriteRequest_wf (m : WriteRequest) : Prop := {
  wrq_w1 : is_u16 (wrq_data_offset m);
  wrq_w2 : is_u64 (wrq_offset m);
  wrq_w3 : FileId_wf (wrq_file_id m);
  wrq_w4 : is_u32 (wrq_channel m);
  wrq_w5 : is_u32 (wrq_remaining_bytes m);
  wrq_w6 : is_u16 (wrq_write_channel_info_offset m);
  wrq_w7 : is_u16 (wrq_write_channel_info_length m);
  wrq_w8 : is_u32 (wrq_flags m);
  wrq_w9 : len (wrq_data m) <= MAX_UNPACK_BUFFER
}.

#[global] Program Instance WriteRequest_codec : Codec WriteRequest := {
  codec_wf := WriteRequest_wf;
  codec_layout _ m :=
    to_le 2 49 ++ to_le 2 (wrq_data_offset m) ++ to_le 4 (len (wrq_data m))
    ++ to_le 8 (wrq_offset m)
    ++ (to_le 8 (persistent (wrq_file_id m)) ++ to_le 8 (volatile (wrq_file_id m)))
    ++ to_le 4 (wrq_channel m) ++ to_le 4 (wrq_remaining_bytes m)
    ++ to_le 2 (wrq_write_channel_info_offset m) ++ to_le 2 (wrq_write_channel_info_length m)
    ++ to_le 4 (wrq_flags m) ++ min1 (wrq_data m)
}.
Next Obligation.
  intros p m Hp Hw. unfold writes_at, pack, WriteRequest_pack. wsteps. wtrunc.
  eapply eq_ind_r with (P := λ b, wtriple _ _ _ b _); [apply w_min1|].
  by rewrite <- !app_assoc.
Qed.
Next Obligation.
  intros p [] _ []. unfold unpack, WriteRequest_unpack.
  cbn [wrq_data_offset wrq_offset wrq_file_id wrq_channel wrq_remaining_bytes
       wrq_write_channel_info_offset wrq_write_channel_info_length wrq_flags wrq_data] in *.
  rsteps.
  eapply reads_bind_nil; [apply reads_min1; [done|by apply reads_bytes_bounded]|]. apply reads_ret.
Qed.
Next Obligation.
  unfold unpack, WriteRequest_unpack. roks.
  eapply rok_bind; [apply rok_min1 with (P := λ _, True); [|done]|].
  - eapply rok_weaken; [|eauto with smb]. done.
  - intros. rokdone.
Qed.

Definition WriteResponse_wf (m : WriteResponse) : Prop :=
  is_u32 (wrr_count m) ∧ is_u32 (wrr_remaining m)
  ∧ is_u16 (wrr_write_channel_info_offset m) ∧ is_u16 (wrr_write_channel_info_length m).

#[global] Program Instance WriteResponse_codec : Codec WriteResponse := {
  codec_wf := WriteResponse_wf;
  codec_layout _ m :=
    to_le 2 17 ++ to_le 2 0 ++ to_le 4 (wrr_count m) ++ to_le 4 (wrr_remaining m)
    ++ to_le 2 (wrr_write_channel_info_offset m) ++ to_le 2 (wrr_write_channel_info_length m)
}.
Next Obligation. intros. unfold writes_at, pack, WriteResponse_pack. wsteps. wdone. Qed.
Next Obligation.
  intros p [] _ (?&?&?&?). unfold unpack, WriteResponse_unpack.
  cbn [wrr_count wrr_remaining wrr_write_channel_info_offset wrr_write_channel_info_length] in *.
  rsteps.
Qed.
Next Obligation. unfold unpack, WriteResponse_unpack. roks. rokdone. Qed.

#[global] Program Instance FlushRequest_codec : Codec FlushRequest := {
  codec_wf m := FileId_wf (flq_file_id m);
  codec_layout _ m :=
    to_le 2 24 ++ to_le 2 0 ++ to_le 4 0
    ++ to_le 8 (persistent (flq_file_id m)) ++ to_le 8 (volatile (flq_file_id m))
}.
Next Obligation. intros. unfold writes_at, pack, FlushRequest_pack. wsteps. wdone. Qed.
Next Obligation.
  intros p [] _ ?. unfold unpack, FlushRequest_unpack. cbn [flq_file_id] in *. rsteps.
Qed.
Next Obligation. unfold unpack, FlushRequest_unpack. roks. rokdone. Qed.

Definition LockElement_wf (m : LockElement) : Prop :=
  is_u64 (lke_offset m) ∧ is_u64 (lke_length m) ∧ is_u32 (lke_flags m).

#[global] Program Instance LockElement_codec : Codec LockElement := {
  codec_wf := LockElement_wf;
  codec_layout _ m :=
    to_le 8 (lke_offset m) ++ to_le 8 (lke_length m) ++ to_le 4 (lke_flags m) ++ to_le 4 0
}.
Next Obligation. intros. unfold writes_at, pack, LockElement_pack. wsteps. wdone. Qed.
Next Obligation.
  intros p [] _ (?&?&?). unfold unpack, LockElement_unpack.
  cbn [lke_offset lke_length lke_flags] in *. rsteps.
Qed.
Next Obligation. unfold unpack, LockElement_unpack. roks. rokdone. Qed.

Definition LockRequest_wf (m : LockRequest) : Prop :=
  is_u32 (lkq_lock_sequence m) ∧ FileId_wf (lkq_file_id m)
  ∧ is_u16 (len (lkq_locks m)) ∧ Forall LockElement_wf (lkq_locks m).

#[global] Program Instance LockRequest_codec : Codec LockRequest := {
  codec_wf := LockRequest_wf;
  codec_layout _ m :=
    to_le 2 48 ++ to_le 2 (len (lkq_locks m)) ++ to_le 4 (lkq_lock_sequence m)
    ++ (to_le 8 (persistent (lkq_file_id m)) ++ to_le 8 (volatile (lkq_file_id m)))
    ++ (lkq_locks m ≫= codec_layout 0)
}.
Next Obligation.
  intros p m Hp (_&_&_&Hl). unfold writes_at, pack at 1, LockRequest_pack. wsteps. wtrunc.
  eapply eq_ind_r with (P := λ b, wtriple _ _ _ b _).
  - apply w_for_each with (enc := codec_layout 0). intros a b Ha.
    change (codec_layout 0 a) with (codec_layout (p + len b) a).
    apply writes_at_wtriple, codec_pack; [pose proof (len_nonneg b); lia|].
    by eapply Forall_forall in Hl.
  - by rewrite <- !app_assoc.
Qed.
Next Obligation.
  intros p [sq fid lks] Hp (?&?&?&Hl). unfold unpack at 1, LockRequest_unpack.
  cbn [lkq_lock_sequence lkq_file_id lkq_locks] in *. rsteps.
  eapply reads_bind_nil; [|apply reads_ret].
  replace (Z.to_nat (len lks)) with (length lks) by (unfold len; lia).
  apply reads_repeat. intros q a Hq Ha.
  match type of Hq with ?p0 <= _ => assert (0 <= p0) by (pose proof Hp; len_lia) end.
  change (codec_layout 0 a) with (codec_layout q a).
  apply codec_unpack; [lia|]. by eapply Forall_forall in Hl.
Qed.
Next Obligation.
  unfold unpack at 1, LockRequest_unpack. roks.
  eapply rok_bind; [apply rok_repeat, codec_safe|]. intros. rokdone.
Qed.

#[global] Program Instance LockResponse_codec : Codec LockResponse := {
  codec_wf _ := True;
  codec_layout _ _ := to_le 2 4 ++ to_le 2 0
}.
Next Obligation. intros. unfold writes_at, pack, LockResponse_pack. wsteps. wdone. Qed.
Next Obligation. intros p [] _ _. unfold unpack, LockResponse_unpack. rsteps. Qed.
Next Obligation. unfold unpack, LockResponse_unpack. roks. rokdone. Qed.
