(* ===== verification/Create.v ===== *)
(** * CREATE request and response

    Models [src/msg/create.rs]: the enums of the message, the request (a UTF-16
    name at a back-patched offset, then create contexts aligned to 8 bytes of
    the cursor) and the response. *)

From S2P Require Import Prelude Types Pack Codec Utf16 Header FileIo.

(** ** Enums *)

Inductive ImpersonationLevel := Anonymous | Identification | Impersonation | Delegate.

Definition ImpersonationLevel_code (l : ImpersonationLevel) : Z :=
  match l with Anonymous => 0 | Identification => 1 | Impersonation => 2 | Delegate => 3 end.

Definition ImpersonationLevel_try_from : Z → option ImpersonationLevel :=
  enum_try_from ImpersonationLevel_code [Anonymous; Identification; Impersonation; Delegate].

Module ShareAccess.
Definition FILE_SHARE_READ : Z := 0x00000001.
Definition FILE_SHARE_WRITE : Z := 0x00000002.
Definition FILE_SHARE_DELETE : Z := 0x00000004.
End ShareAccess.

Inductive CreateDisposition :=
| FileSupersede | FileOpen | FileCreate | FileOpenIf | FileOverwrite | FileOverwriteIf.

Definition CreateDisposition_code (d : CreateDisposition) : Z :=
  match d with
  | FileSupersede => 0 | FileOpen => 1 | FileCreate => 2
  | FileOpenIf => 3 | FileOverwrite => 4 | FileOverwriteIf => 5
  end.

Definition CreateDisposition_try_from : Z → option CreateDisposition :=
  enum_try_from CreateDisposition_code
    [FileSupersede; FileOpen; FileCreate; FileOpenIf; FileOverwrite; FileOverwriteIf].

Inductive CreateAction := FileSuperseded | FileOpened | FileCreated | FileOverwritten.

Definition CreateAction_code (a : CreateAction) : Z :=
  match a with FileSuperseded => 0 | FileOpened => 1 | FileCreated => 2 | FileOverwritten => 3 end.

Definition CreateAction_try_from : Z → option CreateAction :=
  enum_try_from CreateAction_code [FileSuperseded; FileOpened; FileCreated; FileOverwritten].

(** ** Create contexts at the end of a body *)

(** Align, append the contexts and patch their offset and length. *)
Definition write_contexts (start ctx_offset_pos ctx_length_pos : Z) (ctxs : bytes) : Writer unit :=
  align_to 8 ;;
  here ← wc_position;
  let ctx_offset := Header_SIZE + (here - start) in
  write_bytes ctxs ;;
  set_u32_le_at ctx_offset_pos (trunc 32 ctx_offset) ;;
  set_u32_le_at ctx_length_pos (trunc 32 (len ctxs)).

Definition read_contexts (start ctx_offset ctx_length : Z) : Reader bytes :=
  if ctx_length >? 0
  then seek_body_offset start ctx_offset ;; read_bytes_bounded ctx_length
  else mret [].

(** ** CreateRequest *)

Record CreateRequest := mkCreateRequest {
  crq_requested_oplock_level : OplockLevel;
  crq_impersonation_level : ImpersonationLevel;
  crq_desired_access : Z;
  crq_file_attributes : Z;
  crq_share_access : Z;
  crq_create_disposition : CreateDisposition;
  crq_create_options : Z;
  crq_name : list Z;
  crq_create_contexts : bytes
}.
Definition CreateRequest_STRUCTURE_SIZE : Z := 57.

#[global] Instance CreateRequest_pack : Pack CreateRequest := λ m,
  start ← wc_position;
  write_u16_le CreateRequest_STRUCTURE_SIZE ;;
  write_u8 0 ;;
  write_u8 (OplockLevel_code (crq_requested_oplock_level m)) ;;
  write_u32_le (ImpersonationLevel_code (crq_impersonation_level m)) ;;
  write_u64_le 0 ;;
  write_u64_le 0 ;;
  write_u32_le (crq_desired_access m) ;;
  write_u32_le (crq_file_attributes m) ;;
  write_u32_le (crq_share_access m) ;;
  write_u32_le (CreateDisposition_code (crq_create_disposition m)) ;;
  write_u32_le (crq_create_options m) ;;
  name_offset_pos ← wc_position;
  write_u16_le 0 ;;
  name_length_pos ← wc_position;
  write_u16_le 0 ;;
  ctx_offset_pos ← wc_position;
  write_u32_le 0 ;;
  ctx_length_pos ← wc_position;
  write_u32_le 0 ;;
  name_start ← wc_position;
  write_utf16_le (crq_name m) ;;
  name_end ← wc_position;
  set_u16_le_at name_offset_pos (trunc 16 (Header_SIZE + (name_start - start))) ;;
  set_u16_le_at name_length_pos (trunc 16 (name_end - name_start)) ;;
  if negb (is_empty (crq_create_contexts m))
  then write_contexts start ctx_offset_pos ctx_length_pos (crq_create_contexts m)
  else if name_end - name_start =? 0 then write_u8 0
  else mret tt.

#[global] Instance CreateRequest_unpack : Unpack CreateRequest :=
  start ← rc_position;
  structure_size ← read_u16_le;
  fail_if (negb (structure_size =? CreateRequest_STRUCTURE_SIZE))
    (invalid_data "invalid CreateRequest structure size: expected {}, got {}") ;;
  _security_flags ← read_u8;
  oplock_raw ← read_u8;
  requested_oplock_level ← try_enum (OplockLevel_try_from oplock_raw) "invalid OplockLevel: {}";
  imp_raw ← read_u32_le;
  impersonation_level ← try_enum (ImpersonationLevel_try_from imp_raw)
    "invalid ImpersonationLevel: {}";
  _smb_create_flags ← read_u64_le;
  _reserved ← read_u64_le;
  desired_access ← read_u32_le;
  file_attributes ← read_u32_le;
  share_access ← read_u32_le;
  disp_raw ← read_u32_le;
  create_disposition ← try_enum (CreateDisposition_try_from disp_raw)
    "invalid CreateDisposition: {}";
  create_options ← read_u32_le;
  name_offset ← read_u16_le;
  name_length ← read_u16_le;
  ctx_offset ← read_u32_le;
  ctx_length ← read_u32_le;
  name ← (if name_length >? 0
          then seek_body_offset start name_offset ;; read_utf16_le name_length
          else mret []);
  create_contexts ← read_contexts start ctx_offset ctx_length;
  mret (mkCreateRequest requested_oplock_level impersonation_level desired_access
          file_attributes share_access create_disposition create_options name
          create_contexts).

(** ** CreateResponse *)

Record CreateResponse := mkCreateResponse {
  crr_oplock_level : OplockLevel;
  crr_flags : Z;
  crr_create_action : CreateAction;
  crr_creation_time : FileTime;
  crr_last_access_time : FileTime;
  crr_last_write_time : FileTime;
  crr_change_time : FileTime;
  crr_allocation_size : Z;
  crr_end_of_file : Z;
  crr_file_attributes : Z;
  crr_file_id : FileId;
  crr_create_contexts : bytes
}.
Definition CreateResponse_STRUCTURE_SIZE : Z := 89.

#[global] Instance CreateResponse_pack : Pack CreateResponse := λ m,
  start ← wc_position;
  write_u16_le CreateResponse_STRUCTURE_SIZE ;;
  write_u8 (OplockLevel_code (crr_oplock_level m)) ;;
  write_u8 (crr_flags m) ;;
  write_u32_le (CreateAction_code (crr_create_action m)) ;;
  pack (crr_creation_time m) ;;
  pack (crr_last_access_time m) ;;
  pack (crr_last_write_time m) ;;
  pack (crr_change_time m) ;;
  write_u64_le (crr_allocation_size m) ;;
  write_u64_le (crr_end_of_file m) ;;
  write_u32_le (crr_file_attributes m) ;;
  write_u32_le 0 ;;
  write_file_id (crr_file_id m) ;;
  ctx_offset_pos ← wc_position;
  write_u32_le 0 ;;
  ctx_length_pos ← wc_position;
  write_u32_le 0 ;;
  if negb (is_empty (crr_create_contexts m))
  then write_contexts start ctx_offset_pos ctx_length_pos (crr_create_contexts m)
  else mret tt.

#[global] Instance CreateResponse_unpack : Unpack CreateResponse :=
  start ← rc_position;
  structure_size ← read_u16_le;
  fail_if (negb (structure_size =? CreateResponse_STRUCTURE_SIZE))
    (invalid_data "invalid CreateResponse structure size: expected {}, got {}") ;;
  oplock_raw ← read_u8;
  oplock_level ← try_enum (OplockLevel_try_from oplock_raw) "invalid OplockLevel: {}";
  flags ← read_u8;
  action_raw ← read_u32_le;
  create_action ← try_enum (CreateAction_try_from action_raw) "invalid CreateAction: {}";
  creation_time ← unpack FileTime;
  last_access_time ← unpack FileTime;
  last_write_time ← unpack FileTime;
  change_time ← unpack FileTime;
  allocation_size ← read_u64_le;
  end_of_file ← read_u64_le;
  file_attributes ← read_u32_le;
  _reserved2 ← read_u32_le;
  file_id ← read_file_id;
  ctx_offset ← read_u32_le;
  ctx_length ← read_u32_le;
  create_contexts ← read_contexts start ctx_offset ctx_length;
  mret (mkCreateResponse oplock_level flags create_action creation_time last_access_time
          last_write_time change_time allocation_size end_of_file file_attributes file_id
          create_contexts).

(** ** Enum lemmas *)

Lemma ImpersonationLevel_try_from_code l :
  ImpersonationLevel_try_from (ImpersonationLevel_code l) = Some l.
Proof. by destruct l. Qed.
Lemma ImpersonationLevel_code_u32 l : is_u32 (ImpersonationLevel_code l).
Proof. by destruct l. Qed.
Lemma CreateDisposition_try_from_code d :
  CreateDisposition_try_from (CreateDisposition_code d) = Some d.
Proof. by destruct d. Qed.
Lemma CreateDisposition_code_u32 d : is_u32 (CreateDisposition_code d).
Proof. by destruct d. Qed.
Lemma CreateAction_try_from_code a : CreateAction_try_from (CreateAction_code a) = Some a.
Proof. by destruct a. Qed.
Lemma CreateAction_code_u32 a : is_u32 (CreateAction_code a).
Proof. by destruct a. Qed.

#[export] Hint Resolve ImpersonationLevel_try_from_code ImpersonationLevel_code_u32
  CreateDisposition_try_from_code CreateDisposition_code_u32
  CreateAction_try_from_code CreateAction_code_u32 : smb.

(** ** Contexts: the writer and the reader agree *)

(** What the fields and the tail look like: [q] is the position after the
    length field, [b] what precedes the contexts. *)
Definition contexts_pad (q : Z) (b : bytes) : Z := align_pad 8 (q + len b).

Definition contexts_off (start q : Z) (b ctxs : bytes) : Z :=
  if is_empty ctxs then 0 else Header_SIZE + (q + len b + contexts_pad q b - start).

Definition contexts_tail (q : Z) (b ctxs : bytes) : bytes :=
  if is_empty ctxs then [] else zeros (contexts_pad q b) ++ ctxs.

Definition contexts_layout (start q : Z) (b ctxs : bytes) : bytes :=
  to_le 4 (contexts_off start q b ctxs) ++ to_le 4 (len ctxs) ++ b ++ contexts_tail q b ctxs.

Lemma contexts_pad_range q b : 0 <= contexts_pad q b < 8.
Proof. by apply align_pad_range. Qed.

Lemma w_contexts p a b ctxs (W : Writer unit) t :
  (ctxs = [] →
   wtriple p (a ++ to_le 4 0 ++ to_le 4 0 ++ b) W (a ++ to_le 4 0 ++ to_le 4 0 ++ b ++ t) tt) →
  (ctxs ≠ [] → t = []) →
  wtriple p (a ++ to_le 4 0 ++ to_le 4 0 ++ b)
    (if negb (is_empty ctxs)
     then write_contexts p (p + len a) (p + len a + 4) ctxs
     else W)
    (a ++ contexts_layout p (p + len a + 8) b ctxs ++ t) tt.
Proof.
  intros HW Ht. unfold contexts_layout, contexts_off, contexts_tail.
  destruct ctxs as [|c0 cs] eqn:Ec; cbn [is_empty negb].
  { rewrite app_nil_r, <- !app_assoc. by apply HW. }
  rewrite Ht, app_nil_r by done. rewrite <- Ec. clear Ht HW.
  set (pad := contexts_pad _ _).
  unfold write_contexts.
  eapply w_bind; [by apply w_align|]. cbv beta.
  replace (align_pad 8 _) with pad
    by (unfold pad, contexts_pad; f_equal; autorewrite with len; lia).
  wsteps. wtrunc.
  eapply w_bind.
  { apply (w_set32_at a 0 (to_le 4 0 ++ b ++ zeros pad ++ ctxs)); [|done].
    by rewrite <- !app_assoc. }
  cbv beta. eapply eq_ind_r with (P := λ b1, wtriple _ _ _ b1 _).
  - eapply (w_set32_at (a ++ to_le 4 _) 0 (b ++ zeros pad ++ ctxs)); [by rewrite <- !app_assoc|].
    autorewrite with len. lia.
  - wtrunc. rewrite <- !app_assoc. do 4 f_equal.
    autorewrite with len. unfold Header_SIZE. rewrite len_zeros by apply contexts_pad_range. lia.
Qed.

(** The same with the buffers and positions given by equations. *)
Lemma w_contexts_at a b t p B start op lp ctxs (W : Writer unit) B' :
  B = a ++ to_le 4 0 ++ to_le 4 0 ++ b → start = p → op = p + len a → lp = p + len a + 4 →
  (ctxs ≠ [] → t = []) →
  (ctxs = [] →
   wtriple p (a ++ to_le 4 0 ++ to_le 4 0 ++ b) W (a ++ to_le 4 0 ++ to_le 4 0 ++ b ++ t) tt) →
  B' = a ++ contexts_layout p (p + len a + 8) b ctxs ++ t →
  wtriple p B (if negb (is_empty ctxs) then write_contexts start op lp ctxs else W) B' tt.
Proof. intros -> -> -> -> Ht HW ->. by apply w_contexts. Qed.

Lemma contexts_off_u32 start q b ctxs :
  0 <= q - start < 256 → len b < 2 ^ 16 → is_u32 (contexts_off start q b ctxs).
Proof.
  intros H1 H2. unfold contexts_off, in_range, Header_SIZE. pose proof (contexts_pad_range q b).
  pose proof (len_nonneg b). destruct (is_empty ctxs); lia.
Qed.

Lemma reads_contexts p start q b ctxs :
  len ctxs <= MAX_UNPACK_BUFFER → start <= p → p = q + len b → 0 <= q →
  reads_at p (read_contexts start (contexts_off start q b ctxs) (len ctxs))
    (contexts_tail q b ctxs) ctxs.
Proof.
  intros Hc Hs -> Hq. unfold read_contexts, contexts_off, contexts_tail.
  pose proof (contexts_pad_range q b).
  destruct ctxs as [|c0 cs] eqn:Ec; [apply reads_ret|]. cbn [is_empty]. rewrite <- Ec in *.
  replace (len ctxs >? 0) with true by (subst; rewrite len_cons; pose proof (len_nonneg cs); lia).
  eapply reads_bind; [apply reads_seek|apply reads_bytes_bounded; done].
  - unfold Header_SIZE. lia.
  - unfold Header_SIZE. rewrite len_zeros; lia.
Qed.

Lemma rok_contexts start off n :
  0 <= n → reader_ok (read_contexts start off n) (λ bs, len bs <= MAX_UNPACK_BUFFER).
Proof.
  intros Hn. unfold read_contexts. apply rok_if; intros _.
  - eapply rok_bind; [apply rok_seek|]. intros [] _. eapply rok_weaken; [|by apply rok_bytes_bounded]. cbn. lia.
  - by apply rok_ret.
Qed.
#[export] Hint Resolve rok_contexts : smb.

(** ** CreateRequest: codec *)

Record CreateRequest_wf (m : CreateRequest) : Prop := {
  cq_access : is_u32 (crq_desired_access m);
  cq_attributes : is_u32 (crq_file_attributes m);
  cq_share : is_u32 (crq_share_access m);
  cq_options : is_u32 (crq_create_options m);
  cq_name : str_wf (crq_name m);
  cq_name_len : is_u16 (len (utf16_le_bytes (crq_name m)));
  cq_contexts : len (crq_create_contexts m) <= MAX_UNPACK_BUFFER
}.

(** Bytes up to the name offset. *)
Definition CreateRequest_fixed (m : CreateRequest) : bytes :=
  to_le 2 57 ++ [byte_of_u8 0] ++ [byte_of_u8 (OplockLevel_code (crq_requested_oplock_level m))]
  ++ to_le 4 (ImpersonationLevel_code (crq_impersonation_level m)) ++ to_le 8 0 ++ to_le 8 0
  ++ to_le 4 (crq_desired_access m) ++ to_le 4 (crq_file_attributes m)
  ++ to_le 4 (crq_share_access m) ++ to_le 4 (CreateDisposition_code (crq_create_disposition m))
  ++ to_le 4 (crq_create_options m).

Definition CreateRequest_layout (p : Z) (m : CreateRequest) : bytes :=
  CreateRequest_fixed m ++ to_le 2 120 ++ to_le 2 (len (utf16_le_bytes (crq_name m)))
  ++ contexts_layout p (p + 56) (utf16_le_bytes (crq_name m)) (crq_create_contexts m).

(** The filler byte an empty buffer gets. *)
Definition CreateRequest_filler (m : CreateRequest) : bytes :=
  if is_empty (crq_create_contexts m) && (len (utf16_le_bytes (crq_name m)) =? 0)
  then [byte_of_u8 0] else [].

Lemma CreateRequest_fixed_len m : len (CreateRequest_fixed m) = 44.
Proof. unfold CreateRequest_fixed. by autorewrite with len. Qed.
#[export] Hint Rewrite CreateRequest_fixed_len : len.

Lemma CreateRequest_pack_layout p m :
  writes_at p (pack m) (CreateRequest_layout p m ++ CreateRequest_filler m).
Proof.
  unfold writes_at, pack, CreateRequest_pack. wsteps. autorewrite with len. cbn [Z.of_nat].
  set (N := utf16_le_bytes (crq_name m)).
  eapply w_bind.
  { eapply (w_set16_at (CreateRequest_fixed m) 0 (to_le 2 0 ++ to_le 4 0 ++ to_le 4 0 ++ N)).
    - unfold CreateRequest_fixed. rewrite <- !app_assoc. cbn [app]. done.
    - autorewrite with len. lia. }
  cbv beta. eapply w_bind.
  { eapply (w_set16_at (CreateRequest_fixed m ++ to_le 2 _) 0 (to_le 4 0 ++ to_le 4 0 ++ N));
      [by rewrite <- !app_assoc|]. autorewrite with len. lia. }
  cbv beta. wtrunc.
  apply (w_contexts_at (CreateRequest_fixed m ++ to_le 2 120 ++ to_le 2 (len N)) N
           (CreateRequest_filler m)); try (autorewrite with len; lia).
  - rewrite <- !app_assoc. f_equal.
    f_equal; [apply (f_equal (to_le 2)); unfold Header_SIZE; lia|].
    f_equal; apply (f_equal (to_le 2)); lia.
  - unfold CreateRequest_filler. by destruct (crq_create_contexts m).
  - intros E. unfold CreateRequest_filler. rewrite E. fold N. cbn [is_empty andb].
    match goal with |- context [if ?t then write_u8 0 else _] =>
      replace t with (len N =? 0) by lia end.
    destruct (_ =? 0); [|rewrite app_nil_r; apply w_ret].
    wdone.
  - unfold CreateRequest_layout. fold N. rewrite <- !app_assoc. do 3 f_equal.
    f_equal. f_equal. autorewrite with len. lia.
Qed.

Lemma reads_name p start (s : list Z) off :
  str_wf s → 0 <= off - 64 → start + (off - 64) = p →
  reads_at p (if len (utf16_le_bytes s) >? 0
              then seek_body_offset start off ;; read_utf16_le (len (utf16_le_bytes s))
              else mret []) (utf16_le_bytes s) s.
Proof.
  intros Hs Ho Hp. case_test.
  - eapply reads_bind_0; [apply reads_seek; rewrite ?len_nil; lia|]. by apply reads_utf16.
  - pose proof (len_nonneg (utf16_le_bytes s)).
    assert (len (utf16_le_bytes s) = 0) as E by lia.
    rewrite (len_0_nil _ E). rewrite (len_utf16_nil s) by done. apply reads_ret.
Qed.

Lemma CreateRequest_unpack_layout p m :
  0 <= p → CreateRequest_wf m → reads_at p (unpack CreateRequest) (CreateRequest_layout p m) m.
Proof.
  intros Hp [Ha Hat Hsh Hop Hs Hn Hc]. destruct m as [ol il da fa sa cd co nm cx].
  unfold CreateRequest_layout, CreateRequest_fixed, unpack, CreateRequest_unpack.
  cbn [crq_requested_oplock_level crq_impersonation_level crq_desired_access crq_file_attributes
       crq_share_access crq_create_disposition crq_create_options crq_name crq_create_contexts] in *.
  rewrite <- !app_assoc. repeat rstep. autorewrite with len. unfold contexts_layout.
  unfold in_range in Hn.
  eapply reads_bind; [apply reads_u32, contexts_off_u32; lia|].
  eapply reads_bind; [apply reads_u32; rside|]. autorewrite with len.
  eapply reads_bind; [apply reads_name; [done|lia|lia]|]. cbv beta.
  eapply reads_bind_nil; [apply reads_contexts; lia || done|]. apply reads_ret.
Qed.

Lemma CreateRequest_safe : reader_ok (unpack CreateRequest) (λ _, True).
Proof.
  unfold unpack, CreateRequest_unpack. roks.
  eapply rok_bind with (P := λ _, True).
  { apply rok_if; intros _; [|by apply rok_ret].
    eapply rok_bind; [apply rok_seek|]. intros _ _.
    eapply rok_weaken; [|apply rok_utf16; eauto with smb]. done. }
  intros name _. roks. by apply rok_ret.
Qed.

(** An empty name with no contexts is followed by a filler byte the parser
    leaves unread; every other request is consumed to the last byte. *)
#[global] Program Instance CreateRequest_codec : Codec CreateRequest := {
  codec_wf m := CreateRequest_wf m ∧ (crq_create_contexts m ≠ [] ∨ crq_name m ≠ []);
  codec_layout := CreateRequest_layout
}.
Next Obligation.
  intros p m Hp [Hwf Hne]. pose proof (CreateRequest_pack_layout p m) as H.
  replace (CreateRequest_filler m) with (@nil byte) in H; [by rewrite app_nil_r in H|].
  unfold CreateRequest_filler. destruct (_ && _) eqn:E; [|done]. bool_prop. exfalso.
  apply len_utf16_nil in H1; [|apply Hwf]. rewrite H1 in Hne.
  destruct (crq_create_contexts m); [|done]. by destruct Hne.
Qed.
Next Obligation. intros p m Hp [Hwf _]. by apply CreateRequest_unpack_layout. Qed.
Next Obligation. apply CreateRequest_safe. Qed.

(** ** CreateResponse: codec *)

Record CreateResponse_wf (m : CreateResponse) : Prop := {
  cs_flags : is_u8 (crr_flags m);
  cs_ctime : FileTime_wf (crr_creation_time m);
  cs_atime : FileTime_wf (crr_last_access_time m);
  cs_wtime : FileTime_wf (crr_last_write_time m);
  cs_chtime : FileTime_wf (crr_change_time m);
  cs_alloc : is_u64 (crr_allocation_size m);
  cs_eof : is_u64 (crr_end_of_file m);
  cs_attributes : is_u32 (crr_file_attributes m);
  cs_file_id : FileId_wf (crr_file_id m);
  cs_contexts : len (crr_create_contexts m) <= MAX_UNPACK_BUFFER
}.

Definition CreateResponse_fixed (m : CreateResponse) : bytes :=
  to_le 2 89 ++ [byte_of_u8 (OplockLevel_code (crr_oplock_level m))]
  ++ [byte_of_u8 (crr_flags m)] ++ to_le 4 (CreateAction_code (crr_create_action m))
  ++ to_le 8 (ticks (crr_creation_time m)) ++ to_le 8 (ticks (crr_last_access_time m))
  ++ to_le 8 (ticks (crr_last_write_time m)) ++ to_le 8 (ticks (crr_change_time m))
  ++ to_le 8 (crr_allocation_size m) ++ to_le 8 (crr_end_of_file m)
  ++ to_le 4 (crr_file_attributes m) ++ to_le 4 0
  ++ (to_le 8 (persistent (crr_file_id m)) ++ to_le 8 (volatile (crr_file_id m))).

Lemma CreateResponse_fixed_len m : len (CreateResponse_fixed m) = 80.
Proof. unfold CreateResponse_fixed. by autorewrite with len. Qed.
#[export] Hint Rewrite CreateResponse_fixed_len : len.

Definition CreateResponse_layout (p : Z) (m : CreateResponse) : bytes :=
  CreateResponse_fixed m ++ contexts_layout p (p + 88) [] (crr_create_contexts m).

#[global] Program Instance CreateResponse_codec : Codec CreateResponse := {
  codec_wf := CreateResponse_wf;
  codec_layout := CreateResponse_layout
}.
Next Obligation.
  intros p m Hp Hwf. unfold writes_at, pack at 1, CreateResponse_pack. wsteps.
  apply (w_contexts_at (CreateResponse_fixed m) [] []); try (autorewrite with len; lia); try done.
  unfold CreateResponse_layout. rewrite app_nil_r. f_equal. f_equal. autorewrite with len. lia.
Qed.
Next Obligation.
  intros p m Hp [Hf H1 H2 H3 H4 Ha He Hat Hid Hc].
  destruct m as [ol fl ca t1 t2 t3 t4 al eof fa id cx].
  unfold CreateResponse_layout, CreateResponse_fixed, unpack at 1, CreateResponse_unpack.
  cbn [crr_oplock_level crr_flags crr_create_action crr_creation_time crr_last_access_time
       crr_last_write_time crr_change_time crr_allocation_size crr_end_of_file
       crr_file_attributes crr_file_id crr_create_contexts] in *.
  rewrite <- !(app_assoc _ _ (contexts_layout _ _ _ _)). repeat rstep.
  rewrite (app_assoc (to_le 8 (persistent id))). repeat rstep.
  autorewrite with len. unfold contexts_layout.
  eapply reads_bind; [apply reads_u32, contexts_off_u32; [lia|done]|].
  eapply reads_bind; [apply reads_u32; rside|]. cbn [app].
  eapply reads_bind_nil; [apply reads_contexts; autorewrite with len; lia || done|].
  apply reads_ret.
Qed.
Next Obligation. unfold unpack at 1, CreateResponse_unpack. roks. by apply rok_ret. Qed.

(** ** Round trips *)

(** A CREATE request, the empty root name included, parses back from its own
    bytes, leaving unread only the filler byte of an empty buffer. *)
Lemma CreateRequest_round_trip q :
  CreateRequest_wf q → ∃ bs, packed q = Ok bs ∧
  unpack CreateRequest (ReadCursor_new bs) = Ok (q, RC bs (len bs - len (CreateRequest_filler q))).
Proof.
  intros Hq. exists (CreateRequest_layout 0 q ++ CreateRequest_filler q). split.
  - apply writes_at_packed, CreateRequest_pack_layout.
  - rewrite len_app, Z.add_simpl_r.
    apply (CreateRequest_unpack_layout 0 q ltac:(lia) Hq [] (CreateRequest_filler q) eq_refl).
Qed.

Definition example_opened : CreateResponse :=
  mkCreateResponse Lease 0 FileOpened (mkFileTime 1) (mkFileTime 2) (mkFileTime 3) (mkFileTime 4)
    4096 17 0x20 (mkFileId 5 6) [x09].
