(* ===== verification/Signing.v ===== *)
(** * Message signing ([src/crypto/signing.rs])

    The MAC primitives come from external crates, so they are a class of
    operations ([MacPrimitives]) with the output lengths their documentation
    states as a class of laws ([MacLaws]).  The model is everything the client
    adds: which bytes are covered, where the signature goes, which nonce GMAC
    gets, and when a received message is accepted. *)

From S2P Require Import Prelude Types Pack Codec Header.

(** ** Overwriting a range of a byte buffer *)

(** [buf[p..p + n].copy_from_slice(new)]: panics out of range. *)
Definition overwrite (l : bytes) (p : Z) (new : bytes) : result Error bytes :=
  if (0 <=? p) && (p + len new <=? len l) then Ok (patch l p new) else Panic.

Lemma overwrite_ok l p new :
  0 <= p → p + len new <= len l → overwrite l p new = Ok (patch l p new).
Proof. intros. unfold overwrite. by replace (_ && _) with true by lia. Qed.

Section patch_lemmas.
Context (l : bytes) (p : Z) (a : bytes) (Hp : 0 <= p) (Hl : p + len a <= len l).

Lemma len_patch : len (patch l p a) = len l.
Proof using Hp Hl. unfold patch. pose proof (len_nonneg a). len_lia. Qed.

(** The list around the patched range. *)
Lemma patch_split :
  patch l p a = take (Z.to_nat p) l ++ a ++ drop (Z.to_nat (p + len a)) l.
Proof. done. Qed.

Lemma len_take_p : len (take (Z.to_nat p) l) = p.
Proof using Hp Hl. pose proof (len_nonneg a). len_lia. Qed.

Lemma subslice_patch : subslice (patch l p a) p (p + len a) = a.
Proof using Hp Hl. unfold patch. apply subslice_app; rewrite len_take_p; done. Qed.

Lemma patch_patch b : len b = len a → patch (patch l p a) p b = patch l p b.
Proof using Hp Hl.
  intros Hb. pose proof len_take_p as Ht. unfold patch at 1. rewrite patch_split.
  replace (Z.to_nat p) with (length (take (Z.to_nat p) l)) at 1 by (revert Ht; unfold len; lia).
  rewrite take_app_length. unfold patch. do 2 f_equal.
  rewrite app_assoc, drop_app_ge; rewrite length_app.
  - rewrite drop_drop. f_equal. revert Ht Hb. unfold len. lia.
  - revert Ht Hb. unfold len. lia.
Qed.

(** Outside the range nothing changes. *)
Lemma subslice_patch_before x y :
  0 <= x <= y → y <= p → subslice (patch l p a) x y = subslice l x y.
Proof using Hp Hl.
  intros Hx Hy. pose proof len_take_p as Ht. rewrite patch_split.
  rewrite subslice_app_l by lia.
  rewrite <- (take_drop (Z.to_nat p) l) at 2. by rewrite subslice_app_l by lia.
Qed.

Lemma drop_patch_after : drop (Z.to_nat (p + len a)) (patch l p a) = drop (Z.to_nat (p + len a)) l.
Proof using Hp Hl.
  pose proof len_take_p as Ht. rewrite patch_split, app_assoc.
  replace (Z.to_nat (p + len a)) with (length (take (Z.to_nat p) l ++ a)) at 1
    by (rewrite length_app; revert Ht; unfold len; lia).
  by rewrite drop_app_length.
Qed.

End patch_lemmas.

(** Writing back what is there changes nothing. *)
Lemma patch_self l p n :
  0 <= p → 0 <= n → p + n <= len l → patch l p (subslice l p (p + n)) = l.
Proof.
  intros Hp Hn Hl. unfold patch. rewrite len_subslice by lia.
  replace (p + (p + n - p)) with (p + n) by lia.
  symmetry. apply subslice_split; lia.
Qed.

(** ** The external primitives *)

Class MacPrimitives := {
  (** [Hmac<Sha256>]: key and message; [None] is a key error. *)
  hmac_sha256 : bytes → bytes → option bytes;
  (** [Cmac<Aes128>] *)
  aes128_cmac : bytes → bytes → option bytes;
  (** [Aes128Gcm::encrypt]: key, nonce, plaintext and additional data to
      ciphertext followed by the tag; [None] is an AEAD error. *)
  aes128_gcm_encrypt : bytes → bytes → bytes → bytes → option bytes
}.

Class MacLaws `{MacPrimitives} := {
  hmac_len : ∀ k m t, hmac_sha256 k m = Some t → len t = 32;
  cmac_len : ∀ k m t, aes128_cmac k m = Some t → len t = 16;
  (** HMAC takes a key of any length. *)
  hmac_total : ∀ k m, is_Some (hmac_sha256 k m);
  (** CMAC takes exactly the keys of AES-128. *)
  cmac_total : ∀ k m, is_Some (aes128_cmac k m) ↔ len k = 16
}.

(** ** Algorithms *)

Inductive SigningAlgorithm := HmacSha256 | AesCmac | AesGmac.

#[global] Instance SigningAlgorithm_eq_dec : EqDecision SigningAlgorithm.
Proof. solve_decision. Defined.

Definition algorithm_for_dialect (d : Dialect) (gmac_negotiated : bool) : SigningAlgorithm :=
  match d with
  | Smb2_0_2 | Smb2_1 => HmacSha256
  | Smb3_0 | Smb3_0_2 => AesCmac
  | Smb3_1_1 => if gmac_negotiated then AesGmac else AesCmac
  end.

Definition SIGNATURE_OFFSET : Z := 48.
Definition SIGNATURE_LEN : Z := 16.
Definition MIN_MESSAGE_LEN : Z := 64.

Section signing.
Context `{MacPrimitives}.

(** [sig.copy_from_slice(..)] into a 16-byte array: panics on another length. *)
Definition copy_sig (t : bytes) : result Error bytes :=
  if len t =? 16 then Ok t else Panic.

Definition compute_hmac_sha256 (message key : bytes) : result Error bytes :=
  match hmac_sha256 key message with
  | None => Err (invalid_data "HMAC-SHA256 key error: {}")
  | Some t => h ← slice t 0 16; copy_sig h
  end.

Definition compute_aes_cmac (message key : bytes) : result Error bytes :=
  match aes128_cmac key message with
  | None => Err (invalid_data "AES-CMAC key error: {}")
  | Some t => copy_sig t
  end.

Definition gmac_nonce (message_id : Z) (is_cancel is_response : bool) : bytes :=
  let flags_byte :=
    Z.lor (if is_response then 0x01 else 0) (if is_cancel then 0x02 else 0) in
  to_le 8 message_id ++ [byte_of_u8 flags_byte] ++ zeros 3.

Definition compute_aes_gmac (message key : bytes) (message_id : Z)
    (is_cancel is_response : bool) : result Error bytes :=
  if negb (len key =? 16)
  then Err (invalid_data "AES-128-GMAC requires a 16-byte key, got {} bytes")
  else
    match aes128_gcm_encrypt key (gmac_nonce message_id is_cancel is_response) [] message with
    | None => Err (invalid_data "AES-256-GMAC encryption error: {}")
    | Some ciphertext =>
        if negb (len ciphertext =? 16)
        then Err (invalid_data "unexpected GMAC output length: expected 16, got {}")
        else copy_sig ciphertext
    end.

Definition compute_signature (message key : bytes) (algorithm : SigningAlgorithm)
    (message_id : Z) (is_cancel is_response : bool) : result Error bytes :=
  match algorithm with
  | HmacSha256 => compute_hmac_sha256 message key
  | AesCmac => compute_aes_cmac message key
  | AesGmac => compute_aes_gmac message key message_id is_cancel is_response
  end.

(** The message is mutated in place; the model returns the new bytes. *)
Definition sign_message (message key : bytes) (algorithm : SigningAlgorithm)
    (message_id : Z) (is_cancel : bool) : result Error bytes :=
  if len message <? MIN_MESSAGE_LEN
  then Err (invalid_data "message too short for signing: {} bytes, need at least {}")
  else
    message ← overwrite message SIGNATURE_OFFSET (zeros SIGNATURE_LEN);
    signature ← compute_signature message key algorithm message_id is_cancel false;
    overwrite message SIGNATURE_OFFSET signature.

Definition verify_signature (message key : bytes) (algorithm : SigningAlgorithm)
    (message_id : Z) (is_cancel : bool) : result Error unit :=
  if len message <? MIN_MESSAGE_LEN
  then Err (invalid_data "message too short for verification: {} bytes, need at least {}")
  else
    received_sig ← slice message SIGNATURE_OFFSET (SIGNATURE_OFFSET + SIGNATURE_LEN);
    buf ← overwrite message SIGNATURE_OFFSET (zeros SIGNATURE_LEN);
    expected_sig ← compute_signature buf key algorithm message_id is_cancel true;
    if negb (bool_decide (received_sig = expected_sig))
    then Err (invalid_data "signature verification failed")
    else Ok tt.

(** ** Lemmas *)

(** The message as the MAC sees it. *)
Definition zeroed (message : bytes) : bytes := patch message SIGNATURE_OFFSET (zeros SIGNATURE_LEN).

Lemma len_zeros16 : len (zeros SIGNATURE_LEN) = 16.
Proof. done. Qed.

Lemma compute_signature_len m k al mid c r t :
  compute_signature m k al mid c r = Ok t → len t = 16.
Proof.
  unfold compute_signature, compute_hmac_sha256, compute_aes_cmac, compute_aes_gmac, copy_sig.
  destruct al; intros E.
  - destruct (hmac_sha256 k m) as [t0|]; [|done]. unfold mbind, result_bind in E.
    destruct (slice t0 0 16); try done. case_test; [|done]. bool_prop. by injection E as <-.
  - destruct (aes128_cmac k m) as [t0|]; [|done]. case_test; [|done]. bool_prop.
    by injection E as <-.
  - case_test; [done|]. destruct (aes128_gcm_encrypt _ _ _ _) as [t0|]; [|done].
    case_test; [done|]. case_test; [|done]. bool_prop. by injection E as <-.
Qed.

Lemma compute_signature_no_panic `{!MacLaws} m k al mid c r :
  compute_signature m k al mid c r ≠ Panic.
Proof.
  unfold compute_signature, compute_hmac_sha256, compute_aes_cmac, compute_aes_gmac, copy_sig.
  destruct al.
  - destruct (hmac_sha256 k m) as [t|] eqn:E; [|done]. apply hmac_len in E.
    rewrite slice_ok by lia. cbn. by rewrite len_subslice by lia.
  - destruct (aes128_cmac k m) as [t|] eqn:E; [|done]. apply cmac_len in E. by rewrite E.
  - case_test; [done|]. destruct (aes128_gcm_encrypt _ _ _ _) as [t|]; [|done].
    case_test; [done|]. bool_prop. by rewrite Heqb0, Z.eqb_refl.
Qed.

Lemma zeroed_idemp m s : 64 <= len m → len s = 16 → zeroed (patch m SIGNATURE_OFFSET s) = zeroed m.
Proof.
  intros Hm Hs. unfold zeroed, SIGNATURE_OFFSET. apply patch_patch; [lia|lia|].
  by rewrite Hs, len_zeros16.
Qed.

Lemma sign_message_ok m k al mid c m' :
  sign_message m k al mid c = Ok m' →
  64 <= len m ∧ ∃ s, compute_signature (zeroed m) k al mid c false = Ok s ∧
                     m' = patch m SIGNATURE_OFFSET s.
Proof.
  unfold sign_message, MIN_MESSAGE_LEN. case_test; [done|]. bool_prop.
  unfold SIGNATURE_OFFSET in *. rewrite overwrite_ok by (rewrite ?len_zeros16; lia).
  unfold mbind, result_bind. fold (zeroed m).
  destruct (compute_signature (patch m 48 (zeros SIGNATURE_LEN)) k al mid c false) as [s|e|] eqn:E;
    try done.
  pose proof (compute_signature_len _ _ _ _ _ _ _ E) as Hs.
  rewrite overwrite_ok by (rewrite ?len_patch; rewrite ?len_zeros16; lia).
  intros [= <-]. split; [done|]. exists s. split; [done|].
  apply patch_patch; rewrite ?len_zeros16; lia.
Qed.

(** The role bit only enters the GMAC nonce. *)
Lemma compute_signature_role m k al mid c r1 r2 :
  al ≠ AesGmac → compute_signature m k al mid c r1 = compute_signature m k al mid c r2.
Proof. by destruct al. Qed.

Lemma verify_signature_iff m k al mid c :
  verify_signature m k al mid c = Ok tt ↔
  64 <= len m ∧ compute_signature (zeroed m) k al mid c true = Ok (subslice m 48 64).
Proof.
  unfold verify_signature, MIN_MESSAGE_LEN, SIGNATURE_OFFSET, SIGNATURE_LEN.
  case_test; bool_prop; [split; [done|intros [? _]; lia]|].
  rewrite slice_ok by lia. rewrite overwrite_ok by (rewrite ?len_zeros by lia; lia).
  unfold mbind, result_bind. change (patch m 48 (zeros 16)) with (zeroed m).
  destruct (compute_signature (zeroed m) k al mid c true) as [s|e|];
    [|split; [done|by intros [_ ?]]|split; [done|by intros [_ ?]]].
  destruct (bool_decide _) eqn:E.
  - apply bool_decide_eq_true in E. cbn. by rewrite <- E.
  - apply bool_decide_eq_false in E. cbn. split; [done|]. intros [_ [= Es]].
    by rewrite Es in E.
Qed.

Lemma verify_signature_no_panic `{!MacLaws} m k al mid c : verify_signature m k al mid c ≠ Panic.
Proof.
  unfold verify_signature, MIN_MESSAGE_LEN, SIGNATURE_OFFSET, SIGNATURE_LEN.
  case_test; [done|]. bool_prop.
  rewrite slice_ok by lia. rewrite overwrite_ok by (rewrite ?len_zeros by lia; lia).
  unfold mbind, result_bind.
  pose proof (compute_signature_no_panic (patch m 48 (zeros 16)) k al mid c true).
  destruct (compute_signature _ _ _ _ _ _); [by case_test|done|done].
Qed.

Lemma sign_message_no_panic `{!MacLaws} m k al mid c : sign_message m k al mid c ≠ Panic.
Proof.
  unfold sign_message, MIN_MESSAGE_LEN, SIGNATURE_OFFSET, SIGNATURE_LEN.
  case_test; [done|]. bool_prop. rewrite overwrite_ok by (rewrite ?len_zeros by lia; lia).
  unfold mbind, result_bind.
  pose proof (compute_signature_no_panic (patch m 48 (zeros 16)) k al mid c false).
  destruct (compute_signature _ _ _ _ _ _) eqn:E; [|done|done].
  apply compute_signature_len in E.
  by rewrite overwrite_ok by (rewrite ?len_patch; rewrite ?len_zeros by lia; lia).
Qed.

(** ** Properties *)

(** Signing succeeds exactly by replacing the signature field: the
    length, the 48 bytes before it and everything after it are kept, the field
    holds the MAC of the message with the field zeroed, and a second signature
    with the same key gives the same bytes.  With HMAC and CMAC, whose MAC has
    no role bit, the verifier accepts the signed message. *)
Theorem sign_message_correct m k al mid c m' :
  sign_message m k al mid c = Ok m' →
  len m' = len m ∧
  subslice m' 0 48 = subslice m 0 48 ∧
  drop 64 m' = drop 64 m ∧
  compute_signature (zeroed m') k al mid c false = Ok (subslice m' 48 64) ∧
  sign_message m' k al mid c = Ok m' ∧
  (al ≠ AesGmac → verify_signature m' k al mid c = Ok tt).
Proof.
  intros E. pose proof (sign_message_ok _ _ _ _ _ _ E) as (Hm & s & Hs & ->).
  pose proof (compute_signature_len _ _ _ _ _ _ _ Hs) as Hl. unfold SIGNATURE_OFFSET in *.
  pose proof (zeroed_idemp m s Hm Hl) as Hz. unfold SIGNATURE_OFFSET in Hz.
  assert (subslice (patch m 48 s) 48 64 = s) as Hsub.
  { replace 64 with (48 + len s) by lia. apply subslice_patch; lia. }
  assert (len (patch m 48 s) = len m) as Hlen by (apply len_patch; lia).
  split; [done|]. split; [apply subslice_patch_before; lia|]. split.
  { pose proof (drop_patch_after m 48 s ltac:(lia) ltac:(lia)) as Hd. by rewrite Hl in Hd. }
  split; [by rewrite Hz, Hsub|]. split.
  - unfold sign_message, MIN_MESSAGE_LEN, SIGNATURE_OFFSET. rewrite Hlen.
    replace (len m <? 64) with false by lia.
    rewrite overwrite_ok by (rewrite ?len_zeros16; lia). unfold mbind, result_bind.
    change (patch (patch m 48 s) 48 (zeros SIGNATURE_LEN)) with (zeroed (patch m 48 s)).
    rewrite Hz, Hs. unfold zeroed, SIGNATURE_OFFSET.
    rewrite overwrite_ok by (rewrite ?len_patch; rewrite ?len_zeros16; lia).
    f_equal. apply patch_patch; rewrite ?len_zeros16; lia.
  - intros Hal. apply verify_signature_iff. rewrite Hlen, Hz, Hsub. split; [done|].
    by rewrite <- (compute_signature_role _ _ _ _ _ false true).
Qed.

(** The verifier accepts a message exactly when it holds a whole
    header and its signature field is the MAC, in the server role, of the
    message with the field zeroed; it never panics. *)
Theorem verify_signature_correct `{!MacLaws} m k al mid c :
  (verify_signature m k al mid c = Ok tt ↔
   64 <= len m ∧ compute_signature (zeroed m) k al mid c true = Ok (subslice m 48 64)) ∧
  verify_signature m k al mid c ≠ Panic ∧ sign_message m k al mid c ≠ Panic.
Proof.
  split; [apply verify_signature_iff|].
  split; [apply verify_signature_no_panic|apply sign_message_no_panic].
Qed.

End signing.

(** Two GMAC signatures use the same nonce only for the same
    message id, role and cancel bit, so a client never reuses one between a
    request, its CANCEL and the server's answer. *)
Theorem gmac_nonce_injective i1 c1 r1 i2 c2 r2 :
  is_u64 i1 → is_u64 i2 →
  gmac_nonce i1 c1 r1 = gmac_nonce i2 c2 r2 → i1 = i2 ∧ c1 = c2 ∧ r1 = r2.
Proof.
  intros H1 H2 E. unfold gmac_nonce in E.
  apply app_inj_1 in E as [Ei Ef]; [|by rewrite !length_to_le].
  split; [|by destruct c1, c2, r1, r2].
  rewrite <- (of_le_to_le_small 8 i1 H1), <- (of_le_to_le_small 8 i2 H2). by rewrite Ei.
Qed.

(** ** Witnesses *)

(** Toy primitives with the documented interface: enough to run the model. *)
#[global] Instance toy_macs : MacPrimitives := {
  hmac_sha256 k m := Some (to_le 32 (of_le k + of_le m));
  aes128_cmac k m := if len k =? 16 then Some (to_le 16 (of_le k + of_le m)) else None;
  aes128_gcm_encrypt k n m a := Some (to_le 16 (of_le k + of_le n + of_le a))
}.

#[global] Instance toy_mac_laws : MacLaws.
Proof.
  split; cbn.
  - intros k m t [= <-]. apply (len_to_le 32).
  - intros k m t H. case_test; [|done]. injection H as <-. apply (len_to_le 16).
  - eauto.
  - intros k m. destruct (len k =? 16) eqn:E; bool_prop; split; try done; by intros [].
Qed.

Definition signed_example : bytes :=
  match sign_message (zeros 70) (zeros 16) AesCmac 7 false with Ok m => m | _ => [] end.

Lemma sign_message_correct_witness :
  verify_signature signed_example (zeros 16) AesCmac 7 false = Ok tt.
Proof. by apply (sign_message_correct (zeros 70)). Defined.

Lemma verify_signature_correct_witness :
  verify_signature (zeros 10) (zeros 16) AesGmac 7 false ≠ Panic.
Proof. apply (verify_signature_correct (zeros 10)). Defined.

Lemma gmac_nonce_injective_witness : 5 = 5 ∧ true = true ∧ false = false.
Proof. by apply (gmac_nonce_injective 5 true false 5 true false). Defined.
