(* ===== verification/Kdf.v ===== *)
(** * Key derivation ([src/crypto/kdf.rs])

    The SP800-108 counter-mode KDF over HMAC-SHA256, the labels and contexts of each
    dialect, and the preauthentication hash.  HMAC is an operation of
    [MacPrimitives]; SHA-512 is a class of its own. *)

From S2P Require Import Prelude Types Fields Pack Codec Header Signing.
From Stdlib Require Strings.Ascii Strings.String.

(** [Sha512::new().update(..).finalize()] over the concatenation of the updates. *)
Class Sha512 := sha512 : bytes → bytes.
Class Sha512Laws `{Sha512} := sha512_len : ∀ m, len (sha512 m) = 64.

(** A byte-string literal. *)
Definition ascii_bytes (s : string) : bytes :=
  map (λ c, byte_of_u8 (Z.of_N (Ascii.N_of_ascii c))) (String.list_ascii_of_string s).

Section kdf.
Context `{MacPrimitives}.

(** What one round feeds to HMAC: counter, label, separator, context, length. *)
Definition kdf_input (i : Z) (label context : bytes) (key_length_bits : Z) : bytes :=
  to_be 4 i ++ label ++ [x00] ++ context ++ to_be 4 key_length_bits.

(** [for i in 1..=iterations], from round [i] with [n] rounds left. *)
Fixpoint kdf_rounds (n : nat) (i : Z) (key label context : bytes) (key_length_bits : Z) :
    result Error bytes :=
  match n with
  | O => Ok []
  | S n =>
      match hmac_sha256 key (kdf_input i label context key_length_bits) with
      | None => Panic (* the [expect] on the key *)
      | Some mac =>
          rest ← kdf_rounds n (i + 1) key label context key_length_bits;
          Ok (mac ++ rest)
      end
  end.

Definition sp800_108_kdf (key label context : bytes) (key_length_bits : Z) : result Error bytes :=
  let iterations := (key_length_bits + 255) / 256 in
  out ← kdf_rounds (Z.to_nat iterations) 1 key label context key_length_bits;
  Ok (take (Z.to_nat (key_length_bits / 8)) out).

Record DerivedKeys := mkDerivedKeys {
  signing_key : bytes; encryption_key : bytes; decryption_key : bytes
}.

(** Label and context of the three keys. *)
Definition key_labels (dialect : Dialect) (preauth_hash : option bytes) :
    result Error ((bytes * bytes) * (bytes * bytes) * (bytes * bytes)) :=
  match dialect with
  | Smb3_1_1 =>
      match preauth_hash with
      | None => Panic (* the [expect] on the hash *)
      | Some hash =>
          Ok ((ascii_bytes "SMBSigningKey" ++ [x00], hash),
              (ascii_bytes "SMBC2SCipherKey" ++ [x00], hash),
              (ascii_bytes "SMBS2CCipherKey" ++ [x00], hash))
      end
  | Smb3_0 | Smb3_0_2 =>
      Ok ((ascii_bytes "SMB2AESCMAC" ++ [x00], ascii_bytes "SmbSign" ++ [x00]),
          (ascii_bytes "SMB2AESCCM" ++ [x00], ascii_bytes "ServerIn " ++ [x00]),
          (ascii_bytes "SMB2AESCCM" ++ [x00], ascii_bytes "ServerOut" ++ [x00]))
  | _ => Panic (* the [assert!] on the dialect *)
  end.

Definition derive_session_keys (session_key : bytes) (dialect : Dialect)
    (preauth_hash : option bytes) (key_length_bits : Z) : result Error DerivedKeys :=
  '((signing_label, signing_context), (enc_label, enc_context), (dec_label, dec_context))
    ← key_labels dialect preauth_hash;
  signing ← sp800_108_kdf session_key signing_label signing_context key_length_bits;
  enc ← sp800_108_kdf session_key enc_label enc_context key_length_bits;
  dec ← sp800_108_kdf session_key dec_label dec_context key_length_bits;
  Ok (mkDerivedKeys signing enc dec).

End kdf.

(** ** The preauthentication hash *)

Record PreauthHasher := mkPreauthHasher { ph_hash : bytes }.

Definition PreauthHasher_new : PreauthHasher := mkPreauthHasher (zeros 64).

Definition PreauthHasher_update `{Sha512} (message_bytes : bytes) (h : PreauthHasher) : PreauthHasher :=
  mkPreauthHasher (sha512 (ph_hash h ++ message_bytes)).

Definition PreauthHasher_value (h : PreauthHasher) : bytes := ph_hash h.

(** ** What a key is *)

Section kdf_lemmas.
Context `{MacLaws}.

Lemma kdf_rounds_ok n i key label context bits :
  ∃ out, kdf_rounds n i key label context bits = Ok out ∧ len out = 32 * Z.of_nat n.
Proof.
  revert i. induction n as [|n IH]; intros i; [by exists []|]. cbn [kdf_rounds].
  destruct (hmac_total key (kdf_input i label context bits)) as [mac E]. rewrite E.
  destruct (IH (i + 1)) as (out & -> & Hl). eexists. split; [done|].
  rewrite len_app, Hl, (hmac_len _ _ _ E). lia.
Qed.

(** A key of at most 256 bits is the start of one MAC. *)
Lemma kdf_one_block key label context bits :
  0 < bits <= 256 →
  ∃ mac, hmac_sha256 key (kdf_input 1 label context bits) = Some mac ∧ len mac = 32 ∧
         sp800_108_kdf key label context bits = Ok (take (Z.to_nat (bits / 8)) mac).
Proof.
  intros Hb. destruct (hmac_total key (kdf_input 1 label context bits)) as [mac E].
  exists mac. split; [done|]. split; [by eapply hmac_len|]. unfold sp800_108_kdf.
  replace ((bits + 255) / 256) with 1.
  2: { pose proof (Z.div_mod (bits + 255) 256). pose proof (Z.mod_pos_bound (bits + 255) 256). lia. }
  change (Z.to_nat 1) with 1%nat. cbn [kdf_rounds]. rewrite E. cbn [mbind result_bind]. by rewrite app_nil_r.
Qed.

(** Every length is served: as many bytes as the bits asked for. *)
Lemma kdf_len key label context bits :
  0 <= bits → ∃ k, sp800_108_kdf key label context bits = Ok k ∧ len k = bits / 8.
Proof.
  intros Hb. unfold sp800_108_kdf.
  destruct (kdf_rounds_ok (Z.to_nat ((bits + 255) / 256)) 1 key label context bits) as (out & -> & Hl).
  eexists. split; [done|]. cbn [mbind result_bind]. unfold len in *. rewrite length_take.
  pose proof (Z.div_mod (bits + 255) 256). pose proof (Z.mod_pos_bound (bits + 255) 256).
  pose proof (Z.div_mod bits 8). pose proof (Z.mod_pos_bound bits 8). lia.
Qed.

Lemma derive_ok key dialect hash bits :
  0 <= bits → (dialect = Smb3_0 ∨ dialect = Smb3_0_2 ∨ dialect = Smb3_1_1) →
  (dialect = Smb3_1_1 → is_Some hash) →
  ∃ ks, derive_session_keys key dialect hash bits = Ok ks ∧ len (signing_key ks) = bits / 8 ∧
        len (encryption_key ks) = bits / 8 ∧ len (decryption_key ks) = bits / 8.
Proof.
  intros Hb Hd Hh. assert (∃ ls, key_labels dialect hash = Ok ls) as [[[[a a'] [b b']] [c c']] E].
  { destruct Hd as [->|[->| ->]]; [by eexists|by eexists|]. destruct Hh as [h ->]; [done|]. by eexists. }
  unfold derive_session_keys. rewrite E. cbn [mbind result_bind].
  destruct (kdf_len key a a' bits Hb) as (k1 & -> & H1), (kdf_len key b b' bits Hb) as (k2 & -> & H2),
    (kdf_len key c c' bits Hb) as (k3 & -> & H3). by eexists.
Qed.

End kdf_lemmas.

(** The inputs of the three keys differ, whatever the session key, hash and length:
    a PRF without collisions gives three different keys. *)
Lemma kdf_inputs_distinct dialect hash bits s sc e ec d dc :
  key_labels dialect hash = Ok ((s, sc), (e, ec), (d, dc)) →
  kdf_input 1 s sc bits ≠ kdf_input 1 e ec bits ∧
  kdf_input 1 s sc bits ≠ kdf_input 1 d dc bits ∧
  kdf_input 1 e ec bits ≠ kdf_input 1 d dc bits.
Proof.
  destruct dialect; try done; cbn [key_labels]; [| |destruct hash; [|done]];
    intros [= <- <- <- <- <- <-]; unfold kdf_input;
    split_and!; intros E%app_inv_head;
    first [apply (f_equal (lookup 3%nat)) in E; lazy in E; discriminate E
          |apply (f_equal (lookup 9%nat)) in E; lazy in E; discriminate E
          |apply (f_equal (lookup 18%nat)) in E; lazy in E; discriminate E].
Qed.
