(* ===== verification/Ntlm.v ===== *)
(** * NTLM authentication ([src/auth/ntlm.rs])

    The client side of the three-message exchange: the NEGOTIATE message, parsing of
    the CHALLENGE and its AV_PAIRs, and the AUTHENTICATE message with its NTLMv2
    response, key exchange and message integrity code.  MD4, HMAC-MD5 and
    [str::to_uppercase] are parameters; RC4, which the source implements itself, is
    modelled.  Random bytes and the clock are arguments. *)

From S2P Require Import Prelude Types Fields Pack Codec Utf16 Signing.

(** [md4::Md4] and [Hmac<Md5>]; HMAC takes a key of any length. *)
Class NtlmPrimitives := {
  md4 : bytes → bytes;
  hmac_md5 : bytes → bytes → bytes
}.
Class NtlmLaws `{NtlmPrimitives} := {
  md4_len : ∀ m, len (md4 m) = 16;
  hmac_md5_len : ∀ k m, len (hmac_md5 k m) = 16
}.

Definition NTLM_SIGNATURE : bytes := [x4e; x54; x4c; x4d; x53; x53; x50; x00].
Definition MSG_TYPE_NEGOTIATE : Z := 1.
Definition MSG_TYPE_CHALLENGE : Z := 2.
Definition MSG_TYPE_AUTHENTICATE : Z := 3.

Definition NTLMSSP_NEGOTIATE_UNICODE : Z := 0x00000001.
Definition NTLMSSP_REQUEST_TARGET : Z := 0x00000004.
Definition NTLMSSP_NEGOTIATE_SIGN : Z := 0x00000010.
Definition NTLMSSP_NEGOTIATE_SEAL : Z := 0x00000020.
Definition NTLMSSP_NEGOTIATE_NTLM : Z := 0x00000200.
Definition NTLMSSP_NEGOTIATE_ALWAYS_SIGN : Z := 0x00008000.
Definition NTLMSSP_NEGOTIATE_EXTENDED_SESSIONSECURITY : Z := 0x00080000.
Definition NTLMSSP_NEGOTIATE_TARGET_INFO : Z := 0x00800000.
Definition NTLMSSP_NEGOTIATE_128 : Z := 0x20000000.
Definition NTLMSSP_NEGOTIATE_KEY_EXCH : Z := 0x40000000.
Definition NTLMSSP_NEGOTIATE_56 : Z := 0x80000000.

Definition DEFAULT_NEGOTIATE_FLAGS : Z :=
  fold_left Z.lor
    [NTLMSSP_REQUEST_TARGET; NTLMSSP_NEGOTIATE_NTLM; NTLMSSP_NEGOTIATE_ALWAYS_SIGN;
     NTLMSSP_NEGOTIATE_EXTENDED_SESSIONSECURITY; NTLMSSP_NEGOTIATE_TARGET_INFO;
     NTLMSSP_NEGOTIATE_128; NTLMSSP_NEGOTIATE_KEY_EXCH; NTLMSSP_NEGOTIATE_56;
     NTLMSSP_NEGOTIATE_SIGN; NTLMSSP_NEGOTIATE_SEAL] NTLMSSP_NEGOTIATE_UNICODE.

Definition MSV_AV_EOL : Z := 0.
Definition MSV_AV_FLAGS : Z := 6.
Definition MSV_AV_TIMESTAMP : Z := 7.

Record NtlmCredentials := mkNtlmCredentials {
  nc_username : list Z; nc_password : list Z; nc_domain : list Z
}.

Record NtlmAuthenticator := mkNtlmAuthenticator {
  na_credentials : NtlmCredentials;
  na_negotiate_bytes : option bytes;
  na_challenge_bytes : option bytes;
  na_session_key : option bytes
}.

Definition NtlmAuthenticator_new (c : NtlmCredentials) : NtlmAuthenticator :=
  mkNtlmAuthenticator c None None None.

(** What one exchange draws from the system. *)
Record Entropy := mkEntropy {
  en_client_challenge : bytes; en_random_session_key : bytes; en_now : Z
}.

Record Entropy_wf (e : Entropy) : Prop := {
  enw_challenge : len (en_client_challenge e) = 8;
  enw_key : len (en_random_session_key e) = 16;
  enw_now : is_u64 (en_now e)
}.

Definition negotiate (a : NtlmAuthenticator) : bytes * NtlmAuthenticator :=
  let buf := NTLM_SIGNATURE ++ to_le 4 MSG_TYPE_NEGOTIATE ++ to_le 4 DEFAULT_NEGOTIATE_FLAGS
             ++ zeros 8 ++ zeros 8 in
  (buf, mkNtlmAuthenticator (na_credentials a) (Some buf) (na_challenge_bytes a) (na_session_key a)).

(** ** The challenge *)

Record ChallengeMessage := mkChallengeMessage {
  cm_negotiate_flags : Z; cm_server_challenge : bytes; cm_target_info : bytes
}.

Definition parse_challenge_message (data : bytes) : result Error ChallengeMessage :=
  if len data <? 32 then Err (invalid_data "CHALLENGE_MESSAGE too short") else
  signature ← slice data 0 8;
  if negb (bool_decide (signature = NTLM_SIGNATURE))
  then Err (invalid_data "invalid NTLM signature in CHALLENGE_MESSAGE") else
  msg_type ← le_at data 8 12;
  if negb (msg_type =? MSG_TYPE_CHALLENGE)
  then Err (invalid_data "expected CHALLENGE_MESSAGE type 2, got {}") else
  negotiate_flags ← le_at data 20 24;
  server_challenge ← slice data 24 32;
  target_info ←
    (if len data >=? 48 then
       ti_len ← le_at data 40 42;
       ti_offset ← le_at data 44 48;
       if (ti_len >? 0) && (ti_offset + ti_len <=? len data)
       then slice data ti_offset (ti_offset + ti_len) else Ok []
     else Ok []);
  Ok (mkChallengeMessage negotiate_flags server_challenge target_info).

(** The loop of [find_av_pair] at [offset]. *)
Fixpoint find_av_loop (fuel : nat) (target_info : bytes) (av_id offset : Z) :
    result Error (option bytes) :=
  match fuel with
  | O => Panic
  | S fuel =>
      if negb (offset + 4 <=? len target_info) then Ok None
      else
        id ← le_at target_info offset (offset + 2);
        n ← le_at target_info (offset + 2) (offset + 4);
        if id =? av_id then
          if offset + 4 + n <=? len target_info
          then v ← slice target_info (offset + 4) (offset + 4 + n); Ok (Some v) else Ok None
        else if id =? MSV_AV_EOL then Ok None
        else find_av_loop fuel target_info av_id (offset + (4 + n))
  end.

Definition find_av_pair (target_info : bytes) (av_id : Z) : result Error (option bytes) :=
  find_av_loop (S (length target_info)) target_info av_id 0.

(** The loop of [parse_av_pairs] at [offset]. *)
Fixpoint parse_av_loop (fuel : nat) (target_info : bytes) (offset : Z) :
    result Error (list (Z * bytes)) :=
  match fuel with
  | O => Panic
  | S fuel =>
      if negb (offset + 4 <=? len target_info) then Ok []
      else
        id ← le_at target_info offset (offset + 2);
        n ← le_at target_info (offset + 2) (offset + 4);
        if id =? MSV_AV_EOL then Ok [(id, [])]
        else if offset + 4 + n >? len target_info then Ok []
        else
          v ← slice target_info (offset + 4) (offset + 4 + n);
          pairs ← parse_av_loop fuel target_info (offset + (4 + n));
          Ok ((id, v) :: pairs)
  end.

Definition parse_av_pairs (target_info : bytes) : result Error (list (Z * bytes)) :=
  parse_av_loop (S (length target_info)) target_info 0.

(** One pair on the wire. *)
Definition av_pair (id : Z) (value : bytes) : bytes :=
  to_le 2 id ++ to_le 2 (trunc 16 (len value)) ++ value.

(** The loop that copies the pairs. *)
Definition copied_pairs (has_timestamp : bool) (pairs : list (Z * bytes)) : bytes :=
  concat (map (λ p : Z * bytes,
    if p.1 =? MSV_AV_EOL then []
    else if (p.1 =? MSV_AV_FLAGS) && has_timestamp then []
    else av_pair p.1 p.2) pairs).

(** The bits of the MsvAvFlags pair, if there is one with a value. *)
Definition existing_flags (pairs : list (Z * bytes)) : result Error Z :=
  match list_find (λ p : Z * bytes, p.1 = MSV_AV_FLAGS) pairs with
  | Some (_, (_, v)) => if len v >=? 4 then le_at v 0 4 else Ok 0
  | None => Ok 0
  end.

Definition build_auth_target_info (challenge_target_info : bytes) (has_timestamp : bool) :
    result Error bytes :=
  pairs ← parse_av_pairs challenge_target_info;
  let result := copied_pairs has_timestamp pairs in
  result ← (if has_timestamp then
              flags ← existing_flags pairs;
              Ok (result ++ to_le 2 MSV_AV_FLAGS ++ to_le 2 4 ++ to_le 4 (Z.lor flags 2))
            else Ok result);
  Ok (result ++ to_le 2 MSV_AV_EOL ++ to_le 2 0).

(** ** RC4 *)

Definition swap (s : list Z) (i j : nat) : list Z :=
  let a := nth i s 0 in let b := nth j s 0 in <[j := a]> (<[i := b]> s).

(** [for i in 0..256], from [i] with [n] rounds left. *)
Fixpoint rc4_schedule (n i : nat) (j : Z) (key : bytes) (s : list Z) : list Z :=
  match n with
  | O => s
  | S n =>
      let j := trunc 8 (trunc 8 (j + nth i s 0) + u8_of_byte (nth (i mod length key) key x00)) in
      rc4_schedule n (S i) j key (swap s i (Z.to_nat j))
  end.

(** The closure over the data, with [i], [j] and [s] captured. *)
Fixpoint rc4_stream (data : bytes) (i j : Z) (s : list Z) : bytes :=
  match data with
  | [] => []
  | b :: data =>
      let i := trunc 8 (i + 1) in
      let j := trunc 8 (j + nth (Z.to_nat i) s 0) in
      let s := swap s (Z.to_nat i) (Z.to_nat j) in
      let k := nth (Z.to_nat (trunc 8 (nth (Z.to_nat i) s 0 + nth (Z.to_nat j) s 0))) s 0 in
      byte_of_u8 (Z.lxor (u8_of_byte b) k) :: rc4_stream data i j s
  end.

(** An empty key divides by zero. *)
Definition rc4_encrypt (key data : bytes) : result Error bytes :=
  if is_empty key then Panic
  else Ok (rc4_stream data 0 0 (rc4_schedule 256 0 0 key (map Z.of_nat (seq 0 256)))).

(** ** The AUTHENTICATE message *)

Definition build_temp (timestamp : Z) (client_challenge target_info : bytes) : bytes :=
  [byte_of_u8 1] ++ [byte_of_u8 1] ++ zeros 6 ++ to_le 8 timestamp ++ client_challenge ++ zeros 4
  ++ target_info ++ zeros 4.

(** The Len, MaxLen and Offset of a payload. *)
Definition payload_fields (payload : bytes) (offset : Z) : bytes :=
  to_le 2 (trunc 16 (len payload)) ++ to_le 2 (trunc 16 (len payload)) ++ to_le 4 (trunc 32 offset).

Definition build_authenticate_message (negotiate_flags : Z) (domain username : list Z)
    (lm_challenge_response nt_challenge_response encrypted_random_session_key : bytes)
    (include_mic : bool) : bytes :=
  let domain_bytes := utf16_le_bytes domain in
  let user_bytes := utf16_le_bytes username in
  let workstation_bytes := [] in
  let header_size := if include_mic then 88 else 72 in
  let domain_offset := header_size in
  let user_offset := domain_offset + len domain_bytes in
  let workstation_offset := user_offset + len user_bytes in
  let lm_offset := workstation_offset + len workstation_bytes in
  let nt_offset := lm_offset + len lm_challenge_response in
  let session_key_offset := nt_offset + len nt_challenge_response in
  NTLM_SIGNATURE ++ to_le 4 MSG_TYPE_AUTHENTICATE
  ++ payload_fields lm_challenge_response lm_offset
  ++ payload_fields nt_challenge_response nt_offset
  ++ payload_fields domain_bytes domain_offset
  ++ payload_fields user_bytes user_offset
  ++ payload_fields workstation_bytes workstation_offset
  ++ payload_fields encrypted_random_session_key session_key_offset
  ++ to_le 4 negotiate_flags ++ zeros 8
  ++ (if include_mic then zeros 16 else [])
  ++ domain_bytes ++ user_bytes ++ workstation_bytes
  ++ lm_challenge_response ++ nt_challenge_response ++ encrypted_random_session_key.

Section ntlm.
Context `{NtlmPrimitives} (to_uppercase : list Z → list Z).

Definition compute_nt_hash (password : list Z) : bytes := md4 (utf16_le_bytes password).

Definition compute_ntlmv2_hash (nt_hash : bytes) (username domain : list Z) : bytes :=
  hmac_md5 nt_hash (utf16_le_bytes (to_uppercase username) ++ utf16_le_bytes domain).

Definition compute_mic (exported_session_key negotiate_bytes challenge_bytes authenticate_bytes : bytes) :
    bytes :=
  hmac_md5 exported_session_key (negotiate_bytes ++ challenge_bytes ++ authenticate_bytes).

(** The server's timestamp if it sent one of eight bytes, else the clock. *)
Definition get_timestamp (e : Entropy) (challenge : ChallengeMessage) : result Error Z :=
  ts ← find_av_pair (cm_target_info challenge) MSV_AV_TIMESTAMP;
  match ts with
  | Some ts_bytes => if len ts_bytes =? 8 then Ok (of_le ts_bytes) else Ok (en_now e)
  | None => Ok (en_now e)
  end.

(** Whether a key is exchanged: KEY_EXCH with SIGN or SEAL. *)
Definition key_exchange (flags : Z) : bool :=
  negb (Z.land flags NTLMSSP_NEGOTIATE_KEY_EXCH =? 0)
  && (negb (Z.land flags NTLMSSP_NEGOTIATE_SIGN =? 0) || negb (Z.land flags NTLMSSP_NEGOTIATE_SEAL =? 0)).

(** The message and the exported session key. *)
Definition respond (e : Entropy) (credentials : NtlmCredentials) (negotiate_bytes : option bytes)
    (challenge_bytes : bytes) : result Error (bytes * bytes) :=
  challenge ← parse_challenge_message challenge_bytes;
  let nt_hash := compute_nt_hash (nc_password credentials) in
  let ntlmv2_hash := compute_ntlmv2_hash nt_hash (nc_username credentials) (nc_domain credentials) in
  timestamp ← get_timestamp e challenge;
  let client_challenge := en_client_challenge e in
  ts ← find_av_pair (cm_target_info challenge) MSV_AV_TIMESTAMP;
  let has_timestamp := bool_decide (is_Some ts) in
  auth_target_info ← build_auth_target_info (cm_target_info challenge) has_timestamp;
  let temp := build_temp timestamp client_challenge auth_target_info in
  let nt_proof_str := hmac_md5 ntlmv2_hash (cm_server_challenge challenge ++ temp) in
  let nt_challenge_response := nt_proof_str ++ temp in
  let session_base_key := hmac_md5 ntlmv2_hash nt_proof_str in
  let negotiate_flags := cm_negotiate_flags challenge in
  '(exported_session_key, encrypted_random_session_key) ←
    (if key_exchange negotiate_flags then
       encrypted ← rc4_encrypt session_base_key (en_random_session_key e);
       Ok (en_random_session_key e, encrypted)
     else Ok (session_base_key, []));
  let lm_challenge_response :=
    if has_timestamp then zeros 24
    else hmac_md5 ntlmv2_hash (cm_server_challenge challenge ++ client_challenge) ++ client_challenge in
  let auth_msg := build_authenticate_message negotiate_flags (nc_domain credentials)
                    (nc_username credentials) lm_challenge_response nt_challenge_response
                    encrypted_random_session_key has_timestamp in
  final_msg ←
    (if has_timestamp then
       match negotiate_bytes with
       | None => Err (invalid_data "negotiate() must be called before authenticate()")
       | Some negotiate_bytes =>
           let mic := compute_mic exported_session_key negotiate_bytes challenge_bytes auth_msg in
           overwrite auth_msg 72 mic
       end
     else Ok auth_msg);
  Ok (final_msg, exported_session_key).

(** [authenticate]: the session key is stored once the message is built. *)
Definition authenticate (e : Entropy) (a : NtlmAuthenticator) (challenge_bytes : bytes) :
    result Error bytes * NtlmAuthenticator :=
  let a := mkNtlmAuthenticator (na_credentials a) (na_negotiate_bytes a) (Some challenge_bytes)
             (na_session_key a) in
  match respond e (na_credentials a) (na_negotiate_bytes a) challenge_bytes with
  | Ok (final_msg, exported_session_key) =>
      (Ok final_msg, mkNtlmAuthenticator (na_credentials a) (na_negotiate_bytes a)
                       (na_challenge_bytes a) (Some exported_session_key))
  | Err err => (Err err, a)
  | Panic => (Panic, a)
  end.

Definition session_key (a : NtlmAuthenticator) : option bytes := na_session_key a.

End ntlm.

(** ** RC4 undoes itself *)

Lemma land_255_mod z : Z.land z 255 = z mod 256.
Proof. change 255 with (Z.ones 8). by rewrite Z.land_ones. Qed.

Lemma xor_twice b k :
  byte_of_u8 (Z.lxor (u8_of_byte (byte_of_u8 (Z.lxor (u8_of_byte b) k))) k) = b.
Proof.
  assert (Z.lxor (Z.lxor (u8_of_byte b) k mod 256) k mod 256 = u8_of_byte b mod 256) as E.
  { rewrite <- !land_255_mod. apply Z.bits_inj'. intros n Hn.
    rewrite !Z.land_spec, !Z.lxor_spec, !Z.land_spec, !Z.lxor_spec.
    by destruct (Z.testbit (u8_of_byte b) n), (Z.testbit k n), (Z.testbit 255 n). }
  rewrite u8_of_byte_of_u8. rewrite <- (byte_of_u8_of_byte b) at 2. unfold byte_of_u8. by rewrite E.
Qed.

Lemma rc4_stream_twice data i j s : rc4_stream (rc4_stream data i j s) i j s = data.
Proof.
  revert i j s. induction data as [|b data IH]; intros i j s; [done|]. cbn [rc4_stream]. cbv zeta.
  by rewrite xor_twice, IH.
Qed.
Lemma rc4_stream_len data i j s : len (rc4_stream data i j s) = len data.
Proof.
  revert i j s. induction data as [|b data IH]; intros i j s; [done|]. cbn [rc4_stream]. cbv zeta.
  by rewrite !len_cons, IH.
Qed.

(** Encrypting twice with the same key gives the data back. *)
Lemma rc4_involutive key data :
  key ≠ [] → ∃ c, rc4_encrypt key data = Ok c ∧ rc4_encrypt key c = Ok data ∧ len c = len data.
Proof.
  intros Hk. unfold rc4_encrypt. destruct key; [done|]. cbn [is_empty]. eexists. split; [done|].
  by rewrite rc4_stream_twice, rc4_stream_len.
Qed.

(** The first test vector of RFC 6229 (40-bit key 0x0102030405, offset 0). *)
Example rc4_rfc6229 :
  rc4_encrypt [x01; x02; x03; x04; x05] (zeros 16)
  = Ok [xb2; x39; x63; x05; xf0; x3d; xc0; x27; xcc; xc3; x52; x4a; x0a; x11; x18; xa8].
Proof. vm_compute. reflexivity. Qed.

(** ** AV_PAIRs *)

Lemma find_av_ok fuel t id off :
  0 <= off → Z.max 0 (len t - off) < Z.of_nat fuel → ∃ v, find_av_loop fuel t id off = Ok v.
Proof.
  revert off. induction fuel as [|fuel IH]; intros off Ho Hf; [lia|]. cbn [find_av_loop].
  destruct (off + 4 <=? len t) eqn:E; cbn [negb]; [|by eexists]. bool_prop.
  destruct (le_at_ok t off (off + 2)) as [i Ei]; [lia|lia|]. rewrite Ei. cbn [mbind result_bind].
  destruct (le_at_ok t (off + 2) (off + 4)) as [n En]; [lia|lia|]. rewrite En. cbn [mbind result_bind].
  apply le_at_range in En; [|lia]. unfold in_range in En.
  destruct (i =? id).
  - destruct (off + 4 + n <=? len t) eqn:E2; [|by eexists]. bool_prop. rewrite slice_ok by lia. by eexists.
  - destruct (i =? MSV_AV_EOL); [by eexists|]. apply IH; lia.
Qed.

Lemma find_av_pair_ok t id : ∃ v, find_av_pair t id = Ok v.
Proof. apply find_av_ok; unfold len; lia. Qed.

Definition pair_wf (p : Z * bytes) : Prop := is_u16 p.1 ∧ is_u16 (len p.2).

Lemma parse_av_ok fuel t off :
  0 <= off → Z.max 0 (len t - off) < Z.of_nat fuel →
  ∃ l, parse_av_loop fuel t off = Ok l ∧ Forall pair_wf l.
Proof.
  revert off. induction fuel as [|fuel IH]; intros off Ho Hf; [lia|]. cbn [parse_av_loop].
  destruct (off + 4 <=? len t) eqn:E; cbn [negb]; [|by exists []]. bool_prop.
  destruct (le_at_ok t off (off + 2)) as [i Ei]; [lia|lia|]. rewrite Ei. cbn [mbind result_bind].
  destruct (le_at_ok t (off + 2) (off + 4)) as [n En]; [lia|lia|]. rewrite En. cbn [mbind result_bind].
  apply le_at_range in Ei; [|lia]. apply le_at_range in En; [|lia].
  replace (off + 2 - off) with 2 in Ei by lia. replace (off + 4 - (off + 2)) with 2 in En by lia.
  destruct (i =? MSV_AV_EOL) eqn:E0.
  { eexists. split; [done|]. constructor; [|constructor]. split; [exact Ei|done]. }
  destruct (off + 4 + n >? len t) eqn:E2; [by exists []|].
  pose proof En as Hn. unfold in_range in Hn. rewrite slice_ok by lia. cbn [mbind result_bind].
  destruct (IH (off + (4 + n))) as (l & -> & Hl); [lia|lia|]. eexists. split; [done|].
  constructor; [|done]. split; [done|]. cbn [snd]. rewrite len_subslice by lia.
  by replace (off + 4 + n - (off + 4)) with n by lia.
Qed.

Lemma existing_flags_ok l : ∃ f, existing_flags l = Ok f ∧ is_u32 f.
Proof.
  unfold existing_flags. destruct (list_find _ l) as [[k [i v]]|]; [|by exists 0].
  destruct (len v >=? 4) eqn:E; [|by exists 0].
  destruct (le_at_ok v 0 4) as [f Ef]; [lia|lia|]. exists f. split; [done|].
  by apply le_at_range in Ef.
Qed.

(** Pairs on the wire, none of them the end of the list or the one looked for. *)
Definition pairs_bytes (l : list (Z * bytes)) : bytes := concat (map (λ p, av_pair p.1 p.2) l).

(** The head of a pair. *)
Lemma pair_head pre id v post :
  is_u16 id → is_u16 (len v) →
  le_at (pre ++ av_pair id v ++ post) (len pre) (len pre + 2) = Ok id ∧
  le_at (pre ++ av_pair id v ++ post) (len pre + 2) (len pre + 4) = Ok (len v).
Proof.
  intros Hi Hv. unfold av_pair. rewrite trunc_small by done. rewrite <- !app_assoc. split.
  - by apply le_at_app.
  - rewrite app_assoc. apply le_at_app; autorewrite with len; [done|lia|done].
Qed.

Lemma len_av_pair id v : len (av_pair id v) = 4 + len v.
Proof. unfold av_pair. autorewrite with len. lia. Qed.

Lemma find_av_hit id v rest l pre fuel :
  is_u16 id → id ≠ MSV_AV_EOL → is_u16 (len v) →
  Forall (λ p, pair_wf p ∧ p.1 ≠ MSV_AV_EOL ∧ p.1 ≠ id) l → (length l < fuel)%nat →
  find_av_loop fuel (pre ++ pairs_bytes l ++ av_pair id v ++ rest) id (len pre) = Ok (Some v).
Proof.
  intros Hid H0 Hv Hl. revert pre fuel. pose proof (len_nonneg rest). pose proof (len_nonneg v).
  induction Hl as [|[i w] l ((Hi & Hw) & Hne & Hid') Hl IH]; intros pre [|fuel] Hf; cbn [length] in Hf; [lia| |lia|];
    cbn [find_av_loop]; cbn [fst snd] in *.
  - unfold pairs_bytes. cbn [map concat app].
    destruct (pair_head pre id v rest Hid Hv) as [-> ->]. cbn [mbind result_bind]. rewrite Z.eqb_refl.
    rewrite !len_app, len_av_pair. rewrite (proj2 (Z.leb_le _ _)) by lia. cbn [negb].
    rewrite (proj2 (Z.leb_le _ _)) by lia. unfold av_pair. rewrite trunc_small by done.
    rewrite <- !app_assoc, (app_assoc (to_le 2 id)), app_assoc.
    rewrite (slice_app (pre ++ to_le 2 id ++ to_le 2 (len v))) by (autorewrite with len; lia). done.
  - pose proof (len_nonneg w). change (pairs_bytes ((i, w) :: l)) with (av_pair i w ++ pairs_bytes l).
    rewrite <- (app_assoc (av_pair i w)).
    destruct (pair_head pre i w (pairs_bytes l ++ av_pair id v ++ rest) Hi Hw) as [-> ->].
    cbn [mbind result_bind].
    rewrite !len_app, !len_av_pair. pose proof (len_nonneg (pairs_bytes l)).
    rewrite (proj2 (Z.leb_le _ _)) by lia. cbn [negb].
    rewrite (proj2 (Z.eqb_neq i id)) by done. rewrite (proj2 (Z.eqb_neq i MSV_AV_EOL)) by done.
    specialize (IH (pre ++ av_pair i w) fuel ltac:(lia)). rewrite <- app_assoc in IH.
    by rewrite len_app, len_av_pair in IH.
Qed.

(** The copied pairs are those of the challenge, less the end of the list and, when
    the client adds its own, the flags. *)
Definition kept (has_timestamp : bool) (l : list (Z * bytes)) : list (Z * bytes) :=
  List.filter (λ p : Z * bytes, negb (p.1 =? MSV_AV_EOL) && negb ((p.1 =? MSV_AV_FLAGS) && has_timestamp)) l.

Lemma copied_pairs_kept b l : copied_pairs b l = pairs_bytes (kept b l).
Proof.
  unfold copied_pairs, pairs_bytes, kept. induction l as [|[i v] l IH]; [done|].
  cbn [map concat List.filter fst snd]. rewrite IH.
  destruct (i =? MSV_AV_EOL); [done|]. by destruct ((i =? MSV_AV_FLAGS) && b).
Qed.

Lemma kept_wf l :
  Forall pair_wf l →
  Forall (λ p, pair_wf p ∧ p.1 ≠ MSV_AV_EOL ∧ p.1 ≠ MSV_AV_FLAGS) (kept true l).
Proof.
  intros Hl. unfold kept. induction Hl as [|[i v] l Hp Hl IH]; [constructor|]. cbn [List.filter fst].
  destruct (i =? MSV_AV_EOL) eqn:E0; [done|]. destruct (i =? MSV_AV_FLAGS) eqn:E1; cbn [negb andb]; [done|].
  bool_prop. by constructor.
Qed.

(** ** A server that checks everything

    What MS-NLMP asks of a server that receives the AUTHENTICATE message: it looks
    the account up by the user and domain of the message, recomputes the proof over
    its own challenge and the client's blob, recovers the session key and, when its
    challenge carried a timestamp, insists on the MIC flag and checks the MIC over
    the three messages. *)

Definition ok_of {A} (r : result Error A) : option A := match r with Ok a => Some a | _ => None end.

(** The payload described by the fields at [pos]. *)
Definition payload_at (msg : bytes) (pos : Z) : option bytes :=
  n ← ok_of (le_at msg pos (pos + 2));
  off ← ok_of (le_at msg (pos + 4) (pos + 8));
  ok_of (slice msg off (off + n)).

Section server.
Context `{NtlmPrimitives} (accounts : bytes → bytes → option bytes).

Definition mic_ok (key negotiate_bytes challenge_bytes msg temp : bytes) : option bool :=
  flags ← ok_of (find_av_pair (drop 28 temp) MSV_AV_FLAGS);
  mic ← ok_of (slice msg 72 88);
  Some (match flags with
        | Some v => Z.testbit (of_le v) 1
                    && bool_decide (mic = hmac_md5 key (negotiate_bytes ++ challenge_bytes
                                                        ++ patch msg 72 (zeros 16)))
        | None => false
        end).

Definition server_accepts (challenge : ChallengeMessage) (negotiate_bytes challenge_bytes msg : bytes) :
    option bytes :=
  msg_type ← ok_of (le_at msg 8 12);
  domain ← payload_at msg 28;
  user ← payload_at msg 36;
  nt ← payload_at msg 20;
  encrypted ← payload_at msg 52;
  flags ← ok_of (le_at msg 60 64);
  hash ← accounts user domain;
  let proof := take 16 nt in
  let temp := drop 16 nt in
  let base := hmac_md5 hash proof in
  key ← (if key_exchange flags then ok_of (rc4_encrypt base encrypted) else Some base);
  timestamp ← ok_of (find_av_pair (cm_target_info challenge) MSV_AV_TIMESTAMP);
  integrity ← (if bool_decide (is_Some timestamp)
               then mic_ok key negotiate_bytes challenge_bytes msg temp else Some true);
  if (msg_type =? MSG_TYPE_AUTHENTICATE)
     && bool_decide (proof = hmac_md5 hash (cm_server_challenge challenge ++ temp)) && integrity
  then Some key else None.

End server.

(** ** The message as fields and payloads *)

(** The fixed part, then what stands at the place of the MIC, then the payloads. *)
Definition auth_header (flags h : Z) (domain user lm nt key : bytes) : bytes :=
  fields [(8%nat, of_le NTLM_SIGNATURE); (4%nat, 3);
          (2%nat, len lm); (2%nat, len lm); (4%nat, h + len domain + len user);
          (2%nat, len nt); (2%nat, len nt); (4%nat, h + len domain + len user + len lm);
          (2%nat, len domain); (2%nat, len domain); (4%nat, h);
          (2%nat, len user); (2%nat, len user); (4%nat, h + len domain);
          (2%nat, 0); (2%nat, 0); (4%nat, h + len domain + len user);
          (2%nat, len key); (2%nat, len key); (4%nat, h + len domain + len user + len lm + len nt);
          (4%nat, flags); (8%nat, 0)].

Definition auth_layout (flags : Z) (domain user lm nt key mic : bytes) : bytes :=
  auth_header flags (72 + len mic) domain user lm nt key ++ mic ++ domain ++ user ++ lm ++ nt ++ key.

Lemma len_auth_header flags h domain user lm nt key : len (auth_header flags h domain user lm nt key) = 72.
Proof. unfold auth_header. by rewrite len_fields. Qed.

(** The sizes a message can describe. *)
Definition sizes_ok (domain user lm nt key : bytes) : Prop :=
  is_u16 (len domain) ∧ is_u16 (len user) ∧ is_u16 (len lm) ∧ is_u16 (len nt) ∧ is_u16 (len key).

Lemma build_is_layout flags domain user lm nt key include_mic :
  sizes_ok (utf16_le_bytes domain) (utf16_le_bytes user) lm nt key →
  build_authenticate_message flags domain user lm nt key include_mic
  = auth_layout flags (utf16_le_bytes domain) (utf16_le_bytes user) lm nt key
      (if include_mic then zeros 16 else []).
Proof.
  intros (H1 & H2 & H3 & H4 & H5). unfold build_authenticate_message, auth_layout, auth_header, payload_fields.
  cbv zeta. rewrite len_nil, !Z.add_0_r, !to_le_trunc16, !to_le_trunc32.
  replace (72 + len (if include_mic then zeros 16 else [])) with (if include_mic then 88 else 72)
    by by destruct include_mic.
  unfold fields. cbn [map concat fst snd]. rewrite app_nil_r, <- !app_assoc. cbn [app].
  do 2 f_equal.
Qed.

Lemma payload_here hdr pre p post pos :
  0 <= pos → pos + 8 <= len hdr →
  le_at hdr pos (pos + 2) = Ok (len p) → le_at hdr (pos + 4) (pos + 8) = Ok (len hdr + len pre) →
  payload_at (hdr ++ pre ++ p ++ post) pos = Some p.
Proof.
  intros Hp Hl H1 H2. unfold payload_at. rewrite !le_at_app_l, H1, H2 by lia. cbn [ok_of mbind option_bind].
  rewrite app_assoc. by rewrite slice_app by (rewrite len_app; lia).
Qed.

Section layout.
Context (flags : Z) (domain user lm nt key mic : bytes).
Context (Hs : sizes_ok domain user lm nt key) (Hf : is_u32 flags) (Hm : len mic <= 16).

Let msg := auth_layout flags domain user lm nt key mic.

(** Every offset fits its field. *)
Lemma offsets_fit z :
  0 <= z <= 72 + len mic + len domain + len user + len lm + len nt → is_u32 z.
Proof using Hs Hm. destruct Hs as (H1 & H2 & H3 & H4 & H5). unfold in_range in *. lia. Qed.

Local Ltac header_field k := eapply (le_at_field _ k); [reflexivity|reflexivity|reflexivity|].
Local Ltac fits :=
  pose proof (len_nonneg mic); pose proof (len_nonneg domain); pose proof (len_nonneg user);
  pose proof (len_nonneg lm); pose proof (len_nonneg nt);
  first [apply offsets_fit; lia | apply Hs | exact Hf | done].

Lemma layout_type : le_at msg 8 12 = Ok 3.
Proof using Hs.
  unfold msg, auth_layout. rewrite le_at_app_l by (rewrite ?len_auth_header; lia).
  unfold auth_header. header_field 1%nat. done.
Qed.
Lemma layout_flags : le_at msg 60 64 = Ok flags.
Proof using Hf.
  unfold msg, auth_layout. rewrite le_at_app_l by (rewrite ?len_auth_header; lia).
  unfold auth_header. header_field 20%nat. done.
Qed.
Lemma layout_domain : payload_at msg 28 = Some domain.
Proof using Hs Hm.
  unfold msg, auth_layout. apply payload_here; rewrite ?len_auth_header; [lia|lia|unfold auth_header..].
  - header_field 8%nat. fits.
  - header_field 10%nat. fits.
Qed.
Lemma layout_user : payload_at msg 36 = Some user.
Proof using Hs Hm.
  unfold msg, auth_layout. rewrite (app_assoc mic).
  apply payload_here; rewrite ?len_auth_header; [lia|lia|unfold auth_header..].
  - header_field 11%nat. fits.
  - rewrite len_app, Z.add_assoc. header_field 13%nat. fits.
Qed.
Lemma layout_nt : payload_at msg 20 = Some nt.
Proof using Hs Hm.
  unfold msg, auth_layout. rewrite (app_assoc user), (app_assoc domain), (app_assoc mic).
  apply payload_here; rewrite ?len_auth_header; [lia|lia|unfold auth_header..].
  - header_field 5%nat. fits.
  - rewrite !len_app, !Z.add_assoc. header_field 7%nat. fits.
Qed.
Lemma layout_key : payload_at msg 52 = Some key.
Proof using Hs Hm.
  unfold msg, auth_layout.
  rewrite <- (app_nil_r key) at 2. rewrite (app_assoc lm), (app_assoc user), (app_assoc domain), (app_assoc mic).
  apply payload_here; rewrite ?len_auth_header; [lia|lia|unfold auth_header..].
  - header_field 17%nat. fits.
  - rewrite !len_app, !Z.add_assoc. header_field 19%nat. fits.
Qed.
Lemma layout_mic mic' :
  len mic' = len mic → patch msg 72 mic' = auth_layout flags domain user lm nt key mic' ∧
  overwrite msg 72 mic' = Ok (auth_layout flags domain user lm nt key mic').
Proof using Type.
  intros Hl. assert (patch msg 72 mic' = auth_layout flags domain user lm nt key mic') as E.
  { unfold patch, msg, auth_layout. rewrite Hl. set (hdr := auth_header _ _ _ _ _ _ _).
    assert (len hdr = 72) as Hh by apply len_auth_header.
    change (Z.to_nat 72) with 72%nat. rewrite take_app_length' by (unfold len in Hh; lia).
    rewrite (app_assoc hdr mic), (drop_app_length' (hdr ++ mic)) by (rewrite length_app; unfold len in *; lia). done. }
  split; [done|]. rewrite overwrite_ok; [by rewrite E|lia|].
  unfold msg, auth_layout. rewrite !len_app, len_auth_header, Hl.
  pose proof (len_nonneg domain). pose proof (len_nonneg user). pose proof (len_nonneg lm).
  pose proof (len_nonneg nt). pose proof (len_nonneg key). lia.
Qed.

Lemma layout_read_mic : slice (E:=Error) msg 72 (72 + len mic) = Ok mic.
Proof using Type.
  unfold msg, auth_layout. apply slice_app; by rewrite len_auth_header.
Qed.
End layout.

(** ** Client and server agree *)

(** Parsed pairs take no more room than they were read from. *)
Lemma parse_av_len fuel t off l :
  0 <= off → parse_av_loop fuel t off = Ok l → len (pairs_bytes l) <= Z.max 0 (len t - off).
Proof.
  revert off l. induction fuel as [|fuel IH]; intros off l Ho; [done|]. cbn [parse_av_loop].
  destruct (off + 4 <=? len t) eqn:E; cbn [negb]; [|intros [= <-]; change (pairs_bytes []) with (@nil byte); rewrite len_nil; lia]. bool_prop.
  destruct (le_at_ok t off (off + 2)) as [i Ei]; [lia|lia|]. rewrite Ei. cbn [mbind result_bind].
  destruct (le_at_ok t (off + 2) (off + 4)) as [n En]; [lia|lia|]. rewrite En. cbn [mbind result_bind].
  apply le_at_range in En; [|lia]. unfold in_range in En.
  destruct (i =? MSV_AV_EOL); [intros [= <-]; unfold pairs_bytes; cbn [map concat fst snd]; rewrite app_nil_r, len_av_pair; unfold len in *; cbn [length]; lia|].
  destruct (off + 4 + n >? len t) eqn:E2; [intros [= <-]; change (pairs_bytes []) with (@nil byte); rewrite len_nil; lia|].
  rewrite slice_ok by lia. cbn [mbind result_bind].
  destruct (parse_av_loop fuel t (off + (4 + n))) as [l'| |] eqn:El; [|done|done]. intros [= <-].
  apply IH in El; [|lia].
  unfold pairs_bytes in *. cbn [map concat fst snd]. rewrite len_app, len_av_pair, len_subslice by lia. lia.
Qed.

Lemma pairs_length l : Z.of_nat (length l) <= len (pairs_bytes l).
Proof.
  unfold pairs_bytes. induction l as [|[i v] l IH]; [done|]. cbn [map concat length fst snd].
  rewrite len_app, len_av_pair. pose proof (len_nonneg v). lia.
Qed.

Lemma kept_len b l : len (pairs_bytes (kept b l)) <= len (pairs_bytes l).
Proof.
  unfold pairs_bytes, kept. induction l as [|[i v] l IH]; [done|]. cbn [List.filter map concat fst snd].
  rewrite len_app. pose proof (len_nonneg (av_pair i v)).
  destruct (_ && _); cbn [map concat fst snd]; rewrite ?len_app; lia.
Qed.

(** What the client puts in place of the server's target info: the flags pair says
    that a MIC is present whenever the server sent a timestamp. *)
Lemma auth_target_info_spec t b :
  ∃ ti, build_auth_target_info t b = Ok ti ∧ len ti <= len t + 12 ∧
    (b = true → ∃ f, is_u32 f ∧ Z.testbit f 1 = true ∧
       find_av_pair (ti ++ zeros 4) MSV_AV_FLAGS = Ok (Some (to_le 4 f))).
Proof.
  unfold build_auth_target_info.
  destruct (parse_av_ok (S (length t)) t 0) as (l & El & Hl); [lia|unfold len; lia|].
  unfold parse_av_pairs. rewrite El. cbn [mbind result_bind].
  pose proof (parse_av_len (S (length t)) t 0 l ltac:(lia) El) as Hlen. pose proof (len_nonneg t).
  pose proof (kept_len b l) as Hk. rewrite copied_pairs_kept. destruct b.
  - destruct (existing_flags_ok l) as (f & -> & Hf). cbn [mbind result_bind].
    assert (is_u32 (Z.lor f 2)) as Hf'.
    { unfold in_range in *. split; [apply Z.lor_nonneg; lia|].
      destruct (Z.eq_dec (Z.lor f 2) 0) as [->|Hne]; [lia|].
      apply Z.log2_lt_pow2; [|rewrite Z.log2_lor by lia].
      - assert (0 <= Z.lor f 2) by (apply Z.lor_nonneg; lia). lia.
      - destruct (Z.eq_dec f 0) as [->|]; [done|]. apply Z.max_lub_lt; [apply Z.log2_lt_pow2; lia|done]. }
    eexists. split; [done|]. split; [rewrite !len_app, !len_to_le; lia|]. intros _.
    exists (Z.lor f 2). split; [done|]. split; [rewrite Z.lor_spec; by rewrite orb_true_r|].
    unfold find_av_pair. rewrite <- !app_assoc.
    change (to_le 2 MSV_AV_FLAGS ++ to_le 2 4 ++ to_le 4 (Z.lor f 2) ++ to_le 2 MSV_AV_EOL ++ to_le 2 0 ++ zeros 4)
      with ([] ++ (to_le 2 MSV_AV_FLAGS ++ to_le 2 4 ++ to_le 4 (Z.lor f 2)) ++ to_le 2 MSV_AV_EOL ++ to_le 2 0 ++ zeros 4).
    change (to_le 2 MSV_AV_FLAGS ++ to_le 2 4 ++ to_le 4 (Z.lor f 2)) with (av_pair MSV_AV_FLAGS (to_le 4 (Z.lor f 2))).
    apply (find_av_hit MSV_AV_FLAGS (to_le 4 (Z.lor f 2)) _ (kept true l) []); [done|done|by rewrite len_to_le|by apply kept_wf|].
    pose proof (pairs_length (kept true l)) as Hpl. unfold len in Hpl. cbn [app]. rewrite !length_app. lia.
  - eexists. split; [done|]. split; [rewrite !len_app, !len_to_le; lia|]. done.
Qed.

Lemma challenge_flags_range data ch :
  parse_challenge_message data = Ok ch → is_u32 (cm_negotiate_flags ch) ∧ len (cm_server_challenge ch) = 8.
Proof.
  unfold parse_challenge_message. destruct (len data <? 32) eqn:E; [done|]. bool_prop.
  rewrite (slice_ok data 0 8) by lia. cbn [mbind result_bind]. case_test; [done|].
  destruct (le_at_ok data 8 12) as [ty ->]; [lia|lia|]. cbn [mbind result_bind]. case_test; [done|].
  destruct (le_at_ok data 20 24) as [fl Ef]; [lia|lia|]. rewrite Ef. cbn [mbind result_bind].
  rewrite (slice_ok data 24 32) by lia. cbn [mbind result_bind].
  destruct (if len data >=? 48 then _ else _) as [ti|e|]; [|done|done]. intros [= <-]. cbn [cm_negotiate_flags cm_server_challenge].
  split; [by apply le_at_range in Ef|]. by rewrite len_subslice by lia.
Qed.

Section agreement.
Context `{NtlmLaws} (to_uppercase : list Z → list Z) (accounts : bytes → bytes → option bytes).

Lemma get_timestamp_ok e ch : Entropy_wf e → ∃ ts, get_timestamp e ch = Ok ts ∧ is_u64 ts.
Proof.
  intros He. unfold get_timestamp. destruct (find_av_pair_ok (cm_target_info ch) MSV_AV_TIMESTAMP) as [v ->].
  cbn [mbind result_bind]. destruct v as [b|]; [|exists (en_now e); split; [done|apply He]].
  destruct (len b =? 8) eqn:E; [|exists (en_now e); split; [done|apply He]]. bool_prop.
  exists (of_le b). split; [done|]. pose proof (of_le_range b) as Hr. rewrite E in Hr. exact Hr.
Qed.

(** The MIC check of the server on the client's message. *)
Lemma mic_accepted flags domain user lm proof key k nb cb ts cc ti f :
  sizes_ok domain user lm (proof ++ build_temp ts cc ti) key → len cc = 8 →
  is_u32 f → Z.testbit f 1 = true → find_av_pair (ti ++ zeros 4) MSV_AV_FLAGS = Ok (Some (to_le 4 f)) →
  let layout := auth_layout flags domain user lm (proof ++ build_temp ts cc ti) key in
  mic_ok k nb cb (layout (compute_mic k nb cb (layout (zeros 16)))) (build_temp ts cc ti) = Some true.
Proof.
  intros Hs Hc Hf Hb Hfind layout. unfold mic_ok.
  assert (drop 28 (build_temp ts cc ti) = ti ++ zeros 4) as ->.
  { unfold build_temp. rewrite !app_assoc, <- (app_assoc _ ti). apply drop_app_length'.
    rewrite !length_app, length_to_le. unfold len in Hc. cbn [length]. unfold zeros. rewrite !length_replicate. lia. }
  rewrite Hfind. cbn [ok_of mbind option_bind].
  set (mic := compute_mic k nb cb (layout (zeros 16))).
  assert (len mic = 16) as Hmic by apply hmac_md5_len.
  pose proof (layout_read_mic flags domain user lm (proof ++ build_temp ts cc ti) key mic) as Hr.
  rewrite Hmic in Hr. change (72 + 16) with 88 in Hr. fold layout in Hr. unfold layout at 1. rewrite Hr.
  cbn [ok_of mbind option_bind]. rewrite of_le_to_le_small by done. rewrite Hb. cbn [andb].
  destruct (layout_mic flags domain user lm (proof ++ build_temp ts cc ti) key mic (zeros 16)) as [Hp _];
    [by rewrite Hmic|].
  rewrite bool_decide_true; [done|]. by rewrite Hp.
Qed.

(** The server recovers the key the client chose or derived. *)
Lemma key_exchange_recovers e base flags :
  Entropy_wf e → len base = 16 →
  ∃ k enc, (if key_exchange flags
            then encrypted ← rc4_encrypt base (en_random_session_key e);
                 Ok (en_random_session_key e, encrypted)
            else Ok (base, [])) = Ok (k, enc) ∧ len k = 16 ∧ len enc <= 16 ∧
           (if key_exchange flags then ok_of (rc4_encrypt base enc) else Some base) = Some k.
Proof.
  intros He Hbase. destruct (key_exchange flags); [|by exists base, []].
  destruct (rc4_involutive base (en_random_session_key e)) as (c & -> & Hc & Hlc); [by intros ->|].
  exists (en_random_session_key e), c. pose proof (enw_key e He). split; [done|]. split; [done|].
  split; [by rewrite Hlc, enw_key|]. by rewrite Hc.
Qed.

(** The message with its MIC in place, or without one, passes the check. *)
Lemma sent_message_intact (b : bool) flags domain user lm proof key k nb cb ts cc ti :
  sizes_ok domain user lm (proof ++ build_temp ts cc ti) key → len cc = 8 →
  (b = true → ∃ f, is_u32 f ∧ Z.testbit f 1 = true ∧
     find_av_pair (ti ++ zeros 4) MSV_AV_FLAGS = Ok (Some (to_le 4 f))) →
  let layout := auth_layout flags domain user lm (proof ++ build_temp ts cc ti) key in
  ∃ mic, len mic <= 16 ∧
    (if b then overwrite (layout (if b then zeros 16 else [])) 72
                 (compute_mic k nb cb (layout (if b then zeros 16 else [])))
     else Ok (layout (if b then zeros 16 else []))) = Ok (layout mic) ∧
    (if b then mic_ok k nb cb (layout mic) (build_temp ts cc ti) else Some true) = Some true.
Proof.
  intros Hs Hc Hflags layout. destruct b; [|by exists []]. destruct (Hflags eq_refl) as (f & Hf & Hb & Hfind).
  exists (compute_mic k nb cb (layout (zeros 16))).
  assert (len (compute_mic k nb cb (layout (zeros 16))) = 16) as Hm16 by apply hmac_md5_len.
  split; [lia|]. split; [by apply layout_mic|]. by apply (mic_accepted _ _ _ _ _ _ _ _ _ _ _ _ f).
Qed.

(** What the server makes of a message of this layout. *)
Lemma server_accepts_layout ch nb cb flags domain user lm proof temp enc mic hash k tsv :
  sizes_ok domain user lm (proof ++ temp) enc → is_u32 flags → len mic <= 16 → len proof = 16 →
  accounts user domain = Some hash → proof = hmac_md5 hash (cm_server_challenge ch ++ temp) →
  (if key_exchange flags then ok_of (rc4_encrypt (hmac_md5 hash proof) enc) else Some (hmac_md5 hash proof)) = Some k →
  find_av_pair (cm_target_info ch) MSV_AV_TIMESTAMP = Ok tsv →
  (if bool_decide (is_Some tsv)
   then mic_ok k nb cb (auth_layout flags domain user lm (proof ++ temp) enc mic) temp else Some true) = Some true →
  server_accepts accounts ch nb cb (auth_layout flags domain user lm (proof ++ temp) enc mic) = Some k.
Proof.
  intros Hs Hfl Hmic Hproof Hacc Hp Hrec Ets Hint. unfold server_accepts.
  rewrite (layout_type _ _ _ _ _ _ _ Hs). cbn [ok_of mbind option_bind].
  rewrite (layout_domain _ _ _ _ _ _ _ Hs Hmic), (layout_user _ _ _ _ _ _ _ Hs Hmic),
    (layout_nt _ _ _ _ _ _ _ Hs Hmic), (layout_key _ _ _ _ _ _ _ Hs Hmic), (layout_flags _ _ _ _ _ _ _ Hfl).
  cbn [ok_of mbind option_bind]. rewrite Hacc. cbn [mbind option_bind].
  rewrite take_app_length', drop_app_length' by (unfold len in Hproof; lia).
  rewrite Hrec, Ets. cbn [ok_of mbind option_bind]. rewrite Hint. cbn [mbind option_bind].
  by rewrite bool_decide_true.
Qed.

(** Whatever the server sends, the client answers or reports an error. *)
Lemma parse_challenge_total data : parse_challenge_message data ≠ Panic.
Proof.
  unfold parse_challenge_message. destruct (len data <? 32) eqn:E; [done|]. bool_prop.
  rewrite (slice_ok data 0 8) by lia. cbn [mbind result_bind]. case_test; [done|].
  destruct (le_at_ok data 8 12) as [ty ->]; [lia|lia|]. cbn [mbind result_bind]. case_test; [done|].
  destruct (le_at_ok data 20 24) as [fl ->]; [lia|lia|]. cbn [mbind result_bind].
  rewrite (slice_ok data 24 32) by lia. cbn [mbind result_bind].
  destruct (len data >=? 48) eqn:E2; [|done].
  destruct (le_at_ok data 40 42) as [n Hn]; [lia|lia|]. rewrite Hn. cbn [mbind result_bind].
  destruct (le_at_ok data 44 48) as [o Ho]; [lia|lia|]. rewrite Ho. cbn [mbind result_bind].
  apply le_at_range in Ho; [|lia]. unfold in_range in Ho.
  destruct ((n >? 0) && (o + n <=? len data)) eqn:E3; [|done].
  by rewrite slice_ok by lia.
Qed.

Lemma build_message_long flags domain user lm nt key :
  88 <= len (build_authenticate_message flags domain user lm nt key true).
Proof.
  unfold build_authenticate_message, payload_fields. cbv zeta.
  rewrite !len_app, !len_to_le, !len_zeros by lia. change (len NTLM_SIGNATURE) with 8.
  pose proof (len_nonneg lm). pose proof (len_nonneg nt). pose proof (len_nonneg key).
  pose proof (len_nonneg (utf16_le_bytes domain)). pose proof (len_nonneg (utf16_le_bytes user)).
  unfold len in *. cbn [length]. lia.
Qed.

Lemma authenticate_total e a cb :
  Entropy_wf e → is_Some (na_negotiate_bytes a) →
  match authenticate to_uppercase e a cb with
  | (Ok msg, a') => is_Some (session_key a')
  | (Err _, _) => True
  | (Panic, _) => False
  end.
Proof.
  intros He [nb Enb]. unfold authenticate, respond. cbn [na_credentials na_negotiate_bytes]. rewrite Enb.
  destruct (parse_challenge_message cb) as [ch|e1|] eqn:Ech; cbn [mbind result_bind]; [|done|].
  2: by apply (parse_challenge_total cb).
  destruct (get_timestamp_ok e ch He) as (ts & -> & _). cbn [mbind result_bind].
  destruct (find_av_pair_ok (cm_target_info ch) MSV_AV_TIMESTAMP) as [v ->]. cbn [mbind result_bind].
  destruct (auth_target_info_spec (cm_target_info ch) (bool_decide (is_Some v))) as (ti & -> & _).
  cbn [mbind result_bind]. set (base := hmac_md5 _ (hmac_md5 _ _)).
  destruct (key_exchange_recovers e base (cm_negotiate_flags ch) He) as (k & enc & -> & _); [apply hmac_md5_len|].
  cbn [mbind result_bind]. destruct (bool_decide (is_Some v)); [|by eexists].
  rewrite overwrite_ok; [by eexists|lia|]. unfold compute_mic. rewrite hmac_md5_len.
  etrans; [|apply build_message_long]. done.
Qed.

(** The message is accepted, and its length is that of its parts. *)
Lemma authenticate_accepted e credentials ch cb :
  Entropy_wf e → parse_challenge_message cb = Ok ch → len (cm_target_info ch) <= 65475 →
  is_u16 (len (utf16_le_bytes (nc_domain credentials))) →
  is_u16 (len (utf16_le_bytes (nc_username credentials))) →
  accounts (utf16_le_bytes (nc_username credentials)) (utf16_le_bytes (nc_domain credentials))
    = Some (compute_ntlmv2_hash to_uppercase (compute_nt_hash (nc_password credentials))
              (nc_username credentials) (nc_domain credentials)) →
  let '(nb, a) := negotiate (NtlmAuthenticator_new credentials) in
  ∃ msg a' k, authenticate to_uppercase e a cb = (Ok msg, a') ∧ session_key a' = Some k ∧ len k = 16 ∧
              server_accepts accounts ch nb cb msg = Some k ∧
              len msg <= 188 + len (utf16_le_bytes (nc_domain credentials))
                         + len (utf16_le_bytes (nc_username credentials)) + len (cm_target_info ch).
Proof.
  intros He Hch Hti Hd Hu Hacc. destruct (negotiate _) as [nb a] eqn:En. injection En as Enb <-.
  destruct (challenge_flags_range _ _ Hch) as [Hfl Hsc]. unfold authenticate, respond. cbn [na_credentials na_negotiate_bytes].
  rewrite Hch. cbn [mbind result_bind]. rewrite Enb. clear Enb.
  set (hash := compute_ntlmv2_hash _ _ _ _) in *.
  destruct (get_timestamp_ok e ch He) as (ts & -> & Hts). cbn [mbind result_bind].
  destruct (find_av_pair_ok (cm_target_info ch) MSV_AV_TIMESTAMP) as [tsv Etsv]. rewrite Etsv. cbn [mbind result_bind].
  set (b := bool_decide (is_Some tsv)).
  destruct (auth_target_info_spec (cm_target_info ch) b) as (ti & -> & Hlti & Hflags). cbn [mbind result_bind].
  set (temp := build_temp ts (en_client_challenge e) ti).
  set (proof := hmac_md5 hash (cm_server_challenge ch ++ temp)).
  set (base := hmac_md5 hash proof).
  assert (len proof = 16) as Hproof by apply hmac_md5_len. assert (len base = 16) as Hbase by apply hmac_md5_len.
  set (flags := cm_negotiate_flags ch) in *.
  destruct (key_exchange_recovers e base flags He Hbase) as (k & enc & -> & Hk & Henc & Hrec).
  cbn [mbind result_bind].
  set (lm := if b then zeros 24 else _).
  assert (len lm = 24) as Hlm.
  { unfold lm. destruct b; [done|]. by rewrite len_app, hmac_md5_len, (enw_challenge e He). }
  assert (len temp = 32 + len ti) as Htemp.
  { unfold temp, build_temp. rewrite !len_app, len_to_le, (enw_challenge e He), !len_zeros by lia.
    unfold len. cbn [length]. lia. }
  assert (sizes_ok (utf16_le_bytes (nc_domain credentials)) (utf16_le_bytes (nc_username credentials))
            lm (proof ++ temp) enc) as Hs.
  { split; [done|]. split; [done|]. split; [by rewrite Hlm|].
    split; [|pose proof (len_nonneg enc); unfold in_range; lia].
    rewrite len_app. pose proof (len_nonneg ti). unfold in_range. lia. }
  rewrite (build_is_layout flags (nc_domain credentials) (nc_username credentials) lm (proof ++ temp) enc b Hs).
  destruct (sent_message_intact b flags (utf16_le_bytes (nc_domain credentials))
    (utf16_le_bytes (nc_username credentials)) lm proof enc k nb cb ts (en_client_challenge e) ti Hs
    (enw_challenge e He) Hflags) as (mic & Hmic & Esent & Hint).
  fold temp in Esent, Hint. rewrite Esent.
  cbn [mbind result_bind]. eexists _, _, k. split; [done|]. split; [done|]. split; [done|].
  split; [by apply (server_accepts_layout ch nb cb flags _ _ lm proof temp enc mic hash k tsv)|].
  unfold auth_layout. rewrite !len_app, len_auth_header. lia.
Qed.

(** Whatever challenge a server sends, and whatever flags, timestamp and pairs it
    carries, the AUTHENTICATE message the client answers with is accepted by a server
    that knows the account: it finds user and domain at the offsets announced,
    recomputes the NTLMv2 proof over its own challenge, decrypts or derives the
    session key and, when it sent a timestamp, finds the MIC announced and right; both
    ends then hold the same 16-byte key.  The client does not panic. *)
Theorem ntlm_keys_agree e credentials ch cb :
  Entropy_wf e → parse_challenge_message cb = Ok ch → len (cm_target_info ch) <= 65475 →
  is_u16 (len (utf16_le_bytes (nc_domain credentials))) →
  is_u16 (len (utf16_le_bytes (nc_username credentials))) →
  accounts (utf16_le_bytes (nc_username credentials)) (utf16_le_bytes (nc_domain credentials))
    = Some (compute_ntlmv2_hash to_uppercase (compute_nt_hash (nc_password credentials))
              (nc_username credentials) (nc_domain credentials)) →
  let '(nb, a) := negotiate (NtlmAuthenticator_new credentials) in
  ∃ msg a' k, authenticate to_uppercase e a cb = (Ok msg, a') ∧ session_key a' = Some k ∧ len k = 16 ∧
              server_accepts accounts ch nb cb msg = Some k.
Proof.
  intros He Hch Hti Hd Hu Hacc. pose proof (authenticate_accepted e credentials ch cb He Hch Hti Hd Hu Hacc) as Hok.
  destruct (negotiate _) as [nb a]. destruct Hok as (msg & a' & k & H1 & H2 & H3 & H4 & _). by exists msg, a', k.
Qed.

End agreement.

(** A toy hash with the right lengths. *)
Definition toy_ntlm : NtlmPrimitives := {|
  md4 m := take 16 (m ++ zeros 16);
  hmac_md5 k m := take 16 (rev m ++ k ++ zeros 16)
|}.

Lemma toy_ntlm_laws : NtlmLaws (H := toy_ntlm).
Proof.
  split; intros; cbn; unfold len; rewrite length_take, !length_app; unfold zeros;
    rewrite length_replicate; lia.
Qed.

(** A challenge with a timestamp that asks for a key exchange. *)
Definition sample_challenge : bytes :=
  NTLM_SIGNATURE ++ to_le 4 2 ++ zeros 8 ++ to_le 4 DEFAULT_NEGOTIATE_FLAGS
  ++ [x01; x02; x03; x04; x05; x06; x07; x08] ++ zeros 8
  ++ to_le 2 16 ++ to_le 2 16 ++ to_le 4 48 ++ av_pair MSV_AV_TIMESTAMP (to_le 8 77) ++ av_pair MSV_AV_EOL [].

Definition sample_credentials : NtlmCredentials := mkNtlmCredentials [117] [112; 119] [100].
Definition sample_entropy : Entropy := mkEntropy (zeros 8) (to_le 16 12345) 99.

Lemma ntlm_keys_agree_witness :
  ∃ ch msg a' k,
    parse_challenge_message sample_challenge = Ok ch ∧
    authenticate (H := toy_ntlm) (λ s, s) sample_entropy
      (negotiate (NtlmAuthenticator_new sample_credentials)).2 sample_challenge = (Ok msg, a') ∧
    session_key a' = Some k ∧ len k = 16 ∧
    server_accepts (H := toy_ntlm) (λ _ _, Some (compute_ntlmv2_hash (H := toy_ntlm) (λ s, s)
      (compute_nt_hash (H := toy_ntlm) [112; 119]) [117] [100])) ch
      (negotiate (NtlmAuthenticator_new sample_credentials)).1 sample_challenge msg = Some k.
Proof.
  assert (∃ ch, parse_challenge_message sample_challenge = Ok ch ∧ len (cm_target_info ch) <= 65475) as (ch & E & Hl).
  { eexists. split; [vm_compute; reflexivity|]. vm_compute. discriminate. }
  destruct (@ntlm_keys_agree toy_ntlm toy_ntlm_laws (λ s, s)
    (λ _ _, Some (compute_ntlmv2_hash (H := toy_ntlm) (λ s, s) (compute_nt_hash (H := toy_ntlm) [112; 119]) [117] [100]))
    sample_entropy sample_credentials ch sample_challenge) as (msg & a' & k & H1 & H2 & H3 & H4);
    [by constructor|done|done|done|done|done|].
  exists ch, msg, a', k. exact (conj E (conj H1 (conj H2 (conj H3 H4)))).
Defined.
