(* ===== verification/Spnego.v ===== *)
(** * DER and SPNEGO ([src/auth/der.rs], [src/auth/spnego.rs])

    Tag-length-value encoding, and the tokens that carry NTLM or Kerberos messages
    in SESSION_SETUP. *)

From S2P Require Import Prelude Types Fields.

(** ** DER *)

Definition der_length (n : Z) : bytes :=
  if n <? 128 then [byte_of_u8 n]
  else if n <? 256 then [byte_of_u8 0x81; byte_of_u8 n]
  else [byte_of_u8 0x82; byte_of_u8 (Z.shiftr n 8); byte_of_u8 (Z.land n 0xff)].

Definition der_tlv (tag : Z) (data : bytes) : bytes :=
  [byte_of_u8 tag] ++ der_length (len data) ++ data.

Definition parse_der_length (data : bytes) : result Error (Z * Z) :=
  if is_empty data then Err (invalid_data "DER: truncated length") else
  first ← byte_at data 0;
  if first <? 128 then Ok (first, 1)
  else if first =? 0x81 then
    if len data <? 2 then Err (invalid_data "DER: truncated length (0x81)") else
    b1 ← byte_at data 1; Ok (b1, 2)
  else if first =? 0x82 then
    if len data <? 3 then Err (invalid_data "DER: truncated length (0x82)") else
    b1 ← byte_at data 1; b2 ← byte_at data 2; Ok (Z.lor (Z.shiftl b1 8) b2, 3)
  else if first =? 0x83 then
    if len data <? 4 then Err (invalid_data "DER: truncated length (0x83)") else
    b1 ← byte_at data 1; b2 ← byte_at data 2; b3 ← byte_at data 3;
    Ok (Z.lor (Z.lor (Z.shiftl b1 16) (Z.shiftl b2 8)) b3, 4)
  else Err (invalid_data "DER: unsupported length encoding: 0x{first:02x}").

(** Tag, value and bytes consumed. *)
Definition parse_der_tlv (data : bytes) : result Error (Z * bytes * Z) :=
  if is_empty data then Err (invalid_data "DER: truncated TLV") else
  tag ← byte_at data 0;
  rest ← slice data 1 (len data);
  '(n, len_bytes) ← parse_der_length rest;
  let header_len := 1 + len_bytes in
  let total := header_len + n in
  if len data <? total then Err (invalid_data "DER: TLV truncated: need {total} bytes, have {}") else
  value ← slice data header_len total;
  Ok (tag, value, total).

(** ** SPNEGO *)

Definition OID_SPNEGO : bytes := [x06; x06; x2b; x06; x01; x05; x05; x02].
Definition OID_NTLMSSP : bytes := [x06; x0a; x2b; x06; x01; x04; x01; x82; x37; x02; x02; x0a].
Definition OID_KERBEROS : bytes := [x06; x09; x2a; x86; x48; x86; xf7; x12; x01; x02; x02].
Definition OID_MS_KERBEROS : bytes := [x06; x09; x2a; x86; x48; x82; xf7; x12; x01; x02; x02].

Definition TAG_SEQUENCE : Z := 0x30.
Definition TAG_OCTET_STRING : Z := 0x04.
Definition TAG_ENUMERATED : Z := 0x0a.
Definition TAG_APPLICATION_0 : Z := 0x60.
Definition TAG_CONTEXT_0 : Z := 0xa0.
Definition TAG_CONTEXT_1 : Z := 0xa1.
Definition TAG_CONTEXT_2 : Z := 0xa2.
Definition TAG_CONTEXT_3 : Z := 0xa3.

Inductive NegState := AcceptCompleted | AcceptIncomplete | Reject.

Definition NegState_from_value (v : Z) : option NegState :=
  if v =? 0 then Some AcceptCompleted
  else if v =? 1 then Some AcceptIncomplete
  else if v =? 2 then Some Reject else None.

Record NegTokenResp := mkNegTokenResp {
  neg_state : option NegState;
  supported_mech : option bytes;
  response_token : option bytes;
  mech_list_mic : option bytes
}.

Definition wrap_neg_token_init (mech_oids : list bytes) (mech_token : bytes) : bytes :=
  let mech_list_contents := concat mech_oids in
  let mech_list_seq := der_tlv TAG_SEQUENCE mech_list_contents in
  let mech_types := der_tlv TAG_CONTEXT_0 mech_list_seq in
  let mech_token_octet := der_tlv TAG_OCTET_STRING mech_token in
  let mech_token_ctx := der_tlv TAG_CONTEXT_2 mech_token_octet in
  let init_seq := der_tlv TAG_SEQUENCE (mech_types ++ mech_token_ctx) in
  let choice := der_tlv TAG_CONTEXT_0 init_seq in
  der_tlv TAG_APPLICATION_0 (OID_SPNEGO ++ choice).

Definition wrap_neg_token_resp (mech_token : bytes) : bytes :=
  let mech_token_octet := der_tlv TAG_OCTET_STRING mech_token in
  let response_token_ctx := der_tlv TAG_CONTEXT_2 mech_token_octet in
  let resp_seq := der_tlv TAG_SEQUENCE response_token_ctx in
  der_tlv TAG_CONTEXT_1 resp_seq.

(** One field of a NegTokenResp: what it sets. *)
Definition resp_field (ctx_tag : Z) (ctx_value : bytes) (acc : NegTokenResp) : result Error NegTokenResp :=
  if ctx_tag =? TAG_CONTEXT_0 then
    '(enum_tag, enum_value, _) ← parse_der_tlv ctx_value;
    if negb (enum_tag =? TAG_ENUMERATED)
    then Err (invalid_data "SPNEGO: expected ENUMERATED for negState, got tag 0x{enum_tag:02x}") else
    if is_empty enum_value then Err (invalid_data "SPNEGO: empty ENUMERATED for negState") else
    v ← byte_at enum_value 0;
    match NegState_from_value v with
    | None => Err (invalid_data "SPNEGO: unknown negState value: {}")
    | Some s => Ok (mkNegTokenResp (Some s) (supported_mech acc) (response_token acc) (mech_list_mic acc))
    end
  else if ctx_tag =? TAG_CONTEXT_1 then
    Ok (mkNegTokenResp (neg_state acc) (Some ctx_value) (response_token acc) (mech_list_mic acc))
  else if ctx_tag =? TAG_CONTEXT_2 then
    '(oct_tag, oct_value, _) ← parse_der_tlv ctx_value;
    if negb (oct_tag =? TAG_OCTET_STRING)
    then Err (invalid_data "SPNEGO: expected OCTET STRING for responseToken, got tag 0x{oct_tag:02x}") else
    Ok (mkNegTokenResp (neg_state acc) (supported_mech acc) (Some oct_value) (mech_list_mic acc))
  else if ctx_tag =? TAG_CONTEXT_3 then
    '(oct_tag, oct_value, _) ← parse_der_tlv ctx_value;
    if negb (oct_tag =? TAG_OCTET_STRING)
    then Err (invalid_data "SPNEGO: expected OCTET STRING for mechListMIC, got tag 0x{oct_tag:02x}") else
    Ok (mkNegTokenResp (neg_state acc) (supported_mech acc) (response_token acc) (Some oct_value))
  else Ok acc.

(** One field of a NegTokenInit2. *)
Definition init2_field (ctx_tag : Z) (ctx_value : bytes) (acc : NegTokenResp) : result Error NegTokenResp :=
  if ctx_tag =? TAG_CONTEXT_0 then
    '(seq_tag, mech_list_data, _) ← parse_der_tlv ctx_value;
    if negb (seq_tag =? TAG_SEQUENCE) then Err (invalid_data "SPNEGO: expected SEQUENCE for mechTypes") else
    if is_empty mech_list_data then Ok acc else
    '(oid_tag, _, oid_total) ← parse_der_tlv mech_list_data;
    if oid_tag =? 0x06 then
      oid ← slice mech_list_data 0 oid_total;
      Ok (mkNegTokenResp (neg_state acc) (Some oid) (response_token acc) (mech_list_mic acc))
    else Ok acc
  else if ctx_tag =? TAG_CONTEXT_2 then
    '(oct_tag, oct_value, _) ← parse_der_tlv ctx_value;
    if oct_tag =? TAG_OCTET_STRING
    then Ok (mkNegTokenResp (neg_state acc) (supported_mech acc) (Some oct_value) (mech_list_mic acc))
    else Ok acc
  else Ok acc.

(** [while pos < seq_data.len()], every field at least two bytes. *)
Fixpoint parse_fields (fuel : nat) (field : Z → bytes → NegTokenResp → result Error NegTokenResp)
    (seq_data : bytes) (pos : Z) (acc : NegTokenResp) : result Error NegTokenResp :=
  match fuel with
  | O => Panic
  | S fuel =>
      if negb (pos <? len seq_data) then Ok acc
      else
        rest ← slice seq_data pos (len seq_data);
        '(ctx_tag, ctx_value, ctx_total) ← parse_der_tlv rest;
        acc ← field ctx_tag ctx_value acc;
        parse_fields fuel field seq_data (pos + ctx_total) acc
  end.

Definition NegTokenResp_none : NegTokenResp := mkNegTokenResp None None None None.

Definition parse_neg_token_resp_inner (data : bytes) : result Error NegTokenResp :=
  '(tag, seq_data, _) ← parse_der_tlv data;
  if negb (tag =? TAG_SEQUENCE)
  then Err (invalid_data "SPNEGO: expected SEQUENCE in NegTokenResp, got tag 0x{tag:02x}")
  else parse_fields (S (length seq_data)) resp_field seq_data 0 NegTokenResp_none.

Definition parse_neg_token_init2_as_resp (data : bytes) : result Error NegTokenResp :=
  '(tag, seq_data, _) ← parse_der_tlv data;
  if negb (tag =? TAG_SEQUENCE)
  then Err (invalid_data "SPNEGO: expected SEQUENCE in NegTokenInit2, got tag 0x{tag:02x}")
  else parse_fields (S (length seq_data)) init2_field seq_data 0 NegTokenResp_none.

Definition parse_neg_token_resp (data : bytes) : result Error NegTokenResp :=
  if is_empty data then Err (invalid_data "SPNEGO: empty token") else
  '(tag, value, _) ← parse_der_tlv data;
  if tag =? TAG_CONTEXT_1 then parse_neg_token_resp_inner value
  else if tag =? TAG_APPLICATION_0 then
    '(oid_tag, _, oid_total) ← parse_der_tlv value;
    if negb (oid_tag =? 0x06)
    then Err (invalid_data "SPNEGO: expected OID in APPLICATION [0], got tag 0x{oid_tag:02x}") else
    remaining ← slice value oid_total (len value);
    '(inner_tag, inner_value, _) ← parse_der_tlv remaining;
    if inner_tag =? TAG_CONTEXT_0 then parse_neg_token_init2_as_resp inner_value
    else if inner_tag =? TAG_CONTEXT_1 then parse_neg_token_resp_inner inner_value
    else Err (invalid_data "SPNEGO: unexpected tag 0x{inner_tag:02x} inside APPLICATION [0]")
  else Err (invalid_data "SPNEGO: expected NegTokenResp [1] or APPLICATION [0], got tag 0x{tag:02x}").

(** ** Safety *)

Lemma byte_at_ok data i : 0 <= i < len data → ∃ v, byte_at data i = Ok v ∧ is_u8 v.
Proof.
  intros Hi. unfold byte_at. destruct (le_at_ok data i (i + 1)) as [v E]; [lia|lia|]. exists v. split; [done|].
  apply le_at_range in E; [|lia]. by replace (i + 1 - i) with 1 in E by lia.
Qed.

Lemma parse_der_length_spec data :
  match parse_der_length data with
  | Ok (n, k) => 0 <= n ∧ 1 <= k <= len data
  | Err _ => True
  | Panic => False
  end.
Proof.
  unfold parse_der_length. destruct data as [|b0 data]; [done|]. cbn [is_empty].
  set (d := b0 :: data). assert (1 <= len d) by (unfold d; rewrite len_cons; pose proof (len_nonneg data); lia).
  clearbody d. destruct (byte_at_ok d 0) as (v & -> & Hv); [lia|]. cbn [mbind result_bind]. unfold in_range in Hv.
  destruct (v <? 128); [lia|].
  assert (∀ a b, 0 <= a → 0 <= b → 0 <= Z.lor a b) as Hor by (intros; by apply Z.lor_nonneg).
  assert (∀ a k, 0 <= a → 0 <= Z.shiftl a k) as Hsh by (intros; by apply Z.shiftl_nonneg).
  destruct (v =? 0x81); [destruct (len d <? 2) eqn:E; [done|]; bool_prop;
    destruct (byte_at_ok d 1) as (b1 & -> & H1); [lia|]; cbn [mbind result_bind]; unfold in_range in H1; lia|].
  destruct (v =? 0x82); [destruct (len d <? 3) eqn:E; [done|]; bool_prop;
    destruct (byte_at_ok d 1) as (b1 & -> & H1); [lia|]; cbn [mbind result_bind];
    destruct (byte_at_ok d 2) as (b2 & -> & H2); [lia|]; cbn [mbind result_bind];
    unfold in_range in *; split; [apply Hor; [apply Hsh|]; lia|lia]|].
  destruct (v =? 0x83); [|done]. destruct (len d <? 4) eqn:E; [done|]. bool_prop.
  destruct (byte_at_ok d 1) as (b1 & -> & H1); [lia|]. cbn [mbind result_bind].
  destruct (byte_at_ok d 2) as (b2 & -> & H2); [lia|]. cbn [mbind result_bind].
  destruct (byte_at_ok d 3) as (b3 & -> & H3); [lia|]. cbn [mbind result_bind].
  unfold in_range in *. split; [|lia]. apply Hor; [apply Hor; apply Hsh|]; lia.
Qed.

(** A TLV lies inside its buffer and takes at least two bytes. *)
Lemma parse_der_tlv_spec data :
  match parse_der_tlv data with
  | Ok (_, v, total) => 2 <= total <= len data ∧ len v <= total - 2
  | Err _ => True
  | Panic => False
  end.
Proof.
  unfold parse_der_tlv. destruct data as [|b0 data]; [done|]. cbn [is_empty].
  set (d := b0 :: data). assert (1 <= len d) by (unfold d; rewrite len_cons; pose proof (len_nonneg data); lia).
  clearbody d. destruct (byte_at_ok d 0) as (v & -> & _); [lia|]. cbn [mbind result_bind].
  rewrite (slice_ok d 1 (len d)) by lia. cbn [mbind result_bind].
  pose proof (parse_der_length_spec (subslice d 1 (len d))) as Hl.
  destruct (parse_der_length _) as [[n k]|e|]; [|done|done]. cbn [mbind result_bind].
  rewrite len_subslice in Hl by lia. destruct (len d <? 1 + k + n) eqn:E; [done|]. bool_prop.
  rewrite slice_ok by lia. cbn [mbind result_bind]. rewrite len_subslice by lia. lia.
Qed.

(** Case analysis on the next TLV. *)
Ltac tlv t v n :=
  match goal with
  | |- context [parse_der_tlv ?d] =>
      let H := fresh "Htlv" in
      pose proof (parse_der_tlv_spec d) as H;
      destruct (parse_der_tlv d) as [[[t v] n]|?|]; [|done|done]; cbn [mbind result_bind]
  end.

Lemma resp_field_safe tag v acc : resp_field tag v acc ≠ Panic.
Proof.
  unfold resp_field. case_test; [|case_test; [done|case_test; [|case_test; [|done]]]]; tlv t w n.
  - case_test; [done|]. destruct w as [|x w]; [done|]. cbn [is_empty].
    destruct (byte_at_ok (x :: w) 0) as (y & -> & _); [rewrite len_cons; pose proof (len_nonneg w); lia|].
    cbn [mbind result_bind]. by destruct (NegState_from_value y).
  - by case_test.
  - by case_test.
Qed.

Lemma init2_field_safe tag v acc : init2_field tag v acc ≠ Panic.
Proof.
  unfold init2_field. case_test; [|case_test; [|done]]; tlv t w n.
  - case_test; [done|]. case_test; [done|]. tlv t' w' n'. case_test; [|done].
    rewrite slice_ok by lia. done.
  - by case_test.
Qed.

Lemma parse_fields_safe field :
  (∀ tag v acc, field tag v acc ≠ Panic) →
  ∀ fuel d pos acc, 0 <= pos → Z.max 0 (len d - pos) < Z.of_nat fuel → parse_fields fuel field d pos acc ≠ Panic.
Proof.
  intros Hf. induction fuel as [|fuel IH]; intros d pos acc Hp Hfuel; [lia|]. cbn [parse_fields].
  destruct (pos <? len d) eqn:E; cbn [negb]; [|done]. bool_prop.
  rewrite slice_ok by lia. cbn [mbind result_bind]. tlv t v n.
  pose proof (Hf t v acc). destruct (field t v acc) as [acc'|e|]; [|done|done]. cbn [mbind result_bind].
  rewrite len_subslice in Htlv by lia. apply IH; lia.
Qed.

Lemma resp_inner_safe d : parse_neg_token_resp_inner d ≠ Panic.
Proof.
  unfold parse_neg_token_resp_inner. tlv t v n. case_test; [done|].
  apply parse_fields_safe; [apply resp_field_safe|lia|unfold len; lia].
Qed.
Lemma init2_safe d : parse_neg_token_init2_as_resp d ≠ Panic.
Proof.
  unfold parse_neg_token_init2_as_resp. tlv t v n. case_test; [done|].
  apply parse_fields_safe; [apply init2_field_safe|lia|unfold len; lia].
Qed.

(** No token a server can send makes the parser panic. *)
Lemma parse_neg_token_resp_safe d : parse_neg_token_resp d ≠ Panic.
Proof.
  unfold parse_neg_token_resp. case_test; [done|]. tlv t v n. case_test; [apply resp_inner_safe|].
  case_test; [|done]. tlv t' v' n'. case_test; [done|]. rewrite slice_ok by lia. cbn [mbind result_bind]. tlv t'' v'' n''.
  case_test; [apply init2_safe|]. case_test; [apply resp_inner_safe|done].
Qed.

(** ** Round trips *)

Lemma byte_at_head b l : byte_at (b :: l) 0 = Ok (u8_of_byte b).
Proof.
  unfold byte_at, le_at. rewrite slice_ok by (rewrite ?len_cons; pose proof (len_nonneg l); lia).
  cbn [mbind result_bind]. unfold subslice. change (Z.to_nat (0 + 1 - 0)) with 1%nat. change (Z.to_nat 0) with 0%nat.
  cbn [drop take of_le]. by rewrite Z.mul_0_r, Z.add_0_r.
Qed.
Lemma byte_at_tail b l i : 0 < i → byte_at (b :: l) i = byte_at l (i - 1).
Proof.
  intros Hi. unfold byte_at, le_at, slice. rewrite len_cons.
  replace (i + 1 <=? 1 + len l) with (i - 1 + 1 <=? len l) by lia.
  replace (0 <=? i) with (0 <=? i - 1) by lia. replace (i <=? i + 1) with (i - 1 <=? i - 1 + 1) by lia.
  destruct (_ && _); [|done]. cbn [mbind result_bind]. unfold subslice.
  replace (Z.to_nat i) with (S (Z.to_nat (i - 1))) by lia. cbn [drop].
  by replace (i + 1 - i) with (i - 1 + 1 - (i - 1)) by lia.
Qed.

(** Two bytes side by side. *)
Lemma lor_bytes a b : 0 <= b < 256 → Z.lor b (a * 256) = a * 256 + b.
Proof.
  intros Hb. change 256 with (2 ^ 8). rewrite <- Z.shiftl_mul_pow2 by lia. rewrite Z.lor_comm.
  assert (Z.land (Z.shiftl a 8) b = 0) as E.
  { apply Z.bits_inj'. intros n Hn. rewrite Z.land_spec, Z.bits_0.
    destruct (Z.lt_ge_cases n 8) as [H|H]; [by rewrite Z.shiftl_spec_low|].
    rewrite (Z.bits_above_log2 b n), andb_false_r; [done|lia|].
    destruct (Z.eq_dec b 0) as [->|]; [cbn; lia|]. apply Z.log2_lt_pow2; [lia|].
    apply Z.lt_le_trans with (2 ^ 8); [lia|]. apply Z.pow_le_mono_r; lia. }
  pose proof (Z.add_lor_land (Z.shiftl a 8) b). lia.
Qed.

(** A length below 65536 reads back, whatever follows. *)
Lemma parse_der_length_back n rest :
  0 <= n < 65536 → parse_der_length (der_length n ++ rest) = Ok (n, len (der_length n)).
Proof.
  intros Hn. unfold der_length. destruct (n <? 128) eqn:E1; bool_prop.
  - cbn [app]. unfold parse_der_length. cbn [is_empty]. rewrite byte_at_head. cbn [mbind result_bind].
    rewrite u8_of_byte_of_u8, Z.mod_small by lia. by rewrite (proj2 (Z.ltb_lt _ _)) by lia.
  - destruct (n <? 256) eqn:E2; bool_prop.
    + cbn [app]. unfold parse_der_length. cbn [is_empty]. rewrite byte_at_head. cbn [mbind result_bind].
      change (u8_of_byte (byte_of_u8 129)) with 129. change (129 <? 128) with false. change (129 =? 129) with true. cbv iota.
      rewrite !len_cons. pose proof (len_nonneg rest). rewrite (proj2 (Z.ltb_ge _ _)) by lia.
      rewrite (byte_at_tail _ _ 1) by lia. change (1 - 1) with 0. rewrite byte_at_head. cbn [mbind result_bind].
      by rewrite u8_of_byte_of_u8, Z.mod_small by lia.
    + cbn [app]. unfold parse_der_length. cbn [is_empty]. rewrite byte_at_head. cbn [mbind result_bind].
      change (u8_of_byte (byte_of_u8 130)) with 130. change (130 <? 128) with false. change (130 =? 129) with false.
      change (130 =? 130) with true. cbv iota.
      rewrite !len_cons. pose proof (len_nonneg rest). rewrite (proj2 (Z.ltb_ge _ _)) by lia.
      rewrite (byte_at_tail _ _ 1) by lia. change (1 - 1) with 0. rewrite byte_at_head. cbn [mbind result_bind].
      rewrite (byte_at_tail _ _ 2) by lia. change (2 - 1) with 1. rewrite (byte_at_tail _ _ 1) by lia.
      change (1 - 1) with 0. rewrite byte_at_head. cbn [mbind result_bind].
      rewrite !u8_of_byte_of_u8. change 255 with (Z.ones 8) at 1. rewrite Z.land_ones by lia.
      rewrite Z.shiftr_div_pow2 by lia. change (2 ^ 8) with 256.
      rewrite (Z.mod_small (n / 256)) by (split; [apply Z.div_pos; lia|apply Z.div_lt_upper_bound; lia]).
      rewrite Z.mod_mod by lia. do 2 f_equal. rewrite Z.shiftl_mul_pow2 by lia. change (2 ^ 8) with 256.
      rewrite <- Z.lor_comm. pose proof (Z.div_mod n 256 ltac:(lia)). pose proof (Z.mod_pos_bound n 256 ltac:(lia)).
      rewrite (lor_bytes (n / 256) (n mod 256)) by lia. lia.
Qed.

Lemma len_der_length n : 1 <= len (der_length n) <= 3.
Proof. unfold der_length. repeat case_test; unfold len; cbn [length]; lia. Qed.

Lemma len_der_tlv tag d : len (der_tlv tag d) = 1 + len (der_length (len d)) + len d.
Proof. unfold der_tlv. rewrite !len_app. unfold len at 1. cbn [length]. lia. Qed.

(** A TLV of fewer than 65536 bytes reads back, whatever follows. *)
Lemma parse_der_tlv_back tag d rest :
  is_u8 tag → len d < 65536 →
  parse_der_tlv (der_tlv tag d ++ rest) = Ok (tag, d, len (der_tlv tag d)).
Proof.
  intros Ht Hd. pose proof (len_nonneg d). pose proof (len_nonneg rest). pose proof (len_der_length (len d)).
  assert (der_tlv tag d ++ rest = [byte_of_u8 tag] ++ (der_length (len d) ++ d ++ rest)) as E.
  { unfold der_tlv. by rewrite <- !app_assoc. }
  rewrite E. unfold parse_der_tlv. cbn [app is_empty]. rewrite byte_at_head. cbn [mbind result_bind].
  change (byte_of_u8 tag :: der_length (len d) ++ d ++ rest)
    with ([byte_of_u8 tag] ++ (der_length (len d) ++ d ++ rest)).
  assert (len ([byte_of_u8 tag] ++ der_length (len d) ++ d ++ rest) = 1 + len (der_length (len d) ++ d ++ rest)) as Hl
    by apply len_app.
  assert (len (der_length (len d) ++ d ++ rest) = len (der_length (len d)) + len d + len rest) as Hl'
    by (rewrite !len_app; lia).
  rewrite slice_ok by lia. cbn [mbind result_bind]. rewrite (subslice_suffix [_]) by done.
  rewrite parse_der_length_back by lia. cbn [mbind result_bind].
  rewrite (proj2 (Z.ltb_ge _ _)) by lia. rewrite app_assoc.
  rewrite (slice_app ([byte_of_u8 tag] ++ der_length (len d)))
    by (rewrite len_app; change (len [byte_of_u8 tag]) with 1; lia).
  cbn [mbind result_bind]. rewrite u8_of_byte_of_u8, Z.mod_small by (unfold in_range in Ht; lia).
  rewrite len_der_tlv. done.
Qed.

Lemma parse_der_tlv_whole tag d :
  is_u8 tag → len d < 65536 → parse_der_tlv (der_tlv tag d) = Ok (tag, d, len (der_tlv tag d)).
Proof. intros Ht Hd. rewrite <- (app_nil_r (der_tlv tag d)) at 1. by apply parse_der_tlv_back. Qed.

(** Reading the fields of a sequence, each of them as the function says. *)
Lemma parse_fields_back field (l : list (Z * bytes)) pre acc fuel :
  Forall (λ p, is_u8 p.1 ∧ len p.2 < 65536) l → (length l < fuel)%nat →
  parse_fields fuel field (pre ++ concat (map (λ p, der_tlv p.1 p.2) l)) (len pre) acc
  = fold_left (λ r p, acc ← r; field p.1 p.2 acc) l (Ok acc).
Proof.
  intros Hl. revert pre acc fuel. induction Hl as [|[t d] l [Ht Hd] Hl IH]; intros pre acc [|fuel] Hf;
    cbn [length] in Hf; [lia| |lia|]; cbn [parse_fields map concat fold_left fst snd].
  - rewrite app_nil_r, Z.ltb_irrefl. done.
  - set (rest := concat _). pose proof (len_der_tlv t d). pose proof (len_nonneg d). pose proof (len_der_length (len d)).
    pose proof (len_nonneg rest). pose proof (len_nonneg pre).
    assert (len (pre ++ der_tlv t d ++ rest) = len pre + len (der_tlv t d ++ rest)) as Hlen by apply len_app.
    assert (len (der_tlv t d ++ rest) = len (der_tlv t d) + len rest) as Hlen' by apply len_app.
    rewrite (proj2 (Z.ltb_lt _ _)) by lia. cbn [negb]. rewrite slice_ok by lia. cbn [mbind result_bind].
    rewrite subslice_suffix by done. rewrite parse_der_tlv_back by done. cbn [mbind result_bind].
    destruct (field t d acc) as [acc'|e|]; cbn [mbind result_bind].
    + rewrite app_assoc, <- len_app. apply IH. lia.
    + clear. induction l; [done|]. cbn [fold_left]. done.
    + clear. induction l; [done|]. cbn [fold_left]. done.
Qed.

Lemma parse_fields_all field l acc :
  Forall (λ p, is_u8 p.1 ∧ len p.2 < 65536) l →
  let d := concat (map (λ p, der_tlv p.1 p.2) l) in
  parse_fields (S (length d)) field d 0 acc = fold_left (λ r p, acc ← r; field p.1 p.2 acc) l (Ok acc).
Proof.
  intros Hl d. apply (parse_fields_back field l []); [done|]. unfold d. clear.
  induction l as [|[t x] l IH]; [cbn; lia|]. cbn [map concat length fst snd]. rewrite length_app.
  pose proof (len_der_tlv t x). pose proof (len_der_length (len x)). pose proof (len_nonneg x). unfold len in *. lia.
Qed.

(** What the client wraps, a SPNEGO peer unwraps: the token of a response, and the
    preferred mechanism and the token of an initial message. *)
Lemma neg_token_resp_back token :
  len token < 65500 →
  parse_neg_token_resp (wrap_neg_token_resp token) = Ok (mkNegTokenResp None None (Some token) None).
Proof.
  intros Ht. pose proof (len_nonneg token). unfold wrap_neg_token_resp. cbv zeta.
  set (oct := der_tlv TAG_OCTET_STRING token). set (ctx := der_tlv TAG_CONTEXT_2 oct).
  set (sq := der_tlv TAG_SEQUENCE ctx).
  assert (len oct = 1 + len (der_length (len token)) + len token) by apply len_der_tlv.
  assert (len ctx = 1 + len (der_length (len oct)) + len oct) by apply len_der_tlv.
  assert (len sq = 1 + len (der_length (len ctx)) + len ctx) by apply len_der_tlv.
  pose proof (len_der_length (len token)). pose proof (len_der_length (len oct)). pose proof (len_der_length (len ctx)).
  unfold parse_neg_token_resp. cbn [is_empty]. rewrite parse_der_tlv_whole by (done || lia). cbn [mbind result_bind].
  change (TAG_CONTEXT_1 =? TAG_CONTEXT_1) with true. cbv iota.
  unfold parse_neg_token_resp_inner, sq. rewrite parse_der_tlv_whole by (done || lia). cbn [mbind result_bind].
  change (negb (TAG_SEQUENCE =? TAG_SEQUENCE)) with false. cbv iota.
  pose proof (parse_fields_all resp_field [(TAG_CONTEXT_2, oct)] NegTokenResp_none) as Hp.
  cbn [map concat fst snd fold_left] in Hp. rewrite app_nil_r in Hp. fold ctx in Hp.
  rewrite Hp by (constructor; [split; [done|cbn [snd]; lia]|constructor]).
  cbn [mbind result_bind]. unfold resp_field, oct. by rewrite parse_der_tlv_whole by (done || lia).
Qed.

(** The mechanism list of a NegTokenInit: the first one counts. *)
Lemma mech_types_back oid oids acc :
  len oid < 128 → len (concat oids) < 65300 →
  init2_field TAG_CONTEXT_0 (der_tlv TAG_SEQUENCE (der_tlv 6 oid ++ concat oids)) acc
  = Ok (mkNegTokenResp (neg_state acc) (Some (der_tlv 6 oid)) (response_token acc) (mech_list_mic acc)).
Proof.
  intros Ho Hs. pose proof (len_der_tlv 6 oid). pose proof (len_der_length (len oid)).
  assert (len (der_tlv 6 oid ++ concat oids) = len (der_tlv 6 oid) + len (concat oids)) by apply len_app.
  unfold init2_field. change (TAG_CONTEXT_0 =? TAG_CONTEXT_0) with true. cbv iota.
  rewrite parse_der_tlv_whole by (done || lia). cbn [mbind result_bind].
  change (negb (TAG_SEQUENCE =? TAG_SEQUENCE)) with false. cbv iota.
  destruct (der_tlv 6 oid ++ concat oids) as [|x l] eqn:E; [by apply app_nil in E as [? _]|]. cbn [is_empty].
  rewrite <- E. rewrite parse_der_tlv_back by (done || lia). cbn [mbind result_bind]. change (6 =? 6) with true. cbv iota.
  by rewrite (slice_app [] (der_tlv 6 oid) (concat oids)).
Qed.

Lemma mech_token_back token acc :
  len token < 65400 →
  init2_field TAG_CONTEXT_2 (der_tlv TAG_OCTET_STRING token) acc
  = Ok (mkNegTokenResp (neg_state acc) (supported_mech acc) (Some token) (mech_list_mic acc)).
Proof.
  intros Ht. unfold init2_field. change (TAG_CONTEXT_2 =? TAG_CONTEXT_0) with false.
  change (TAG_CONTEXT_2 =? TAG_CONTEXT_2) with true. cbv iota. by rewrite parse_der_tlv_whole by (done || lia).
Qed.

Lemma neg_token_init2_back mseq oct acc1 acc2 :
  len mseq + len oct < 65500 →
  init2_field TAG_CONTEXT_0 mseq NegTokenResp_none = Ok acc1 → init2_field TAG_CONTEXT_2 oct acc1 = Ok acc2 →
  parse_neg_token_init2_as_resp
    (der_tlv TAG_SEQUENCE (der_tlv TAG_CONTEXT_0 mseq ++ der_tlv TAG_CONTEXT_2 oct)) = Ok acc2.
Proof.
  intros Hl H1 H2. pose proof (len_nonneg mseq). pose proof (len_nonneg oct). unfold parse_neg_token_init2_as_resp.
  pose proof (len_der_tlv TAG_CONTEXT_0 mseq). pose proof (len_der_tlv TAG_CONTEXT_2 oct).
  pose proof (len_der_length (len mseq)). pose proof (len_der_length (len oct)).
  rewrite parse_der_tlv_whole by (done || rewrite len_app; lia). cbn [mbind result_bind].
  change (negb (TAG_SEQUENCE =? TAG_SEQUENCE)) with false. cbv iota.
  pose proof (parse_fields_all init2_field [(TAG_CONTEXT_0, mseq); (TAG_CONTEXT_2, oct)] NegTokenResp_none) as Hp.
  cbn [map concat fst snd fold_left] in Hp. rewrite app_nil_r in Hp.
  rewrite Hp by (constructor; [split; [done|cbn [snd]; lia]|constructor; [split; [done|cbn [snd]; lia]|constructor]]).
  cbn [mbind result_bind]. rewrite H1. cbn [mbind result_bind]. by rewrite H2.
Qed.

Lemma neg_token_init_back oid oids token :
  len oid < 128 → len token + len (concat oids) < 65300 →
  parse_neg_token_resp (wrap_neg_token_init (der_tlv 6 oid :: oids) token)
  = Ok (mkNegTokenResp None (Some (der_tlv 6 oid)) (Some token) None).
Proof.
  intros Ho Ht. unfold wrap_neg_token_init. cbv zeta. cbn [concat].
  pose proof (len_nonneg token). pose proof (len_nonneg oid). pose proof (len_nonneg (concat oids)).
  set (mseq := der_tlv TAG_SEQUENCE (der_tlv 6 oid ++ concat oids)). set (oct := der_tlv TAG_OCTET_STRING token).
  set (iseq := der_tlv TAG_SEQUENCE (der_tlv TAG_CONTEXT_0 mseq ++ der_tlv TAG_CONTEXT_2 oct)).
  assert (len mseq <= 8 + 128 + len (concat oids)) as Hm.
  { unfold mseq. rewrite len_der_tlv, len_app, len_der_tlv. pose proof (len_der_length (len oid)).
    pose proof (len_der_length (1 + len (der_length (len oid)) + len oid + len (concat oids))). lia. }
  assert (len oct <= 4 + len token) as Hoct
    by (unfold oct; rewrite len_der_tlv; pose proof (len_der_length (len token)); lia).
  assert (len (der_tlv TAG_CONTEXT_0 iseq) <= 16 + len mseq + len oct) as Hi.
  { unfold iseq. rewrite !len_der_tlv, len_app, !len_der_tlv.
    repeat match goal with |- context [len (der_length ?n)] => pose proof (len_der_length n); generalize dependent (len (der_length n)); intros end. lia. }
  assert (len (OID_SPNEGO ++ der_tlv TAG_CONTEXT_0 iseq) = 8 + len (der_tlv TAG_CONTEXT_0 iseq)) as Happ by apply len_app.
  pose proof (len_der_tlv TAG_CONTEXT_0 iseq). pose proof (len_der_length (len iseq)).
  unfold parse_neg_token_resp. cbn [is_empty]. rewrite parse_der_tlv_whole by (done || lia). cbn [mbind result_bind].
  change (TAG_APPLICATION_0 =? TAG_CONTEXT_1) with false. change (TAG_APPLICATION_0 =? TAG_APPLICATION_0) with true. cbv iota.
  assert (parse_der_tlv (OID_SPNEGO ++ der_tlv TAG_CONTEXT_0 iseq) = Ok (6, [x2b; x06; x01; x05; x05; x02], 8)) as ->
    by exact (parse_der_tlv_back 6 [x2b; x06; x01; x05; x05; x02] (der_tlv TAG_CONTEXT_0 iseq) ltac:(done) ltac:(done)).
  cbn [mbind result_bind]. change (negb (6 =? 6)) with false. cbv iota.
  pose proof (len_nonneg (der_tlv TAG_CONTEXT_0 iseq)).
  rewrite (slice_ok (OID_SPNEGO ++ _)) by lia. cbn [mbind result_bind]. rewrite (subslice_suffix OID_SPNEGO) by done.
  rewrite parse_der_tlv_whole by (done || lia). cbn [mbind result_bind].
  change (TAG_CONTEXT_0 =? TAG_CONTEXT_0) with true. cbv iota.
  eapply neg_token_init2_back; [lia|by apply mech_types_back; lia|]. apply mech_token_back. lia.
Qed.

(** No bytes a server sends make the SPNEGO parser panic; and what this client
    wraps a peer unwraps: the token of a response, and of an initial message the
    token together with the first mechanism offered, for tokens up to the 64 KiB that
    two length bytes describe. *)
Theorem spnego_correct :
  (∀ d, parse_neg_token_resp d ≠ Panic) ∧
  (∀ token, len token < 65500 →
     parse_neg_token_resp (wrap_neg_token_resp token) = Ok (mkNegTokenResp None None (Some token) None)) ∧
  (∀ oid oids token, len oid < 128 → len token + len (concat oids) < 65300 →
     parse_neg_token_resp (wrap_neg_token_init (der_tlv 6 oid :: oids) token)
     = Ok (mkNegTokenResp None (Some (der_tlv 6 oid)) (Some token) None)).
Proof.
  split_and!; [apply parse_neg_token_resp_safe|apply neg_token_resp_back|apply neg_token_init_back].
Qed.

Lemma spnego_correct_witness :
  parse_neg_token_resp (wrap_neg_token_resp [x01; x02]) = Ok (mkNegTokenResp None None (Some [x01; x02]) None) ∧
  parse_neg_token_resp (wrap_neg_token_init [OID_NTLMSSP; OID_KERBEROS] [x03])
  = Ok (mkNegTokenResp None (Some OID_NTLMSSP) (Some [x03]) None).
Proof.
  destruct spnego_correct as (_ & Hr & Hi). split; [by apply Hr|].
  by apply (Hi [x2b; x06; x01; x04; x01; x82; x37; x02; x02; x0a] [OID_KERBEROS] [x03]).
Defined.

(** The encoder has no form for 65536 bytes or more: it writes a length that is read
    back as the low sixteen bits. *)
Example der_length_truncates : parse_der_length (der_length 65536) = Ok (0, 3).
Proof. reflexivity. Qed.
