(* ===== verification/Transform.v ===== *)
(** * Encryption and compression transforms

    Models [src/msg/transform.rs] (the two wrapper headers),
    [src/crypto/encryption.rs] (nonces, AEAD framing),
    [src/crypto/compression.rs] (unchained LZ4) and the parts of
    [src/client/connection.rs] that apply them to whole frames
    ([encrypt_bytes], [decrypt_frame], [build_compressed_frame],
    [decompress_response]).

    The AEAD ciphers and LZ4 are external crates: classes of operations with
    their documented laws. *)

From S2P Require Import Prelude Types Pack Codec Header Signing.

(** ** Wrapper headers *)

Definition TRANSFORM_PROTOCOL_ID : bytes := [xfd; x53; x4d; x42].
Definition COMPRESSION_PROTOCOL_ID : bytes := [xfc; x53; x4d; x42].
Definition SMB2_TRANSFORM_HEADER_FLAG_ENCRYPTED : Z := 0x0001.
Definition COMPRESSION_ALGORITHM_LZ4 : Z := 0x0005.
Definition SMB2_COMPRESSION_FLAG_NONE : Z := 0x0000.

Record TransformHeader := mkTransformHeader {
  th_signature : bytes;
  th_nonce : bytes;
  th_original_message_size : Z;
  th_flags : Z;
  th_session_id : Z
}.
Definition TransformHeader_SIZE : Z := 52.

#[global] Instance TransformHeader_pack : Pack TransformHeader := λ h,
  write_bytes TRANSFORM_PROTOCOL_ID ;;
  write_bytes (th_signature h) ;;
  write_bytes (th_nonce h) ;;
  write_u32_le (th_original_message_size h) ;;
  write_u16_le 0 ;;
  write_u16_le (th_flags h) ;;
  write_u64_le (th_session_id h).

#[global] Instance TransformHeader_unpack : Unpack TransformHeader :=
  proto ← read_bytes 4;
  fail_if (negb (bool_decide (proto = TRANSFORM_PROTOCOL_ID)))
    (invalid_data "invalid transform header protocol ID: expected {}, got {}") ;;
  signature ← read_bytes 16;
  nonce ← read_bytes 16;
  original_message_size ← read_u32_le;
  _reserved ← read_u16_le;
  flags ← read_u16_le;
  session_id ← read_u64_le;
  mret (mkTransformHeader signature nonce original_message_size flags session_id).

Record CompressionTransformHeader := mkCompressionTransformHeader {
  ct_original_compressed_segment_size : Z;
  ct_compression_algorithm : Z;
  ct_flags : Z;
  ct_offset_or_length : Z
}.
Definition CompressionTransformHeader_SIZE : Z := 16.

#[global] Instance CompressionTransformHeader_pack : Pack CompressionTransformHeader := λ h,
  write_bytes COMPRESSION_PROTOCOL_ID ;;
  write_u32_le (ct_original_compressed_segment_size h) ;;
  write_u16_le (ct_compression_algorithm h) ;;
  write_u16_le (ct_flags h) ;;
  write_u32_le (ct_offset_or_length h).

#[global] Instance CompressionTransformHeader_unpack : Unpack CompressionTransformHeader :=
  proto ← read_bytes 4;
  fail_if (negb (bool_decide (proto = COMPRESSION_PROTOCOL_ID)))
    (invalid_data "invalid compression transform header protocol ID: expected {}, got {}") ;;
  original_compressed_segment_size ← read_u32_le;
  compression_algorithm ← read_u16_le;
  flags ← read_u16_le;
  offset_or_length ← read_u32_le;
  mret (mkCompressionTransformHeader original_compressed_segment_size compression_algorithm
          flags offset_or_length).

(** ** Ciphers and nonces *)

Inductive Cipher := Aes128Ccm | Aes128Gcm | Aes256Ccm | Aes256Gcm.

#[global] Instance Cipher_eq_dec : EqDecision Cipher.
Proof. solve_decision. Defined.

Definition nonce_len (c : Cipher) : Z :=
  match c with Aes128Ccm | Aes256Ccm => 11 | Aes128Gcm | Aes256Gcm => 12 end.
Definition key_len (c : Cipher) : Z :=
  match c with Aes128Ccm | Aes128Gcm => 16 | Aes256Ccm | Aes256Gcm => 32 end.

Record NonceGenerator := mkNonceGenerator { counter : Z }.
Definition NonceGenerator_new : NonceGenerator := mkNonceGenerator 0.

(** [checked_add(1).expect(..)]: the last counter value panics. *)
Definition NonceGenerator_next (g : NonceGenerator) (_cipher : Cipher) :
    result Error (bytes * NonceGenerator) :=
  let count := counter g in
  if count + 1 <? 2 ^ 64
  then Ok (to_le 8 count ++ zeros 8, mkNonceGenerator (count + 1))
  else Panic.

(** ** AEAD *)

Class AeadPrimitives := {
  (** cipher, key, nonce, additional data, buffer: the buffer and the tag *)
  aead_encrypt : Cipher → bytes → bytes → bytes → bytes → option (bytes * bytes);
  (** cipher, key, nonce, additional data, tag, buffer *)
  aead_decrypt : Cipher → bytes → bytes → bytes → bytes → bytes → option bytes
}.

Class AeadLaws `{AeadPrimitives} := {
  aead_lengths : ∀ c k n a m ct t, aead_encrypt c k n a m = Some (ct, t) →
    len ct = len m ∧ len t = 16;
  aead_inverse : ∀ c k n a m ct t, aead_encrypt c k n a m = Some (ct, t) →
    aead_decrypt c k n a t ct = Some m
}.

Definition AAD_OFFSET : Z := 20.

Section encryption.
Context `{AeadPrimitives}.

(** [key.try_into().expect(..)] and the same for the nonce. *)
Definition encrypt_raw (c : Cipher) (key nonce aad buffer : bytes) : result Error (bytes * bytes) :=
  if (len key =? key_len c) && (len nonce =? nonce_len c) then
    match aead_encrypt c key nonce aad buffer with
    | Some (ct, tag) => if len tag =? 16 then Ok (ct, tag) else Panic
    | None => Err (invalid_data "encryption failed")
    end
  else Panic.

Definition decrypt_raw (c : Cipher) (key nonce aad tag buffer : bytes) : result Error bytes :=
  if (len key =? key_len c) && (len nonce =? nonce_len c) then
    match aead_decrypt c key nonce aad tag buffer with
    | Some m => Ok m
    | None => Err (invalid_data "decryption failed: authentication tag mismatch")
    end
  else Panic.

Definition encrypt_message (plaintext key : bytes) (c : Cipher) (nonce : bytes) (session_id : Z) :
    result Error (bytes * bytes) :=
  if negb (len key =? key_len c)
  then Err (invalid_data "encryption key length mismatch: expected {}, got {}")
  else
    let header := mkTransformHeader (zeros 16) nonce (trunc 32 (len plaintext))
                    SMB2_TRANSFORM_HEADER_FLAG_ENCRYPTED session_id in
    header_bytes ← packed header;
    aad ← slice header_bytes AAD_OFFSET TransformHeader_SIZE;
    nonce_slice ← slice nonce 0 (nonce_len c);
    '(buffer, tag) ← encrypt_raw c key nonce_slice aad plaintext;
    header_bytes ← overwrite header_bytes 4 tag;
    Ok (header_bytes, buffer).

Definition decrypt_message (transform_header ciphertext key : bytes) (c : Cipher) :
    result Error bytes :=
  if negb (len transform_header =? TransformHeader_SIZE)
  then Err (invalid_data "transform header must be {} bytes, got {}")
  else if negb (len key =? key_len c)
  then Err (invalid_data "decryption key length mismatch: expected {}, got {}")
  else
    tag ← slice transform_header 4 20;
    nonce ← slice transform_header 20 (20 + nonce_len c);
    aad ← slice transform_header AAD_OFFSET TransformHeader_SIZE;
    decrypt_raw c key nonce aad tag ciphertext.

(** ** Connection crypto state *)

Record CryptoState := mkCryptoState {
  cs_signing_key : option bytes;
  cs_signing_algorithm : option SigningAlgorithm;
  cs_should_sign : bool;
  cs_encryption_key : option bytes;
  cs_decryption_key : option bytes;
  cs_encryption_cipher : option Cipher;
  cs_should_encrypt : bool;
  cs_nonce_gen : option NonceGenerator;
  cs_session_id : Z
}.

Definition CryptoState_new : CryptoState :=
  mkCryptoState None None false None None None false None SessionId_NONE.

Definition set_nonce_gen (c : CryptoState) (g : NonceGenerator) : CryptoState :=
  mkCryptoState (cs_signing_key c) (cs_signing_algorithm c) (cs_should_sign c)
    (cs_encryption_key c) (cs_decryption_key c) (cs_encryption_cipher c)
    (cs_should_encrypt c) (Some g) (cs_session_id c).

Definition ok_or {A} (o : option A) (msg : string) : result Error A :=
  match o with Some a => Ok a | None => Err (invalid_data msg) end.

(** The first half runs under the lock and advances the generator; the
    encryption itself cannot give the nonce back. *)
Definition take_nonce (c : CryptoState) :
    result Error (bytes * Cipher * Z * bytes * CryptoState) :=
  enc_key ← ok_or (cs_encryption_key c) "encryption active but no encryption key";
  cipher ← ok_or (cs_encryption_cipher c) "encryption active but no cipher";
  g ← ok_or (cs_nonce_gen c) "encryption active but no nonce generator";
  '(nonce, g') ← NonceGenerator_next g cipher;
  Ok (enc_key, cipher, cs_session_id c, nonce, set_nonce_gen c g').

Definition encrypt_bytes (plaintext : bytes) (c : CryptoState) :
    result Error bytes * CryptoState :=
  match take_nonce c with
  | Ok (enc_key, cipher, session_id, nonce, c') =>
      (('(transform_header, ciphertext) ←
          encrypt_message plaintext enc_key cipher nonce session_id;
        Ok (transform_header ++ ciphertext)), c')
  | Err e => (Err e, c)
  | Panic => (Panic, c)
  end.

Definition decrypt_frame (d : bytes) (c : CryptoState) : result Error bytes :=
  dec_key ← ok_or (cs_decryption_key c) "received encrypted message but no decryption key";
  cipher ← ok_or (cs_encryption_cipher c) "received encrypted message but no cipher";
  if len d <? TransformHeader_SIZE
  then Err (invalid_data "encrypted message too short for TransformHeader")
  else
    transform_header ← slice d 0 TransformHeader_SIZE;
    ciphertext ← slice d TransformHeader_SIZE (len d);
    decrypt_message transform_header ciphertext dec_key cipher.

End encryption.

(** ** Compression *)

Class Lz4 := {
  lz4_compress : bytes → bytes;
  (** compressed data and the size of the output buffer *)
  lz4_decompress : bytes → Z → option bytes
}.

(** Decompressing into a buffer of the original size restores the input, and
    the output never exceeds the buffer. *)
Class Lz4Laws `{Lz4} := {
  lz4_inverse : ∀ m, lz4_decompress (lz4_compress m) (len m) = Some m;
  lz4_bound : ∀ c n m, lz4_decompress c n = Some m → len m <= n
}.

Definition MAX_DECOMPRESSED_SIZE : Z := 16 * 1024 * 1024.

Record CompressedMessage := mkCompressedMessage {
  cm_original_size : Z;
  cm_uncompressed_prefix : bytes;
  cm_compressed_data : bytes;
  cm_offset : Z
}.

Section compression.
Context `{Lz4}.

(** The slices are in range because [offset < len]. *)
Definition compress_message (message : bytes) (offset : Z) : option CompressedMessage :=
  if offset >=? len message then None
  else
    let prefix := subslice message 0 offset in
    let to_compress := subslice message offset (len message) in
    let compressed := lz4_compress to_compress in
    if len compressed >=? len to_compress then None
    else Some (mkCompressedMessage (trunc 32 (len to_compress)) prefix compressed (trunc 32 offset)).

Definition decompress_message (uncompressed_prefix compressed_data : bytes) (original_size : Z) :
    result Error bytes :=
  if original_size >? MAX_DECOMPRESSED_SIZE
  then Err (invalid_data "decompressed size {} exceeds maximum allowed size {}")
  else
    match lz4_decompress compressed_data original_size with
    | None => Err (invalid_data "LZ4 decompression failed: {}")
    | Some decompressed => Ok (uncompressed_prefix ++ decompressed)
    end.

Definition build_compressed_frame (m : CompressedMessage) : result Error bytes :=
  let header := mkCompressionTransformHeader (cm_original_size m) COMPRESSION_ALGORITHM_LZ4
                  SMB2_COMPRESSION_FLAG_NONE (cm_offset m) in
  frame ← packed header;
  Ok (frame ++ cm_uncompressed_prefix m ++ cm_compressed_data m).

Definition decompress_response (d : bytes) : result Error bytes :=
  if len d <? CompressionTransformHeader_SIZE
  then Err (invalid_data "compressed response too short for CompressionTransformHeader")
  else
    match unpack CompressionTransformHeader (ReadCursor_new d) with
    | Err e => Err e
    | Panic => Panic
    | Ok (header, _) =>
        if negb (ct_compression_algorithm header =? COMPRESSION_ALGORITHM_LZ4)
        then Err (invalid_data "unsupported compression algorithm {}, only LZ4 ({}) is supported")
        else if negb (ct_flags header =? SMB2_COMPRESSION_FLAG_NONE)
        then Err (invalid_data "unsupported compression flags {}, only unchained is supported")
        else
          let offset := ct_offset_or_length header in
          remaining ← slice d CompressionTransformHeader_SIZE (len d);
          if offset >? len remaining
          then Err (invalid_data "compression offset {} exceeds remaining data length {}")
          else
            uncompressed_prefix ← slice remaining 0 offset;
            compressed_data ← slice remaining offset (len remaining);
            decompress_message uncompressed_prefix compressed_data
              (ct_original_compressed_segment_size header)
    end.

End compression.

(** ** Wrapper headers: codecs *)

Record TransformHeader_wf (h : TransformHeader) : Prop := {
  thw_signature : len (th_signature h) = 16;
  thw_nonce : len (th_nonce h) = 16;
  thw_size : is_u32 (th_original_message_size h);
  thw_flags : is_u16 (th_flags h);
  thw_session : is_u64 (th_session_id h)
}.

(** The header after its signature: what the cipher authenticates. *)
Definition th_aad (h : TransformHeader) : bytes :=
  th_nonce h ++ to_le 4 (th_original_message_size h) ++ to_le 2 0 ++ to_le 2 (th_flags h)
  ++ to_le 8 (th_session_id h).

Definition TransformHeader_layout (h : TransformHeader) : bytes :=
  TRANSFORM_PROTOCOL_ID ++ th_signature h ++ th_aad h.

Lemma TransformHeader_pack_layout p h : writes_at p (pack h) (TransformHeader_layout h).
Proof. unfold writes_at, pack, TransformHeader_pack. wsteps. wdone. Qed.

#[global] Program Instance TransformHeader_codec : Codec TransformHeader := {
  codec_wf := TransformHeader_wf;
  codec_layout _ := TransformHeader_layout
}.
Next Obligation. intros. apply TransformHeader_pack_layout. Qed.
Next Obligation.
  intros p [sg nc sz fl sid] _ [Hs Hn Hz Hf Hi].
  unfold TransformHeader_layout, th_aad, unpack, TransformHeader_unpack.
  cbn [th_signature th_nonce th_original_message_size th_flags th_session_id] in *. rsteps.
Qed.
Next Obligation. unfold unpack, TransformHeader_unpack. roks. by apply rok_ret. Qed.

Record CompressionTransformHeader_wf (h : CompressionTransformHeader) : Prop := {
  ctw_size : is_u32 (ct_original_compressed_segment_size h);
  ctw_algorithm : is_u16 (ct_compression_algorithm h);
  ctw_flags : is_u16 (ct_flags h);
  ctw_offset : is_u32 (ct_offset_or_length h)
}.

Definition CompressionTransformHeader_layout (h : CompressionTransformHeader) : bytes :=
  COMPRESSION_PROTOCOL_ID ++ to_le 4 (ct_original_compressed_segment_size h)
  ++ to_le 2 (ct_compression_algorithm h) ++ to_le 2 (ct_flags h)
  ++ to_le 4 (ct_offset_or_length h).

Lemma CompressionTransformHeader_safe :
  reader_ok (unpack CompressionTransformHeader) CompressionTransformHeader_wf.
Proof. unfold unpack, CompressionTransformHeader_unpack. roks. rokdone. Qed.

#[global] Program Instance CompressionTransformHeader_codec : Codec CompressionTransformHeader := {
  codec_wf := CompressionTransformHeader_wf;
  codec_layout _ := CompressionTransformHeader_layout
}.
Next Obligation.
  intros. unfold writes_at, pack, CompressionTransformHeader_pack. wsteps. wdone.
Qed.
Next Obligation.
  intros p [sz al fl off] _ [Hs Ha Hf Ho].
  unfold CompressionTransformHeader_layout, unpack, CompressionTransformHeader_unpack.
  cbn [ct_original_compressed_segment_size ct_compression_algorithm ct_flags
       ct_offset_or_length] in *. rsteps.
Qed.
Next Obligation. eapply rok_weaken; [|apply CompressionTransformHeader_safe]. done. Qed.

(** ** Encrypted frames *)

Lemma len_th_aad h : len (th_nonce h) = 16 → len (th_aad h) = 32.
Proof. intros Hn. unfold th_aad. autorewrite with len. lia. Qed.

Lemma TransformHeader_layout_len h :
  len (th_signature h) = 16 → len (th_nonce h) = 16 → len (TransformHeader_layout h) = 52.
Proof.
  intros Hs Hn. unfold TransformHeader_layout. by rewrite !len_app, len_th_aad, Hs by done.
Qed.

Lemma packed_TransformHeader h : packed h = Ok (TransformHeader_layout h).
Proof. apply writes_at_packed, TransformHeader_pack_layout. Qed.

Section encryption_lemmas.
Context `{AeadPrimitives}.

(** The wrapper header [encrypt_message] builds around a tag. *)
Definition sealed_header (tag nonce : bytes) (n session_id : Z) : TransformHeader :=
  mkTransformHeader tag nonce (trunc 32 n) SMB2_TRANSFORM_HEADER_FLAG_ENCRYPTED session_id.

Lemma encrypt_message_ok m k c nonce sid hb ct :
  len nonce = 16 →
  encrypt_message m k c nonce sid = Ok (hb, ct) →
  ∃ tag, len k = key_len c ∧ len tag = 16 ∧
    aead_encrypt c k (subslice nonce 0 (nonce_len c))
      (th_aad (sealed_header tag nonce (len m) sid)) m = Some (ct, tag) ∧
    hb = TransformHeader_layout (sealed_header tag nonce (len m) sid).
Proof.
  intros Hn. unfold encrypt_message. case_test; [done|]. bool_prop. cbv zeta.
  rewrite packed_TransformHeader. unfold mbind, result_bind.
  set (h0 := mkTransformHeader (zeros 16) nonce _ _ _).
  assert (len (TransformHeader_layout h0) = 52) as Hl0 by by apply TransformHeader_layout_len.
  rewrite slice_ok by (unfold AAD_OFFSET, TransformHeader_SIZE; lia).
  replace (subslice _ AAD_OFFSET TransformHeader_SIZE) with (th_aad h0).
  2:{ unfold TransformHeader_layout. rewrite app_assoc. symmetry.
      apply subslice_suffix; [done|]. by rewrite len_th_aad. }
  rewrite slice_ok by (destruct c; cbn; lia). unfold encrypt_raw.
  destruct (_ && _); [|done].
  destruct (aead_encrypt _ _ _ _ _) as [[ct' tag]|] eqn:E; [|done].
  case_test; [|done]. bool_prop. rewrite overwrite_ok by lia.
  intros [= <- <-]. exists tag. split; [done|]. split; [done|]. split; [done|].
  unfold patch, TransformHeader_layout.
  change (Z.to_nat 4) with (length TRANSFORM_PROTOCOL_ID). rewrite take_app_length.
  replace (Z.to_nat (4 + len tag)) with (length (TRANSFORM_PROTOCOL_ID ++ th_signature h0))
    by (rewrite Heqb0; done).
  by rewrite (app_assoc _ (th_signature h0)), drop_app_length.
Qed.

Lemma decrypt_message_layout h ct k c :
  len (th_signature h) = 16 → len (th_nonce h) = 16 → len k = key_len c →
  decrypt_message (TransformHeader_layout h) ct k c =
  decrypt_raw c k (subslice (th_nonce h) 0 (nonce_len c)) (th_aad h) (th_signature h) ct.
Proof.
  intros Hs Hn Hk. unfold decrypt_message.
  pose proof (TransformHeader_layout_len h Hs Hn) as Hl. rewrite Hl, Hk. cbn [Z.eqb negb].
  unfold TransformHeader_SIZE. rewrite Z.eqb_refl. cbn [negb]. unfold AAD_OFFSET.
  assert (11 <= nonce_len c <= 12) by by destruct c.
  rewrite !slice_ok by lia. unfold mbind, result_bind. f_equal.
  - unfold TransformHeader_layout, th_aad. rewrite app_assoc.
    rewrite <- (take_drop (Z.to_nat (nonce_len c)) (th_nonce h)) at 1.
    rewrite <- !app_assoc, app_assoc.
    assert (len (take (Z.to_nat (nonce_len c)) (th_nonce h)) = nonce_len c)
      by (revert Hn; len_lia).
    rewrite subslice_app by (rewrite len_app, Hs, ?H1; done).
    unfold subslice. by rewrite Z.sub_0_r.
  - unfold TransformHeader_layout. rewrite app_assoc.
    apply subslice_suffix; rewrite len_app, Hs; [done|]. by rewrite len_th_aad.
  - unfold TransformHeader_layout. apply subslice_app; [done|]. by rewrite Hs.
Qed.

Lemma NonceGenerator_next_ok g c nonce g' :
  NonceGenerator_next g c = Ok (nonce, g') →
  nonce = to_le 8 (counter g) ++ zeros 8 ∧ counter g' = counter g + 1 ∧ counter g < 2 ^ 64.
Proof.
  unfold NonceGenerator_next. case_test; [|done]. bool_prop. intros [= <- <-].
  cbn. repeat split; lia.
Qed.

Lemma encrypt_bytes_ok m c f c' :
  encrypt_bytes m c = (Ok f, c') →
  ∃ k ci g tag ct,
    cs_encryption_key c = Some k ∧ cs_encryption_cipher c = Some ci ∧
    cs_nonce_gen c = Some g ∧ counter g < 2 ^ 64 ∧ len k = key_len ci ∧ len tag = 16 ∧
    let nonce := to_le 8 (counter g) ++ zeros 8 in
    let h := sealed_header tag nonce (len m) (cs_session_id c) in
    aead_encrypt ci k (subslice nonce 0 (nonce_len ci)) (th_aad h) m = Some (ct, tag) ∧
    f = TransformHeader_layout h ++ ct.
Proof.
  unfold encrypt_bytes, take_nonce, ok_or, mbind, result_bind.
  destruct (cs_encryption_key c) as [k|]; [|done].
  destruct (cs_encryption_cipher c) as [ci|]; [|done].
  destruct (cs_nonce_gen c) as [g|]; [|done].
  destruct (NonceGenerator_next g ci) as [[nonce g']|e|] eqn:En; [|done|done].
  apply NonceGenerator_next_ok in En as (-> & _ & Hc).
  destruct (encrypt_message _ _ _ _ _) as [[hb ct]|e|] eqn:Ee; [|done|done].
  intros [= <- <-].
  apply encrypt_message_ok in Ee as (tag & Hk & Ht & Ha & ->); [|by rewrite len_app, len_to_le].
  by exists k, ci, g, tag, ct.
Qed.

(** A call that takes a nonce moves the counter on, whatever happens next. *)
Lemma encrypt_bytes_state m c r c' :
  encrypt_bytes m c = (r, c') →
  cs_encryption_key c' = cs_encryption_key c ∧
  cs_encryption_cipher c' = cs_encryption_cipher c ∧
  cs_session_id c' = cs_session_id c ∧
  (c' = c ∧ is_ok r = false ∨
   ∃ g g', cs_nonce_gen c = Some g ∧ cs_nonce_gen c' = Some g' ∧ counter g' = counter g + 1).
Proof.
  unfold encrypt_bytes, take_nonce, ok_or, mbind, result_bind.
  destruct (cs_encryption_key c) as [k|] eqn:E1; [|intros [= <- <-]; split_and!; auto; by left].
  destruct (cs_encryption_cipher c) as [ci|] eqn:E2; [|intros [= <- <-]; split_and!; auto; by left].
  destruct (cs_nonce_gen c) as [g|] eqn:E3; [|intros [= <- <-]; split_and!; auto; by left].
  destruct (NonceGenerator_next g ci) as [[nonce g']|e|] eqn:En;
    [|intros [= <- <-]; split_and!; auto; by left|intros [= <- <-]; split_and!; auto; by left].
  apply NonceGenerator_next_ok in En as (_ & Hc & _).
  intros [= _ <-]. cbn. split; [done|]. split; [done|]. split; [done|]. right. eauto.
Qed.

(** A sequence of sends on one connection. *)
Fixpoint encrypt_all (ms : list bytes) (c : CryptoState) : list (result Error bytes) * CryptoState :=
  match ms with
  | [] => ([], c)
  | m :: ms =>
      let '(r, c1) := encrypt_bytes m c in
      let '(rs, c2) := encrypt_all ms c1 in (r :: rs, c2)
  end.

(** The nonce bytes the cipher uses, as they stand in a frame. *)
Definition frame_nonce (ci : Cipher) (f : bytes) : bytes := subslice f 20 (20 + nonce_len ci).

Lemma frame_nonce_layout ci h ct :
  len (th_signature h) = 16 → len (th_nonce h) = 16 →
  frame_nonce ci (TransformHeader_layout h ++ ct) = subslice (th_nonce h) 0 (nonce_len ci).
Proof.
  intros Hs Hn. unfold frame_nonce, TransformHeader_layout, th_aad.
  assert (11 <= nonce_len ci <= 12) by by destruct ci.
  rewrite <- (take_drop (Z.to_nat (nonce_len ci)) (th_nonce h)) at 1.
  rewrite (app_assoc TRANSFORM_PROTOCOL_ID), <- !app_assoc, (app_assoc TRANSFORM_PROTOCOL_ID).
  assert (len (take (Z.to_nat (nonce_len ci)) (th_nonce h)) = nonce_len ci)
    by (revert Hn; len_lia).
  rewrite subslice_app by (rewrite len_app, Hs, ?H1; done).
  unfold subslice. by rewrite Z.sub_0_r.
Qed.

Lemma counter_nonce_inj ci a b :
  in_range 64 a → in_range 64 b →
  subslice (to_le 8 a ++ zeros 8) 0 (nonce_len ci) = subslice (to_le 8 b ++ zeros 8) 0 (nonce_len ci) →
  a = b.
Proof.
  intros Ha Hb E.
  assert (∀ x, take 8 (subslice (to_le 8 x ++ zeros 8) 0 (nonce_len ci)) = to_le 8 x) as Ht.
  { intros x. unfold subslice. rewrite take_take. by destruct ci. }
  apply (f_equal (take 8)) in E. rewrite !Ht in E.
  rewrite <- (of_le_to_le_small 8 a Ha), <- (of_le_to_le_small 8 b Hb). by rewrite E.
Qed.

(** Every frame of a run carries a counter at least the one it started at. *)
Lemma encrypt_all_nonces ms c rs c' g ci i f :
  cs_nonce_gen c = Some g → cs_encryption_cipher c = Some ci → 0 <= counter g →
  encrypt_all ms c = (rs, c') → rs !! i = Some (Ok f) →
  ∃ n, counter g <= n < 2 ^ 64 ∧
       frame_nonce ci f = subslice (to_le 8 n ++ zeros 8) 0 (nonce_len ci).
Proof.
  revert c rs g i; induction ms as [|m ms IH]; intros c rs g i Hg Hci Hc E Hi; cbn in E.
  { injection E as <- <-. done. }
  destruct (encrypt_bytes m c) as [r c1] eqn:E1.
  destruct (encrypt_all ms c1) as [rs1 c2] eqn:E2. injection E as <- <-.
  destruct i as [|i]; cbn in Hi.
  - injection Hi as ->. apply encrypt_bytes_ok in E1
      as (k & ci' & g0 & tag & ct & _ & Hci' & Hg' & Hlt & _ & Ht & _ & ->).
    rewrite Hg in Hg'. injection Hg' as <-. rewrite Hci in Hci'. injection Hci' as <-.
    exists (counter g). split; [lia|]. by apply frame_nonce_layout.
  - apply encrypt_bytes_state in E1 as (_ & Hci' & _ & [[-> _]|(g0 & g' & Hg0 & Hg' & Hs)]).
    + by eapply IH.
    + rewrite Hg in Hg0. injection Hg0 as <-. rewrite Hci in Hci'.
      destruct (IH c1 rs1 g' i Hg' Hci' ltac:(lia) E2 Hi) as (n & Hn & Hf).
      exists n. split; [lia|done].
Qed.

Lemma encrypt_all_nonces_distinct ms c rs c' g ci i j fi fj :
  cs_nonce_gen c = Some g → cs_encryption_cipher c = Some ci → 0 <= counter g →
  encrypt_all ms c = (rs, c') → (i < j)%nat →
  rs !! i = Some (Ok fi) → rs !! j = Some (Ok fj) →
  frame_nonce ci fi ≠ frame_nonce ci fj.
Proof.
  revert c rs g i j; induction ms as [|m ms IH]; intros c rs g i j Hg Hci Hc E Hij Hi Hj;
    cbn in E.
  { injection E as <- <-. done. }
  destruct (encrypt_bytes m c) as [r c1] eqn:E1.
  destruct (encrypt_all ms c1) as [rs1 c2] eqn:E2. injection E as <- <-.
  destruct j as [|j]; [lia|]. cbn in Hj.
  pose proof E1 as E1'. apply encrypt_bytes_state in E1'
    as (_ & Hci' & _ & [[-> Hr]|(g0 & g' & Hg0 & Hg' & Hs)]).
  - destruct i as [|i]; cbn in Hi; [by injection Hi as ->|].
    by apply (IH c rs1 g i j); auto with lia.
  - rewrite Hg in Hg0. injection Hg0 as <-. rewrite Hci in Hci'.
    destruct i as [|i]; cbn in Hi.
    + injection Hi as ->.
      destruct (encrypt_all_nonces ms c1 rs1 c2 g' ci j fj Hg' Hci' ltac:(lia) E2 Hj)
        as (n & Hn & ->).
      apply encrypt_bytes_ok in E1
        as (k & ci' & g0 & tag & ct & _ & Hci2 & Hg2 & Hlt & _ & Ht & _ & ->).
      rewrite Hg in Hg2. injection Hg2 as <-. rewrite Hci in Hci2. injection Hci2 as <-.
      rewrite frame_nonce_layout by done. intros Hn'.
      apply counter_nonce_inj in Hn'; unfold in_range; lia.
    + by apply (IH c1 rs1 g' i j); auto with lia.
Qed.

(** ** Properties *)


(** A peer holding the same key and cipher recovers exactly the
    plaintext from an encrypted frame. *)
Theorem encrypt_decrypt_frame `{!AeadLaws} m c f c' peer :
  encrypt_bytes m c = (Ok f, c') →
  cs_decryption_key peer = cs_encryption_key c →
  cs_encryption_cipher peer = cs_encryption_cipher c →
  decrypt_frame f peer = Ok m.
Proof.
  intros E Hk Hci. apply encrypt_bytes_ok in E
    as (k & ci & g & tag & ct & Ek & Eci & _ & _ & Hkl & Ht & Ha & ->).
  unfold decrypt_frame. rewrite Hk, Ek, Hci, Eci. unfold ok_or, mbind, result_bind.
  set (h := sealed_header _ _ _ _) in *.
  assert (len (th_nonce h) = 16) as Hn by (cbn [h th_nonce sealed_header]; by rewrite len_app, len_to_le).
  pose proof (TransformHeader_layout_len h Ht Hn) as Hl.
  pose proof (len_nonneg ct). unfold TransformHeader_SIZE. rewrite len_app, Hl.
  replace (_ <? 52) with false by lia. rewrite !slice_ok by (rewrite ?len_app; lia).
  rewrite subslice_full_prefix by done. rewrite subslice_suffix by lia.
  rewrite decrypt_message_layout by done. unfold decrypt_raw.
  rewrite Hkl, Z.eqb_refl.
  rewrite len_subslice by (rewrite ?Hn; destruct ci; cbn; lia).
  rewrite Z.sub_0_r, Z.eqb_refl. cbn [andb].
  rewrite (aead_inverse ci k _ _ m ct tag); [done|]. exact Ha.
Qed.

Lemma decrypt_message_no_panic hb ct k ci : decrypt_message hb ct k ci ≠ Panic.
Proof.
  unfold decrypt_message, TransformHeader_SIZE, AAD_OFFSET. do 2 (case_test; [done|]). bool_prop.
  assert (11 <= nonce_len ci <= 12) by by destruct ci.
  rewrite !slice_ok by lia. unfold mbind, result_bind, decrypt_raw.
  rewrite len_subslice by lia. rewrite Heqb0, Z.eqb_refl.
  replace (_ =? nonce_len ci) with true by lia. cbn [andb].
  by destruct (aead_decrypt _ _ _ _ _ _).
Qed.

Lemma decrypt_frame_no_panic d c : decrypt_frame d c ≠ Panic.
Proof.
  unfold decrypt_frame, ok_or, mbind, result_bind.
  destruct (cs_decryption_key c); [|done]. destruct (cs_encryption_cipher c); [|done].
  unfold TransformHeader_SIZE. case_test; [done|]. bool_prop. rewrite !slice_ok by lia.
  apply decrypt_message_no_panic.
Qed.

End encryption_lemmas.

(** ** Compressed frames *)

Lemma compress_message_some `{Lz4} m off cm :
  0 <= off → compress_message m off = Some cm →
  off < len m ∧ m = cm_uncompressed_prefix cm ++ subslice m off (len m) ∧
  len (cm_uncompressed_prefix cm) = off ∧
  cm_compressed_data cm = lz4_compress (subslice m off (len m)) ∧
  cm_original_size cm = trunc 32 (len m - off) ∧ cm_offset cm = trunc 32 off ∧
  len (cm_compressed_data cm) < len m - off.
Proof.
  intros Hoff. unfold compress_message. case_test; [done|].
  assert (off < len m) by lia. rewrite (len_subslice m off (len m)) by lia.
  case_test; [done|]. intros [= <-]. cbn. repeat split; try done; try lia.
  - unfold subslice. change (Z.to_nat 0) with 0%nat. rewrite drop_0, Z.sub_0_r.
    rewrite (take_ge (drop _ _)) by (rewrite length_drop; unfold len; lia).
    by rewrite take_drop.
  - rewrite len_subslice by lia. lia.
Qed.

Lemma decompress_response_no_panic `{Lz4} d : decompress_response d ≠ Panic.
Proof.
  unfold decompress_response. case_test; [done|]. bool_prop.
  pose proof (CompressionTransformHeader_safe d 0 ltac:(pose proof (len_nonneg d); lia)) as Hs.
  unfold ReadCursor_new.
  destruct (unpack CompressionTransformHeader (RC d 0)) as [[h c]|e|]; [|done|done].
  destruct Hs as ([_ _ _ Ho] & _). unfold in_range in Ho. do 2 (case_test; [done|]).
  unfold CompressionTransformHeader_SIZE in *.
  rewrite slice_ok by lia. unfold mbind, result_bind. case_test; [done|].
  rewrite !slice_ok by lia. unfold decompress_message. case_test; [done|].
  by destruct (lz4_decompress _ _).
Qed.

(** A frame is only compressed when that makes the payload smaller,
    and decompressing it gives back the message byte for byte; the receiving
    side never panics on any input. *)
Theorem compress_round_trip `{Lz4Laws} m off cm :
  0 <= off → is_u32 off → len m - off <= MAX_DECOMPRESSED_SIZE →
  compress_message m off = Some cm →
  (∃ f, build_compressed_frame cm = Ok f ∧ decompress_response f = Ok m ∧
        len f < CompressionTransformHeader_SIZE + len m) ∧
  ∀ d, decompress_response d ≠ Panic.
Proof.
  intros Hoff Ho32 Hmax E. split; [|apply decompress_response_no_panic].
  apply compress_message_some in E as (Hlt & Hm & Hpre & Hdata & Hsize & Hof & Hsm); [|done].
  set (h := mkCompressionTransformHeader (cm_original_size cm) COMPRESSION_ALGORITHM_LZ4
              SMB2_COMPRESSION_FLAG_NONE (cm_offset cm)).
  assert (is_u32 (len m - off)) as Hsz by (unfold in_range, MAX_DECOMPRESSED_SIZE in *; lia).
  rewrite trunc_small in Hsize, Hof by done.
  assert (CompressionTransformHeader_wf h) as Hwf.
  { constructor; cbn; rewrite ?Hsize, ?Hof; done. }
  exists (CompressionTransformHeader_layout h ++ cm_uncompressed_prefix cm ++ cm_compressed_data cm).
  split; [|split].
  - unfold build_compressed_frame. fold h.
    rewrite (writes_at_packed h (CompressionTransformHeader_layout h)); [done|].
    exact (codec_pack 0 h ltac:(lia) Hwf).
  - unfold decompress_response, CompressionTransformHeader_SIZE.
    pose proof (codec_unpack 0 h ltac:(lia) Hwf [] (cm_uncompressed_prefix cm ++ cm_compressed_data cm)
                  eq_refl) as Hu. cbn [app] in Hu. unfold ReadCursor_new.
    assert (len (CompressionTransformHeader_layout h) = 16) as Hl by done.
    pose proof (len_nonneg (cm_compressed_data cm)).
    change (codec_layout 0 h) with (CompressionTransformHeader_layout h) in Hu. rewrite Hu.
    rewrite !len_app, Hl, Hpre. replace (_ <? 16) with false by lia.
    cbn [h ct_compression_algorithm ct_flags ct_offset_or_length
         ct_original_compressed_segment_size negb Z.eqb COMPRESSION_ALGORITHM_LZ4
         SMB2_COMPRESSION_FLAG_NONE]. cbn [Pos.eqb negb].
    rewrite slice_ok by (rewrite ?len_app; lia).
    rewrite subslice_suffix by (rewrite ?len_app, ?Hl, ?Hpre; lia).
    unfold mbind, result_bind. rewrite Hof, len_app, Hpre.
    replace (off >? _) with false by lia.
    rewrite slice_ok by (rewrite ?len_app, ?Hpre; lia). rewrite subslice_full_prefix by done.
    rewrite slice_ok by (rewrite ?len_app, ?Hpre; lia).
    rewrite subslice_suffix by (rewrite ?Hpre; lia).
    unfold decompress_message. rewrite Hsize. replace (_ >? _) with false by lia.
    rewrite Hdata. replace (len m - off) with (len (subslice m off (len m)))
      by (rewrite len_subslice; lia).
    rewrite lz4_inverse. by rewrite <- Hm.
  - unfold CompressionTransformHeader_SIZE. rewrite !len_app.
    change (len (CompressionTransformHeader_layout h)) with 16. lia.
Qed.

(** ** Witnesses *)

(** A toy cipher with the interface of an AEAD: the identity on the buffer, a
    tag made of key, nonce and data. *)
Definition toy_tag (k n a m : bytes) : bytes := to_le 16 (of_le k + of_le n + of_le a + of_le m).

#[global] Instance toy_aead : AeadPrimitives := {
  aead_encrypt _ k n a m := Some (m, toy_tag k n a m);
  aead_decrypt _ k n a t m := if bool_decide (t = toy_tag k n a m) then Some m else None
}.

#[global] Instance toy_aead_laws : AeadLaws.
Proof.
  split; cbn [aead_encrypt aead_decrypt toy_aead]; intros c k n a m ct t [= <- <-].
  - split; [done|]. apply len_to_le.
  - by rewrite bool_decide_eq_true_2.
Qed.

Definition toy_crypto : CryptoState :=
  mkCryptoState None None false (Some (zeros 16)) (Some (zeros 16)) (Some Aes128Gcm) true
    (Some NonceGenerator_new) 9.

Definition toy_frames : list bytes := [[x01]; [x02]].
Definition toy_sent : list (result Error bytes) * CryptoState := encrypt_all toy_frames toy_crypto.
Definition toy_frame (i : nat) : bytes :=
  match toy_sent.1 !! i with Some (Ok f) => f | _ => [] end.


Lemma encrypt_decrypt_frame_witness : decrypt_frame (toy_frame 1) toy_crypto = Ok [x02].
Proof.
  by eapply (encrypt_decrypt_frame [x02] (encrypt_bytes [x01] toy_crypto).2).
Defined.

(** Run-length coding of zero blocks: a compressor that is lossless and shrinks
    some input. *)
#[global] Instance toy_lz4 : Lz4 := {
  lz4_compress m := if bool_decide (m = zeros 8) then [x00] else x01 :: m;
  lz4_decompress c n :=
    match c with
    | x00 :: _ => if n =? 8 then Some (zeros 8) else None
    | _ :: m => if len m <=? n then Some m else None
    | [] => None
    end
}.

#[global] Instance toy_lz4_laws : Lz4Laws.
Proof.
  split; cbn [lz4_compress lz4_decompress toy_lz4].
  - intros m. case_bool_decide as E; [by subst|]. by rewrite Z.leb_refl.
  - intros [|[] c] n m; try done; case_test; try done; intros [= <-]; bool_prop; subst; done || lia.
Qed.

Definition toy_message : bytes := [xfe; x53] ++ zeros 8.

Lemma compress_round_trip_witness :
  ∃ cm, compress_message toy_message 2 = Some cm ∧
  ∃ f, build_compressed_frame cm = Ok f ∧ decompress_response f = Ok toy_message.
Proof.
  eexists. split; [reflexivity|].
  edestruct (compress_round_trip toy_message 2) as [(f & H1 & H2 & _) _]; [| | |reflexivity|]; try done.
  by exists f.
Defined.
