(* ===== verification/Compound.v ===== *)
(** * Compound frames

    Models the framing of compounds in [src/client/connection.rs]:
    [pack_message], the padding and [NextCommand] wiring of
    [execute_compound_inner], and [split_compound] on the receiving side.

    The specification is [chain], a relation between a frame and its
    sub-frames.  The splitter is shown to decide it, and the assembler to
    produce a frame that chains to exactly its sub-requests. *)

From S2P Require Import Prelude Types Pack Codec Header Signing.

(** [pack_message]: header and body in one buffer, the body being any value
    with a [Pack] implementation, that is, a writer. *)
Definition pack_message (h : Header) (body : Writer unit) : result Error bytes :=
  match (pack h ;; body) WriteCursor_new with
  | Ok (_, c) => Ok (into_inner c)
  | Err e => Err e
  | Panic => Panic
  end.

(** ** Assembly *)

(** [sub_req.resize(new_len, 0)] up to the next multiple of 8. *)
Definition pad_to_8 (sub_req : bytes) : bytes :=
  let rem := len sub_req mod 8 in
  if negb (rem =? 0) then sub_req ++ zeros (8 - rem) else sub_req.

(** [sub_req[20..24].copy_from_slice(&next_cmd.to_le_bytes())] *)
Definition set_next_command (sub_req : bytes) : result Error bytes :=
  overwrite sub_req 20 (to_le 4 (trunc 32 (len sub_req))).

(** [for x in v.iter_mut().take(n)] with a fallible body. *)
Fixpoint map_take {A} (n : nat) (f : A → result Error A) (l : list A) : result Error (list A) :=
  match n, l with
  | S n, x :: l => y ← f x; ys ← map_take n f l; Ok (y :: ys)
  | _, _ => Ok l
  end.

(** The two loops over all but the last sub-request. *)
Definition link_sub_requests (sub_requests : list bytes) : result Error (list bytes) :=
  let last_idx := pred (length sub_requests) in
  sub_requests ← map_take last_idx (λ s, Ok (pad_to_8 s)) sub_requests;
  map_take last_idx set_next_command sub_requests.

(** [compound_buf]: the sub-requests end to end. *)
Definition compound_buf (sub_requests : list bytes) : bytes := concat sub_requests.

(** ** Splitting *)

(** The body of the loop at [offset], [results] being non-empty iff [n > 0].
    The loop runs at most once per byte of the frame, so [length data] rounds
    always suffice ([split_compound_sound]); running out is a panic. *)
Fixpoint split_loop (fuel : nat) (data : bytes) (n : nat) (offset : Z) :
    result Error (list bytes) :=
  match fuel with
  | O => Panic
  | S fuel =>
      if offset + Header_SIZE >? len data
      then Err (invalid_data "compound response truncated at offset {}: need {} bytes")
      else if negb (n =? 0)%nat && negb (offset mod 8 =? 0)
      then Err (invalid_data "compound response at offset {} is not 8-byte aligned")
      else
        raw ← slice data (offset + 20) (offset + 24);
        let next_cmd := of_le raw in
        let sub_end := if next_cmd >? 0 then offset + next_cmd else len data in
        if sub_end >? len data
        then Err (invalid_data "compound NextCommand offset {} at position {} exceeds length {}")
        else
          sub ← slice data offset sub_end;
          if next_cmd =? 0 then Ok [sub]
          else
            rest ← split_loop fuel data (S n) (offset + next_cmd);
            Ok (sub :: rest)
  end.

Definition split_compound (d : bytes) : result Error (list bytes) :=
  split_loop (S (length d)) d 0 0.

(** ** The specification *)

(** [NextCommand] of the header a buffer starts with. *)
Definition next_command_of (d : bytes) : Z := of_le (subslice d 20 24).

(** [chain d subs]: [d] is the sub-frames [subs] end to end, each but the last
    being as long as its [NextCommand] says and a multiple of 8, the last one
    holding at least a header and a zero [NextCommand]. *)
Inductive chain : bytes → list bytes → Prop :=
| chain_last d :
    64 <= len d → next_command_of d = 0 → chain d [d]
| chain_more s d subs :
    64 <= len (s ++ d) → 0 < len s → len s mod 8 = 0 →
    next_command_of (s ++ d) = len s → chain d subs → chain (s ++ d) (s :: subs).

Lemma chain_concat d subs : chain d subs → concat subs = d.
Proof. induction 1; cbn; [by rewrite app_nil_r|congruence]. Qed.

Lemma chain_functional d subs1 subs2 : chain d subs1 → chain d subs2 → subs1 = subs2.
Proof.
  intros H1. revert subs2. induction H1 as [d Hl Hn|s d subs Hl Hs Hm Hn Hd IH]; intros subs2 H2.
  - inversion H2 as [|s d' subs' Hl' Hs' Hm' Hn' Hd' E]; subst; [done|]. lia.
  - inversion H2 as [d' Hl' Hn' E|s' d' subs' Hl' Hs' Hm' Hn' Hd' E]; subst; [lia|].
    rewrite E in Hn'. assert (len s = len s') as Hls by lia.
    apply app_inj_1 in E as [-> ->]; [|unfold len in Hls; lia].
    f_equal. by apply IH.
Qed.

(** ** The splitter decides the specification *)

Lemma next_command_range d : 24 <= len d → 0 <= next_command_of d < 2 ^ 32.
Proof.
  intros H. unfold next_command_of. pose proof (of_le_range (subslice d 20 24)) as Hr.
  by rewrite len_subslice in Hr by lia.
Qed.

Lemma subslice_drop {A} (l : list A) o a b :
  0 <= o → 0 <= a → subslice (drop (Z.to_nat o) l) a b = subslice l (o + a) (o + b).
Proof.
  intros Ho Ha. unfold subslice. rewrite drop_drop.
  f_equal; [f_equal; lia|]. f_equal. lia.
Qed.

Lemma len_drop {A} (l : list A) o : 0 <= o <= len l → len (drop (Z.to_nat o) l) = len l - o.
Proof. len_lia. Qed.

(** One round of the loop in terms of what is left of the frame. *)
Lemma split_loop_step fuel d n o :
  0 <= o <= len d →
  let rest := drop (Z.to_nat o) d in
  let nc := next_command_of rest in
  split_loop (S fuel) d n o =
    if len rest <? 64
    then Err (invalid_data "compound response truncated at offset {}: need {} bytes")
    else if negb (n =? 0)%nat && negb (o mod 8 =? 0)
    then Err (invalid_data "compound response at offset {} is not 8-byte aligned")
    else if nc =? 0 then Ok [rest]
    else if nc >? len rest
    then Err (invalid_data "compound NextCommand offset {} at position {} exceeds length {}")
    else rs ← split_loop fuel d (S n) (o + nc); Ok (subslice d o (o + nc) :: rs).
Proof.
  intros Ho rest nc. unfold nc, rest. cbn [split_loop]. unfold Header_SIZE.
  pose proof (len_drop d o Ho) as Hl.
  replace (o + 64 >? len d) with (len (drop (Z.to_nat o) d) <? 64) by lia.
  destruct (_ <? 64) eqn:E; [done|]. bool_prop.
  destruct (negb _ && negb _); [done|].
  rewrite slice_ok by lia. unfold mbind, result_bind, next_command_of.
  rewrite subslice_drop by lia.
  pose proof (next_command_range (drop (Z.to_nat o) d) ltac:(lia)) as Hr.
  unfold next_command_of in Hr. rewrite subslice_drop in Hr by lia.
  set (x := of_le _) in *. destruct (x =? 0) eqn:E0; bool_prop.
  - rewrite E0. cbn [Z.gtb Z.compare]. rewrite Z.gtb_ltb, Z.ltb_irrefl.
    rewrite slice_ok by lia. do 2 f_equal. unfold subslice. apply take_ge.
    unfold len in *. lia.
  - replace (x >? 0) with true by lia.
    replace (o + x >? len d) with (x >? len (drop (Z.to_nat o) d)) by lia.
    destruct (x >? _) eqn:E1; [done|]. by rewrite slice_ok by lia.
Qed.

Lemma drop_split_at {A} (d : list A) o nc :
  0 <= o → 0 <= nc → o + nc <= len d →
  drop (Z.to_nat o) d = subslice d o (o + nc) ++ drop (Z.to_nat (o + nc)) d.
Proof.
  intros. unfold subslice. rewrite <- (take_drop (Z.to_nat nc) (drop (Z.to_nat o) d)) at 1.
  rewrite drop_drop. f_equal; [f_equal; lia|]. f_equal. lia.
Qed.

(** Soundness, together with absence of panics and enough fuel. *)
Lemma split_loop_sound fuel d n o :
  0 <= o <= len d → len d - o < Z.of_nat fuel → (n = 0%nat → o = 0) →
  match split_loop fuel d n o with
  | Ok subs => chain (drop (Z.to_nat o) d) subs ∧ o mod 8 = 0
  | Err _ => True
  | Panic => False
  end.
Proof.
  revert n o. induction fuel as [|fuel IH]; intros n o Ho Hf Hn; [lia|].
  rewrite split_loop_step by done. pose proof (len_drop d o Ho) as Hl.
  destruct (_ <? 64) eqn:E1; [done|]. bool_prop.
  destruct (negb _ && negb _) eqn:E2; [done|].
  assert (o mod 8 = 0) as Hm.
  { bool_prop. destruct E2; bool_prop; [|done]. apply Nat.eqb_eq in H. by rewrite Hn. }
  clear E2. destruct (_ =? 0) eqn:E3; bool_prop; [split; [by constructor|done]|].
  destruct (_ >? _) eqn:E4; [done|].
  set (nc := next_command_of _) in *.
  pose proof (next_command_range (drop (Z.to_nat o) d) ltac:(lia)) as Hr. fold nc in Hr.
  unfold mbind, result_bind.
  specialize (IH (S n) (o + nc) ltac:(lia) ltac:(lia) ltac:(lia)).
  destruct (split_loop fuel d (S n) (o + nc)) as [subs| |]; [|done|done].
  destruct IH as [Hc Hm']. split; [|done].
  assert (len (subslice d o (o + nc)) = nc) as Hs by (rewrite len_subslice; lia).
  rewrite (drop_split_at d o nc) by lia. constructor; rewrite ?Hs; try lia; try done.
  - rewrite <- drop_split_at by lia. lia.
  - rewrite Z.add_mod, Hm in Hm' by lia. rewrite Z.add_0_l, Z.mod_mod in Hm'; lia.
  - by rewrite <- drop_split_at by lia.
Qed.

Lemma split_loop_complete fuel d n o subs :
  0 <= o <= len d → len d - o < Z.of_nat fuel → o mod 8 = 0 →
  chain (drop (Z.to_nat o) d) subs → split_loop fuel d n o = Ok subs.
Proof.
  revert n o subs. induction fuel as [|fuel IH]; intros n o subs Ho Hf Hm Hc; [lia|].
  rewrite split_loop_step by done. pose proof (len_drop d o Ho) as Hl.
  rewrite Hm, andb_false_r.
  inversion Hc as [r H1 H2 E|s r subs' H1 H2 H3 H4 H5 E]; subst.
  - replace (_ <? 64) with false by lia. by rewrite H2.
  - symmetry in E. rewrite <- E in *. rewrite H4. replace (_ <? 64) with false by lia.
    replace (len s =? 0) with false by lia.
    assert (len s <= len (drop (Z.to_nat o) d))
      by (rewrite E, len_app; pose proof (len_nonneg r); lia).
    replace (len s >? _) with false by lia.
    assert (drop (Z.to_nat (o + len s)) d = r) as Hr.
    { replace (Z.to_nat (o + len s)) with (Z.to_nat o + length s)%nat by (unfold len; lia).
      by rewrite <- drop_drop, E, drop_app_length. }
    rewrite (IH (S n) (o + len s) subs').
    + cbn. do 2 f_equal. unfold subslice. rewrite E.
      replace (Z.to_nat _) with (length s) by (unfold len; lia). by rewrite take_app_length.
    + lia.
    + lia.
    + by rewrite Z.add_mod, Hm, H3 by lia.
    + by rewrite Hr.
Qed.

(** ** Assembly produces a chain *)

(** A packed sub-request: a header with no successor yet, then its body. *)
Definition sub_request_ok (s : bytes) : Prop :=
  64 <= len s ∧ len s < 2 ^ 31 ∧ next_command_of s = 0.

Lemma pad_to_8_spec s :
  ∃ z, pad_to_8 s = s ++ zeros z ∧ 0 <= z < 8 ∧ len (pad_to_8 s) mod 8 = 0.
Proof.
  unfold pad_to_8. pose proof (Z.mod_pos_bound (len s) 8 ltac:(lia)) as Hb.
  destruct (_ =? 0) eqn:E; cbn [negb]; bool_prop.
  - exists 0. split; [by rewrite app_nil_r|]. by split.
  - exists (8 - len s mod 8). split; [done|]. split; [lia|].
    rewrite len_app, len_zeros by lia. rewrite (Z.div_mod (len s) 8) at 1 by lia.
    replace (_ + _ + _) with ((len s / 8 + 1) * 8) by lia. apply Z.mod_mul. lia.
Qed.

(** What [link_sub_requests] makes of a sub-request that is not the last. *)
Definition linked (s : bytes) : bytes := patch (pad_to_8 s) 20 (to_le 4 (len (pad_to_8 s))).

Lemma len_linked s : 64 <= len s → len (linked s) = len (pad_to_8 s).
Proof.
  intros H. destruct (pad_to_8_spec s) as (z & E & Hz & _). unfold linked. apply len_patch; [lia|].
  rewrite len_to_le, E, len_app, len_zeros; lia.
Qed.

Lemma map_take_all {A} (f : A → result Error A) (g : A → A) l x :
  (∀ a, a ∈ l → f a = Ok (g a)) →
  map_take (length l) f (l ++ [x]) = Ok (map g l ++ [x]).
Proof.
  induction l as [|a l IH]; intros H; [done|]. cbn [length app map_take map].
  rewrite H by set_solver. unfold mbind, result_bind in *. by rewrite IH by set_solver.
Qed.

Lemma link_sub_requests_snoc l x :
  Forall sub_request_ok l → link_sub_requests (l ++ [x]) = Ok (map linked l ++ [x]).
Proof.
  intros Hl. unfold link_sub_requests. rewrite length_app, Nat.add_1_r. cbn [pred].
  rewrite (map_take_all _ pad_to_8) by done. unfold mbind, result_bind.
  rewrite <- (length_map pad_to_8 l).
  rewrite (map_take_all _ (λ s, patch s 20 (to_le 4 (len s)))), map_map; [done|].
  intros a (s & -> & Hs)%list_elem_of_fmap. rewrite Forall_forall in Hl.
  destruct (Hl s Hs) as (H1 & H2 & _). destruct (pad_to_8_spec s) as (z & E & Hz & _).
  unfold set_next_command. rewrite to_le_trunc32. apply overwrite_ok; [lia|].
  rewrite len_to_le, E, len_app, len_zeros; lia.
Qed.

Lemma next_command_of_linked s r :
  sub_request_ok s → next_command_of (linked s ++ r) = len (linked s).
Proof.
  intros (H1 & H2 & _). rewrite len_linked by done. unfold next_command_of.
  destruct (pad_to_8_spec s) as (z & E & Hz & _).
  assert (len (pad_to_8 s) = len s + z) as Hp by (rewrite E, len_app, len_zeros; lia).
  rewrite subslice_app_l by (rewrite ?len_linked; lia).
  unfold linked.
  replace 24 with (20 + len (to_le 4 (len (pad_to_8 s)))) by by rewrite len_to_le.
  rewrite subslice_patch by (rewrite ?len_to_le; lia).
  apply of_le_to_le_small. unfold in_range. cbn [Z.of_nat Pos.of_succ_nat]. lia.
Qed.

Lemma linked_chain l x :
  Forall sub_request_ok l → sub_request_ok x →
  chain (concat (map linked l ++ [x])) (map linked l ++ [x]).
Proof.
  intros Hl (Hx1 & Hx2 & Hx3). induction Hl as [|s l Hs Hl IH]; cbn [map app concat].
  - rewrite app_nil_r. by constructor.
  - pose proof Hs as (H1 & _). destruct (pad_to_8_spec s) as (z & E & Hz & Hm).
    assert (len (linked s) = len s + z) as Hp by (rewrite len_linked, E, len_app, len_zeros; lia).
    constructor; [| | |by apply next_command_of_linked|done].
    + rewrite len_app. pose proof (len_nonneg (concat (map linked l ++ [x]))). lia.
    + lia.
    + by rewrite len_linked.
Qed.

Lemma split_compound_sound d :
  match split_compound d with Ok subs => chain d subs | Err _ => True | Panic => False end.
Proof.
  assert (0 <= 0 <= len d) as Ho by (pose proof (len_nonneg d); lia).
  pose proof (split_loop_sound (S (length d)) d 0 0 Ho ltac:(unfold len; lia) ltac:(done)) as Hs.
  fold (split_compound d) in Hs. rewrite drop_0 in Hs.
  by destruct (split_compound d) as [subs| |]; [destruct Hs|..].
Qed.

Lemma split_compound_complete d subs : chain d subs → split_compound d = Ok subs.
Proof.
  intros Hc. apply split_loop_complete; rewrite ?drop_0; try done.
  - pose proof (len_nonneg d). lia.
  - unfold len. lia.
Qed.

Lemma split_compound_iff d subs : split_compound d = Ok subs ↔ chain d subs.
Proof.
  split; [|apply split_compound_complete]. intros E.
  pose proof (split_compound_sound d) as Hs. by rewrite E in Hs.
Qed.

(** ** Packed requests as sub-frames *)

Lemma pack_message_layout h body b :
  Header_wf h → writes_at 64 body b → pack_message h body = Ok (Header_layout h ++ b).
Proof.
  intros Hh Hb. unfold pack_message.
  assert (wtriple 0 [] (pack h ;; body) (Header_layout h ++ b) tt) as Ht.
  { eapply w_bind; [apply Header_pack_layout|]. apply writes_at_wtriple.
    by rewrite Header_layout_len. }
  specialize (Ht [] eq_refl). cbn [app] in Ht. unfold WriteCursor_new. by rewrite Ht.
Qed.

(** Fields of the header as they stand in the bytes. *)
Lemma Header_layout_field pre bs post h body a b :
  Header_layout h = pre ++ bs ++ post → a = len pre → b = len pre + len bs →
  subslice (Header_layout h ++ body) a b = bs.
Proof. intros E Ha Hb. rewrite E, <- !app_assoc. by apply subslice_app. Qed.

Lemma next_command_of_layout h body :
  Header_wf h → next_command_of (Header_layout h ++ body) = next_command h.
Proof.
  intros Hh. unfold next_command_of.
  erewrite (Header_layout_field
             (PROTOCOL_ID ++ to_le 2 64 ++ to_le 2 (credit_charge h) ++ to_le 4 (status h)
              ++ to_le 2 (Command_code (command h)) ++ to_le 2 (credits h) ++ to_le 4 (flags h))
             (to_le 4 (next_command h))); [|done|done|done].
  apply of_le_to_le_small, Hh.
Qed.

Lemma flags_of_layout h body :
  Header_wf h → of_le (subslice (Header_layout h ++ body) 16 20) = flags h.
Proof.
  intros Hh.
  erewrite (Header_layout_field
             (PROTOCOL_ID ++ to_le 2 64 ++ to_le 2 (credit_charge h) ++ to_le 4 (status h)
              ++ to_le 2 (Command_code (command h)) ++ to_le 2 (credits h))
             (to_le 4 (flags h))); [|done|done|done].
  apply of_le_to_le_small, Hh.
Qed.

Lemma status_of_layout h body :
  Header_wf h → of_le (subslice (Header_layout h ++ body) 8 12) = status h.
Proof.
  intros Hh.
  erewrite (Header_layout_field (PROTOCOL_ID ++ to_le 2 64 ++ to_le 2 (credit_charge h))
             (to_le 4 (status h))); [|done|done|done].
  apply of_le_to_le_small, Hh.
Qed.

(** ** Properties *)

(** C4: splitting a frame always terminates within one round per byte and
    never panics; it succeeds exactly on well-linked frames, with exactly their
    sub-frames, which put end to end are the frame again. *)
Theorem split_compound_correct d :
  split_compound d ≠ Panic ∧
  (∀ subs, split_compound d = Ok subs ↔ chain d subs) ∧
  (∀ subs, split_compound d = Ok subs → concat subs = d).
Proof.
  pose proof (split_compound_sound d) as Hs. split; [by intros E; rewrite E in Hs|].
  split; [apply split_compound_iff|].
  intros subs E. by apply chain_concat, split_compound_iff.
Qed.

(** The frame assembled from any number of packed sub-requests
    splits on the other side into exactly those sub-requests, each but the last
    zero-padded to 8 bytes and carrying its length as [NextCommand]. *)
Theorem compound_split_assemble l x :
  Forall sub_request_ok l → sub_request_ok x →
  link_sub_requests (l ++ [x]) = Ok (map linked l ++ [x]) ∧
  split_compound (compound_buf (map linked l ++ [x])) = Ok (map linked l ++ [x]).
Proof.
  intros Hl Hx. split; [by apply link_sub_requests_snoc|].
  by apply split_compound_complete, linked_chain.
Qed.

Definition packed_request (c : Command) : bytes :=
  match pack_message (Header_new_request c) (pack mkTrivialMessage) with
  | Ok bs => bs | _ => [] end.

Lemma compound_split_assemble_witness :
  split_compound (compound_buf ([linked (packed_request Echo)] ++ [packed_request Logoff])) =
    Ok ([linked (packed_request Echo)] ++ [packed_request Logoff]).
Proof.
  apply (compound_split_assemble [packed_request Echo] (packed_request Logoff)).
  - constructor; [|constructor]. by vm_compute.
  - by vm_compute.
Defined.
