(* ===== verification/Credits.v ===== *)
(** * Credit accounting ([src/client/credits.rs])

    The pool holds one semaphore permit per unspent credit.  The semaphore is
    tokio's, outside the repository: a class of operations with the laws its
    documentation states.  On top of the operations of [CreditPool] and
    [CreditReservation] a labelled step relation describes what concurrent
    tasks can do to one pool, and a ledger of what the server granted and what
    was sent is carried along, so that "the client never spends more than it
    was granted" is an invariant. *)

From S2P Require Import Prelude Types.

(** ** tokio's [Semaphore] *)

Class Semaphore (Sem : Type) := {
  sem_new : Z → Sem;
  available_permits : Sem → Z;
  sem_is_closed : Sem → bool;
  add_permits : Z → Sem → Sem;
  (** [try_acquire_many(n)] followed by [forget]: [None] when the semaphore is
      closed or holds fewer than [n] permits. *)
  acquire_forget : Z → Sem → option Sem;
  sem_close : Sem → Sem
}.

Class SemaphoreLaws (Sem : Type) `{Semaphore Sem} := {
  new_permits : ∀ n, available_permits (sem_new n) = n ∧ sem_is_closed (sem_new n) = false;
  add_spec : ∀ n s, available_permits (add_permits n s) = available_permits s + n ∧
                    sem_is_closed (add_permits n s) = sem_is_closed s;
  acquire_some : ∀ n s s', acquire_forget n s = Some s' →
    sem_is_closed s = false ∧ n <= available_permits s ∧
    available_permits s' = available_permits s - n ∧ sem_is_closed s' = false;
  acquire_enough : ∀ n s, sem_is_closed s = false → n <= available_permits s →
    is_Some (acquire_forget n s);
  close_spec : ∀ s, sem_is_closed (sem_close s) = true ∧
                    available_permits (sem_close s) = available_permits s
}.

(** ** CreditPool *)

Definition CREDIT_TARGET : Z := 512.
(** In milliseconds. *)
Definition DEFAULT_CREDIT_WAIT : Z := 30000.

Section pool.
Context {Sem : Type} `{Semaphore Sem}.

Record CreditPool := mkCreditPool { permits : Sem; wait_ms : Z }.

Definition CreditPool_new : CreditPool := mkCreditPool (sem_new 1) DEFAULT_CREDIT_WAIT.

(** The closed semaphore is replaced by a fresh one. *)
Definition reset (p : CreditPool) : CreditPool := mkCreditPool (sem_new 1) (wait_ms p).

Definition available (p : CreditPool) : Z :=
  trunc 16 (Z.min (available_permits (permits p)) (u_max 16)).

Definition grant (n : Z) (p : CreditPool) : CreditPool :=
  if n >? 0 then mkCreditPool (add_permits n (permits p)) (wait_ms p) else p.

Definition try_reserve (charge : Z) (p : CreditPool) : bool * CreditPool :=
  match acquire_forget charge (permits p) with
  | Some s => (true, mkCreditPool s (wait_ms p))
  | None => (false, p)
  end.

Definition refund (charge : Z) (p : CreditPool) : CreditPool := grant charge p.

Definition request_for (charge : Z) (p : CreditPool) : Z :=
  sat_add 16 charge (sat_sub CREDIT_TARGET (available p)).

Definition wait_timeout (p : CreditPool) : Z := wait_ms p.
Definition set_wait_timeout (after_ms : Z) (p : CreditPool) : CreditPool :=
  mkCreditPool (permits p) (if after_ms <? 2 ^ 64 then after_ms else u_max 64).

Definition close (p : CreditPool) : CreditPool :=
  mkCreditPool (sem_close (permits p)) (wait_ms p).
Definition is_closed (p : CreditPool) : bool := sem_is_closed (permits p).

(** ** CreditReservation: a pool reference until committed, and a charge *)

Record CreditReservation := mkCreditReservation { res_pool : bool; res_charge : Z }.

Definition CreditReservation_new (charge : Z) : CreditReservation :=
  mkCreditReservation true charge.
(** [commit] takes the pool reference out; the drop that follows is a no-op. *)
Definition commit (r : CreditReservation) : CreditReservation :=
  mkCreditReservation false (res_charge r).
Definition drop_reservation (r : CreditReservation) (p : CreditPool) : CreditPool :=
  if res_pool r then refund (res_charge r) p else p.

(** ** Tasks sharing a pool

    A ledger is the pool, the reservations tasks hold, and what has crossed the
    wire since the pool was last reset: credits granted by responses, credits
    spent on requests. *)

Record Ledger := mkLedger {
  lg_pool : CreditPool;
  lg_held : list CreditReservation;
  lg_granted : Z;
  lg_spent : Z
}.

Definition Ledger_new : Ledger := mkLedger CreditPool_new [] 0 0.

(** What can happen, in the order the pool sees it.  [EReserve] stands for both
    [try_reserve] and a waiting [reserve] at the moment it is served; [ESend]
    is [commit] once the bytes are out, [EDrop] an uncommitted drop of a request whose frame was not
    handed to the writer, [EAbandon] one of a request whose frame the writer will send. *)
Inductive event :=
| EGrant (n : Z)
| EReserve (charge : Z)
| ESend (i : nat)
| EDrop (i : nat)
| EAbandon (i : nat)
| EClose
| EReset.

Inductive step : Ledger → event → Ledger → Prop :=
| step_grant l n :
    is_u16 n →
    step l (EGrant n) (mkLedger (grant n (lg_pool l)) (lg_held l) (lg_granted l + n) (lg_spent l))
| step_reserve l c p' :
    is_u16 c → try_reserve c (lg_pool l) = (true, p') →
    step l (EReserve c)
      (mkLedger p' (CreditReservation_new c :: lg_held l) (lg_granted l) (lg_spent l))
| step_reserve_fail l c p' :
    is_u16 c → try_reserve c (lg_pool l) = (false, p') →
    step l (EReserve c) (mkLedger p' (lg_held l) (lg_granted l) (lg_spent l))
| step_send l i r :
    lg_held l !! i = Some r →
    step l (ESend i)
      (mkLedger (drop_reservation (commit r) (lg_pool l)) (delete i (lg_held l))
         (lg_granted l) (lg_spent l + res_charge r))
| step_drop l i r :
    lg_held l !! i = Some r →
    step l (EDrop i)
      (mkLedger (drop_reservation r (lg_pool l)) (delete i (lg_held l))
         (lg_granted l) (lg_spent l))
| step_abandon l i r :
    lg_held l !! i = Some r →
    step l (EAbandon i)
      (mkLedger (drop_reservation r (lg_pool l)) (delete i (lg_held l))
         (lg_granted l) (lg_spent l + res_charge r))
| step_close l :
    step l EClose (mkLedger (close (lg_pool l)) (lg_held l) (lg_granted l) (lg_spent l))
| step_reset l :
    step l EReset (mkLedger (reset (lg_pool l)) (lg_held l) 0 0).

(** States reachable through steps the guard admits. *)
Inductive reachable (guard : Ledger → event → Prop) : Ledger → Prop :=
| reachable_new : reachable guard Ledger_new
| reachable_step l e l' :
    reachable guard l → guard l e → step l e l' → reachable guard l'.

(** No task holds a reservation across a reset, and none is dropped between queueing its frame
    and the acknowledgment. *)
Definition orderly (l : Ledger) (e : event) : Prop :=
  (e = EReset → lg_held l = []) ∧ ∀ i, e ≠ EAbandon i.
Definition without_abandon (l : Ledger) (e : event) : Prop := ∀ i, e ≠ EAbandon i.
Definition without_reset (l : Ledger) (e : event) : Prop := e ≠ EReset.

Definition held_total (l : Ledger) : Z := foldr (λ r t, res_charge r + t) 0 (lg_held l).

(** The books balance: what was granted, and the one credit a connection starts
    with, is on hand, held by a task, or spent. *)
Record balanced (l : Ledger) : Prop := {
  bal_sum : available_permits (permits (lg_pool l)) + held_total l + lg_spent l
            = 1 + lg_granted l;
  bal_avail : 0 <= available_permits (permits (lg_pool l));
  bal_held : Forall (λ r, res_pool r = true ∧ is_u16 (res_charge r)) (lg_held l)
}.

Context `{!SemaphoreLaws Sem}.

(** ** Operations *)

Lemma grant_permits n p :
  0 <= n → available_permits (permits (grant n p)) = available_permits (permits p) + n.
Proof.
  intros Hn. unfold grant. case_test; cbn; [apply add_spec|]. lia.
Qed.

Lemma try_reserve_spec c p b p' :
  try_reserve c p = (b, p') →
  if b then sem_is_closed (permits p) = false ∧ c <= available_permits (permits p) ∧
            available_permits (permits p') = available_permits (permits p) - c ∧
            wait_ms p' = wait_ms p
  else p' = p ∧ (sem_is_closed (permits p) = true ∨ available_permits (permits p) < c).
Proof.
  unfold try_reserve. destruct (acquire_forget c (permits p)) as [s|] eqn:E; intros [= <- <-].
  - apply acquire_some in E as (? & ? & ? & _). done.
  - split; [done|]. destruct (sem_is_closed (permits p)) eqn:Ec; [by left|]. right.
    destruct (Z.lt_ge_cases (available_permits (permits p)) c) as [|Hge]; [done|].
    destruct (acquire_enough c (permits p) Ec Hge) as [s Hs]. congruence.
Qed.

Lemma try_reserve_open c p p' : try_reserve c p = (true, p') → sem_is_closed (permits p') = false.
Proof.
  unfold try_reserve. destruct (acquire_forget c (permits p)) as [s|] eqn:E; intros [= <-].
  by apply acquire_some in E as (_ & _ & _ & ?).
Qed.

Lemma held_total_delete l i r :
  lg_held l !! i = Some r →
  held_total l = res_charge r + foldr (λ r t, res_charge r + t) 0 (delete i (lg_held l)).
Proof.
  unfold held_total. generalize (lg_held l) as h. intros h. revert i.
  induction h as [|x h IH]; intros i Hi; [done|]. destruct i as [|i]; cbn in *.
  - by injection Hi as ->.
  - rewrite (IH i Hi), !Z.add_assoc, (Z.add_comm (res_charge x)). done.
Qed.

Lemma held_total_nonneg l :
  Forall (λ r, res_pool r = true ∧ is_u16 (res_charge r)) (lg_held l) → 0 <= held_total l.
Proof.
  unfold held_total, in_range. induction 1 as [|r h [_ Hr] _ IH]; cbn; [done|]. lia.
Qed.

Lemma Forall_delete_held {A} (P : A → Prop) l i : Forall P l → Forall P (delete i l).
Proof. revert i. induction l as [|x l IH]; intros [|i] HP; inversion_clear HP; cbn; auto. Qed.

Lemma step_balanced l e l' :
  balanced l → orderly l e → step l e l' → balanced l'.
Proof.
  intros [Hs Ha Hh] Hq Hst. inversion Hst; subst; clear Hst.
  - unfold in_range in *. constructor; cbn; [|rewrite grant_permits by lia; lia|done].
    rewrite grant_permits by lia. unfold held_total in *. cbn. lia.
  - match goal with E : try_reserve _ _ = _ |- _ => apply try_reserve_spec in E; cbn in E end.
    constructor; unfold held_total in *; cbn; [lia|lia|]. constructor; done.
  - match goal with E : try_reserve _ _ = _ |- _ => apply try_reserve_spec in E as [-> _] end.
    by constructor.
  - match goal with E : lg_held _ !! _ = _ |- _ => pose proof (held_total_delete _ _ _ E) as Hd end.
    constructor; cbn; [|done|by apply Forall_delete_held]. unfold held_total in *. cbn in *. lia.
  - match goal with E : lg_held _ !! _ = _ |- _ => pose proof (held_total_delete _ _ _ E) as Hd end.
    rewrite Forall_lookup in Hh.
    match goal with E : lg_held _ !! _ = _ |- _ => destruct (Hh _ _ E) as [Hp Hc] end.
    unfold in_range in Hc.
    unfold drop_reservation. rewrite Hp. unfold refund.
    constructor; cbn; rewrite ?grant_permits by lia; [|lia|].
    + unfold held_total in *. cbn in *. lia.
    + apply Forall_delete_held. by rewrite Forall_lookup.
  - exfalso. destruct Hq as [_ Hq]. by eapply Hq.
  - constructor; cbn; [|by rewrite (proj2 (close_spec _))|done].
    rewrite (proj2 (close_spec _)). exact Hs.
  - destruct Hq as [Hq _]. specialize (Hq eq_refl). constructor; cbn; rewrite ?(proj1 (new_permits 1)); [|lia|done].
    unfold held_total. cbn. by rewrite Hq.
Qed.

Lemma reachable_balanced l : reachable orderly l → balanced l.
Proof.
  induction 1 as [|l e l' _ IH Hq Hst]; [|by eapply step_balanced].
  constructor; cbn; rewrite ?(proj1 (new_permits 1)); done.
Qed.

Lemma request_for_u16 c p :
  is_u16 c → 0 <= available_permits (permits p) → is_u16 (request_for c p).
Proof.
  intros Hc Ha. unfold request_for, available, sat_add, sat_sub, CREDIT_TARGET, u_max, in_range in *.
  set (a := available_permits (permits p)) in *.
  rewrite trunc_small by (unfold in_range; lia). lia.
Qed.

Lemma reserve_drop c p p' :
  0 <= c → try_reserve c p = (true, p') →
  available_permits (permits (drop_reservation (CreditReservation_new c) p')) =
  available_permits (permits p).
Proof.
  intros Hc E. apply try_reserve_spec in E as (_ & _ & E & _).
  cbn [drop_reservation CreditReservation_new res_pool res_charge]. unfold refund.
  rewrite grant_permits by done. lia.
Qed.

(** ** Properties *)

(** C6: whatever the interleaving of grants, reservations, sends, drops
    and teardowns, as long as no reservation outlives the connection it was
    taken on and no request is dropped while its frame waits for the writer, credits on hand, held and spent add up to what the server granted
    plus the initial credit, so the client never spends credits it was not
    granted. *)
Theorem credits_never_overspent l :
  reachable orderly l →
  available_permits (permits (lg_pool l)) + held_total l + lg_spent l = 1 + lg_granted l ∧
  lg_spent l <= 1 + lg_granted l.
Proof.
  intros Hr. apply reachable_balanced in Hr as [Hs Ha Hh]. split; [done|].
  apply held_total_nonneg in Hh. lia.
Qed.

(** A reservation is granted exactly when the pool is open and holds
    the charge, takes exactly the charge, and an uncommitted drop puts exactly
    that back; a refused one changes nothing; a committed one stays spent. *)
Theorem reservation_exact c p :
  0 <= c →
  (try_reserve c p).1 = negb (is_closed p) && (c <=? available_permits (permits p)) ∧
  ((try_reserve c p).1 = true →
   available_permits (permits (try_reserve c p).2) = available_permits (permits p) - c) ∧
  ((try_reserve c p).1 = false → (try_reserve c p).2 = p) ∧
  ((try_reserve c p).1 = true →
   available_permits (permits (drop_reservation (CreditReservation_new c) (try_reserve c p).2))
     = available_permits (permits p)) ∧
  drop_reservation (commit (CreditReservation_new c)) (try_reserve c p).2 = (try_reserve c p).2.
Proof.
  intros Hc. destruct (try_reserve c p) as [b p'] eqn:E. apply try_reserve_spec in E.
  unfold is_closed. cbn [fst snd]. destruct b.
  - destruct E as (E1 & E2 & E3 & _). rewrite E1. split_and!; try done.
    + by replace (c <=? _) with true by lia.
    + intros _. cbn [drop_reservation CreditReservation_new res_pool res_charge]. unfold refund.
      rewrite grant_permits by done. lia.
  - destruct E as [-> [E|E]]; split_and!; try done; [by rewrite E|].
    replace (c <=? _) with false by lia. by rewrite andb_false_r.
Qed.

(** A request always asks for at least its own charge back, never
    more than a [u16] holds, and, short of that bound, for exactly what lifts
    the window to the target. *)
Theorem request_for_bounds c p :
  is_u16 c → 0 <= available_permits (permits p) →
  is_u16 (request_for c p) ∧ c <= request_for c p ∧
  (c + CREDIT_TARGET <= u_max 16 →
   request_for c p = c + Z.max 0 (CREDIT_TARGET - available_permits (permits p))).
Proof.
  intros Hc Ha. unfold request_for, available, sat_add, sat_sub, CREDIT_TARGET, u_max, in_range in *.
  set (a := available_permits (permits p)) in *.
  rewrite trunc_small by (unfold in_range; lia). lia.
Qed.

(** A reservation that outlives a reset is refunded into the new
    pool, so the revived connection spends credits its server never granted. *)
Theorem stale_reservation_overspends :
  ∃ l : Ledger, reachable without_abandon l ∧ lg_spent l > 1 + lg_granted l.
Proof.
  destruct (try_reserve 1 CreditPool_new) as [b1 p1] eqn:E1.
  pose proof (reservation_exact 1 CreditPool_new ltac:(lia)) as (Hb & _). rewrite E1 in Hb.
  unfold is_closed in Hb. cbn in Hb. destruct (new_permits 1) as [Hn Hc]. rewrite Hn, Hc in Hb.
  cbn in Hb. subst b1.
  set (p2 := reset p1). set (p3 := drop_reservation (CreditReservation_new 1) p2).
  assert (available_permits (permits p3) = 2) as H3.
  { unfold p3. cbn. by rewrite (proj1 (add_spec _ _)), Hn. }
  assert (sem_is_closed (permits p3) = false) as H3c.
  { unfold p3. cbn. by rewrite (proj2 (add_spec _ _)). }
  destruct (try_reserve 2 p3) as [b4 p4] eqn:E4.
  pose proof (reservation_exact 2 p3 ltac:(lia)) as (Hb & _). rewrite E4 in Hb.
  unfold is_closed in Hb. rewrite H3, H3c in Hb. cbn in Hb. subst b4.
  assert (reachable without_abandon (mkLedger p1 [CreditReservation_new 1] 0 0)) as R1.
  { eapply (reachable_step _ _ (EReserve 1)); [apply reachable_new|done|by apply step_reserve]. }
  assert (reachable without_abandon (mkLedger p2 [CreditReservation_new 1] 0 0)) as R2.
  { by eapply (reachable_step _ _ EReset); [exact R1|done|apply step_reset]. }
  assert (reachable without_abandon (mkLedger p3 [] 0 0)) as R3.
  { eapply (reachable_step _ _ (EDrop 0)); [exact R2|done|].
    exact (step_drop (mkLedger p2 [CreditReservation_new 1] 0 0) 0 _ eq_refl). }
  assert (reachable without_abandon (mkLedger p4 [CreditReservation_new 2] 0 0)) as R4.
  { eapply (reachable_step _ _ (EReserve 2)); [exact R3|done|by apply step_reserve]. }
  exists (mkLedger p4 [] 0 2). split; [|cbn; lia].
  eapply (reachable_step _ _ (ESend 0)); [exact R4|done|].
  exact (step_send (mkLedger p4 [CreditReservation_new 2] 0 0) 0 _ eq_refl).
Qed.

(** A request that is dropped while its frame waits for the writer is refunded and sent: one
    credit pays for two requests. *)
Theorem abandoned_reservation_overspends :
  ∃ l : Ledger, reachable without_reset l ∧ lg_spent l > 1 + lg_granted l.
Proof.
  destruct (try_reserve 1 CreditPool_new) as [b1 p1] eqn:E1. destruct (new_permits 1) as [Hn Hc].
  pose proof (reservation_exact 1 CreditPool_new ltac:(lia)) as (Hb & _). rewrite E1 in Hb.
  unfold is_closed in Hb. cbn in Hb. rewrite Hn, Hc in Hb. cbn in Hb. subst b1.
  pose proof (try_reserve_spec _ _ _ _ E1) as (_ & _ & Hp & _). cbn in Hp. rewrite Hn in Hp.
  set (p2 := drop_reservation (CreditReservation_new 1) p1).
  assert (available_permits (permits p2) = 1) as H2 by (cbn; rewrite (proj1 (add_spec _ _)); lia).
  assert (reachable without_reset (mkLedger p1 [CreditReservation_new 1] 0 0)) as R1.
  { eapply (reachable_step _ _ (EReserve 1)); [apply reachable_new|done|by apply step_reserve]. }
  assert (reachable without_reset (mkLedger p2 [] 0 1)) as R2.
  { eapply (reachable_step _ _ (EAbandon 0)); [exact R1|done|].
    exact (step_abandon (mkLedger p1 [CreditReservation_new 1] 0 0) 0 _ eq_refl). }
  assert (sem_is_closed (permits p1) = false) as Hc1 by (eapply try_reserve_open; exact E1).
  destruct (try_reserve 1 p2) as [b3 p3] eqn:E3.
  pose proof (reservation_exact 1 p2 ltac:(lia)) as (Hb & _). rewrite E3 in Hb. unfold is_closed in Hb.
  assert (sem_is_closed (permits p2) = false) as H2c by (cbn; by rewrite (proj2 (add_spec _ _))).
  rewrite H2, H2c in Hb. cbn in Hb. subst b3.
  assert (reachable without_reset (mkLedger p3 [CreditReservation_new 1] 0 1)) as R3.
  { eapply (reachable_step _ _ (EReserve 1)); [exact R2|done|by apply step_reserve]. }
  exists (mkLedger p3 [] 0 2). split; [|cbn; lia].
  eapply (reachable_step _ _ (ESend 0)); [exact R3|done|].
  exact (step_send (mkLedger p3 [CreditReservation_new 1] 0 1) 0 _ eq_refl).
Qed.

End pool.

(** ** Witnesses: a semaphore as a permit count and a closed flag *)

#[global] Instance toy_sem : Semaphore (Z * bool) := {
  sem_new n := (n, false);
  available_permits s := s.1;
  sem_is_closed s := s.2;
  add_permits n s := (s.1 + n, s.2);
  acquire_forget n s := if negb s.2 && (n <=? s.1) then Some (s.1 - n, false) else None;
  sem_close s := (s.1, true)
}.

#[global] Instance toy_sem_laws : SemaphoreLaws (Z * bool).
Proof.
  split; cbn; try done.
  - intros n [a []] s' H; cbn in *; [done|]. case_test; [|done]. injection H as <-. cbn. lia.
  - intros n [a []] Hc Hn; cbn in *; [done|]. replace (n <=? a) with true by lia. eauto.
Qed.

Lemma credits_never_overspent_witness :
  lg_spent (Sem := Z * bool) (mkLedger (mkCreditPool (0, false) DEFAULT_CREDIT_WAIT) [] 0 1)
    <= 1 + 0.
Proof.
  apply (credits_never_overspent
           (mkLedger (mkCreditPool (0, false) DEFAULT_CREDIT_WAIT) [] 0 1)).
  eapply (reachable_step _ _ (ESend 0)); [|done|].
  { eapply (reachable_step _ _ (EReserve 1)); [apply reachable_new|done|].
    apply step_reserve with (p' := mkCreditPool (0, false) DEFAULT_CREDIT_WAIT); done. }
  by apply step_send with (r := CreditReservation_new 1).
Defined.

Lemma reservation_exact_witness :
  (try_reserve 8 (mkCreditPool (10, false) DEFAULT_CREDIT_WAIT)).1 = true.
Proof.
  rewrite (proj1 (reservation_exact 8 (mkCreditPool (10, false) DEFAULT_CREDIT_WAIT) ltac:(lia))).
  reflexivity.
Defined.

Lemma request_for_bounds_witness :
  request_for 8 (mkCreditPool (12, false) DEFAULT_CREDIT_WAIT) = 508.
Proof.
  destruct (request_for_bounds 8 (mkCreditPool (12, false) DEFAULT_CREDIT_WAIT)) as (_ & _ & E);
    [done|done|]. by apply E.
Defined.

Lemma stale_reservation_overspends_witness :
  ∃ l : Ledger (Sem := Z * bool), reachable without_abandon l ∧ lg_spent l > 1 + lg_granted l.
Proof. apply stale_reservation_overspends. Defined.
