(* ===== verification/Oplock.v ===== *)
(** * OPLOCK_BREAK messages ([src/msg/oplock_break.rs])

    One 24-byte body serves as notification, acknowledgment and response. *)

From S2P Require Import Prelude Types Pack Codec Header.

Record OplockBreak := mkOplockBreak { ob_oplock_level : OplockLevel; ob_file_id : FileId }.
Definition OplockBreak_STRUCTURE_SIZE : Z := 24.

#[global] Instance OplockBreak_pack : Pack OplockBreak := λ m,
  write_u16_le OplockBreak_STRUCTURE_SIZE ;;
  write_u8 (OplockLevel_code (ob_oplock_level m)) ;;
  write_u8 0 ;;
  write_u32_le 0 ;;
  write_file_id (ob_file_id m).

#[global] Instance OplockBreak_unpack : Unpack OplockBreak :=
  structure_size ← read_u16_le;
  fail_if (negb (structure_size =? OplockBreak_STRUCTURE_SIZE))
    (invalid_data "invalid OplockBreak structure size: expected {}, got {}") ;;
  level_raw ← read_u8;
  oplock_level ← try_enum (OplockLevel_try_from level_raw) "invalid OplockLevel: {}";
  _reserved ← read_u8;
  _reserved2 ← read_u32_le;
  file_id ← read_file_id;
  mret (mkOplockBreak oplock_level file_id).

#[global] Program Instance OplockBreak_codec : Codec OplockBreak := {
  codec_wf m := FileId_wf (ob_file_id m);
  codec_layout _ m :=
    to_le 2 24 ++ [byte_of_u8 (OplockLevel_code (ob_oplock_level m))] ++ [byte_of_u8 0]
    ++ to_le 4 0 ++ (to_le 8 (persistent (ob_file_id m)) ++ to_le 8 (volatile (ob_file_id m)))
}.
Next Obligation. intros p m _ _. unfold writes_at, pack, OplockBreak_pack. wsteps. wdone. Qed.
Next Obligation.
  intros p [l f] _ Hf. cbn [ob_oplock_level ob_file_id] in *.
  unfold unpack, OplockBreak_unpack. rsteps.
Qed.
Next Obligation. unfold unpack, OplockBreak_unpack. roks. by apply rok_ret. Qed.
