(* ===== verification/Session.v ===== *)
(** * SESSION_SETUP, TREE_CONNECT and CHANGE_NOTIFY messages

    Models [src/msg/session_setup.rs], [src/msg/tree_connect.rs] and
    [src/msg/change_notify.rs]: bodies, flag words, [Pack] and [Unpack], and a
    [Codec] instance for each body. *)

From S2P Require Import Prelude Types Pack Codec Utf16 Header.

(** ** SESSION_SETUP *)

Module SessionSetupRequestFlags.
Definition BINDING : Z := 0x01.
Definition is_binding (f : Z) : bool := negb (Z.land f BINDING =? 0).
End SessionSetupRequestFlags.

Module SessionFlags.
Definition IS_GUEST : Z := 0x0001.
Definition IS_NULL : Z := 0x0002.
Definition ENCRYPT_DATA : Z := 0x0004.
Definition is_guest (f : Z) : bool := negb (Z.land f IS_GUEST =? 0).
Definition is_null (f : Z) : bool := negb (Z.land f IS_NULL =? 0).
Definition encrypt_data (f : Z) : bool := negb (Z.land f ENCRYPT_DATA =? 0).
End SessionFlags.

Record SessionSetupRequest := mkSessionSetupRequest {
  ssq_flags : Z;
  ssq_security_mode : Z;
  ssq_capabilities : Z;
  ssq_channel : Z;
  ssq_previous_session_id : Z;
  ssq_security_buffer : bytes
}.
Definition SessionSetupRequest_STRUCTURE_SIZE : Z := 25.

#[global] Instance SessionSetupRequest_pack : Pack SessionSetupRequest := λ m,
  write_u16_le SessionSetupRequest_STRUCTURE_SIZE ;;
  write_u8 (ssq_flags m) ;;
  write_u8 (trunc 8 (ssq_security_mode m)) ;;
  write_u32_le (ssq_capabilities m) ;;
  write_u32_le (ssq_channel m) ;;
  let offset := trunc 16 (Header_SIZE + 24) in
  write_u16_le offset ;;
  write_u16_le (trunc 16 (len (ssq_security_buffer m))) ;;
  write_u64_le (ssq_previous_session_id m) ;;
  write_bytes (ssq_security_buffer m).

#[global] Instance SessionSetupRequest_unpack : Unpack SessionSetupRequest :=
  structure_size ← read_u16_le;
  fail_if (negb (structure_size =? SessionSetupRequest_STRUCTURE_SIZE))
    (invalid_data "invalid SessionSetupRequest structure size: expected {}, got {}") ;;
  flags ← read_u8;
  security_mode ← read_u8;
  capabilities ← read_u32_le;
  channel ← read_u32_le;
  _offset ← read_u16_le;
  buffer_length ← read_u16_le;
  previous_session_id ← read_u64_le;
  security_buffer ← read_opt_bounded buffer_length;
  mret (mkSessionSetupRequest flags security_mode capabilities channel previous_session_id
          security_buffer).

Record SessionSetupResponse := mkSessionSetupResponse {
  ssr_session_flags : Z;
  ssr_security_buffer : bytes
}.
Definition SessionSetupResponse_STRUCTURE_SIZE : Z := 9.

#[global] Instance SessionSetupResponse_pack : Pack SessionSetupResponse := λ m,
  write_u16_le SessionSetupResponse_STRUCTURE_SIZE ;;
  write_u16_le (ssr_session_flags m) ;;
  let offset := trunc 16 (Header_SIZE + 8) in
  write_u16_le offset ;;
  write_u16_le (trunc 16 (len (ssr_security_buffer m))) ;;
  write_bytes (ssr_security_buffer m).

#[global] Instance SessionSetupResponse_unpack : Unpack SessionSetupResponse :=
  structure_size ← read_u16_le;
  fail_if (negb (structure_size =? SessionSetupResponse_STRUCTURE_SIZE))
    (invalid_data "invalid SessionSetupResponse structure size: expected {}, got {}") ;;
  session_flags ← read_u16_le;
  _offset ← read_u16_le;
  buffer_length ← read_u16_le;
  security_buffer ← read_opt_bounded buffer_length;
  mret (mkSessionSetupResponse session_flags security_buffer).

(** ** TREE_CONNECT *)

Inductive ShareType := DiskShare | PipeShare | PrintShare.

Definition ShareType_code (s : ShareType) : Z :=
  match s with DiskShare => 1 | PipeShare => 2 | PrintShare => 3 end.

Definition ShareType_try_from_u8 : Z → option ShareType :=
  enum_try_from ShareType_code [DiskShare; PipeShare; PrintShare].

Module TreeConnectRequestFlags.
Definition CLUSTER_RECONNECT : Z := 0x0001.
Definition REDIRECT_TO_OWNER : Z := 0x0002.
Definition EXTENSION_PRESENT : Z := 0x0004.
End TreeConnectRequestFlags.

Record TreeConnectRequest := mkTreeConnectRequest { tcq_flags : Z; tcq_path : list Z }.
Definition TreeConnectRequest_STRUCTURE_SIZE : Z := 9.

#[global] Instance TreeConnectRequest_pack : Pack TreeConnectRequest := λ m,
  write_u16_le TreeConnectRequest_STRUCTURE_SIZE ;;
  write_u16_le (tcq_flags m) ;;
  let path_byte_len := len (encode_utf16 (tcq_path m)) * 2 in
  let offset := trunc 16 (Header_SIZE + 8) in
  write_u16_le offset ;;
  write_u16_le (trunc 16 path_byte_len) ;;
  write_utf16_le (tcq_path m).

#[global] Instance TreeConnectRequest_unpack : Unpack TreeConnectRequest :=
  structure_size ← read_u16_le;
  fail_if (negb (structure_size =? TreeConnectRequest_STRUCTURE_SIZE))
    (invalid_data "invalid TreeConnectRequest structure size: expected {}, got {}") ;;
  flags ← read_u16_le;
  _offset ← read_u16_le;
  path_length ← read_u16_le;
  fail_if (path_length >? MAX_UNPACK_BUFFER)
    (invalid_data "buffer size {} exceeds maximum {} bytes") ;;
  path ← read_utf16_le path_length;
  mret (mkTreeConnectRequest flags path).

Record TreeConnectResponse := mkTreeConnectResponse {
  tcr_share_type : ShareType;
  tcr_share_flags : Z;
  tcr_capabilities : Z;
  tcr_maximal_access : Z
}.
Definition TreeConnectResponse_STRUCTURE_SIZE : Z := 16.

#[global] Instance TreeConnectResponse_pack : Pack TreeConnectResponse := λ m,
  write_u16_le TreeConnectResponse_STRUCTURE_SIZE ;;
  write_u8 (ShareType_code (tcr_share_type m)) ;;
  write_u8 0 ;;
  write_u32_le (tcr_share_flags m) ;;
  write_u32_le (tcr_capabilities m) ;;
  write_u32_le (tcr_maximal_access m).

#[global] Instance TreeConnectResponse_unpack : Unpack TreeConnectResponse :=
  structure_size ← read_u16_le;
  fail_if (negb (structure_size =? TreeConnectResponse_STRUCTURE_SIZE))
    (invalid_data "invalid TreeConnectResponse structure size: expected {}, got {}") ;;
  type_raw ← read_u8;
  share_type ← try_enum (ShareType_try_from_u8 type_raw) "invalid share type: 0x{:02X}";
  _reserved ← read_u8;
  share_flags ← read_u32_le;
  capabilities ← read_u32_le;
  maximal_access ← read_u32_le;
  mret (mkTreeConnectResponse share_type share_flags capabilities maximal_access).

(** ** CHANGE_NOTIFY *)

Definition SMB2_WATCH_TREE : Z := 0x0001.
Definition FILE_NOTIFY_CHANGE_FILE_NAME : Z := 0x00000001.
Definition FILE_NOTIFY_CHANGE_DIR_NAME : Z := 0x00000002.
Definition FILE_NOTIFY_CHANGE_ATTRIBUTES : Z := 0x00000004.
Definition FILE_NOTIFY_CHANGE_SIZE : Z := 0x00000008.
Definition FILE_NOTIFY_CHANGE_LAST_WRITE : Z := 0x00000010.
Definition FILE_NOTIFY_CHANGE_LAST_ACCESS : Z := 0x00000020.
Definition FILE_NOTIFY_CHANGE_CREATION : Z := 0x00000040.

Record ChangeNotifyRequest := mkChangeNotifyRequest {
  cnq_flags : Z;
  cnq_output_buffer_length : Z;
  cnq_file_id : FileId;
  cnq_completion_filter : Z
}.
Definition ChangeNotifyRequest_STRUCTURE_SIZE : Z := 32.

#[global] Instance ChangeNotifyRequest_pack : Pack ChangeNotifyRequest := λ m,
  write_u16_le ChangeNotifyRequest_STRUCTURE_SIZE ;;
  write_u16_le (cnq_flags m) ;;
  write_u32_le (cnq_output_buffer_length m) ;;
  write_file_id (cnq_file_id m) ;;
  write_u32_le (cnq_completion_filter m) ;;
  write_u32_le 0.

#[global] Instance ChangeNotifyRequest_unpack : Unpack ChangeNotifyRequest :=
  structure_size ← read_u16_le;
  fail_if (negb (structure_size =? ChangeNotifyRequest_STRUCTURE_SIZE))
    (invalid_data "invalid ChangeNotifyRequest structure size: expected {}, got {}") ;;
  flags ← read_u16_le;
  output_buffer_length ← read_u32_le;
  file_id ← read_file_id;
  completion_filter ← read_u32_le;
  _reserved ← read_u32_le;
  mret (mkChangeNotifyRequest flags output_buffer_length file_id completion_filter).

Record ChangeNotifyResponse := mkChangeNotifyResponse { cnr_output_data : bytes }.
Definition ChangeNotifyResponse_STRUCTURE_SIZE : Z := 9.
Definition ChangeNotifyResponse_FIXED_SIZE : Z := 8.

(** The offset is counted from the start of the buffer and not from the SMB2
    header. *)
Definition notify_offset (start output_len : Z) : Z :=
  if output_len >? 0 then trunc 32 start + ChangeNotifyResponse_FIXED_SIZE else 0.

#[global] Instance ChangeNotifyResponse_pack : Pack ChangeNotifyResponse := λ m,
  start ← wc_position;
  write_u16_le ChangeNotifyResponse_STRUCTURE_SIZE ;;
  let output_len := trunc 32 (len (cnr_output_data m)) in
  write_u16_le (trunc 16 (notify_offset start output_len)) ;;
  write_u32_le output_len ;;
  write_bytes (cnr_output_data m).

#[global] Instance ChangeNotifyResponse_unpack : Unpack ChangeNotifyResponse :=
  structure_size ← read_u16_le;
  fail_if (negb (structure_size =? ChangeNotifyResponse_STRUCTURE_SIZE))
    (invalid_data "invalid ChangeNotifyResponse structure size: expected {}, got {}") ;;
  _output_buffer_offset ← read_u16_le;
  output_buffer_length ← read_u32_le;
  output_data ← read_opt_bounded output_buffer_length;
  mret (mkChangeNotifyResponse output_data).

(** ** Codecs *)

Record SessionSetupRequest_wf (m : SessionSetupRequest) : Prop := {
  ssqw_flags : is_u8 (ssq_flags m);
  ssqw_mode : is_u8 (ssq_security_mode m);
  ssqw_caps : is_u32 (ssq_capabilities m);
  ssqw_channel : is_u32 (ssq_channel m);
  ssqw_prev : is_u64 (ssq_previous_session_id m);
  ssqw_token : is_u16 (len (ssq_security_buffer m))
}.

#[global] Program Instance SessionSetupRequest_codec : Codec SessionSetupRequest := {
  codec_wf := SessionSetupRequest_wf;
  codec_layout _ m :=
    to_le 2 25 ++ [byte_of_u8 (ssq_flags m)] ++ [byte_of_u8 (ssq_security_mode m)]
    ++ to_le 4 (ssq_capabilities m) ++ to_le 4 (ssq_channel m) ++ to_le 2 88
    ++ to_le 2 (len (ssq_security_buffer m)) ++ to_le 8 (ssq_previous_session_id m)
    ++ ssq_security_buffer m
}.
Next Obligation.
  intros p m _ [_ Hm _ _ _ _]. unfold writes_at, pack, SessionSetupRequest_pack.
  rewrite (trunc_small 8) by done. wsteps. cbv zeta. wsteps. wtrunc. wdone.
Qed.
Next Obligation.
  intros p [f sm c ch pr b] _ [H1 H2 H3 H4 H5 H6]. unfold unpack, SessionSetupRequest_unpack.
  cbn [ssq_flags ssq_security_mode ssq_capabilities ssq_channel ssq_previous_session_id
       ssq_security_buffer] in *.
  assert (len b <= MAX_UNPACK_BUFFER) by (unfold in_range, MAX_UNPACK_BUFFER in *; lia). rsteps.
Qed.
Next Obligation. unfold unpack, SessionSetupRequest_unpack. roks. by apply rok_ret. Qed.

Definition SessionSetupResponse_wf (m : SessionSetupResponse) : Prop :=
  is_u16 (ssr_session_flags m) ∧ is_u16 (len (ssr_security_buffer m)).

#[global] Program Instance SessionSetupResponse_codec : Codec SessionSetupResponse := {
  codec_wf := SessionSetupResponse_wf;
  codec_layout _ m :=
    to_le 2 9 ++ to_le 2 (ssr_session_flags m) ++ to_le 2 72
    ++ to_le 2 (len (ssr_security_buffer m)) ++ ssr_security_buffer m
}.
Next Obligation.
  intros p m _ _. unfold writes_at, pack, SessionSetupResponse_pack. wsteps. cbv zeta. wsteps. wtrunc. wdone.
Qed.
Next Obligation.
  intros p [f b] _ [H1 H2]. unfold unpack, SessionSetupResponse_unpack.
  cbn [ssr_session_flags ssr_security_buffer] in *.
  assert (len b <= MAX_UNPACK_BUFFER) by (unfold in_range, MAX_UNPACK_BUFFER in *; lia). rsteps.
Qed.
Next Obligation. unfold unpack, SessionSetupResponse_unpack. roks. by apply rok_ret. Qed.

Lemma ShareType_try_from_code s : ShareType_try_from_u8 (ShareType_code s) = Some s.
Proof. by destruct s. Qed.
Lemma ShareType_code_u8 s : is_u8 (ShareType_code s).
Proof. by destruct s. Qed.
#[export] Hint Resolve ShareType_try_from_code ShareType_code_u8 : smb.

Definition TreeConnectRequest_wf (m : TreeConnectRequest) : Prop :=
  is_u16 (tcq_flags m) ∧ str_wf (tcq_path m) ∧ is_u16 (len (utf16_le_bytes (tcq_path m))).

#[global] Program Instance TreeConnectRequest_codec : Codec TreeConnectRequest := {
  codec_wf := TreeConnectRequest_wf;
  codec_layout _ m :=
    to_le 2 9 ++ to_le 2 (tcq_flags m) ++ to_le 2 72
    ++ to_le 2 (len (utf16_le_bytes (tcq_path m))) ++ utf16_le_bytes (tcq_path m)
}.
Next Obligation.
  intros p m _ _. unfold writes_at, pack, TreeConnectRequest_pack. wsteps. cbv zeta.
  unfold utf16_le_bytes at 1. rewrite len_units, Z.mul_comm. wsteps. wtrunc. wdone.
Qed.
Next Obligation.
  intros p [f s] _ (H1 & H2 & H3). unfold unpack, TreeConnectRequest_unpack.
  cbn [tcq_flags tcq_path] in *.
  assert (len (utf16_le_bytes s) <= MAX_UNPACK_BUFFER) by (unfold in_range, MAX_UNPACK_BUFFER in *; lia).
  repeat rstep.
  eapply reads_bind_nil; [by apply reads_utf16|]. apply reads_ret.
Qed.
Next Obligation. unfold unpack, TreeConnectRequest_unpack. roks. by apply rok_ret. Qed.

Definition TreeConnectResponse_wf (m : TreeConnectResponse) : Prop :=
  is_u32 (tcr_share_flags m) ∧ is_u32 (tcr_capabilities m) ∧ is_u32 (tcr_maximal_access m).

#[global] Program Instance TreeConnectResponse_codec : Codec TreeConnectResponse := {
  codec_wf := TreeConnectResponse_wf;
  codec_layout _ m :=
    to_le 2 16 ++ [byte_of_u8 (ShareType_code (tcr_share_type m))] ++ [byte_of_u8 0]
    ++ to_le 4 (tcr_share_flags m) ++ to_le 4 (tcr_capabilities m) ++ to_le 4 (tcr_maximal_access m)
}.
Next Obligation. intros p m _ _. unfold writes_at, pack, TreeConnectResponse_pack. wsteps. wdone. Qed.
Next Obligation.
  intros p [t f c a] _ (H1 & H2 & H3). unfold unpack, TreeConnectResponse_unpack.
  cbn [tcr_share_type tcr_share_flags tcr_capabilities tcr_maximal_access] in *. rsteps.
Qed.
Next Obligation. unfold unpack, TreeConnectResponse_unpack. roks. by apply rok_ret. Qed.

Definition ChangeNotifyRequest_wf (m : ChangeNotifyRequest) : Prop :=
  is_u16 (cnq_flags m) ∧ is_u32 (cnq_output_buffer_length m) ∧ FileId_wf (cnq_file_id m) ∧
  is_u32 (cnq_completion_filter m).

#[global] Program Instance ChangeNotifyRequest_codec : Codec ChangeNotifyRequest := {
  codec_wf := ChangeNotifyRequest_wf;
  codec_layout _ m :=
    to_le 2 32 ++ to_le 2 (cnq_flags m) ++ to_le 4 (cnq_output_buffer_length m)
    ++ (to_le 8 (persistent (cnq_file_id m)) ++ to_le 8 (volatile (cnq_file_id m)))
    ++ to_le 4 (cnq_completion_filter m) ++ to_le 4 0
}.
Next Obligation. intros p m _ _. unfold writes_at, pack, ChangeNotifyRequest_pack. wsteps. wdone. Qed.
Next Obligation.
  intros p [f o i c] _ (H1 & H2 & H3 & H4). unfold unpack, ChangeNotifyRequest_unpack.
  cbn [cnq_flags cnq_output_buffer_length cnq_file_id cnq_completion_filter] in *. rsteps.
Qed.
Next Obligation. unfold unpack, ChangeNotifyRequest_unpack. roks. by apply rok_ret. Qed.

Definition ChangeNotifyResponse_wf (m : ChangeNotifyResponse) : Prop :=
  len (cnr_output_data m) <= MAX_UNPACK_BUFFER.

#[global] Program Instance ChangeNotifyResponse_codec : Codec ChangeNotifyResponse := {
  codec_wf := ChangeNotifyResponse_wf;
  codec_layout p m :=
    to_le 2 9 ++ to_le 2 (trunc 16 (notify_offset p (trunc 32 (len (cnr_output_data m)))))
    ++ to_le 4 (len (cnr_output_data m)) ++ cnr_output_data m
}.
Next Obligation.
  intros p m _ _. unfold writes_at, pack, ChangeNotifyResponse_pack. wsteps. cbv zeta.
  change (len (@nil byte)) with 0. rewrite Z.add_0_r. wsteps. wtrunc. wdone.
Qed.
Next Obligation.
  intros p [d] _ H. unfold unpack, ChangeNotifyResponse_unpack, ChangeNotifyResponse_wf in *.
  cbn [cnr_output_data] in *. repeat rstep.
  eapply reads_bind; [apply reads_u16; by apply trunc_range|]. rsteps.
Qed.
Next Obligation. unfold unpack, ChangeNotifyResponse_unpack. roks. by apply rok_ret. Qed.
