(* ===== verification/Query.v ===== *)
(** * QUERY_INFO, SET_INFO and QUERY_DIRECTORY messages

    Models [src/msg/query_info.rs], [src/msg/set_info.rs] and
    [src/msg/query_directory.rs].  They share one idiom: a variable buffer at the
    end of the body, whose offset from the SMB2 header is patched into the fixed
    part when there is one. *)

From S2P Require Import Prelude Types Pack Codec Utf16 Header FileIo Create.

(** ** The trailing buffer *)

(** [if !buf.is_empty() { ...; cursor.set_u16_le_at(offset_pos, ...) }] *)
Definition write_buffer (start offset_pos : Z) (buf : bytes) : Writer unit :=
  if negb (is_empty buf) then
    here ← wc_position;
    let buf_offset := Header_SIZE + (here - start) in
    write_bytes buf ;;
    set_u16_le_at offset_pos (trunc 16 buf_offset)
  else mret tt.

(** [if length > 0 { skip to the offset; read_bytes_bounded(length) }] *)
Definition read_buffer (start offset length : Z) : Reader bytes :=
  if length >? 0 then seek_body_offset start offset ;; read_bytes_bounded length else mret [].

(** ** QUERY_INFO *)

Inductive InfoType := InfoFile | InfoFilesystem | InfoSecurity | InfoQuota.

Definition InfoType_code (t : InfoType) : Z :=
  match t with InfoFile => 1 | InfoFilesystem => 2 | InfoSecurity => 3 | InfoQuota => 4 end.

Definition InfoType_try_from : Z → option InfoType :=
  enum_try_from InfoType_code [InfoFile; InfoFilesystem; InfoSecurity; InfoQuota].

Record QueryInfoRequest := mkQueryInfoRequest {
  qiq_info_type : InfoType;
  qiq_file_info_class : Z;
  qiq_output_buffer_length : Z;
  qiq_additional_information : Z;
  qiq_flags : Z;
  qiq_file_id : FileId;
  qiq_input_buffer : bytes
}.
Definition QueryInfoRequest_STRUCTURE_SIZE : Z := 41.

#[global] Instance QueryInfoRequest_pack : Pack QueryInfoRequest := λ m,
  start ← wc_position;
  write_u16_le QueryInfoRequest_STRUCTURE_SIZE ;;
  write_u8 (InfoType_code (qiq_info_type m)) ;;
  write_u8 (qiq_file_info_class m) ;;
  write_u32_le (qiq_output_buffer_length m) ;;
  input_offset_pos ← wc_position;
  write_u16_le 0 ;;
  write_u16_le 0 ;;
  write_u32_le (trunc 32 (len (qiq_input_buffer m))) ;;
  write_u32_le (qiq_additional_information m) ;;
  write_u32_le (qiq_flags m) ;;
  write_file_id (qiq_file_id m) ;;
  write_buffer start input_offset_pos (qiq_input_buffer m).

#[global] Instance QueryInfoRequest_unpack : Unpack QueryInfoRequest :=
  start ← rc_position;
  structure_size ← read_u16_le;
  fail_if (negb (structure_size =? QueryInfoRequest_STRUCTURE_SIZE))
    (invalid_data "invalid QueryInfoRequest structure size: expected {}, got {}") ;;
  type_raw ← read_u8;
  info_type ← try_enum (InfoType_try_from type_raw) "invalid InfoType: 0x{:02X}";
  file_info_class ← read_u8;
  output_buffer_length ← read_u32_le;
  input_offset ← read_u16_le;
  _reserved ← read_u16_le;
  input_length ← read_u32_le;
  additional_information ← read_u32_le;
  flags ← read_u32_le;
  file_id ← read_file_id;
  input_buffer ← read_buffer start input_offset input_length;
  mret (mkQueryInfoRequest info_type file_info_class output_buffer_length additional_information
          flags file_id input_buffer).

Record QueryInfoResponse := mkQueryInfoResponse { qir_output_buffer : bytes }.
Definition QueryInfoResponse_STRUCTURE_SIZE : Z := 9.

#[global] Instance QueryInfoResponse_pack : Pack QueryInfoResponse := λ m,
  start ← wc_position;
  write_u16_le QueryInfoResponse_STRUCTURE_SIZE ;;
  offset_pos ← wc_position;
  write_u16_le 0 ;;
  write_u32_le (trunc 32 (len (qir_output_buffer m))) ;;
  write_buffer start offset_pos (qir_output_buffer m).

#[global] Instance QueryInfoResponse_unpack : Unpack QueryInfoResponse :=
  start ← rc_position;
  structure_size ← read_u16_le;
  fail_if (negb (structure_size =? QueryInfoResponse_STRUCTURE_SIZE))
    (invalid_data "invalid QueryInfoResponse structure size: expected {}, got {}") ;;
  buf_offset ← read_u16_le;
  buf_length ← read_u32_le;
  output_buffer ← read_buffer start buf_offset buf_length;
  mret (mkQueryInfoResponse output_buffer).

(** ** SET_INFO *)

Record SetInfoRequest := mkSetInfoRequest {
  siq_info_type : InfoType;
  siq_file_info_class : Z;
  siq_additional_information : Z;
  siq_file_id : FileId;
  siq_buffer : bytes
}.
Definition SetInfoRequest_STRUCTURE_SIZE : Z := 33.

#[global] Instance SetInfoRequest_pack : Pack SetInfoRequest := λ m,
  start ← wc_position;
  write_u16_le SetInfoRequest_STRUCTURE_SIZE ;;
  write_u8 (InfoType_code (siq_info_type m)) ;;
  write_u8 (siq_file_info_class m) ;;
  write_u32_le (trunc 32 (len (siq_buffer m))) ;;
  offset_pos ← wc_position;
  write_u16_le 0 ;;
  write_u16_le 0 ;;
  write_u32_le (siq_additional_information m) ;;
  write_file_id (siq_file_id m) ;;
  write_buffer start offset_pos (siq_buffer m).

#[global] Instance SetInfoRequest_unpack : Unpack SetInfoRequest :=
  start ← rc_position;
  structure_size ← read_u16_le;
  fail_if (negb (structure_size =? SetInfoRequest_STRUCTURE_SIZE))
    (invalid_data "invalid SetInfoRequest structure size: expected {}, got {}") ;;
  type_raw ← read_u8;
  info_type ← try_enum (InfoType_try_from type_raw) "invalid InfoType: 0x{:02X}";
  file_info_class ← read_u8;
  buffer_length ← read_u32_le;
  buf_offset ← read_u16_le;
  _reserved ← read_u16_le;
  additional_information ← read_u32_le;
  file_id ← read_file_id;
  buffer ← read_buffer start buf_offset buffer_length;
  mret (mkSetInfoRequest info_type file_info_class additional_information file_id buffer).

Inductive SetInfoResponse := mkSetInfoResponse.
Definition SetInfoResponse_STRUCTURE_SIZE : Z := 2.

#[global] Instance SetInfoResponse_pack : Pack SetInfoResponse := λ _,
  write_u16_le SetInfoResponse_STRUCTURE_SIZE.

#[global] Instance SetInfoResponse_unpack : Unpack SetInfoResponse :=
  structure_size ← read_u16_le;
  fail_if (negb (structure_size =? SetInfoResponse_STRUCTURE_SIZE))
    (invalid_data "invalid SetInfoResponse structure size: expected {}, got {}") ;;
  mret mkSetInfoResponse.

(** ** QUERY_DIRECTORY *)

Inductive FileInformationClass :=
| FileDirectoryInformation | FileFullDirectoryInformation | FileBothDirectoryInformation
| FileNamesInformation | FileIdBothDirectoryInformation | FileIdFullDirectoryInformation.

Definition FileInformationClass_code (c : FileInformationClass) : Z :=
  match c with
  | FileDirectoryInformation => 0x01 | FileFullDirectoryInformation => 0x02
  | FileBothDirectoryInformation => 0x03 | FileNamesInformation => 0x0C
  | FileIdBothDirectoryInformation => 0x25 | FileIdFullDirectoryInformation => 0x26
  end.

Definition FileInformationClass_try_from : Z → option FileInformationClass :=
  enum_try_from FileInformationClass_code
    [FileDirectoryInformation; FileFullDirectoryInformation; FileBothDirectoryInformation;
     FileNamesInformation; FileIdBothDirectoryInformation; FileIdFullDirectoryInformation].

Module QueryDirectoryFlags.
Definition RESTART_SCANS : Z := 0x01.
Definition RETURN_SINGLE_ENTRY : Z := 0x02.
Definition INDEX_SPECIFIED : Z := 0x04.
Definition REOPEN : Z := 0x10.
End QueryDirectoryFlags.

Record QueryDirectoryRequest := mkQueryDirectoryRequest {
  qdq_file_information_class : FileInformationClass;
  qdq_flags : Z;
  qdq_file_index : Z;
  qdq_file_id : FileId;
  qdq_output_buffer_length : Z;
  qdq_file_name : list Z
}.
Definition QueryDirectoryRequest_STRUCTURE_SIZE : Z := 33.

#[global] Instance QueryDirectoryRequest_pack : Pack QueryDirectoryRequest := λ m,
  start ← wc_position;
  write_u16_le QueryDirectoryRequest_STRUCTURE_SIZE ;;
  write_u8 (FileInformationClass_code (qdq_file_information_class m)) ;;
  write_u8 (qdq_flags m) ;;
  write_u32_le (qdq_file_index m) ;;
  write_file_id (qdq_file_id m) ;;
  name_offset_pos ← wc_position;
  write_u16_le 0 ;;
  name_length_pos ← wc_position;
  write_u16_le 0 ;;
  write_u32_le (qdq_output_buffer_length m) ;;
  if is_empty (qdq_file_name m) then write_u8 0
  else
    here ← wc_position;
    let name_offset := Header_SIZE + (here - start) in
    name_start ← wc_position;
    write_utf16_le (qdq_file_name m) ;;
    name_end ← wc_position;
    let name_byte_len := name_end - name_start in
    set_u16_le_at name_offset_pos (trunc 16 name_offset) ;;
    set_u16_le_at name_length_pos (trunc 16 name_byte_len).

#[global] Instance QueryDirectoryRequest_unpack : Unpack QueryDirectoryRequest :=
  start ← rc_position;
  structure_size ← read_u16_le;
  fail_if (negb (structure_size =? QueryDirectoryRequest_STRUCTURE_SIZE))
    (invalid_data "invalid QueryDirectoryRequest structure size: expected {}, got {}") ;;
  class_raw ← read_u8;
  info_class ← try_enum (FileInformationClass_try_from class_raw)
    "invalid FileInformationClass: 0x{:02X}";
  flags ← read_u8;
  file_index ← read_u32_le;
  file_id ← read_file_id;
  name_offset ← read_u16_le;
  name_length ← read_u16_le;
  output_buffer_length ← read_u32_le;
  file_name ← (if name_length >? 0
               then seek_body_offset start name_offset ;; read_utf16_le name_length
               else mret []);
  mret (mkQueryDirectoryRequest info_class flags file_index file_id output_buffer_length file_name).

Record QueryDirectoryResponse := mkQueryDirectoryResponse { qdr_output_buffer : bytes }.
Definition QueryDirectoryResponse_STRUCTURE_SIZE : Z := 9.

#[global] Instance QueryDirectoryResponse_pack : Pack QueryDirectoryResponse := λ m,
  start ← wc_position;
  write_u16_le QueryDirectoryResponse_STRUCTURE_SIZE ;;
  offset_pos ← wc_position;
  write_u16_le 0 ;;
  write_u32_le (trunc 32 (len (qdr_output_buffer m))) ;;
  write_buffer start offset_pos (qdr_output_buffer m).

#[global] Instance QueryDirectoryResponse_unpack : Unpack QueryDirectoryResponse :=
  start ← rc_position;
  structure_size ← read_u16_le;
  fail_if (negb (structure_size =? QueryDirectoryResponse_STRUCTURE_SIZE))
    (invalid_data "invalid QueryDirectoryResponse structure size: expected {}, got {}") ;;
  buf_offset ← read_u16_le;
  buf_length ← read_u32_le;
  output_buffer ← read_buffer start buf_offset buf_length;
  mret (mkQueryDirectoryResponse output_buffer).

(** ** The trailing buffer: writer and reader agree *)

(** The offset field of a body whose fixed part has [n] bytes. *)
Definition buffer_off (n : Z) (buf : bytes) : Z := if is_empty buf then 0 else Header_SIZE + n.

Lemma w_buffer_at a b n p B start op buf :
  B = a ++ to_le 2 0 ++ b → start = p → op = p + len a → n = len a + 2 + len b →
  wtriple p B (write_buffer start op buf) (a ++ to_le 2 (buffer_off n buf) ++ b ++ buf) tt.
Proof.
  intros -> -> -> ->. unfold write_buffer, buffer_off.
  destruct buf as [|c0 cs] eqn:E; cbn [is_empty negb]; [rewrite app_nil_r; apply w_ret|].
  rewrite <- E. wsteps. wtrunc. cbv zeta.
  eapply eq_ind_r with (P := λ b1, wtriple _ _ _ b1 _).
  - apply (w_set16_at a 0 (b ++ buf)); [by rewrite <- !app_assoc|done].
  - wtrunc. do 2 f_equal. apply (f_equal (to_le 2)). unfold Header_SIZE. autorewrite with len. lia.
Qed.

Lemma buffer_off_u16 n buf : 0 <= n < 256 → is_u16 (buffer_off n buf).
Proof. intros H. unfold buffer_off, in_range, Header_SIZE. destruct (is_empty buf); lia. Qed.

Lemma reads_buffer p start n buf :
  len buf <= MAX_UNPACK_BUFFER → 0 <= n → p = start + n →
  reads_at p (read_buffer start (buffer_off n buf) (len buf)) buf buf.
Proof.
  intros Hm Hn ->. unfold read_buffer, buffer_off.
  destruct buf as [|c0 cs] eqn:E; [apply reads_ret|]. cbn [is_empty]. rewrite <- E in *.
  replace (len buf >? 0) with true by (subst; rewrite len_cons; pose proof (len_nonneg cs); lia).
  eapply reads_bind_0; [apply reads_seek; unfold Header_SIZE; rewrite ?len_nil; lia|].
  by apply reads_bytes_bounded.
Qed.

Lemma rok_buffer start off n :
  0 <= n → reader_ok (read_buffer start off n) (λ bs, len bs <= MAX_UNPACK_BUFFER).
Proof. exact (rok_contexts start off n). Qed.
#[export] Hint Resolve rok_buffer : smb.
#[export] Hint Extern 4 (in_range 16 (buffer_off _ _)) => apply buffer_off_u16; lia : smb.

(** Finish a writer whose last step is the trailing buffer: [a] and [b] are the
    fixed parts before and after the offset field, [n] their size with it. *)
Ltac wbuffer a b n :=
  eapply eq_ind_r with (P := λ b1, wtriple _ _ _ b1 _);
  [apply (w_buffer_at a b n); autorewrite with len; [by rewrite <- ?app_assoc|lia..]
  |by rewrite <- ?app_assoc].

(** Finish a reader whose last field is the trailing buffer. *)
Ltac rbuffer :=
  eapply reads_bind_nil; [apply reads_buffer; [done|lia|autorewrite with len; lia]|]; apply reads_ret.

(** ** Codecs *)

Lemma InfoType_try_from_code t : InfoType_try_from (InfoType_code t) = Some t.
Proof. by destruct t. Qed.
Lemma InfoType_code_u8 t : is_u8 (InfoType_code t).
Proof. by destruct t. Qed.
Lemma FileInformationClass_try_from_code c :
  FileInformationClass_try_from (FileInformationClass_code c) = Some c.
Proof. by destruct c. Qed.
Lemma FileInformationClass_code_u8 c : is_u8 (FileInformationClass_code c).
Proof. by destruct c. Qed.
#[export] Hint Resolve InfoType_try_from_code InfoType_code_u8
  FileInformationClass_try_from_code FileInformationClass_code_u8 : smb.

Record QueryInfoRequest_wf (m : QueryInfoRequest) : Prop := {
  qiqw_class : is_u8 (qiq_file_info_class m);
  qiqw_out : is_u32 (qiq_output_buffer_length m);
  qiqw_add : is_u32 (qiq_additional_information m);
  qiqw_flags : is_u32 (qiq_flags m);
  qiqw_id : FileId_wf (qiq_file_id m);
  qiqw_buf : len (qiq_input_buffer m) <= MAX_UNPACK_BUFFER
}.

#[global] Program Instance QueryInfoRequest_codec : Codec QueryInfoRequest := {
  codec_wf := QueryInfoRequest_wf;
  codec_layout _ m :=
    to_le 2 41 ++ [byte_of_u8 (InfoType_code (qiq_info_type m))]
    ++ [byte_of_u8 (qiq_file_info_class m)] ++ to_le 4 (qiq_output_buffer_length m)
    ++ to_le 2 (buffer_off 40 (qiq_input_buffer m)) ++ to_le 2 0
    ++ to_le 4 (len (qiq_input_buffer m)) ++ to_le 4 (qiq_additional_information m)
    ++ to_le 4 (qiq_flags m)
    ++ (to_le 8 (persistent (qiq_file_id m)) ++ to_le 8 (volatile (qiq_file_id m)))
    ++ qiq_input_buffer m
}.
Next Obligation.
  intros p m _ _. unfold writes_at, pack, QueryInfoRequest_pack. wsteps. wtrunc.
  wbuffer (to_le 2 41 ++ [byte_of_u8 (InfoType_code (qiq_info_type m))]
      ++ [byte_of_u8 (qiq_file_info_class m)] ++ to_le 4 (qiq_output_buffer_length m))
    (to_le 2 0 ++ to_le 4 (len (qiq_input_buffer m)) ++ to_le 4 (qiq_additional_information m)
      ++ to_le 4 (qiq_flags m)
      ++ (to_le 8 (persistent (qiq_file_id m)) ++ to_le 8 (volatile (qiq_file_id m)))) 40.
Qed.
Next Obligation.
  intros p [t fc ob ai fl id b] Hp [H1 H2 H3 H4 H5 H6]. unfold unpack, QueryInfoRequest_unpack.
  cbn [qiq_info_type qiq_file_info_class qiq_output_buffer_length qiq_additional_information
       qiq_flags qiq_file_id qiq_input_buffer] in *.
  repeat rstep. rbuffer.
Qed.
Next Obligation. unfold unpack, QueryInfoRequest_unpack. roks. by apply rok_ret. Qed.

Definition QueryInfoResponse_wf (m : QueryInfoResponse) : Prop :=
  len (qir_output_buffer m) <= MAX_UNPACK_BUFFER.

#[global] Program Instance QueryInfoResponse_codec : Codec QueryInfoResponse := {
  codec_wf := QueryInfoResponse_wf;
  codec_layout _ m :=
    to_le 2 9 ++ to_le 2 (buffer_off 8 (qir_output_buffer m))
    ++ to_le 4 (len (qir_output_buffer m)) ++ qir_output_buffer m
}.
Next Obligation.
  intros p m _ _. unfold writes_at, pack, QueryInfoResponse_pack. wsteps. wtrunc.
  wbuffer (to_le 2 9) (to_le 4 (len (qir_output_buffer m))) 8.
Qed.
Next Obligation.
  intros p [b] Hp Hb. unfold unpack, QueryInfoResponse_unpack, QueryInfoResponse_wf in *.
  cbn [qir_output_buffer] in *. repeat rstep. rbuffer.
Qed.
Next Obligation. unfold unpack, QueryInfoResponse_unpack. roks. by apply rok_ret. Qed.

Record SetInfoRequest_wf (m : SetInfoRequest) : Prop := {
  siqw_class : is_u8 (siq_file_info_class m);
  siqw_add : is_u32 (siq_additional_information m);
  siqw_id : FileId_wf (siq_file_id m);
  siqw_buf : len (siq_buffer m) <= MAX_UNPACK_BUFFER
}.

#[global] Program Instance SetInfoRequest_codec : Codec SetInfoRequest := {
  codec_wf := SetInfoRequest_wf;
  codec_layout _ m :=
    to_le 2 33 ++ [byte_of_u8 (InfoType_code (siq_info_type m))]
    ++ [byte_of_u8 (siq_file_info_class m)] ++ to_le 4 (len (siq_buffer m))
    ++ to_le 2 (buffer_off 32 (siq_buffer m)) ++ to_le 2 0 ++ to_le 4 (siq_additional_information m)
    ++ (to_le 8 (persistent (siq_file_id m)) ++ to_le 8 (volatile (siq_file_id m)))
    ++ siq_buffer m
}.
Next Obligation.
  intros p m _ _. unfold writes_at, pack, SetInfoRequest_pack. wsteps. wtrunc.
  wbuffer (to_le 2 33 ++ [byte_of_u8 (InfoType_code (siq_info_type m))]
      ++ [byte_of_u8 (siq_file_info_class m)] ++ to_le 4 (len (siq_buffer m)))
    (to_le 2 0 ++ to_le 4 (siq_additional_information m)
      ++ (to_le 8 (persistent (siq_file_id m)) ++ to_le 8 (volatile (siq_file_id m)))) 32.
Qed.
Next Obligation.
  intros p [t fc ai id b] Hp [H1 H2 H3 H4]. unfold unpack, SetInfoRequest_unpack.
  cbn [siq_info_type siq_file_info_class siq_additional_information siq_file_id siq_buffer] in *.
  repeat rstep. rbuffer.
Qed.
Next Obligation. unfold unpack, SetInfoRequest_unpack. roks. by apply rok_ret. Qed.

#[global] Program Instance SetInfoResponse_codec : Codec SetInfoResponse := {
  codec_wf _ := True;
  codec_layout _ _ := to_le 2 2
}.
Next Obligation. intros p m _ _. unfold writes_at, pack, SetInfoResponse_pack. wdone. Qed.
Next Obligation. intros p [] _ _. unfold unpack, SetInfoResponse_unpack. rsteps. Qed.
Next Obligation. unfold unpack, SetInfoResponse_unpack. roks. by apply rok_ret. Qed.

Definition QueryDirectoryResponse_wf (m : QueryDirectoryResponse) : Prop :=
  len (qdr_output_buffer m) <= MAX_UNPACK_BUFFER.

#[global] Program Instance QueryDirectoryResponse_codec : Codec QueryDirectoryResponse := {
  codec_wf := QueryDirectoryResponse_wf;
  codec_layout _ m :=
    to_le 2 9 ++ to_le 2 (buffer_off 8 (qdr_output_buffer m))
    ++ to_le 4 (len (qdr_output_buffer m)) ++ qdr_output_buffer m
}.
Next Obligation.
  intros p m _ _. unfold writes_at, pack, QueryDirectoryResponse_pack. wsteps. wtrunc.
  wbuffer (to_le 2 9) (to_le 4 (len (qdr_output_buffer m))) 8.
Qed.
Next Obligation.
  intros p [b] Hp Hb. unfold unpack, QueryDirectoryResponse_unpack, QueryDirectoryResponse_wf in *.
  cbn [qdr_output_buffer] in *. repeat rstep. rbuffer.
Qed.
Next Obligation. unfold unpack, QueryDirectoryResponse_unpack. roks. by apply rok_ret. Qed.

Record QueryDirectoryRequest_wf (m : QueryDirectoryRequest) : Prop := {
  qdqw_flags : is_u8 (qdq_flags m);
  qdqw_index : is_u32 (qdq_file_index m);
  qdqw_id : FileId_wf (qdq_file_id m);
  qdqw_out : is_u32 (qdq_output_buffer_length m);
  qdqw_name : str_wf (qdq_file_name m);
  qdqw_name_len : is_u16 (len (utf16_le_bytes (qdq_file_name m)))
}.

Definition QueryDirectoryRequest_fixed (m : QueryDirectoryRequest) : bytes :=
  to_le 2 33 ++ [byte_of_u8 (FileInformationClass_code (qdq_file_information_class m))]
  ++ [byte_of_u8 (qdq_flags m)] ++ to_le 4 (qdq_file_index m)
  ++ (to_le 8 (persistent (qdq_file_id m)) ++ to_le 8 (volatile (qdq_file_id m))).

Definition QueryDirectoryRequest_layout (m : QueryDirectoryRequest) : bytes :=
  QueryDirectoryRequest_fixed m ++ to_le 2 (if is_empty (qdq_file_name m) then 0 else 96)
  ++ to_le 2 (len (utf16_le_bytes (qdq_file_name m))) ++ to_le 4 (qdq_output_buffer_length m)
  ++ utf16_le_bytes (qdq_file_name m).

(** The byte an empty pattern is padded with. *)
Definition QueryDirectoryRequest_filler (m : QueryDirectoryRequest) : bytes :=
  if is_empty (qdq_file_name m) then [byte_of_u8 0] else [].

Lemma QueryDirectoryRequest_fixed_len m : len (QueryDirectoryRequest_fixed m) = 24.
Proof. unfold QueryDirectoryRequest_fixed. by autorewrite with len. Qed.
#[export] Hint Rewrite QueryDirectoryRequest_fixed_len : len.

Lemma QueryDirectoryRequest_pack_layout p m :
  writes_at p (pack m) (QueryDirectoryRequest_layout m ++ QueryDirectoryRequest_filler m).
Proof.
  unfold writes_at, pack, QueryDirectoryRequest_pack, QueryDirectoryRequest_filler,
    QueryDirectoryRequest_layout, QueryDirectoryRequest_fixed. wsteps.
  destruct (qdq_file_name m) as [|c0 cs] eqn:E; cbn [is_empty]; [wdone|].
  rewrite <- E. set (N := utf16_le_bytes (qdq_file_name m)).
  wsteps. cbv zeta. autorewrite with len. cbn [Z.of_nat].
  eapply w_bind.
  { eapply (w_set16_at (QueryDirectoryRequest_fixed m) 0
      (to_le 2 0 ++ to_le 4 (qdq_output_buffer_length m) ++ N)).
    - unfold QueryDirectoryRequest_fixed. rewrite <- !app_assoc. cbn [app]. done.
    - autorewrite with len. lia. }
  cbv beta. eapply eq_ind_r with (P := λ b1, wtriple _ _ _ b1 _).
  - eapply (w_set16_at (QueryDirectoryRequest_fixed m ++ to_le 2 _) 0
      (to_le 4 (qdq_output_buffer_length m) ++ N)); [by rewrite <- !app_assoc|].
    autorewrite with len. lia.
  - wtrunc. rewrite app_nil_r. unfold QueryDirectoryRequest_fixed. rewrite <- !app_assoc. do 7 f_equal.
    + apply (f_equal (to_le 2)). unfold Header_SIZE. lia.
    + f_equal. apply (f_equal (to_le 2)). fold N. lia.
Qed.

Lemma QueryDirectoryRequest_unpack_layout p m :
  QueryDirectoryRequest_wf m →
  reads_at p (unpack QueryDirectoryRequest) (QueryDirectoryRequest_layout m) m.
Proof.
  intros [H1 H2 H3 H4 Hs Hl]. destruct m as [ic fl fi id ob nm].
  unfold QueryDirectoryRequest_layout, QueryDirectoryRequest_fixed, unpack, QueryDirectoryRequest_unpack.
  cbn [qdq_file_information_class qdq_flags qdq_file_index qdq_file_id qdq_output_buffer_length
       qdq_file_name] in *.
  rewrite <- !(app_assoc _ _ (to_le 2 _ ++ _)), (app_assoc (to_le 8 (persistent id))). repeat rstep.
  eapply reads_bind; [apply reads_u16; by destruct nm|]. repeat rstep.
  destruct nm as [|c0 cs] eqn:E; cbn [is_empty].
  - eapply reads_bind_nil; [apply reads_ret|]. apply reads_ret.
  - rewrite <- E in *. eapply reads_bind_nil; [apply reads_name; [done|lia|autorewrite with len; lia]|].
    apply reads_ret.
Qed.

Lemma QueryDirectoryRequest_safe : reader_ok (unpack QueryDirectoryRequest) (λ _, True).
Proof.
  unfold unpack, QueryDirectoryRequest_unpack. roks.
  eapply rok_bind with (P := λ _, True).
  { apply rok_if; intros _; [|by apply rok_ret].
    eapply rok_bind; [apply rok_seek|]. intros _ _.
    eapply rok_weaken; [|apply rok_utf16; eauto with smb]. done. }
  intros name _. by apply rok_ret.
Qed.

(** An empty pattern is followed by a byte the parser leaves unread. *)
#[global] Program Instance QueryDirectoryRequest_codec : Codec QueryDirectoryRequest := {
  codec_wf m := QueryDirectoryRequest_wf m ∧ qdq_file_name m ≠ [];
  codec_layout _ := QueryDirectoryRequest_layout
}.
Next Obligation.
  intros p m Hp [Hwf Hne]. pose proof (QueryDirectoryRequest_pack_layout p m) as H.
  unfold QueryDirectoryRequest_filler in H.
  destruct (qdq_file_name m); [done|]. cbn [is_empty] in H. by rewrite app_nil_r in H.
Qed.
Next Obligation. intros p m Hp [Hwf _]. by apply QueryDirectoryRequest_unpack_layout. Qed.
Next Obligation. apply QueryDirectoryRequest_safe. Qed.

Lemma QueryDirectoryRequest_round_trip q :
  QueryDirectoryRequest_wf q → ∃ bs, packed q = Ok bs ∧
  unpack QueryDirectoryRequest (ReadCursor_new bs)
    = Ok (q, RC bs (len bs - len (QueryDirectoryRequest_filler q))).
Proof.
  intros Hq. exists (QueryDirectoryRequest_layout q ++ QueryDirectoryRequest_filler q). split.
  - apply writes_at_packed, QueryDirectoryRequest_pack_layout.
  - rewrite len_app, Z.add_simpl_r.
    apply (QueryDirectoryRequest_unpack_layout 0 q Hq [] (QueryDirectoryRequest_filler q) eq_refl).
Qed.
