(* ===== verification/Negotiate.v ===== *)
(** * NEGOTIATE messages

    Models [src/msg/negotiate.rs]: the request, the response and their list of
    negotiate contexts, each aligned to 8 bytes of the cursor after the first,
    the first aligned by the message that carries the list. *)

From S2P Require Import Prelude Types Pack Codec Header FileIo.

(** ** Constants *)

Definition NEGOTIATE_CONTEXT_PREAUTH_INTEGRITY : Z := 0x0001.
Definition NEGOTIATE_CONTEXT_ENCRYPTION : Z := 0x0002.
Definition NEGOTIATE_CONTEXT_COMPRESSION : Z := 0x0003.
Definition NEGOTIATE_CONTEXT_SIGNING : Z := 0x0008.
Definition HASH_ALGORITHM_SHA512 : Z := 0x0001.
Definition CIPHER_AES_128_CCM : Z := 0x0001.
Definition CIPHER_AES_128_GCM : Z := 0x0002.
Definition CIPHER_AES_256_CCM : Z := 0x0003.
Definition CIPHER_AES_256_GCM : Z := 0x0004.
Definition SIGNING_HMAC_SHA256 : Z := 0x0000.
Definition SIGNING_AES_CMAC : Z := 0x0001.
Definition SIGNING_AES_GMAC : Z := 0x0002.
Definition COMPRESSION_LZ4 : Z := 0x0005.
Definition COMPRESSION_FLAG_NONE : Z := 0x00000000.

(** ** Negotiate contexts *)

Inductive NegotiateContext :=
| PreauthIntegrity (hash_algorithms : list Z) (salt : bytes)
| Encryption (ciphers : list Z)
| Compression (flags : Z) (algorithms : list Z)
| Signing (algorithms : list Z)
| Unknown (context_type : Z) (data : bytes).

Definition pack_context_data (ctx : NegotiateContext) : Writer unit :=
  match ctx with
  | PreauthIntegrity hash_algorithms salt =>
      write_u16_le (trunc 16 (len hash_algorithms)) ;;
      write_u16_le (trunc 16 (len salt)) ;;
      for_each write_u16_le hash_algorithms ;;
      write_bytes salt
  | Encryption ciphers =>
      write_u16_le (trunc 16 (len ciphers)) ;;
      for_each write_u16_le ciphers
  | Compression flags algorithms =>
      write_u16_le (trunc 16 (len algorithms)) ;;
      write_u16_le 0 ;;
      write_u32_le flags ;;
      for_each write_u16_le algorithms
  | Signing algorithms =>
      write_u16_le (trunc 16 (len algorithms)) ;;
      for_each write_u16_le algorithms
  | Unknown _ data => write_bytes data
  end.

Definition context_type_id (ctx : NegotiateContext) : Z :=
  match ctx with
  | PreauthIntegrity _ _ => NEGOTIATE_CONTEXT_PREAUTH_INTEGRITY
  | Encryption _ => NEGOTIATE_CONTEXT_ENCRYPTION
  | Compression _ _ => NEGOTIATE_CONTEXT_COMPRESSION
  | Signing _ => NEGOTIATE_CONTEXT_SIGNING
  | Unknown context_type _ => context_type
  end.

Definition context_data_len (ctx : NegotiateContext) : Z :=
  match ctx with
  | PreauthIntegrity hash_algorithms salt => 2 + 2 + len hash_algorithms * 2 + len salt
  | Encryption ciphers => 2 + len ciphers * 2
  | Compression _ algorithms => 2 + 2 + 4 + len algorithms * 2
  | Signing algorithms => 2 + len algorithms * 2
  | Unknown _ data => len data
  end.

(** The loop of [pack_negotiate_contexts], [i] being the index of the first
    context left. *)
Fixpoint pack_contexts_loop (i : nat) (contexts : list NegotiateContext) : Writer unit :=
  match contexts with
  | [] => mret tt
  | ctx :: contexts =>
      (if (0 <? i)%nat then align_to 8 else mret tt) ;;
      write_u16_le (context_type_id ctx) ;;
      write_u16_le (trunc 16 (context_data_len ctx)) ;;
      write_u32_le 0 ;;
      pack_context_data ctx ;;
      pack_contexts_loop (S i) contexts
  end.

Definition pack_negotiate_contexts (contexts : list NegotiateContext) : Writer unit :=
  pack_contexts_loop 0 contexts.

Definition unpack_negotiate_context : Reader NegotiateContext :=
  context_type ← read_u16_le;
  data_length ← read_u16_le;
  _reserved ← read_u32_le;
  if context_type =? NEGOTIATE_CONTEXT_PREAUTH_INTEGRITY then
    hash_count ← read_u16_le;
    salt_length ← read_u16_le;
    hash_algorithms ← repeat_push (Z.to_nat hash_count) read_u16_le;
    salt ← read_bytes_bounded salt_length;
    mret (PreauthIntegrity hash_algorithms salt)
  else if context_type =? NEGOTIATE_CONTEXT_ENCRYPTION then
    cipher_count ← read_u16_le;
    ciphers ← repeat_push (Z.to_nat cipher_count) read_u16_le;
    mret (Encryption ciphers)
  else if context_type =? NEGOTIATE_CONTEXT_COMPRESSION then
    alg_count ← read_u16_le;
    _padding ← read_u16_le;
    flags ← read_u32_le;
    algorithms ← repeat_push (Z.to_nat alg_count) read_u16_le;
    mret (Compression flags algorithms)
  else if context_type =? NEGOTIATE_CONTEXT_SIGNING then
    alg_count ← read_u16_le;
    algorithms ← repeat_push (Z.to_nat alg_count) read_u16_le;
    mret (Signing algorithms)
  else
    data ← read_bytes_bounded data_length;
    mret (Unknown context_type data).

(** Skip to the next multiple of 8. *)
Definition skip_padding : Reader unit :=
  pos ← rc_position;
  let remainder := pos mod 8 in
  if negb (remainder =? 0) then skip (8 - remainder) else mret tt.

(** The loop of [unpack_negotiate_contexts] from index [i]. *)
Fixpoint unpack_contexts_loop (i count : nat) : Reader (list NegotiateContext) :=
  match count with
  | O => mret []
  | S count =>
      (if (0 <? i)%nat then skip_padding else mret tt) ;;
      ctx ← unpack_negotiate_context;
      contexts ← unpack_contexts_loop (S i) count;
      mret (ctx :: contexts)
  end.

Definition unpack_negotiate_contexts (count : Z) : Reader (list NegotiateContext) :=
  unpack_contexts_loop 0 (Z.to_nat count).

(** ** NegotiateRequest *)

Record NegotiateRequest := mkNegotiateRequest {
  nq_security_mode : Z;
  nq_capabilities : Z;
  nq_client_guid : Guid;
  nq_dialects : list Dialect;
  nq_negotiate_contexts : list NegotiateContext
}.
Definition NegotiateRequest_STRUCTURE_SIZE : Z := 36.

(** [self.dialects.contains(&Dialect::Smb3_1_1)] *)
Definition has_smb311 (dialects : list Dialect) : bool := bool_decide (Smb3_1_1 ∈ dialects).

(** Zero bytes up to a multiple of 8 from the start of the SMB2 header. *)
Definition pad_from_header (start : Z) : Writer unit :=
  here ← wc_position;
  let abs_pos := Header_SIZE + (here - start) in
  let remainder := abs_pos mod 8 in
  if negb (remainder =? 0) then write_zeros (8 - remainder) else mret tt.

#[global] Instance NegotiateRequest_pack : Pack NegotiateRequest := λ m,
  start ← wc_position;
  write_u16_le NegotiateRequest_STRUCTURE_SIZE ;;
  write_u16_le (trunc 16 (len (nq_dialects m))) ;;
  write_u16_le (nq_security_mode m) ;;
  write_u16_le 0 ;;
  write_u32_le (nq_capabilities m) ;;
  pack (nq_client_guid m) ;;
  if has_smb311 (nq_dialects m) then
    ctx_offset_pos ← wc_position;
    write_u32_le 0 ;;
    write_u16_le (trunc 16 (len (nq_negotiate_contexts m))) ;;
    write_u16_le 0 ;;
    for_each (λ d, write_u16_le (Dialect_code d)) (nq_dialects m) ;;
    pad_from_header start ;;
    here ← wc_position;
    let ctx_offset := Header_SIZE + (here - start) in
    set_u32_le_at ctx_offset_pos (trunc 32 ctx_offset) ;;
    pack_negotiate_contexts (nq_negotiate_contexts m)
  else
    write_u64_le 0 ;;
    for_each (λ d, write_u16_le (Dialect_code d)) (nq_dialects m).

(** Skip forward to a context list at [ctx_offset] from the SMB2 header. *)
Definition skip_to_contexts (start ctx_offset : Z) : Reader unit :=
  here ← rc_position;
  let current_abs := Header_SIZE + (here - start) in
  if ctx_offset >? current_abs then skip (ctx_offset - current_abs) else mret tt.

Definition read_dialect : Reader Dialect :=
  d ← read_u16_le; try_enum (Dialect_try_from d) "invalid dialect: 0x{:04X}".

#[global] Instance NegotiateRequest_unpack : Unpack NegotiateRequest :=
  start ← rc_position;
  structure_size ← read_u16_le;
  fail_if (negb (structure_size =? NegotiateRequest_STRUCTURE_SIZE))
    (invalid_data "invalid NegotiateRequest structure size: expected {}, got {}") ;;
  dialect_count ← read_u16_le;
  security_mode ← read_u16_le;
  _reserved ← read_u16_le;
  capabilities ← read_u32_le;
  client_guid ← unpack Guid;
  raw_8 ← read_bytes 8;
  dialects ← repeat_push (Z.to_nat dialect_count) read_dialect;
  negotiate_contexts ←
    (if has_smb311 dialects then
       let ctx_offset := of_le (subslice raw_8 0 4) in
       let ctx_count := of_le (subslice raw_8 4 6) in
       skip_to_contexts start ctx_offset ;;
       unpack_negotiate_contexts ctx_count
     else mret []);
  mret (mkNegotiateRequest security_mode capabilities client_guid dialects negotiate_contexts).

(** ** NegotiateResponse *)

Record NegotiateResponse := mkNegotiateResponse {
  nr_security_mode : Z;
  nr_dialect_revision : Dialect;
  nr_server_guid : Guid;
  nr_capabilities : Z;
  nr_max_transact_size : Z;
  nr_max_read_size : Z;
  nr_max_write_size : Z;
  nr_system_time : Z;
  nr_server_start_time : Z;
  nr_security_buffer : bytes;
  nr_negotiate_contexts : list NegotiateContext
}.
Definition NegotiateResponse_STRUCTURE_SIZE : Z := 65.

Definition is_smb311 (d : Dialect) : bool := bool_decide (d = Smb3_1_1).

#[global] Instance NegotiateResponse_pack : Pack NegotiateResponse := λ m,
  start ← wc_position;
  write_u16_le NegotiateResponse_STRUCTURE_SIZE ;;
  write_u16_le (nr_security_mode m) ;;
  write_u16_le (Dialect_code (nr_dialect_revision m)) ;;
  write_u16_le (if is_smb311 (nr_dialect_revision m)
                then trunc 16 (len (nr_negotiate_contexts m)) else 0) ;;
  pack (nr_server_guid m) ;;
  write_u32_le (nr_capabilities m) ;;
  write_u32_le (nr_max_transact_size m) ;;
  write_u32_le (nr_max_read_size m) ;;
  write_u32_le (nr_max_write_size m) ;;
  write_u64_le (nr_system_time m) ;;
  write_u64_le (nr_server_start_time m) ;;
  write_u16_le (trunc 16 (Header_SIZE + 64)) ;;
  write_u16_le (trunc 16 (len (nr_security_buffer m))) ;;
  ctx_offset_pos ← wc_position;
  write_u32_le 0 ;;
  write_bytes (nr_security_buffer m) ;;
  if is_smb311 (nr_dialect_revision m) && negb (is_empty (nr_negotiate_contexts m)) then
    pad_from_header start ;;
    here ← wc_position;
    let ctx_offset := Header_SIZE + (here - start) in
    set_u32_le_at ctx_offset_pos (trunc 32 ctx_offset) ;;
    pack_negotiate_contexts (nr_negotiate_contexts m)
  else mret tt.

#[global] Instance NegotiateResponse_unpack : Unpack NegotiateResponse :=
  start ← rc_position;
  structure_size ← read_u16_le;
  fail_if (negb (structure_size =? NegotiateResponse_STRUCTURE_SIZE))
    (invalid_data "invalid NegotiateResponse structure size: expected {}, got {}") ;;
  security_mode ← read_u16_le;
  dialect_raw ← read_u16_le;
  dialect_revision ← try_enum (Dialect_try_from dialect_raw) "invalid dialect revision: 0x{:04X}";
  negotiate_context_count ← read_u16_le;
  server_guid ← unpack Guid;
  capabilities ← read_u32_le;
  max_transact_size ← read_u32_le;
  max_read_size ← read_u32_le;
  max_write_size ← read_u32_le;
  system_time ← read_u64_le;
  server_start_time ← read_u64_le;
  _sec_buf_offset ← read_u16_le;
  sec_buf_length ← read_u16_le;
  negotiate_context_offset ← read_u32_le;
  security_buffer ← read_opt_bounded sec_buf_length;
  negotiate_contexts ←
    (if is_smb311 dialect_revision && (negotiate_context_count >? 0) then
       skip_to_contexts start negotiate_context_offset ;;
       unpack_negotiate_contexts negotiate_context_count
     else mret []);
  mret (mkNegotiateResponse security_mode dialect_revision server_guid capabilities
          max_transact_size max_read_size max_write_size system_time server_start_time
          security_buffer negotiate_contexts).

(** ** Codecs *)

Definition guid_bytes (g : Guid) : bytes :=
  to_le 4 (data1 g) ++ to_le 2 (data2 g) ++ to_le 2 (data3 g) ++ data4 g.

#[global] Program Instance Guid_codec : Codec Guid := {
  codec_wf := Guid_wf;
  codec_layout _ := guid_bytes
}.
Next Obligation. intros p g _ _. unfold writes_at, pack, Guid_pack, guid_bytes. wsteps. wdone. Qed.
Next Obligation.
  intros p [a b c d] _ (H1 & H2 & H3 & H4). unfold unpack, Guid_unpack, guid_bytes.
  cbn [data1 data2 data3 data4] in *. rsteps.
Qed.
Next Obligation. unfold unpack, Guid_unpack. roks. by apply rok_ret. Qed.

Lemma w_guid p b g : 0 <= p → Guid_wf g → wtriple p b (pack g) (b ++ guid_bytes g) tt.
Proof.
  intros Hp Hg. apply writes_at_wtriple. pose proof (len_nonneg b).
  exact (codec_pack (p + len b) g ltac:(lia) Hg).
Qed.
Lemma reads_guid p g : 0 <= p → Guid_wf g → reads_at p (unpack Guid) (guid_bytes g) g.
Proof. exact (codec_unpack p g). Qed.
Lemma rok_guid : reader_ok (unpack Guid) (λ _, True).
Proof. apply (codec_safe (A:=Guid)). Qed.
Lemma guid_bytes_len g : Guid_wf g → len (guid_bytes g) = 16.
Proof. intros (_ & _ & _ & H4). unfold guid_bytes. autorewrite with len. lia. Qed.
#[export] Hint Resolve rok_guid : smb.

(** A list of 16-bit words. *)
Lemma w_words p b l : wtriple p b (for_each write_u16_le l) (b ++ (l ≫= to_le 2)) tt.
Proof. apply w_for_each. intros a b' _. apply w_u16. Qed.
Lemma reads_words p l n :
  n = len l → Forall is_u16 l → reads_at p (repeat_push (Z.to_nat n) read_u16_le) (l ≫= to_le 2) l.
Proof.
  intros -> Hl. replace (Z.to_nat (len l)) with (length l) by (unfold len; lia).
  apply reads_repeat. intros q a _ Ha. apply reads_u16. by eapply Forall_forall in Hl.
Qed.

(** *** One context *)

Definition words_ok (l : list Z) : Prop := is_u16 (len l) ∧ Forall is_u16 l.

Definition NegotiateContext_wf (ctx : NegotiateContext) : Prop :=
  match ctx with
  | PreauthIntegrity h s => words_ok h ∧ is_u16 (len s)
  | Encryption c => words_ok c
  | Compression f a => is_u32 f ∧ words_ok a
  | Signing a => words_ok a
  | Unknown t d => is_u16 t ∧ (t ∉ [1; 2; 3; 8]) ∧ is_u16 (len d)
  end.

Definition context_data (ctx : NegotiateContext) : bytes :=
  match ctx with
  | PreauthIntegrity h s => to_le 2 (len h) ++ to_le 2 (len s) ++ (h ≫= to_le 2) ++ s
  | Encryption c => to_le 2 (len c) ++ (c ≫= to_le 2)
  | Compression f a => to_le 2 (len a) ++ to_le 2 0 ++ to_le 4 f ++ (a ≫= to_le 2)
  | Signing a => to_le 2 (len a) ++ (a ≫= to_le 2)
  | Unknown _ d => d
  end.

Definition context_layout (ctx : NegotiateContext) : bytes :=
  to_le 2 (context_type_id ctx) ++ to_le 2 (trunc 16 (context_data_len ctx)) ++ to_le 4 0
  ++ context_data ctx.

Lemma w_context_data p b ctx : wtriple p b (pack_context_data ctx) (b ++ context_data ctx) tt.
Proof.
  destruct ctx; unfold pack_context_data, context_data; wsteps; wtrunc.
  - eapply w_bind; [apply w_words|]. wdone.
  - rewrite app_assoc. apply w_words.
  - rewrite !app_assoc. apply w_words.
  - rewrite app_assoc. apply w_words.
  - apply w_bytes.
Qed.

(** Decide the comparisons of constants in the goal. *)
Ltac eqb_const :=
  repeat match goal with |- context [Z.eqb ?a ?b] =>
    let v := eval vm_compute in (Z.eqb a b) in
    lazymatch v with true => idtac | false => idtac end; change (Z.eqb a b) with v
  end; cbv iota.

Lemma reads_context p ctx :
  NegotiateContext_wf ctx → reads_at p unpack_negotiate_context (context_layout ctx) ctx.
Proof.
  assert (∀ s : bytes, is_u16 (len s) → len s <= MAX_UNPACK_BUFFER) as Hmax
    by (unfold in_range, MAX_UNPACK_BUFFER; lia).
  intros Hw. unfold unpack_negotiate_context, context_layout.
  assert (is_u16 (context_type_id ctx)) as Ht by (destruct ctx; try done; by destruct Hw).
  assert (is_u16 (trunc 16 (context_data_len ctx))) as Hdl by by apply trunc_range.
  repeat rstep. destruct ctx as [h s|c|f a|a|t d]; cbn [context_type_id context_data].
  - destruct Hw as [[H1 H2] H3]. eqb_const. repeat rstep.
    eapply reads_bind; [by apply reads_words|]. cbv beta. rsteps.
  - destruct Hw as [H1 H2]. eqb_const. repeat rstep.
    eapply reads_bind_nil; [by apply reads_words|]. apply reads_ret.
  - destruct Hw as [H0 [H1 H2]]. eqb_const. repeat rstep.
    eapply reads_bind_nil; [by apply reads_words|]. apply reads_ret.
  - destruct Hw as [H1 H2]. eqb_const. repeat rstep.
    eapply reads_bind_nil; [by apply reads_words|]. apply reads_ret.
  - destruct Hw as (H1 & H2 & H3).
    repeat (rewrite (proj2 (Z.eqb_neq _ _)); [|intros ->; set_solver]).
    cbn [context_data_len]. rewrite trunc_small by done. rsteps.
Qed.

Lemma rok_context : reader_ok unpack_negotiate_context (λ _, True).
Proof.
  unfold unpack_negotiate_context. roks;
    try (eapply rok_bind; [apply rok_repeat, rok_u16|]; intros; cbv beta in * );
    roks; by apply rok_ret.
Qed.

(** *** The list *)

(** The padding in front of context [i] of a list, at absolute position [q]. *)
Definition lead_pad (i : nat) (q : Z) : bytes :=
  if (0 <? i)%nat then zeros (align_pad 8 q) else [].

Fixpoint contexts_bytes (i : nat) (q : Z) (l : list NegotiateContext) : bytes :=
  match l with
  | [] => []
  | c :: l =>
      lead_pad i q ++ context_layout c
      ++ contexts_bytes (S i) (q + len (lead_pad i q) + len (context_layout c)) l
  end.

Lemma w_contexts_loop p b i l :
  wtriple p b (pack_contexts_loop i l) (b ++ contexts_bytes i (p + len b) l) tt.
Proof.
  revert b i. induction l as [|c l IH]; intros b i; cbn [pack_contexts_loop contexts_bytes].
  { rewrite app_nil_r. apply w_ret. }
  set (pad := lead_pad i (p + len b)).
  eapply w_bind with (b1 := b ++ pad) (v := tt).
  { unfold pad, lead_pad. destruct (0 <? i)%nat; [by apply w_align|]. rewrite app_nil_r. apply w_ret. }
  wsteps. eapply w_bind; [apply w_context_data|]. cbv beta.
  eapply eq_ind_r with (P := λ b1, wtriple _ _ _ b1 _); [apply IH|].
  unfold context_layout. rewrite <- !app_assoc. do 6 f_equal. autorewrite with len. f_equal. lia.
Qed.

Lemma reads_skip_padding p : reads_at p skip_padding (zeros (align_pad 8 p)) tt.
Proof.
  unfold skip_padding. eapply reads_bind_0; [apply reads_position|]. cbv beta zeta.
  unfold align_pad. pose proof (Z.mod_pos_bound p 8 ltac:(lia)).
  destruct (p mod 8 =? 0) eqn:E; cbn [negb]; [apply reads_ret|].
  apply reads_skip. rewrite len_zeros; lia.
Qed.

Lemma reads_contexts_loop p i l :
  Forall NegotiateContext_wf l →
  reads_at p (unpack_contexts_loop i (length l)) (contexts_bytes i p l) l.
Proof.
  intros Hl. revert p i. induction Hl as [|c l Hc Hl IH]; intros p i; [apply reads_ret|].
  cbn [length unpack_contexts_loop contexts_bytes].
  eapply reads_bind with (v := tt).
  { unfold lead_pad. destruct (0 <? i)%nat; [apply reads_skip_padding|apply reads_ret]. }
  eapply reads_bind; [by apply reads_context|]. eapply reads_bind_nil; [apply IH|]. apply reads_ret.
Qed.

Lemma rok_skip_padding : reader_ok skip_padding (λ _, True).
Proof.
  unfold skip_padding. eapply rok_bind; [apply rok_position|]. intros p _. cbv zeta.
  pose proof (Z.mod_pos_bound p 8 ltac:(lia)).
  apply rok_if; intros; [apply rok_skip; lia|by apply rok_ret].
Qed.

Lemma rok_contexts_loop i n : reader_ok (unpack_contexts_loop i n) (λ _, True).
Proof.
  revert i. induction n as [|n IH]; intros i; cbn [unpack_contexts_loop]; [by apply rok_ret|].
  eapply rok_bind with (P := λ _, True).
  { apply rok_if; intros; [apply rok_skip_padding|by apply rok_ret]. }
  intros _ _. eapply rok_bind; [apply rok_context|]. intros c _.
  eapply rok_bind; [apply IH|]. intros l _. by apply rok_ret.
Qed.

(** *** Padding from the header, and the context list behind it *)

Definition header_pad (n : Z) : bytes := zeros (align_pad 8 (Header_SIZE + n)).

Lemma w_pad_from_header p b :
  wtriple p b (pad_from_header p) (b ++ header_pad (len b)) tt.
Proof.
  unfold pad_from_header, header_pad. wsteps. cbv zeta.
  replace (p + len b - p) with (len b) by lia. unfold align_pad.
  destruct (_ mod 8 =? 0); cbn [negb]; [rewrite app_nil_r; apply w_ret|apply w_zeros].
Qed.

Lemma len_header_pad n : 0 <= len (header_pad n) < 8.
Proof.
  unfold header_pad. pose proof (align_pad_range 8 (Header_SIZE + n) ltac:(lia)).
  rewrite len_zeros; lia.
Qed.

(** The tail that both messages write: pad, patch the offset field between [a]
    and [b], append the contexts. *)
Lemma w_context_list_at a b p B start op l :
  B = a ++ to_le 4 0 ++ b → start = p → op = p + len a →
  let n := len a + 4 + len b in
  wtriple p B
    (pad_from_header start ;;
     here ← wc_position;
     let ctx_offset := Header_SIZE + (here - start) in
     set_u32_le_at op (trunc 32 ctx_offset) ;;
     pack_negotiate_contexts l)
    (a ++ to_le 4 (Header_SIZE + n + len (header_pad n)) ++ b ++ header_pad n
       ++ contexts_bytes 0 (p + n + len (header_pad n)) l) tt.
Proof.
  intros -> -> -> n. eapply w_bind; [apply w_pad_from_header|]. cbv beta. wsteps. cbv zeta.
  assert (len (a ++ to_le 4 0 ++ b) = n) as En by (unfold n; autorewrite with len; lia). rewrite En.
  eapply w_bind.
  { apply (w_set32_at a 0 (b ++ header_pad n)); [by rewrite <- !app_assoc|done]. }
  cbv beta. unfold pack_negotiate_contexts.
  eapply eq_ind_r with (P := λ b1, wtriple _ _ _ b1 _); [apply w_contexts_loop|].
  wtrunc. rewrite len_app, En, <- !app_assoc. do 2 f_equal.
  - apply (f_equal (to_le 4)). lia.
  - do 3 f_equal. unfold n. autorewrite with len. lia.
Qed.

Lemma reads_skip_to p start n :
  0 <= n → p = start + n →
  reads_at p (skip_to_contexts start (Header_SIZE + n + len (header_pad n))) (header_pad n) tt.
Proof.
  intros Hn ->. unfold skip_to_contexts. eapply reads_bind_0; [apply reads_position|]. cbv beta zeta.
  pose proof (len_header_pad n). case_test.
  - apply reads_skip. lia.
  - rewrite (len_0_nil (header_pad n)) by lia. apply reads_ret.
Qed.

Lemma rok_skip_to start off : reader_ok (skip_to_contexts start off) (λ _, True).
Proof.
  unfold skip_to_contexts. eapply rok_bind; [apply rok_position|]. intros here _. cbv zeta.
  apply rok_if; intros; [apply rok_skip; lia|by apply rok_ret].
Qed.

Lemma reads_context_list p start n l count :
  Forall NegotiateContext_wf l → 0 <= n → p = start + n → count = len l →
  reads_at p (skip_to_contexts start (Header_SIZE + n + len (header_pad n)) ;;
              unpack_negotiate_contexts count)
    (header_pad n ++ contexts_bytes 0 (p + len (header_pad n)) l) l.
Proof.
  intros Hl Hn Hp ->. eapply reads_bind; [by apply reads_skip_to|].
  unfold unpack_negotiate_contexts. replace (Z.to_nat (len l)) with (length l) by (unfold len; lia).
  by apply reads_contexts_loop.
Qed.

Lemma rok_context_list start off count :
  reader_ok (skip_to_contexts start off ;; unpack_negotiate_contexts count) (λ _, True).
Proof. eapply rok_bind; [apply rok_skip_to|]. intros _ _. apply rok_contexts_loop. Qed.
#[export] Hint Resolve rok_context_list : smb.

(** *** NegotiateRequest *)

Record NegotiateRequest_wf (m : NegotiateRequest) : Prop := {
  nqw_mode : is_u16 (nq_security_mode m);
  nqw_caps : is_u32 (nq_capabilities m);
  nqw_guid : Guid_wf (nq_client_guid m);
  nqw_dialects : is_u16 (len (nq_dialects m));
  nqw_count : is_u16 (len (nq_negotiate_contexts m));
  nqw_contexts : Forall NegotiateContext_wf (nq_negotiate_contexts m);
  (** contexts belong to SMB 3.1.1 *)
  nqw_311 : Smb3_1_1 ∈ nq_dialects m ∨ nq_negotiate_contexts m = []
}.

Definition dialect_bytes (l : list Dialect) : bytes := l ≫= λ d, to_le 2 (Dialect_code d).

Lemma len_dialect_bytes l : len (dialect_bytes l) = 2 * len l.
Proof.
  induction l as [|d l IH]; [done|]. unfold dialect_bytes in *. rewrite bind_cons, len_app, IH.
  autorewrite with len. lia.
Qed.

Lemma w_dialects p b l :
  wtriple p b (for_each (λ d, write_u16_le (Dialect_code d)) l) (b ++ dialect_bytes l) tt.
Proof. apply w_for_each. intros d b' _. apply w_u16. Qed.

Lemma reads_dialects p l n :
  n = len l → reads_at p (repeat_push (Z.to_nat n) read_dialect) (dialect_bytes l) l.
Proof.
  intros ->. replace (Z.to_nat (len l)) with (length l) by (unfold len; lia).
  apply (reads_repeat (λ d, to_le 2 (Dialect_code d))). intros q d _ _. unfold read_dialect.
  eapply reads_bind_nil; [apply reads_u16, Dialect_code_u16|].
  apply reads_try_enum, Dialect_try_from_code.
Qed.

Definition NegotiateRequest_fixed (m : NegotiateRequest) : bytes :=
  to_le 2 36 ++ to_le 2 (len (nq_dialects m)) ++ to_le 2 (nq_security_mode m) ++ to_le 2 0
  ++ to_le 4 (nq_capabilities m) ++ guid_bytes (nq_client_guid m).

Definition NegotiateRequest_layout (p : Z) (m : NegotiateRequest) : bytes :=
  let n := 36 + 2 * len (nq_dialects m) in
  NegotiateRequest_fixed m ++
  if has_smb311 (nq_dialects m) then
    (to_le 4 (Header_SIZE + n + len (header_pad n))
     ++ to_le 2 (len (nq_negotiate_contexts m)) ++ to_le 2 0) ++ dialect_bytes (nq_dialects m)
    ++ header_pad n ++ contexts_bytes 0 (p + n + len (header_pad n)) (nq_negotiate_contexts m)
  else to_le 8 0 ++ dialect_bytes (nq_dialects m).

Lemma NegotiateRequest_fixed_len m :
  Guid_wf (nq_client_guid m) → len (NegotiateRequest_fixed m) = 28.
Proof. intros H. unfold NegotiateRequest_fixed. autorewrite with len. rewrite guid_bytes_len by done. lia. Qed.

Lemma NegotiateRequest_pack_layout p m :
  0 <= p → NegotiateRequest_wf m → writes_at p (pack m) (NegotiateRequest_layout p m).
Proof.
  intros Hp Hw. pose proof (nqw_guid m Hw) as Hg. pose proof (NegotiateRequest_fixed_len m Hg) as Hf.
  unfold writes_at, pack at 1, NegotiateRequest_pack. wsteps.
  eapply w_bind; [by apply w_guid|]. cbv beta. wtrunc. cbn [app].
  match goal with |- wtriple _ ?B _ _ _ => replace B with (NegotiateRequest_fixed m)
    by (unfold NegotiateRequest_fixed; by rewrite <- !app_assoc) end.
  unfold NegotiateRequest_layout. cbv zeta. destruct (has_smb311 _).
  - wsteps. wtrunc. eapply w_bind; [apply w_dialects|]. cbv beta.
    eapply eq_ind_r with (P := λ b1, wtriple _ _ _ b1 _).
    + apply (w_context_list_at (NegotiateRequest_fixed m)
        (to_le 2 (len (nq_negotiate_contexts m)) ++ to_le 2 0 ++ dialect_bytes (nq_dialects m)));
        [by rewrite <- !app_assoc|rewrite len_nil; lia|done].
    + cbv zeta. rewrite Hf. autorewrite with len. rewrite len_dialect_bytes, <- !app_assoc.
      change (28 + 4 + (Z.of_nat 2 + (Z.of_nat 2 + 2 * len (nq_dialects m))))
        with (28 + 4 + (2 + (2 + 2 * len (nq_dialects m)))).
      replace (28 + 4 + (2 + (2 + 2 * len (nq_dialects m)))) with (36 + 2 * len (nq_dialects m)) by lia.
      done.
  - wsteps. rewrite app_assoc. apply w_dialects.
Qed.

Lemma NegotiateRequest_unpack_layout p m :
  0 <= p → NegotiateRequest_wf m → reads_at p (unpack NegotiateRequest) (NegotiateRequest_layout p m) m.
Proof.
  intros Hp [H1 H2 Hg Hd Hc Hcs H311]. destruct m as [sm cp g ds cs].
  unfold NegotiateRequest_layout, NegotiateRequest_fixed, unpack at 1, NegotiateRequest_unpack.
  cbn [nq_security_mode nq_capabilities nq_client_guid nq_dialects nq_negotiate_contexts] in *.
  match goal with |- reads_at _ _ (_ ++ ?T) _ => set (tail := T) end.
  rewrite <- !(app_assoc (to_le _ _)). repeat rstep.
  eapply reads_bind; [apply reads_guid; [autorewrite with len; lia|done]|]. cbv beta.
  rewrite (guid_bytes_len g) by done. subst tail. unfold has_smb311.
  set (n := 36 + 2 * len ds). pose proof (len_nonneg ds). pose proof (len_header_pad n).
  destruct (bool_decide (Smb3_1_1 ∈ ds)) eqn:E.
  - set (raw := to_le 4 _ ++ to_le 2 _ ++ to_le 2 0).
    eapply reads_bind; [apply reads_read_bytes; unfold raw; by autorewrite with len|]. cbv beta.
    eapply reads_bind; [by apply reads_dialects|]. cbv beta.
    eapply reads_bind_nil; [|apply reads_ret]. rewrite E. cbv zeta.
    replace (of_le (subslice raw 0 4)) with (Header_SIZE + n + len (header_pad n)).
    2:{ unfold raw. change (subslice (to_le 4 ?x ++ ?y) 0 4) with (subslice ([] ++ to_le 4 x ++ y) 0 4).
        rewrite subslice_app by (autorewrite with len; done). rewrite of_le_to_le_small; [done|]. unfold in_range, n, Header_SIZE in *. lia. }
    replace (of_le (subslice raw 4 6)) with (len cs).
    2:{ unfold raw. rewrite (subslice_app (to_le 4 _) (to_le 2 _) _ 4 6) by (autorewrite with len; done).
        by rewrite of_le_to_le_small. }
    assert (len raw = 8) as Hraw by (unfold raw; by autorewrite with len).
    match goal with |- reads_at ?q _ _ _ => assert (q = p + n) as Eq
      by (unfold n; rewrite len_dialect_bytes, Hraw; autorewrite with len; lia) end.
    rewrite Eq. apply reads_context_list; [done|lia|done|done].
  - eapply reads_bind; [apply reads_read_bytes; by autorewrite with len|]. cbv beta.
    eapply reads_bind_nil; [by apply reads_dialects|]. cbv beta.
    eapply reads_bind_0; [rewrite E; apply reads_ret|]. cbv beta.
    destruct H311 as [Hin| ->]; [by apply bool_decide_eq_false in E|]. apply reads_ret.
Qed.

#[global] Program Instance NegotiateRequest_codec : Codec NegotiateRequest := {
  codec_wf := NegotiateRequest_wf;
  codec_layout := NegotiateRequest_layout
}.
Next Obligation. intros. by apply NegotiateRequest_pack_layout. Qed.
Next Obligation. intros. by apply NegotiateRequest_unpack_layout. Qed.
Next Obligation.
  unfold unpack at 1, NegotiateRequest_unpack. roks.
  eapply rok_bind; [apply rok_repeat with (P := λ _, True)|].
  { unfold read_dialect. eapply rok_bind; [apply rok_u16|]. intros.
    eapply rok_weaken; [|apply rok_try_enum]. done. }
  intros l _. eapply rok_bind with (P := λ _, True).
  { apply rok_if; intros; [apply rok_context_list|by apply rok_ret]. }
  intros. by apply rok_ret.
Qed.

(** *** NegotiateResponse *)

Record NegotiateResponse_wf (m : NegotiateResponse) : Prop := {
  nrw_mode : is_u16 (nr_security_mode m);
  nrw_guid : Guid_wf (nr_server_guid m);
  nrw_caps : is_u32 (nr_capabilities m);
  nrw_transact : is_u32 (nr_max_transact_size m);
  nrw_read : is_u32 (nr_max_read_size m);
  nrw_write : is_u32 (nr_max_write_size m);
  nrw_time : is_u64 (nr_system_time m);
  nrw_start : is_u64 (nr_server_start_time m);
  nrw_token : is_u16 (len (nr_security_buffer m));
  nrw_count : is_u16 (len (nr_negotiate_contexts m));
  nrw_contexts : Forall NegotiateContext_wf (nr_negotiate_contexts m);
  nrw_311 : nr_dialect_revision m = Smb3_1_1 ∨ nr_negotiate_contexts m = []
}.

Definition has_contexts (m : NegotiateResponse) : bool :=
  is_smb311 (nr_dialect_revision m) && negb (is_empty (nr_negotiate_contexts m)).

Definition NegotiateResponse_fixed (m : NegotiateResponse) : bytes :=
  to_le 2 65 ++ to_le 2 (nr_security_mode m) ++ to_le 2 (Dialect_code (nr_dialect_revision m))
  ++ to_le 2 (if is_smb311 (nr_dialect_revision m) then len (nr_negotiate_contexts m) else 0)
  ++ guid_bytes (nr_server_guid m) ++ to_le 4 (nr_capabilities m)
  ++ to_le 4 (nr_max_transact_size m) ++ to_le 4 (nr_max_read_size m)
  ++ to_le 4 (nr_max_write_size m) ++ to_le 8 (nr_system_time m)
  ++ to_le 8 (nr_server_start_time m) ++ to_le 2 128 ++ to_le 2 (len (nr_security_buffer m)).

Definition NegotiateResponse_layout (p : Z) (m : NegotiateResponse) : bytes :=
  let n := 64 + len (nr_security_buffer m) in
  NegotiateResponse_fixed m ++
  if has_contexts m then
    to_le 4 (Header_SIZE + n + len (header_pad n)) ++ nr_security_buffer m
    ++ header_pad n ++ contexts_bytes 0 (p + n + len (header_pad n)) (nr_negotiate_contexts m)
  else to_le 4 0 ++ nr_security_buffer m.

Lemma NegotiateResponse_fixed_len m :
  Guid_wf (nr_server_guid m) → len (NegotiateResponse_fixed m) = 60.
Proof. intros H. unfold NegotiateResponse_fixed. autorewrite with len. rewrite guid_bytes_len by done. lia. Qed.

Lemma NegotiateResponse_pack_layout p m :
  0 <= p → NegotiateResponse_wf m → writes_at p (pack m) (NegotiateResponse_layout p m).
Proof.
  intros Hp Hw. pose proof (nrw_guid m Hw) as Hg. pose proof (NegotiateResponse_fixed_len m Hg) as Hf.
  unfold writes_at, pack at 1, NegotiateResponse_pack. wsteps.
  eapply w_bind; [by apply w_guid|]. cbv beta. wsteps. wtrunc. cbn [app].
  match goal with |- wtriple _ ((?B ++ to_le 4 0) ++ _) _ _ _ =>
    assert (B = NegotiateResponse_fixed m) as EB end.
  { unfold NegotiateResponse_fixed. rewrite <- !app_assoc. do 3 f_equal.
    by destruct (is_smb311 _); wtrunc. }
  rewrite EB. unfold NegotiateResponse_layout. fold (has_contexts m). cbv zeta.
  destruct (has_contexts m).
  - eapply eq_ind_r with (P := λ b1, wtriple _ _ _ b1 _).
    + apply (w_context_list_at (NegotiateResponse_fixed m) (nr_security_buffer m));
        [by rewrite <- !app_assoc|rewrite len_nil; lia|done].
    + cbv zeta. rewrite Hf. done.
  - rewrite <- app_assoc. apply w_ret.
Qed.

Lemma NegotiateResponse_unpack_layout p m :
  0 <= p → NegotiateResponse_wf m → reads_at p (unpack NegotiateResponse) (NegotiateResponse_layout p m) m.
Proof.
  intros Hp [H1 Hg H2 H3 H4 H5 H6 H7 Ht Hc Hcs H311]. destruct m as [sm d g cp mt mr mw st ss tok cs].
  unfold NegotiateResponse_layout, NegotiateResponse_fixed, has_contexts, unpack at 1,
    NegotiateResponse_unpack.
  cbn [nr_security_mode nr_dialect_revision nr_server_guid nr_capabilities nr_max_transact_size
       nr_max_read_size nr_max_write_size nr_system_time nr_server_start_time nr_security_buffer
       nr_negotiate_contexts] in *.
  match goal with |- reads_at _ _ (_ ++ ?T) _ => set (tail := T) end.
  rewrite <- !(app_assoc (to_le _ _)), <- !(app_assoc (guid_bytes g)), <- !(app_assoc (to_le _ _)).
  pose proof (Dialect_code_u16 d). pose proof (Dialect_try_from_code d).
  assert (is_u16 (if is_smb311 d then len cs else 0)) by by destruct (is_smb311 d).
  repeat rstep. eapply reads_bind; [apply reads_guid; [autorewrite with len; lia|done]|]. cbv beta.
  rewrite (guid_bytes_len g) by done. repeat rstep. subst tail.
  set (n := 64 + len tok). pose proof (len_nonneg tok). pose proof (len_header_pad n).
  assert (len tok <= MAX_UNPACK_BUFFER) by (unfold in_range, MAX_UNPACK_BUFFER in *; lia).
  assert (is_smb311 d && ((if is_smb311 d then len cs else 0) >? 0)
          = is_smb311 d && negb (is_empty cs)) as Econd.
  { destruct (is_smb311 d); [|done]. destruct cs as [|x cs]; [done|].
    rewrite len_cons. pose proof (len_nonneg cs). cbn [is_empty negb andb]. lia. }
  destruct (is_smb311 d && negb (is_empty cs)) eqn:E.
  - eapply reads_bind; [apply reads_u32; unfold in_range, n, Header_SIZE in *; lia|]. cbv beta.
    eapply reads_bind; [by apply reads_opt_bounded|]. cbv beta. rewrite Econd.
    bool_prop. destruct (is_smb311 d); [|done].
    eapply reads_bind_nil; [|apply reads_ret].
    match goal with |- reads_at ?q _ _ _ => assert (q = p + n) as Eq
      by (unfold n; autorewrite with len; lia) end.
    rewrite Eq. apply reads_context_list; [done|unfold n; lia|done|done].
  - repeat rstep. rewrite Econd.
    eapply reads_bind_0; [apply reads_ret|]. cbv beta.
    destruct H311 as [->| ->]; [|apply reads_ret]. destruct cs; [apply reads_ret|done].
Qed.

#[global] Program Instance NegotiateResponse_codec : Codec NegotiateResponse := {
  codec_wf := NegotiateResponse_wf;
  codec_layout := NegotiateResponse_layout
}.
Next Obligation. intros. by apply NegotiateResponse_pack_layout. Qed.
Next Obligation. intros. by apply NegotiateResponse_unpack_layout. Qed.
Next Obligation.
  unfold unpack at 1, NegotiateResponse_unpack. roks.
  eapply rok_bind with (P := λ _, True).
  { apply rok_if; intros; [apply rok_context_list|by apply rok_ret]. }
  intros. by apply rok_ret.
Qed.
