(* ===== verification/Contexts.v ===== *)
(** * CREATE contexts

    Models [src/msg/create_context.rs]: the chain of name-tagged blobs that a
    CREATE request or response carries, and the durable-handle and on-disk-id
    contexts. *)

From S2P Require Import Prelude Types Pack Codec Header FileIo Signing.

Record CreateContext := mkCreateContext { cc_name : bytes; cc_data : bytes }.

(** [n.div_ceil(8) * 8] *)
Definition align8 (n : Z) : Z := (n + 7) / 8 * 8.

(** [Vec::resize(n, 0)], which truncates as well as it extends. *)
Definition resize (l : bytes) (n : Z) : bytes :=
  if n <=? len l then take (Z.to_nat n) l else l ++ zeros (n - len l).

(** ** Packing *)

Definition context_header (ctx : CreateContext) (data_offset : Z) : Writer unit :=
  let name_offset := 16 in
  write_u32_le 0 ;;
  write_u16_le name_offset ;;
  write_u16_le (trunc 16 (len (cc_name ctx))) ;;
  write_u16_le 0 ;;
  write_u16_le data_offset ;;
  write_u32_le (trunc 32 (len (cc_data ctx))) ;;
  write_bytes (cc_name ctx).

(** The body of the first loop: one entry, its [Next] still zero. *)
Definition pack_entry (ctx : CreateContext) : result Error bytes :=
  let name_end := 16 + len (cc_name ctx) in
  let data_offset := if is_empty (cc_data ctx) then 0 else trunc 16 (align8 name_end) in
  match context_header ctx data_offset WriteCursor_new with
  | Ok (_, cursor) =>
      let bs := into_inner cursor in
      Ok (if is_empty (cc_data ctx) then bs else resize bs data_offset ++ cc_data ctx)
  | Err e => Err e
  | Panic => Panic
  end.

(** The second loop, [last] being whether the entry is the last one. *)
Definition link_entry (last : bool) (bs : bytes) : result Error bytes :=
  let bs := resize bs (align8 (len bs)) in
  if last then Ok bs else overwrite bs 0 (to_le 4 (trunc 32 (len bs))).

Fixpoint link_entries (out : list bytes) : result Error bytes :=
  match out with
  | [] => Ok []
  | bs :: out =>
      e ← link_entry (is_empty out) bs;
      rest ← link_entries out;
      Ok (e ++ rest)
  end.

Fixpoint pack_entries (contexts : list CreateContext) : result Error (list bytes) :=
  match contexts with
  | [] => Ok []
  | ctx :: contexts =>
      bs ← pack_entry ctx;
      out ← pack_entries contexts;
      Ok (bs :: out)
  end.

Definition pack_contexts (contexts : list CreateContext) : result Error bytes :=
  out ← pack_entries contexts; link_entries out.

(** ** Parsing *)

Record EntryHeader := mkEntryHeader {
  eh_next : Z; eh_name_offset : Z; eh_name_length : Z; eh_data_offset : Z; eh_data_length : Z
}.

Definition read_entry_header : Reader EntryHeader :=
  next ← read_u32_le;
  name_offset ← read_u16_le;
  name_length ← read_u16_le;
  _reserved ← read_u16_le;
  data_offset ← read_u16_le;
  data_length ← read_u32_le;
  mret (mkEntryHeader next name_offset name_length data_offset data_length).

(** [usize::checked_add] *)
Definition checked_add (a b : Z) : option Z := if a + b <? 2 ^ 64 then Some (a + b) else None.

(** The field at [off, off+n) of an entry of [entry_len] bytes. *)
Definition entry_end (entry_len off n : Z) (overflows past : string) : result Error Z :=
  match checked_add off n with
  | None => Err (invalid_data overflows)
  | Some e => if e >? entry_len then Err (invalid_data past) else Ok e
  end.

(** One round of the loop: the context of the entry and where the next one is. *)
Definition parse_entry (buf : bytes) : result Error (CreateContext * Z) :=
  '(h, _) ← read_entry_header (ReadCursor_new buf);
  let next := eh_next h in
  let entry_len := if next =? 0 then len buf else next in
  if negb (next =? 0) && (next >? len buf)
  then Err (invalid_data "create context Next points past the end of the chain")
  else
    name_end ← entry_end entry_len (eh_name_offset h) (eh_name_length h)
      "create context name overflows" "create context name runs past the entry";
    data ← (if eh_data_length h =? 0 then Ok []
            else
              data_end ← entry_end entry_len (eh_data_offset h) (eh_data_length h)
                "create context data overflows" "create context data runs past the entry";
              slice buf (eh_data_offset h) data_end);
    name ← slice buf (eh_name_offset h) name_end;
    Ok (mkCreateContext name data, next).

Fixpoint parse_contexts_loop (fuel : nat) (buf : bytes) (out : list CreateContext) :
    result Error (list CreateContext) :=
  match fuel with
  | O => Panic
  | S fuel =>
      if len buf <? 16 then
        if is_empty buf then Ok out
        else Err (invalid_data "create context chain ends inside an entry header")
      else
        '(ctx, next) ← parse_entry buf;
        let out := out ++ [ctx] in
        if next =? 0 then Ok out
        else
          buf ← slice buf next (len buf);
          parse_contexts_loop fuel buf out
  end.

(** Every round but the last drops at least one byte. *)
Definition parse_contexts (buf : bytes) : result Error (list CreateContext) :=
  parse_contexts_loop (S (length buf)) buf [].

Definition find_context (contexts : list CreateContext) (name : bytes) : option CreateContext :=
  match list_find (λ c, cc_name c = name) contexts with Some (_, c) => Some c | None => None end.

(** ** The three contexts *)

Definition NAME_DH2Q : bytes := [x44; x48; x32; x51].
Definition NAME_DH2C : bytes := [x44; x48; x32; x43].
Definition NAME_QFID : bytes := [x51; x46; x69; x64].
Definition FLAG_PERSISTENT : Z := 0x00000002.

Record DurableRequestV2 := mkDurableRequestV2 {
  dq_timeout_ms : Z; dq_persistent : bool; dq_create_guid : Guid
}.

Definition DurableRequestV2_to_bytes (d : DurableRequestV2) : result Error bytes :=
  written (write_u32_le (dq_timeout_ms d) ;;
           write_u32_le (if dq_persistent d then FLAG_PERSISTENT else 0) ;;
           write_u64_le 0 ;;
           pack (dq_create_guid d)).

Definition DurableRequestV2_context (d : DurableRequestV2) : result Error CreateContext :=
  bs ← DurableRequestV2_to_bytes d; Ok (mkCreateContext NAME_DH2Q bs).

Record DurableGrant := mkDurableGrant { dg_timeout_ms : Z; dg_persistent : bool }.

Definition DurableGrant_from_bytes (data : bytes) : result Error DurableGrant :=
  '(g, _) ← (timeout_ms ← read_u32_le;
             flags ← read_u32_le;
             mret (mkDurableGrant timeout_ms (negb (Z.land flags FLAG_PERSISTENT =? 0))))
            (ReadCursor_new data);
  Ok g.

Record DurableReconnectV2 := mkDurableReconnectV2 {
  dr_file_id : FileId; dr_create_guid : Guid; dr_persistent : bool
}.

Definition DurableReconnectV2_to_bytes (d : DurableReconnectV2) : result Error bytes :=
  written (write_file_id (dr_file_id d) ;;
           pack (dr_create_guid d) ;;
           write_u32_le (if dr_persistent d then FLAG_PERSISTENT else 0)).

Definition DurableReconnectV2_context (d : DurableReconnectV2) : result Error CreateContext :=
  bs ← DurableReconnectV2_to_bytes d; Ok (mkCreateContext NAME_DH2C bs).

Record OnDiskId := mkOnDiskId { od_disk_file_id : Z; od_volume_id : Z }.

#[global] Instance OnDiskId_eq_dec : EqDecision OnDiskId.
Proof. solve_decision. Defined.

Definition OnDiskId_request : CreateContext := mkCreateContext NAME_QFID [].

Definition OnDiskId_from_bytes (data : bytes) : result Error OnDiskId :=
  '(i, _) ← (disk_file_id ← read_u64_le;
             volume_id ← read_u64_le;
             mret (mkOnDiskId disk_file_id volume_id)) (ReadCursor_new data);
  Ok i.

(** ** Safety of the parser *)

Lemma rok_entry_header : reader_ok read_entry_header
  (λ h, is_u32 (eh_next h) ∧ is_u16 (eh_name_offset h) ∧ is_u16 (eh_name_length h)
        ∧ is_u16 (eh_data_offset h) ∧ is_u32 (eh_data_length h)).
Proof. unfold read_entry_header. roks. by apply rok_ret. Qed.

Lemma entry_end_inv entry_len off n o p e :
  entry_end entry_len off n o p = Ok e → e = off + n ∧ e <= entry_len.
Proof.
  unfold entry_end, checked_add. case_test; [|done]. case_test; [done|]. intros [= <-]. lia.
Qed.
Lemma entry_end_no_panic entry_len off n o p : entry_end entry_len off n o p ≠ Panic.
Proof. unfold entry_end. destruct (checked_add off n); [|done]. by case_test. Qed.

Lemma parse_entry_safe buf :
  match parse_entry buf with
  | Ok (_, next) => 0 <= next <= len buf
  | Err _ => True
  | Panic => False
  end.
Proof.
  unfold parse_entry. pose proof (len_nonneg buf).
  pose proof (rok_entry_header buf 0 ltac:(lia)) as Hh. unfold ReadCursor_new.
  destruct (read_entry_header (RC buf 0)) as [[h c]|e|]; [|done|done]. cbn [mbind result_bind].
  destruct Hh as ((Hn & Hno & Hnl & Hdo & Hdl) & _). unfold in_range in *. cbv zeta.
  set (next := eh_next h) in *. set (el := if next =? 0 then len buf else next).
  destruct (negb (next =? 0) && (next >? len buf)) eqn:E; [done|].
  assert (el <= len buf ∧ next <= len buf) as [Hel Hnx] by (unfold el; case_test; bool_prop; lia).
  destruct (entry_end el (eh_name_offset h) _ _ _) as [ne|e|] eqn:En; [|done|by apply entry_end_no_panic in En].
  cbn [mbind result_bind]. apply entry_end_inv in En as [-> Hne].
  destruct (if eh_data_length h =? 0 then _ else _) as [d|e|] eqn:Ed; [|done|].
  - cbn [mbind result_bind]. rewrite slice_ok by lia. cbn [mbind result_bind]. lia.
  - destruct (eh_data_length h =? 0); [done|].
    destruct (entry_end el (eh_data_offset h) _ _ _) as [de|e|] eqn:Ede;
      [|done|by apply entry_end_no_panic in Ede].
    cbn [mbind result_bind] in Ed. apply entry_end_inv in Ede as [-> Hde]. by rewrite slice_ok in Ed by lia.
Qed.

Lemma parse_contexts_loop_safe fuel buf out :
  (length buf < fuel)%nat → parse_contexts_loop fuel buf out ≠ Panic.
Proof.
  revert buf out. induction fuel as [|fuel IH]; intros buf out Hf; [lia|]. cbn [parse_contexts_loop].
  case_test; [by case_test|].
  pose proof (parse_entry_safe buf) as Hp. destruct (parse_entry buf) as [[ctx next]|e|]; [|done|done].
  cbn [mbind result_bind]. cbv zeta. destruct (next =? 0) eqn:E; [done|]. bool_prop.
  rewrite slice_ok by lia. cbn [mbind result_bind]. apply IH.
  unfold subslice, len in *. rewrite length_take, length_drop. lia.
Qed.

(** ** Packing and parsing agree *)

(** Offsets and lengths fit their fields. *)
Definition CreateContext_wf (ctx : CreateContext) : Prop :=
  align8 (16 + len (cc_name ctx)) < 2 ^ 16 ∧
  align8 (align8 (16 + len (cc_name ctx)) + len (cc_data ctx)) < 2 ^ 32.

Definition data_off (ctx : CreateContext) : Z :=
  if is_empty (cc_data ctx) then 0 else align8 (16 + len (cc_name ctx)).

Definition entry_fixed (next : Z) (ctx : CreateContext) : bytes :=
  to_le 4 next ++ to_le 2 16 ++ to_le 2 (len (cc_name ctx)) ++ to_le 2 0
  ++ to_le 2 (data_off ctx) ++ to_le 4 (len (cc_data ctx)).

Definition entry_body (ctx : CreateContext) : bytes :=
  cc_name ctx ++ if is_empty (cc_data ctx) then []
                 else zeros (data_off ctx - (16 + len (cc_name ctx))) ++ cc_data ctx.

Lemma align8_spec n : n <= align8 n < n + 8.
Proof. unfold align8. pose proof (Z.div_mod (n + 7) 8). pose proof (Z.mod_pos_bound (n + 7) 8). lia. Qed.

Lemma resize_extends l n : len l <= n → resize l n = l ++ zeros (n - len l).
Proof.
  intros H. unfold resize. case_test; [|done]. replace (n - len l) with 0 by lia.
  rewrite app_nil_r. apply take_ge. unfold len in *. lia.
Qed.

Lemma entry_fixed_len next ctx : len (entry_fixed next ctx) = 16.
Proof. unfold entry_fixed. by autorewrite with len. Qed.
#[export] Hint Rewrite entry_fixed_len : len.

Lemma CreateContext_wf_ranges ctx :
  CreateContext_wf ctx →
  is_u16 (len (cc_name ctx)) ∧ is_u16 (data_off ctx) ∧ is_u32 (len (cc_data ctx))
  ∧ is_u32 (align8 (16 + len (entry_body ctx))).
Proof.
  intros [H1 H2]. pose proof (len_nonneg (cc_name ctx)). pose proof (len_nonneg (cc_data ctx)).
  pose proof (align8_spec (16 + len (cc_name ctx))).
  pose proof (align8_spec (align8 (16 + len (cc_name ctx)) + len (cc_data ctx))).
  unfold in_range, entry_body, data_off. destruct (cc_data ctx) as [|b0 bs] eqn:E; cbn [is_empty].
  - change (len (@nil byte)) with 0 in *. autorewrite with len.
    replace (16 + (len (cc_name ctx) + 0)) with (16 + len (cc_name ctx)) by lia. lia.
  - set (d := b0 :: bs) in *. rewrite !len_app, len_zeros by lia.
    replace (16 + (_ + (_ - _ + len d))) with (align8 (16 + len (cc_name ctx)) + len d) by lia. lia.
Qed.

Lemma pack_entry_ok ctx :
  CreateContext_wf ctx → pack_entry ctx = Ok (entry_fixed 0 ctx ++ entry_body ctx).
Proof.
  intros Hw. pose proof (CreateContext_wf_ranges ctx Hw) as (H1 & H2 & H3 & _).
  unfold pack_entry. cbv zeta.
  pose proof (len_nonneg (cc_name ctx)). pose proof (align8_spec (16 + len (cc_name ctx))).
  replace (if is_empty (cc_data ctx) then 0 else _) with (data_off ctx)
    by (unfold data_off in *; destruct (is_empty _); [done|by rewrite trunc_small]).
  assert (writes_at 0 (context_header ctx (data_off ctx)) (entry_fixed 0 ctx ++ cc_name ctx)) as Hh.
  { unfold writes_at, context_header, entry_fixed. cbv zeta. wsteps. wtrunc. wdone. }
  specialize (Hh [] eq_refl). cbn [app] in Hh. unfold WriteCursor_new. rewrite Hh. cbn [into_inner buf].
  unfold entry_body. destruct (cc_data ctx) as [|b0 bs] eqn:E; cbn [is_empty]; [by rewrite app_nil_r|].
  rewrite resize_extends.
  - autorewrite with len. by rewrite <- !app_assoc.
  - autorewrite with len. unfold data_off. rewrite E. cbn [is_empty]. lia.
Qed.

(** An entry with its padding and its link. *)
Definition entry_len_of (ctx : CreateContext) : Z := align8 (16 + len (entry_body ctx)).
Definition entry_bytes (last : bool) (ctx : CreateContext) : bytes :=
  entry_fixed (if last then 0 else entry_len_of ctx) ctx ++ entry_body ctx
  ++ zeros (entry_len_of ctx - (16 + len (entry_body ctx))).

Lemma entry_bytes_len last ctx : len (entry_bytes last ctx) = entry_len_of ctx.
Proof.
  unfold entry_bytes. pose proof (align8_spec (16 + len (entry_body ctx))). unfold entry_len_of.
  autorewrite with len. rewrite len_zeros by lia. lia.
Qed.

Lemma link_entry_ok last ctx :
  CreateContext_wf ctx → link_entry last (entry_fixed 0 ctx ++ entry_body ctx) = Ok (entry_bytes last ctx).
Proof.
  intros Hw. pose proof (align8_spec (16 + len (entry_body ctx))) as Ha.
  pose proof (len_nonneg (entry_body ctx)). pose proof (entry_bytes_len true ctx) as Hl.
  assert (len (entry_fixed 0 ctx ++ entry_body ctx) = 16 + len (entry_body ctx)) as E
    by (by autorewrite with len).
  unfold link_entry. cbv zeta. rewrite E. fold (entry_len_of ctx) in Ha |- *.
  rewrite resize_extends, E, <- app_assoc by lia.
  change (entry_fixed 0 ctx ++ _) with (entry_bytes true ctx). rewrite Hl.
  destruct last; [done|]. rewrite overwrite_ok; [|lia|rewrite Hl; autorewrite with len; lia].
  unfold patch, entry_bytes, entry_fixed. wtrunc. autorewrite with len. by rewrite <- !app_assoc.
Qed.

Fixpoint chain_bytes (l : list CreateContext) : bytes :=
  match l with [] => [] | c :: l => entry_bytes (is_empty l) c ++ chain_bytes l end.

Lemma pack_contexts_ok l : Forall CreateContext_wf l → pack_contexts l = Ok (chain_bytes l).
Proof.
  intros Hl. unfold pack_contexts.
  assert (pack_entries l = Ok (map (λ c, entry_fixed 0 c ++ entry_body c) l)) as E.
  { induction Hl as [|c l Hc Hl IH]; [done|]. cbn [pack_entries map].
    rewrite pack_entry_ok by done. cbn [mbind result_bind]. by rewrite IH. }
  rewrite E. cbn [mbind result_bind]. clear E.
  induction Hl as [|c l Hc Hl IH]; [done|]. cbn [map link_entries chain_bytes].
  replace (is_empty (map _ l)) with (is_empty l) by by destruct l.
  rewrite link_entry_ok by done. cbn [mbind result_bind]. by rewrite IH.
Qed.

Lemma entry_end_ok entry_len off n o p :
  off + n <= entry_len → off + n < 2 ^ 64 → entry_end entry_len off n o p = Ok (off + n).
Proof.
  intros H1 H2. unfold entry_end, checked_add. rewrite (proj2 (Z.ltb_lt _ _)) by done.
  by case_test; [lia|].
Qed.

(** The parser finds a packed entry, whatever follows. *)
Lemma parse_entry_ok next ctx rest :
  CreateContext_wf ctx → is_u32 next →
  let buf := entry_fixed next ctx ++ entry_body ctx ++ rest in
  (next ≠ 0 → 16 + len (entry_body ctx) <= next <= len buf) →
  parse_entry buf = Ok (ctx, next).
Proof.
  intros Hw Hn buf Hb. pose proof (CreateContext_wf_ranges ctx Hw) as (H1 & H2 & H3 & _).
  pose proof (len_nonneg (cc_name ctx)). pose proof (len_nonneg rest).
  pose proof (align8_spec (16 + len (cc_name ctx))).
  assert (reads_at 0 read_entry_header (entry_fixed next ctx)
            (mkEntryHeader next 16 (len (cc_name ctx)) (data_off ctx) (len (cc_data ctx)))) as Hr.
  { unfold read_entry_header, entry_fixed. rsteps. }
  specialize (Hr [] (entry_body ctx ++ rest) eq_refl). cbn [app] in Hr.
  unfold parse_entry, ReadCursor_new. fold buf in Hr. rewrite Hr. cbn [mbind result_bind]. cbv zeta.
  cbn [eh_next eh_name_offset eh_name_length eh_data_offset eh_data_length].
  assert (len buf = 16 + len (entry_body ctx) + len rest) as El by (unfold buf; autorewrite with len; lia).
  set (el := if next =? 0 then len buf else next).
  assert (16 + len (entry_body ctx) <= el) as Hel by (unfold el; case_test; bool_prop; [lia|by apply Hb]).
  assert (negb (next =? 0) && (next >? len buf) = false) as ->.
  { destruct (decide (next = 0)) as [->|Hne]; [done|]. pose proof (Hb Hne). lia. }
  cbv iota. clearbody el. unfold in_range in *.
  assert (slice (E:=Error) buf 16 (16 + len (cc_name ctx)) = Ok (cc_name ctx)) as Hname.
  { unfold buf, entry_body. rewrite <- app_assoc. apply slice_app; by autorewrite with len. }
  destruct (cc_data ctx) as [|b0 bs] eqn:Ed.
  - assert (len (entry_body ctx) = len (cc_name ctx)) as Ebl
      by (unfold entry_body; rewrite Ed; cbn [is_empty]; autorewrite with len; lia).
    rewrite (entry_end_ok el 16) by lia. cbn [mbind result_bind]. change (len (@nil byte) =? 0) with true. cbv iota.
    cbn [mbind result_bind]. rewrite Hname. cbn [mbind result_bind]. do 2 f_equal.
    destruct ctx as [nm dt]. cbn in *. by subst.
  - rewrite <- Ed in *. assert (0 < len (cc_data ctx)) by (rewrite Ed, len_cons; pose proof (len_nonneg bs); lia).
    assert (data_off ctx = align8 (16 + len (cc_name ctx))) as Eo by (unfold data_off; by rewrite Ed).
    assert (entry_body ctx = cc_name ctx ++ zeros (data_off ctx - (16 + len (cc_name ctx))) ++ cc_data ctx) as Eb
      by (unfold entry_body; by rewrite Ed).
    assert (len (entry_body ctx) = data_off ctx + len (cc_data ctx) - 16) as Ebl
      by (rewrite Eb; autorewrite with len; rewrite len_zeros by lia; lia).
    rewrite (entry_end_ok el 16) by lia. cbn [mbind result_bind].
    rewrite (proj2 (Z.eqb_neq (len (cc_data ctx)) 0)) by lia. cbv iota.
    rewrite entry_end_ok by lia. cbn [mbind result_bind].
    assert (slice (E:=Error) buf (data_off ctx) (data_off ctx + len (cc_data ctx)) = Ok (cc_data ctx)) as ->.
    { unfold buf. rewrite Eb, <- !app_assoc, !app_assoc.
      rewrite <- (app_assoc _ (cc_data ctx)).
      apply slice_app; autorewrite with len; rewrite len_zeros by lia; lia. }
    cbn [mbind result_bind]. rewrite Hname. cbn [mbind result_bind]. do 2 f_equal. by destruct ctx.
Qed.

Lemma parse_chain l fuel out :
  Forall CreateContext_wf l → (length l < fuel)%nat →
  parse_contexts_loop fuel (chain_bytes l) out = Ok (out ++ l).
Proof.
  intros Hl. revert fuel out. induction Hl as [|c l Hc Hl IH]; intros fuel out Hf.
  { destruct fuel; [cbn in Hf; lia|]. cbn. by rewrite app_nil_r. }
  destruct fuel as [|fuel]; [cbn in Hf; lia|]. cbn [length] in Hf.
  pose proof (CreateContext_wf_ranges c Hc) as (_ & _ & _ & Hel). fold (entry_len_of c) in Hel.
  pose proof (align8_spec (16 + len (entry_body c))) as Ha. fold (entry_len_of c) in Ha.
  pose proof (len_nonneg (entry_body c)). pose proof (len_nonneg (chain_bytes l)).
  pose proof (entry_bytes_len (is_empty l) c) as Hlen. unfold in_range in Hel.
  cbn [parse_contexts_loop chain_bytes]. rewrite len_app, Hlen.
  rewrite (proj2 (Z.ltb_ge _ _)) by lia. cbv iota.
  assert (parse_entry (entry_bytes (is_empty l) c ++ chain_bytes l)
            = Ok (c, if is_empty l then 0 else entry_len_of c)) as ->.
  { unfold entry_bytes in *. rewrite <- !app_assoc. apply parse_entry_ok; [done|by destruct (is_empty l)|].
    autorewrite with len. rewrite len_zeros by lia. destruct (is_empty l); [done|]. intros _. lia. }
  cbn [mbind result_bind]. cbv zeta.
  destruct l as [|c' l]; cbn [is_empty]; [done|].
  rewrite (proj2 (Z.eqb_neq _ _)) by lia. rewrite slice_ok by (rewrite ?len_app; cbn [is_empty] in *; lia).
  cbn [mbind result_bind is_empty] in *.
  replace (subslice _ _ _) with (chain_bytes (c' :: l)).
  - rewrite IH by lia. f_equal. by rewrite <- app_assoc.
  - symmetry. rewrite <- (app_nil_r (chain_bytes (c' :: l))) at 1.
    apply subslice_app; [by rewrite Hlen|]. rewrite Hlen. lia.
Qed.

Lemma contexts_back l :
  Forall CreateContext_wf l → ∃ bs, pack_contexts l = Ok bs ∧ parse_contexts bs = Ok l.
Proof.
  intros Hl. exists (chain_bytes l). split; [by apply pack_contexts_ok|]. apply parse_chain; [done|].
  clear -Hl. induction Hl as [|c l Hc Hl IH]; [cbn; lia|]. cbn [chain_bytes length].
  rewrite length_app. pose proof (entry_bytes_len (is_empty l) c) as E. unfold len in E.
  pose proof (align8_spec (16 + len (entry_body c))). pose proof (len_nonneg (entry_body c)).
  unfold entry_len_of in E. lia.
Qed.

Lemma parse_contexts_safe buf : parse_contexts buf ≠ Panic.
Proof. apply parse_contexts_loop_safe. lia. Qed.

(** ** Properties *)

(** The chain of contexts a CREATE carries survives the trip: what
    [pack_contexts] writes, [parse_contexts] reads back exactly, whatever the
    names and however many contexts there are; and no bytes a server can send
    make [parse_contexts] panic or loop. *)
Theorem create_contexts_round_trip l buf :
  Forall CreateContext_wf l →
  (∃ bs, pack_contexts l = Ok bs ∧ parse_contexts bs = Ok l) ∧ parse_contexts buf ≠ Panic.
Proof. intros Hl. split; [by apply contexts_back|apply parse_contexts_safe]. Qed.

Lemma create_contexts_round_trip_witness :
  let l := [mkCreateContext NAME_DH2Q (zeros 32); OnDiskId_request] in
  ∃ bs, pack_contexts l = Ok bs ∧ parse_contexts bs = Ok l.
Proof. apply (create_contexts_round_trip _ []). repeat constructor. Defined.

Example find_request : find_context [OnDiskId_request] NAME_DH2Q = None.
Proof. reflexivity. Qed.
