(* ===== verification/Referral.v ===== *)
(** * DFS referral messages

    Models [src/msg/dfs.rs]: the referral request, and the parser of the
    response, whose entries point into one buffer with offsets relative to the
    start of each entry. *)

From S2P Require Import Prelude Types Pack Codec Utf16 Header FileIo.

(** ** REQ_GET_DFS_REFERRAL *)

Record ReqGetDfsReferral := mkReqGetDfsReferral {
  rgd_max_referral_level : Z;
  rgd_request_file_name : list Z
}.

#[global] Instance ReqGetDfsReferral_pack : Pack ReqGetDfsReferral := λ m,
  write_u16_le (rgd_max_referral_level m) ;;
  write_utf16_le (rgd_request_file_name m) ;;
  write_u16_le 0.

(** The loop of [read_null_terminated_utf16]: code units up to a zero.  A round
    consumes two bytes, so one round per byte left in the buffer is enough. *)
Fixpoint read_units (fuel : nat) : Reader (list Z) :=
  match fuel with
  | O => st_panic
  | S fuel =>
      cu ← read_u16_le;
      if cu =? 0 then mret [] else us ← read_units fuel; mret (cu :: us)
  end.

Definition read_null_terminated_utf16 : Reader (list Z) :=
  n ← rc_remaining;
  code_units ← read_units (S (Z.to_nat n));
  match from_utf16 code_units with
  | Some s => mret s
  | None => st_err (invalid_data "invalid UTF-16LE in DFS request file name")
  end.

#[global] Instance ReqGetDfsReferral_unpack : Unpack ReqGetDfsReferral :=
  max_referral_level ← read_u16_le;
  request_file_name ← read_null_terminated_utf16;
  mret (mkReqGetDfsReferral max_referral_level request_file_name).

(** ** RESP_GET_DFS_REFERRAL *)

Record DfsReferralEntry := mkDfsReferralEntry {
  dre_version : Z;
  dre_server_type : Z;
  dre_referral_entry_flags : Z;
  dre_ttl : Z;
  dre_dfs_path : list Z;
  dre_dfs_alternate_path : list Z;
  dre_network_address : list Z
}.

Record RespGetDfsReferral := mkRespGetDfsReferral {
  rsd_path_consumed : Z;
  rsd_header_flags : Z;
  rsd_entries : list DfsReferralEntry
}.

(** [u16::from_le_bytes([buf[pos], buf[pos + 1]])]: indexing panics outside. *)
Definition read_u16 (buf : bytes) (pos : Z) : result Error Z :=
  bs ← slice buf pos (pos + 2); Ok (of_le bs).
Definition read_u32 (buf : bytes) (pos : Z) : result Error Z :=
  bs ← slice buf pos (pos + 4); Ok (of_le bs).

Definition ensure_remaining (buf : bytes) (pos need : Z) : result Error unit :=
  if pos + need >? len buf
  then Err (invalid_data "DFS referral entry truncated: need {need} bytes at offset {pos}, buf len {}")
  else Ok tt.

Fixpoint units_at (fuel : nat) (buf : bytes) (pos : Z) : result Error (list Z) :=
  match fuel with
  | O => Panic
  | S fuel =>
      if pos + 2 >? len buf then Err (invalid_data "DFS referral string extends past buffer")
      else
        cu ← read_u16 buf pos;
        if cu =? 0 then Ok [] else us ← units_at fuel buf (pos + 2); Ok (cu :: us)
  end.

Definition read_null_terminated_utf16_at (buf : bytes) (offset : Z) : result Error (list Z) :=
  code_units ← units_at (S (length buf)) buf offset;
  match from_utf16 code_units with
  | Some s => Ok s
  | None => Err (invalid_data "invalid UTF-16LE in DFS referral string")
  end.

Definition read_offset_string (buf : bytes) (entry_start offset : Z) : result Error (list Z) :=
  let abs := entry_start + offset in
  read_null_terminated_utf16_at buf abs.

(** The three strings of an entry, whose offsets are at [pos]. *)
Definition read_strings (buf : bytes) (entry_start pos : Z) :
    result Error (list Z * list Z * list Z) :=
  dfs_path_offset ← read_u16 buf pos;
  dfs_alternate_path_offset ← read_u16 buf (pos + 2);
  network_address_offset ← read_u16 buf (pos + 4);
  dfs_path ← read_offset_string buf entry_start dfs_path_offset;
  dfs_alternate_path ← read_offset_string buf entry_start dfs_alternate_path_offset;
  network_address ← read_offset_string buf entry_start network_address_offset;
  Ok (dfs_path, dfs_alternate_path, network_address).

Definition parse_referral_entry (version : Z) (buf : bytes) (entry_start : Z) :
    result Error DfsReferralEntry :=
  let pos := entry_start + 4 in
  if version =? 2 then
    ensure_remaining buf pos 18 ;;
    server_type ← read_u16 buf pos;
    referral_entry_flags ← read_u16 buf (pos + 2);
    _proximity ← read_u32 buf (pos + 4);
    ttl ← read_u32 buf (pos + 8);
    '(p, a, n) ← read_strings buf entry_start (pos + 12);
    Ok (mkDfsReferralEntry version server_type referral_entry_flags ttl p a n)
  else if (version =? 3) || (version =? 4) then
    ensure_remaining buf pos 14 ;;
    server_type ← read_u16 buf pos;
    referral_entry_flags ← read_u16 buf (pos + 2);
    ttl ← read_u32 buf (pos + 4);
    '(p, a, n) ← read_strings buf entry_start (pos + 8);
    Ok (mkDfsReferralEntry version server_type referral_entry_flags ttl p a n)
  else Err (invalid_data "unsupported DFS referral version: {version} (only V2-V4 are supported)").

(** The loop over the entries, [n] of them left, at [offset]. *)
Fixpoint parse_entries (n : nat) (entry_data : bytes) (offset : Z) :
    result Error (list DfsReferralEntry) :=
  match n with
  | O => Ok []
  | S n =>
      if offset + 4 >? len entry_data
      then Err (invalid_data "DFS referral entry truncated (version/size header)")
      else
        version ← read_u16 entry_data offset;
        entry_size ← read_u16 entry_data (offset + 2);
        if entry_size <? 4
        then Err (invalid_data "DFS referral entry size too small: {entry_size}")
        else
          let entry_end := offset + entry_size in
          if entry_end >? len entry_data
          then Err (invalid_data "DFS referral entry extends past buffer: entry_end={entry_end}, buf={}")
          else
            entry ← parse_referral_entry version entry_data offset;
            entries ← parse_entries n entry_data entry_end;
            Ok (entry :: entries)
  end.

#[global] Instance RespGetDfsReferral_unpack : Unpack RespGetDfsReferral :=
  path_consumed ← read_u16_le;
  number_of_referrals ← read_u16_le;
  header_flags ← read_u32_le;
  n ← rc_remaining;
  entry_data ← read_bytes n;
  entries ← st_lift (parse_entries (Z.to_nat number_of_referrals) entry_data 0);
  mret (mkRespGetDfsReferral path_consumed header_flags entries).

(** ** The response parser is safe *)

(** A computation that gives a value satisfying [P] or an error. *)
Definition fine {A} (P : A → Prop) (r : result Error A) : Prop :=
  match r with Ok a => P a | Err _ => True | Panic => False end.

Lemma fine_bind {A B} (P : A → Prop) (Q : B → Prop) r (k : A → result Error B) :
  fine P r → (∀ a, P a → fine Q (k a)) → fine Q (r ≫= k).
Proof. intros Hr Hk. destruct r; [by apply Hk|done|done]. Qed.
Lemma fine_weaken {A} (P Q : A → Prop) r : (∀ a, P a → Q a) → fine P r → fine Q r.
Proof. intros H Hr. destruct r; [by apply H|done|done]. Qed.

Lemma read_u16_fine buf pos : 0 <= pos → pos + 2 <= len buf → fine is_u16 (read_u16 buf pos).
Proof.
  intros H1 H2. unfold read_u16. rewrite slice_ok by lia. cbn.
  pose proof (of_le_range (subslice buf pos (pos + 2))) as H. rewrite len_subslice in H by lia.
  replace (pos + 2 - pos) with 2 in H by lia. exact H.
Qed.
Lemma read_u32_fine buf pos : 0 <= pos → pos + 4 <= len buf → fine is_u32 (read_u32 buf pos).
Proof.
  intros H1 H2. unfold read_u32. rewrite slice_ok by lia. cbn.
  pose proof (of_le_range (subslice buf pos (pos + 4))) as H. rewrite len_subslice in H by lia.
  replace (pos + 4 - pos) with 4 in H by lia. exact H.
Qed.

Lemma units_at_fine fuel buf pos :
  0 <= pos → Z.max 0 (len buf - pos) < Z.of_nat fuel → fine (Forall is_u16) (units_at fuel buf pos).
Proof.
  revert pos. induction fuel as [|fuel IH]; intros pos Hp Hf; [lia|]. cbn [units_at].
  case_test; [done|]. eapply fine_bind; [apply read_u16_fine; lia|]. intros cu Hcu.
  case_test; [by constructor|]. eapply fine_bind; [apply IH; lia|]. intros us Hus. by constructor.
Qed.

Lemma offset_string_fine buf start off :
  0 <= start → 0 <= off → fine str_wf (read_offset_string buf start off).
Proof.
  intros Hs Ho. unfold read_offset_string, read_null_terminated_utf16_at. cbv zeta.
  eapply fine_bind; [apply units_at_fine; unfold len; lia|]. intros us Hus.
  destruct (from_utf16 us) as [s|] eqn:E; [|done]. by apply from_utf16_sound in E as [? _].
Qed.

Definition DfsReferralEntry_wf (e : DfsReferralEntry) : Prop :=
  dre_version e ∈ [2; 3; 4] ∧ is_u16 (dre_server_type e) ∧ is_u16 (dre_referral_entry_flags e)
  ∧ is_u32 (dre_ttl e) ∧ str_wf (dre_dfs_path e) ∧ str_wf (dre_dfs_alternate_path e)
  ∧ str_wf (dre_network_address e).

Lemma read_strings_fine buf start pos :
  0 <= start → 0 <= pos → pos + 6 <= len buf →
  fine (λ t, str_wf t.1.1 ∧ str_wf t.1.2 ∧ str_wf t.2) (read_strings buf start pos).
Proof.
  intros Hs Hp Hl. unfold read_strings.
  do 3 (eapply fine_bind; [apply read_u16_fine; lia|]; intros ? ?).
  do 3 (eapply fine_bind; [apply offset_string_fine; [done|eauto with smb]|]; intros ? ?). done.
Qed.

Lemma ensure_remaining_fine buf pos need :
  fine (λ _, pos + need <= len buf) (ensure_remaining buf pos need).
Proof. unfold ensure_remaining. case_test; [done|]. cbn. lia. Qed.

Lemma parse_referral_entry_fine version buf start :
  0 <= start → fine DfsReferralEntry_wf (parse_referral_entry version buf start).
Proof.
  intros Hs. unfold parse_referral_entry. cbv zeta.
  destruct (version =? 2) eqn:E2; [|destruct ((version =? 3) || (version =? 4)) eqn:E3; [|done]];
    (eapply fine_bind; [apply ensure_remaining_fine|]; intros [] Hl);
    do 2 (eapply fine_bind; [apply read_u16_fine; lia|]; intros ? ?);
    [eapply fine_bind; [apply read_u32_fine; lia|]; intros ? ?|];
    (eapply fine_bind; [apply read_u32_fine; lia|]; intros ? ?);
    (eapply fine_bind; [apply read_strings_fine; lia|]; intros [[pth alt] net] (?&?&?));
    unfold DfsReferralEntry_wf; cbn in *; split_and!; try done; bool_prop.
  - set_solver.
  - destruct E3; bool_prop; set_solver.
Qed.

Lemma parse_entries_fine n buf off :
  0 <= off → fine (λ l, length l = n ∧ Forall DfsReferralEntry_wf l) (parse_entries n buf off).
Proof.
  revert off. induction n as [|n IH]; intros off Ho; cbn [parse_entries]; [done|].
  case_test; [done|]. do 2 (eapply fine_bind; [apply read_u16_fine; lia|]; intros ? ?).
  case_test; [done|]. cbv zeta. case_test; [done|].
  eapply fine_bind; [by apply parse_referral_entry_fine|]. intros e He.
  eapply fine_bind; [apply IH; lia|]. intros l [Hl Hw]. cbn. split; [lia|by constructor].
Qed.

(** A fixed-width read of a cursor, spelled out. *)
Lemma read_le_eq n d p :
  0 <= p → 0 <= n →
  (bs ← read_array n; mret (of_le bs)) (RC d p)
  = if len d - p <? n then Err (invalid_data "need {} bytes but only {} remain at offset {}")
    else Ok (of_le (subslice d p (p + n)), RC d (p + n)).
Proof.
  intros Hp Hn. unfold read_array, ensure, take_slice, mbind, st_bind, remaining. cbn [data pos].
  case_test; [done|]. cbn [data pos]. by rewrite slice_ok by lia.
Qed.

(** ** The request parses back *)

Definition ReqGetDfsReferral_wf (m : ReqGetDfsReferral) : Prop :=
  is_u16 (rgd_max_referral_level m) ∧ str_wf (rgd_request_file_name m) ∧
  0 ∉ rgd_request_file_name m.

Lemma units_nonzero s : str_wf s → 0 ∉ s → Forall (λ u, is_u16 u ∧ u ≠ 0) (encode_utf16 s).
Proof.
  intros Hs H0. pose proof (encode_utf16_u16 s Hs) as Hu. apply Forall_and. split; [done|]. clear Hu.
  induction Hs as [|c s Hc Hs IH]; [constructor|]. unfold encode_utf16 in *. rewrite bind_cons.
  apply Forall_app. split; [|apply IH; set_solver]. unfold is_char in Hc. unfold char_utf16.
  assert (c ≠ 0) by (intros ->; set_solver).
  case_test; [by repeat constructor|]. bool_prop. repeat constructor.
  - intros E. pose proof (Z.div_pos (c - 65536) 1024). lia.
  - intros E. pose proof (Z.mod_pos_bound (c - 65536) 1024). lia.
Qed.

Lemma reads_units fuel p us :
  Forall (λ u, is_u16 u ∧ u ≠ 0) us → (length us < fuel)%nat →
  reads_at p (read_units fuel) ((us ≫= to_le 2) ++ to_le 2 0) us.
Proof.
  intros Hu. revert fuel p. induction Hu as [|u us [Hu Hne] Hus IH]; intros fuel p Hf;
    (destruct fuel as [|fuel]; [cbn in Hf; lia|]); cbn [read_units length] in *.
  - eapply reads_bind_nil; [by apply reads_u16|]. apply reads_ret.
  - rewrite bind_cons, <- app_assoc. eapply reads_bind; [by apply reads_u16|]. cbv beta.
    rewrite (proj2 (Z.eqb_neq _ _)) by done.
    eapply reads_bind_nil; [apply IH; lia|]. apply reads_ret.
Qed.

Lemma reads_null_terminated p s :
  0 <= p → str_wf s → 0 ∉ s →
  reads_at p read_null_terminated_utf16 (utf16_le_bytes s ++ to_le 2 0) s.
Proof.
  intros Hp Hs H0 pre post Hpre. unfold read_null_terminated_utf16, mbind, st_bind, rc_remaining.
  unfold remaining. cbn [data pos]. unfold utf16_le_bytes.
  rewrite (reads_units _ p (encode_utf16 s) (units_nonzero s Hs H0)); [|..|done].
  - by rewrite from_utf16_encode.
  - pose proof (len_units (encode_utf16 s)). pose proof (len_nonneg post). rewrite !len_app. unfold len in *. lia.
Qed.

(** A referral request parses back from its bytes. *)
Lemma referral_request_round_trip m :
  ReqGetDfsReferral_wf m →
  ∃ bs, packed m = Ok bs ∧ unpack ReqGetDfsReferral (ReadCursor_new bs) = Ok (m, RC bs (len bs)).
Proof.
  intros (H1 & H2 & H3). destruct m as [l s]. cbn [rgd_max_referral_level rgd_request_file_name] in *.
  exists (to_le 2 l ++ utf16_le_bytes s ++ to_le 2 0). split.
  - apply writes_at_packed. unfold writes_at, pack, ReqGetDfsReferral_pack.
    cbn [rgd_max_referral_level rgd_request_file_name]. wsteps. wdone.
  - assert (reads_at 0 (unpack ReqGetDfsReferral) (to_le 2 l ++ utf16_le_bytes s ++ to_le 2 0)
              (mkReqGetDfsReferral l s)) as Hr.
    { unfold unpack, ReqGetDfsReferral_unpack. rstep.
      eapply reads_bind_nil; [apply reads_null_terminated; [autorewrite with len; lia|done|done]|].
      apply reads_ret. }
    specialize (Hr [] [] eq_refl). rewrite app_nil_r in Hr. exact Hr.
Qed.

(** No bytes a server can send make the referral parser panic, loop, or read
    outside its buffer; what it accepts has as many entries as the header
    announced, of known versions, with every field in range and every string
    well-formed. *)
Lemma referral_parse_safe d :
  match unpack RespGetDfsReferral (ReadCursor_new d) with
  | Ok (r, c) => c = RC d (len d) ∧ len (rsd_entries r) = of_le (subslice d 2 4) ∧
                 Forall DfsReferralEntry_wf (rsd_entries r)
  | Err _ => True
  | Panic => False
  end.
Proof.
  unfold unpack, RespGetDfsReferral_unpack, ReadCursor_new, read_u16_le, read_u32_le.
  unfold mbind at 1, st_bind at 1. rewrite read_le_eq by lia. case_test; [done|].
  unfold mbind at 1, st_bind at 1. rewrite read_le_eq by lia. case_test; [done|].
  unfold mbind at 1, st_bind at 1. rewrite read_le_eq by lia. case_test; [done|].
  unfold mbind, st_bind, rc_remaining, read_bytes, ensure, take_slice, remaining. cbn [data pos].
  unfold mbind, st_bind. cbn [data pos]. rewrite Z.ltb_irrefl. cbn [data pos]. rewrite slice_ok by lia. unfold st_lift.
  change (0 + 2) with 2. change (2 + 2) with 4.
  match goal with |- context [parse_entries ?n ?b 0] =>
    pose proof (parse_entries_fine n b 0 ltac:(lia)) as Hf; destruct (parse_entries n b 0) as [l|e|] end;
    [|done|done].
  destruct Hf as [Hl Hw]. cbn. split_and!; [f_equal; lia| |done].
  pose proof (of_le_range (subslice d 2 4)). unfold len at 1. rewrite Hl. lia.
Qed.
