(* ===== verification/Connection.v ===== *)
(** * The connection: request registration, routing and teardown

    Models the state behind [Arc<Inner>] in [src/client/connection.rs] and the
    operations that change it on the request and on the receive side.  Each
    operation that the code runs under one lock is one atomic function on
    [Inner]; tasks interleave at that grain.  Clock readings are arguments.

    A caller waits on a oneshot channel.  Channels are identified by numbers
    and [channels] records the fate of each: still empty, answered, closed
    because the sender went away, or abandoned by the receiver. *)

From S2P Require Import Prelude Types Pack Codec Header Signing Transform Compound Credits Oplock.

(** ** Frames and waiters *)

Record Frame := mkFrame { fr_header : Header; fr_body : bytes; fr_raw : bytes }.

Inductive Channel :=
| ChEmpty
| ChAnswered (r : result Error Frame)
| ChSenderGone
| ChReceiverGone.

Record Waiter := mkWaiter {
  w_tx : nat;
  w_command : Command;
  w_registered_at : Z;
  w_sent_at : option Z;
  w_last_activity : Z;
  w_async_id : option Z
}.

Record WaiterGuard := mkWaiterGuard { g_msg_id : Z; g_rx : nat }.

(** What the guard's [recv] returns once its channel is settled. *)
Definition recv_result (c : Channel) : option (result Error Frame) :=
  match c with
  | ChEmpty => None
  | ChAnswered r => Some r
  | ChSenderGone | ChReceiverGone => Some (Err Disconnected)
  end.

(** ** Metrics the modelled code touches *)

Inductive metric :=
| requests_sent | unsolicited_notifications_received | status_pending_loops
| signature_failures | session_expired_events | decrypt_failures
| decompress_failures | malformed_frames | responses_routed_ok
| responses_routed_err | responses_late_after_drop | responses_stray
| credit_waits | explicit_cancels_sent | wire_bytes_sent
| wire_bytes_received | credit_starvations | scheduling_stalls | response_deadline_extensions
| response_timeouts | long_poll_refreshes | keepalive_probes_skipped | keepalive_probes_sent
| keepalive_failures | reconnect_attempts | reconnects_succeeded | reconnects_failed
| send_failures | compound_requests_sent | requests_returned_err.

#[global] Instance metric_eq_dec : EqDecision metric.
Proof. solve_decision. Defined.

Definition Metrics : Type := metric → Z.
Definition fetch_add (k : metric) (n : Z) (m : Metrics) : Metrics :=
  λ x, if decide (x = k) then m x + n else m x.

(** ** Shared state *)

Section connection.
Context {Sem : Type} `{Semaphore Sem, MacPrimitives, AeadPrimitives, Lz4}.

Record Inner := mkInner {
  waiters : gmap Z Waiter;
  in_disconnected : bool;
  in_credits : CreditPool (Sem := Sem);
  next_message_id : Z;
  crypto : CryptoState;
  abandoned : list Z;
  dfs_trees : gset Z;
  oplock_trees : gmap FileId Z;
  previous_session_id : Z;
  last_frame_at : option Z;
  metrics : Metrics;
  channels : gmap nat Channel;
  (** acknowledgments handed to their own task, oldest first *)
  spawned_acks : list (Z * OplockBreak)
}.

Definition Inner_new : Inner :=
  mkInner ∅ false CreditPool_new 0 CryptoState_new [] ∅ ∅ 0 None (λ _, 0) ∅ [].

Definition set_waiters (f : gmap Z Waiter → gmap Z Waiter) (i : Inner) : Inner :=
  mkInner (f (waiters i)) (in_disconnected i) (in_credits i) (next_message_id i) (crypto i)
    (abandoned i) (dfs_trees i) (oplock_trees i) (previous_session_id i) (last_frame_at i)
    (metrics i) (channels i) (spawned_acks i).
Definition set_disconnected (b : bool) (i : Inner) : Inner :=
  mkInner (waiters i) b (in_credits i) (next_message_id i) (crypto i)
    (abandoned i) (dfs_trees i) (oplock_trees i) (previous_session_id i) (last_frame_at i)
    (metrics i) (channels i) (spawned_acks i).
Definition set_credits (f : CreditPool → CreditPool) (i : Inner) : Inner :=
  mkInner (waiters i) (in_disconnected i) (f (in_credits i)) (next_message_id i) (crypto i)
    (abandoned i) (dfs_trees i) (oplock_trees i) (previous_session_id i) (last_frame_at i)
    (metrics i) (channels i) (spawned_acks i).
Definition set_next_message_id (n : Z) (i : Inner) : Inner :=
  mkInner (waiters i) (in_disconnected i) (in_credits i) n (crypto i)
    (abandoned i) (dfs_trees i) (oplock_trees i) (previous_session_id i) (last_frame_at i)
    (metrics i) (channels i) (spawned_acks i).
Definition set_crypto (c : CryptoState) (i : Inner) : Inner :=
  mkInner (waiters i) (in_disconnected i) (in_credits i) (next_message_id i) c
    (abandoned i) (dfs_trees i) (oplock_trees i) (previous_session_id i) (last_frame_at i)
    (metrics i) (channels i) (spawned_acks i).
Definition set_abandoned (l : list Z) (i : Inner) : Inner :=
  mkInner (waiters i) (in_disconnected i) (in_credits i) (next_message_id i) (crypto i)
    l (dfs_trees i) (oplock_trees i) (previous_session_id i) (last_frame_at i)
    (metrics i) (channels i) (spawned_acks i).
Definition set_trees (d : gset Z) (o : gmap FileId Z) (i : Inner) : Inner :=
  mkInner (waiters i) (in_disconnected i) (in_credits i) (next_message_id i) (crypto i)
    (abandoned i) d o (previous_session_id i) (last_frame_at i)
    (metrics i) (channels i) (spawned_acks i).
Definition set_previous_session_id (s : Z) (i : Inner) : Inner :=
  mkInner (waiters i) (in_disconnected i) (in_credits i) (next_message_id i) (crypto i)
    (abandoned i) (dfs_trees i) (oplock_trees i) s (last_frame_at i)
    (metrics i) (channels i) (spawned_acks i).
Definition set_last_frame_at (t : option Z) (i : Inner) : Inner :=
  mkInner (waiters i) (in_disconnected i) (in_credits i) (next_message_id i) (crypto i)
    (abandoned i) (dfs_trees i) (oplock_trees i) (previous_session_id i) t
    (metrics i) (channels i) (spawned_acks i).
Definition bump (k : metric) (n : Z) (i : Inner) : Inner :=
  mkInner (waiters i) (in_disconnected i) (in_credits i) (next_message_id i) (crypto i)
    (abandoned i) (dfs_trees i) (oplock_trees i) (previous_session_id i) (last_frame_at i)
    (fetch_add k n (metrics i)) (channels i) (spawned_acks i).
Definition set_channels (f : gmap nat Channel → gmap nat Channel) (i : Inner) : Inner :=
  mkInner (waiters i) (in_disconnected i) (in_credits i) (next_message_id i) (crypto i)
    (abandoned i) (dfs_trees i) (oplock_trees i) (previous_session_id i) (last_frame_at i)
    (metrics i) (f (channels i)) (spawned_acks i).
Definition set_spawned (l : list (Z * OplockBreak)) (i : Inner) : Inner :=
  mkInner (waiters i) (in_disconnected i) (in_credits i) (next_message_id i) (crypto i)
    (abandoned i) (dfs_trees i) (oplock_trees i) (previous_session_id i) (last_frame_at i)
    (metrics i) (channels i) l.

(** ** Oneshot channels *)

(** [tx.send(r)]: fails when the receiver is gone. *)
Definition tx_send (tx : nat) (r : result Error Frame) (cs : gmap nat Channel) :
    bool * gmap nat Channel :=
  match cs !! tx with
  | Some ChEmpty => (true, <[tx := ChAnswered r]> cs)
  | _ => (false, cs)
  end.

(** Dropping a sender that was not used. *)
Definition tx_drop (tx : nat) (cs : gmap nat Channel) : gmap nat Channel :=
  match cs !! tx with
  | Some ChEmpty => <[tx := ChSenderGone]> cs
  | _ => cs
  end.

(** Dropping the receiver, whatever has arrived. *)
Definition rx_drop (rx : nat) (cs : gmap nat Channel) : gmap nat Channel :=
  <[rx := ChReceiverGone]> cs.

(** ** Sending side *)

Definition allocate_msg_id (charge : Z) (i : Inner) : Z * Inner :=
  let first := next_message_id i in
  (first, bump requests_sent 1 (set_next_message_id (trunc 64 (first + charge)) i)).

Definition should_set_dfs_flag (tree_id : option Z) (i : Inner) : bool :=
  match tree_id with Some t => bool_decide (t ∈ dfs_trees i) | None => false end.

(** [HashMap::insert]: a waiter already under the id is dropped with its
    sender. *)
Definition insert_waiter (msg_id : Z) (w : Waiter) (i : Inner) : Inner :=
  let i' := match waiters i !! msg_id with
            | Some old => set_channels (tx_drop (w_tx old)) i
            | None => i
            end in
  set_waiters <[msg_id := w]> i'.

(** [ch] is the channel [oneshot::channel()] creates: any number not in use. *)
Definition register_waiter (msg_id : Z) (c : Command) (now : Z) (ch : nat) (i : Inner) :
    result Error WaiterGuard * Inner :=
  if in_disconnected i then (Err Disconnected, i)
  else
    let i' := set_channels <[ch := ChEmpty]> i in
    (Ok (mkWaiterGuard msg_id ch), insert_waiter msg_id (mkWaiter ch c now None now None) i').

Definition ABANDONED_ID_MEMORY : Z := 512.

(** [Drop for WaiterGuard], then the drop of the receiver it owns. *)
Definition guard_drop (g : WaiterGuard) (i : Inner) : Inner :=
  let i' :=
    match waiters i !! g_msg_id g with
    | Some w =>
        let i1 := set_channels (tx_drop (w_tx w)) (set_waiters (delete (g_msg_id g)) i) in
        let ab := if len (abandoned i1) >=? ABANDONED_ID_MEMORY
                  then tail (abandoned i1) else abandoned i1 in
        set_abandoned (ab ++ [g_msg_id g]) i1
    | None => i
    end in
  set_channels (rx_drop (g_rx g)) i'.

Definition mark_waiter (now : Z) (w : Waiter) : Waiter :=
  mkWaiter (w_tx w) (w_command w) (w_registered_at w) (Some now) now (w_async_id w).

Fixpoint mark_sent (ids : list Z) (now : Z) (i : Inner) : Inner :=
  match ids with
  | [] => i
  | id :: ids => mark_sent ids now (set_waiters (alter (mark_waiter now) id) i)
  end.

(** [waiters.remove(&msg_id)] on a failed send, the sender dropped with it. *)
Definition remove_waiter (msg_id : Z) (i : Inner) : Inner :=
  match waiters i !! msg_id with
  | Some w => set_channels (tx_drop (w_tx w)) (set_waiters (delete msg_id) i)
  | None => i
  end.

(** ** Teardown *)

Definition clone_err_for_waiters (e : Error) : Error :=
  match e with ServerUnresponsive silent_for => ServerUnresponsive silent_for | _ => Disconnected end.

Definition fan_error_to_waiters (e : Error) (i : Inner) : Inner :=
  let drained := map_to_list (waiters i) in
  let i1 := set_waiters (λ _, ∅) (set_disconnected true i) in
  let i2 := set_credits close i1 in
  set_channels (λ cs, foldr (λ p cs, (tx_send (w_tx p.2) (Err (clone_err_for_waiters e)) cs).2)
                        cs drained) i2.

Definition mark_dead (i : Inner) : Inner := fan_error_to_waiters Disconnected i.

(** The per-session state is erased; the channels of the dead session have been
    settled by the fan-out. *)
Definition install_transport (i : Inner) : Inner :=
  let i := fan_error_to_waiters Disconnected i in
  let i := set_credits reset i in
  let i := set_next_message_id 0 i in
  let i := set_previous_session_id (cs_session_id (crypto i)) i in
  let i := set_crypto CryptoState_new i in
  let i := set_last_frame_at None i in
  let i := set_abandoned [] i in
  let i := set_trees ∅ ∅ i in
  set_disconnected false i.

(** ** Receiving side *)

Inductive SubFrameAction :=
| Route (msg_id : Z) (r : result Error Frame)
| Skip
| AckOplockBreak (brk : OplockBreak) (tree_id : Z).

(** An oplock break is answered when its file is one we hold an oplock on. *)
Definition unsolicited_action (h : Header) (sub : bytes) (i : Inner) : result Error SubFrameAction :=
  if bool_decide (command h = Types.OplockBreak) then
    body ← slice sub Header_SIZE (len sub);
    match unpack Oplock.OplockBreak (ReadCursor_new body) with
    | Panic => Panic
    | Ok (brk, _) =>
        match oplock_trees i !! ob_file_id brk with
        | Some tree_id => Ok (AckOplockBreak brk tree_id)
        | None => Ok Skip
        end
    | Err _ => Ok Skip
    end
  else Ok Skip.

Definition touch_waiter (now : Z) (aid : option Z) (w : Waiter) : Waiter :=
  mkWaiter (w_tx w) (w_command w) (w_registered_at w) (w_sent_at w) now
    (match aid with Some a => Some a | None => w_async_id w end).

(** The signature check: [None] when the frame may go on. *)
Definition check_signature (sub : bytes) (h : Header) (was_encrypted : bool) (c : CryptoState) :
    result Error (option Error) :=
  if cs_should_sign c && negb was_encrypted && (len sub >=? Header_SIZE) then
    flags_raw ← slice sub 16 20;
    status_raw ← slice sub 8 12;
    let is_signed := negb (Z.land (of_le flags_raw) HeaderFlags.SIGNED =? 0) in
    let is_pending := of_le status_raw =? NtStatus.PENDING in
    if is_signed && negb is_pending then
      match cs_signing_key c, cs_signing_algorithm c with
      | Some key, Some algo =>
          match verify_signature sub key algo (message_id h) (bool_decide (command h = Cancel)) with
          | Ok tt => Ok None
          | Err e => Ok (Some e)
          | Panic => Panic
          end
      | _, _ => Ok None
      end
    else Ok None
  else Ok None.

Definition prepare_sub_frame (sub : bytes) (was_encrypted : bool) (now : Z) (i : Inner) :
    result Error SubFrameAction * Inner :=
  match unpack Header (ReadCursor_new sub) with
  | Panic => (Panic, i)
  | Err _ => (Err (invalid_data "sub-frame header parse failed: {}"), i)
  | Ok (h, _) =>
      let i := set_credits (grant (credits h)) i in
      if message_id h =? MessageId_UNSOLICITED then
        let i := bump unsolicited_notifications_received 1 i in
        (unsolicited_action h sub i, i)
      else if NtStatus.is_pending (status h) then
        let i := bump status_pending_loops 1 i in
        (Ok Skip, set_waiters (alter (touch_waiter now (async_id h)) (message_id h)) i)
      else
        match check_signature sub h was_encrypted (crypto i) with
        | Panic => (Panic, i)
        | Err e => (Err e, i)
        | Ok (Some e) => (Ok (Route (message_id h) (Err e)), bump signature_failures 1 i)
        | Ok None =>
            if status h =? NtStatus.NETWORK_SESSION_EXPIRED
            then (Ok (Route (message_id h) (Err SessionExpired)), bump session_expired_events 1 i)
            else
              let body := if len sub >? Header_SIZE then drop (Z.to_nat Header_SIZE) sub else [] in
              (Ok (Route (message_id h) (Ok (mkFrame h body sub))), i)
        end
  end.

Definition acknowledge_oplock_break (brk : OplockBreak) (tree_id : Z) (i : Inner) : Inner :=
  let i := set_trees (dfs_trees i) (delete (ob_file_id brk) (oplock_trees i)) i in
  set_spawned (spawned_acks i ++ [(tree_id, mkOplockBreak OplockNone (ob_file_id brk))]) i.

(** The loop over sub-frames: the routable ones, or [None] after a teardown. *)
Fixpoint prepare_all (subs : list bytes) (was_encrypted : bool) (now : Z) (i : Inner) :
    result Error (list (Z * result Error Frame)) * Inner :=
  match subs with
  | [] => (Ok [], i)
  | sub :: subs =>
      match prepare_sub_frame sub was_encrypted now i with
      | (Ok (Route msg_id r), i) =>
          match prepare_all subs was_encrypted now i with
          | (Ok l, i) => (Ok ((msg_id, r) :: l), i)
          | x => x
          end
      | (Ok Skip, i) => prepare_all subs was_encrypted now i
      | (Ok (AckOplockBreak brk tree_id), i) =>
          prepare_all subs was_encrypted now (acknowledge_oplock_break brk tree_id i)
      | (Err e, i) => (Err e, fan_error_to_waiters e (bump malformed_frames 1 i))
      | (Panic, i) => (Panic, i)
      end
  end.

Definition route_one (msg_id : Z) (r : result Error Frame) (i : Inner) : Inner :=
  match waiters i !! msg_id with
  | Some w =>
      let counter := if is_err r then responses_routed_err else responses_routed_ok in
      let i := bump counter 1 (set_waiters (delete msg_id) i) in
      match tx_send (w_tx w) r (channels i) with
      | (true, cs) => set_channels (λ _, cs) i
      | (false, _) => bump responses_late_after_drop 1 (bump counter (-1) i)
      end
  | None =>
      if existsb (Z.eqb msg_id) (abandoned i)
      then bump responses_late_after_drop 1 i
      else bump responses_stray 1 i
  end.

Definition route_all (l : list (Z * result Error Frame)) (i : Inner) : Inner :=
  foldl (λ i p, route_one p.1 p.2 i) i l.

Definition starts_with (d p : bytes) : bool := bool_decide (take (length p) d = p).

Inductive outcome := Continue | Exit | Crash.

(** One turn of [receiver_loop]; [raw] is what the transport returned. *)
Definition receive_turn (raw : result Error bytes) (now : Z) (i : Inner) : outcome * Inner :=
  match raw with
  | Panic => (Crash, i)
  | Err e => (Exit, fan_error_to_waiters e i)
  | Ok raw =>
      let i := set_last_frame_at (Some now) (bump wire_bytes_received (len raw) i) in
      let encrypted := starts_with raw TRANSFORM_PROTOCOL_ID in
      match (if encrypted then decrypt_frame raw (crypto i) else Ok raw) with
      | Panic => (Crash, i)
      | Err e => (Exit, fan_error_to_waiters e (bump decrypt_failures 1 i))
      | Ok decoded =>
          match (if starts_with decoded COMPRESSION_PROTOCOL_ID
                 then decompress_response decoded else Ok decoded) with
          | Panic => (Crash, i)
          | Err e => (Exit, fan_error_to_waiters e (bump decompress_failures 1 i))
          | Ok decoded =>
              match split_compound decoded with
              | Panic => (Crash, i)
              | Err e => (Exit, fan_error_to_waiters e (bump malformed_frames 1 i))
              | Ok subs =>
                  match prepare_all subs encrypted now i with
                  | (Panic, i) => (Crash, i)
                  | (Err _, i) => (Exit, i)
                  | (Ok routable, i) => (Continue, route_all routable i)
                  end
              end
          end
      end
  end.

(** The loop over what the transport delivers. *)
Fixpoint receiver_loop (arrivals : list (result Error bytes * Z)) (i : Inner) : outcome * Inner :=
  match arrivals with
  | [] => (Continue, i)
  | (raw, now) :: arrivals =>
      match receive_turn raw now i with
      | (Continue, i) => receiver_loop arrivals i
      | x => x
      end
  end.

End connection.
