(* ===== verification/Routing.v ===== *)
(** * Routing and teardown: invariants of the connection

    The theorems about [Connection]: no caller is left waiting once the
    connection is down, responses reach exactly the waiter registered under
    their message id, interim responses keep the waiter, signatures are
    checked where the code checks them, the receive path never panics, and the
    response counters partition the routed responses. *)

From S2P Require Import Prelude Types Pack Codec Header Signing Transform Compound Credits Oplock Connection.

(** ** How much a reader consumes *)

Definition reader_takes {A} (n : Z) (R : Reader A) : Prop :=
  ∀ d p v c, 0 <= p <= len d → R (RC d p) = Ok (v, c) → data c = d ∧ p + n <= pos c <= len d.

Section takes_rules.
Context {A B : Type}.

Lemma takes_ret (v : A) : reader_takes 0 (mret v).
Proof. intros d p v' c Hp [= <- <-]. cbn. split; [done|lia]. Qed.

Lemma takes_bind n m (R : Reader A) (K : A → Reader B) :
  0 <= n → reader_takes n R → (∀ v, reader_takes m (K v)) → reader_takes (n + m) (R ≫= K).
Proof.
  intros Hn HR HK d p w c Hp. unfold mbind, st_bind.
  destruct (R (RC d p)) as [[v [d' p']]|e|] eqn:E; [|done|done].
  apply HR in E as [Hd Hp']; [|done]. cbn in Hd, Hp'. subst d'. intros E'.
  apply HK in E' as [Hd' Hc]; [|lia]. split; [done|lia].
Qed.

Lemma takes_le n m (R : Reader A) : m <= n → reader_takes n R → reader_takes m R.
Proof. intros Hm H d p v c Hp E. apply H in E as [Hd Hc]; [|done]. split; [done|lia]. Qed.

Lemma takes_ok (R : Reader A) P : reader_ok R P → reader_takes 0 R.
Proof.
  intros H d p v c Hp E. specialize (H d p Hp). rewrite E in H.
  destruct H as (_ & Hd & Hc & _). split; [done|lia].
Qed.

End takes_rules.

Lemma takes_bytes n : 0 <= n → reader_takes n (read_bytes n).
Proof.
  intros Hn d p v c Hp. unfold read_bytes, mbind, st_bind, ensure, take_slice, remaining.
  cbn [data pos]. case_test; [done|]. bool_prop. cbn [data pos].
  rewrite slice_ok by lia. intros [= <- <-]. cbn. split; [done|lia].
Qed.

Lemma takes_word n (f : bytes → Z) :
  0 <= n → reader_takes n (bs ← read_array n; mret (f bs)).
Proof.
  intros Hn. rewrite <- (Z.add_0_r n) at 1. apply takes_bind; [done|by apply takes_bytes|].
  intros. apply takes_ret.
Qed.

Lemma Header_takes : reader_takes 64 (unpack Header).
Proof.
  unfold unpack, Header_unpack.
  apply (takes_bind 4 60); [lia|by apply takes_bytes|intros ?].
  apply (takes_bind 0 60); [lia|eapply takes_ok, rok_fail_if|intros ?].
  apply (takes_bind 2 58); [lia|by apply takes_word|intros ?].
  apply (takes_bind 0 58); [lia|eapply takes_ok, rok_fail_if|intros ?].
  apply (takes_bind 2 56); [lia|by apply takes_word|intros ?].
  apply (takes_bind 4 52); [lia|by apply takes_word|intros ?].
  apply (takes_bind 2 50); [lia|by apply takes_word|intros ?].
  apply (takes_bind 0 50); [lia|eapply takes_ok, rok_try_enum|intros ?].
  apply (takes_bind 2 48); [lia|by apply takes_word|intros ?].
  apply (takes_bind 4 44); [lia|by apply takes_word|intros fl].
  apply (takes_bind 4 40); [lia|by apply takes_word|intros ?].
  apply (takes_bind 8 32); [lia|by apply takes_word|intros ?].
  apply (takes_bind 8 24); [lia| |intros ?].
  { destruct (HeaderFlags.is_async fl).
    - apply (takes_bind 8 0); [lia|by apply takes_word|intros; apply takes_ret].
    - apply (takes_bind 4 4); [lia|by apply takes_word|intros ?].
      apply (takes_bind 4 0); [lia|by apply takes_word|intros; apply takes_ret]. }
  apply (takes_bind 8 16); [lia|by apply takes_word|intros ?].
  apply (takes_bind 16 0); [lia|by apply takes_bytes|intros; apply takes_ret].
Qed.

Lemma Header_parse_len d h c : unpack Header (ReadCursor_new d) = Ok (h, c) → 64 <= len d.
Proof.
  intros E. apply Header_takes in E as [_ Hc]; [lia|]. pose proof (len_nonneg d). lia.
Qed.

Section routing.
Context {Sem : Type} `{Semaphore Sem, MacPrimitives, AeadPrimitives, Lz4}.
Implicit Types i : Inner (Sem := Sem).

(** ** The invariant *)

(** An unanswered channel belongs to a registered waiter, every waiter's channel
    exists, and a dead connection has no waiter. *)
Record conn_inv i : Prop := {
  ci_live : ∀ ch, channels i !! ch = Some ChEmpty →
                  ∃ id w, waiters i !! id = Some w ∧ w_tx w = ch;
  ci_alloc : ∀ id w, waiters i !! id = Some w → is_Some (channels i !! w_tx w);
  ci_dead : in_disconnected i = true → waiters i = ∅
}.

(** Only three fields matter. *)
Lemma conn_inv_ext i i' :
  waiters i' = waiters i → channels i' = channels i → in_disconnected i' = in_disconnected i →
  conn_inv i → conn_inv i'.
Proof. intros Hw Hc Hd [H1' H2' H3']. constructor; rewrite ?Hw, ?Hc, ?Hd; done. Qed.

(** Close a goal about a state that differs elsewhere. *)
Ltac same_inv := match goal with Hi : conn_inv ?j |- conn_inv _ =>
  apply (conn_inv_ext j); [reflexivity|reflexivity|reflexivity|exact Hi] end.

Lemma conn_inv_alter f id i :
  (∀ w, w_tx (f w) = w_tx w) → conn_inv i → conn_inv (set_waiters (alter f id) i).
Proof.
  intros Hf [HL HA HD]. constructor; cbn.
  - intros ch Hch. destruct (HL ch Hch) as (id' & w & Hw & Htx).
    destruct (decide (id = id')) as [->|Hne].
    + exists id', (f w). rewrite lookup_alter_eq, Hw. cbn. by rewrite Hf.
    + exists id', w. by rewrite lookup_alter_ne.
  - intros id' w. rewrite lookup_alter. case_decide; subst; [|apply HA].
    destruct (waiters i !! id') as [w'|] eqn:E; [|done]. intros [= <-]. rewrite Hf. by eapply HA.
  - intros Hd. rewrite (HD Hd). apply map_eq. intros id'. rewrite lookup_alter, !lookup_empty.
    by case_decide.
Qed.

(** What sending on or dropping a sender does to the channels. *)
Lemma tx_send_lookup tx r cs ch :
  (tx_send tx r cs).2 !! ch = Some ChEmpty → cs !! ch = Some ChEmpty ∧ ch ≠ tx.
Proof.
  unfold tx_send. destruct (cs !! tx) as [[]|] eqn:E; cbn; try (intros; split; [done|congruence]).
  destruct (decide (ch = tx)) as [->|Hne]; [by rewrite lookup_insert_eq|].
  by rewrite lookup_insert_ne.
Qed.

Lemma tx_drop_lookup tx cs ch :
  tx_drop tx cs !! ch = Some ChEmpty → cs !! ch = Some ChEmpty ∧ ch ≠ tx.
Proof.
  unfold tx_drop. destruct (cs !! tx) as [[]|] eqn:E; cbn; try (intros; split; [done|congruence]).
  destruct (decide (ch = tx)) as [->|Hne]; [by rewrite lookup_insert_eq|].
  by rewrite lookup_insert_ne.
Qed.

Lemma tx_send_alloc tx r cs ch : is_Some (cs !! ch) → is_Some ((tx_send tx r cs).2 !! ch).
Proof.
  unfold tx_send. destruct (cs !! tx) as [[]|]; cbn; try done.
  rewrite lookup_insert. case_decide; eauto.
Qed.
Lemma tx_drop_alloc tx cs ch : is_Some (cs !! ch) → is_Some (tx_drop tx cs !! ch).
Proof.
  unfold tx_drop. destruct (cs !! tx) as [[]|]; try done.
  rewrite lookup_insert. case_decide; eauto.
Qed.

(** Removing a waiter and settling its channel. *)
Lemma conn_inv_remove i i' id w :
  conn_inv i → waiters i !! id = Some w →
  waiters i' = delete id (waiters i) → in_disconnected i' = in_disconnected i →
  (∀ ch, channels i' !! ch = Some ChEmpty → channels i !! ch = Some ChEmpty ∧ ch ≠ w_tx w) →
  (∀ ch, is_Some (channels i !! ch) → is_Some (channels i' !! ch)) →
  conn_inv i'.
Proof.
  intros [HL HA HD] Hw Ew Ed Hc Hs. constructor.
  - intros ch Hch. apply Hc in Hch as [Hch Hne]. destruct (HL ch Hch) as (id' & w' & Hw' & <-).
    exists id', w'. split; [|done]. rewrite Ew, lookup_delete_ne; [done|]. congruence.
  - intros id' w'. rewrite Ew. rewrite lookup_delete_Some. intros [_ Hw']. eauto.
  - rewrite Ed. intros Hd. rewrite (HD Hd) in Hw. done.
Qed.

(** ** Every operation keeps it *)

Lemma register_inv id c now ch i :
  conn_inv i → channels i !! ch = None →
  conn_inv (register_waiter id c now ch i).2.
Proof.
  intros [HL HA HD] Hfresh. unfold register_waiter.
  destruct (in_disconnected i) eqn:Ed; [constructor; auto|]. cbn [snd]. unfold insert_waiter. cbn.
  assert (∀ id' w', waiters i !! id' = Some w' → w_tx w' ≠ ch) as Hne.
  { intros id' w' Hw' <-. apply HA in Hw'. rewrite Hfresh in Hw'. by destruct Hw'. }
  destruct (waiters i !! id) as [old|] eqn:Eo; constructor; cbn; try (by rewrite Ed).
  - intros ch' Hch'. apply tx_drop_lookup in Hch' as [Hch' Hno].
    destruct (decide (ch' = ch)) as [->|Hn]; [exists id; eexists; by rewrite lookup_insert_eq|].
    rewrite lookup_insert_ne in Hch' by done. destruct (HL ch' Hch') as (id' & w & Hw & <-).
    exists id', w. rewrite lookup_insert_ne; [done|]. congruence.
  - intros id' w'. rewrite lookup_insert_Some. intros [[<- <-]|[_ Hw']]; apply tx_drop_alloc; cbn.
    + rewrite lookup_insert_eq. eauto.
    + rewrite lookup_insert_ne by (symmetry; by eapply Hne). eauto.
  - intros ch' Hch'.
    destruct (decide (ch' = ch)) as [->|Hn]; [exists id; eexists; by rewrite lookup_insert_eq|].
    rewrite lookup_insert_ne in Hch' by done. destruct (HL ch' Hch') as (id' & w & Hw & <-).
    exists id', w. rewrite lookup_insert_ne; [done|]. congruence.
  - intros id' w'. rewrite lookup_insert_Some. intros [[<- <-]|[_ Hw']]; cbn.
    + rewrite lookup_insert_eq. eauto.
    + rewrite lookup_insert_ne by (symmetry; by eapply Hne). eauto.
Qed.

Lemma conn_inv_rx_drop rx i : conn_inv i → conn_inv (set_channels (rx_drop rx) i).
Proof.
  intros [HL HA HD]. constructor; cbn; unfold rx_drop.
  - intros ch. rewrite lookup_insert. case_decide; [done|]. apply HL.
  - intros id w Hw. rewrite lookup_insert. case_decide; eauto.
  - done.
Qed.

Lemma guard_drop_inv g i : conn_inv i → conn_inv (guard_drop g i).
Proof.
  intros Hi. unfold guard_drop. apply conn_inv_rx_drop.
  destruct (waiters i !! g_msg_id g) as [w|] eqn:E; [|done].
  eapply conn_inv_remove; [done|done|done|done| |].
  - cbn. apply tx_drop_lookup.
  - cbn. intros. by apply tx_drop_alloc.
Qed.

Lemma remove_waiter_inv id i : conn_inv i → conn_inv (remove_waiter id i).
Proof.
  intros Hi. unfold remove_waiter. destruct (waiters i !! id) as [w|] eqn:E; [|done].
  eapply conn_inv_remove; [done|done|done|done| |]; cbn; [apply tx_drop_lookup|].
  intros. by apply tx_drop_alloc.
Qed.

Lemma mark_sent_inv ids now i : conn_inv i → conn_inv (mark_sent ids now i).
Proof.
  revert i; induction ids as [|id ids IH]; intros i Hi; [done|]. apply IH.
  by apply conn_inv_alter.
Qed.

(** Fanning an error out answers every unanswered channel. *)
Definition fan_channels (e : Error) (l : list (Z * Waiter)) (cs : gmap nat Channel) :=
  foldr (λ p cs, (tx_send (w_tx p.2) (Err (clone_err_for_waiters e)) cs).2) cs l.

Lemma fan_channels_empty e l cs ch :
  fan_channels e l cs !! ch = Some ChEmpty →
  cs !! ch = Some ChEmpty ∧ Forall (λ p, w_tx p.2 ≠ ch) l.
Proof.
  induction l as [|p l IH]; cbn; [done|]. intros E. apply tx_send_lookup in E as [E Hne].
  apply IH in E as [E Hl]. split; [done|]. constructor; [|done]. congruence.
Qed.

Lemma fan_settles e i ch c :
  conn_inv i → channels (fan_error_to_waiters e i) !! ch = Some c → c ≠ ChEmpty.
Proof.
  intros [HL _ _] E ->. cbn in E. apply fan_channels_empty in E as [E Hl].
  destruct (HL ch E) as (id & w & Hw & <-). rewrite Forall_forall in Hl.
  apply (Hl (id, w)); [|done]. by apply elem_of_map_to_list.
Qed.

Lemma fan_error_inv e i : conn_inv i → conn_inv (fan_error_to_waiters e i).
Proof.
  intros Hi. constructor.
  - intros ch E. exfalso. by eapply fan_settles.
  - cbn. intros id w. by rewrite lookup_empty.
  - done.
Qed.

Lemma install_transport_inv i : conn_inv i → conn_inv (install_transport i).
Proof.
  intros Hi. destruct (fan_error_inv Disconnected i Hi) as [HL HA _].
  by constructor.
Qed.

Lemma route_one_inv id r i : conn_inv i → conn_inv (route_one id r i).
Proof.
  intros Hi. unfold route_one. destruct (waiters i !! id) as [w|] eqn:E.
  - cbn. destruct (tx_send (w_tx w) r (channels i)) as [[] cs] eqn:Es.
    + eapply conn_inv_remove; [done|done|done|done| |]; cbn.
      * intros ch Hch. apply (tx_send_lookup (w_tx w) r). by rewrite Es.
      * intros ch Hch. pose proof (tx_send_alloc (w_tx w) r (channels i) ch Hch) as Ha.
        by rewrite Es in Ha.
    + eapply conn_inv_remove; [done|done|done|done| |done]; cbn.
      intros ch Hch. split; [done|]. intros ->. unfold tx_send in Es. by rewrite Hch in Es.
  - case_test; same_inv.
Qed.

Lemma route_all_inv l i : conn_inv i → conn_inv (route_all l i).
Proof.
  revert i; induction l as [|[id r] l IH]; intros i Hi; [done|]. apply IH. by apply route_one_inv.
Qed.

Lemma prepare_sub_frame_inv sub enc now i :
  conn_inv i → conn_inv (prepare_sub_frame sub enc now i).2.
Proof.
  intros Hi. unfold prepare_sub_frame.
  destruct (unpack Header _) as [[h c]|e|]; [|done|done].
  assert (conn_inv (set_credits (grant (credits h)) i)) as Hg by same_inv.
  case_test; [same_inv|].
  case_test; [apply conn_inv_alter; [done|same_inv]|].
  destruct (check_signature _ _ _ _) as [[e|]|e|]; [same_inv| |done|done].
  case_test; [same_inv|done].
Qed.

Lemma prepare_all_inv subs enc now i : conn_inv i → conn_inv (prepare_all subs enc now i).2.
Proof.
  revert i; induction subs as [|sub subs IH]; intros i Hi; [done|]. cbn [prepare_all].
  pose proof (prepare_sub_frame_inv sub enc now i Hi) as Hp.
  destruct (prepare_sub_frame sub enc now i) as [[[id r| |brk t]|e|] i1]; cbn in Hp.
  - specialize (IH i1 Hp). by destruct (prepare_all subs enc now i1) as [[l|e|] i2].
  - by apply IH.
  - apply IH. same_inv.
  - cbn. apply fan_error_inv. same_inv.
  - done.
Qed.

(** A sub-frame that fails tears the connection down before the loop ends. *)
Lemma prepare_all_err subs enc now j j' e :
  conn_inv j → prepare_all subs enc now j = (Err e, j') →
  ∃ e' j0, conn_inv j0 ∧ j' = fan_error_to_waiters e' j0.
Proof.
  revert j. induction subs as [|s subs IH]; intros j Hj; [done|]. cbn [prepare_all].
  pose proof (prepare_sub_frame_inv s enc now j Hj) as Hp.
  destruct (prepare_sub_frame s enc now j) as [[[id r| |brk t]|e1|] j1]; cbn in Hp.
  - destruct (prepare_all subs enc now j1) as [[l|e2|] j2] eqn:E2; try done.
    intros [= <- <-]. by eapply IH.
  - by apply IH.
  - apply IH. same_inv.
  - intros [= <- <-]. eexists _, _. split; [|done]. same_inv.
  - done.
Qed.

Lemma receive_turn_inv raw now i : conn_inv i → conn_inv (receive_turn raw now i).2.
Proof.
  intros Hi. unfold receive_turn. destruct raw as [raw|e|]; [|by apply fan_error_inv|done].
  assert (conn_inv (set_last_frame_at (Some now) (bump wire_bytes_received (len raw) i))) as Hl by same_inv.
  set (i1 := set_last_frame_at (Some now) (bump wire_bytes_received (len raw) i)) in *.
  assert (∀ e k, conn_inv (fan_error_to_waiters e (bump k 1 i1))) as Hf.
  { intros. apply fan_error_inv. same_inv. }
  destruct (if starts_with raw _ then _ else _) as [d|e|]; [|apply Hf|exact Hl].
  destruct (if starts_with d _ then _ else _) as [d'|e|]; [|apply Hf|exact Hl].
  destruct (split_compound d') as [subs|e|]; [|apply Hf|exact Hl].
  pose proof (prepare_all_inv subs (starts_with raw TRANSFORM_PROTOCOL_ID) now i1 Hl) as Hp.
  destruct (prepare_all subs _ now i1) as [[l|e|] i2]; cbn in *; [|done|done].
  by apply route_all_inv.
Qed.

(** ** What concurrent tasks do to a connection *)

Inductive conn_step : Inner (Sem := Sem) → Inner (Sem := Sem) → Prop :=
| cs_register i id c now ch :
    channels i !! ch = None → conn_step i (register_waiter id c now ch i).2
| cs_drop i g : conn_step i (guard_drop g i)
| cs_remove i id : conn_step i (remove_waiter id i)
| cs_count i k n : conn_step i (bump k n i)
| cs_mark_sent i ids now : conn_step i (mark_sent ids now i)
| cs_allocate i charge : conn_step i (allocate_msg_id charge i).2
| cs_credits i f : conn_step i (set_credits f i)
| cs_crypto i c : conn_step i (set_crypto c i)
| cs_trees i d o : conn_step i (set_trees d o i)
| cs_receive i raw now : conn_step i (receive_turn raw now i).2
| cs_mark_dead i : conn_step i (mark_dead i)
| cs_install i : conn_step i (install_transport i).

Inductive conn_reachable : Inner (Sem := Sem) → Prop :=
| cr_new : conn_reachable Inner_new
| cr_step i i' : conn_reachable i → conn_step i i' → conn_reachable i'.

Lemma conn_step_inv i i' : conn_inv i → conn_step i i' → conn_inv i'.
Proof.
  intros Hi Hst. revert Hi. destruct Hst; intros Hi.
  - by apply register_inv.
  - by apply guard_drop_inv.
  - by apply remove_waiter_inv.
  - same_inv.
  - by apply mark_sent_inv.
  - same_inv.
  - same_inv.
  - same_inv.
  - same_inv.
  - by apply receive_turn_inv.
  - by apply fan_error_inv.
  - by apply install_transport_inv.
Qed.

Lemma conn_reachable_inv i : conn_reachable i → conn_inv i.
Proof.
  induction 1 as [|i i' _ IH Hst]; [|by eapply conn_step_inv].
  constructor; cbn; [intros ch|intros id w|done]; by rewrite lookup_empty.
Qed.

(** ** What one response does *)

Lemma route_one_delivers id r i w :
  waiters i !! id = Some w → channels i !! w_tx w = Some ChEmpty →
  let i' := route_one id r i in
  channels i' = <[w_tx w := ChAnswered r]> (channels i) ∧
  waiters i' = delete id (waiters i) ∧
  in_disconnected i' = in_disconnected i ∧ in_credits i' = in_credits i.
Proof.
  intros Hw Hc i'. unfold i', route_one. rewrite Hw. cbn [channels bump set_waiters].
  unfold tx_send. rewrite Hc. done.
Qed.

Lemma split_one_frame d : 64 <= len d → next_command_of d = 0 → split_compound d = Ok [d].
Proof. intros Hl Hn. apply split_compound_complete. by constructor. Qed.

(** Registering under a free id. *)
Lemma register_fresh id c now ch i g i' :
  waiters i !! id = None → register_waiter id c now ch i = (Ok g, i') →
  g = mkWaiterGuard id ch ∧ in_disconnected i' = false ∧
  waiters i' = <[id := mkWaiter ch c now None now None]> (waiters i) ∧
  channels i' = <[ch := ChEmpty]> (channels i).
Proof.
  intros Hw. unfold register_waiter, insert_waiter. cbn [waiters set_channels]. rewrite Hw.
  destruct (in_disconnected i) eqn:Ed; [done|]. intros [= <- <-]. done.
Qed.

(** Dropping a guard under whose id somebody else's waiter is registered. *)
Lemma guard_drop_foreign g i w :
  waiters i !! g_msg_id g = Some w → w_tx w ≠ g_rx g → channels i !! w_tx w = Some ChEmpty →
  in_disconnected (guard_drop g i) = in_disconnected i ∧
  waiters (guard_drop g i) = delete (g_msg_id g) (waiters i) ∧
  channels (guard_drop g i) !! w_tx w = Some ChSenderGone.
Proof.
  intros Hw Hne Hc. unfold guard_drop. rewrite Hw. split; [done|]. split; [done|].
  cbn [channels set_channels set_abandoned set_waiters]. unfold rx_drop, tx_drop.
  rewrite Hc, lookup_insert_ne by done. by rewrite lookup_insert_eq.
Qed.

(** ** A whole turn on a plain response *)

Lemma Header_parse h body :
  Header_wf h →
  unpack Header (ReadCursor_new (Header_layout h ++ body)) =
  Ok (h, RC (Header_layout h ++ body) 64).
Proof.
  intros Hh. pose proof (Header_unpack_layout 0 h Hh [] body eq_refl) as E.
  cbn [app] in E. unfold ReadCursor_new. rewrite E. by rewrite Header_layout_len.
Qed.

Lemma layout_not_transform h body :
  starts_with (Header_layout h ++ body) TRANSFORM_PROTOCOL_ID = false ∧
  starts_with (Header_layout h ++ body) COMPRESSION_PROTOCOL_ID = false.
Proof. split; by apply bool_decide_eq_false. Qed.

(** The receive path up to the sub-frames, for a frame holding one response. *)
Lemma receive_turn_single h body now i :
  Header_wf h → next_command h = 0 →
  receive_turn (Ok (Header_layout h ++ body)) now i =
  match prepare_all [Header_layout h ++ body] false now 
      (set_last_frame_at (Some now) (bump wire_bytes_received (len (Header_layout h ++ body)) i)) with
  | (Panic, i) => (Crash, i)
  | (Err _, i) => (Exit, i)
  | (Ok routable, i) => (Continue, route_all routable i)
  end.
Proof.
  intros Hh Hn. unfold receive_turn. destruct (layout_not_transform h body) as [-> ->].
  rewrite split_one_frame; [done| |by rewrite next_command_of_layout].
  rewrite len_app, Header_layout_len by done. pose proof (len_nonneg body). lia.
Qed.

(** The final responses that are delivered as they are. *)
Definition plain_response (h : Header) : Prop :=
  Header_wf h ∧ next_command h = 0 ∧ message_id h ≠ MessageId_UNSOLICITED ∧
  NtStatus.is_pending (status h) = false ∧ status h ≠ NtStatus.NETWORK_SESSION_EXPIRED.

Lemma prepare_response h body enc now i :
  plain_response h →
  check_signature (Header_layout h ++ body) h enc (crypto i) = Ok None →
  prepare_sub_frame (Header_layout h ++ body) enc now i =
  (Ok (Route (message_id h) (Ok (mkFrame h body (Header_layout h ++ body)))),
   set_credits (grant (credits h)) i).
Proof.
  intros (Hh & _ & Hu & Hp & Hs) Hsig. unfold prepare_sub_frame. rewrite Header_parse by done.
  cbv zeta. replace (message_id h =? MessageId_UNSOLICITED) with false by lia.
  rewrite Hp. cbn [crypto set_credits]. rewrite Hsig.
  replace (status h =? _) with false by lia.
  do 4 f_equal. rewrite len_app, Header_layout_len by done. unfold Header_SIZE.
  destruct body as [|b body]; [done|].
  replace (_ >? 64) with true by (rewrite len_cons; pose proof (len_nonneg body); lia).
  replace (Z.to_nat 64) with (length (Header_layout h))
    by (pose proof (Header_layout_len h Hh) as E; unfold len in E; lia).
  by rewrite drop_app_length.
Qed.

(** ** The receive path does not panic *)

Lemma unsolicited_no_panic h sub i : 64 <= len sub → unsolicited_action h sub i ≠ Panic.
Proof.
  intros Hl. unfold unsolicited_action, Header_SIZE. case_test; [|done].
  rewrite slice_ok by lia. unfold mbind, result_bind.
  pose proof (codec_safe (A := Oplock.OplockBreak)) as Hs. unfold ReadCursor_new.
  set (b := subslice _ _ _). specialize (Hs b 0 ltac:(pose proof (len_nonneg b); lia)).
  destruct (unpack Oplock.OplockBreak (RC b 0)) as [[brk c]|e|]; [|done|done].
  by destruct (oplock_trees i !! ob_file_id brk).
Qed.

Lemma check_signature_no_panic `{!MacLaws} sub h enc c : check_signature sub h enc c ≠ Panic.
Proof.
  unfold check_signature, Header_SIZE. destruct (_ && _) eqn:E; [|done].
  apply andb_true_iff in E as [_ E]. rewrite !slice_ok by lia. unfold mbind, result_bind.
  case_test; [|done]. destruct (cs_signing_key c) as [k|]; [|done].
  destruct (cs_signing_algorithm c) as [al|]; [|done].
  pose proof (verify_signature_no_panic sub k al (message_id h) (bool_decide (command h = Cancel))).
  by destruct (verify_signature _ _ _ _ _) as [[]| |].
Qed.

Lemma prepare_sub_frame_no_panic `{!MacLaws} sub enc now i :
  (prepare_sub_frame sub enc now i).1 ≠ Panic.
Proof.
  unfold prepare_sub_frame.
  pose proof (Header_safe sub 0 ltac:(pose proof (len_nonneg sub); lia)) as Hs.
  destruct (unpack Header (ReadCursor_new sub)) as [[h c]|e|] eqn:E; [|done|].
  2:{ unfold ReadCursor_new in E. by rewrite E in Hs. }
  apply Header_parse_len in E. case_test; [by apply unsolicited_no_panic|]. case_test; [done|].
  pose proof (check_signature_no_panic sub h enc (crypto (set_credits (grant (credits h)) i))).
  destruct (check_signature _ _ _ _) as [[e|]|e|]; [done| |done|done]. by case_test.
Qed.

Lemma prepare_all_no_panic `{!MacLaws} subs enc now i : (prepare_all subs enc now i).1 ≠ Panic.
Proof.
  revert i; induction subs as [|sub subs IH]; intros i; [done|]. cbn [prepare_all].
  pose proof (prepare_sub_frame_no_panic sub enc now i) as Hp.
  destruct (prepare_sub_frame sub enc now i) as [[[id r| |brk t]|e|] i1]; try done; try apply IH.
  specialize (IH i1). by destruct (prepare_all subs enc now i1) as [[l|e|] i2].
Qed.

(** ** Counters *)

Definition responses_total (m : Metrics) : Z :=
  m responses_routed_ok + m responses_routed_err + m responses_late_after_drop + m responses_stray.

Lemma route_one_total id r i :
  responses_total (metrics (route_one id r i)) = responses_total (metrics i) + 1.
Proof.
  unfold route_one. destruct (waiters i !! id) as [w|].
  - destruct (tx_send _ _ _) as [[] cs]; unfold responses_total; cbn; unfold fetch_add;
      destruct (is_err r); repeat case_decide; try done; lia.
  - case_test; unfold responses_total; cbn; unfold fetch_add; repeat case_decide; try done; lia.
Qed.

(** ** Properties *)

(** C3: no bytes a server can send make the receive path panic, in any
    state of the connection: every malformed frame is an error value. *)
Theorem receive_never_panics `{!MacLaws} raw now i :
  raw ≠ Panic → (receive_turn raw now i).1 ≠ Crash.
Proof.
  intros Hr. unfold receive_turn. destruct raw as [raw|e|]; [|done|done].
  set (i1 := set_last_frame_at (Some now) (bump wire_bytes_received (len raw) i)).
  destruct (if starts_with raw _ then _ else _) as [d|e|] eqn:E1; [|done|].
  2:{ case_test; [by apply decrypt_frame_no_panic in E1|done]. }
  destruct (if starts_with d _ then _ else _) as [d'|e|] eqn:E2; [|done|].
  2:{ case_test; [by apply decompress_response_no_panic in E2|done]. }
  pose proof (split_compound_sound d') as Hs.
  destruct (split_compound d') as [subs|e|]; [|done|done].
  pose proof (prepare_all_no_panic subs (starts_with raw TRANSFORM_PROTOCOL_ID) now i1).
  by destruct (prepare_all subs _ now i1) as [[l|e|] i2].
Qed.

(** The four response counters partition the routable responses:
    routing a batch adds exactly its length to their sum, whatever mix of
    delivered, failed, late and stray responses it holds. *)
Theorem response_counters_partition l i :
  responses_total (metrics (route_all l i)) = responses_total (metrics i) + len l.
Proof.
  revert i; induction l as [|[id r] l IH]; intros i; [by rewrite len_nil, Z.add_0_r|].
  unfold route_all in *. cbn [foldl fst snd]. rewrite IH, route_one_total, len_cons. lia.
Qed.

(** C2: in every reachable state of a connection, however requests,
    responses, cancellations, teardowns and revivals interleave, once the
    connection is marked disconnected no caller is left waiting: every channel
    ever handed out has an answer, an error or a closed peer, and no waiter
    remains registered. *)
Theorem no_waiter_survives_teardown i ch c :
  conn_reachable i → in_disconnected i = true → channels i !! ch = Some c →
  is_Some (recv_result c) ∧ waiters i = ∅.
Proof.
  intros Hr Hd Hc. apply conn_reachable_inv in Hr as [HL _ HD]. specialize (HD Hd).
  split; [|done]. destruct c; cbn; eauto.
  destruct (HL ch Hc) as (id & w & Hw & _). rewrite HD in Hw. done.
Qed.

(** When the receive loop stops, for whatever reason, the connection is
    marked disconnected, its credit pool is closed and every waiter has been
    told. *)
Theorem receive_exit_tears_down `{!SemaphoreLaws Sem} raw now i i' :
  conn_inv i → receive_turn raw now i = (Exit, i') →
  in_disconnected i' = true ∧ is_closed (in_credits i') = true ∧ waiters i' = ∅ ∧
  ∀ ch, channels i' !! ch ≠ Some ChEmpty.
Proof.
  intros Hi E.
  assert (∀ e j, conn_inv j → i' = fan_error_to_waiters e j →
    in_disconnected i' = true ∧ is_closed (in_credits i') = true ∧ waiters i' = ∅ ∧
    ∀ ch, channels i' !! ch ≠ Some ChEmpty) as Hfan.
  { intros e j Hj ->. split; [done|]. split; [apply close_spec|]. split; [done|].
    intros ch Hch. by apply (fan_settles e j ch ChEmpty Hj). }
  unfold receive_turn in E. destruct raw as [raw|e|]; [|injection E as E; symmetry in E; eapply Hfan; [|exact E]; done|done].
  set (i1 := set_last_frame_at (Some now) (bump wire_bytes_received (len raw) i)) in *.
  assert (conn_inv i1) as Hi1 by same_inv.
  assert (∀ k, conn_inv (bump k 1 i1)) as Hb by (intros; same_inv).
  destruct (if starts_with raw _ then _ else _) as [d|e|]; [|injection E as E; symmetry in E; eapply Hfan; [|exact E]; done|done].
  destruct (if starts_with d _ then _ else _) as [d'|e|]; [|injection E as E; symmetry in E; eapply Hfan; [|exact E]; done|done].
  destruct (split_compound d') as [subs|e|]; [|injection E as E; symmetry in E; eapply Hfan; [|exact E]; done|done].
  destruct (prepare_all subs _ now i1) as [[l|e|] i2] eqn:Ep; [done| |done].
  injection E as <-. apply prepare_all_err in Ep as (e' & j0 & Hj0 & Ej); [|done].
  by apply (Hfan e' j0).
Qed.


(** An interim STATUS_PENDING response resolves nobody: every
    channel and every waiter stays, the addressed waiter restarts its clock and
    remembers the async id, and the credits it carries are banked. *)
Theorem pending_keeps_waiter h body now i :
  Header_wf h → next_command h = 0 → message_id h ≠ MessageId_UNSOLICITED →
  status h = NtStatus.PENDING →
  ∃ i', receive_turn (Ok (Header_layout h ++ body)) now i = (Continue, i') ∧
    channels i' = channels i ∧
    waiters i' = alter (touch_waiter now (async_id h)) (message_id h) (waiters i) ∧
    in_credits i' = grant (credits h) (in_credits i).
Proof.
  intros Hh Hn Hu Hs. rewrite receive_turn_single by done. cbn [prepare_all].
  unfold prepare_sub_frame. rewrite Header_parse by done. cbv zeta.
  replace (message_id h =? MessageId_UNSOLICITED) with false by lia.
  rewrite Hs. eexists. split; [reflexivity|]. done.
Qed.

(** With signing active, a signed plaintext response whose MAC
    does not verify is never delivered: its caller gets the error. *)
Theorem bad_signature_rejected sub h c key algo e now i :
  unpack Header (ReadCursor_new sub) = Ok (h, c) →
  message_id h ≠ MessageId_UNSOLICITED → NtStatus.is_pending (status h) = false →
  cs_should_sign (crypto i) = true → cs_signing_key (crypto i) = Some key →
  cs_signing_algorithm (crypto i) = Some algo →
  Z.land (of_le (subslice sub 16 20)) HeaderFlags.SIGNED ≠ 0 →
  of_le (subslice sub 8 12) ≠ NtStatus.PENDING →
  verify_signature sub key algo (message_id h) (bool_decide (command h = Cancel)) = Err e →
  (prepare_sub_frame sub false now i).1 = Ok (Route (message_id h) (Err e)).
Proof.
  intros Eh Hu Hp Hs Hk Ha Hf Hst Hv. unfold prepare_sub_frame. rewrite Eh. cbv zeta.
  replace (message_id h =? MessageId_UNSOLICITED) with false by lia. rewrite Hp.
  pose proof (Header_parse_len _ _ _ Eh) as Hl.
  unfold check_signature. cbn [crypto set_credits]. rewrite Hs.
  unfold Header_SIZE. replace (len sub >=? 64) with true by lia. cbn [andb negb].
  rewrite !slice_ok by lia. unfold mbind, result_bind.
  replace (Z.land _ _ =? 0) with false by lia. replace (of_le _ =? _) with false by lia.
  cbn [andb negb]. by rewrite Hk, Ha, Hv.
Qed.

(** The verifier looks at signed frames only: with signing active, a
    plaintext response whose SIGNED flag is clear is delivered to its caller
    unverified. *)
Theorem unsigned_response_accepted h body now i w :
  plain_response h → cs_should_sign (crypto i) = true →
  Z.land (flags h) HeaderFlags.SIGNED = 0 →
  waiters i !! message_id h = Some w → channels i !! w_tx w = Some ChEmpty →
  ∃ i', receive_turn (Ok (Header_layout h ++ body)) now i = (Continue, i') ∧
    channels i' !! w_tx w = Some (ChAnswered (Ok (mkFrame h body (Header_layout h ++ body)))).
Proof.
  intros Hpl Hsign Hfl Hw Hc. pose proof Hpl as (Hh & Hn & _). rewrite receive_turn_single by done.
  cbn [prepare_all]. rewrite prepare_response; [|done|].
  2:{ unfold check_signature. cbn [crypto set_last_frame_at bump]. rewrite Hsign.
      unfold Header_SIZE. pose proof (len_nonneg body).
      rewrite len_app, Header_layout_len by done. replace (64 + _ >=? 64) with true by lia.
      cbn [andb negb]. rewrite !slice_ok by (rewrite ?len_app, ?Header_layout_len by done; lia).
      unfold mbind, result_bind. rewrite flags_of_layout, Hfl by done. done. }
  eexists. split; [reflexivity|]. cbn [route_all foldl fst snd].
  edestruct route_one_delivers as (-> & _); [| |by rewrite lookup_insert_eq]; done.
Qed.

(** Message ids restart when a connection is revived, so the
    guard of a request of the dead session, dropped late, removes the waiter
    the new session registered under the same id: its caller sees a
    disconnect although the connection is alive. *)
Theorem stale_guard_evicts_new_waiter i id c1 c2 t1 t2 ch1 ch2 g1 g2 i1 i2 :
  register_waiter id c1 t1 ch1 i = (Ok g1, i1) →
  ch1 ≠ ch2 →
  register_waiter id c2 t2 ch2 (install_transport i1) = (Ok g2, i2) →
  let i3 := guard_drop g1 i2 in
  in_disconnected i3 = false ∧ waiters i3 !! id = None ∧
  channels i3 !! g_rx g2 = Some ChSenderGone ∧
  recv_result ChSenderGone = Some (Err Disconnected).
Proof.
  intros E1 Hne E2 i3.
  assert (g1 = mkWaiterGuard id ch1) as ->.
  { unfold register_waiter in E1. destruct (in_disconnected i); [done|]. by injection E1 as <- _. }
  apply register_fresh in E2 as (-> & Hd & Hw & Hc); [|done].
  destruct (guard_drop_foreign (mkWaiterGuard id ch1) i2 (mkWaiter ch2 c2 t2 None t2 None))
    as (Gd & Gw & Gc); cbn [g_msg_id g_rx w_tx] in *.
  - by rewrite Hw, lookup_insert_eq.
  - done.
  - by rewrite Hc, lookup_insert_eq.
  - unfold i3. rewrite Gd, Gw, Gc, lookup_delete_eq. done.
Qed.

End routing.

(** ** Witnesses: a connection with one READ outstanding *)

Definition toy_inner : Inner (Sem := Z * bool) := (register_waiter 5 Read 100 0 Inner_new).2.

Definition toy_signing : CryptoState :=
  mkCryptoState (Some (zeros 16)) (Some AesCmac) true None None None false None 9.

Definition toy_response (fl st : Z) : Header :=
  mkHeader 1 st Read 10 fl 0 5 (Some 3) None 9 (zeros 16).

Lemma toy_response_wf : Header_wf (toy_response 1 0).
Proof. constructor; try done. split; [done|]. by exists 3. Qed.
Lemma toy_pending_wf : Header_wf (toy_response 1 NtStatus.PENDING).
Proof. constructor; try done. split; [done|]. by exists 3. Qed.

Lemma toy_inner_reachable : conn_reachable toy_inner.
Proof. eapply cr_step; [apply cr_new|]. by apply cs_register. Qed.

Lemma no_waiter_survives_teardown_witness :
  is_Some (recv_result (ChAnswered (Err Disconnected))).
Proof.
  apply (no_waiter_survives_teardown (mark_dead toy_inner) 0); [|done|done].
  eapply cr_step; [apply toy_inner_reachable|]. apply cs_mark_dead.
Defined.

Lemma receive_exit_tears_down_witness :
  waiters (receive_turn (Err Timeout) 200 toy_inner).2 = ∅.
Proof.
  apply (receive_exit_tears_down (Err Timeout) 200 toy_inner); [|done].
  apply conn_reachable_inv, toy_inner_reachable.
Defined.


Lemma pending_keeps_waiter_witness :
  ∃ i', receive_turn (Ok (Header_layout (toy_response 1 NtStatus.PENDING) ++ [])) 200 toy_inner
          = (Continue, i') ∧ channels i' = channels toy_inner.
Proof.
  destruct (pending_keeps_waiter (toy_response 1 NtStatus.PENDING) [] 200 toy_inner)
    as (i' & E & Hc & _); [apply toy_pending_wf|done|done|done|].
  by exists i'.
Defined.

Lemma bad_signature_rejected_witness :
  (prepare_sub_frame (Header_layout (toy_response 9 0)) false 200 (set_crypto toy_signing toy_inner)).1
    = Ok (Route 5 (Err (invalid_data "signature verification failed"))).
Proof.
  by apply (bad_signature_rejected (Header_layout (toy_response 9 0)) (toy_response 9 0)
              (RC (Header_layout (toy_response 9 0)) 64) (zeros 16) AesCmac).
Defined.

Lemma unsigned_response_accepted_witness :
  ∃ i', receive_turn (Ok (Header_layout (toy_response 1 0) ++ [x2a])) 200
          (set_crypto toy_signing toy_inner) = (Continue, i') ∧
        channels i' !! 0%nat =
          Some (ChAnswered (Ok (mkFrame (toy_response 1 0) [x2a]
                                  (Header_layout (toy_response 1 0) ++ [x2a])))).
Proof.
  apply (unsigned_response_accepted (toy_response 1 0) [x2a] 200 (set_crypto toy_signing toy_inner)
           (mkWaiter 0 Read 100 None 100 None)); try done.
  split; [apply toy_response_wf|done].
Defined.

Definition toy_revived : Inner (Sem := Z * bool) :=
  (register_waiter 5 Echo 300 1 (install_transport toy_inner)).2.

Lemma stale_guard_evicts_new_waiter_witness :
  waiters (guard_drop (mkWaiterGuard 5 0) toy_revived) !! 5 = None.
Proof.
  by apply (stale_guard_evicts_new_waiter Inner_new 5 Read Echo 100 300 0 1
              (mkWaiterGuard 5 0) (mkWaiterGuard 5 1) toy_inner toy_revived).
Defined.

Lemma receive_never_panics_witness :
  (receive_turn (Ok (zeros 3)) 200 toy_inner).1 ≠ Crash.
Proof. by apply (receive_never_panics (Ok (zeros 3))). Defined.
