(* ===== verification/Liveness.v ===== *)
(** * Deadlines, liveness and scheduling stalls

    Models the clocks of [src/client/connection.rs]: the silence deadline of
    [await_response], the connection-bounded wait of [await_long_poll], the two
    readings of the liveness clock ([liveness_is_proven], [unresponsive_for]),
    the forgiveness of stretches in which this process did not run, and what the
    keepalive loop and the stale-request sweeper decide.

    Instants and durations are numbers of nanoseconds; [now] is what
    [Instant::now()] returns.  The fields of [Inner] that only the timers use
    are kept beside the rest of it in [Timed].  A wait loop is run over a trace:
    what other tasks do to the connection before each tick, and the time of the
    tick. *)

From S2P Require Import Prelude Types Header Signing Transform Credits Oplock Connection.

(** ** Durations and instants *)

Definition ms : Z := 1000000.
Definition secs : Z := 1000000000.
Definition DURATION_MAX : Z := 2 ^ 64 * secs - 1.
(** The largest instant of the platform's representation (signed seconds). *)
Definition INSTANT_MAX : Z := 2 ^ 63 * secs - 1.

(** [now.saturating_duration_since(t)] *)
Definition since (now t : Z) : Z := Z.max 0 (now - t).
(** [Duration * u32]: panics on overflow. *)
Definition duration_mul (d k : Z) : result Error Z :=
  if d * k <=? DURATION_MAX then Ok (d * k) else Panic.
(** [Duration::saturating_mul] *)
Definition duration_saturating_mul (d k : Z) : Z := Z.min DURATION_MAX (d * k).
(** [Ord::clamp] *)
Definition clamp (x lo hi : Z) : Z := Z.min hi (Z.max lo x).

Definition STALE_WAITER_AFTER : Z := 15 * secs.
Definition RESPONSE_TIMEOUT : Z := 30 * secs.
Definition SEND_TIMEOUT : Z := 20 * secs.
Definition KEEPALIVE_AFTER : Z := 5 * secs.
Definition STALE_WAITER_SWEEP : Z := 10 * secs.
Definition LIVENESS_WINDOW_PROBES : Z := 3.
Definition ALIVE_DEADLINE_FACTOR : Z := 6.
Definition LONG_POLL_REFRESH : Z := 600 * secs.

Definition is_long_poll (c : Command) : bool := bool_decide (c = ChangeNotify).

(** How often the keepalive loop wakes. *)
Definition keepalive_tick (after : Z) : Z := clamp (after / 5) (25 * ms) (1 * secs).

Section liveness.
Context {Sem : Type} `{Semaphore Sem, MacPrimitives, AeadPrimitives, Lz4}.

Record Timed := mkTimed {
  tm_inner : Inner (Sem := Sem);
  response_timeout : option Z;
  keepalive_after : option Z;
  long_poll_refresh : option Z;
  last_scheduled_at : Z
}.

Definition Timed_new (now : Z) : Timed :=
  mkTimed Inner_new (Some RESPONSE_TIMEOUT) (Some KEEPALIVE_AFTER) (Some LONG_POLL_REFRESH) now.

Definition on_inner (f : Inner (Sem := Sem) → Inner (Sem := Sem)) (t : Timed) : Timed :=
  mkTimed (f (tm_inner t)) (response_timeout t) (keepalive_after t) (long_poll_refresh t)
    (last_scheduled_at t).

Implicit Types t : Timed.

(** ** Readings of the clocks *)

Definition server_silent_for (now : Z) t : option Z := since now <$> last_frame_at (tm_inner t).

(** [Iterator::min] *)
Fixpoint list_min (l : list Z) : option Z :=
  match l with
  | [] => None
  | x :: l => Some (match list_min l with Some y => Z.min x y | None => x end)
  end.

(** [waiters.values().filter_map(|w| w.sent_at).min()] *)
Definition oldest_sent (m : gmap Z Waiter) : option Z :=
  list_min (omap (λ p, w_sent_at p.2) (map_to_list m)).

Definition quiet_for (now : Z) t : option Z :=
  oldest ← oldest_sent (waiters (tm_inner t));
  let reference := match last_frame_at (tm_inner t) with
                   | Some spoke => Z.max spoke oldest
                   | None => oldest
                   end in
  Some (since now reference).

Definition liveness_is_proven (now : Z) t : result Error bool :=
  match keepalive_after t with
  | None => Ok false
  | Some after =>
      match server_silent_for now t with
      | Some silent => window ← duration_mul after LIVENESS_WINDOW_PROBES; Ok (silent <? window)
      | None => Ok false
      end
  end.

Definition unresponsive_for (now : Z) t : result Error (option Z) :=
  match keepalive_after t with
  | None => Ok None
  | Some after =>
      match quiet_for now t with
      | None => Ok None
      | Some quiet =>
          window ← duration_mul after LIVENESS_WINDOW_PROBES;
          Ok (if quiet >=? window then Some quiet else None)
      end
  end.

Definition waiter_sent_age (msg_id now : Z) t : option Z :=
  w ← waiters (tm_inner t) !! msg_id; sent ← w_sent_at w; Some (since now sent).

Definition async_id_for (msg_id : Z) t : option Z :=
  w ← waiters (tm_inner t) !! msg_id; w_async_id w.

Definition waiter_idle_for (msg_id now : Z) t : option Z :=
  w ← waiters (tm_inner t) !! msg_id; Some (since now (w_last_activity w)).

(** ** Scheduling stalls *)

(** [t.checked_add(stall).unwrap_or(now)] *)
Definition shift (stall now x : Z) : Z := if x + stall <=? INSTANT_MAX then x + stall else now.

Definition shift_waiter (stall now : Z) (w : Waiter) : Waiter :=
  mkWaiter (w_tx w) (w_command w) (shift stall now (w_registered_at w))
    (shift stall now <$> w_sent_at w) (shift stall now (w_last_activity w)) (w_async_id w).

(** The stretch beyond one tick this process did not run, when it is at least
    the probe threshold. *)
Definition stall_of (now : Z) t : option Z :=
  let after := default KEEPALIVE_AFTER (keepalive_after t) in
  let gap := sat_sub (since now (last_scheduled_at t)) (keepalive_tick after) in
  if gap >=? after then Some gap else None.

Definition set_last_scheduled_at (now : Z) t : Timed :=
  mkTimed (tm_inner t) (response_timeout t) (keepalive_after t) (long_poll_refresh t) now.

Definition forgive_scheduling_stall (now : Z) t : option Z * Timed :=
  let stall := stall_of now t in
  let t := set_last_scheduled_at now t in
  match stall with
  | None => (None, t)
  | Some s =>
      (Some s,
       on_inner (λ i, bump scheduling_stalls 1
         (set_waiters (fmap (shift_waiter s now))
           (set_last_frame_at (shift s now <$> last_frame_at i) i))) t)
  end.

(** ** Waiting for a response *)

Definition declare_unresponsive (silent_for : Z) t : Error * Timed :=
  (ServerUnresponsive silent_for, on_inner (fan_error_to_waiters (ServerUnresponsive silent_for)) t).

Inductive tick_outcome :=
| Keep (extended : bool)
| GiveUp (e : Error).

(** One wake-up of the loop in [await_response]. *)
Definition await_tick (timeout : Z) (msg_id : Z) (extended : bool) (now : Z) t :
    result Error tick_outcome * Timed :=
  let alive_ceiling := duration_saturating_mul timeout ALIVE_DEADLINE_FACTOR in
  let t := (forgive_scheduling_stall now t).2 in
  match waiter_idle_for msg_id now t with
  | None => (Ok (Keep extended), t)
  | Some idle =>
      if idle <? timeout then (Ok (Keep extended), t)
      else
        match (if idle <? alive_ceiling then liveness_is_proven now t else Ok false) with
        | Panic => (Panic, t)
        | Err e => (Err e, t)
        | Ok true =>
            (Ok (Keep true),
             if extended then t else on_inner (bump response_deadline_extensions 1) t)
        | Ok false =>
            match unresponsive_for now t with
            | Panic => (Panic, t)
            | Err e => (Err e, t)
            | Ok verdict =>
                let t := on_inner (bump response_timeouts 1) (on_inner (remove_waiter msg_id) t) in
                match verdict with
                | Some silent_for =>
                    let '(e, t) := declare_unresponsive silent_for t in (Ok (GiveUp e), t)
                | None => (Ok (GiveUp Timeout), t)
                end
            end
        end
  end.

(** The loop: other tasks run, then either the response is there or a tick
    passes.  [None]: still waiting at the end of the trace. *)
Fixpoint await_response_loop (timeout : Z) (g : WaiterGuard) (extended : bool)
    (trace : list ((Timed → Timed) * Z)) t : option (result Error Frame) * Timed :=
  match trace with
  | [] => (None, t)
  | (others, now) :: trace =>
      let t := others t in
      match channels (tm_inner t) !! g_rx g ≫= recv_result with
      | Some r => (Some r, on_inner (guard_drop g) t)
      | None =>
          match await_tick timeout (g_msg_id g) extended now t with
          | (Panic, t) => (Some Panic, t)
          | (Err e, t) => (Some (Err e), on_inner (guard_drop g) t)
          | (Ok (GiveUp e), t) => (Some (Err e), on_inner (guard_drop g) t)
          | (Ok (Keep extended), t) => await_response_loop timeout g extended trace t
          end
      end
  end.

(** ** Long polls *)

Inductive LongPollOutcome :=
| Answered (f : Frame)
| RefreshDue (msg_id : Z) (async_id : option Z).

(** One wake-up of [await_long_poll], after [recv] has found nothing: [None] to
    go on waiting. *)
Definition long_poll_tick (budget refresh : option Z) (g : WaiterGuard) (now : Z) t :
    option (result Error LongPollOutcome) * Timed :=
  let msg_id := g_msg_id g in
  let t := (forgive_scheduling_stall now t).2 in
  match waiter_idle_for msg_id now t with
  | None => (None, t)
  | Some _ =>
      match (match budget with None => Ok None | Some _ => unresponsive_for now t end) with
      | Panic => (Some Panic, t)
      | Err e => (Some (Err e), on_inner (guard_drop g) t)
      | Ok verdict =>
          match (q ← verdict; b ← budget; if q >=? b then Some q else None) with
          | Some quiet =>
              let t := on_inner (bump response_timeouts 1) (on_inner (remove_waiter msg_id) t) in
              let '(e, t) := declare_unresponsive quiet t in
              (Some (Err e), on_inner (guard_drop g) t)
          | None =>
              match (r ← refresh; age ← waiter_sent_age msg_id now t;
                     if age >=? r then Some age else None) with
              | None => (None, t)
              | Some _ =>
                  match channels (tm_inner t) !! g_rx g ≫= recv_result with
                  | Some (Ok frame) => (Some (Ok (Answered frame)), on_inner (guard_drop g) t)
                  | Some (Err e) => (Some (Err e), on_inner (guard_drop g) t)
                  | Some Panic => (Some Panic, on_inner (guard_drop g) t)
                  | None =>
                      let async_id := async_id_for msg_id t in
                      (Some (Ok (RefreshDue msg_id async_id)),
                       on_inner (bump long_poll_refreshes 1) (on_inner (guard_drop g) t))
                  end
              end
          end
      end
  end.

(** The loop of [await_long_poll]; a trace as for [await_response_loop]. *)
Fixpoint await_long_poll_loop (budget refresh : option Z) (g : WaiterGuard)
    (trace : list ((Timed → Timed) * Z)) t : option (result Error LongPollOutcome) * Timed :=
  match trace with
  | [] => (None, t)
  | (others, now) :: trace =>
      let t := others t in
      match channels (tm_inner t) !! g_rx g ≫= recv_result with
      | Some r => (Some (f ← r; Ok (Answered f)), on_inner (guard_drop g) t)
      | None =>
          match budget, refresh with
          | None, None => await_long_poll_loop budget refresh g trace t
          | _, _ =>
              match long_poll_tick budget refresh g now t with
              | (None, t) => await_long_poll_loop budget refresh g trace t
              | x => x
              end
          end
      end
  end.

(** With no response deadline configured the guard is simply received from. *)
Fixpoint recv_loop (g : WaiterGuard) (trace : list ((Timed → Timed) * Z)) t :
    option (result Error Frame) * Timed :=
  match trace with
  | [] => (None, t)
  | (others, now) :: trace =>
      let t := others t in
      match channels (tm_inner t) !! g_rx g ≫= recv_result with
      | Some r => (Some r, on_inner (guard_drop g) t)
      | None => recv_loop g trace t
      end
  end.

Definition await_response (g : WaiterGuard) (c : Command) (trace : list ((Timed → Timed) * Z)) t :
    option (result Error Frame) * Timed :=
  match response_timeout t with
  | None => recv_loop g trace t
  | Some timeout =>
      if is_long_poll c then
        match await_long_poll_loop (Some timeout) None g trace t with
        | (Some (Ok (Answered f)), t) => (Some (Ok f), t)
        | (Some (Ok (RefreshDue _ _)), t) => (Some Panic, t)
        | (Some (Err e), t) => (Some (Err e), t)
        | (Some Panic, t) => (Some Panic, t)
        | (None, t) => (None, t)
        end
      else await_response_loop timeout g false trace t
  end.

(** ** Keepalive and sweeper *)

(** What a round of [keepalive_loop] does after its sleep: [true] to probe. *)
Definition keepalive_round (now : Z) t : bool * Timed :=
  if in_disconnected (tm_inner t) then (false, t)
  else
    let t := (forgive_scheduling_stall now t).2 in
    match keepalive_after t, quiet_for now t with
    | Some after, Some quiet => (quiet >=? after, t)
    | _, _ => (false, t)
    end.

(** Requests that should have come back, and long polls parked as designed. *)
Definition classify_outstanding (threshold now : Z) t :
    list (Z * Command * Z * option Z) * list (Z * Command * Z) :=
  foldr (λ p acc,
    let '(stale, parked) := acc in
    let '(id, w) := p in
    let age := since now (w_registered_at w) in
    if is_long_poll (w_command w) then (stale, (id, w_command w, age) :: parked)
    else if age >=? threshold
    then ((id, w_command w, age, since now <$> w_sent_at w) :: stale, parked)
    else (stale, parked)) ([], []) (map_to_list (waiters (tm_inner t))).

(** ** The oldest request on the wire *)

Lemma list_min_Some l x : list_min l = Some x ↔ x ∈ l ∧ ∀ y, y ∈ l → x <= y.
Proof.
  revert x; induction l as [|z l IH]; intros x; cbn.
  - split; [done|]. intros [Hx _]. by apply elem_of_nil in Hx.
  - destruct (list_min l) as [m|] eqn:E.
    + destruct (proj1 (IH m) eq_refl) as [Hm Hmin]. split.
      * intros [= <-]. split.
        -- rewrite elem_of_cons. destruct (Z.le_ge_cases z m);
             [left; lia|right; by replace (Z.min z m) with m by lia].
        -- intros y [->|Hy]%elem_of_cons; [lia|]. specialize (Hmin y Hy). lia.
      * intros [Hx Hall]. f_equal.
        pose proof (Hall z (list_elem_of_here _ _)). pose proof (Hall m (list_elem_of_further _ _ _ Hm)).
        apply elem_of_cons in Hx as [->|Hx]; [lia|]. specialize (Hmin x Hx). lia.
    + assert (l = []) as -> by (destruct l; [done|by cbn in E]). split.
      * intros [= <-]. split; [apply list_elem_of_here|]. intros y [->|[]%elem_of_nil]%elem_of_cons. lia.
      * intros [[->|[]%elem_of_nil]%elem_of_cons _]. done.
Qed.

Lemma oldest_sent_Some m x :
  oldest_sent m = Some x ↔
  (∃ id w, m !! id = Some w ∧ w_sent_at w = Some x) ∧
  (∀ id w y, m !! id = Some w → w_sent_at w = Some y → x <= y).
Proof.
  unfold oldest_sent. rewrite list_min_Some.
  assert (∀ y, y ∈ omap (λ p : Z * Waiter, w_sent_at p.2) (map_to_list m) ↔
    ∃ id w, m !! id = Some w ∧ w_sent_at w = Some y) as Hin.
  { intros y. rewrite list_elem_of_omap. split.
    - intros ([id w] & Hp & Hs). apply elem_of_map_to_list in Hp. eauto.
    - intros (id & w & Hp & Hs). exists (id, w). by rewrite elem_of_map_to_list. }
  rewrite Hin. split; intros [H1' H2']; (split; [done|]).
  - intros id w y Hw Hs. apply H2', Hin. eauto.
  - intros y (id & w & Hw & Hs)%Hin. eauto.
Qed.

(** ** Forgiveness *)

(** Every instant on record is in the past, and [now] is far from the end of
    the platform's clock (about 146 billion years). *)
Record instants_ok (now : Z) t : Prop := {
  io_scheduled : 0 <= last_scheduled_at t <= now;
  io_far : 2 * now <= INSTANT_MAX;
  io_spoke : ∀ x, last_frame_at (tm_inner t) = Some x → x <= now;
  io_active : ∀ id w, waiters (tm_inner t) !! id = Some w → w_last_activity w <= now;
  io_sent : ∀ id w x, waiters (tm_inner t) !! id = Some w → w_sent_at w = Some x → x <= now
}.

Definition probe_after t : Z := default KEEPALIVE_AFTER (keepalive_after t).

(** The time a clock is moved forward by. *)
Definition forgiven (now : Z) t : Z := default 0 (stall_of now t).

Lemma keepalive_tick_range after : 0 < keepalive_tick after <= secs.
Proof. unfold keepalive_tick, clamp, ms, secs. lia. Qed.

(** What is left of the time since the last wake-up. *)
Lemma forgiven_bounds now t :
  0 <= last_scheduled_at t <= now → 0 <= probe_after t →
  0 <= forgiven now t <= now - last_scheduled_at t ∧
  now - last_scheduled_at t - forgiven now t <= probe_after t + keepalive_tick (probe_after t).
Proof.
  intros Hw Ha. unfold forgiven, stall_of. fold (probe_after t).
  pose proof (keepalive_tick_range (probe_after t)). unfold sat_sub, since.
  destruct (_ >=? probe_after t) eqn:E; cbn; lia.
Qed.

Lemma shift_small s now x : 0 <= s <= now → x <= now → 2 * now <= INSTANT_MAX → shift s now x = x + s.
Proof. intros Hs Hx Hn. unfold shift. by rewrite (proj2 (Z.leb_le _ _)) by lia. Qed.

(** How the readings change: every clock moves by [forgiven now t]. *)
Lemma forgive_waiter now t id :
  instants_ok now t → 0 <= probe_after t →
  waiters (tm_inner (forgive_scheduling_stall now t).2) !! id =
  (λ w, mkWaiter (w_tx w) (w_command w)
          (match stall_of now t with
           | Some s => shift s now (w_registered_at w)
           | None => w_registered_at w
           end)
          ((λ x, x + forgiven now t) <$> w_sent_at w)
          (w_last_activity w + forgiven now t) (w_async_id w)) <$> waiters (tm_inner t) !! id.
Proof.
  intros Hok Ha. pose proof (forgiven_bounds now t (io_scheduled _ _ Hok) Ha) as [Hf _].
  pose proof (io_scheduled _ _ Hok). pose proof (io_far _ _ Hok).
  unfold forgive_scheduling_stall. unfold forgiven in *. destruct (stall_of now t) as [s|]; cbn in *.
  - rewrite lookup_fmap. destruct (waiters (tm_inner t) !! id) as [w|] eqn:E; [|done]. cbn. f_equal.
    unfold shift_waiter. f_equal.
    + destruct (w_sent_at w) as [x|] eqn:Ex; [|done]. cbn. f_equal.
      apply shift_small; [lia|by eapply (io_sent _ _ Hok)|done].
    + apply shift_small; [lia|by eapply (io_active _ _ Hok)|done].
  - destruct (waiters (tm_inner t) !! id) as [[tx c r st la ai]|]; [|done]. cbn.
    rewrite Z.add_0_r. do 2 f_equal. destruct st; cbn; [by rewrite Z.add_0_r|done].
Qed.

Lemma forgive_last_frame now t :
  instants_ok now t → 0 <= probe_after t →
  last_frame_at (tm_inner (forgive_scheduling_stall now t).2) =
  (λ x, x + forgiven now t) <$> last_frame_at (tm_inner t).
Proof.
  intros Hok Ha. pose proof (forgiven_bounds now t (io_scheduled _ _ Hok) Ha) as [Hf _].
  pose proof (io_scheduled _ _ Hok). pose proof (io_far _ _ Hok).
  unfold forgive_scheduling_stall. unfold forgiven in *. destruct (stall_of now t) as [s|]; cbn in *.
  - destruct (last_frame_at (tm_inner t)) as [x|] eqn:E; [|done]. cbn. f_equal.
    apply shift_small; [lia|by apply (io_spoke _ _ Hok)|done].
  - destruct (last_frame_at (tm_inner t)); [|done]. cbn. by rewrite Z.add_0_r.
Qed.

Lemma forgive_oldest now t :
  instants_ok now t → 0 <= probe_after t →
  oldest_sent (waiters (tm_inner (forgive_scheduling_stall now t).2)) =
  (λ x, x + forgiven now t) <$> oldest_sent (waiters (tm_inner t)).
Proof.
  intros Hok Ha. set (t' := (forgive_scheduling_stall now t).2).
  assert (∀ x, oldest_sent (waiters (tm_inner t)) = Some x →
               oldest_sent (waiters (tm_inner t')) = Some (x + forgiven now t)) as Hfw.
  { intros x [(id & w & Hw & Hs) Hmin]%oldest_sent_Some. apply oldest_sent_Some. split.
    - eexists id, _. unfold t'. rewrite forgive_waiter, Hw by done. split; [done|]. cbn. by rewrite Hs.
    - intros id' w' y. unfold t'. rewrite forgive_waiter by done.
      destruct (waiters (tm_inner t) !! id') as [w0|] eqn:E0; [|done]. cbn. intros [= <-]. cbn.
      destruct (w_sent_at w0) as [z|] eqn:Ez; [|done]. cbn. intros [= <-].
      specialize (Hmin _ _ _ E0 Ez). lia. }
  destruct (oldest_sent (waiters (tm_inner t))) as [x|] eqn:E; [by apply Hfw|].
  destruct (oldest_sent (waiters (tm_inner t'))) as [y|] eqn:E'; [|done]. exfalso.
  apply oldest_sent_Some in E' as [(id & w & Hw & Hs) _]. unfold t' in Hw.
  rewrite forgive_waiter in Hw by done.
  destruct (waiters (tm_inner t) !! id) as [w0|] eqn:E0; [|done]. cbn in Hw. injection Hw as <-.
  cbn in Hs. destruct (w_sent_at w0) as [z|] eqn:Ez; [|done].
  unfold oldest_sent in E.
  assert (z ∈ omap (λ p : Z * Waiter, w_sent_at p.2) (map_to_list (waiters (tm_inner t)))) as Hin.
  { apply list_elem_of_omap. exists (id, w0). by rewrite elem_of_map_to_list. }
  destruct (omap _ _); [by apply elem_of_nil in Hin|done].
Qed.

Lemma forgive_settings now t :
  keepalive_after (forgive_scheduling_stall now t).2 = keepalive_after t ∧
  response_timeout (forgive_scheduling_stall now t).2 = response_timeout t ∧
  last_scheduled_at (forgive_scheduling_stall now t).2 = now ∧
  channels (tm_inner (forgive_scheduling_stall now t).2) = channels (tm_inner t) ∧
  in_disconnected (tm_inner (forgive_scheduling_stall now t).2) = in_disconnected (tm_inner t).
Proof. unfold forgive_scheduling_stall. by destruct (stall_of now t). Qed.

(** A reading [a] at the last wake-up and [b] now, the clock having been moved. *)
Lemma age_bounds now t x :
  0 <= last_scheduled_at t <= now → 0 <= probe_after t →
  since (last_scheduled_at t) x <= since now (x + forgiven now t)
    <= since (last_scheduled_at t) x + (probe_after t + keepalive_tick (probe_after t)).
Proof.
  intros Hw Ha. pose proof (forgiven_bounds now t Hw Ha) as [Hf Hg].
  pose proof (keepalive_tick_range (probe_after t)). unfold since. lia.
Qed.

(** ** One tick *)

(** A keepalive threshold whose window does not overflow a [Duration]. *)
Definition armed (ka : option Z) : Prop :=
  match ka with
  | Some after => 0 <= after ∧ after * LIVENESS_WINDOW_PROBES <= DURATION_MAX
  | None => True
  end.
Definition armed_ok t : Prop := armed (keepalive_after t).

Lemma duration_mul_ok d k : d * k <= DURATION_MAX → duration_mul d k = Ok (d * k).
Proof. intros Hd. unfold duration_mul. by rewrite (proj2 (Z.leb_le _ _)). Qed.

Lemma liveness_total now t : armed_ok t → ∃ b, liveness_is_proven now t = Ok b.
Proof.
  unfold armed_ok, armed, liveness_is_proven. destruct (keepalive_after t) as [after|]; [|by eexists].
  intros [_ Hd]. destruct (server_silent_for now t); [|by eexists].
  rewrite duration_mul_ok by done. by eexists.
Qed.

Lemma unresponsive_total now t : armed_ok t → ∃ v, unresponsive_for now t = Ok v.
Proof.
  unfold armed_ok, armed, unresponsive_for. destruct (keepalive_after t) as [after|]; [|by eexists].
  intros [_ Hd]. destruct (quiet_for now t); [|by eexists].
  rewrite duration_mul_ok by done. by eexists.
Qed.

Lemma forgive_armed now t : armed_ok t → armed_ok (forgive_scheduling_stall now t).2.
Proof. unfold armed_ok. by destruct (forgive_settings now t) as (-> & _). Qed.

(** Without a stall, forgiveness only notes that this process ran. *)
Lemma forgive_none now t : stall_of now t = None →
  forgive_scheduling_stall now t = (None, set_last_scheduled_at now t).
Proof. intros E. unfold forgive_scheduling_stall. by rewrite E. Qed.

(** A tick that goes on waiting changes at most the witness and a counter. *)
Lemma await_tick_keep timeout id ext now t ext' t' :
  stall_of now t = None → await_tick timeout id ext now t = (Ok (Keep ext'), t') →
  t' = set_last_scheduled_at now t ∨
  t' = on_inner (bump response_deadline_extensions 1) (set_last_scheduled_at now t).
Proof.
  intros Hs. unfold await_tick. rewrite forgive_none by done. cbn [snd].
  destruct (waiter_idle_for _ _ _) as [idle|]; [|intros [= <- <-]; by left].
  case_test; [intros [= <- <-]; by left|].
  destruct (if idle <? _ then _ else _) as [[]|e|]; [| |done|done].
  - intros [= <- <-]. destruct ext; auto.
  - by destruct (unresponsive_for _ _) as [[q|]|e|].
Qed.

(** A tick that finds the patience used up gives up. *)
Lemma await_tick_gives_up timeout id ext now t idle :
  armed_ok t →
  waiter_idle_for id now (forgive_scheduling_stall now t).2 = Some idle →
  duration_saturating_mul timeout ALIVE_DEADLINE_FACTOR <= idle → timeout <= idle →
  ∃ e t', await_tick timeout id ext now t = (Ok (GiveUp e), t').
Proof.
  intros Ha Hi Hc Ht. unfold await_tick. rewrite Hi.
  replace (idle <? timeout) with false by lia.
  replace (idle <? duration_saturating_mul timeout ALIVE_DEADLINE_FACTOR) with false by lia.
  destruct (unresponsive_total now _ (forgive_armed now t Ha)) as [[q|] ->]; by eexists _, _.
Qed.

End liveness.

Section properties.
Context {Sem : Type} `{Semaphore Sem, MacPrimitives, AeadPrimitives, Lz4}.
Implicit Types t : Timed (Sem := Sem).

(** ** Properties *)

(** Time in which this process did not run is not held against the
    server: between two wake-ups no reading of a request's silence or of the
    wire's silence grows by more than the probe threshold and one tick, however
    long the process was suspended; no reading ever goes back; and forgiving
    twice forgives nothing more. *)
Theorem stall_forgiveness_bounds now t :
  instants_ok now t → 0 < probe_after t →
  let t' := (forgive_scheduling_stall now t).2 in
  let slack := probe_after t + keepalive_tick (probe_after t) in
  let before := last_scheduled_at t in
  (∀ id a, waiter_idle_for id before t = Some a →
     ∃ b, waiter_idle_for id now t' = Some b ∧ a <= b <= a + slack) ∧
  (∀ a, quiet_for before t = Some a → ∃ b, quiet_for now t' = Some b ∧ a <= b <= a + slack) ∧
  forgive_scheduling_stall now t' = (None, t').
Proof.
  intros Hok Ha t' slack before. assert (0 <= probe_after t) as Ha0 by lia.
  pose proof (io_scheduled _ _ Hok) as Hw. split; [|split].
  - intros id a. unfold waiter_idle_for, t'. rewrite forgive_waiter by done.
    destruct (waiters (tm_inner t) !! id) as [w|]; [|done]. cbn. intros [= <-].
    eexists. split; [reflexivity|]. apply (age_bounds now t); done.
  - intros a. unfold quiet_for, t'. rewrite forgive_oldest, forgive_last_frame by done.
    destruct (oldest_sent _) as [o|]; [|done]. cbn. intros [= <-]. eexists. split; [reflexivity|].
    destruct (last_frame_at (tm_inner t)) as [s|]; cbn; [|by apply age_bounds].
    rewrite Z.add_max_distr_r. by apply age_bounds.
  - unfold t'. destruct (forgive_settings now t) as (Hk & _ & Hs & _).
    rewrite (forgive_none now).
    + f_equal. unfold set_last_scheduled_at. destruct ((forgive_scheduling_stall now t).2). cbn in *.
      by subst.
    + unfold stall_of. rewrite Hk, Hs. fold (probe_after t).
      pose proof (keepalive_tick_range (probe_after t)). unfold since, sat_sub.
      replace (_ >=? _) with false by lia. done.
Qed.

(** The two readings of the liveness clock never contradict each
    other and leave no gap: a connection that is provably alive is not
    unresponsive, and one that has owed an answer since before it last spoke is
    unresponsive as soon as it is no longer provably alive. *)
Theorem liveness_readings_agree now t :
  armed_ok t →
  (liveness_is_proven now t = Ok true → unresponsive_for now t = Ok None) ∧
  (∀ after spoke oldest, keepalive_after t = Some after →
     last_frame_at (tm_inner t) = Some spoke →
     oldest_sent (waiters (tm_inner t)) = Some oldest → oldest <= spoke →
     liveness_is_proven now t = Ok false →
     unresponsive_for now t = Ok (Some (since now spoke))).
Proof.
  unfold armed_ok, armed, liveness_is_proven, unresponsive_for, server_silent_for, quiet_for.
  intros Ha. split.
  - destruct (keepalive_after t) as [after|]; [|done]. destruct Ha as [Ha0 Ha].
    destruct (last_frame_at (tm_inner t)) as [spoke|]; [|done]. cbn.
    rewrite duration_mul_ok by done. cbn. intros [= Hs].
    destruct (oldest_sent _) as [o|]; [|done]. cbn. unfold since in *.
    by replace (_ >=? _) with false by lia.
  - intros after spoke oldest Hk Hf Ho Hle. rewrite Hk in *. rewrite Hf, Ho.
    destruct Ha as [Ha0 Ha]. cbn.
    rewrite duration_mul_ok by done. cbn. intros [= Hs]. rewrite Z.max_l by done.
    by replace (_ >=? _) with true by lia.
Qed.

(** A request is given up on only after a full deadline of silence,
    and then only if the connection is not provably alive or six deadlines have
    passed.  If the whole wire has been silent the error says so and every
    other caller is told at once; otherwise it is a timeout of this one request
    and nothing else on the connection changes. *)
Theorem deadline_verdict timeout id ext now t e t' :
  await_tick timeout id ext now t = (Ok (GiveUp e), t') →
  let t1 := (forgive_scheduling_stall now t).2 in
  ∃ idle, waiter_idle_for id now t1 = Some idle ∧ timeout <= idle ∧
    (duration_saturating_mul timeout ALIVE_DEADLINE_FACTOR <= idle ∨
     liveness_is_proven now t1 = Ok false) ∧
    ((∃ q, unresponsive_for now t1 = Ok (Some q) ∧ e = ServerUnresponsive q ∧
        in_disconnected (tm_inner t') = true ∧ waiters (tm_inner t') = ∅) ∨
     (unresponsive_for now t1 = Ok None ∧ e = Timeout ∧
        in_disconnected (tm_inner t') = in_disconnected (tm_inner t1) ∧
        waiters (tm_inner t') = delete id (waiters (tm_inner t1)))).
Proof.
  intros E t1. unfold await_tick in E. fold t1 in E.
  destruct (waiter_idle_for id now t1) as [idle|] eqn:Ei; [|done].
  destruct (idle <? timeout) eqn:Et; [done|]. exists idle. split; [done|]. split; [lia|].
  destruct (if idle <? _ then _ else _) as [[]|e0|] eqn:El; [done| |done|done].
  split.
  { destruct (idle <? duration_saturating_mul _ _) eqn:Ec; [by right|]. left. lia. }
  destruct (unresponsive_for now t1) as [[q|]|e0|] eqn:Eu; [| |done|done]; injection E as <- <-.
  - left. exists q. done.
  - right. split; [done|]. split; [done|]. unfold waiter_idle_for in Ei. cbn. unfold remove_waiter.
    destruct (waiters (tm_inner t1) !! id) as [w|] eqn:Ew; [|done]. done.
Qed.

(** A request nobody has heard of since [a]: while its channel is empty its
    waiter is registered and has seen no activity after [a].  [prev] is a time
    this process is known to have run. *)
Record waiting_silently (g : WaiterGuard) (a : Z) (ka : option Z) (prev : Z) t : Prop := {
  ws_keepalive : keepalive_after t = ka;
  ws_scheduled : prev <= last_scheduled_at t;
  ws_channel : is_Some (channels (tm_inner t) !! g_rx g);
  ws_waiter : channels (tm_inner t) !! g_rx g = Some ChEmpty →
    ∃ w, waiters (tm_inner t) !! g_msg_id g = Some w ∧ w_last_activity w <= a
}.

(** Ticks that come soon enough after one another not to be a stall. *)
Fixpoint timely (after prev : Z) (trace : list ((Timed (Sem := Sem) → Timed (Sem := Sem)) * Z)) : Prop :=
  match trace with
  | [] => True
  | (_, now) :: trace =>
      prev <= now < prev + after + keepalive_tick after ∧ timely after now trace
  end.

Lemma timely_no_stall now prev t :
  0 < probe_after t → prev <= last_scheduled_at t → prev <= now →
  now < prev + probe_after t + keepalive_tick (probe_after t) → stall_of now t = None.
Proof.
  intros Ha Hp Hn Hg. unfold stall_of. fold (probe_after t).
  pose proof (keepalive_tick_range (probe_after t)). unfold since, sat_sub.
  by replace (_ >=? _) with false by lia.
Qed.


(** A long poll never times out on its own silence.  It fails only
    when the whole wire has been silent for the budget while probes were armed,
    and then the connection is declared dead; it is retired only once the server
    has held it for the refresh interval and no answer has arrived, its waiter
    is gone and remembered as abandoned, and what the caller must cancel is its
    id and the async id the server gave it. *)
Theorem long_poll_verdict budget refresh g now t r t' :
  long_poll_tick budget refresh g now t = (Some r, t') → armed_ok t →
  let t1 := (forgive_scheduling_stall now t).2 in
  let answer := channels (tm_inner t) !! g_rx g ≫= recv_result in
  match r with
  | Ok (RefreshDue id aid) =>
      id = g_msg_id g ∧ answer = None ∧
      ∃ every age w, refresh = Some every ∧ waiter_sent_age id now t1 = Some age ∧ every <= age ∧
        waiters (tm_inner t1) !! id = Some w ∧ aid = w_async_id w ∧
        waiters (tm_inner t') = delete id (waiters (tm_inner t1)) ∧
        last (abandoned (tm_inner t')) = Some id ∧
        in_disconnected (tm_inner t') = in_disconnected (tm_inner t)
  | Ok (Answered f) => answer = Some (Ok f)
  | Err e => answer = Some (Err e) ∨
      ∃ b q, budget = Some b ∧ unresponsive_for now t1 = Ok (Some q) ∧ b <= q ∧
        e = ServerUnresponsive q ∧ in_disconnected (tm_inner t') = true ∧ waiters (tm_inner t') = ∅
  | Panic => answer = Some Panic
  end.
Proof.
  intros E Ha t1 answer. unfold long_poll_tick in E. fold t1 in E.
  pose proof (forgive_settings now t) as (_ & _ & _ & Hch & Hd). fold t1 in Hch, Hd.
  destruct (waiter_idle_for (g_msg_id g) now t1) as [idle|] eqn:Ei; [|done].
  destruct (unresponsive_total now t1 (forgive_armed now t Ha)) as [v Hv].
  assert (∃ v', match budget with None => Ok None | Some _ => unresponsive_for now t1 end = Ok v' ∧
    (q ← v'; b ← budget; if q >=? b then Some q else None) =
    (q ← v; b ← budget; if q >=? b then Some q else None)) as (v' & Ev & Eq).
  { destruct budget as [b|]; [by exists v|]. exists None. split; [done|]. by destruct v. }
  rewrite Ev, Eq in E. clear Ev Eq v'.
  destruct (q ← v; b ← budget; _) as [q|] eqn:Eq.
  { cbn [declare_unresponsive] in E. injection E as <- <-. right.
    destruct v as [q0|]; [|done]. cbn in Eq. destruct budget as [b|]; [|done]. cbn in Eq.
    destruct (q0 >=? b) eqn:Eb; [|done]. injection Eq as <-. exists b, q0.
    split; [done|]. split; [done|]. split; [lia|]. split; [done|]. done. }
  destruct (r ← refresh; _) as [age|] eqn:Er; [|done].
  destruct refresh as [every|]; [|done]. cbn in Er.
  destruct (waiter_sent_age (g_msg_id g) now t1) as [age'|] eqn:Eage; [|done]. cbn in Er.
  destruct (age' >=? every) eqn:Ege; [|done]. injection Er as ->.
  rewrite Hch in E. fold answer in E.
  destruct answer as [[f|e|]|] eqn:Ean; injection E as <- <-; [done|by left|done|].
  split; [done|]. split; [done|]. unfold waiter_idle_for in Ei.
  destruct (waiters (tm_inner t1) !! g_msg_id g) as [w|] eqn:Ew; [|done].
  exists every, age, w. unfold async_id_for. rewrite Ew. cbn. unfold guard_drop. rewrite Ew.
  split_and!; try done; [lia|]. cbn. by rewrite last_snoc.
Qed.
End properties.

(** A threshold near the largest [Duration] makes the readings panic: the window
    is computed with a multiplication that overflows. *)
Example keepalive_window_overflows :
  let t := mkTimed (set_last_frame_at (Some 0) (Inner_new (Sem := Z * bool))) (Some RESPONSE_TIMEOUT)
             (Some DURATION_MAX) None 0 in
  liveness_is_proven 1 t = Panic.
Proof. done. Qed.

(** ** Witnesses: one READ on the wire since time 0, nothing heard *)

Definition toy_waiter (c : Command) : Waiter := mkWaiter 0 c 0 (Some 0) 0 (Some 77).

Definition toy_timed (c : Command) : Timed (Sem := Z * bool) :=
  mkTimed (set_waiters (λ _, {[5 := toy_waiter c]}) (set_channels (λ _, {[0%nat := ChEmpty]}) Inner_new))
    (Some secs) (Some (5 * secs)) (Some (600 * secs)) 0.

Definition toy_guard : WaiterGuard := mkWaiterGuard 5 0.

Lemma toy_instants_ok now : 0 <= now → 2 * now <= INSTANT_MAX → instants_ok now (toy_timed Read).
Proof.
  intros H0 H2. split; cbn; [lia|done|done| |].
  - intros id w [<- <-]%lookup_singleton_Some. done.
  - intros id w x [<- <-]%lookup_singleton_Some [= <-]. done.
Qed.

(** Suspended for a hundred seconds: the request has aged by six at most. *)
Lemma stall_forgiveness_bounds_witness :
  ∃ b, waiter_idle_for 5 (100 * secs) (forgive_scheduling_stall (100 * secs) (toy_timed Read)).2 = Some b
       ∧ 0 <= b <= 0 + (5 * secs + keepalive_tick (5 * secs)).
Proof.
  destruct (stall_forgiveness_bounds (100 * secs) (toy_timed Read)) as (H1 & _ & _).
  - by apply toy_instants_ok.
  - done.
  - apply (H1 5 0). done.
Defined.

Lemma liveness_readings_agree_witness :
  unresponsive_for 1 (on_inner (set_last_frame_at (Some 0)) (toy_timed Read)) = Ok None.
Proof.
  apply (liveness_readings_agree 1 (on_inner (set_last_frame_at (Some 0)) (toy_timed Read))); done.
Defined.

(** Two seconds after the only request went out, with a one-second deadline. *)
Lemma deadline_verdict_witness :
  ∃ e t', await_tick secs 5 false (2 * secs) (toy_timed Read) = (Ok (GiveUp e), t') ∧
  ∃ idle, waiter_idle_for 5 (2 * secs) (forgive_scheduling_stall (2 * secs) (toy_timed Read)).2
            = Some idle ∧ secs <= idle.
Proof.
  destruct (await_tick secs 5 false (2 * secs) (toy_timed Read)) as [[[x|e]|e|] t'] eqn:E;
    [by vm_compute in E| |by vm_compute in E|by vm_compute in E].
  exists e, t'. split; [done|].
  destruct (deadline_verdict secs 5 false (2 * secs) (toy_timed Read) e t' E) as (idle & H1 & H2 & _).
  by exists idle.
Defined.

Definition toy_trace : list ((Timed (Sem := Z * bool) → Timed (Sem := Z * bool)) * Z) :=
  [(id, 3 * secs); (id, 6 * secs)].


(** A watch held for longer than its refresh interval, on a wire that is silent
    but with no death bound configured. *)
Lemma long_poll_verdict_witness :
  ∃ t', long_poll_tick None (Some secs) toy_guard (2 * secs) (toy_timed ChangeNotify)
          = (Some (Ok (RefreshDue 5 (Some 77))), t') ∧ waiters (tm_inner t') = delete 5 {[5 := toy_waiter ChangeNotify]}.
Proof.
  destruct (long_poll_tick None (Some secs) toy_guard (2 * secs) (toy_timed ChangeNotify))
    as [o t'] eqn:E.
  assert (o = Some (Ok (RefreshDue 5 (Some 77)))) as ->.
  { assert ((long_poll_tick None (Some secs) toy_guard (2 * secs) (toy_timed ChangeNotify)).1
            = Some (Ok (RefreshDue 5 (Some 77)))) as H by (vm_compute; reflexivity).
    by rewrite E in H. }
  exists t'. split; [done|].
  destruct (long_poll_verdict None (Some secs) toy_guard (2 * secs) (toy_timed ChangeNotify) _ t' E)
    as (_ & _ & every & age & w & _ & _ & _ & _ & _ & Hw & _).
  - by vm_compute.
  - rewrite Hw. by vm_compute.
Defined.
