(* ===== verification/Revival.v ===== *)
(** * Reviving a dead connection

    Models [reconnect_if_needed], [recent_revive_failure], [revive],
    [revive_attempts], [revive_once] and [give_up] (here [record_failure]) of
    [src/client/connection.rs].  The reviver is the consumer's: what its [dial]
    and [reauthenticate] do and how long they take is a script, one entry per
    attempt, together with the state a [reauthenticate] that is cut off leaves
    behind.  Time is a number of nanoseconds; the single timeout around the
    attempt loop cuts the loop off at the first wait that would end after the
    budget. *)

From S2P Require Import Prelude Types Header Signing Transform Credits Oplock Connection Liveness.

Record ReconnectPolicy := mkReconnectPolicy {
  max_attempts : Z;
  initial_backoff : Z;
  max_backoff : Z;
  total_budget : Z;
  failure_cooldown : Z
}.

Definition ReconnectPolicy_default : ReconnectPolicy :=
  mkReconnectPolicy 4 (500 * ms) (8 * secs) (60 * secs) (10 * secs).

Inductive ReconnectEvent :=
| EvStarted (attempt max : Z)
| EvSucceeded (attempts took : Z)
| EvFailed (attempts took : Z) (reason : string).

Section revival.
Context {Sem : Type} `{Semaphore Sem}.
(** [Display] of an error, outside this model. *)
Context (to_string : Error → string).

Record Attempt := mkAttempt {
  dial_time : Z;
  dial : result Error unit;
  auth_time : Z;
  reauthenticate : Inner (Sem := Sem) → result Error unit * Inner (Sem := Sem);
  (** the connection when [reauthenticate] is cut off by the budget *)
  auth_cut_off : Inner (Sem := Sem) → Inner (Sem := Sem)
}.

Record Reviving := mkReviving {
  rv_inner : Inner (Sem := Sem);
  has_reviver : bool;
  reconnect_policy : ReconnectPolicy;
  revivals : Z;
  last_revive_failure : option (Z * Error);
  announced : list ReconnectEvent
}.
Implicit Types s : Reviving.

Definition on_conn (f : Inner (Sem := Sem) → Inner (Sem := Sem)) s : Reviving :=
  mkReviving (f (rv_inner s)) (has_reviver s) (reconnect_policy s) (revivals s)
    (last_revive_failure s) (announced s).
Definition announce (e : ReconnectEvent) s : Reviving :=
  mkReviving (rv_inner s) (has_reviver s) (reconnect_policy s) (revivals s)
    (last_revive_failure s) (announced s ++ [e]).

(** How the attempt loop ends, and the time it took. *)
Inductive loop_end :=
| Revived (attempts took : Z)
| Exhausted (attempts : Z) (last : Error) (took : Z)
| OutOfBudget
| LoopPanic.

(** One attempt; [inl] is the time after it and its result. *)
Definition revive_once (a : Attempt) (budget elapsed : Z) s :
    (Z * result Error unit) * Reviving + Reviving :=
  if elapsed + dial_time a >? budget then inr s
  else
    let elapsed := elapsed + dial_time a in
    match dial a with
    | Err e => inl ((elapsed, Err e), s)
    | Panic => inl ((elapsed, Panic), s)
    | Ok _ =>
        let s := on_conn install_transport s in
        if elapsed + auth_time a >? budget then inr (on_conn (auth_cut_off a) s)
        else
          let '(r, i) := reauthenticate a (rv_inner s) in
          inl ((elapsed + auth_time a, r), on_conn (λ _, i) s)
    end.

(** [for attempt in 1..=max_attempts]; [n] attempts are left, and a script that
    is too short stands for dials that never come back. *)
Fixpoint revive_attempts (n : nat) (script : list Attempt) (attempt backoff elapsed : Z)
    (last : Error) s : loop_end * Reviving :=
  match n with
  | O => (Exhausted (max_attempts (reconnect_policy s)) last elapsed, s)
  | S n =>
      let budget := total_budget (reconnect_policy s) in
      let slept := if attempt >? 1 then elapsed + backoff else elapsed in
      if slept >? budget then (OutOfBudget, s)
      else
        match (if attempt >? 1
               then d ← duration_mul backoff 2; Ok (Z.min d (max_backoff (reconnect_policy s)))
               else Ok backoff) with
        | Panic | Err _ => (LoopPanic, s)
        | Ok backoff =>
            let s := on_conn (bump reconnect_attempts 1) s in
            let s := announce (EvStarted attempt (max_attempts (reconnect_policy s))) s in
            match script with
            | [] => (OutOfBudget, s)
            | a :: script =>
                match revive_once a budget slept s with
                | inr s => (OutOfBudget, s)
                | inl ((elapsed, Ok _), s) => (Revived attempt elapsed, s)
                | inl ((elapsed, Panic), s) => (LoopPanic, s)
                | inl ((elapsed, Err e), s) =>
                    revive_attempts n script (attempt + 1) backoff elapsed e (on_conn mark_dead s)
                end
            end
        end
  end.

Definition record_failure (attempts now took : Z) (cause : Error) s : Error * Reviving :=
  let reason := to_string cause in
  let err := ReconnectFailed attempts took (kind cause) reason in
  let s := on_conn (bump reconnects_failed 1) s in
  let s := mkReviving (rv_inner s) (has_reviver s) (reconnect_policy s) (revivals s)
             (Some (now, err)) (announced s) in
  (err, announce (EvFailed attempts took reason) s).

(** [started] is the time of the call; the time it returns comes with the
    result. *)
Definition revive (script : list Attempt) (started : Z) s : (result Error unit * Z) * Reviving :=
  let policy := reconnect_policy s in
  if negb (has_reviver s) then ((Err Disconnected, started), s)
  else if max_attempts policy =? 0 then ((Err Disconnected, started), s)
  else
    match revive_attempts (Z.to_nat (max_attempts policy)) script 1 (initial_backoff policy) 0
            Disconnected s with
    | (LoopPanic, s) => ((Panic, started), s)
    | (Revived attempts took, s) =>
        let s := mkReviving (bump reconnects_succeeded 1 (rv_inner s)) (has_reviver s)
                   (reconnect_policy s) (trunc 64 (revivals s + 1)) None (announced s) in
        ((Ok tt, started + took), announce (EvSucceeded attempts took) s)
    | (Exhausted attempts cause took, s) =>
        let '(e, s) := record_failure attempts (started + took) took cause s in
        ((Err e, started + took), s)
    | (OutOfBudget, s) =>
        let took := total_budget policy in
        let attempts := metrics (rv_inner s) reconnect_attempts in
        let s := on_conn mark_dead s in
        let '(e, s) := record_failure (Z.min (if attempts <? 2 ^ 32 then attempts else u_max 32)
                                  (max_attempts policy)) (started + took) took Timeout s in
        ((Err e, started + took), s)
    end.

(** The verdict of a failed revival, while it stands. *)
Definition recent_revive_failure (now : Z) s : option Error :=
  match last_revive_failure s with
  | None => None
  | Some (at_, err) =>
      if since now at_ <? failure_cooldown (reconnect_policy s)
      then Some (match err with ReconnectFailed _ _ _ _ => err | _ => Disconnected end)
      else None
  end.

(** [queued] is what other callers do while this one waits for the lock. *)
Definition reconnect_if_needed (queued : Reviving → Reviving) (script : list Attempt) (now : Z) s :
    (result Error unit * Z) * Reviving :=
  if negb (in_disconnected (rv_inner s)) then ((Ok tt, now), s)
  else
    let seen := revivals s in
    let s := queued s in
    if negb (revivals s =? seen) then ((Ok tt, now), s)
    else if negb (in_disconnected (rv_inner s)) then ((Ok tt, now), s)
    else
      match recent_revive_failure now s with
      | Some verdict => ((Err verdict, now), s)
      | None => revive script now s
      end.

(** ** Lemmas *)

(** Every caller told and every new one refused. *)
Definition dead (i : Inner (Sem := Sem)) : Prop :=
  in_disconnected i = true ∧ waiters i = ∅ ∧ is_closed (in_credits i) = true.

Context `{!SemaphoreLaws Sem}.

Lemma mark_dead_dead i : dead (mark_dead i).
Proof. split; [done|]. split; [done|]. apply close_spec. Qed.

Lemma dead_bump k n i : dead i → dead (bump k n i).
Proof. done. Qed.

Definition times_ok (a : Attempt) : Prop := 0 <= dial_time a ∧ 0 <= auth_time a.

(** What no attempt touches. *)
Definition same_config s s' : Prop :=
  reconnect_policy s' = reconnect_policy s ∧ has_reviver s' = has_reviver s ∧
  revivals s' = revivals s.

Lemma revive_once_spec a budget elapsed s :
  times_ok a → elapsed <= budget →
  match revive_once a budget elapsed s with
  | inl ((elapsed', _), s') => elapsed <= elapsed' <= budget ∧ same_config s s'
  | inr s' => same_config s s'
  end.
Proof.
  intros [Hd Ha] He. unfold revive_once. case_test; bool_prop; [done|].
  destruct (dial a); [|split; [lia|done]|split; [lia|done]].
  case_test; bool_prop; [done|]. destruct (reauthenticate a _). cbn. split; [lia|done].
Qed.

Lemma next_backoff_nonneg (b : bool) backoff cap d :
  (if b then x ← duration_mul backoff 2; Ok (Z.min x cap) else Ok backoff) = Ok d →
  0 <= backoff → 0 <= cap → 0 <= d.
Proof. unfold duration_mul. destruct b; [|by intros [= <-]]. case_test; [|done]. intros [= <-]. lia. Qed.

(** The attempt loop stays within its budget and its number of attempts, and
    leaves a dead connection behind when it has tried in vain. *)
Lemma revive_attempts_spec n script attempt backoff elapsed last s :
  Forall times_ok script → 0 <= elapsed <= total_budget (reconnect_policy s) → 1 <= attempt →
  0 <= backoff → 0 <= max_backoff (reconnect_policy s) →
  let '(o, s') := revive_attempts n script attempt backoff elapsed last s in
  same_config s s' ∧
  match o with
  | Revived attempts took =>
      attempt <= attempts < attempt + Z.of_nat n ∧ 0 <= took <= total_budget (reconnect_policy s)
  | Exhausted attempts _ took =>
      attempts = max_attempts (reconnect_policy s) ∧ 0 <= took <= total_budget (reconnect_policy s) ∧
      (n = 0%nat ∨ dead (rv_inner s'))
  | OutOfBudget | LoopPanic => True
  end.
Proof.
  intros Hs. revert n attempt backoff elapsed last s.
  induction Hs as [|a script Ha Hs IH]; intros [|n] attempt backoff elapsed last s He Hat Hb Hmb;
    cbn [revive_attempts]; try (split_and!; try done; by left || lia).
  - destruct (_ >? total_budget _); [by cbn|].
    by destruct (if attempt >? 1 then _ ≫= _ else _) as [b|e|].
  - destruct (_ >? total_budget _) eqn:Eb; bool_prop; [by cbn|].
    destruct (if attempt >? 1 then _ ≫= _ else _) as [b|e|] eqn:Ebo; [|by cbn|by cbn].
    apply next_backoff_nonneg in Ebo; [|done|done]. cbv zeta. cbn [reconnect_policy announce on_conn].
    match goal with |- context [revive_once a ?bd ?el ?st] =>
      assert (elapsed <= el) as Hel by (case_match; lia);
      pose proof (revive_once_spec a bd el st Ha ltac:(lia)) as Ho;
      destruct (revive_once a bd el st) as [[[el' [u|e|]] s1]|s1] eqn:Eo
    end; unfold same_config in *; cbn [reconnect_policy has_reviver revivals announce on_conn] in Ho.
    + destruct Ho as (He' & Hp & Hr & Hv). split_and!; try done; try lia.
    + destruct Ho as (He' & Hp & Hr & Hv).
      specialize (IH n (attempt + 1) b el' e (on_conn mark_dead s1)).
      cbn [on_conn reconnect_policy has_reviver revivals rv_inner] in IH. rewrite Hp, Hr, Hv in IH.
      specialize (IH ltac:(lia) ltac:(lia) Ebo Hmb).
      destruct (revive_attempts n _ _ _ _ _ _) as [o s'] eqn:El.
      destruct IH as [Hsame Ho']. split; [done|].
      destruct o as [at' tk|at' la tk| |]; try done; [lia|].
      destruct Ho' as (Hat' & Htk & Hd). split; [done|]. split; [done|]. right.
      destruct Hd as [->|Hd]; [|done]. cbn in El. injection El as _ _ _ <-. apply mark_dead_dead.
    + by destruct Ho.
    + by split.
Qed.

Definition policy_ok (p : ReconnectPolicy) : Prop :=
  is_u32 (max_attempts p) ∧ 0 <= initial_backoff p ∧ 0 <= max_backoff p ∧ 0 <= total_budget p.

(** What a revival that gives up leaves behind. *)
Lemma revive_failed script started s e finish s' :
  Forall times_ok script → policy_ok (reconnect_policy s) →
  has_reviver s = true → max_attempts (reconnect_policy s) ≠ 0 →
  revive script started s = ((Err e, finish), s') →
  dead (rv_inner s') ∧ reconnect_policy s' = reconnect_policy s ∧
  last_revive_failure s' = Some (finish, e) ∧ revivals s' = revivals s ∧
  (∃ attempts took cause reason, e = ReconnectFailed attempts took cause reason ∧
     attempts <= max_attempts (reconnect_policy s) ∧ 0 <= took <= total_budget (reconnect_policy s) ∧
     finish = started + took).
Proof.
  intros Hs (Hm & Hb & Hmb & Htb) Hr Hne. unfold in_range in Hm. unfold revive. rewrite Hr. cbn [negb].
  replace (max_attempts (reconnect_policy s) =? 0) with false by lia.
  pose proof (revive_attempts_spec (Z.to_nat (max_attempts (reconnect_policy s))) script 1
    (initial_backoff (reconnect_policy s)) 0 Disconnected s Hs ltac:(lia) ltac:(lia) Hb Hmb) as Hl.
  destruct (revive_attempts _ _ _ _ _ _ _) as [o s1]. destruct Hl as [(Hp & Hh & Hv) Ho].
  destruct o as [at' tk|at' la tk| |]; [done| | |done]; cbn [record_failure]; intros [= <- <- <-].
  - destruct Ho as (-> & Htk & Hd). destruct Hd as [?|Hd]; [lia|].
    split; [by apply dead_bump|]. split; [done|]. split; [done|]. split; [done|].
    eexists _, _, _, _. split; [done|]. lia.
  - split; [apply dead_bump, mark_dead_dead|]. split; [done|]. split; [done|]. split; [done|].
    eexists _, _, _, _. split; [done|]. lia.
Qed.

(** ** Properties *)

(** C34: a revival ends within its budget, whatever the dials and the
    authentication do, and with at most the allowed number of attempts.  A
    success counts one generation and clears the last verdict; a failure leaves
    the connection unambiguously dead: disconnected, with no waiter and a closed
    credit pool, and records the verdict with the time. *)
Theorem revive_bounded script started s r finish s' :
  Forall times_ok script → policy_ok (reconnect_policy s) →
  has_reviver s = true → max_attempts (reconnect_policy s) ≠ 0 →
  revive script started s = ((r, finish), s') → r ≠ Panic →
  started <= finish <= started + total_budget (reconnect_policy s) ∧
  match r with
  | Ok _ => revivals s' = trunc 64 (revivals s + 1) ∧ last_revive_failure s' = None ∧
      ∃ n took, last (announced s') = Some (EvSucceeded n took) ∧
                1 <= n <= max_attempts (reconnect_policy s)
  | Err e => dead (rv_inner s') ∧ revivals s' = revivals s ∧
      last_revive_failure s' = Some (finish, e) ∧
      ∃ n took cause reason, e = ReconnectFailed n took cause reason ∧
        n <= max_attempts (reconnect_policy s)
  | Panic => True
  end.
Proof.
  intros Hs Hp Hr Hne E Hnp. destruct r as [[]|e|]; [| |done].
  - destruct Hp as (Hm & Hb & Hmb & Htb). unfold in_range in Hm. unfold revive in E.
    rewrite Hr in E. cbn [negb] in E.
    replace (max_attempts (reconnect_policy s) =? 0) with false in E by lia.
    pose proof (revive_attempts_spec (Z.to_nat (max_attempts (reconnect_policy s))) script 1
      (initial_backoff (reconnect_policy s)) 0 Disconnected s Hs ltac:(lia) ltac:(lia) Hb Hmb) as Hl.
    destruct (revive_attempts _ _ _ _ _ _ _) as [o s1]. destruct Hl as [(Hp & Hh & Hv) Ho].
    destruct o as [at' tk|at' la tk| |]; [|done|done|done]. injection E as <- <-.
    split; [lia|]. cbn. rewrite Hv. split; [done|]. split; [done|].
    exists at', tk. rewrite last_snoc. split; [done|lia].
  - destruct (revive_failed _ _ _ _ _ _ Hs Hp Hr Hne E) as (Hd & _ & Hl & Hv & n & tk & c & re & He & Hn & Htk & Hf).
    split; [lia|]. split; [done|]. split; [done|]. split; [done|]. by exists n, tk, c, re.
Qed.

(** Callers that find the connection dead together do not dial
    together.  One that finds the connection alive, or revived while it queued,
    dials nothing; and after a revival has failed, everyone who asks before the
    cooldown is over gets that same verdict at once and the connection is not
    touched. *)
Theorem reconnect_no_stampede queued script script' started now s e finish s' :
  Forall times_ok script → policy_ok (reconnect_policy s) →
  has_reviver s = true → max_attempts (reconnect_policy s) ≠ 0 →
  revive script started s = ((Err e, finish), s') →
  finish <= now < finish + failure_cooldown (reconnect_policy s) →
  reconnect_if_needed (λ s, s) script' now s' = ((Err e, now), s') ∧
  (revivals (queued s') ≠ revivals s' ∨ in_disconnected (rv_inner (queued s')) = false →
   reconnect_if_needed queued script' now s' = ((Ok tt, now), queued s')).
Proof.
  intros Hs Hp Hr Hne E Hnow.
  destruct (revive_failed _ _ _ _ _ _ Hs Hp Hr Hne E) as ((Hd & _) & Hpol & Hl & _ & n & tk & c & re & -> & _).
  unfold reconnect_if_needed. rewrite Hd. cbn [negb]. split.
  - rewrite Z.eqb_refl. cbn [negb]. unfold recent_revive_failure. rewrite Hl, Hpol.
    unfold since. by replace (_ <? _) with true by lia.
  - intros [Hg|Hc].
    + by replace (revivals (queued s') =? revivals s') with false by lia.
    + rewrite Hc. by destruct (revivals _ =? _).
Qed.

(** A second attempt forgets which session is being revived: the id announced
    to the server as the previous one is captured from a state the first attempt
    has already wiped. *)
Theorem second_attempt_forgets_session i :
  previous_session_id (install_transport i) = cs_session_id (crypto i) ∧
  previous_session_id (install_transport (mark_dead (install_transport i))) = 0.
Proof. done. Qed.
End revival.

(** ** Witnesses: a server that refuses every dial *)

Definition refused : Attempt (Sem := Z * bool) :=
  mkAttempt secs (Err Disconnected) 0 (λ i, (Ok tt, i)) (λ i, i).
Definition wedged : Attempt (Sem := Z * bool) :=
  mkAttempt (1000 * secs) (Ok tt) 0 (λ i, (Ok tt, i)) (λ i, i).
(** Negotiation fails on the first new socket and succeeds on the second. *)
Definition flaky : list (Attempt (Sem := Z * bool)) :=
  [mkAttempt secs (Ok tt) secs (λ i, (Err Timeout, i)) (λ i, i);
   mkAttempt secs (Ok tt) secs (λ i, (Ok tt, i)) (λ i, i)].

Definition with_session (sid : Z) : Inner (Sem := Z * bool) :=
  mark_dead (set_crypto (mkCryptoState None None false None None None false None sid) Inner_new).

Definition toy_reviving (attempts_before sid : Z) : Reviving (Sem := Z * bool) :=
  mkReviving (bump reconnect_attempts attempts_before (with_session sid)) true
    ReconnectPolicy_default 0 None [].

Definition no_text (_ : Error) : string := "text".

Lemma toy_policy_ok : policy_ok ReconnectPolicy_default.
Proof. by vm_compute. Qed.

Lemma refused_times : Forall times_ok (replicate 4 refused).
Proof. by repeat constructor. Qed.

Definition toy_failure : Error := ReconnectFailed 4 (7500 * ms) KConnectionLost "text".

Lemma revive_refused : ∃ s', revive no_text (replicate 4 refused) 100 (toy_reviving 0 9)
  = ((Err toy_failure, 100 + 7500 * ms), s').
Proof.
  set (x := revive _ _ _ _). exists x.2.
  assert (x.1 = (Err toy_failure, 100 + 7500 * ms)) as <- by by vm_compute.
  apply surjective_pairing.
Qed.

Lemma revive_bounded_witness :
  ∃ s', revive no_text (replicate 4 refused) 100 (toy_reviving 0 9)
          = ((Err toy_failure, 100 + 7500 * ms), s') ∧ dead (rv_inner s').
Proof.
  destruct revive_refused as [s' E]. exists s'. split; [exact E|].
  refine (proj1 (proj2 (revive_bounded no_text (replicate 4 refused) 100 (toy_reviving 0 9) _ _ s'
            refused_times toy_policy_ok eq_refl _ E _))); done.
Defined.

Lemma reconnect_no_stampede_witness :
  ∃ s', reconnect_if_needed no_text (λ s, s) [] (100 + 8000 * ms) s'
          = ((Err toy_failure, 100 + 8000 * ms), s').
Proof.
  destruct revive_refused as [s' E]. exists s'.
  refine (proj1 (reconnect_no_stampede no_text (λ s, s) (replicate 4 refused) [] 100 (100 + 8000 * ms)
            (toy_reviving 0 9) toy_failure _ s' refused_times toy_policy_ok eq_refl _ E _)); done.
Defined.

(** The session that died was number 9; after a first attempt that failed past
    the dial, the revived connection announces none. *)
Example flaky_revival_forgets_session :
  let '((r, _), s) := revive no_text flaky 100 (toy_reviving 0 9) in
  r = Ok tt ∧ previous_session_id (rv_inner s) = 0.
Proof. by vm_compute. Qed.

(** A revival cut off during its first attempt reports the attempts of every
    revival so far. *)
Example timeout_reports_lifetime_attempts :
  (revive no_text [wedged] 100 (toy_reviving 3 9)).1.1
  = Err (ReconnectFailed 4 (60 * secs) KTimedOut "text").
Proof. by vm_compute. Qed.
