(* ===== verification/Request.v ===== *)
(** * Sending requests: single, compound and CANCEL

    Models [execute_with_credits_inner], [execute_compound_inner] up to the
    point where responses are awaited, [send_cancel], [activate_signing] and
    [activate_encryption] of [src/client/connection.rs].  The transport is a
    parameter [sent]: what [send_and_count] reports for the bytes it is given.
    A request that would have to wait for credits is [Parked]; the bounded
    wait itself is in [Probing]. *)

From S2P Require Import Prelude Types Pack Codec Header Signing Transform Compound Credits Oplock Connection.

Inductive send_outcome (A : Type) :=
| Sent (a : A)
| Failed (e : Error)
| Parked
| Crashed.
Arguments Sent {A} a.
Arguments Failed {A} e.
Arguments Parked {A}.
Arguments Crashed {A}.

(** ** Header of a request *)

Definition with_flags (h : Header) (f : Z) : Header :=
  mkHeader (credit_charge h) (status h) (command h) (credits h) f (next_command h)
    (message_id h) (tree_id h) (async_id h) (session_id h) (signature h).

Section request.
Context {Sem : Type} `{Semaphore Sem, MacPrimitives, AeadPrimitives, Lz4}.
Implicit Types i : Inner (Sem := Sem).

(** The flag word, in the order the code sets the bits. *)
Definition request_flags (related : bool) (tree : option Z) i : Z :=
  let f := if related then HeaderFlags.set_related 0 else 0 in
  let f := if cs_should_sign (crypto i) && negb (cs_should_encrypt (crypto i))
           then HeaderFlags.set_signed f else f in
  if should_set_dfs_flag tree i then Flags.bitor f HeaderFlags.DFS_OPERATIONS else f.

Definition request_header (c : Command) (msg_id charge : Z) (related : bool)
    (tree header_tree : option Z) i : Header :=
  let h := Header_new_request c in
  mkHeader charge (status h) c (request_for charge (in_credits i)) (request_flags related tree i)
    (next_command h) msg_id header_tree (async_id h) (cs_session_id (crypto i)) (signature h).

(** Encrypt, or sign, or leave alone. *)
Definition sign_if_keyed (msg : bytes) (msg_id : Z) (is_cancel : bool) (c : CryptoState) :
    result Error bytes :=
  match cs_signing_key c, cs_signing_algorithm c with
  | Some key, Some algo => sign_message msg key algo msg_id is_cancel
  | _, _ => Ok msg
  end.

(** ** Credits and the waiter *)

Inductive reserve_outcome := Reserved | Refused (e : Error) | MustWait.

Definition reserve_now (charge : Z) i : reserve_outcome * Inner (Sem := Sem) :=
  let '(ok, p) := try_reserve charge (in_credits i) in
  if ok then (Reserved, set_credits (λ _, p) i)
  else if is_closed (in_credits i) || in_disconnected i then (Refused Disconnected, i)
  else if bool_decide (waiters i = ∅)
  then (Refused (CreditStarvation charge (available (in_credits i)) 0), i)
  else (MustWait, bump credit_waits 1 i).

(** An early return: the guard, if there is one, and then the reservation are
    dropped. *)
Definition unwind (charge : Z) (g : option WaiterGuard) i : Inner (Sem := Sem) :=
  let i := match g with Some g => guard_drop g i | None => i end in
  set_credits (drop_reservation (CreditReservation_new charge)) i.

(** [Inner::send_and_count]: the writer task reports whether the frame went out. *)
Definition send_and_count (sent : bytes → result Error unit) (wire : bytes) i :
    result Error unit * Inner (Sem := Sem) :=
  match sent wire with
  | Ok _ => (Ok tt, bump wire_bytes_sent (len wire) i)
  | r => (r, i)
  end.

(** ** A single request *)

(** [compression]: what [compression_enabled()] returns. *)
Definition seal (compression : bool) (msg : bytes) (msg_id : Z) i :
    result Error bytes * Inner (Sem := Sem) :=
  if cs_should_encrypt (crypto i) then
    let '(r, c) := encrypt_bytes msg (crypto i) in (r, set_crypto c i)
  else
    match (if cs_should_sign (crypto i) then sign_if_keyed msg msg_id false (crypto i) else Ok msg) with
    | Ok msg =>
        if compression && (len msg >? Header_SIZE) then
          match compress_message msg Header_SIZE with
          | Some cm => (build_compressed_frame cm, i)
          | None => (Ok msg, i)
          end
        else (Ok msg, i)
    | r => (r, i)
    end.

(** Once the credits are reserved. *)
Definition execute_reserved (c : Command) (body : Writer unit) (tree : option Z) (charge : Z)
    (compression : bool) (now : Z) (ch : nat) (sent : bytes → result Error unit) i :
    send_outcome (WaiterGuard * bytes) * Inner (Sem := Sem) :=
  let '(msg_id, i) := allocate_msg_id charge i in
  let h := request_header c msg_id charge false tree (Some (default 0 tree)) i in
  match pack_message h body with
  | Err e => (Failed e, unwind charge None i)
  | Panic => (Crashed, i)
  | Ok msg =>
      match register_waiter msg_id c now ch i with
      | (Err e, i) => (Failed e, unwind charge None i)
      | (Panic, i) => (Crashed, i)
      | (Ok g, i) =>
          match seal compression msg msg_id i with
          | (Err e, i) => (Failed e, unwind charge (Some g) i)
          | (Panic, i) => (Crashed, i)
          | (Ok wire, i) =>
              match send_and_count sent wire i with
              | (Err e, i) => (Failed e, unwind charge (Some g) (remove_waiter msg_id i))
              | (Panic, i) => (Crashed, i)
              | (Ok _, i) => (Sent (g, wire), mark_sent [msg_id] now i)
              end
          end
      end
  end.

Definition execute_send (c : Command) (body : Writer unit) (tree : option Z) (credit_charge : Z)
    (compression : bool) (now : Z) (ch : nat) (sent : bytes → result Error unit) i :
    send_outcome (WaiterGuard * bytes) * Inner (Sem := Sem) :=
  if in_disconnected i then (Failed Disconnected, i)
  else
    let charge := Z.max credit_charge 1 in
    match reserve_now charge i with
    | (MustWait, i) => (Parked, i)
    | (Refused e, i) => (Failed e, i)
    | (Reserved, i) => execute_reserved c body tree charge compression now ch sent i
    end.

(** ** Compounds *)

Record CompoundOp := mkCompoundOp {
  op_command : Command;
  op_body : Writer unit;
  op_tree_id : option Z;
  op_credit_charge : Z
}.

(** [fold(0u16, |acc, c| acc.saturating_add(c))] *)
Definition total_charge (ops : list CompoundOp) : Z :=
  foldl (λ acc op, sat_add 16 acc (Z.max (op_credit_charge op) 1)) 0 ops.

Fixpoint build_sub_requests (ops : list CompoundOp) (related : bool) i :
    result Error (list (Z * bytes)) * Inner (Sem := Sem) :=
  match ops with
  | [] => (Ok [], i)
  | op :: ops =>
      let charge := Z.max (op_credit_charge op) 1 in
      let '(msg_id, i) := allocate_msg_id charge i in
      let h := request_header (op_command op) msg_id charge related (op_tree_id op) (op_tree_id op) i in
      match pack_message h (op_body op) with
      | Ok msg =>
          match build_sub_requests ops true i with
          | (Ok l, i) => (Ok ((msg_id, msg) :: l), i)
          | x => x
          end
      | Err e => (Err e, i)
      | Panic => (Panic, i)
      end
  end.

(** Sign every sub-request under its own message id. *)
Fixpoint sign_sub_requests (ids : list Z) (subs : list bytes) (c : CryptoState) :
    result Error (list bytes) :=
  match ids, subs with
  | id :: ids, s :: subs =>
      s ← sign_if_keyed s id false c; l ← sign_sub_requests ids subs c; Ok (s :: l)
  | _, _ => Ok subs
  end.

(** One waiter per sub-request; on failure the guards so far are dropped. *)
Fixpoint register_all (ids : list Z) (cmds : list Command) (now : Z) (chs : list nat)
    (gs : list WaiterGuard) i : result Error (list WaiterGuard) * Inner (Sem := Sem) :=
  match ids, cmds, chs with
  | id :: ids, c :: cmds, ch :: chs =>
      match register_waiter id c now ch i with
      | (Ok g, i) => register_all ids cmds now chs (gs ++ [g]) i
      | (Err e, i) => (Err e, foldl (λ i g, guard_drop g i) i gs)
      | (Panic, i) => (Panic, i)
      end
  | _, _, _ => (Ok gs, i)
  end.

Definition drop_all (gs : list WaiterGuard) i : Inner (Sem := Sem) :=
  foldl (λ i g, guard_drop g i) i gs.

(** Once the credits are reserved. *)
Definition compound_reserved (ops : list CompoundOp) (charge now : Z) (chs : list nat)
    (sent : bytes → result Error unit) i :
    send_outcome (list WaiterGuard * bytes) * Inner (Sem := Sem) :=
  match build_sub_requests ops false i with
  | (Err e, i) => (Failed e, unwind charge None i)
  | (Panic, i) => (Crashed, i)
  | (Ok built, i) =>
      let ids := map fst built in
      let linked_and_signed :=
        subs ← link_sub_requests (map snd built);
        if cs_should_sign (crypto i) && negb (cs_should_encrypt (crypto i))
        then sign_sub_requests ids subs (crypto i) else Ok subs in
      match linked_and_signed with
      | Err e => (Failed e, unwind charge None i)
      | Panic => (Crashed, i)
      | Ok subs =>
          match register_all ids (map op_command ops) now chs [] i with
          | (Err e, i) => (Failed e, unwind charge None i)
          | (Panic, i) => (Crashed, i)
          | (Ok gs, i) =>
              let buf := compound_buf subs in
              let '(sealed, i) :=
                if cs_should_encrypt (crypto i)
                then let '(r, c) := encrypt_bytes buf (crypto i) in (r, set_crypto c i)
                else (Ok buf, i) in
              match sealed with
              | Err e => (Failed e, unwind charge None (drop_all gs i))
              | Panic => (Crashed, i)
              | Ok wire =>
                  match send_and_count sent wire i with
                  | (Err e, i) => (Failed e, unwind charge None (drop_all gs i))
                  | (Panic, i) => (Crashed, i)
                  | (Ok _, i) => (Sent (gs, wire), mark_sent ids now i)
                  end
              end
          end
      end
  end.

Definition execute_compound_send (ops : list CompoundOp) (now : Z) (chs : list nat)
    (sent : bytes → result Error unit) i :
    send_outcome (list WaiterGuard * bytes) * Inner (Sem := Sem) :=
  match ops with
  | [] => (Failed (invalid_data "compound request must have at least one operation"), i)
  | _ =>
      if in_disconnected i then (Failed Disconnected, i)
      else
        let charge := total_charge ops in
        match reserve_now charge i with
        | (MustWait, i) => (Parked, i)
        | (Refused e, i) => (Failed e, i)
        | (Reserved, i) => compound_reserved ops charge now chs sent i
        end
  end.

(** ** CANCEL *)

Definition cancel_header (original_msg_id : Z) (aid : option Z) (c : CryptoState) : Header :=
  let h := Header_new_request Cancel in
  let f := match aid with Some _ => HeaderFlags.set_async 0 | None => 0 end in
  let f := if cs_should_sign c && negb (cs_should_encrypt c) then HeaderFlags.set_signed f else f in
  mkHeader 0 (status h) Cancel 0 f (next_command h) original_msg_id
    (match aid with Some _ => None | None => tree_id h end)
    (match aid with Some a => Some a | None => async_id h end)
    (cs_session_id c) (signature h).

Definition send_cancel (original_msg_id : Z) (aid : option Z) (sent : bytes → result Error unit) i :
    result Error bytes * Inner (Sem := Sem) :=
  let i := bump explicit_cancels_sent 1 i in
  match pack_message (cancel_header original_msg_id aid (crypto i)) (pack mkTrivialMessage) with
  | Err e => (Err e, i)
  | Panic => (Panic, i)
  | Ok msg =>
      let '(sealed, i) :=
        if cs_should_encrypt (crypto i)
        then let '(r, c) := encrypt_bytes msg (crypto i) in (r, set_crypto c i)
        else (if cs_should_sign (crypto i)
              then sign_if_keyed msg original_msg_id true (crypto i) else Ok msg, i) in
      match sealed with
      | Err e => (Err e, i)
      | Panic => (Panic, i)
      | Ok wire => let '(r, i) := send_and_count sent wire i in (_ ← r; Ok wire, i)
      end
  end.

(** ** Activating protection *)

Definition activate_signing (key : bytes) (algo : SigningAlgorithm) (c : CryptoState) : CryptoState :=
  mkCryptoState (Some key) (Some algo) true (cs_encryption_key c) (cs_decryption_key c)
    (cs_encryption_cipher c) (cs_should_encrypt c) (cs_nonce_gen c) (cs_session_id c).

Definition activate_encryption (enc_key dec_key : bytes) (ci : Cipher) (c : CryptoState) : CryptoState :=
  mkCryptoState (cs_signing_key c) (cs_signing_algorithm c) (cs_should_sign c) (Some enc_key)
    (Some dec_key) (Some ci) true (Some NonceGenerator_new) (cs_session_id c).

(** ** Failed sends *)

Lemma remove_then_drop g i :
  guard_drop g (remove_waiter (g_msg_id g) i) =
  set_channels (rx_drop (g_rx g)) (remove_waiter (g_msg_id g) i).
Proof.
  unfold guard_drop, remove_waiter. destruct (waiters i !! g_msg_id g) eqn:E.
  - cbn [waiters set_channels set_waiters]. by rewrite lookup_delete_eq.
  - by rewrite E.
Qed.

(** Registering and dropping leaves the map as it was. *)
Lemma guard_drop_waiters g i w m :
  waiters i = <[g_msg_id g := w]> m → m !! g_msg_id g = None →
  waiters (guard_drop g i) = m ∧ in_credits (guard_drop g i) = in_credits i ∧
  channels (guard_drop g i) !! g_rx g = Some ChReceiverGone.
Proof.
  intros Ew Hm. unfold guard_drop. rewrite Ew, lookup_insert_eq.
  cbn [waiters in_credits channels set_channels set_waiters set_abandoned].
  rewrite Ew, delete_insert_id by done. unfold rx_drop. by rewrite lookup_insert_eq.
Qed.

Lemma remove_waiter_waiters id i w m :
  waiters i = <[id := w]> m → m !! id = None →
  waiters (remove_waiter id i) = m ∧ in_credits (remove_waiter id i) = in_credits i.
Proof.
  intros Ew Hm. unfold remove_waiter. rewrite Ew, lookup_insert_eq.
  cbn [waiters in_credits set_channels set_waiters]. by rewrite Ew, delete_insert_id.
Qed.

Lemma seal_frame compression msg id i r i' :
  seal compression msg id i = (r, i') →
  waiters i' = waiters i ∧ in_credits i' = in_credits i ∧ channels i' = channels i ∧
  next_message_id i' = next_message_id i.
Proof.
  unfold seal. destruct (cs_should_encrypt (crypto i)).
  - destruct (encrypt_bytes msg (crypto i)) as [r0 c0]. by intros [= <- <-].
  - destruct (if cs_should_sign (crypto i) then _ else _); [|by intros [= <- <-]..].
    case_test; [|by intros [= <- <-]]. destruct (compress_message _ _); by intros [= <- <-].
Qed.

Lemma register_free id c now ch i r i' :
  waiters i !! id = None → register_waiter id c now ch i = (r, i') →
  (r = Err Disconnected ∧ i' = i) ∨
  (r = Ok (mkWaiterGuard id ch) ∧
   waiters i' = <[id := mkWaiter ch c now None now None]> (waiters i) ∧
   in_credits i' = in_credits i ∧ next_message_id i' = next_message_id i ∧ crypto i' = crypto i).
Proof.
  intros Hw. unfold register_waiter, insert_waiter. cbn [waiters set_channels]. rewrite Hw.
  destruct (in_disconnected i); intros [= <- <-]; [by left|]. by right.
Qed.

Context `{!SemaphoreLaws Sem}.

Abbreviation on_hand i := (available_permits (permits (in_credits i))).

Lemma reserve_now_ok c i i' :
  reserve_now c i = (Reserved, i') →
  try_reserve c (in_credits i) = (true, in_credits i') ∧ i' = set_credits (λ _, in_credits i') i.
Proof.
  unfold reserve_now. destruct (try_reserve c (in_credits i)) as [[] p] eqn:E.
  - intros [= <-]. done.
  - repeat case_test; done.
Qed.

Lemma reserve_now_refused c i e i' : reserve_now c i = (Refused e, i') → i' = i.
Proof.
  unfold reserve_now. destruct (try_reserve c (in_credits i)) as [[] p] eqn:E; [done|].
  repeat case_test; try done; by intros [= _ <-].
Qed.

Lemma send_and_count_inv sent wire i r i' :
  send_and_count sent wire i = (r, i') →
  match r with
  | Ok _ => (∃ u, sent wire = Ok u) ∧ i' = bump wire_bytes_sent (len wire) i
  | _ => i' = i
  end.
Proof. unfold send_and_count. destruct (sent wire) as [u|e|]; intros [= <- <-]; eauto. Qed.

(** ** What a plain send puts on the wire *)

Definition plain_crypto (c : CryptoState) : Prop :=
  cs_should_sign c = false ∧ cs_should_encrypt c = false.

Lemma seal_plain msg id i : plain_crypto (crypto i) → seal false msg id i = (Ok msg, i).
Proof. intros [H1' H2']. unfold seal. by rewrite H1', H2'. Qed.

(** A send that fails gives its credits and its waiter back. *)
Lemma execute_reserved_failed c body tree charge compression now ch sent i e i' :
  0 <= charge → waiters i !! next_message_id i = None →
  execute_reserved c body tree charge compression now ch sent i = (Failed e, i') →
  waiters i' = waiters i ∧ on_hand i' = on_hand i + charge ∧
  (channels i !! ch = None → channels i' !! ch ≠ Some ChEmpty).
Proof.
  intros Hc Hfree E. unfold execute_reserved in E. cbn [allocate_msg_id fst snd] in E.
  set (id := next_message_id i) in *. set (i2 := bump _ _ _) in E.
  assert (∀ j, in_credits j = in_credits i → on_hand (unwind charge None j) = on_hand i + charge) as Hu.
  { intros j Hj. cbn [unwind in_credits set_credits]. cbn [drop_reservation CreditReservation_new res_pool res_charge]. unfold refund.
    rewrite Hj. by apply grant_permits. }
  destruct (pack_message _ _) as [msg|e1|]; [|injection E as <- <-|done].
  2:{ split; [done|]. split; [by apply (Hu i2)|]. cbn [unwind channels set_credits]. intros Hch. change (channels i2) with (channels i). by rewrite Hch. }
  destruct (register_waiter id c now ch i2) as [r i3] eqn:Eg.
  pose proof (register_free id c now ch i2 r i3 Hfree Eg) as [[-> ->]|(-> & Hw3 & Hcr3 & _ & _)].
  { injection E as <- <-. split; [done|]. split; [by apply (Hu i2)|]. cbn [unwind channels set_credits].
    intros Hch. change (channels i2) with (channels i). by rewrite Hch. }
  destruct (seal compression msg id i3) as [sealed i4] eqn:Es. apply seal_frame in Es as (Hw4 & Hcr4 & _ & _).
  destruct sealed as [wire|e1|]; [|injection E as <- <-|done].
  2:{ destruct (guard_drop_waiters (mkWaiterGuard id ch) i4 (mkWaiter ch c now None now None) (waiters i))
        as (Gw & Gc & Gch); [by rewrite Hw4|done|].
      cbn [g_rx] in Gch. split; [done|]. split; [|intros _; cbn [unwind channels set_credits]; by rewrite Gch].
      apply (Hu (guard_drop (mkWaiterGuard id ch) i4)). by rewrite Gc, Hcr4, Hcr3. }
  destruct (send_and_count sent wire i4) as [[u|e1|] i5] eqn:Esend; [done| |done].
  apply send_and_count_inv in Esend as ->. injection E as <- <-.
  destruct (remove_waiter_waiters id i4 (mkWaiter ch c now None now None) (waiters i)) as (Rw & Rc); [by rewrite Hw4|done|].
  pose proof (remove_then_drop (mkWaiterGuard id ch) i4) as Hrd. cbn [g_msg_id g_rx] in Hrd.
  unfold unwind. rewrite Hrd. split; [done|]. split.
  - apply (Hu (set_channels (rx_drop ch) (remove_waiter id i4))). cbn [in_credits set_channels]. by rewrite Rc, Hcr4, Hcr3.
  - intros _. cbn [channels set_credits set_channels]. unfold rx_drop. by rewrite lookup_insert_eq.
Qed.

(** ** Properties *)


(** On a connection without protection, a request that was sent went
    out as header and body with the next message id, its charge and its
    session; ids advance by the charge, the credits spent are exactly the
    charge, and the caller's waiter is registered and marked as sent. *)
Theorem sent_request_correct c body b tree charge now ch sent i g wire i' :
  plain_crypto (crypto i) → waiters i !! next_message_id i = None →
  writes_at 64 body b →
  (let h := request_header c (next_message_id i) (Z.max charge 1) false tree
              (Some (default 0 tree)) i' in Header_wf h) →
  execute_send c body tree charge false now ch sent i = (Sent (g, wire), i') →
  wire = Header_layout (request_header c (next_message_id i) (Z.max charge 1) false tree
                          (Some (default 0 tree)) i') ++ b ∧
  sent wire = Ok tt ∧ g = mkWaiterGuard (next_message_id i) ch ∧
  next_message_id i' = trunc 64 (next_message_id i + Z.max charge 1) ∧
  on_hand i' = on_hand i - Z.max charge 1 ∧
  waiters i' = <[next_message_id i := mkWaiter ch c now (Some now) now None]> (waiters i).
Proof.
  intros Hpl Hfree Hb Hwf E. unfold execute_send, execute_reserved in E.
  destruct (in_disconnected i); [done|].
  destruct (reserve_now (Z.max charge 1) i) as [[|e0|] i1] eqn:Er; [|done|done].
  apply reserve_now_ok in Er as [Er Ei1]. apply try_reserve_spec in Er as (_ & _ & Hav & _).
  cbn [allocate_msg_id fst snd] in E.
  assert (next_message_id i1 = next_message_id i) as Hid by by rewrite Ei1.
  rewrite Hid in E. set (id := next_message_id i) in *. set (i2 := bump _ _ _) in E.
  assert (waiters i2 = waiters i ∧ in_credits i2 = in_credits i1 ∧ crypto i2 = crypto i ∧
          dfs_trees i2 = dfs_trees i ∧ next_message_id i2 = trunc 64 (id + Z.max charge 1))
    as (Hw2 & Hcr2 & Hcy2 & Hdf2 & Hn2) by (unfold i2; by rewrite Ei1).
  set (h2 := request_header _ _ _ _ _ _ i2) in E.
  destruct (pack_message h2 body) as [msg|e1|] eqn:Ep; [|done|done].
  destruct (register_waiter id c now ch i2) as [r i3] eqn:Eg.
  assert (waiters i2 !! id = None) as Hfree2 by by rewrite Hw2.
  pose proof Eg as Eg'.
  apply register_free in Eg as [[-> ->]|(-> & Hw3 & Hcr3 & Hn3 & Hcy3)]; [done| |done].
  assert (dfs_trees i3 = dfs_trees i2) as Hdf3.
  { unfold register_waiter, insert_waiter in Eg'. cbn [waiters set_channels] in Eg'.
    rewrite Hfree2 in Eg'. destruct (in_disconnected i2); [done|]. by injection Eg' as <-. }
  rewrite seal_plain in E by by rewrite Hcy3, Hcy2.
  destruct (send_and_count sent msg i3) as [[u|e1|] i4] eqn:Es; [|done|done].
  apply send_and_count_inv in Es as [[[] Es] ->]. injection E as <- <- Ei'.
  assert (request_header c id (Z.max charge 1) false tree (Some (default 0 tree)) i' = h2) as Hh.
  { unfold h2, request_header, request_flags, should_set_dfs_flag. rewrite <- Ei'.
    cbn [mark_sent in_credits crypto dfs_trees set_waiters bump]. by rewrite Hcr3, Hcy3, Hdf3. }
  cbv zeta in Hwf. rewrite Hh in Hwf. rewrite Hh.
  rewrite (pack_message_layout h2 body b Hwf Hb) in Ep. injection Ep as <-.
  split; [done|]. split; [done|]. split; [done|].
  rewrite <- Ei'. cbn [mark_sent next_message_id in_credits waiters set_waiters bump].
  rewrite Hn3, Hn2, Hcr3, Hcr2, Hw3, Hw2, alter_insert_eq. done.
Qed.

(** ** Compounds *)

Definition with_next_command (h : Header) (n : Z) : Header :=
  mkHeader (credit_charge h) (status h) (command h) (credits h) (flags h) n
    (message_id h) (tree_id h) (async_id h) (session_id h) (signature h).

Lemma with_next_command_wf h n : Header_wf h → is_u32 n → Header_wf (with_next_command h n).
Proof. intros [] Hn. by constructor. Qed.

(** Linking rewrites the [NextCommand] field and appends padding. *)
Lemma patch_next_command h b n :
  patch (Header_layout h ++ b) 20 (to_le 4 n) = Header_layout (with_next_command h n) ++ b.
Proof.
  unfold patch, Header_layout.
  set (A := PROTOCOL_ID ++ to_le 2 64 ++ to_le 2 (credit_charge h) ++ to_le 4 (status h)
            ++ to_le 2 (Command_code (command h)) ++ to_le 2 (credits h) ++ to_le 4 (flags h)).
  set (B := to_le 8 (message_id h) ++ _).
  change (with_next_command h n) with (with_next_command h n).
  cbn [with_next_command credit_charge status command credits flags next_command message_id
       tree_id async_id session_id signature]. fold B.
  transitivity (take (Z.to_nat 20) ((A ++ to_le 4 (next_command h)) ++ B ++ b) ++ to_le 4 n
                ++ drop (Z.to_nat (20 + len (to_le 4 n))) ((A ++ to_le 4 (next_command h)) ++ B ++ b)).
  { unfold A. by rewrite <- !app_assoc. }
  rewrite len_to_le. change (Z.to_nat (20 + Z.of_nat 4)) with (length (A ++ to_le 4 (next_command h))).
  rewrite drop_app_length, <- app_assoc.
  change (Z.to_nat 20) with (length A). rewrite take_app_length.
  unfold A. by rewrite <- !app_assoc.
Qed.

(** A sub-frame of the compound: the header of the operation, its body, and
    possibly padding. *)
Definition sub_matches i (related : bool) (id : Z) (op : CompoundOp) (sub : bytes) : Prop :=
  ∃ n b pad, writes_at 64 (op_body op) b ∧ 0 <= pad < 8 ∧
    let h := with_next_command
               (request_header (op_command op) id (Z.max (op_credit_charge op) 1) related
                  (op_tree_id op) (op_tree_id op) i) n in
    Header_wf h ∧ sub = Header_layout h ++ b ++ zeros pad.

Fixpoint subs_match i (related : bool) (id : Z) (ops : list CompoundOp) (subs : list bytes) : Prop :=
  match ops, subs with
  | [], [] => True
  | op :: ops, s :: subs =>
      sub_matches i related id op s ∧
      subs_match i true (id + Z.max (op_credit_charge op) 1) ops subs
  | _, _ => False
  end.

(** An operation whose fields fit their wire widths. *)
Definition op_ok (op : CompoundOp) : Prop :=
  is_u16 (op_credit_charge op) ∧ (∃ t, op_tree_id op = Some t ∧ is_u32 t) ∧
  ∃ b, writes_at 64 (op_body op) b ∧ len b < 2 ^ 30.

Lemma request_flags_wf related tree i :
  is_u32 (request_flags related tree i) ∧
  HeaderFlags.is_async (request_flags related tree i) = false.
Proof. unfold request_flags. by destruct related, (_ && _), (should_set_dfs_flag tree i). Qed.

Lemma request_header_wf c id charge related t i :
  is_u64 id → is_u16 charge → is_u32 t → is_u64 (cs_session_id (crypto i)) → 0 <= on_hand i →
  Header_wf (request_header c id charge related (Some t) (Some t) i).
Proof.
  intros Hid Hc Ht Hs Ha. destruct (request_flags_wf related (Some t) i) as [Hf Hasync].
  constructor; cbn; try done.
  - by apply request_for_u16.
  - unfold ids_wf. rewrite Hasync. eauto.
Qed.

Definition charges (ops : list CompoundOp) : Z :=
  foldr (λ op t, Z.max (op_credit_charge op) 1 + t) 0 ops.

Lemma charges_nonneg ops : 0 <= charges ops.
Proof. unfold charges. induction ops as [|op ops IH]; cbn [foldr]; lia. Qed.

Lemma request_header_ext c id charge related tree htree i i' :
  in_credits i' = in_credits i → crypto i' = crypto i → dfs_trees i' = dfs_trees i →
  request_header c id charge related tree htree i' = request_header c id charge related tree htree i.
Proof.
  intros E1 E2 E3. unfold request_header, request_flags, should_set_dfs_flag. by rewrite E1, E2, E3.
Qed.

(** The frames before linking. *)
Fixpoint frames_of i (related : bool) (id : Z) (ops : list CompoundOp) (fs : list (Z * bytes)) : Prop :=
  match ops, fs with
  | [], [] => True
  | op :: ops, (id', f) :: fs =>
      id' = id ∧
      (∃ b, writes_at 64 (op_body op) b ∧ len b < 2 ^ 30 ∧
        let h := request_header (op_command op) id (Z.max (op_credit_charge op) 1) related
                   (op_tree_id op) (op_tree_id op) i in
        Header_wf h ∧ f = Header_layout h ++ b) ∧
      frames_of i true (id + Z.max (op_credit_charge op) 1) ops fs
  | _, _ => False
  end.

Lemma frames_of_ext i i' related id ops fs :
  in_credits i' = in_credits i → crypto i' = crypto i → dfs_trees i' = dfs_trees i →
  frames_of i' related id ops fs → frames_of i related id ops fs.
Proof.
  intros E1 E2 E3. revert related id fs; induction ops as [|op ops IH]; intros related id [|[id' f] fs];
    cbn [frames_of]; try done.
  intros (-> & (b & Hb & Hl & Hh) & Hr). rewrite (request_header_ext _ _ _ _ _ _ i i') in Hh by done.
  eauto 10.
Qed.

Lemma build_sub_requests_frames ops related i :
  Forall op_ok ops → 0 <= next_message_id i → next_message_id i + charges ops < 2 ^ 64 →
  is_u64 (cs_session_id (crypto i)) → 0 <= on_hand i →
  ∃ fs i', build_sub_requests ops related i = (Ok fs, i') ∧
    frames_of i related (next_message_id i) ops fs ∧
    waiters i' = waiters i ∧ in_credits i' = in_credits i ∧ crypto i' = crypto i ∧
    in_disconnected i' = in_disconnected i ∧
    next_message_id i' = next_message_id i + charges ops.
Proof.
  intros Hops. revert related i. induction Hops as [|op ops Hop Hops IH]; intros related i H0' Hlt Hs Ha.
  { exists [], i. cbn. by rewrite Z.add_0_r. }
  change (charges (op :: ops)) with (Z.max (op_credit_charge op) 1 + charges ops) in *.
  pose proof (charges_nonneg ops).
  destruct Hop as (Hc & (t & Ht & Ht32) & b & Hb & Hbl). unfold in_range in Hc.
  cbn [build_sub_requests allocate_msg_id]. set (charge := Z.max (op_credit_charge op) 1) in *.
  set (i1 := bump _ _ _).
  assert (next_message_id i1 = next_message_id i + charge) as Hn1.
  { cbn [i1 bump next_message_id set_next_message_id]. apply trunc_small. unfold in_range. lia. }
  destruct (IH true i1) as (fs & i' & E & Hf & Hw & Hcr & Hcy & Hd & Hn); [lia|lia|done|done|].
  rewrite Ht in *.
  assert (Header_wf (request_header (op_command op) (next_message_id i) charge related (Some t) (Some t) i1))
    as Hwf by (apply request_header_wf; unfold in_range; done || lia).
  rewrite (pack_message_layout _ _ b Hwf Hb), E.
  eexists _, i'. split; [reflexivity|]. split; [|split_and!; try done; rewrite Hn, Hn1; cbn; lia].
  cbn [frames_of]. rewrite Ht. split; [done|]. split.
  - exists b. split; [done|]. split; [done|]. by rewrite (request_header_ext _ _ _ _ _ _ i i1) in Hwf.
  - rewrite Hn1 in Hf. by apply (frames_of_ext i i1).
Qed.

Lemma frames_ok i related id ops fs :
  frames_of i related id ops fs → Forall sub_request_ok (map snd fs).
Proof.
  revert related id fs; induction ops as [|op ops IH]; intros related id [|[id' f] fs];
    cbn [frames_of map]; try done.
  intros (_ & (b & _ & Hl & Hwf & ->) & Hr). constructor; [|by eapply IH].
  split; [|split].
  - cbn [snd]. rewrite len_app, Header_layout_len by done. pose proof (len_nonneg b). lia.
  - cbn [snd]. rewrite len_app, Header_layout_len by done. lia.
  - cbn [snd]. by rewrite next_command_of_layout.
Qed.

Lemma linked_matches i related id op b :
  let h := request_header (op_command op) id (Z.max (op_credit_charge op) 1) related
             (op_tree_id op) (op_tree_id op) i in
  writes_at 64 (op_body op) b → len b < 2 ^ 30 → Header_wf h →
  sub_matches i related id op (linked (Header_layout h ++ b)).
Proof.
  intros h Hb Hl Hwf. unfold linked. destruct (pad_to_8_spec (Header_layout h ++ b)) as (z & E & Hz & _).
  pose proof (len_nonneg b).
  exists (len (pad_to_8 (Header_layout h ++ b))), b, z. split; [done|]. split; [done|].
  cbv zeta. fold h. split.
  - apply with_next_command_wf; [done|]. unfold in_range.
    rewrite E, !len_app, Header_layout_len, len_zeros by (done || lia). lia.
  - rewrite E at 1. rewrite <- app_assoc. apply patch_next_command.
Qed.

Lemma linked_frames_match i related id ops fs l x :
  frames_of i related id ops fs → map snd fs = l ++ [x] →
  subs_match i related id ops (map linked l ++ [x]).
Proof.
  revert related id fs l; induction ops as [|op ops IH]; intros related id [|[id' f] fs] l;
    cbn [frames_of map]; try done.
  { intros _ E. by destruct l. }
  intros (-> & (b & Hb & Hl & Hwf & ->) & Hr) E. destruct l as [|y l]; cbn [app map] in *.
  - injection E as <- E. apply map_eq_nil in E as ->. destruct ops; [|done].
    cbn [subs_match]. split; [|done]. exists 0, b, 0. split; [done|]. split; [lia|].
    cbv zeta. split; [by apply with_next_command_wf|]. by rewrite app_nil_r.
  - injection E as <- E. cbn [subs_match]. split; [by apply linked_matches|]. by eapply IH.
Qed.

Lemma guard_drop_crypto g i : crypto (guard_drop g i) = crypto i.
Proof. unfold guard_drop. by destruct (waiters i !! g_msg_id g). Qed.

Lemma drop_all_crypto gs i : crypto (drop_all gs i) = crypto i.
Proof.
  unfold drop_all. revert i; induction gs as [|g gs IH]; intros i; [done|]. cbn [foldl].
  by rewrite IH, guard_drop_crypto.
Qed.

Lemma register_all_crypto ids cmds now chs gs i r i' :
  register_all ids cmds now chs gs i = (r, i') → crypto i' = crypto i.
Proof.
  revert cmds chs gs i; induction ids as [|id ids IH]; intros [|c cmds] [|ch chs] gs i;
    cbn [register_all]; try by intros [= <- <-].
  unfold register_waiter, insert_waiter. destruct (in_disconnected i).
  - intros [= <- <-]. apply drop_all_crypto.
  - intros E. apply IH in E. rewrite E. cbn [waiters set_channels].
    by destruct (waiters i !! id).
Qed.


(** ** CANCEL *)

Lemma cancel_header_wf id aid c :
  is_u64 id → match aid with Some a => is_u64 a | None => True end → is_u64 (cs_session_id c) →
  Header_wf (cancel_header id aid c).
Proof.
  intros Hid Ha Hs. constructor; cbn; try done.
  - by destruct aid, (cs_should_sign c), (cs_should_encrypt c).
  - unfold ids_wf. destruct aid as [a|], (cs_should_sign c), (cs_should_encrypt c); cbn; split; eauto;
      exists 0; done.
Qed.

(** A CANCEL names the request it cancels: it reuses the message id,
    carries the async id and flag exactly when the server assigned one, and
    spends neither credits nor message ids: only counters of the connection
    change. *)
Theorem cancel_correct id aid sent i :
  plain_crypto (crypto i) → is_u64 id → is_u64 (cs_session_id (crypto i)) →
  match aid with Some a => is_u64 a | None => True end →
  let wire := Header_layout (cancel_header id aid (crypto i)) ++ (to_le 2 4 ++ to_le 2 0) in
  let h := cancel_header id aid (crypto i) in
  send_cancel id aid sent i =
    (match sent wire with
     | Ok _ => (Ok wire, bump wire_bytes_sent (len wire) (bump explicit_cancels_sent 1 i))
     | Err e => (Err e, bump explicit_cancels_sent 1 i)
     | Panic => (Panic, bump explicit_cancels_sent 1 i)
     end) ∧
  message_id h = id ∧ async_id h = aid ∧ HeaderFlags.is_async (flags h) = bool_decide (is_Some aid) ∧
  credit_charge h = 0 ∧ credits h = 0.
Proof.
  intros [Hs He] Hid Hsid Ha wire h. split.
  - unfold send_cancel.
    rewrite (pack_message_layout (cancel_header id aid (crypto i)) _ (to_le 2 4 ++ to_le 2 0)).
    + cbn [crypto bump]. rewrite He, Hs. fold wire. unfold send_and_count.
      by destruct (sent wire).
    + by apply cancel_header_wf.
    + exact (codec_pack (A := TrivialMessage) 64 mkTrivialMessage ltac:(lia) I).
  - unfold h, cancel_header. rewrite Hs. by destruct aid.
Qed.

End request.

(** The credits reserved for a compound saturate at a [u16] while message ids
    advance by the true sum. *)
Example compound_charge_saturates :
  let op := mkCompoundOp Read (pack mkTrivialMessage) (Some 1) 65535 in
  total_charge [op; op] = 65535 ∧ charges [op; op] = 131070.
Proof. done. Qed.

(** ** Witnesses *)

Definition ready_inner : Inner (Sem := Z * bool) :=
  set_credits (λ _, mkCreditPool (10, false) DEFAULT_CREDIT_WAIT) Inner_new.

Definition echo_body : Writer unit := pack mkTrivialMessage.


Lemma sent_request_correct_witness :
  next_message_id (execute_send Echo echo_body None 1 false 100 0 (λ _, Ok tt) ready_inner).2 = 1.
Proof.
  edestruct (sent_request_correct Echo echo_body (to_le 2 4 ++ to_le 2 0) None 1 100 0 (λ _, Ok tt)
               ready_inner (mkWaiterGuard 0 0)) as (_ & _ & _ & E & _);
    [done|done| | |reflexivity|exact E].
  - exact (codec_pack (A := TrivialMessage) 64 mkTrivialMessage ltac:(lia) I).
  - constructor; try done. split; [done|]. by exists 0.
Defined.

Definition echo_op (t : Z) : CompoundOp := mkCompoundOp Echo echo_body (Some t) 1.

Definition toy_compound := execute_compound_send [echo_op 1; echo_op 2] 100 [0%nat; 1%nat]
  (λ _, Ok tt) ready_inner.
Definition toy_sent_frame : list WaiterGuard * bytes :=
  match toy_compound.1 with Sent x => x | _ => ([], []) end.

Lemma echo_op_ok t : is_u32 t → op_ok (echo_op t).
Proof.
  intros Ht. split; [done|]. split; [by exists t|]. exists (to_le 2 4 ++ to_le 2 0). split; [|done].
  exact (codec_pack (A := TrivialMessage) 64 mkTrivialMessage ltac:(lia) I).
Qed.


Lemma cancel_correct_witness :
  async_id (cancel_header 7 (Some 99) (crypto ready_inner)) = Some 99.
Proof. by apply (cancel_correct 7 (Some 99) (λ _, Ok tt) ready_inner). Defined.
