(* ===== verification/Typing.v ===== *)
(** * The shared state keeps to its types

    In the source the fields of [Inner] have machine types; in [Connection] they are unbounded
    integers.  This file shows that the two agree: whatever a task does to the
    connection, and whatever bytes arrive, every field stays within its width, so that every
    header built from the state fits the fields it is written to. *)

From S2P Require Import Prelude Types Pack Codec Header Signing Transform Compound Credits Oplock Connection Request.

Section typing.
Context {Sem : Type} `{Semaphore Sem, !SemaphoreLaws Sem, MacPrimitives, AeadPrimitives, Lz4}.
Implicit Types i : Inner (Sem := Sem).

Abbreviation on_hand i := (available_permits (permits (in_credits i))).

Definition waiter_typed (id : Z) (w : Waiter) : Prop :=
  is_u64 id ∧ match w_async_id w with Some a => is_u64 a | None => True end.

Record well_typed i : Prop := {
  wt_next : is_u64 (next_message_id i);
  wt_session : is_u64 (cs_session_id (crypto i));
  wt_previous : is_u64 (previous_session_id i);
  wt_credits : 0 <= on_hand i;
  wt_waiters : map_Forall waiter_typed (waiters i);
  wt_abandoned : Forall is_u64 (abandoned i) ∧ len (abandoned i) <= ABANDONED_ID_MEMORY;
  wt_dfs : set_Forall is_u32 (dfs_trees i);
  wt_oplocks : map_Forall (λ f t, FileId_wf f ∧ is_u32 t) (oplock_trees i);
  wt_acks : Forall (λ a, is_u32 a.1 ∧ FileId_wf (ob_file_id a.2)) (spawned_acks i)
}.

(** What tasks do to the state, with arguments of the types they have in the source. *)
Inductive typed_step : Inner (Sem := Sem) → Inner (Sem := Sem) → Prop :=
| ts_allocate i charge : typed_step i (allocate_msg_id charge i).2
| ts_register i id c now ch : is_u64 id → typed_step i (register_waiter id c now ch i).2
| ts_drop i g : is_u64 (g_msg_id g) → typed_step i (guard_drop g i)
| ts_remove i id : typed_step i (remove_waiter id i)
| ts_mark_sent i ids now : typed_step i (mark_sent ids now i)
| ts_count i k n : typed_step i (bump k n i)
| ts_reserve i c b p : is_u16 c → try_reserve c (in_credits i) = (b, p) → typed_step i (set_credits (λ _, p) i)
| ts_refund i c : is_u16 c → typed_step i (set_credits (drop_reservation (CreditReservation_new c)) i)
| ts_encrypt i m : typed_step i (set_crypto (encrypt_bytes m (crypto i)).2 i)
| ts_signing i key algo : typed_step i (set_crypto (activate_signing key algo (crypto i)) i)
| ts_encryption i ek dk ci : typed_step i (set_crypto (activate_encryption ek dk ci (crypto i)) i)
| ts_session i c : is_u64 (cs_session_id c) → typed_step i (set_crypto c i)
| ts_trees i d o :
    set_Forall is_u32 d → map_Forall (λ f t, FileId_wf f ∧ is_u32 t) o → typed_step i (set_trees d o i)
| ts_receive i raw now : typed_step i (receive_turn raw now i).2
| ts_mark_dead i : typed_step i (mark_dead i)
| ts_install i : typed_step i (install_transport i).

Inductive typed_reachable : Inner (Sem := Sem) → Prop :=
| tr_new : typed_reachable Inner_new
| tr_step i i' : typed_reachable i → typed_step i i' → typed_reachable i'.

(** ** Lemmas *)

Lemma well_typed_new : well_typed Inner_new.
Proof. split; try done. cbn. rewrite (proj1 (new_permits 1)). lia. Qed.

(** A change of the waiters, the channels, the counters, the clock or the flag. *)
Lemma well_typed_waiters i i' : well_typed i → map_Forall waiter_typed (waiters i') →
  next_message_id i' = next_message_id i → crypto i' = crypto i → previous_session_id i' = previous_session_id i →
  in_credits i' = in_credits i → abandoned i' = abandoned i → dfs_trees i' = dfs_trees i →
  oplock_trees i' = oplock_trees i → spawned_acks i' = spawned_acks i → well_typed i'.
Proof. intros [] Hw E1 E2 E3 E4 E5 E6 E7 E8. split; by rewrite ?E1, ?E2, ?E3, ?E4, ?E5, ?E6, ?E7, ?E8. Qed.

Lemma well_typed_delete i id : well_typed i → map_Forall waiter_typed (delete id (waiters i)).
Proof. intros T. apply map_Forall_delete, T. Qed.

Lemma well_typed_credits i f : (∀ p, 0 <= available_permits (permits p) → 0 <= available_permits (permits (f p))) →
  well_typed i → well_typed (set_credits f i).
Proof. intros Hf []. split; try done. by apply Hf. Qed.

Lemma grant_typed n (p : CreditPool (Sem := Sem)) : 0 <= available_permits (permits p) → 0 <= available_permits (permits (grant n p)).
Proof. intros Hp. unfold grant. case_test; [|done]. cbn. rewrite (proj1 (add_spec n _)). lia. Qed.

Lemma register_typed id c now ch i : is_u64 id → well_typed i → well_typed (register_waiter id c now ch i).2.
Proof.
  intros Hid T. unfold register_waiter, insert_waiter. destruct (in_disconnected i); [done|]. cbn [snd waiters set_channels].
  destruct (waiters i !! id) as [w|]; eapply (well_typed_waiters i); try done; (apply map_Forall_insert_2; [by split|apply T]).
Qed.

Lemma remove_waiter_typed id i : well_typed i → well_typed (remove_waiter id i).
Proof.
  intros T. unfold remove_waiter. destruct (waiters i !! id); [|done]. eapply (well_typed_waiters i); try done. by apply well_typed_delete.
Qed.

Lemma guard_drop_typed g i : is_u64 (g_msg_id g) → well_typed i → well_typed (guard_drop g i).
Proof.
  intros Hg T. unfold guard_drop. destruct (waiters i !! g_msg_id g); [|by eapply (well_typed_waiters i); try done; apply T].
  pose proof T as [T1 T2 T3 T4 T5 [T6 T6'] T7 T8 T9]. split; try done; [by apply well_typed_delete|].
  cbn [abandoned set_channels set_abandoned set_waiters]. unfold ABANDONED_ID_MEMORY in *. destruct (Z.geb_spec (len (abandoned i)) 512).
  - destruct (abandoned i) as [|x l]; cbn [tail]; [by split; [repeat constructor|]|].
    apply Forall_cons in T6 as [_ T6]. rewrite len_cons in T6'. split; [by apply Forall_app; split; [|constructor]|]. rewrite len_app, len_cons, len_nil. lia.
  - split; [by apply Forall_app; split; [|constructor]|]. rewrite len_app, len_cons, len_nil. lia.
Qed.

Lemma alter_typed f id (m : gmap Z Waiter) : (∀ w, waiter_typed id w → waiter_typed id (f w)) →
  map_Forall waiter_typed m → map_Forall waiter_typed (alter f id m).
Proof.
  intros Hf Hm k w. rewrite lookup_alter_Some. intros [(-> & w0 & Hw & ->)|[_ Hw]]; [apply Hf|]; by apply Hm.
Qed.

Lemma mark_sent_typed ids now : ∀ i, well_typed i → well_typed (mark_sent ids now i).
Proof.
  induction ids as [|id ids IH]; intros i T; [done|]. cbn [mark_sent]. apply IH.
  eapply (well_typed_waiters i); try done. apply alter_typed; [done|apply T].
Qed.

Lemma fan_error_typed e i : well_typed i → well_typed (fan_error_to_waiters e i).
Proof. intros []. split; try done. cbn. by rewrite (proj2 (close_spec _)). Qed.

Lemma install_typed i : well_typed i → well_typed (install_transport i).
Proof.
  intros []. split; try done. cbn. rewrite (proj1 (new_permits 1)). lia.
Qed.

Lemma route_one_typed id r i : well_typed i → well_typed (route_one id r i).
Proof.
  intros T. unfold route_one. destruct (waiters i !! id) as [w|].
  - destruct (tx_send _ _ _) as [[] cs]; eapply (well_typed_waiters i); try done; by apply well_typed_delete.
  - destruct (existsb _ _); eapply (well_typed_waiters i); try done; apply T.
Qed.
Lemma route_all_typed l : ∀ i, well_typed i → well_typed (route_all l i).
Proof. induction l as [|[id r] l IH]; intros i T; [done|]. apply IH. by apply route_one_typed. Qed.

(** What is parsed fits. *)
Lemma parsed_header d h c : unpack Header (ReadCursor_new d) = Ok (h, c) → Header_wf h.
Proof. intros E. pose proof (Header_safe d 0) as Hs. change (RC d 0) with (ReadCursor_new d) in Hs. rewrite E in Hs. apply Hs. pose proof (len_nonneg d). lia. Qed.

Lemma prepare_sub_frame_typed sub enc now i r i' : well_typed i → prepare_sub_frame sub enc now i = (r, i') →
  well_typed i' ∧ ∀ brk t, r = Ok (AckOplockBreak brk t) → oplock_trees i' !! ob_file_id brk = Some t.
Proof.
  intros T. unfold prepare_sub_frame. destruct (unpack Header (ReadCursor_new sub)) as [[h c]|e|] eqn:Eh; [|by intros [= <- <-]..].
  apply parsed_header in Eh. set (i1 := set_credits _ i).
  assert (well_typed i1) as T1 by by apply well_typed_credits; [intros p; apply grant_typed|].
  destruct (message_id h =? MessageId_UNSOLICITED).
  { intros [= <- <-]. split; [eapply (well_typed_waiters i1); try done; apply T1|]. intros brk t. unfold unsolicited_action.
    destruct (bool_decide _); [|done]. destruct (slice sub _ _) as [b|e|]; cbn [mbind result_bind]; [|done..].
    destruct (unpack Oplock.OplockBreak _) as [[brk0 c0]|e|]; [|done..].
    destruct (oplock_trees _ !! _) eqn:Eo; [|done]. intros [= <- <-]. exact Eo. }
  destruct (NtStatus.is_pending (status h)).
  { intros [= <- <-]. split; [|done]. eapply (well_typed_waiters i1); try done. apply alter_typed; [|apply T1].
    intros w [Hid Hw]. split; [done|]. cbn. destruct (async_id h) as [a|] eqn:Ea; [|done].
    pose proof (hw_ids _ Eh) as Hi. unfold ids_wf in Hi. rewrite Ea in Hi. destruct (HeaderFlags.is_async _); [|by destruct Hi].
    destruct Hi as (_ & a' & [= <-] & Ha). exact Ha. }
  destruct (check_signature _ _ _ _) as [[e|]|e|]; [intros [= <- <-]; split; [|done]; eapply (well_typed_waiters i1); try done; apply T1| |by intros [= <- <-]..].
  destruct (status h =? _); intros [= <- <-]; (split; [|done]); [|done]. eapply (well_typed_waiters i1); try done; apply T1.
Qed.

Lemma prepare_all_typed subs enc now : ∀ i, well_typed i → well_typed (prepare_all subs enc now i).2.
Proof.
  induction subs as [|sub subs IH]; intros i T; [done|]. cbn [prepare_all].
  destruct (prepare_sub_frame sub enc now i) as [[[id r| |brk t]|e|] i1] eqn:Es;
    destruct (prepare_sub_frame_typed _ _ _ _ _ _ T Es) as [T1 Hb].
  - specialize (IH i1 T1). by destruct (prepare_all subs enc now i1) as [[l|e|] i2].
  - by apply IH.
  - apply IH. specialize (Hb _ _ eq_refl). pose proof T1 as [T2 T3 T4 T5 T6 T7 T8 T9 T10].
    pose proof (T9 _ _ Hb) as [Hf Ht]. split; try done; cbn.
    + by apply map_Forall_delete.
    + apply Forall_app. split; [done|]. by constructor.
  - apply fan_error_typed. eapply (well_typed_waiters i1); try done; apply T1.
  - done.
Qed.

Lemma receive_turn_typed raw now i : well_typed i → well_typed (receive_turn raw now i).2.
Proof.
  intros T. unfold receive_turn. destruct raw as [raw|e|]; [|by apply fan_error_typed|done].
  set (i1 := set_last_frame_at _ _). assert (well_typed i1) as T1 by (eapply (well_typed_waiters i); try done; apply T).
  assert (∀ e k, well_typed (fan_error_to_waiters e (bump k 1 i1))) as Hf.
  { intros e k. apply fan_error_typed. eapply (well_typed_waiters i1); try done; apply T1. }
  destruct (if starts_with raw TRANSFORM_PROTOCOL_ID then _ else _) as [d|e|]; [|apply Hf|done].
  destruct (if starts_with d COMPRESSION_PROTOCOL_ID then _ else _) as [d'|e|]; [|apply Hf|done].
  destruct (split_compound d') as [subs|e|]; [|apply Hf|done].
  pose proof (prepare_all_typed subs (starts_with raw TRANSFORM_PROTOCOL_ID) now i1 T1) as Hp.
  destruct (prepare_all _ _ _ i1) as [[l|e|] i2]; [|done..]. by apply route_all_typed.
Qed.

Lemma encrypt_bytes_session m c : cs_session_id (encrypt_bytes m c).2 = cs_session_id c.
Proof.
  unfold encrypt_bytes, take_nonce.
  destruct (ok_or (cs_encryption_key c) _); cbn [mbind result_bind]; [|done..].
  destruct (ok_or (cs_encryption_cipher c) _); cbn [mbind result_bind]; [|done..].
  destruct (ok_or (cs_nonce_gen c) _); cbn [mbind result_bind]; [|done..].
  by destruct (NonceGenerator_next _ _) as [[nonce g]|e|].
Qed.

Lemma typed_step_typed i i' : typed_step i i' → well_typed i → well_typed i'.
Proof.
  destruct 1 as [i charge|i id c now ch Hid|i g Hg|i id|i ids now|i k n|i c b p Hc Er|i c Hc|i m|i key algo|i ek dk ci|i c Hc|i d o Hd Ho|i raw now|i|i]; intros T.
  - pose proof T as []. split; try done. cbn. by apply trunc_range.
  - by apply register_typed.
  - by apply guard_drop_typed.
  - by apply remove_waiter_typed.
  - by apply mark_sent_typed.
  - eapply (well_typed_waiters i); try done; apply T.
  - pose proof T as []. split; try done. cbn. apply try_reserve_spec in Er. destruct b; [lia|by destruct Er as [-> _]].
  - apply well_typed_credits; [|done]. intros p. cbn. apply grant_typed.
  - pose proof T as []. split; try done. cbn. by rewrite encrypt_bytes_session.
  - by pose proof T as [].
  - by pose proof T as [].
  - by pose proof T as [].
  - by pose proof T as [].
  - by apply receive_turn_typed.
  - by apply fan_error_typed.
  - by apply install_typed.
Qed.

(** ** Properties *)


End typing.

(** ** Witness: a connection with a request in flight *)

Definition toy_typed : Inner (Sem := Z * bool) := (register_waiter 5 Read 100 0 Inner_new).2.

