(* ===== verification/Ioctl.v ===== *)
(** * IOCTL messages and the server-side copy structures

    Models [src/msg/ioctl.rs] and [src/msg/copychunk.rs]. *)

From S2P Require Import Prelude Types Pack Codec Header.

(** ** IOCTL *)

Definition SMB2_0_IOCTL_IS_FSCTL : Z := 0x00000001.
Definition FSCTL_DFS_GET_REFERRALS : Z := 0x00060194.
Definition FSCTL_SRV_COPYCHUNK : Z := 0x001440F2.
Definition FSCTL_SRV_REQUEST_RESUME_KEY : Z := 0x00140078.

Record IoctlRequest := mkIoctlRequest {
  ioq_ctl_code : Z;
  ioq_file_id : FileId;
  ioq_max_input_response : Z;
  ioq_max_output_response : Z;
  ioq_flags : Z;
  ioq_input_data : bytes
}.
Definition IoctlRequest_STRUCTURE_SIZE : Z := 57.
Definition IoctlRequest_FIXED_SIZE : Z := 56.

(** [(start as u32) + FIXED_SIZE], zero without a buffer. *)
Definition ioctl_offset (start fixed count : Z) : Z :=
  if count >? 0 then trunc 32 start + fixed else 0.

#[global] Instance IoctlRequest_pack : Pack IoctlRequest := λ m,
  start ← wc_position;
  write_u16_le IoctlRequest_STRUCTURE_SIZE ;;
  write_u16_le 0 ;;
  write_u32_le (ioq_ctl_code m) ;;
  write_file_id (ioq_file_id m) ;;
  let input_count := trunc 32 (len (ioq_input_data m)) in
  write_u32_le (ioctl_offset start IoctlRequest_FIXED_SIZE input_count) ;;
  write_u32_le input_count ;;
  write_u32_le (ioq_max_input_response m) ;;
  write_u32_le 0 ;;
  write_u32_le 0 ;;
  write_u32_le (ioq_max_output_response m) ;;
  write_u32_le (ioq_flags m) ;;
  write_u32_le 0 ;;
  write_bytes (ioq_input_data m).

#[global] Instance IoctlRequest_unpack : Unpack IoctlRequest :=
  structure_size ← read_u16_le;
  fail_if (negb (structure_size =? IoctlRequest_STRUCTURE_SIZE))
    (invalid_data "invalid IoctlRequest structure size: expected {}, got {}") ;;
  _reserved ← read_u16_le;
  ctl_code ← read_u32_le;
  file_id ← read_file_id;
  _input_offset ← read_u32_le;
  input_count ← read_u32_le;
  max_input_response ← read_u32_le;
  _output_offset ← read_u32_le;
  _output_count ← read_u32_le;
  max_output_response ← read_u32_le;
  flags ← read_u32_le;
  _reserved2 ← read_u32_le;
  input_data ← read_opt_bounded input_count;
  mret (mkIoctlRequest ctl_code file_id max_input_response max_output_response flags input_data).

Record IoctlResponse := mkIoctlResponse {
  ior_ctl_code : Z;
  ior_file_id : FileId;
  ior_flags : Z;
  ior_output_data : bytes
}.
Definition IoctlResponse_STRUCTURE_SIZE : Z := 49.
Definition IoctlResponse_FIXED_SIZE : Z := 48.

#[global] Instance IoctlResponse_pack : Pack IoctlResponse := λ m,
  start ← wc_position;
  write_u16_le IoctlResponse_STRUCTURE_SIZE ;;
  write_u16_le 0 ;;
  write_u32_le (ior_ctl_code m) ;;
  write_file_id (ior_file_id m) ;;
  let output_count := trunc 32 (len (ior_output_data m)) in
  write_u32_le 0 ;;
  write_u32_le 0 ;;
  write_u32_le (ioctl_offset start IoctlResponse_FIXED_SIZE output_count) ;;
  write_u32_le output_count ;;
  write_u32_le (ior_flags m) ;;
  write_u32_le 0 ;;
  write_bytes (ior_output_data m).

#[global] Instance IoctlResponse_unpack : Unpack IoctlResponse :=
  structure_size ← read_u16_le;
  fail_if (negb (structure_size =? IoctlResponse_STRUCTURE_SIZE))
    (invalid_data "invalid IoctlResponse structure size: expected {}, got {}") ;;
  _reserved ← read_u16_le;
  ctl_code ← read_u32_le;
  file_id ← read_file_id;
  _input_offset ← read_u32_le;
  _input_count ← read_u32_le;
  _output_offset ← read_u32_le;
  output_count ← read_u32_le;
  flags ← read_u32_le;
  _reserved2 ← read_u32_le;
  output_data ← read_opt_bounded output_count;
  mret (mkIoctlResponse ctl_code file_id flags output_data).

(** ** Server-side copy *)

Definition RESUME_KEY_LEN : Z := 24.

Record SrvCopychunk := mkSrvCopychunk {
  sc_source_offset : Z;
  sc_target_offset : Z;
  sc_length : Z
}.

#[global] Instance SrvCopychunk_pack : Pack SrvCopychunk := λ m,
  write_u64_le (sc_source_offset m) ;;
  write_u64_le (sc_target_offset m) ;;
  write_u32_le (sc_length m) ;;
  write_u32_le 0.

#[global] Instance SrvCopychunk_unpack : Unpack SrvCopychunk :=
  source_offset ← read_u64_le;
  target_offset ← read_u64_le;
  length ← read_u32_le;
  _reserved ← read_u32_le;
  mret (mkSrvCopychunk source_offset target_offset length).

Record SrvCopychunkCopy := mkSrvCopychunkCopy {
  scc_source_key : bytes;
  scc_chunks : list SrvCopychunk
}.

#[global] Instance SrvCopychunkCopy_pack : Pack SrvCopychunkCopy := λ m,
  write_bytes (scc_source_key m) ;;
  write_u32_le (trunc 32 (len (scc_chunks m))) ;;
  write_u32_le 0 ;;
  for_each (λ chunk, pack chunk) (scc_chunks m).

#[global] Instance SrvCopychunkCopy_unpack : Unpack SrvCopychunkCopy :=
  source_key ← read_bytes RESUME_KEY_LEN;
  chunk_count ← read_u32_le;
  _reserved ← read_u32_le;
  chunks ← repeat_push (Z.to_nat chunk_count) (unpack SrvCopychunk);
  mret (mkSrvCopychunkCopy source_key chunks).

Record SrvCopychunkResponse := mkSrvCopychunkResponse {
  scr_chunks_written : Z;
  scr_chunk_bytes_written : Z;
  scr_total_bytes_written : Z
}.

#[global] Instance SrvCopychunkResponse_pack : Pack SrvCopychunkResponse := λ m,
  write_u32_le (scr_chunks_written m) ;;
  write_u32_le (scr_chunk_bytes_written m) ;;
  write_u32_le (scr_total_bytes_written m).

#[global] Instance SrvCopychunkResponse_unpack : Unpack SrvCopychunkResponse :=
  chunks_written ← read_u32_le;
  chunk_bytes_written ← read_u32_le;
  total_bytes_written ← read_u32_le;
  mret (mkSrvCopychunkResponse chunks_written chunk_bytes_written total_bytes_written).

(** The context that follows the key is not read. *)
Record SrvRequestResumeKeyResponse := mkSrvRequestResumeKeyResponse { srk_resume_key : bytes }.

#[global] Instance SrvRequestResumeKeyResponse_pack : Pack SrvRequestResumeKeyResponse := λ m,
  write_bytes (srk_resume_key m) ;; write_u32_le 0.

#[global] Instance SrvRequestResumeKeyResponse_unpack : Unpack SrvRequestResumeKeyResponse := λ c,
  match read_bytes RESUME_KEY_LEN c with
  | Ok (k, c) => Ok (mkSrvRequestResumeKeyResponse k, c)
  | Err _ => Err (invalid_data
      "SRV_REQUEST_RESUME_KEY response shorter than 24-byte resume key")
  | Panic => Panic
  end.

(** ** Codecs *)

Record IoctlRequest_wf (m : IoctlRequest) : Prop := {
  iqw_code : is_u32 (ioq_ctl_code m);
  iqw_id : FileId_wf (ioq_file_id m);
  iqw_in : is_u32 (ioq_max_input_response m);
  iqw_out : is_u32 (ioq_max_output_response m);
  iqw_flags : is_u32 (ioq_flags m);
  iqw_data : len (ioq_input_data m) <= MAX_UNPACK_BUFFER
}.

Definition ioctl_buffer_offset (p fixed : Z) (d : bytes) : Z :=
  ioctl_offset p fixed (trunc 32 (len d)).

#[global] Program Instance IoctlRequest_codec : Codec IoctlRequest := {
  codec_wf m := IoctlRequest_wf m;
  codec_layout p m :=
    to_le 2 57 ++ to_le 2 0 ++ to_le 4 (ioq_ctl_code m)
    ++ (to_le 8 (persistent (ioq_file_id m)) ++ to_le 8 (volatile (ioq_file_id m)))
    ++ to_le 4 (trunc 32 (ioctl_buffer_offset p 56 (ioq_input_data m)))
    ++ to_le 4 (len (ioq_input_data m))
    ++ to_le 4 (ioq_max_input_response m) ++ to_le 4 0 ++ to_le 4 0
    ++ to_le 4 (ioq_max_output_response m) ++ to_le 4 (ioq_flags m) ++ to_le 4 0
    ++ ioq_input_data m
}.
Next Obligation.
  intros p m Hp Hwf. unfold writes_at, pack, IoctlRequest_pack. wsteps.
  change (len (@nil byte)) with 0. rewrite ?Z.add_0_r. cbv zeta. wsteps. wtrunc. wdone.
Qed.
Next Obligation.
  intros p [cc id mi mo fl d] Hp [Hc Hi H1 H2 Hf Hd]. unfold unpack, IoctlRequest_unpack.
  cbn [ioq_ctl_code ioq_file_id ioq_max_input_response ioq_max_output_response ioq_flags
       ioq_input_data] in *.
  repeat rstep. eapply reads_bind; [apply reads_u32; by apply trunc_range|]. rsteps.
Qed.
Next Obligation. unfold unpack, IoctlRequest_unpack. roks. by apply rok_ret. Qed.

Record IoctlResponse_wf (m : IoctlResponse) : Prop := {
  irw_code : is_u32 (ior_ctl_code m);
  irw_id : FileId_wf (ior_file_id m);
  irw_flags : is_u32 (ior_flags m);
  irw_data : len (ior_output_data m) <= MAX_UNPACK_BUFFER
}.

#[global] Program Instance IoctlResponse_codec : Codec IoctlResponse := {
  codec_wf m := IoctlResponse_wf m;
  codec_layout p m :=
    to_le 2 49 ++ to_le 2 0 ++ to_le 4 (ior_ctl_code m)
    ++ (to_le 8 (persistent (ior_file_id m)) ++ to_le 8 (volatile (ior_file_id m)))
    ++ to_le 4 0 ++ to_le 4 0
    ++ to_le 4 (trunc 32 (ioctl_buffer_offset p 48 (ior_output_data m)))
    ++ to_le 4 (len (ior_output_data m)) ++ to_le 4 (ior_flags m) ++ to_le 4 0
    ++ ior_output_data m
}.
Next Obligation.
  intros p m Hp Hwf. unfold writes_at, pack, IoctlResponse_pack. wsteps.
  change (len (@nil byte)) with 0. rewrite ?Z.add_0_r. cbv zeta. wsteps. wtrunc. wdone.
Qed.
Next Obligation.
  intros p [cc id fl d] Hp [Hc Hi Hf Hd]. unfold unpack, IoctlResponse_unpack.
  cbn [ior_ctl_code ior_file_id ior_flags ior_output_data] in *.
  repeat rstep. eapply reads_bind; [apply reads_u32; by apply trunc_range|]. rsteps.
Qed.
Next Obligation. unfold unpack, IoctlResponse_unpack. roks. by apply rok_ret. Qed.

Definition SrvCopychunk_wf (m : SrvCopychunk) : Prop :=
  is_u64 (sc_source_offset m) ∧ is_u64 (sc_target_offset m) ∧ is_u32 (sc_length m).

#[global] Program Instance SrvCopychunk_codec : Codec SrvCopychunk := {
  codec_wf := SrvCopychunk_wf;
  codec_layout _ m :=
    to_le 8 (sc_source_offset m) ++ to_le 8 (sc_target_offset m) ++ to_le 4 (sc_length m)
    ++ to_le 4 0
}.
Next Obligation. intros. unfold writes_at, pack, SrvCopychunk_pack. wsteps. wdone. Qed.
Next Obligation.
  intros p [] _ (?&?&?). unfold unpack, SrvCopychunk_unpack.
  cbn [sc_source_offset sc_target_offset sc_length] in *. rsteps.
Qed.
Next Obligation. unfold unpack, SrvCopychunk_unpack. roks. rokdone. Qed.

Definition SrvCopychunkCopy_wf (m : SrvCopychunkCopy) : Prop :=
  len (scc_source_key m) = 24 ∧ is_u32 (len (scc_chunks m)) ∧ Forall SrvCopychunk_wf (scc_chunks m).

#[global] Program Instance SrvCopychunkCopy_codec : Codec SrvCopychunkCopy := {
  codec_wf := SrvCopychunkCopy_wf;
  codec_layout _ m :=
    scc_source_key m ++ to_le 4 (len (scc_chunks m)) ++ to_le 4 0
    ++ (scc_chunks m ≫= codec_layout 0)
}.
Next Obligation.
  intros p m Hp (_&_&Hl). unfold writes_at, pack at 1, SrvCopychunkCopy_pack. wsteps. wtrunc.
  eapply eq_ind_r with (P := λ b, wtriple _ _ _ b _).
  - apply w_for_each with (enc := codec_layout 0). intros a b Ha.
    change (codec_layout 0 a) with (codec_layout (p + len b) a).
    apply writes_at_wtriple, codec_pack; [pose proof (len_nonneg b); lia|].
    by eapply Forall_forall in Hl.
  - by rewrite <- !app_assoc.
Qed.
Next Obligation.
  intros p [k ch] Hp (Hk&?&Hl). unfold unpack at 1, SrvCopychunkCopy_unpack, RESUME_KEY_LEN.
  cbn [scc_source_key scc_chunks] in *. rsteps.
  eapply reads_bind_nil; [|apply reads_ret].
  replace (Z.to_nat (len ch)) with (length ch) by (unfold len; lia).
  apply reads_repeat. intros q a Hq Ha.
  match type of Hq with ?p0 <= _ => assert (0 <= p0) by (pose proof Hp; len_lia) end.
  change (codec_layout 0 a) with (codec_layout q a).
  apply codec_unpack; [lia|]. by eapply Forall_forall in Hl.
Qed.
Next Obligation.
  unfold unpack at 1, SrvCopychunkCopy_unpack, RESUME_KEY_LEN. roks.
  eapply rok_bind; [apply rok_repeat, codec_safe|]. intros. rokdone.
Qed.

#[global] Program Instance SrvCopychunkResponse_codec : Codec SrvCopychunkResponse := {
  codec_wf m := is_u32 (scr_chunks_written m) ∧ is_u32 (scr_chunk_bytes_written m)
                ∧ is_u32 (scr_total_bytes_written m);
  codec_layout _ m :=
    to_le 4 (scr_chunks_written m) ++ to_le 4 (scr_chunk_bytes_written m)
    ++ to_le 4 (scr_total_bytes_written m)
}.
Next Obligation. intros. unfold writes_at, pack, SrvCopychunkResponse_pack. wsteps. wdone. Qed.
Next Obligation.
  intros p [] _ (?&?&?). unfold unpack, SrvCopychunkResponse_unpack.
  cbn [scr_chunks_written scr_chunk_bytes_written scr_total_bytes_written] in *. rsteps.
Qed.
Next Obligation. unfold unpack, SrvCopychunkResponse_unpack. roks. rokdone. Qed.
