(* ===== verification/Copy.v ===== *)
(** * Server-side copy ([src/client/copy.rs])

    [build_batch] cuts a byte range into chunks within the server's limits and
    [server_side_copy_range] drives requests until the range is copied,
    renegotiating limits when the server rejects a batch.  The server is a
    parameter: a transition from its state and a request to an outcome.  The
    theorems: batches tile the range exactly and respect every limit; against
    a server that copies what it reports, a successful run leaves exactly the
    source bytes in the destination range and touches nothing else; the loop
    ends within [length] successful rounds plus the number of rejections. *)

From S2P Require Import Prelude Types Pack Codec Header Ioctl.

Record CopyChunk := mkCopyChunk { source_offset : Z; target_offset : Z; cc_length : Z }.

(** [From<CopyChunk> for SrvCopychunk] *)
Definition to_srv (c : CopyChunk) : SrvCopychunk :=
  mkSrvCopychunk (source_offset c) (target_offset c) (cc_length c).

Record CopyChunkResult := mkCopyChunkResult { chunks_written : Z; total_bytes_written : Z }.

Record ServerSideCopyLimits := mkLimits {
  max_chunks : Z;
  max_chunk_size : Z;
  max_data_size : Z
}.

#[global] Instance limits_eq_dec : EqDecision ServerSideCopyLimits.
Proof. solve_decision. Defined.

Definition CONSERVATIVE : ServerSideCopyLimits := mkLimits 16 (1024 * 1024) (16 * 1024 * 1024).

Definition sanitized (l : ServerSideCopyLimits) : ServerSideCopyLimits :=
  let max_chunk_size := Z.max (max_chunk_size l) 1 in
  mkLimits (Z.max (max_chunks l) 1) max_chunk_size (Z.max (max_data_size l) max_chunk_size).

Inductive CopyChunkOutcome :=
| Copied (r : CopyChunkResult)
| Rejected (limits : ServerSideCopyLimits).

(** [a + b] on [u64]: panics on overflow (the behaviour of a debug build). *)
Definition add_u64 (a b : Z) : result Error Z := if a + b <? 2 ^ 64 then Ok (a + b) else Panic.

(** ** build_batch *)

(** The [while] loop: [n] chunks pushed so far, [off] bytes covered.  It pushes a
    chunk per round and stops at [max_chunks], so [max_chunks + 1] rounds are
    enough; running out is a panic. *)
Fixpoint batch_loop (fuel : nat) (base_src base_dst remaining : Z) (limits : ServerSideCopyLimits)
    (n off : Z) : result Error (list CopyChunk * Z) :=
  match fuel with
  | O => Panic
  | S fuel =>
      if (trunc 32 n <? max_chunks limits) && (off <? remaining) && (off <? max_data_size limits)
      then
        let this := Z.min (Z.min (max_chunk_size limits) (remaining - off))
                      (max_data_size limits - off) in
        if this =? 0 then Ok ([], off)
        else
          src ← add_u64 base_src off;
          dst ← add_u64 base_dst off;
          '(chunks, total) ← batch_loop fuel base_src base_dst remaining limits (n + 1) (off + this);
          Ok (mkCopyChunk src dst (trunc 32 this) :: chunks, total)
      else Ok ([], off)
  end.

Definition build_batch (base_src base_dst remaining : Z) (limits : ServerSideCopyLimits) :
    result Error (list CopyChunk * Z) :=
  batch_loop (S (Z.to_nat (max_chunks limits))) base_src base_dst remaining limits 0 0.

(** ** copy_chunks

    The IOCTL a batch becomes, and how its response is read. *)

Definition copychunk_request (dest : FileId) (source_key : bytes) (chunks : list CopyChunk) :
    result Error IoctlRequest :=
  input_data ← packed (mkSrvCopychunkCopy source_key (map to_srv chunks));
  Ok (mkIoctlRequest FSCTL_SRV_COPYCHUNK dest 0 12 SMB2_0_IOCTL_IS_FSCTL input_data).

Definition parse_copychunk_response (frame_body : bytes) : result Error SrvCopychunkResponse :=
  match unpack IoctlResponse (ReadCursor_new frame_body) with
  | Ok (resp, _) =>
      match unpack SrvCopychunkResponse (ReadCursor_new (ior_output_data resp)) with
      | Ok (r, _) => Ok r
      | Err e => Err e
      | Panic => Panic
      end
  | Err e => Err e
  | Panic => Panic
  end.

Definition copychunk_outcome (status : Z) (frame_body : bytes) : result Error CopyChunkOutcome :=
  if status =? NtStatus.INVALID_PARAMETER then
    match parse_copychunk_response frame_body with
    | Ok resp => Ok (Rejected (mkLimits (scr_chunks_written resp) (scr_chunk_bytes_written resp)
                                 (scr_total_bytes_written resp)))
    | Panic => Panic
    | Err _ => Err (Protocol status Ioctl)
    end
  else if negb (status =? NtStatus.SUCCESS) then Err (Protocol status Ioctl)
  else
    resp ← parse_copychunk_response frame_body;
    Ok (Copied (mkCopyChunkResult (scr_chunks_written resp) (scr_total_bytes_written resp))).

Section copy.
(** The connection and the server behind it: [conn.execute(Command::Ioctl, ..)],
    which returns the status and the body of the response. *)
Context {Srv : Type} (execute : Srv → IoctlRequest → result Error (Z * bytes) * Srv).
(** The open destination and the resume key of the source. *)
Context (dest_id : FileId) (source_key : bytes).

Definition copy_chunks (s : Srv) (chunks : list CopyChunk) : result Error CopyChunkOutcome * Srv :=
  match copychunk_request dest_id source_key chunks with
  | Panic => (Panic, s)
  | Err e => (Err e, s)
  | Ok req =>
      match execute s req with
      | (Panic, s) => (Panic, s)
      | (Err e, s) => (Err e, s)
      | (Ok (status, frame_body), s) => (copychunk_outcome status frame_body, s)
      end
  end.

(** ** server_side_copy_range *)

(** The [while copied < length] loop; [None] is running out of rounds. *)
Fixpoint copy_loop (fuel : nat) (src dst length : Z) (limits : ServerSideCopyLimits) (copied : Z)
    (s : Srv) : option (result Error Z * Srv) :=
  if copied <? length then
    match fuel with
    | O => None
    | S fuel =>
        let remaining := length - copied in
        match (base_src ← add_u64 src copied; base_dst ← add_u64 dst copied;
               build_batch base_src base_dst remaining limits) with
        | Panic => Some (Panic, s)
        | Err e => Some (Err e, s)
        | Ok (chunks, batch_len) =>
            (* debug_assert!(!chunks.is_empty() && batch_len > 0) *)
            if (len chunks =? 0) || (batch_len =? 0) then Some (Panic, s) else
            match copy_chunks s chunks with
            | (Panic, s) => Some (Panic, s)
            | (Err e, s) => Some (Err e, s)
            | (Ok (Copied r), s) =>
                if total_bytes_written r =? 0
                then Some (Err (invalid_data
                       "server-side copy reported success but wrote 0 bytes"), s)
                else copy_loop fuel src dst length limits
                       (copied + Z.min (total_bytes_written r) batch_len) s
            | (Ok (Rejected advertised), s) =>
                let sane := sanitized advertised in
                if decide (sane = limits)
                then Some (Err (invalid_data
                       "server rejected server-side copy without advertising smaller limits"), s)
                else copy_loop fuel src dst length sane copied s
            end
        end
    end
  else Some (Ok copied, s).

Definition server_side_copy_range (fuel : nat) (src dst length : Z) (s : Srv) :
    option (result Error Z * Srv) :=
  if length =? 0 then Some (Ok 0, s)
  else copy_loop fuel src dst length (sanitized CONSERVATIVE) 0 s.

End copy.

(** ** Batches *)

(** Limits as [sanitized] leaves them. *)
Definition usable (l : ServerSideCopyLimits) : Prop :=
  1 <= max_chunks l < 2 ^ 32 ∧ 1 <= max_chunk_size l < 2 ^ 32 ∧
  max_chunk_size l <= max_data_size l < 2 ^ 32.

Definition limits_wf (l : ServerSideCopyLimits) : Prop :=
  is_u32 (max_chunks l) ∧ is_u32 (max_chunk_size l) ∧ is_u32 (max_data_size l).

Lemma sanitized_usable l : limits_wf l → usable (sanitized l).
Proof. unfold limits_wf, usable, sanitized, in_range. cbn. lia. Qed.

(** Chunks that cover [len] bytes from the two offsets, end to end. *)
Fixpoint tiles (src dst : Z) (chunks : list CopyChunk) (total : Z) : Prop :=
  match chunks with
  | [] => total = 0
  | c :: cs => source_offset c = src ∧ target_offset c = dst ∧ 0 < cc_length c ∧
               tiles (src + cc_length c) (dst + cc_length c) cs (total - cc_length c)
  end.

Lemma batch_loop_spec fuel bs bd rem l n off :
  usable l → 0 <= n → 0 <= off <= Z.min rem (max_data_size l) →
  n <= max_chunks l → max_chunks l - n < Z.of_nat fuel →
  0 <= bs → 0 <= bd → bs + rem <= 2 ^ 64 → bd + rem <= 2 ^ 64 →
  ∃ chunks total, batch_loop fuel bs bd rem l n off = Ok (chunks, total) ∧
    tiles (bs + off) (bd + off) chunks (total - off) ∧
    Forall (λ c, 0 < cc_length c <= max_chunk_size l) chunks ∧
    len chunks <= max_chunks l - n ∧
    total = Z.min (Z.min rem (max_data_size l)) (off + (max_chunks l - n) * max_chunk_size l).
Proof.
  intros (Hmc & Hms & Hmd). revert n off.
  induction fuel as [|fuel IH]; intros n off Hn Hoff Hnm Hf Hbs Hbd Hs Hd; [lia|].
  cbn [batch_loop]. rewrite trunc_small by (unfold in_range; lia).
  destruct ((n <? _) && _ && _) eqn:E.
  - bool_prop. set (this := Z.min (Z.min _ _) _).
    assert (0 < this <= max_chunk_size l) as Hthis by lia.
    replace (this =? 0) with false by lia. unfold add_u64.
    replace (bs + off <? 2 ^ 64) with true by lia. replace (bd + off <? 2 ^ 64) with true by lia.
    unfold mbind, result_bind.
    destruct (IH (n + 1) (off + this)) as (chunks & total & Eb & Ht & Hl & Hc & Htot); try lia.
    rewrite Eb. rewrite trunc_small by (unfold in_range; lia).
    exists (mkCopyChunk (bs + off) (bd + off) this :: chunks), total. split; [done|].
    split; [|split; [|split]].
    + cbn. split; [done|]. split; [done|]. split; [lia|].
      rewrite !Z.add_assoc in Ht. by replace (total - off - this) with (total - (off + this)) by lia.
    + by constructor.
    + rewrite len_cons. lia.
    + assert (0 <= (max_chunks l - (n + 1)) * max_chunk_size l) as HP
        by (apply Z.mul_nonneg_nonneg; lia).
      replace ((max_chunks l - n) * max_chunk_size l)
        with ((max_chunks l - (n + 1)) * max_chunk_size l + max_chunk_size l) by ring.
      rewrite Htot. unfold this in *. lia.
  - exists [], off. split; [done|]. cbn. split; [lia|]. split; [constructor|].
    split; [rewrite len_nil; lia|].
    assert (0 <= (max_chunks l - n) * max_chunk_size l) as HP by (apply Z.mul_nonneg_nonneg; lia).
    apply andb_false_iff in E as [E|E]; [apply andb_false_iff in E as [E|E]|]; bool_prop; try lia.
    assert (max_chunks l - n = 0) as -> by lia. lia.
Qed.

Lemma build_batch_spec bs bd rem l :
  usable l → 0 < rem → 0 <= bs → 0 <= bd → bs + rem <= 2 ^ 64 → bd + rem <= 2 ^ 64 →
  ∃ chunks total, build_batch bs bd rem l = Ok (chunks, total) ∧
    tiles bs bd chunks total ∧
    Forall (λ c, 0 < cc_length c <= max_chunk_size l) chunks ∧
    len chunks <= max_chunks l ∧
    total = Z.min (Z.min rem (max_data_size l)) (max_chunks l * max_chunk_size l).
Proof.
  intros Hl Hr Hbs Hbd Hs Hd. unfold build_batch. pose proof Hl as (H1 & H2 & H3).
  destruct (batch_loop_spec (S (Z.to_nat (max_chunks l))) bs bd rem l 0 0)
    as (chunks & total & E & Ht & Hf & Hc & Htot); try done; try lia.
  exists chunks, total. split; [done|]. rewrite !Z.add_0_r, Z.sub_0_r in Ht.
  split; [done|]. split; [done|]. split; [lia|]. rewrite Htot. f_equal. lia.
Qed.

Lemma tiles_nonneg src dst chunks total : tiles src dst chunks total → 0 <= total.
Proof.
  revert src dst total. induction chunks as [|c cs IH]; intros src dst total; cbn; [lia|].
  intros (_ & _ & ? & Ht%IH). lia.
Qed.

(** A chunk whose fields fit the wire format and that copies something. *)
Definition chunk_wf (c : CopyChunk) : Prop :=
  is_u64 (source_offset c) ∧ is_u64 (target_offset c) ∧ 0 < cc_length c < 2 ^ 32.

Lemma tiles_wf src dst chunks total :
  tiles src dst chunks total → 0 <= total → 0 <= src → 0 <= dst →
  src + total <= 2 ^ 64 → dst + total <= 2 ^ 64 →
  Forall (λ c, 0 < cc_length c < 2 ^ 32) chunks → Forall chunk_wf chunks.
Proof.
  intros Ht H0 Hs Hd Hso Hdo Hf. revert src dst total Ht H0 Hs Hd Hso Hdo.
  induction Hf as [|c cs Hc Hf IH]; intros src dst total Ht H0 Hs Hd Hso Hdo; [constructor|].
  destruct Ht as (<- & <- & Hp & Ht).
  pose proof (tiles_nonneg _ _ _ _ Ht).
  constructor.
  - unfold chunk_wf, in_range. lia.
  - eapply IH; try eassumption; lia.
Qed.

(** What a batch always is, whatever the limits and the position. *)
Lemma build_batch_wf bs bd rem l chunks total :
  usable l → 0 < rem → 0 <= bs → 0 <= bd → bs + rem <= 2 ^ 64 → bd + rem <= 2 ^ 64 →
  build_batch bs bd rem l = Ok (chunks, total) →
  tiles bs bd chunks total ∧ Forall chunk_wf chunks ∧ 0 < len chunks < 2 ^ 32 ∧ 0 < total <= rem.
Proof.
  intros Hl Hr Hbs Hbd Hs Hd E.
  destruct (build_batch_spec bs bd rem l) as (cs & t & E' & Ht & Hf & Hc & Htot); try done.
  rewrite E in E'. injection E' as <- <-. pose proof Hl as (H1 & H2 & H3).
  assert (0 < total <= rem).
  { assert (0 < max_chunks l * max_chunk_size l) by (apply Z.mul_pos_pos; lia). lia. }
  split; [done|]. split; [|split; [|done]].
  - eapply tiles_wf; try eassumption; try lia. eapply Forall_impl; [done|]. cbn. lia.
  - destruct chunks; [cbn in Ht; lia|]. rewrite len_cons. pose proof (len_nonneg chunks).
    rewrite len_cons in Hc. lia.
Qed.

(** ** copy_chunks on any response *)

Lemma rok_copychunk_response :
  reader_ok (unpack SrvCopychunkResponse) (λ r, is_u32 (scr_chunks_written r)
    ∧ is_u32 (scr_chunk_bytes_written r) ∧ is_u32 (scr_total_bytes_written r)).
Proof. unfold unpack, SrvCopychunkResponse_unpack. roks. by apply rok_ret. Qed.

Lemma parse_copychunk_safe b :
  match parse_copychunk_response b with
  | Ok r => is_u32 (scr_chunks_written r) ∧ is_u32 (scr_chunk_bytes_written r)
            ∧ is_u32 (scr_total_bytes_written r)
  | Err _ => True
  | Panic => False
  end.
Proof.
  unfold parse_copychunk_response.
  pose proof (rok_start (unpack IoctlResponse) _ b codec_safe) as H1.
  destruct (unpack IoctlResponse _) as [[resp c]|e|]; [|done|done].
  pose proof (rok_start (unpack SrvCopychunkResponse) _ (ior_output_data resp) rok_copychunk_response) as H2.
  by destruct (unpack SrvCopychunkResponse _) as [[r c']|e|].
Qed.

Lemma copychunk_outcome_safe status b :
  match copychunk_outcome status b with
  | Ok (Copied r) => status = NtStatus.SUCCESS ∧ is_u32 (total_bytes_written r)
  | Ok (Rejected l) => status = NtStatus.INVALID_PARAMETER ∧ limits_wf l
  | Err _ => True
  | Panic => False
  end.
Proof.
  unfold copychunk_outcome, mbind, result_bind, limits_wf.
  pose proof (parse_copychunk_safe b) as H.
  destruct (status =? NtStatus.INVALID_PARAMETER) eqn:E1; bool_prop.
  - by destruct (parse_copychunk_response b).
  - destruct (status =? NtStatus.SUCCESS) eqn:E2; bool_prop; cbn; [|done].
    destruct (parse_copychunk_response b); cbn; [|done|done]. split; [done|]. apply H.
Qed.

Lemma map_to_srv_wf chunks : Forall chunk_wf chunks → Forall SrvCopychunk_wf (map to_srv chunks).
Proof.
  intros H. induction H as [|c cs (?&?&?) ? IH]; constructor; [|done].
  unfold SrvCopychunk_wf, to_srv, in_range. cbn. auto with lia.
Qed.

(** Packing the request always succeeds and the chunks can be read back from it. *)
Lemma copychunk_request_spec dest_id key chunks :
  len key = 24 → len chunks < 2 ^ 32 → Forall chunk_wf chunks →
  ∃ b, copychunk_request dest_id key chunks
         = Ok (mkIoctlRequest FSCTL_SRV_COPYCHUNK dest_id 0 12 SMB2_0_IOCTL_IS_FSCTL b) ∧
       unpack SrvCopychunkCopy (ReadCursor_new b)
         = Ok (mkSrvCopychunkCopy key (map to_srv chunks), RC b (len b)).
Proof.
  intros Hk Hn Hf.
  destruct (codec_round_trips (mkSrvCopychunkCopy key (map to_srv chunks))) as (b & Hb & Hu & _).
  - split; [done|]. split; [|by apply map_to_srv_wf].
    cbn. unfold in_range, len. rewrite length_map. fold (len chunks). pose proof (len_nonneg chunks). lia.
  - exists b. split; [|done]. unfold copychunk_request. by rewrite Hb.
Qed.

Lemma copy_chunks_no_panic {Srv} (execute : Srv → IoctlRequest → result Error (Z * bytes) * Srv)
    dest_id key s chunks s' :
  (∀ s req s', execute s req ≠ (Panic, s')) →
  len key = 24 → len chunks < 2 ^ 32 → Forall chunk_wf chunks →
  copy_chunks execute dest_id key s chunks ≠ (Panic, s').
Proof.
  intros He Hk Hn Hf. unfold copy_chunks.
  destruct (copychunk_request_spec dest_id key chunks Hk Hn Hf) as (b & -> & _).
  destruct (execute s _) as [[[status body]|e|] s1] eqn:E; [|done|by apply He in E].
  pose proof (copychunk_outcome_safe status body). by destruct (copychunk_outcome status body) as [[]| |].
Qed.

Lemma copy_chunks_range {Srv} (execute : Srv → IoctlRequest → result Error (Z * bytes) * Srv)
    dest_id key s chunks o s' :
  copy_chunks execute dest_id key s chunks = (Ok o, s') →
  match o with
  | Copied r => is_u32 (total_bytes_written r)
  | Rejected l => limits_wf l
  end.
Proof.
  unfold copy_chunks. destruct (copychunk_request _ _ _); [|done|done].
  destruct (execute s _) as [[[status body]|e|] s1]; [|done|done]. intros [= E _].
  pose proof (copychunk_outcome_safe status body) as H. rewrite E in H. by destruct o, H.
Qed.

(** ** What a faithful server does *)

Section server.
Context {Srv : Type} (execute : Srv → IoctlRequest → result Error (Z * bytes) * Srv).
Context (dest_id : FileId) (source_key : bytes).
(** The bytes of the source file, fixed, and of the destination. *)
Context (source : Z → byte) (dest : Srv → Z → byte).

(** [n] bytes from [src] in the source to [dst] in the destination. *)
Definition blit (src dst n : Z) (d : Z → byte) : Z → byte :=
  λ x, if (dst <=? x) && (x <? dst + n) then source (src + (x - dst)) else d x.

(** The first [n] bytes of a request, chunk by chunk. *)
Fixpoint apply_chunks (chunks : list SrvCopychunk) (n : Z) (d : Z → byte) : Z → byte :=
  match chunks with
  | [] => d
  | c :: cs =>
      let k := Z.min n (sc_length c) in
      apply_chunks cs (n - k) (blit (sc_source_offset c) (sc_target_offset c) k d)
  end.

Definition request_len (chunks : list SrvCopychunk) : Z := foldr (λ c t, sc_length c + t) 0 chunks.

(** What MS-SMB2 3.3.5.15.6 has a server do with a well-formed [FSCTL_SRV_COPYCHUNK]
    request: a successful answer reports at most what was asked and that much
    has been copied, in order; any other answer changes nothing.  Executing a
    request ends in an answer or an error, never in a panic of the client. *)
Record faithful_server : Prop := {
  fs_copied : ∀ s req ch p s' status body r c,
    execute s req = (Ok (status, body), s') →
    unpack SrvCopychunkCopy (ReadCursor_new (ioq_input_data req))
      = Ok (mkSrvCopychunkCopy source_key ch, p) →
    Forall (λ c, 0 < sc_length c) ch →
    ioq_ctl_code req = FSCTL_SRV_COPYCHUNK → ioq_file_id req = dest_id →
    status = NtStatus.SUCCESS →
    unpack IoctlResponse (ReadCursor_new body) = Ok (r, c) →
    match unpack SrvCopychunkResponse (ReadCursor_new (ior_output_data r)) with
    | Ok (cr, _) => scr_total_bytes_written cr <= request_len ch ∧
        ∀ x, dest s' x = apply_chunks ch (scr_total_bytes_written cr) (dest s) x
    | _ => True
    end;
  fs_rejected : ∀ s req s' status body, execute s req = (Ok (status, body), s') →
    status ≠ NtStatus.SUCCESS → ∀ x, dest s' x = dest s x;
  fs_no_panic : ∀ s req s', execute s req ≠ (Panic, s')
}.

Context (Hsrv : faithful_server) (Hkey : len source_key = 24).

Lemma tiles_request_len src dst chunks total :
  tiles src dst chunks total → request_len (map to_srv chunks) = total.
Proof using.
  revert src dst total; induction chunks as [|c cs IH]; intros src dst total; [cbn; lia|].
  intros (_ & _ & _ & Ht). apply IH in Ht. unfold request_len in *. cbn [map foldr to_srv sc_length].
  rewrite Ht. lia.
Qed.

(** A tiling applied up to [n] bytes is one copy of [n] bytes. *)
Lemma apply_tiles src dst chunks total n d x :
  tiles src dst chunks total → 0 <= n <= total →
  apply_chunks (map to_srv chunks) n d x = blit src dst n d x.
Proof using.
  revert src dst total n d; induction chunks as [|c cs IH]; intros src dst total n d; cbn.
  - intros -> Hn. assert (n = 0) as -> by lia. unfold blit.
    by replace ((_ <=? x) && _) with false by lia.
  - intros (-> & -> & Hc & Ht) Hn.
    pose proof (tiles_nonneg _ _ _ _ Ht). rewrite (IH _ _ _ _ _ Ht) by lia. unfold blit.
    destruct (Z.le_gt_cases n (cc_length c)) as [Hle|Hgt].
    + rewrite Z.min_l, Z.sub_diag by lia.
      by replace ((_ + _ <=? x) && _) with false by lia.
    + rewrite Z.min_r by lia.
      destruct ((dst <=? x) && (x <? dst + n)) eqn:E1.
      * destruct ((dst + cc_length c <=? x) && _) eqn:E2; [f_equal; lia|].
        by replace ((dst <=? x) && _) with true by lia.
      * replace ((dst + cc_length c <=? x) && _) with false by lia.
        by replace ((dst <=? x) && _) with false by lia.
Qed.

Lemma blit_blit src dst a b d x :
  0 <= a → 0 <= b →
  blit (src + a) (dst + a) b (blit src dst a d) x = blit src dst (a + b) d x.
Proof using.
  intros Ha Hb. unfold blit.
  destruct ((dst + a <=? x) && (x <? dst + a + b)) eqn:E1.
  - replace ((dst <=? x) && _) with true by lia. f_equal. lia.
  - destruct ((dst <=? x) && (x <? dst + a)) eqn:E2.
    + by replace ((dst <=? x) && _) with true by lia.
    + by replace ((dst <=? x) && _) with false by lia.
Qed.

Lemma blit_0 src dst d x : blit src dst 0 d x = d x.
Proof using. unfold blit. by replace ((_ <=? x) && _) with false by lia. Qed.

Lemma blit_ext src dst n d d' x : d x = d' x → blit src dst n d x = blit src dst n d' x.
Proof using. intros H. unfold blit. by destruct (_ && _). Qed.

(** One [copy_chunks] round against such a server. *)
Lemma copy_chunks_faithful s src dst chunks total o s' :
  tiles src dst chunks total → Forall chunk_wf chunks → len chunks < 2 ^ 32 →
  copy_chunks execute dest_id source_key s chunks = (Ok o, s') →
  match o with
  | Copied r => 0 <= total_bytes_written r <= total ∧
      ∀ x, dest s' x = blit src dst (total_bytes_written r) (dest s) x
  | Rejected l => ∀ x, dest s' x = dest s x
  end.
Proof using Hsrv Hkey.
  intros Ht Hwf Hn E. pose proof (copy_chunks_range _ _ _ _ _ _ _ E) as Hrange. revert E.
  unfold copy_chunks.
  destruct (copychunk_request_spec dest_id source_key chunks Hkey Hn Hwf) as (b & -> & Hb).
  destruct (execute s _) as [[[status body]|e|] s1] eqn:Ex; [|done|done]. intros [= E <-].
  pose proof (copychunk_outcome_safe status body) as Hsafe. rewrite E in Hsafe.
  destruct o as [r|l].
  - destruct Hsafe as [-> _]. cbn in E. unfold parse_copychunk_response in E.
    destruct (unpack IoctlResponse _) as [[resp c]|e|] eqn:E1; [|done|done].
    pose proof (fs_copied Hsrv _ _ _ _ _ _ _ resp c Ex Hb) as Hc.
    specialize (Hc ltac:(apply Forall_map; eapply Forall_impl; [done|]; intros ? (_&_&?); cbn; lia)
                  eq_refl eq_refl eq_refl E1).
    destruct (unpack SrvCopychunkResponse _) as [[cr c']|e|]; [|done|done].
    cbn in E. injection E as <-. cbn in Hrange |- *. destruct Hc as [Hle Hdest].
    rewrite (tiles_request_len _ _ _ _ Ht) in Hle. unfold in_range in Hrange.
    split; [lia|]. intros x. rewrite Hdest. eapply apply_tiles; [done|lia].
  - destruct Hsafe as [-> _]. by apply (fs_rejected Hsrv _ _ _ _ _ Ex).
Qed.

(** The loop invariant: what is copied so far is the prefix of the range. *)
Lemma copy_loop_correct fuel src dst length limits copied s r s' :
  usable limits → 0 <= src → 0 <= dst → 0 <= copied <= length →
  src + length <= 2 ^ 64 → dst + length <= 2 ^ 64 →
  copy_loop execute dest_id source_key fuel src dst length limits copied s = Some (r, s') →
  r ≠ Panic ∧
  (∀ n, r = Ok n → n = length ∧
     ∀ x, dest s' x = blit (src + copied) (dst + copied) (length - copied) (dest s) x).
Proof using Hsrv Hkey.
  revert limits copied s. induction fuel as [|fuel IH];
    intros limits copied s Hl Hs Hd Hc Hso Hdo; cbn [copy_loop];
    destruct (copied <? length) eqn:E; try done; bool_prop.
  1, 3: (intros [= <- <-]; split; [done|]; intros n [= <-]; split; [lia|];
         intros x; replace (length - copied) with 0 by lia; by rewrite blit_0).
  unfold add_u64. replace (src + copied <? 2 ^ 64) with true by lia.
  replace (dst + copied <? 2 ^ 64) with true by lia. unfold mbind, result_bind.
  destruct (build_batch_spec (src + copied) (dst + copied) (length - copied) limits)
    as (chunks & total & Eb & _); try done; try lia.
  rewrite Eb. apply build_batch_wf in Eb as (Ht & Hwf & Hlen & Htot); try done; try lia.
  replace ((len chunks =? 0) || (total =? 0)) with false by lia.
  destruct (copy_chunks _ _ _ s chunks) as [[o|e|] s1] eqn:Ec.
  - pose proof (copy_chunks_faithful _ _ _ _ _ _ _ Ht Hwf ltac:(lia) Ec) as Hf.
    pose proof (copy_chunks_range _ _ _ _ _ _ _ Ec) as Hr. destruct o as [r1|adv].
    + destruct Hf as [Hr1 Hdest]. case_test; bool_prop; [by intros [= <- <-]|].
      rewrite Z.min_l by lia. intros E2. apply IH in E2 as [Hp Hok]; try done; try lia.
      split; [done|]. intros n Hn. destruct (Hok n Hn) as [-> Hx]. split; [done|]. intros x.
      rewrite Hx, (blit_ext _ _ _ _ _ _ (Hdest x)), !Z.add_assoc, blit_blit by lia.
      by replace (total_bytes_written r1 + _) with (length - copied) by lia.
    + case_decide; [by intros [= <- <-]|]. intros E2.
      apply IH in E2 as [Hp Hok]; try done; [|by apply sanitized_usable].
      split; [done|]. intros n Hn. destruct (Hok n Hn) as [-> Hx]. split; [done|]. intros x.
      rewrite Hx. by apply blit_ext.
  - by intros [= <- <-].
  - apply copy_chunks_no_panic in Ec; try done; [apply Hsrv|lia].
Qed.

End server.

(** ** Termination *)

(** Rejections the server still has in it, a measure of its patience. *)
Definition rejects_at_most {Srv} (execute : Srv → IoctlRequest → result Error (Z * bytes) * Srv)
    (budget : Srv → nat) : Prop :=
  ∀ s req o s', execute s req = (o, s') →
    match o with
    | Ok (status, _) => if status =? NtStatus.INVALID_PARAMETER then (budget s' < budget s)%nat
                        else (budget s' <= budget s)%nat
    | _ => True
    end.

Lemma copy_chunks_budget {Srv} (execute : Srv → IoctlRequest → result Error (Z * bytes) * Srv)
    budget dest_id key s chunks o s' :
  rejects_at_most execute budget → copy_chunks execute dest_id key s chunks = (Ok o, s') →
  match o with
  | Copied _ => (budget s' <= budget s)%nat
  | Rejected _ => (budget s' < budget s)%nat
  end.
Proof.
  intros Hb. unfold copy_chunks. destruct (copychunk_request _ _ _); [|done|done].
  destruct (execute s _) as [[[status body]|e|] s1] eqn:Ex; [|done|done]. intros [= E <-].
  apply Hb in Ex. pose proof (copychunk_outcome_safe status body) as H. rewrite E in H.
  by destruct o; destruct H as [-> _].
Qed.

Lemma copy_loop_terminates {Srv} (execute : Srv → IoctlRequest → result Error (Z * bytes) * Srv)
    dest_id key budget fuel src dst length limits copied s :
  rejects_at_most execute budget →
  usable limits → 0 <= src → 0 <= dst → 0 <= copied <= length →
  src + length <= 2 ^ 64 → dst + length <= 2 ^ 64 →
  length - copied + Z.of_nat (budget s) < Z.of_nat fuel →
  is_Some (copy_loop execute dest_id key fuel src dst length limits copied s).
Proof.
  intros Hb. revert limits copied s.
  induction fuel as [|fuel IH]; intros limits copied s Hl Hs Hd Hc Hso Hdo Hf; [lia|].
  cbn [copy_loop]. destruct (copied <? length) eqn:E; bool_prop; [|by eexists].
  unfold add_u64, mbind, result_bind.
  replace (src + copied <? 2 ^ 64) with true by lia.
  replace (dst + copied <? 2 ^ 64) with true by lia.
  destruct (build_batch _ _ _ _) as [[chunks total]|e|] eqn:Eb; [|by eexists..].
  apply build_batch_wf in Eb as (_ & _ & Hlen & Htot); try done; try lia.
  replace ((len chunks =? 0) || (total =? 0)) with false by lia.
  destruct (copy_chunks _ _ _ s chunks) as [o s1] eqn:Ec.
  destruct o as [o|e|]; [|by eexists..].
  pose proof (copy_chunks_budget _ _ _ _ _ _ _ _ Hb Ec) as Hbud.
  pose proof (copy_chunks_range _ _ _ _ _ _ _ Ec) as Hr. destruct o as [r1|adv].
  - unfold in_range in Hr. case_test; bool_prop; [by eexists|]. apply IH; try done; lia.
  - case_decide; [by eexists|]. apply IH; try done; [by apply sanitized_usable|lia].
Qed.

(** ** Concrete servers *)

(** The body a server answers a copy request with. *)
Definition copychunk_body (r : SrvCopychunkResponse) : bytes :=
  match packed r with
  | Ok out => match packed (mkIoctlResponse FSCTL_SRV_COPYCHUNK (mkFileId 0 0) 0 out) with
              | Ok b => b
              | _ => []
              end
  | _ => []
  end.

Lemma parse_copychunk_body r :
  codec_wf r → parse_copychunk_response (copychunk_body r) = Ok r.
Proof.
  intros Hr. unfold copychunk_body.
  destruct (codec_round_trips r Hr) as (out & Eo & Uo & _). rewrite Eo.
  assert (len out = 12).
  { rewrite (writes_at_packed r _ (codec_pack 0 r ltac:(lia) Hr)) in Eo. injection Eo as <-.
    reflexivity. }
  set (m := mkIoctlResponse FSCTL_SRV_COPYCHUNK (mkFileId 0 0) 0 out).
  assert (codec_wf m) as Hm.
  { split; [done..|cbn; unfold MAX_UNPACK_BUFFER; lia]. }
  destruct (codec_round_trips m Hm) as (b & Eb & Ub & _). rewrite Eb.
  unfold parse_copychunk_response. rewrite Ub. cbn [ior_output_data m]. by rewrite Uo.
Qed.

(** A server that writes at most four bytes per request into a file in memory. *)
Definition toy_source (x : Z) : byte := byte_of_u8 x.

Definition toy_execute (d : Z → byte) (req : IoctlRequest) :
    result Error (Z * bytes) * (Z → byte) :=
  match unpack SrvCopychunkCopy (ReadCursor_new (ioq_input_data req)) with
  | Ok (m, _) =>
      let n := Z.max 0 (Z.min (request_len (scc_chunks m)) 4) in
      (Ok (NtStatus.SUCCESS, copychunk_body (mkSrvCopychunkResponse (len (scc_chunks m) mod 2 ^ 32) 0 n)),
       apply_chunks toy_source (scc_chunks m) n d)
  | _ => (Ok (NtStatus.ACCESS_DENIED, []), d)
  end.

Lemma request_len_pos ch : Forall (λ c, 0 < sc_length c) ch → 0 <= request_len ch.
Proof. unfold request_len. induction 1; cbn; lia. Qed.

Lemma toy_execute_faithful dest_id key :
  faithful_server toy_execute dest_id key toy_source (λ d, d).
Proof.
  split.
  - intros s req ch p s' status body r c E Hu Hpos _ _ _ Hr. unfold toy_execute in E.
    rewrite Hu in E. cbn [scc_chunks] in E. injection E as <- <- <-.
    pose proof (request_len_pos ch Hpos). set (n := Z.max 0 _) in *.
    pose proof (parse_copychunk_body (mkSrvCopychunkResponse (len ch mod 2 ^ 32) 0 n)) as Hb.
    unfold parse_copychunk_response in Hb. rewrite Hr in Hb.
    pose proof (Z.mod_pos_bound (len ch) (2 ^ 32)).
    specialize (Hb ltac:(cbn; unfold in_range; lia)).
    destruct (unpack SrvCopychunkResponse _) as [[cr c']|e|]; [|done|done].
    injection Hb as ->. cbn. split; [lia|done].
  - intros s req s' status body E Hne x. unfold toy_execute in E.
    by destruct (unpack SrvCopychunkCopy _) as [[m p]|e|]; simplify_eq.
  - intros s req s' E. unfold toy_execute in E.
    by destruct (unpack SrvCopychunkCopy _) as [[m p]|e|]; simplify_eq.
Qed.

Lemma toy_execute_patient : rejects_at_most toy_execute (λ _, 0%nat).
Proof.
  intros s req o s' E. unfold toy_execute in E.
  destruct (unpack SrvCopychunkCopy _) as [[m p]|e|]; injection E as <- <-; apply Nat.le_refl.
Qed.

(** A server that keeps changing the limits it advertises. *)
Definition alternating_limits (s : bool) : ServerSideCopyLimits :=
  if s then mkLimits 1 1 1 else mkLimits 2 2 2.

Definition alternating (s : bool) (_ : IoctlRequest) : result Error (Z * bytes) * bool :=
  let l := alternating_limits s in
  (Ok (NtStatus.INVALID_PARAMETER,
       copychunk_body (mkSrvCopychunkResponse (max_chunks l) (max_chunk_size l) (max_data_size l))),
   negb s).

Lemma copy_chunks_alternating dest_id key s chunks :
  len key = 24 → len chunks < 2 ^ 32 → Forall chunk_wf chunks →
  copy_chunks alternating dest_id key s chunks = (Ok (Rejected (alternating_limits s)), negb s).
Proof.
  intros Hk Hn Hf. unfold copy_chunks, alternating.
  destruct (copychunk_request_spec dest_id key chunks Hk Hn Hf) as (b & -> & _).
  unfold copychunk_outcome. rewrite Z.eqb_refl, parse_copychunk_body; [by destruct s|].
  destruct s; cbn; unfold in_range; lia.
Qed.

Lemma copy_loop_alternating fuel src dst length limits s dest_id key :
  len key = 24 →
  0 <= src → 0 <= dst → 0 < length → src + length <= 2 ^ 64 → dst + length <= 2 ^ 64 →
  usable limits → sanitized (alternating_limits s) ≠ limits →
  copy_loop alternating dest_id key fuel src dst length limits 0 s = None.
Proof.
  intros Hk Hs Hd Hl Hso Hdo. revert limits s. induction fuel as [|fuel IH]; intros limits s Hu Hne;
    cbn [copy_loop]; replace (0 <? length) with true by lia; [done|].
  unfold add_u64. rewrite !Z.add_0_r, Z.sub_0_r.
  replace (src <? 2 ^ 64) with true by lia. replace (dst <? 2 ^ 64) with true by lia.
  unfold mbind, result_bind.
  destruct (build_batch_spec src dst length limits) as (cs & t & E & _); try done.
  rewrite E. apply build_batch_wf in E as (_ & Hwf & Hlen & Htot); try done.
  replace ((len cs =? 0) || (t =? 0)) with false by lia.
  rewrite copy_chunks_alternating by (done || lia). rewrite decide_False by done.
  apply IH; [apply sanitized_usable|]; by destruct s.
Qed.

(** ** Properties *)

(** A batch within sanitized limits never overflows, tiles a prefix of
    the range exactly, keeps every chunk within the per-chunk limit and their
    number within the chunk limit, and is as long as limits and range allow. *)
Theorem build_batch_correct bs bd rem l :
  limits_wf l → 0 < rem → 0 <= bs → 0 <= bd → bs + rem <= 2 ^ 64 → bd + rem <= 2 ^ 64 →
  ∃ chunks total, build_batch bs bd rem (sanitized l) = Ok (chunks, total) ∧
    tiles bs bd chunks total ∧ 0 < total ∧
    Forall (λ c, 0 < cc_length c <= max_chunk_size (sanitized l)) chunks ∧
    len chunks <= max_chunks (sanitized l) ∧
    total = Z.min (Z.min rem (max_data_size (sanitized l)))
              (max_chunks (sanitized l) * max_chunk_size (sanitized l)).
Proof.
  intros Hl Hr Hbs Hbd Hs Hd. pose proof (sanitized_usable l Hl) as Hu.
  destruct (build_batch_spec bs bd rem (sanitized l)) as (cs & t & E & Ht & Hf & Hc & Htot); try done.
  exists cs, t. repeat split; try done.
  by apply build_batch_wf in E as (_ & _ & _ & [? _]).
Qed.

Lemma build_batch_correct_witness :
  ∃ chunks total, build_batch 100 0 10 (sanitized (mkLimits 3 4 0)) = Ok (chunks, total) ∧
    tiles 100 0 chunks total ∧ 0 < total ∧
    Forall (λ c, 0 < cc_length c <= max_chunk_size (sanitized (mkLimits 3 4 0))) chunks ∧
    len chunks <= max_chunks (sanitized (mkLimits 3 4 0)) ∧
    total = Z.min (Z.min 10 (max_data_size (sanitized (mkLimits 3 4 0))))
              (max_chunks (sanitized (mkLimits 3 4 0)) * max_chunk_size (sanitized (mkLimits 3 4 0))).
Proof. apply (build_batch_correct 100 0 10 (mkLimits 3 4 0)); unfold limits_wf, in_range; cbn; lia. Defined.

(** Against a server that copies what it reports, whatever batching,
    partial writes and limit renegotiations happen, a copy that succeeds
    returns exactly [length], the destination range holds exactly the source
    bytes and every other byte of the destination is unchanged; the client
    side never panics. *)
Theorem server_side_copy_correct {Srv} (execute : Srv → IoctlRequest → result Error (Z * bytes) * Srv)
    dest_id key source dest fuel src dst length s r s' :
  faithful_server execute dest_id key source dest → len key = 24 →
  0 <= src → 0 <= dst → 0 <= length → src + length <= 2 ^ 64 → dst + length <= 2 ^ 64 →
  server_side_copy_range execute dest_id key fuel src dst length s = Some (r, s') →
  r ≠ Panic ∧
  ∀ n, r = Ok n → n = length ∧
    ∀ x, dest s' x = if (dst <=? x) && (x <? dst + length) then source (src + (x - dst))
                     else dest s x.
Proof.
  intros Hsrv Hk Hs Hd Hl Hso Hdo. unfold server_side_copy_range. case_test; bool_prop.
  - subst length. intros [= <- <-]. split; [done|]. intros n [= <-]. split; [done|]. intros x.
    by replace ((_ <=? x) && _) with false by lia.
  - intros E. apply (copy_loop_correct execute dest_id key source dest Hsrv Hk) in E as [Hp Hok];
      [|by vm_compute|done|done|lia|done|done].
    split; [done|]. intros n Hn. destruct (Hok n Hn) as [-> Hx]. split; [done|].
    intros x. rewrite Hx, !Z.add_0_r, Z.sub_0_r. done.
Qed.

(** C40: against a server that stops rejecting after finitely many
    requests, the copy ends: one round per byte and per rejection is always
    enough, since every accepted round makes progress or fails. *)
Theorem server_side_copy_terminates {Srv}
    (execute : Srv → IoctlRequest → result Error (Z * bytes) * Srv) dest_id key budget src dst length s :
  rejects_at_most execute budget →
  0 <= src → 0 <= dst → 0 <= length → src + length <= 2 ^ 64 → dst + length <= 2 ^ 64 →
  is_Some (server_side_copy_range execute dest_id key (S (Z.to_nat length + budget s)) src dst length s).
Proof.
  intros Hb Hs Hd Hl Hso Hdo. unfold server_side_copy_range. case_test; [by eexists|].
  apply (copy_loop_terminates execute dest_id key budget); try done; lia.
Qed.

(** A server that alternates between two advertised limits
    keeps the loop running for ever: the guard compares with the previous
    limits only, so no number of rounds is enough. *)
Theorem server_side_copy_may_diverge dest_id key src dst length :
  len key = 24 →
  0 <= src → 0 <= dst → 0 < length → src + length <= 2 ^ 64 → dst + length <= 2 ^ 64 →
  ∀ fuel, server_side_copy_range alternating dest_id key fuel src dst length true = None.
Proof.
  intros Hk Hs Hd Hl Hso Hdo fuel. unfold server_side_copy_range.
  replace (length =? 0) with false by lia.
  apply copy_loop_alternating; [exact Hk|exact Hs|exact Hd|exact Hl|exact Hso|exact Hdo| |].
  - by vm_compute.
  - by vm_compute.
Qed.

(** Ten bytes, of which the server writes four per request: three rounds. *)
Lemma server_side_copy_correct_witness :
  ∃ s', server_side_copy_range toy_execute (mkFileId 7 7) (zeros 24) 4 100 2 10 (λ _, x00)
          = Some (Ok 10, s') ∧
  ∀ x, s' x = if (2 <=? x) && (x <? 2 + 10) then toy_source (100 + (x - 2)) else x00.
Proof.
  destruct (server_side_copy_range toy_execute _ _ 4 100 2 10 _) as [[r s']|] eqn:E.
  - assert (r = Ok 10) as ->.
    { assert (fst <$> server_side_copy_range toy_execute (mkFileId 7 7) (zeros 24) 4 100 2 10 (λ _, x00)
              = Some (Ok 10)) as H by (vm_compute; reflexivity).
      rewrite E in H. by injection H. }
    exists s'. split; [reflexivity|].
    apply (server_side_copy_correct toy_execute (mkFileId 7 7) (zeros 24) toy_source (λ d, d)
             4 100 2 10 (λ _, x00) (Ok 10) s' (toy_execute_faithful _ _) eq_refl
             ltac:(lia) ltac:(lia) ltac:(lia) ltac:(lia) ltac:(lia) E) with (n := 10).
    reflexivity.
  - exfalso. revert E. by vm_compute.
Defined.

Lemma server_side_copy_terminates_witness :
  is_Some (server_side_copy_range toy_execute (mkFileId 7 7) (zeros 24) (S (Z.to_nat 10 + 0))
             100 2 10 (λ _, x00)).
Proof.
  apply (server_side_copy_terminates toy_execute (mkFileId 7 7) (zeros 24) (λ _, 0%nat) 100 2 10
           (λ _, x00) toy_execute_patient); lia.
Defined.

Lemma server_side_copy_may_diverge_witness :
  server_side_copy_range alternating (mkFileId 7 7) (zeros 24) 50 100 2 10 true = None.
Proof.
  apply (server_side_copy_may_diverge (mkFileId 7 7) (zeros 24) 100 2 10); (reflexivity || lia).
Defined.
