(* ===== verification/Pipeline.v ===== *)
(** * Requests in flight

    What the file operations of [src/client/tree.rs] and [src/client/stream.rs]
    are written against: a connection that executes requests ([Wire]), the
    await-and-[?] style of their bodies ([io]), and the set of concurrent
    requests they keep in a [FuturesUnordered] ([next]).

    A request in flight is served by the server at some moment and its answer
    reaches the client at a later one.  Both moments are chosen by a schedule, a
    list of events consumed by every [next().await]; nothing is assumed about
    the order, so a statement for every schedule covers every interleaving.  A
    schedule that ends before an answer arrives leaves the call waiting
    ([None]), which is not the same as any result.

    A server that stores files is described by the interface [FileServer],
    what MS-SMB2 says of READ, WRITE, FLUSH and CLOSE on an open handle; the
    correctness theorems of [Tree] and [Stream] are proved against it. *)

From S2P Require Import Prelude Types Pack Codec Header FileIo Create Query Ioctl.

(** ** The connection *)

(** The requests of a file operation: a command with its body. *)
Inductive FileOp :=
| OpCreate (m : CreateRequest)
| OpRead (m : ReadRequest)
| OpWrite (m : WriteRequest)
| OpFlush (m : FlushRequest)
| OpClose (m : CloseRequest)
| OpQueryDirectory (m : QueryDirectoryRequest)
| OpQueryInfo (m : QueryInfoRequest)
| OpSetInfo (m : SetInfoRequest)
| OpIoctl (m : IoctlRequest).

(** A connection with the server behind it: [Connection::execute_with_credits],
    which gives the status and body of the response frame, [execute_compound],
    [forget_oplock], and the read, write and transact sizes of [params()]. *)
Class Wire (C : Type) := {
  transfer_sizes : C → option (Z * Z);
  transact_size : C → option Z;
  execute_with_credits : C → Z → FileOp → Z → result Error (Z * bytes) * C;
  execute_compound : C → list (Z * FileOp * Z) → result Error (list (result Error (Z * bytes))) * C;
  forget_oplock : C → FileId → C
}.

(** ** Awaiting code *)

(** [None]: still waiting when the schedule ends. *)
Definition io (W A : Type) : Type := W → option (result Error A * W).

#[global] Instance io_ret {W} : MRet (io W) := λ A a w, Some (Ok a, w).
#[global] Instance io_bind {W} : MBind (io W) := λ A B f m w,
  match m w with
  | None => None
  | Some (Ok a, w') => f a w'
  | Some (Err e, w') => Some (Err e, w')
  | Some (Panic, w') => Some (Panic, w')
  end.

Definition io_err {W A} (e : Error) : io W A := λ w, Some (Err e, w).
(** [r?] *)
Definition io_lift {W A} (r : result Error A) : io W A := λ w, Some (r, w).
(** [let r = m.await;] without a [?]: the result as a value. *)
Definition attempt {W A} (m : io W A) : io W (result Error A) := λ w,
  match m w with
  | None => None
  | Some (Panic, w') => Some (Panic, w')
  | Some (r, w') => Some (Ok r, w')
  end.

Lemma io_bind_ok {W A B} (m : io W A) (k : A → io W B) w a w' :
  m w = Some (Ok a, w') → (m ≫= k) w = k a w'.
Proof. intros E. unfold mbind, io_bind. by rewrite E. Qed.
Lemma io_bind_inv {W A B} (m : io W A) (k : A → io W B) w r w' :
  (m ≫= k) w = Some (r, w') →
  (∃ a w1, m w = Some (Ok a, w1) ∧ k a w1 = Some (r, w')) ∨
  (∃ e, m w = Some (Err e, w') ∧ r = Err e) ∨ (m w = Some (Panic, w') ∧ r = Panic).
Proof.
  unfold mbind, io_bind. destruct (m w) as [[[a|e|] w1]|]; intros E; simplify_eq; eauto 6.
Qed.

Lemma attempt_inv {W A} (m : io W A) w r w' :
  attempt m w = Some (r, w') →
  ∃ r1, m w = Some (r1, w') ∧ (r1 = Panic ∧ r = Panic ∨ r1 ≠ Panic ∧ r = Ok r1).
Proof.
  unfold attempt. destruct (m w) as [[[a|e|] w1]|]; intros E; simplify_eq; eauto 8.
Qed.

(** A step that always returns. *)
Definition prompt {W A} (m : io W A) : Prop := ∀ w, is_Some (m w).

(** [T::unpack(&mut ReadCursor::new(body))] *)
Definition unpack_body (A : Type) `{Unpack A} (body : bytes) : result Error A :=
  match unpack A (ReadCursor_new body) with
  | Ok (v, _) => Ok v
  | Err e => Err e
  | Panic => Panic
  end.

Lemma unpack_body_no_panic A `{Codec A} body : unpack_body A body ≠ Panic.
Proof.
  unfold unpack_body. pose proof (rok_start (unpack A) _ body codec_safe) as Hs.
  by destruct (unpack A _) as [[v c]|e|].
Qed.

(** The body a server answers with. *)
Definition body_of {A} `{Pack A} (m : A) : bytes := match packed m with Ok b => b | _ => [] end.

Lemma unpack_body_of A `{Codec A} (m : A) : codec_wf m → unpack_body A (body_of m) = Ok m.
Proof.
  intros Hm. destruct (codec_round_trips m Hm) as (b & Eb & Ub & _).
  unfold body_of, unpack_body. by rewrite Eb, Ub.
Qed.

(** ** The schedule *)

Inductive event :=
| Serve (i : nat)    (* the server processes the i-th request in flight *)
| Deliver (i : nat). (* the answer to the i-th request reaches the client *)

Record World (C : Type) := mkWorld { w_conn : C; w_events : list event }.
Arguments mkWorld {C}.
Arguments w_conn {C}.
Arguments w_events {C}.

(** A request in flight, with the index it was launched for and the answer once
    the server has given one. *)
Record fut := mkFut {
  f_tag : nat;
  f_tree_id : Z;
  f_op : FileOp;
  f_charge : Z;
  f_answer : option (result Error (Z * bytes))
}.

(** A request as it is pushed. *)
Definition launch (tag : nat) (tree_id : Z) (op : FileOp) (charge : Z) : fut :=
  mkFut tag tree_id op charge None.

Definition answered (f : fut) (r : result Error (Z * bytes)) : fut :=
  mkFut (f_tag f) (f_tree_id f) (f_op f) (f_charge f) (Some r).

(** [FuturesUnordered] *)
Abbreviation InFlight := (list fut).

(** A step that carries the schedule along without looking at it, and returns. *)
Definition framed {C A} (m : io (World C) A) : Prop :=
  ∀ c, ∃ r c', ∀ evs, m (mkWorld c evs) = Some (r, mkWorld c' evs).

Lemma framed_prompt {C A} (m : io (World C) A) : framed m → prompt m.
Proof. intros Hm [c evs]. destruct (Hm c) as (r & c' & E). rewrite E. by eexists. Qed.
Lemma framed_bind {C A B} (m : io (World C) A) (k : A → io (World C) B) :
  framed m → (∀ a, framed (k a)) → framed (m ≫= k).
Proof.
  intros Hm Hk c. destruct (Hm c) as (r & c1 & E). destruct r as [a|e|].
  - destruct (Hk a c1) as (r' & c' & E'). exists r', c'. intros evs. unfold mbind, io_bind. by rewrite E.
  - exists (Err e), c1. intros evs. unfold mbind, io_bind. by rewrite E.
  - exists Panic, c1. intros evs. unfold mbind, io_bind. by rewrite E.
Qed.
Lemma framed_ret {C A} (a : A) : framed (mret a : io (World C) A).
Proof. intros c. by exists (Ok a), c. Qed.
Lemma framed_err {C A} e : framed (io_err e : io (World C) A).
Proof. intros c. by exists (Err e), c. Qed.
Lemma framed_lift {C A} r : framed (io_lift r : io (World C) A).
Proof. intros c. by exists r, c. Qed.
Lemma framed_if {C A} (b : bool) (m1 m2 : io (World C) A) :
  framed m1 → framed m2 → framed (if b then m1 else m2).
Proof. by destruct b. Qed.
Lemma framed_attempt {C A} (m : io (World C) A) : framed m → framed (attempt m).
Proof.
  intros Hm c. destruct (Hm c) as (r & c' & E). destruct r as [a|e|].
  - exists (Ok (Ok a)), c'. intros evs. unfold attempt. by rewrite E.
  - exists (Ok (Err e)), c'. intros evs. unfold attempt. by rewrite E.
  - exists Panic, c'. intros evs. unfold attempt. by rewrite E.
Qed.

#[export] Hint Resolve framed_bind framed_ret framed_err framed_lift framed_if framed_attempt : smb.

Section wire.
Context {C : Type} `{Wire C}.

(** [conn.execute_with_credits(..).await] *)
Definition execute_charged (tree_id : Z) (op : FileOp) (charge : Z) : io (World C) (Z * bytes) :=
  λ w, let '(r, c) := execute_with_credits (w_conn w) tree_id op charge in
       Some (r, mkWorld c (w_events w)).

(** [conn.execute(..).await] *)
Definition execute (tree_id : Z) (op : FileOp) : io (World C) (Z * bytes) :=
  execute_charged tree_id op 1.

Definition compound (ops : list (Z * FileOp * Z)) : io (World C) (list (result Error (Z * bytes))) :=
  λ w, let '(r, c) := execute_compound (w_conn w) ops in Some (r, mkWorld c (w_events w)).

Definition forget (file_id : FileId) : io (World C) unit :=
  λ w, Some (Ok tt, mkWorld (forget_oplock (w_conn w) file_id) (w_events w)).

(** [conn.params().map(|p| p.max_read_size).unwrap_or(65536)] *)
Definition max_read_size : io (World C) Z :=
  λ w, Some (Ok (match transfer_sizes (w_conn w) with Some (r, _) => r | None => 65536 end), w).

(** [conn.params().map(|p| p.max_write_size).unwrap_or(65536)] *)
Definition max_write_size : io (World C) Z :=
  λ w, Some (Ok (match transfer_sizes (w_conn w) with Some (_, s) => s | None => 65536 end), w).

(** [conn.params().map(|p| p.max_transact_size.min(65536)).unwrap_or(65536)] *)
Definition query_buffer_len : io (World C) Z :=
  λ w, Some (Ok (match transact_size (w_conn w) with Some s => Z.min s 65536 | None => 65536 end), w).

Fixpoint wait_next (evs : list event) (q : InFlight) (c : C) :
    option (nat * result Error (Z * bytes) * InFlight * World C) :=
  match evs with
  | [] => None
  | Serve i :: evs =>
      match q !! i with
      | Some (mkFut tag tree_id op charge None as f) =>
          let '(r, c) := execute_with_credits c tree_id op charge in
          wait_next evs (<[i := answered f r]> q) c
      | _ => wait_next evs q c
      end
  | Deliver i :: evs =>
      match q !! i with
      | Some (mkFut tag _ _ _ (Some r)) => Some (tag, r, delete i q, mkWorld c evs)
      | _ => wait_next evs q c
      end
  end.

(** [in_flight.next().await]: nothing when the set is empty, else the next
    request to complete, taken out of the set. *)
Definition next (q : InFlight) : io (World C) (option (nat * result Error (Z * bytes)) * InFlight) :=
  λ w, match q with
       | [] => Some (Ok (None, []), w)
       | _ => match wait_next (w_events w) q (w_conn w) with
              | None => None
              | Some (tag, r, q', w') => Some (Ok (Some (tag, r), q'), w')
              end
       end.

(** [while in_flight.next().await.is_some() {}] *)
Fixpoint drain_rounds (n : nat) (q : InFlight) : io (World C) unit :=
  match n with
  | O => mret tt
  | S n => '(o, q) ← next q; match o with None => mret tt | Some _ => drain_rounds n q end
  end.

Definition drain (q : InFlight) : io (World C) unit := drain_rounds (length q) q.

End wire.

(** ** Servers that store files *)

(** [new] is [old] with [d] written at [off]. *)
Definition patched (old new : bytes) (off : Z) (d : bytes) : Prop :=
  len new = (if is_empty d then len old else Z.max (len old) (off + len d)) ∧
  (∀ i, 0 <= i < len d → new !! Z.to_nat (off + i) = d !! Z.to_nat i) ∧
  (∀ i, 0 <= i < len old → ¬ off <= i < off + len d → new !! Z.to_nat i = old !! Z.to_nat i).

(** What a client may rely on of the file behind an open handle: a READ that
    succeeds returns bytes that are there, from the offset asked on, at least
    one if one was asked for, and the end of the file is reported only there; a
    WRITE that succeeds has stored as many bytes as it says; nothing else changes
    a file; a CREATE reports the size, and a CLOSE that succeeds closes.  The
    negotiated sizes are those [negotiate] accepts, and executing a request ends
    in an answer or an error, never in a panic of the client. *)
Class FileServer (C : Type) `{Wire C} := {
  content : C → FileId → bytes;
  is_open : C → FileId → bool;
  fs_no_panic : ∀ c t op n c', execute_with_credits c t op n ≠ (Panic, c');
  fs_sizes : ∀ c r w, transfer_sizes c = Some (r, w) → 65536 <= r < 2 ^ 32 ∧ 65536 <= w < 2 ^ 32;
  fs_end : ∀ c t m n c' body,
    execute_with_credits c t (OpRead m) n = (Ok (NtStatus.END_OF_FILE, body), c') →
    len (content c (rdq_file_id m)) <= rdq_offset m;
  fs_read : ∀ c t m n c' body resp,
    execute_with_credits c t (OpRead m) n = (Ok (NtStatus.SUCCESS, body), c') →
    unpack_body ReadResponse body = Ok resp →
    rdr_data resp `prefix_of` drop (Z.to_nat (rdq_offset m)) (content c (rdq_file_id m)) ∧
    len (rdr_data resp) <= rdq_length m ∧ (0 < rdq_length m → rdr_data resp ≠ []);
  fs_read_keeps : ∀ c t m n f, content (execute_with_credits c t (OpRead m) n).2 f = content c f;
  fs_write : ∀ c t m n c' body resp,
    execute_with_credits c t (OpWrite m) n = (Ok (NtStatus.SUCCESS, body), c') →
    unpack_body WriteResponse body = Ok resp →
    0 <= wrr_count resp <= len (wrq_data m) ∧
    patched (content c (wrq_file_id m)) (content c' (wrq_file_id m)) (wrq_offset m)
      (take (Z.to_nat (wrr_count resp)) (wrq_data m));
  fs_flush_keeps : ∀ c t m n f, content (execute_with_credits c t (OpFlush m) n).2 f = content c f;
  fs_close_keeps : ∀ c t m n f, content (execute_with_credits c t (OpClose m) n).2 f = content c f;
  fs_forget_keeps : ∀ c g f, content (forget_oplock c g) f = content c f;
  fs_create_size : ∀ c t m n c' body resp,
    execute_with_credits c t (OpCreate m) n = (Ok (NtStatus.SUCCESS, body), c') →
    unpack_body CreateResponse body = Ok resp →
    len (content c' (crr_file_id resp)) = crr_end_of_file resp;
  fs_close_closes : ∀ c t m n c' body,
    execute_with_credits c t (OpClose m) n = (Ok (NtStatus.SUCCESS, body), c') →
    is_open c' (clq_file_id m) = false
}.

(** A server whose successful READs are never cut short of what is there. *)
Class FullReads (C : Type) `{FileServer C} :=
  fs_full : ∀ c t m n c' body resp,
    execute_with_credits c t (OpRead m) n = (Ok (NtStatus.SUCCESS, body), c') →
    unpack_body ReadResponse body = Ok resp →
    rdr_data resp = take (Z.to_nat (rdq_length m))
                      (drop (Z.to_nat (rdq_offset m)) (content c (rdq_file_id m))).

(** ** What a completed wait tells *)

Section waiting.
Context {C : Type} `{Wire C}.

(** Whatever is preserved when the server answers a request in flight holds
    when [next] returns, of the requests as they were before the delivered
    one was taken out. *)
Lemma wait_next_spec (J : C → InFlight → Prop) evs q c tag r q' w' :
  (∀ c q i f r c', J c q → q !! i = Some f → f_answer f = None →
     execute_with_credits c (f_tree_id f) (f_op f) (f_charge f) = (r, c') →
     J c' (<[i := answered f r]> q)) →
  J c q → wait_next evs q c = Some (tag, r, q', w') →
  ∃ q1 i f, J (w_conn w') q1 ∧ q1 !! i = Some f ∧ f_tag f = tag ∧ f_answer f = Some r ∧
            q' = delete i q1 ∧ length q1 = length q ∧ map f_tag q1 = map f_tag q ∧
            map f_op q1 = map f_op q.
Proof.
  intros HJ. revert q c. induction evs as [|[i|i] evs IH]; intros q c Hq; cbn [wait_next]; [done|..].
  - destruct (q !! i) as [[tg t op ch [a|]]|] eqn:E; try by apply IH.
    destruct (execute_with_credits c t op ch) as [r1 c1] eqn:Ex. intros Hw.
    apply IH in Hw as (q1 & j & f & ? & ? & ? & ? & ? & Hl & Ht & Ho); [|by eapply HJ; [..|exact Ex]].
    exists q1, j, f. rewrite Hl, Ht, Ho, length_insert, !list_fmap_insert.
    split_and!; try done; apply list_insert_id; by rewrite list_lookup_fmap, E.
  - destruct (q !! i) as [[tg t op ch [a|]]|] eqn:E; try by apply IH.
    intros [= <- <- <- <-]. cbn. by exists q, i, (mkFut tg t op ch (Some a)).
Qed.

Lemma next_spec (J : C → InFlight → Prop) q w r w' :
  (∀ c q i f r c', J c q → q !! i = Some f → f_answer f = None →
     execute_with_credits c (f_tree_id f) (f_op f) (f_charge f) = (r, c') →
     J c' (<[i := answered f r]> q)) →
  J (w_conn w) q → next q w = Some (r, w') →
  match r with
  | Ok (None, q') => q = [] ∧ q' = [] ∧ w' = w
  | Ok (Some (tag, a), q') =>
      ∃ q1 i f, J (w_conn w') q1 ∧ q1 !! i = Some f ∧ f_tag f = tag ∧ f_answer f = Some a ∧
                q' = delete i q1 ∧ length q1 = length q ∧ map f_tag q1 = map f_tag q ∧
                map f_op q1 = map f_op q
  | _ => False
  end.
Proof.
  intros HJ Hq. unfold next. destruct q as [|f q]; [by intros [= <- <-]|].
  destruct (wait_next _ _ _) as [[[[tag a] q1] w1]|] eqn:E; [|done].
  intros [= <- <-]. by eapply wait_next_spec.
Qed.

(** [n] rounds in which the oldest request is served and delivered. *)
Fixpoint service (n : nat) : list event :=
  match n with O => [] | S n => Serve 0 :: Deliver 0 :: service n end.

(** A wait with a round left returns, and consumes at most that round. *)
Lemma wait_next_returns evs n f q c :
  ∃ tag r q' c' evs' n', wait_next (evs ++ service (S n)) (f :: q) c
    = Some (tag, r, q', mkWorld c' (evs' ++ service n')) ∧ (n <= n')%nat ∧ length q' = length q.
Proof.
  revert f q c. induction evs as [|[i|i] evs IH]; intros f q c.
  - destruct f as [tg t op ch [a|]]; cbn.
    + exists tg, a, q, c, [], n. done.
    + destruct (execute_with_credits c t op ch) as [r c1]. cbn. by exists tg, r, q, c1, [], n.
  - cbn [app wait_next]. destruct ((f :: q) !! i) as [[tg t op ch [a|]]|] eqn:E; try apply IH.
    destruct (execute_with_credits c t op ch) as [r c1].
    destruct (<[i:=_]> (f :: q)) as [|f' q'] eqn:Ei.
    { apply (f_equal length) in Ei. by rewrite length_insert in Ei. }
    destruct (IH f' q' c1) as (? & ? & ? & ? & ? & n' & E2 & Hn & Hl). rewrite E2.
    do 6 eexists. split; [done|]. split; [done|]. rewrite Hl.
    apply (f_equal length) in Ei. rewrite length_insert in Ei. cbn in Ei. lia.
  - cbn [app wait_next]. destruct ((f :: q) !! i) as [[tg t op ch [a|]]|] eqn:E; try apply IH.
    exists tg, a, (delete i (f :: q)), c, evs, (S n). split; [done|]. split; [lia|].
    rewrite length_delete by (by eexists). cbn. lia.
Qed.

(** Draining only waits. *)
Lemma drain_ok q w r w' : drain q w = Some (r, w') → r = Ok tt.
Proof.
  unfold drain. generalize (length q) as n. intros n. revert q w.
  induction n as [|n IH]; intros q w; cbn [drain_rounds]; [by intros [= <-]|].
  intros [([o q'] & w1 & _ & Ek)|[(e & E & _)|[E _]]]%io_bind_inv.
  - destruct o; [by eapply IH|]. by injection Ek as <- <-.
  - unfold next in E. destruct q; [done|]. by destruct (wait_next _ _ _) as [[[[]]]|].
  - unfold next in E. destruct q; [done|]. by destruct (wait_next _ _ _) as [[[[]]]|].
Qed.

(** Every wait consumes an event. *)
Lemma wait_next_consumes evs q c tag r q' w' :
  wait_next evs q c = Some (tag, r, q', w') → (length (w_events w') < length evs)%nat.
Proof.
  revert q c. induction evs as [|[i|i] evs IH]; intros q c; cbn [wait_next length]; [done|..];
    destruct (q !! i) as [[tg t op ch [a|]]|]; try (intros E%IH; lia).
  - destruct (execute_with_credits _ _ _ _). intros E%IH. lia.
  - intros [= <- <- <- <-]. cbn. lia.
Qed.

Lemma next_consumes q w o q' w' :
  next q w = Some (Ok (Some o, q'), w') → (length (w_events w') < length (w_events w))%nat.
Proof.
  unfold next. destruct q; [done|]. destruct (wait_next _ _ _) as [[[[tag r] q1] w1]|] eqn:E; [|done].
  intros [= <- <- <-]. by apply wait_next_consumes in E.
Qed.

Lemma next_returns q c evs n :
  (q ≠ [] → (0 < n)%nat) →
  ∃ o q' c' evs' n', next q (mkWorld c (evs ++ service n)) = Some (Ok (o, q'), mkWorld c' (evs' ++ service n'))
    ∧ (n <= S n')%nat ∧ (o = None → q = []) ∧ (q = [] → (n <= n')%nat) ∧ length q' = pred (length q).
Proof.
  intros Hn. destruct q as [|f q]; cbn [next].
  - exists None, [], c, evs, n. split_and!; by try lia.
  - destruct n as [|n]; [specialize (Hn ltac:(done)); lia|]. cbn [w_events w_conn].
    destruct (wait_next_returns evs n f q c) as (tag & r & q' & c' & evs' & n' & -> & Hn' & Hl).
    exists (Some (tag, r)), q', c', evs', n'. split; [done|]. split_and!; [lia|done..].
Qed.

Lemma drain_returns q c evs k :
  (length q <= k)%nat → is_Some (drain q (mkWorld c (evs ++ service k))).
Proof.
  unfold drain. remember (length q) as n eqn:En. revert q En c evs k.
  induction n as [|n IH]; intros q En c evs k Hk; [by eexists|].
  cbn [drain_rounds]. unfold mbind at 1, io_bind at 1.
  destruct (next_returns q c evs k ltac:(lia)) as (o & q' & c' & evs' & k' & -> & Hk' & _ & _ & Hl).
  destruct o as [[tag fr]|]; [|by eexists]. apply IH; lia.
Qed.

End waiting.
