(* ===== verification/Exec.v ===== *)
(** * Sequential exchanges with a server

    What client code that sends one request at a time sees of a connection:
    [Connection::execute] hands over a packed body and gives a response frame or
    an error, and [execute_compound] does so for several bodies at once.  A
    [Dialog] records what was sent and holds what the server, or the connection in
    its place, will answer; quantifying over the answers quantifies over every
    server.  An exhausted list of answers is a connection that has gone away. *)

From S2P Require Import Prelude Types Pack Codec Header Connection Pipeline.

(** A request as [execute] takes it: command, packed body, tree id. *)
Record request := mkRequest { rq_command : Command; rq_body : bytes; rq_tree : option Z }.

Inductive exchange := SentOne (r : request) | SentCompound (rs : list request).

Inductive reply := Reply (f : Frame) | Failure (e : Error).

Definition of_reply (r : reply) : result Error Frame :=
  match r with Reply f => Ok f | Failure e => Err e end.

(** The answer to a compound: an error before anything came back, or one reply
    per operation. *)
Definition compound_reply : Type := Error + list reply.

Record Dialog := mkDialog {
  dl_server_name : list Z;
  dl_dfs_trees : gset Z;
  dl_sent : list exchange;
  dl_answers : list reply;
  dl_compound_answers : list compound_reply
}.

Definition dl_record (x : exchange) (d : Dialog) : Dialog :=
  mkDialog (dl_server_name d) (dl_dfs_trees d) (dl_sent d ++ [x]) (dl_answers d) (dl_compound_answers d).
Definition dl_answered (d : Dialog) : Dialog :=
  mkDialog (dl_server_name d) (dl_dfs_trees d) (dl_sent d) (tail (dl_answers d)) (dl_compound_answers d).
Definition dl_compound_answered (d : Dialog) : Dialog :=
  mkDialog (dl_server_name d) (dl_dfs_trees d) (dl_sent d) (dl_answers d) (tail (dl_compound_answers d)).
Definition dl_set_dfs (f : gset Z → gset Z) (d : Dialog) : Dialog :=
  mkDialog (dl_server_name d) (f (dl_dfs_trees d)) (dl_sent d) (dl_answers d) (dl_compound_answers d).

Definition server_name : io Dialog (list Z) := λ d, Some (Ok (dl_server_name d), d).

(** [conn.execute(command, &body, tree_id).await] with a packed body. *)
Definition execute_raw (cmd : Command) (body : bytes) (tree : option Z) : io Dialog Frame := λ d,
  let d := dl_record (SentOne (mkRequest cmd body tree)) d in
  match dl_answers d with
  | [] => Some (Err Disconnected, d)
  | r :: _ => Some (of_reply r, dl_answered d)
  end.

Definition execute_msg {A} `{Pack A} (cmd : Command) (m : A) (tree : option Z) : io Dialog Frame :=
  body ← io_lift (packed m); execute_raw cmd body tree.

(** A frame of the wrong status becomes [Error::Protocol]. *)
Definition expect_success (cmd : Command) (f : Frame) : io Dialog unit :=
  if negb (status (fr_header f) =? NtStatus.SUCCESS)
  then io_err (Protocol (status (fr_header f)) cmd) else mret tt.

(** ** Packing and parsing *)

(** Most messages pack whatever their fields hold. *)
Definition packs {A} `{Pack A} (m : A) : Prop := ∃ bs, packed m = Ok bs.

Lemma codec_packs {A} `{Codec A} (m : A) : codec_wf m → packs m.
Proof. intros Hm. destruct (codec_round_trips m Hm) as (bs & E & _). by exists bs. Qed.
Lemma packs_by {A} `{Pack A} (m : A) bs : writes_at 0 (pack m) bs → packs m.
Proof. intros Hw. exists bs. by apply writes_at_packed. Qed.
(** Packing a body that is a sequence of primitive writes. *)
Ltac packs_tac := eapply packs_by; unfold writes_at, pack; wsteps; cbv zeta; wsteps; wprim.

(** ** What a step sends *)

(** What [execute_raw] sends. *)
Lemma execute_raw_sent cmd body tree d r d' :
  execute_raw cmd body tree d = Some (r, d') →
  dl_sent d' = dl_sent d ++ [SentOne (mkRequest cmd body tree)].
Proof.
  unfold execute_raw. destruct (dl_answers _); intros [= <- <-]; done.
Qed.

Lemma execute_raw_returns cmd body tree d :
  ∃ r d', execute_raw cmd body tree d = Some (r, d') ∧ r ≠ Panic.
Proof.
  unfold execute_raw. destruct (dl_answers _) as [|[f|e] rs]; eexists _, _; by split.
Qed.

(** A step that sends exactly one request, with this command and tree. *)
Definition sends_one {A} (cmd : Command) (tree : option Z) (m : io Dialog A) : Prop :=
  ∀ d, ∃ r d' body, m d = Some (r, d') ∧ r ≠ Panic ∧
    dl_sent d' = dl_sent d ++ [SentOne (mkRequest cmd body tree)].

(** A step that sends nothing. *)
Definition quiet {A} (m : io Dialog A) : Prop :=
  ∀ d, ∃ r d', m d = Some (r, d') ∧ r ≠ Panic ∧ dl_sent d' = dl_sent d.

Lemma sends_one_bind {A B} cmd tree (m : io Dialog A) (k : A → io Dialog B) :
  sends_one cmd tree m → (∀ a, quiet (k a)) → sends_one cmd tree (m ≫= k).
Proof.
  intros Hm Hk d. destruct (Hm d) as (r & d1 & body & E & Hr & Hs).
  unfold mbind, io_bind. rewrite E. destruct r as [a|e|]; [|by exists (Err e), d1, body|done].
  destruct (Hk a d1) as (r & d2 & E2 & Hr2 & Hs2). exists r, d2, body. by rewrite Hs2, Hs.
Qed.
Lemma quiet_bind {A B} (m : io Dialog A) (k : A → io Dialog B) :
  quiet m → (∀ a, quiet (k a)) → quiet (m ≫= k).
Proof.
  intros Hm Hk d. destruct (Hm d) as (r & d1 & E & Hr & Hs).
  unfold mbind, io_bind. rewrite E. destruct r as [a|e|]; [|by exists (Err e), d1|done].
  destruct (Hk a d1) as (r & d2 & E2 & Hr2 & Hs2). exists r, d2. by rewrite Hs2, Hs.
Qed.
Lemma quiet_before {A B} cmd tree (m : io Dialog A) (k : A → io Dialog B) :
  (∀ d, ∃ a, m d = Some (Ok a, d)) → (∀ a, sends_one cmd tree (k a)) → sends_one cmd tree (m ≫= k).
Proof. intros Hm Hk d. destruct (Hm d) as [a E]. unfold mbind, io_bind. rewrite E. apply Hk. Qed.
Lemma quiet_lift {A} (r : result Error A) : r ≠ Panic → quiet (io_lift r).
Proof. intros Hr d. by exists r, d. Qed.
Lemma quiet_err {A} e : quiet (io_err e : io Dialog A).
Proof. intros d. by exists (Err e), d. Qed.
Lemma quiet_ret {A} (a : A) : quiet (mret a : io Dialog A).
Proof. intros d. by exists (Ok a), d. Qed.
Lemma quiet_if {A} (b : bool) (m1 m2 : io Dialog A) : quiet m1 → quiet m2 → quiet (if b then m1 else m2).
Proof. by destruct b. Qed.
Lemma quiet_expect cmd f : quiet (expect_success cmd f).
Proof. unfold expect_success. apply quiet_if; [apply quiet_err|apply quiet_ret]. Qed.
Lemma quiet_unpack A `{Codec A} body : quiet (io_lift (unpack_body A body)).
Proof. apply quiet_lift. exact (unpack_body_no_panic A body). Qed.
Lemma sends_execute {A} `{Pack A} cmd (m : A) tree : packs m → sends_one cmd tree (execute_msg cmd m tree).
Proof.
  intros [bs E] d. unfold execute_msg. rewrite E. unfold mbind, io_bind, io_lift.
  destruct (execute_raw_returns cmd bs tree d) as (r & d' & Er & Hr).
  exists r, d', bs. split; [done|]. split; [done|]. by eapply execute_raw_sent.
Qed.
#[export] Hint Resolve sends_one_bind quiet_bind quiet_err quiet_ret quiet_if quiet_expect sends_execute : smb.
#[export] Hint Extern 2 (quiet (io_lift (unpack_body ?A ?b))) => exact (quiet_unpack A b) : smb.

