(* ===== verification/Setup.v ===== *)
(** * Negotiation and session setup

    Models [Connection::negotiate] of [src/client/connection.rs] and
    [src/client/session.rs]: the NEGOTIATE exchange and what it records, the
    SESSION_SETUP rounds with NTLM and with Kerberos, the preauthentication hash over
    the messages, the derived keys and the activation of signing and encryption.

    The connection is the part of its state these exchanges touch, with the requests
    that left, as packed and before they are signed or encrypted, and the answers to
    come.  An answer comes with the message id and the credits the connection chose
    for the request it answers.  Random values, the Kerberos authenticator and its
    exchange with the KDC are parameters. *)

From S2P Require Import Prelude Types Pack Codec Header Signing Kdf Ntlm Spnego Transform Compound Session Negotiate Connection Request Pipeline Exec.

Module Capabilities.
Definition DFS : Z := 0x00000001.
Definition LEASING : Z := 0x00000002.
Definition LARGE_MTU : Z := 0x00000004.
End Capabilities.

Record NegotiatedParams := mkNegotiatedParams {
  np_dialect : Dialect;
  np_max_read_size : Z;
  np_max_write_size : Z;
  np_max_transact_size : Z;
  np_server_guid : Guid;
  np_signing_required : bool;
  np_capabilities : Z;
  np_gmac_negotiated : bool;
  np_cipher : option Cipher;
  np_compression_supported : bool
}.

(** [Session] of [session.rs]. *)
Record Session := mkSession {
  se_session_id : Z;
  se_signing_key : bytes;
  se_encryption_key : option bytes;
  se_decryption_key : option bytes;
  se_signing_algorithm : SigningAlgorithm;
  se_should_sign : bool;
  se_should_encrypt : bool
}.

(** The connection, as these exchanges see it. *)
Record Setup := mkSetup {
  su_params : option NegotiatedParams;
  su_hasher : PreauthHasher;
  su_crypto : CryptoState;
  su_previous_session_id : Z;
  su_session : option Session;
  su_compression_requested : bool;
  su_compression_enabled : bool;
  su_sent : list bytes;
  su_answers : list (Z * Z * reply)
}.

Definition su_set_params (p : NegotiatedParams) (compression : bool) (s : Setup) : Setup :=
  mkSetup (Some p) (su_hasher s) (su_crypto s) (su_previous_session_id s) (su_session s)
    (su_compression_requested s) compression (su_sent s) (su_answers s).
Definition su_set_hasher (f : PreauthHasher → PreauthHasher) (s : Setup) : Setup :=
  mkSetup (su_params s) (f (su_hasher s)) (su_crypto s) (su_previous_session_id s) (su_session s)
    (su_compression_requested s) (su_compression_enabled s) (su_sent s) (su_answers s).
Definition su_set_crypto (f : CryptoState → CryptoState) (s : Setup) : Setup :=
  mkSetup (su_params s) (su_hasher s) (f (su_crypto s)) (su_previous_session_id s) (su_session s)
    (su_compression_requested s) (su_compression_enabled s) (su_sent s) (su_answers s).
Definition su_exchange (raw : bytes) (s : Setup) : Setup :=
  mkSetup (su_params s) (su_hasher s) (su_crypto s) (su_previous_session_id s) (su_session s)
    (su_compression_requested s) (su_compression_enabled s) (su_sent s ++ [raw]) (tail (su_answers s)).

Definition get {A} (f : Setup → A) : io Setup A := λ s, Some (Ok (f s), s).
Definition modify (f : Setup → Setup) : io Setup unit := λ s, Some (Ok tt, f s).

(** [adopt_session] *)
Definition adopt_session (session : Session) : io Setup unit := modify (λ s,
  mkSetup (su_params s) (su_hasher s) (su_crypto s) 0 (Some session)
    (su_compression_requested s) (su_compression_enabled s) (su_sent s) (su_answers s)).

Definition with_session_id (c : CryptoState) (id : Z) : CryptoState :=
  mkCryptoState (cs_signing_key c) (cs_signing_algorithm c) (cs_should_sign c) (cs_encryption_key c)
    (cs_decryption_key c) (cs_encryption_cipher c) (cs_should_encrypt c) (cs_nonce_gen c) id.
Definition set_session_id (id : Z) : io Setup unit := modify (su_set_crypto (λ c, with_session_id c id)).

(** Put [raw] on the wire and wait for the response. *)
Definition exchange_raw (raw : bytes) : io Setup Frame := λ s,
  match su_answers s with
  | [] => Some (Err Disconnected, su_exchange raw s)
  | (_, r) :: _ => Some (of_reply r, su_exchange raw s)
  end.

(** The header [execute_capturing_request] builds for a request on no tree. *)
Definition setup_header (cmd : Command) (msg_id asked : Z) (c : CryptoState) : Header :=
  let h := Header_new_request cmd in
  mkHeader 1 (status h) cmd asked
    (if cs_should_sign c && negb (cs_should_encrypt c) then HeaderFlags.set_signed 0 else 0)
    (next_command h) msg_id (tree_id h) (async_id h) (cs_session_id c) (signature h).

(** [execute_capturing_request]: the response, with the request as it was packed. *)
Definition execute_capturing_request {A} `{Pack A} (cmd : Command) (m : A) : io Setup (Frame * bytes) :=
  '(msg_id, asked) ← get (λ s, match su_answers s with (id, n, _) :: _ => (id, n) | [] => (0, 0) end);
  c ← get su_crypto;
  captured ← io_lift (pack_message (setup_header cmd msg_id asked c) (pack m));
  frame ← exchange_raw captured;
  mret (frame, captured).

(** ** Negotiation *)

(** What the contexts of the response settle, one at a time. *)
Record Settled := mkSettled { st_gmac : bool; st_cipher : option Cipher; st_compression : bool }.

Definition cipher_of_id (c : Z) : option Cipher :=
  if c =? CIPHER_AES_128_CCM then Some Aes128Ccm
  else if c =? CIPHER_AES_128_GCM then Some Aes128Gcm
  else if c =? CIPHER_AES_256_CCM then Some Aes256Ccm
  else if c =? CIPHER_AES_256_GCM then Some Aes256Gcm else None.

Definition settle (s : Settled) (ctx : NegotiateContext) : Settled :=
  match ctx with
  | Negotiate.Signing algorithms =>
      if bool_decide (SIGNING_AES_GMAC ∈ algorithms) then mkSettled true (st_cipher s) (st_compression s) else s
  | Encryption ciphers =>
      match ciphers with
      | c :: _ => mkSettled (st_gmac s) (cipher_of_id c) (st_compression s)
      | [] => s
      end
  | Compression _ algorithms =>
      if bool_decide (COMPRESSION_LZ4 ∈ algorithms) then mkSettled (st_gmac s) (st_cipher s) true else s
  | _ => s
  end.

Definition negotiate_request (client_guid : Guid) (salt : bytes) (compression : bool) : NegotiateRequest :=
  mkNegotiateRequest SecurityMode.SIGNING_ENABLED
    (Z.lor (Z.lor Capabilities.DFS Capabilities.LEASING) Capabilities.LARGE_MTU)
    client_guid Dialect_ALL
    ([PreauthIntegrity [HASH_ALGORITHM_SHA512] salt;
      Encryption [CIPHER_AES_128_GCM; CIPHER_AES_128_CCM; CIPHER_AES_256_GCM; CIPHER_AES_256_CCM];
      Negotiate.Signing [SIGNING_AES_GMAC; SIGNING_AES_CMAC; SIGNING_HMAC_SHA256]]
     ++ if compression then [Compression 0 [COMPRESSION_LZ4]] else []).

(** The header of the request: a fresh one with message id and credits set. *)
Definition negotiate_header (msg_id : Z) : Header :=
  let h := Header_new_request Types.Negotiate in
  mkHeader (credit_charge h) (status h) (command h) 1 (flags h) (next_command h) msg_id
    (tree_id h) (async_id h) (session_id h) (signature h).

(** The checks on the response, and the parameters it settles. *)
Definition negotiated (resp : NegotiateResponse) : result Error NegotiatedParams :=
  if negb (bool_decide (nr_dialect_revision resp ∈ Dialect_ALL))
  then Err (invalid_data "server selected dialect 0x{:04X} which we did not offer") else
  if nr_max_read_size resp <? 65536 then Err (invalid_data "MaxReadSize {} is below minimum 65536") else
  if nr_max_write_size resp <? 65536 then Err (invalid_data "MaxWriteSize {} is below minimum 65536") else
  let s := fold_left settle (nr_negotiate_contexts resp) (mkSettled false None false) in
  Ok (mkNegotiatedParams (nr_dialect_revision resp) (nr_max_read_size resp) (nr_max_write_size resp)
        (nr_max_transact_size resp) (nr_server_guid resp)
        (SecurityMode.signing_required (nr_security_mode resp)) (nr_capabilities resp)
        (st_gmac s) (st_cipher s) (st_compression s)).

Section exchanges.
Context `{MacPrimitives, Sha512, NtlmPrimitives} (to_uppercase : list Z → list Z).

Definition hash_message (m : bytes) : io Setup unit := modify (su_set_hasher (PreauthHasher_update m)).

Definition connection_negotiate (client_guid : Guid) (salt : bytes) : io Setup unit :=
  compression ← get su_compression_requested;
  msg_id ← get (λ s, match su_answers s with (id, _, _) :: _ => id | [] => 0 end);
  req_bytes ← io_lift (pack_message (negotiate_header msg_id)
                         (pack (negotiate_request client_guid salt compression)));
  hash_message req_bytes ;;
  frame ← exchange_raw req_bytes;
  hash_message (fr_raw frame) ;;
  if negb (HeaderFlags.is_response (flags (fr_header frame)))
  then io_err (invalid_data "expected a response but got a request") else
  if negb (bool_decide (command (fr_header frame) = Types.Negotiate))
  then io_err (invalid_data "expected Negotiate response, got {:?}") else
  if negb (status (fr_header frame) =? NtStatus.SUCCESS)
  then io_err (Protocol (status (fr_header frame)) Types.Negotiate) else
  resp ← io_lift (unpack_body NegotiateResponse (fr_body frame));
  params ← io_lift (negotiated resp);
  modify (su_set_params params (compression && np_compression_supported params)).

(** ** Keys and activation, shared by both kinds of authentication *)

Definition session_keys (params : NegotiatedParams) (hasher : PreauthHasher) (session_key : bytes) :
    result Error (bytes * option bytes * option bytes) :=
  match np_dialect params with
  | Smb3_0 | Smb3_0_2 =>
      keys ← derive_session_keys session_key (np_dialect params) None 128;
      Ok (signing_key keys, Some (encryption_key keys), Some (decryption_key keys))
  | Smb3_1_1 =>
      let key_len_bits := match np_cipher params with
                          | Some Aes256Ccm | Some Aes256Gcm => 256
                          | _ => 128
                          end in
      keys ← derive_session_keys session_key Smb3_1_1 (Some (PreauthHasher_value hasher)) key_len_bits;
      Ok (signing_key keys, Some (encryption_key keys), Some (decryption_key keys))
  | _ => Ok (session_key, None, None)
  end.

(** From the session key to the session: derive, activate, publish. *)
Definition establish (params : NegotiatedParams) (hasher : PreauthHasher) (session_id session_flags : Z)
    (session_key : bytes) : io Setup Session :=
  let signing_algorithm := algorithm_for_dialect (np_dialect params) (np_gmac_negotiated params) in
  '(signing_key, encryption_key, decryption_key) ← io_lift (session_keys params hasher session_key);
  let should_sign := np_signing_required params
    || (negb (SessionFlags.is_guest session_flags) && negb (SessionFlags.is_null session_flags)) in
  let should_encrypt := SessionFlags.encrypt_data session_flags in
  (if should_sign then modify (su_set_crypto (activate_signing signing_key signing_algorithm)) else mret tt) ;;
  (if should_encrypt then
     let cipher := match np_cipher params with Some c => c | None => Aes128Ccm end in
     match encryption_key, decryption_key with
     | Some enc_key, Some dec_key => modify (su_set_crypto (activate_encryption enc_key dec_key cipher))
     | _, _ => mret tt
     end
   else mret tt) ;;
  let session := mkSession session_id signing_key encryption_key decryption_key signing_algorithm
                   should_sign should_encrypt in
  adopt_session session ;;
  mret session.

Definition setup_request (previous_session_id : Z) (security_buffer : bytes) : SessionSetupRequest :=
  mkSessionSetupRequest 0 SecurityMode.SIGNING_ENABLED 0 0 previous_session_id security_buffer.

Definition require_params : io Setup NegotiatedParams :=
  p ← get su_params;
  match p with
  | Some p => mret p
  | None => io_err (invalid_data "negotiate must complete before session setup")
  end.

(** ** NTLM *)

Definition setup (e : Entropy) (username password domain : list Z) : io Setup Session :=
  params ← require_params;
  let auth := NtlmAuthenticator_new (mkNtlmCredentials username password domain) in
  session_hasher ← get su_hasher;
  let '(type1_bytes, auth) := Ntlm.negotiate auth in
  previous ← get su_previous_session_id;
  '(frame1, req1_raw) ← execute_capturing_request SessionSetup (setup_request previous type1_bytes);
  let session_hasher := PreauthHasher_update req1_raw session_hasher in
  let session_hasher := PreauthHasher_update (fr_raw frame1) session_hasher in
  if negb (bool_decide (command (fr_header frame1) = SessionSetup))
  then io_err (invalid_data "expected SessionSetup response, got {:?}") else
  if negb (NtStatus.is_more_processing_required (status (fr_header frame1)))
  then (if NtStatus.is_error (status (fr_header frame1))
        then io_err (Protocol (status (fr_header frame1)) SessionSetup)
        else io_err (invalid_data "expected STATUS_MORE_PROCESSING_REQUIRED, got success on first round")) else
  set_session_id (session_id (fr_header frame1)) ;;
  setup_resp1 ← io_lift (unpack_body SessionSetupResponse (fr_body frame1));
  let '(type3, auth) := authenticate to_uppercase e auth (ssr_security_buffer setup_resp1) in
  type3_bytes ← io_lift type3;
  previous ← get su_previous_session_id;
  '(frame2, req2_raw) ← execute_capturing_request SessionSetup (setup_request previous type3_bytes);
  let session_hasher := PreauthHasher_update req2_raw session_hasher in
  if negb (bool_decide (command (fr_header frame2) = SessionSetup))
  then io_err (invalid_data "expected SessionSetup response, got {:?}") else
  if negb (status (fr_header frame2) =? NtStatus.SUCCESS)
  then io_err (Protocol (status (fr_header frame2)) SessionSetup) else
  setup_resp2 ← io_lift (unpack_body SessionSetupResponse (fr_body frame2));
  let sid := session_id (fr_header frame2) in
  set_session_id sid ;;
  match Ntlm.session_key auth with
  | None => io_err (Auth "NTLM did not produce a session key")
  | Some session_key => establish params session_hasher sid (ssr_session_flags setup_resp2) session_key
  end.

(** ** Kerberos *)

(** The authenticator after its exchange with the KDC. *)
Class KerberosAuthenticator (K : Type) := {
  krb_token : K → option bytes;
  krb_process_mutual_auth_token : bytes → K → result Error unit * K;
  krb_session_key : K → option bytes
}.

Definition setup_kerberos_with_auth {K} `{KerberosAuthenticator K} (auth : K) : io Setup Session :=
  params ← require_params;
  match krb_token auth with
  | None => io_err (Auth "Kerberos authentication produced no token")
  | Some token =>
      session_hasher ← get su_hasher;
      previous ← get su_previous_session_id;
      '(frame, req_raw) ← execute_capturing_request SessionSetup (setup_request previous token);
      let session_hasher := PreauthHasher_update req_raw session_hasher in
      if negb (bool_decide (command (fr_header frame) = SessionSetup))
      then io_err (invalid_data "expected SessionSetup response, got {:?}") else
      if negb (status (fr_header frame) =? NtStatus.SUCCESS)
         && negb (NtStatus.is_more_processing_required (status (fr_header frame)))
      then io_err (Protocol (status (fr_header frame)) SessionSetup) else
      let sid := session_id (fr_header frame) in
      set_session_id sid ;;
      setup_resp ← io_lift (unpack_body SessionSetupResponse (fr_body frame));
      let session_hasher :=
        if NtStatus.is_more_processing_required (status (fr_header frame))
        then PreauthHasher_update (fr_raw frame) session_hasher else session_hasher in
      auth ← (if is_empty (ssr_security_buffer setup_resp) then mret auth
              else
                spnego_resp ← io_lift (parse_neg_token_resp (ssr_security_buffer setup_resp));
                match response_token spnego_resp with
                | None => mret auth
                | Some token_bytes =>
                    let '(r, auth) := krb_process_mutual_auth_token token_bytes auth in
                    io_lift r ;; mret auth
                end);
      match krb_session_key auth with
      | None => io_err (Auth "Kerberos authentication produced no session key")
      | Some full_key =>
          let session_key := if len full_key >? 16 then take 16 full_key else full_key in
          establish params session_hasher sid (ssr_session_flags setup_resp) session_key
      end
  end.

End exchanges.

(** ** Requests on the wire *)

Definition setup_body (previous : Z) (token : bytes) : bytes :=
  to_le 2 25 ++ [byte_of_u8 0] ++ [byte_of_u8 1] ++ to_le 4 0 ++ to_le 4 0 ++ to_le 2 88
  ++ to_le 2 (trunc 16 (len token)) ++ to_le 8 previous ++ token.

Lemma setup_request_writes p previous token :
  writes_at p (pack (setup_request previous token)) (setup_body previous token).
Proof.
  unfold writes_at, pack, SessionSetupRequest_pack, setup_request, setup_body.
  cbn [ssq_flags ssq_security_mode ssq_capabilities ssq_channel ssq_previous_session_id ssq_security_buffer].
  rewrite (trunc_small 8) by done. wsteps. cbv zeta. wsteps. wdone.
Qed.

Definition setup_raw (msg_id asked : Z) (c : CryptoState) (previous : Z) (token : bytes) : bytes :=
  Header_layout (setup_header SessionSetup msg_id asked c) ++ setup_body previous token.

Lemma setup_header_len cmd msg_id asked c : len (Header_layout (setup_header cmd msg_id asked c)) = 64.
Proof.
  unfold Header_layout. set (b := HeaderFlags.is_async _). destruct b; autorewrite with len; done.
Qed.

Lemma setup_packs msg_id asked c previous token :
  pack_message (setup_header SessionSetup msg_id asked c) (pack (setup_request previous token))
  = Ok (setup_raw msg_id asked c previous token).
Proof.
  unfold pack_message. set (h := setup_header _ _ _ _).
  assert (wtriple 0 [] (pack h ;; pack (setup_request previous token))
            (Header_layout h ++ setup_body previous token) tt) as Ht.
  { eapply w_bind; [apply Header_pack_layout|]. apply writes_at_wtriple. apply setup_request_writes. }
  specialize (Ht [] eq_refl). cbn [app] in Ht. unfold WriteCursor_new. by rewrite Ht.
Qed.

(** What a server reads in a request that left. *)
Lemma setup_raw_read msg_id asked c previous token :
  is_u64 previous → is_u16 (len token) →
  unpack_body SessionSetupRequest (drop 64 (setup_raw msg_id asked c previous token))
  = Ok (setup_request previous token).
Proof.
  intros Hp Ht. unfold setup_raw. rewrite drop_app_length'.
  2: { pose proof (setup_header_len SessionSetup msg_id asked c). unfold len in *. lia. }
  assert (codec_wf (setup_request previous token)) as Hwf.
  { by split; cbn [setup_request ssq_flags ssq_security_mode ssq_capabilities ssq_channel
      ssq_previous_session_id ssq_security_buffer]. }
  rewrite <- (unpack_body_of SessionSetupRequest (setup_request previous token) Hwf). unfold body_of.
  by rewrite (writes_at_packed _ _ (setup_request_writes 0 previous token)).
Qed.

(** ** A server that follows the specification

    It reads the two requests, accepts the NTLM exchange or not, hashes the messages
    that came before its final answer and derives the keys of MS-SMB2 3.3.5.5.3: it
    decrypts with the key the client encrypts with, and the other way round. *)

Record ServerKeys := mkServerKeys {
  sv_signing : bytes; sv_decryption : option bytes; sv_encryption : option bytes
}.

Section server.
Context `{MacPrimitives, Sha512, NtlmPrimitives} (accounts : bytes → bytes → option bytes).

Definition server_keys (dialect : Dialect) (cipher : option Cipher) (key transcript : bytes) :
    option ServerKeys :=
  let kdf (label : string) context bits := ok_of (sp800_108_kdf key (ascii_bytes label ++ [x00]) context bits) in
  match dialect with
  | Smb2_0_2 | Smb2_1 => Some (mkServerKeys key None None)
  | Smb3_0 | Smb3_0_2 =>
      s ← kdf "SMB2AESCMAC" (ascii_bytes "SmbSign" ++ [x00]) 128;
      i ← kdf "SMB2AESCCM" (ascii_bytes "ServerIn " ++ [x00]) 128;
      o ← kdf "SMB2AESCCM" (ascii_bytes "ServerOut" ++ [x00]) 128;
      Some (mkServerKeys s (Some i) (Some o))
  | Smb3_1_1 =>
      let bits := if bool_decide (cipher = Some Aes256Ccm ∨ cipher = Some Aes256Gcm) then 256 else 128 in
      s ← kdf "SMBSigningKey" transcript bits;
      i ← kdf "SMBC2SCipherKey" transcript bits;
      o ← kdf "SMBS2CCipherKey" transcript bits;
      Some (mkServerKeys s (Some i) (Some o))
  end.

(** [hash] covers the negotiation, [response1] is the server's first answer and
    [challenge_bytes] the token it carried. *)
Definition server_session (dialect : Dialect) (cipher : option Cipher) (hash : bytes)
    (request1 response1 challenge_bytes request2 : bytes) : option ServerKeys :=
  q1 ← ok_of (unpack_body SessionSetupRequest (drop 64 request1));
  challenge ← ok_of (parse_challenge_message challenge_bytes);
  q2 ← ok_of (unpack_body SessionSetupRequest (drop 64 request2));
  key ← server_accepts accounts challenge (ssq_security_buffer q1) challenge_bytes (ssq_security_buffer q2);
  server_keys dialect cipher key (sha512 (sha512 (sha512 (hash ++ request1) ++ response1) ++ request2)).

End server.

(** ** Establishing the session *)

(** What the connection does to messages once [session] is established with
    [cipher]: the keys and the algorithm in force are the session's. *)
Definition in_force (session : Session) (cipher : Cipher) (c c' : CryptoState) : Prop :=
  (if se_should_sign session
   then cs_should_sign c' = true ∧ cs_signing_key c' = Some (se_signing_key session) ∧
        cs_signing_algorithm c' = Some (se_signing_algorithm session)
   else cs_should_sign c' = cs_should_sign c ∧ cs_signing_key c' = cs_signing_key c) ∧
  (if se_should_encrypt session && bool_decide (is_Some (se_encryption_key session))
   then cs_should_encrypt c' = true ∧ cs_encryption_key c' = se_encryption_key session ∧
        cs_decryption_key c' = se_decryption_key session ∧ cs_encryption_cipher c' = Some cipher ∧
        cs_nonce_gen c' = Some NonceGenerator_new
   else cs_should_encrypt c' = cs_should_encrypt c ∧ cs_encryption_key c' = cs_encryption_key c).

Definition the_cipher (p : NegotiatedParams) : Cipher :=
  match np_cipher p with Some c => c | None => Aes128Ccm end.

Definition the_session (p : NegotiatedParams) (sid flags : Z) (ks : ServerKeys) : Session :=
  mkSession sid (sv_signing ks) (sv_decryption ks) (sv_encryption ks)
    (algorithm_for_dialect (np_dialect p) (np_gmac_negotiated p))
    (np_signing_required p || negb (SessionFlags.is_guest flags || SessionFlags.is_null flags))
    (SessionFlags.encrypt_data flags).

Section establishing.
Context `{MacLaws}.

(** The client's derivation is the server's, and always succeeds. *)
Lemma session_keys_server p h k :
  ∃ ks, server_keys (np_dialect p) (np_cipher p) k (PreauthHasher_value h) = Some ks ∧
        session_keys p h k = Ok (sv_signing ks, sv_decryption ks, sv_encryption ks) ∧
        (is_Some (sv_decryption ks) ↔ is_Some (sv_encryption ks)).
Proof.
  unfold server_keys, session_keys, derive_session_keys. cbv zeta.
  destruct (np_dialect p); cbn [key_labels mbind result_bind];
    [by eexists|by eexists| | |].
  3: set (bits := match np_cipher p with Some Aes256Ccm | Some Aes256Gcm => 256 | _ => 128 end);
     replace (if bool_decide _ then _ else _) with bits by
       (unfold bits; by destruct (np_cipher p) as [[]|]).
  1-2: set (bits := 128).
  all: assert (0 <= bits) as Hb by
         (unfold bits; first [lia|destruct (np_cipher p) as [[]|]; lia]).
  all: repeat match goal with
       | |- context [sp800_108_kdf ?key ?l ?c ?bits] =>
           destruct (kdf_len key l c bits Hb) as (? & -> & _); cbn [ok_of mbind option_bind result_bind]
       end.
  all: by eexists.
Qed.

Lemma establish_ok p h sid flags k s :
  ∃ ks s', server_keys (np_dialect p) (np_cipher p) k (PreauthHasher_value h) = Some ks ∧
    let session := the_session p sid flags ks in
    establish p h sid flags k s = Some (Ok session, s') ∧
    su_session s' = Some session ∧ su_previous_session_id s' = 0 ∧
    su_sent s' = su_sent s ∧ su_params s' = su_params s ∧
    in_force session (the_cipher p) (su_crypto s) (su_crypto s') ∧
    cs_session_id (su_crypto s') = cs_session_id (su_crypto s).
Proof.
  destruct (session_keys_server p h k) as (ks & Eks & Ek & Hsame). exists ks. unfold establish. cbv zeta.
  rewrite (io_bind_ok _ _ s (sv_signing ks, sv_decryption ks, sv_encryption ks) s) by (by rewrite Ek).
  unfold the_session, in_force, the_cipher. rewrite negb_orb. cbn [se_should_sign se_should_encrypt
    se_encryption_key se_signing_key se_signing_algorithm se_decryption_key].
  destruct (np_signing_required p || _), (SessionFlags.encrypt_data flags); cbn [andb];
    destruct (sv_decryption ks) as [d|] eqn:Ed, (sv_encryption ks) as [o|] eqn:Eo;
    try (exfalso; destruct Hsame as [H1 H2]; first [destruct (H1 ltac:(by eexists))|destruct (H2 ltac:(by eexists))]; done);
    eexists; (split; [done|]); by split_and!.
Qed.

End establishing.

Section agreement.
Context `{MacLaws, Sha512, NtlmLaws} (to_uppercase : list Z → list Z) (accounts : bytes → bytes → option bytes).

Lemma execute_setup previous token s id n r rest :
  su_answers s = (id, n, r) :: rest →
  let raw := setup_raw id n (su_crypto s) previous token in
  execute_capturing_request SessionSetup (setup_request previous token) s
  = Some (f ← of_reply r; Ok (f, raw), su_exchange raw s).
Proof.
  intros E raw. unfold execute_capturing_request.
  rewrite (io_bind_ok _ _ s (id, n) s) by (unfold get; by rewrite E). cbv beta iota.
  rewrite (io_bind_ok _ _ s (su_crypto s) s) by done.
  rewrite (io_bind_ok _ _ s raw s) by (unfold io_lift; by rewrite setup_packs).
  unfold mbind at 1, io_bind at 1, exchange_raw. rewrite E. by destruct r.
Qed.

Lemma execute_setup_silent previous token s :
  su_answers s = [] →
  ∃ s', execute_capturing_request SessionSetup (setup_request previous token) s = Some (Err Disconnected, s')
        ∧ s' = su_exchange (setup_raw 0 0 (su_crypto s) previous token) s.
Proof.
  intros E. eexists. split; [|done]. unfold execute_capturing_request.
  rewrite (io_bind_ok _ _ s (0, 0) s) by (unfold get; by rewrite E). cbv beta iota.
  rewrite (io_bind_ok _ _ s (su_crypto s) s) by done.
  rewrite (io_bind_ok _ _ s (setup_raw 0 0 (su_crypto s) previous token) s) by (unfold io_lift; by rewrite setup_packs).
  unfold mbind at 1, io_bind at 1, exchange_raw. by rewrite E.
Qed.

(** The connection after the two rounds. *)
Definition after_rounds (raw1 raw2 : bytes) (sid1 sid2 : Z) (s : Setup) : Setup :=
  su_set_crypto (λ c, with_session_id c sid2) (su_exchange raw2
    (su_set_crypto (λ c, with_session_id c sid1) (su_exchange raw1 s))).

(** Two rounds that succeed come down to the establishment of the session. *)
Lemma setup_rounds e username password domain s p id1 n1 f1 r1 id2 n2 f2 r2 rest nb a msg a' k :
  su_params s = Some p →
  su_answers s = (id1, n1, Reply f1) :: (id2, n2, Reply f2) :: rest →
  command (fr_header f1) = SessionSetup →
  NtStatus.is_more_processing_required (status (fr_header f1)) = true →
  unpack_body SessionSetupResponse (fr_body f1) = Ok r1 →
  command (fr_header f2) = SessionSetup → status (fr_header f2) = NtStatus.SUCCESS →
  unpack_body SessionSetupResponse (fr_body f2) = Ok r2 →
  Ntlm.negotiate (NtlmAuthenticator_new (mkNtlmCredentials username password domain)) = (nb, a) →
  authenticate to_uppercase e a (ssr_security_buffer r1) = (Ok msg, a') → Ntlm.session_key a' = Some k →
  let raw1 := setup_raw id1 n1 (su_crypto s) (su_previous_session_id s) nb in
  let raw2 := setup_raw id2 n2 (with_session_id (su_crypto s) (session_id (fr_header f1)))
                (su_previous_session_id s) msg in
  setup to_uppercase e username password domain s
  = establish p (PreauthHasher_update raw2 (PreauthHasher_update (fr_raw f1)
                  (PreauthHasher_update raw1 (su_hasher s))))
      (session_id (fr_header f2)) (ssr_session_flags r2) k
      (after_rounds raw1 raw2 (session_id (fr_header f1)) (session_id (fr_header f2)) s).
Proof.
  intros Hp Ha C1 S1 U1 C2 S2 U2 En Eauth Ek raw1 raw2. unfold setup, require_params.
  rewrite (io_bind_ok _ _ s p s) by (rewrite (io_bind_ok _ _ s (Some p) s); [done|by unfold get; rewrite Hp]).
  cbv zeta. rewrite (io_bind_ok _ _ s (su_hasher s) s) by done. rewrite En.
  rewrite (io_bind_ok _ _ s (su_previous_session_id s) s) by done.
  rewrite (io_bind_ok _ _ s (f1, raw1) (su_exchange raw1 s)) by (by rewrite (execute_setup _ _ s _ _ _ _ Ha)).
  cbv beta iota. rewrite (bool_decide_true _ C1), S1. cbn [negb].
  set (s1 := su_exchange raw1 s).
  set (s2 := su_set_crypto (λ c, with_session_id c (session_id (fr_header f1))) s1).
  rewrite (io_bind_ok _ _ s1 tt s2) by done.
  rewrite (io_bind_ok _ _ s2 r1 s2) by (unfold io_lift; by rewrite U1). rewrite Eauth.
  rewrite (io_bind_ok _ _ s2 msg s2) by done.
  rewrite (io_bind_ok _ _ s2 (su_previous_session_id s) s2) by done.
  assert (su_answers s2 = (id2, n2, Reply f2) :: rest) as Ha2
    by (cbn [s2 s1 su_set_crypto su_exchange su_answers]; by rewrite Ha).
  rewrite (io_bind_ok _ _ s2 (f2, raw2) (su_exchange raw2 s2)) by (by rewrite (execute_setup _ _ s2 _ _ _ _ Ha2)).
  cbv beta iota. rewrite (bool_decide_true _ C2), S2, Z.eqb_refl. cbn [negb].
  set (s3 := su_exchange raw2 s2).
  rewrite (io_bind_ok _ _ s3 r2 s3) by (unfold io_lift; by rewrite U2).
  rewrite (io_bind_ok _ _ s3 tt (su_set_crypto (λ c, with_session_id c (session_id (fr_header f2))) s3)) by done.
  rewrite Ek. reflexivity.
Qed.


End agreement.

(** ** Failures *)

(** Nothing of the connection changed but the session id it puts in its headers. *)
Record untouched (s s' : Setup) : Prop := {
  un_params : su_params s' = su_params s;
  un_hasher : su_hasher s' = su_hasher s;
  un_previous : su_previous_session_id s' = su_previous_session_id s;
  un_session : su_session s' = su_session s;
  un_compression : su_compression_enabled s' = su_compression_enabled s;
  un_crypto : ∃ id, su_crypto s' = with_session_id (su_crypto s) id
}.

#[global] Instance untouched_preorder : PreOrder untouched.
Proof.
  split.
  - intros s. split; try done. exists (cs_session_id (su_crypto s)). unfold with_session_id. by destruct (su_crypto s).
  - intros s1 s2 s3 [] []. split; try congruence. destruct un_crypto0 as [i Hi], un_crypto1 as [j Hj].
    exists j. by rewrite Hj, Hi.
Qed.

(** [m] returns and leaves the connection untouched. *)
Definition steady {A} (m : io Setup A) : Prop :=
  ∀ s, ∃ r s', m s = Some (r, s') ∧ r ≠ Panic ∧ untouched s s'.
(** [m] returns, and leaves the connection untouched when it fails. *)
Definition cautious {A} (m : io Setup A) : Prop :=
  ∀ s, ∃ r s', m s = Some (r, s') ∧ r ≠ Panic ∧ ∀ e, r = Err e → untouched s s'.

Lemma steady_cautious {A} (m : io Setup A) : steady m → cautious m.
Proof. intros Hm s. destruct (Hm s) as (r & s' & ? & ? & ?). by exists r, s'. Qed.

Lemma steady_bind {A B} (m : io Setup A) (k : A → io Setup B) :
  steady m → (∀ a, steady (k a)) → steady (m ≫= k).
Proof.
  intros Hm Hk s. destruct (Hm s) as (r & s1 & E & Hr & Hu). unfold mbind, io_bind. rewrite E.
  destruct r as [a|e|]; [|by eexists _, _|done]. destruct (Hk a s1) as (r & s2 & -> & Hr' & Hu').
  exists r, s2. split; [done|]. split; [done|]. by trans s1.
Qed.
Lemma cautious_bind {A B} (m : io Setup A) (k : A → io Setup B) :
  steady m → (∀ a, cautious (k a)) → cautious (m ≫= k).
Proof.
  intros Hm Hk s. destruct (Hm s) as (r & s1 & E & Hr & Hu). unfold mbind, io_bind. rewrite E.
  destruct r as [a|e|]; [|by eexists _, _|done]. destruct (Hk a s1) as (r & s2 & -> & Hr' & Hu').
  exists r, s2. split; [done|]. split; [done|]. intros e He. trans s1; [done|]. by eapply Hu'.
Qed.

Lemma steady_ret {A} (a : A) : steady (mret a).
Proof. intros s. by exists (Ok a), s. Qed.
Lemma steady_get {A} (f : Setup → A) : steady (get f).
Proof. intros s. by exists (Ok (f s)), s. Qed.
Lemma steady_err {A} e : steady (io_err e : io Setup A).
Proof. intros s. by exists (Err e), s. Qed.
Lemma steady_lift {A} (r : result Error A) : r ≠ Panic → steady (io_lift r).
Proof. intros Hr s. by exists r, s. Qed.
Lemma steady_session_id id : steady (set_session_id id).
Proof. intros s. eexists _, _. split; [done|]. split; [done|]. split; try done. by eexists. Qed.
Lemma steady_params : steady require_params.
Proof. apply steady_bind; [apply steady_get|]. intros [p|]; [apply steady_ret|apply steady_err]. Qed.

Lemma steady_execute previous token :
  steady (execute_capturing_request SessionSetup (setup_request previous token)).
Proof.
  intros s. assert (∀ raw, untouched s (su_exchange raw s)) as Hu.
  { intros raw. split; try done. exists (cs_session_id (su_crypto s)). cbn. unfold with_session_id. by destruct (su_crypto s). }
  destruct (su_answers s) as [|[[id n] r] rest] eqn:E.
  - destruct (execute_setup_silent previous token s E) as (s' & Es & ->). eexists _, _. by split.
  - rewrite (execute_setup previous token s id n r rest E). eexists _, _. split; [done|]. split; [by destruct r|done].
Qed.

Lemma steady_response body : steady (io_lift (unpack_body SessionSetupResponse body)).
Proof. apply steady_lift, (unpack_body_no_panic SessionSetupResponse). Qed.
Lemma steady_spnego d : steady (io_lift (parse_neg_token_resp d)).
Proof. apply steady_lift, parse_neg_token_resp_safe. Qed.

Create HintDb setup.
#[export] Hint Resolve steady_get steady_err steady_session_id steady_params steady_execute steady_ret
  steady_response steady_spnego : setup.

Section failures.
Context `{MacLaws, Sha512, NtlmLaws}.

Lemma cautious_establish p h sid flags k : cautious (establish p h sid flags k).
Proof.
  intros s. destruct (establish_ok p h sid flags k s) as (ks & s' & _ & E & _). eexists _, _. by split; [exact E|].
Qed.

Lemma cautious_setup to_uppercase e username password domain :
  Entropy_wf e → cautious (setup to_uppercase e username password domain).
Proof.
  intros He. unfold setup. apply cautious_bind; [auto with setup|]. intros p. cbv zeta.
  apply cautious_bind; [auto with setup|]. intros hasher.
  destruct (Ntlm.negotiate _) as [nb a] eqn:En. assert (is_Some (na_negotiate_bytes a)) as Hnb by (by injection En as <- <-; eexists).
  clear En.
  apply cautious_bind; [auto with setup|]. intros previous. apply cautious_bind; [auto with setup|]. intros [f1 raw1].
  case_test; [apply steady_cautious; auto with setup|].
  case_test; [case_test; apply steady_cautious; auto with setup|].
  apply cautious_bind; [auto with setup|]. intros _.
  apply cautious_bind; [auto with setup|]. intros r1.
  pose proof (authenticate_total to_uppercase e a (ssr_security_buffer r1) He Hnb) as Hauth.
  destruct (authenticate _ _ _ _) as [r a']. apply cautious_bind; [apply steady_lift; by destruct r|]. intros msg.
  apply cautious_bind; [auto with setup|]. intros previous2. apply cautious_bind; [auto with setup|]. intros [f2 raw2].
  case_test; [apply steady_cautious; auto with setup|]. case_test; [apply steady_cautious; auto with setup|].
  apply cautious_bind; [auto with setup|]. intros r2.
  apply cautious_bind; [auto with setup|]. intros _.
  destruct (Ntlm.session_key a'); [apply cautious_establish|apply steady_cautious; auto with setup].
Qed.

Lemma cautious_kerberos {K} `{KerberosAuthenticator K} (auth : K) :
  (∀ token, (krb_process_mutual_auth_token token auth).1 ≠ Panic) →
  cautious (setup_kerberos_with_auth auth).
Proof.
  intros Hk. unfold setup_kerberos_with_auth. apply cautious_bind; [auto with setup|]. intros p.
  destruct (krb_token auth) as [token|]; [|apply steady_cautious; auto with setup].
  apply cautious_bind; [auto with setup|]. intros hasher. apply cautious_bind; [auto with setup|]. intros previous.
  apply cautious_bind; [auto with setup|]. intros [f raw]. cbv zeta.
  case_test; [apply steady_cautious; auto with setup|]. case_test; [apply steady_cautious; auto with setup|].
  apply cautious_bind; [auto with setup|]. intros _. apply cautious_bind; [auto with setup|]. intros r.
  apply cautious_bind.
  { case_test; [auto with setup|]. apply steady_bind; [auto with setup|].
    intros resp. destruct (response_token resp) as [t|]; [|auto with setup].
    pose proof (Hk t) as Ht. destruct (krb_process_mutual_auth_token t auth) as [x a].
    apply steady_bind; [by apply steady_lift|]. intros _. auto with setup. }
  intros a. destruct (krb_session_key a); [apply cautious_establish|apply steady_cautious; auto with setup].
Qed.

End failures.

(** ** What a negotiation settles *)

Definition offers_gmac (ctx : NegotiateContext) : bool :=
  match ctx with Negotiate.Signing l => bool_decide (SIGNING_AES_GMAC ∈ l) | _ => false end.
Definition offers_lz4 (ctx : NegotiateContext) : bool :=
  match ctx with Compression _ l => bool_decide (COMPRESSION_LZ4 ∈ l) | _ => false end.
(** The cipher a context names first, when it is an encryption context that names one. *)
Definition names_cipher (ctx : NegotiateContext) : option (option Cipher) :=
  match ctx with Encryption (c :: _) => Some (cipher_of_id c) | _ => None end.

Lemma settle_fold l s :
  fold_left settle l s
  = mkSettled (st_gmac s || existsb offers_gmac l)
      (match last (omap names_cipher l) with Some c => c | None => st_cipher s end)
      (st_compression s || existsb offers_lz4 l).
Proof.
  revert s. induction l as [|ctx l IH]; intros [g c z].
  - cbn. by rewrite !orb_false_r.
  - cbn [fold_left]. rewrite IH. cbn [existsb].
    destruct ctx as [h salt|[|ci cs]|f a|a|t d];
      cbn [settle offers_gmac offers_lz4 omap list_omap names_cipher st_gmac st_cipher st_compression orb];
      try done.
    + rewrite last_cons. by destruct (last _).
    + by destruct (bool_decide (COMPRESSION_LZ4 ∈ a)), z.
    + by destruct (bool_decide (SIGNING_AES_GMAC ∈ a)), g.
Qed.

(** Parameters that follow from a response. *)
Record settled_by (resp : NegotiateResponse) (p : NegotiatedParams) : Prop := {
  sb_dialect : np_dialect p = nr_dialect_revision resp;
  sb_read : np_max_read_size p = nr_max_read_size resp ∧ 65536 <= np_max_read_size p;
  sb_write : np_max_write_size p = nr_max_write_size resp ∧ 65536 <= np_max_write_size p;
  sb_transact : np_max_transact_size p = nr_max_transact_size resp;
  sb_signing : np_signing_required p = SecurityMode.signing_required (nr_security_mode resp);
  sb_gmac : np_gmac_negotiated p = existsb offers_gmac (nr_negotiate_contexts resp);
  sb_cipher : np_cipher p = default None (last (omap names_cipher (nr_negotiate_contexts resp)));
  sb_compression : np_compression_supported p = existsb offers_lz4 (nr_negotiate_contexts resp)
}.

Lemma negotiated_inv resp p : negotiated resp = Ok p → settled_by resp p.
Proof.
  unfold negotiated. case_test; [done|]. case_test; [done|]. case_test; [done|]. cbv zeta. intros [= <-].
  bool_prop. rewrite settle_fold. by split.
Qed.
Lemma negotiated_no_panic resp : negotiated resp ≠ Panic.
Proof. unfold negotiated. by repeat case_test. Qed.

Lemma negotiate_request_wf guid salt compression :
  Guid_wf guid → is_u16 (len salt) → NegotiateRequest_wf (negotiate_request guid salt compression).
Proof.
  intros Hg Hs. assert (∀ l, (length l < 10)%nat → Forall is_u16 l → words_ok l) as Hw.
  { intros l Hl Hf. split; [unfold in_range, len; lia|done]. }
  split; try done.
  - by destruct compression.
  - cbn [negotiate_request nq_negotiate_contexts]. apply Forall_app. split.
    + repeat (apply Forall_cons; split); [split; [|done]| | |done]; (apply Hw; [cbn; lia|]); by repeat constructor.
    + destruct compression; [|done]. apply Forall_singleton. split; [done|]. apply Hw; [cbn; lia|]. by repeat constructor.
  - left. cbn [negotiate_request nq_dialects]. by apply list_elem_of_In; cbn; auto 10.
Qed.

Lemma negotiate_header_wf id : is_u64 id → Header_wf (negotiate_header id).
Proof. intros Hid. split; try done. cbn. split; [done|]. by exists 0. Qed.

Section negotiation.
Context `{Sha512}.

(** A server reading the request. *)
Definition read_negotiate (raw : bytes) : result Error (Header * NegotiateRequest) :=
  match (h ← unpack Header; m ← unpack NegotiateRequest; mret (h, m)) (ReadCursor_new raw) with
  | Ok (v, _) => Ok v
  | Err e => Err e
  | Panic => Panic
  end.

Lemma negotiate_packs guid salt compression id :
  Guid_wf guid → is_u16 (len salt) → is_u64 id →
  ∃ raw, pack_message (negotiate_header id) (pack (negotiate_request guid salt compression)) = Ok raw ∧
         read_negotiate raw = Ok (negotiate_header id, negotiate_request guid salt compression).
Proof.
  intros Hg Hs Hid. set (m := negotiate_request guid salt compression).
  assert (NegotiateRequest_wf m) as Hm by (by apply negotiate_request_wf).
  pose proof (negotiate_header_wf id Hid) as Hh. set (h := negotiate_header id) in *.
  eexists. split; [apply pack_message_layout; [done|by apply NegotiateRequest_pack_layout]|].
  assert (reads_at 0 (h ← unpack Header; m ← unpack NegotiateRequest; mret (h, m))
            (Header_layout h ++ NegotiateRequest_layout 64 m) (h, m)) as Hr.
  { eapply reads_bind; [by apply Header_unpack_layout|]. rewrite (Header_layout_len h Hh), Z.add_0_l.
    eapply reads_bind_nil; [by apply NegotiateRequest_unpack_layout|]. apply reads_ret. }
  specialize (Hr [] [] eq_refl). cbn [app] in Hr. rewrite app_nil_r in Hr.
  unfold read_negotiate, ReadCursor_new. by rewrite Hr.
Qed.

(** The checks on the answer, and what they leave behind. *)
Definition judged (requested : bool) (f : Frame) : io Setup unit :=
  if negb (HeaderFlags.is_response (flags (fr_header f)))
  then io_err (invalid_data "expected a response but got a request") else
  if negb (bool_decide (command (fr_header f) = Types.Negotiate))
  then io_err (invalid_data "expected Negotiate response, got {:?}") else
  if negb (status (fr_header f) =? NtStatus.SUCCESS)
  then io_err (Protocol (status (fr_header f)) Types.Negotiate) else
  resp ← io_lift (unpack_body NegotiateResponse (fr_body f));
  params ← io_lift (negotiated resp);
  modify (su_set_params params (requested && np_compression_supported params)).

(** An answer the client takes. *)
Definition acceptable (f : Frame) : Prop :=
  HeaderFlags.is_response (flags (fr_header f)) = true ∧ command (fr_header f) = Types.Negotiate ∧
  status (fr_header f) = NtStatus.SUCCESS ∧
  ∃ resp, unpack_body NegotiateResponse (fr_body f) = Ok resp ∧
          65536 <= nr_max_read_size resp ∧ 65536 <= nr_max_write_size resp.

Lemma negotiated_refuses resp e :
  negotiated resp = Err e → nr_max_read_size resp < 65536 ∨ nr_max_write_size resp < 65536.
Proof.
  unfold negotiated. rewrite bool_decide_true; [cbn [negb]|by destruct (nr_dialect_revision resp); apply list_elem_of_In; cbn; auto 10].
  case_test; [bool_prop; auto|]. case_test; [bool_prop; auto|]. done.
Qed.

Lemma judged_spec requested f s :
  ∃ x s', judged requested f s = Some (x, s') ∧
    match x with
    | Ok _ => acceptable f ∧
              ∃ resp p, unpack_body NegotiateResponse (fr_body f) = Ok resp ∧ settled_by resp p ∧
                s' = su_set_params p (requested && np_compression_supported p) s
    | Err _ => ¬ acceptable f ∧ s' = s
    | Panic => False
    end.
Proof.
  unfold judged, acceptable. case_test; [bool_prop; eexists _, _; split; [done|]; split; [|done]; intros (H1 & _); congruence|].
  case_test; [bool_prop; eexists _, _; split; [done|]; split; [|done]; intros (_ & H1 & _); by eapply bool_decide_eq_false_1|].
  case_test; [bool_prop; eexists _, _; split; [done|]; split; [|done]; intros (_ & _ & H1 & _); by apply Heqb1|].
  pose proof (unpack_body_no_panic NegotiateResponse (fr_body f)) as Hb.
  destruct (unpack_body NegotiateResponse (fr_body f)) as [resp|e|] eqn:Eb; [| |done].
  2: { eexists _, _. split; [done|]. split; [|done]. by intros (_ & _ & _ & r & ? & _). }
  pose proof (negotiated_no_panic resp) as Hn. unfold mbind at 1, io_bind at 1, io_lift at 1.
  destruct (negotiated resp) as [p|e|] eqn:Ep; [| |done].
  2: { eexists _, _. split; [done|]. split; [|done].
       intros (_ & _ & _ & r & [= ->] & H1 & H2). apply negotiated_refuses in Ep. lia. }
  apply negotiated_inv in Ep as Hs. eexists _, _. split; [done|]. bool_prop.
  destruct (sb_read _ _ Hs) as [R1 R2], (sb_write _ _ Hs) as [W1 W2].
  split; [|by exists resp, p]. split; [done|]. split; [by eapply bool_decide_eq_true_1|]. split; [done|].
  exists resp. split; [done|]. lia.
Qed.

(** C18: one negotiation.  The request that leaves is the one a server reads back:
    every dialect, the ciphers and signing algorithms in the order of preference,
    compression only when asked for.  The preauthentication hash takes the request and
    then the answer, also when the answer is then refused.  An answer is accepted
    exactly if it is a successful NEGOTIATE response with read and write sizes of at least
    65536 bytes, and then the recorded parameters are exactly what it says: the last
    encryption context settles the cipher, GMAC and compression count when any context
    names them, and compression is on only if it was requested too.  On every error
    the recorded parameters stay as they were. *)
Theorem negotiation_correct guid salt s id n r rest :
  Guid_wf guid → is_u16 (len salt) → is_u64 id → su_answers s = (id, n, r) :: rest →
  ∃ raw x s', connection_negotiate guid salt s = Some (x, s') ∧ su_sent s' = su_sent s ++ [raw] ∧
    read_negotiate raw = Ok (negotiate_header id, negotiate_request guid salt (su_compression_requested s)) ∧
    su_crypto s' = su_crypto s ∧ su_session s' = su_session s ∧
    match r with
    | Failure e => x = Err e ∧ su_params s' = su_params s ∧
                   su_hasher s' = PreauthHasher_update raw (su_hasher s)
    | Reply f =>
        su_hasher s' = PreauthHasher_update (fr_raw f) (PreauthHasher_update raw (su_hasher s)) ∧
        match x with
        | Ok _ => acceptable f ∧
                  ∃ resp p, unpack_body NegotiateResponse (fr_body f) = Ok resp ∧ settled_by resp p ∧
                    su_params s' = Some p ∧
                    su_compression_enabled s' = su_compression_requested s && np_compression_supported p
        | Err _ => ¬ acceptable f ∧ su_params s' = su_params s ∧ su_compression_enabled s' = su_compression_enabled s
        | Panic => False
        end
    end.
Proof.
  intros Hg Hs Hid Ha. unfold connection_negotiate.
  rewrite (io_bind_ok _ _ s (su_compression_requested s) s) by done.
  rewrite (io_bind_ok _ _ s id s) by (unfold get; by rewrite Ha).
  destruct (negotiate_packs guid salt (su_compression_requested s) id Hg Hs Hid) as (raw & Ep & Er).
  rewrite (io_bind_ok _ _ s raw s) by (unfold io_lift; by rewrite Ep).
  set (s1 := su_set_hasher (PreauthHasher_update raw) s). rewrite (io_bind_ok _ _ s tt s1) by done.
  set (s2 := su_exchange raw s1).
  assert (exchange_raw raw s1 = Some (of_reply r, s2)) as Ex.
  { unfold exchange_raw. change (su_answers s1) with (su_answers s). by rewrite Ha. }
  destruct r as [f|e]; cbn [of_reply] in Ex.
  2: { exists raw, (Err e), s2. split; [unfold mbind at 1, io_bind at 1; by rewrite Ex|]. done. }
  rewrite (io_bind_ok _ _ _ _ _ Ex).
  set (s3 := su_set_hasher (PreauthHasher_update (fr_raw f)) s2). rewrite (io_bind_ok _ _ s2 tt s3) by done.
  destruct (judged_spec (su_compression_requested s) f s3) as (x & s' & Ej & Hx).
  exists raw, x, s'. split; [exact Ej|]. destruct x as [u|e|]; [|by destruct Hx as [? ->]|done].
  destruct Hx as (Hacc & resp & p & Hu & Hp & ->). split_and!; try done.
  exists resp, p. by split_and!.
Qed.

End negotiation.


(** ** AES-256 and signing

    With an AES-256 cipher every key is derived with 256 bits, the signing key
    included, while both algorithms of SMB 3.1.1 take keys of 16 bytes: a session that
    signs without encrypting cannot send. *)
Lemma aes256_cannot_sign `{MacLaws} p h k sk ek dk msg id c :
  np_dialect p = Smb3_1_1 → np_cipher p = Some Aes256Ccm ∨ np_cipher p = Some Aes256Gcm →
  session_keys p h k = Ok (sk, ek, dk) → 64 <= len msg →
  len sk = 32 ∧
  ∃ e, sign_message msg sk (algorithm_for_dialect (np_dialect p) (np_gmac_negotiated p)) id c = Err e.
Proof.
  intros Hd Hc E Hm. assert (len sk = 32) as Hsk.
  { unfold session_keys in E. rewrite Hd in E.
    replace (match np_cipher p with Some Aes256Ccm | Some Aes256Gcm => 256 | _ => 128 end) with 256 in E
      by (by destruct Hc as [-> | ->]).
    destruct (derive_ok k Smb3_1_1 (Some (PreauthHasher_value h)) 256) as (ks & Eks & Hs & _); [lia|by auto|by eexists|].
    rewrite Eks in E. cbn [mbind result_bind] in E. injection E as <- _ _. done. }
  split; [done|]. unfold sign_message. rewrite (proj2 (Z.ltb_ge _ _)) by (unfold MIN_MESSAGE_LEN; lia).
  rewrite overwrite_ok by (unfold SIGNATURE_OFFSET; rewrite ?len_zeros16; lia). cbn [mbind result_bind].
  rewrite Hd. cbn [algorithm_for_dialect]. unfold compute_signature, compute_aes_gmac, compute_aes_cmac.
  set (m := patch _ _ _). destruct (np_gmac_negotiated p); [by rewrite Hsk; eexists|].
  destruct (aes128_cmac sk m) as [t|] eqn:Et; [|by eexists].
  exfalso. pose proof (proj1 (cmac_total sk m)) as H16. rewrite Et in H16. specialize (H16 ltac:(by eexists)). lia.
Qed.

(** ** Concrete exchanges *)

Definition toy_sha : Sha512 := λ m, take 64 (rev m ++ zeros 64).

Definition toy_params : NegotiatedParams :=
  mkNegotiatedParams Smb3_1_1 65536 65536 65536 (mkGuid 1 2 3 (zeros 8)) true 0 true (Some Aes128Gcm) false.

Definition setup_answer (st : Z) (flags : Z) (token : bytes) : Frame :=
  let h := mkHeader 1 st SessionSetup 1 1 0 1 (Some 0) None 77 (zeros 16) in
  let body := body_of (mkSessionSetupResponse flags token) in
  mkFrame h body (Header_layout h ++ body).

Definition toy_setup : Setup :=
  mkSetup (Some toy_params) PreauthHasher_new CryptoState_new 5 None false false []
    [(1, 1, Reply (setup_answer NtStatus.MORE_PROCESSING_REQUIRED 0 sample_challenge));
     (2, 1, Reply (setup_answer NtStatus.SUCCESS 4 []))].

Definition toy_accounts (user domain : bytes) : option bytes :=
  Some (compute_ntlmv2_hash (H := toy_ntlm) (λ s, s) (compute_nt_hash (H := toy_ntlm) [112; 119]) [117] [100]).


Definition toy_guid : Guid := mkGuid 1 2 3 (zeros 8).

(** A server of SMB 3.1.1 that takes AES-128-GCM, GMAC and compression. *)
Definition toy_response : NegotiateResponse :=
  mkNegotiateResponse 1 Smb3_1_1 toy_guid 0 1048576 1048576 65536 0 0 []
    [Encryption [CIPHER_AES_128_GCM]; Negotiate.Signing [SIGNING_AES_GMAC]; Compression 0 [COMPRESSION_LZ4]].

Definition negotiate_answer : Frame :=
  let h := mkHeader 1 0 Types.Negotiate 1 1 0 0 (Some 0) None 0 (zeros 16) in
  let body := body_of toy_response in
  mkFrame h body (Header_layout h ++ body).

Definition fresh_setup : Setup :=
  mkSetup None PreauthHasher_new CryptoState_new 0 None true false [] [(0, 1, Reply negotiate_answer)].

Lemma toy_acceptable : acceptable negotiate_answer.
Proof. split; [done|]. split; [done|]. split; [done|]. exists toy_response. split; [vm_compute; reflexivity|done]. Qed.

Lemma negotiation_correct_witness :
  ∃ raw s', connection_negotiate (H0 := toy_sha) toy_guid (zeros 32) fresh_setup = Some (Ok tt, s') ∧
    su_sent s' = [raw] ∧
    read_negotiate raw = Ok (negotiate_header 0, negotiate_request toy_guid (zeros 32) true).
Proof.
  destruct (@negotiation_correct toy_sha toy_guid (zeros 32) fresh_setup 0 1 (Reply negotiate_answer) [])
    as (raw & x & s' & H1 & H2 & H3 & _ & _ & _ & H4); [done|done|done|reflexivity|].
  destruct x as [[]|e|]; [|destruct H4 as [H4 _]; destruct (H4 toy_acceptable)|destruct H4].
  exists raw, s'. exact (conj H1 (conj H2 H3)).
Defined.

#[local] Instance toy_kerberos : KerberosAuthenticator bytes := {|
  krb_token k := Some k;
  krb_process_mutual_auth_token t k := (Ok tt, t ++ k);
  krb_session_key k := Some k
|}.

