(* ===== verification/Rpc.v ===== *)
(** * Share enumeration over RPC ([src/rpc/mod.rs], [src/rpc/srvsvc.rs])

    The DCE/RPC PDUs of the srvsvc pipe and the NDR encoding of NetShareEnumAll, with
    the encoding a server uses for its answer.  Memory reserved ahead of parsing is
    not modelled. *)

From S2P Require Import Prelude Types Pack Codec Utf16 Negotiate.

Definition RPC_VERSION_MAJOR : Z := 5.
Definition RPC_VERSION_MINOR : Z := 0.
Definition DATA_REP : bytes := [x10; x00; x00; x00].
Definition PDU_TYPE_REQUEST : Z := 0.
Definition PDU_TYPE_RESPONSE : Z := 2.
Definition PDU_TYPE_BIND : Z := 11.
Definition PDU_TYPE_BIND_ACK : Z := 12.
Definition MAX_XMIT_FRAG : Z := 4280.
Definition MAX_RECV_FRAG : Z := 4280.
Definition PFC_FIRST_FRAG : Z := 0x01.
Definition PFC_LAST_FRAG : Z := 0x02.
Definition SRVSVC_UUID : Guid :=
  mkGuid 0x4B324FC8 0x1670 0x01D3 [x12; x78; x5a; x47; xbf; x6e; xe1; x88].
Definition SRVSVC_VERSION : Z := 3.
Definition NDR_UUID : Guid :=
  mkGuid 0x8A885D04 0x1CEB 0x11C9 [x9f; xe8; x08; x00; x2b; x10; x48; x60].
Definition NDR_VERSION : Z := 2.

(** [R] run on a cursor over [d]. *)
Definition parsed {A} (R : Reader A) (d : bytes) : result Error A :=
  match R (ReadCursor_new d) with
  | Ok (v, _) => Ok v
  | Err e => Err e
  | Panic => Panic
  end.

(** The common header with a zero FragLength; its position is returned. *)
Definition common_header (ptype call_id : Z) : Writer Z :=
  write_u8 RPC_VERSION_MAJOR ;;
  write_u8 RPC_VERSION_MINOR ;;
  write_u8 ptype ;;
  write_u8 (Z.lor PFC_FIRST_FRAG PFC_LAST_FRAG) ;;
  write_bytes DATA_REP ;;
  frag_len_pos ← wc_position;
  write_u16_le 0 ;;
  write_u16_le 0 ;;
  write_u32_le call_id ;;
  mret frag_len_pos.

Definition backpatch_length (frag_len_pos : Z) : Writer unit :=
  total_len ← wc_position;
  set_u16_le_at frag_len_pos (trunc 16 total_len).

Definition build_srvsvc_bind (call_id : Z) : result Error bytes := written (
  frag_len_pos ← common_header PDU_TYPE_BIND call_id;
  write_u16_le MAX_XMIT_FRAG ;;
  write_u16_le MAX_RECV_FRAG ;;
  write_u32_le 0 ;;
  write_u8 1 ;;
  write_bytes [x00; x00; x00] ;;
  write_u16_le 0 ;;
  write_u8 1 ;;
  write_u8 0 ;;
  pack SRVSVC_UUID ;;
  write_u32_le SRVSVC_VERSION ;;
  pack NDR_UUID ;;
  write_u32_le NDR_VERSION ;;
  backpatch_length frag_len_pos).

Definition parse_bind_ack (data : bytes) : result Error unit := parsed (
  version ← read_u8;
  version_minor ← read_u8;
  fail_if (negb (version =? RPC_VERSION_MAJOR) || negb (version_minor =? RPC_VERSION_MINOR))
    (invalid_data "unexpected RPC version {version}.{version_minor}, expected 5.0") ;;
  ptype ← read_u8;
  fail_if (negb (ptype =? PDU_TYPE_BIND_ACK)) (invalid_data "expected BIND_ACK (type 12), got type {ptype}") ;;
  _flags ← read_u8;
  _data_rep ← read_bytes 4;
  _frag_length ← read_u16_le;
  _auth_length ← read_u16_le;
  _call_id ← read_u32_le;
  _max_xmit_frag ← read_u16_le;
  _max_recv_frag ← read_u16_le;
  _assoc_group ← read_u32_le;
  sec_addr_len ← read_u16_le;
  skip sec_addr_len ;;
  let consumed := 2 + sec_addr_len in
  let padding := (4 - consumed mod 4) mod 4 in
  skip padding ;;
  num_results ← read_u8;
  skip 3 ;;
  fail_if (num_results =? 0) (invalid_data "BIND_ACK has no context results") ;;
  result ← read_u16_le;
  if negb (result =? 0) then
    reason ← read_u16_le;
    st_err (invalid_data "BIND rejected: result={result}, reason={reason}")
  else mret tt) data.

Definition build_request (call_id opnum : Z) (stub_data : bytes) : result Error bytes := written (
  frag_len_pos ← common_header PDU_TYPE_REQUEST call_id;
  write_u32_le (trunc 32 (len stub_data)) ;;
  write_u16_le 0 ;;
  write_u16_le opnum ;;
  write_bytes stub_data ;;
  backpatch_length frag_len_pos).

Definition parse_response_fragment (data : bytes) : result Error (bytes * bool) := parsed (
  version ← read_u8;
  version_minor ← read_u8;
  fail_if (negb (version =? RPC_VERSION_MAJOR) || negb (version_minor =? RPC_VERSION_MINOR))
    (invalid_data "unexpected RPC version {version}.{version_minor}, expected 5.0") ;;
  ptype ← read_u8;
  fail_if (negb (ptype =? PDU_TYPE_RESPONSE)) (invalid_data "expected RESPONSE (type 2), got type {ptype}") ;;
  flags ← read_u8;
  _data_rep ← read_bytes 4;
  frag_length ← read_u16_le;
  _auth_length ← read_u16_le;
  _call_id ← read_u32_le;
  _alloc_hint ← read_u32_le;
  _context_id ← read_u16_le;
  _cancel_count ← read_u8;
  _reserved ← read_u8;
  header_consumed ← rc_position;
  fail_if (frag_length <? header_consumed)
    (invalid_data "RPC frag_length {frag_length} shorter than header {header_consumed}") ;;
  stub_data ← read_bytes (frag_length - header_consumed);
  mret (stub_data, negb (Z.land flags PFC_LAST_FRAG =? 0))) data.

Definition parse_response (data : bytes) : result Error bytes :=
  '(stub, _is_last) ← parse_response_fragment data; Ok stub.

(** ** NetShareEnumAll *)

Definition STYPE_DISKTREE : Z := 0x00000000.
Definition STYPE_PRINTQ : Z := 0x00000001.
Definition STYPE_DEVICE : Z := 0x00000002.
Definition STYPE_IPC : Z := 0x00000003.
Definition STYPE_SPECIAL : Z := 0x80000000.
Definition STYPE_BASE_MASK : Z := 0x0000FFFF.

Record ShareInfo := mkShareInfo { si_name : list Z; si_share_type : Z; si_comment : list Z }.

Definition build_net_share_enum_all_stub (server_name : list Z) : result Error bytes := written (
  write_u32_le 0x00020000 ;;
  let name_utf16 := encode_utf16 server_name ++ [0] in
  let char_count := trunc 32 (len name_utf16) in
  write_u32_le char_count ;;
  write_u32_le 0 ;;
  write_u32_le char_count ;;
  for_each write_u16_le name_utf16 ;;
  align_to 4 ;;
  write_u32_le 1 ;;
  write_u32_le 1 ;;
  write_u32_le 0x00020004 ;;
  write_u32_le 0 ;;
  write_u32_le 0 ;;
  write_u32_le 0xFFFFFFFF ;;
  write_u32_le 0).

Definition build_net_share_enum_all (call_id : Z) (server_name : list Z) : result Error bytes :=
  stub ← build_net_share_enum_all_stub server_name;
  build_request call_id 15 stub.

(** [s.trim_end_matches('\0')] *)
Definition trim_nul (s : list Z) : list Z :=
  (fix go (s : list Z) : list Z :=
     match s with
     | [] => []
     | c :: s =>
         match go s with
         | [] => if c =? 0 then [] else [c]
         | t => c :: t
         end
     end) s.

Definition read_ndr_string : Reader (list Z) :=
  _max_count ← read_u32_le;
  _offset ← read_u32_le;
  actual_count ← read_u32_le;
  if actual_count =? 0 then mret [] else
  s ← read_utf16_le (actual_count * 2);
  pos ← rc_position;
  let padding := (4 - pos mod 4) mod 4 in
  rem ← rc_remaining;
  (if (padding >? 0) && (rem >=? padding) then skip padding else mret tt) ;;
  mret (trim_nul s).

Record RawEntry := mkRawEntry { re_name_ptr : Z; re_share_type : Z; re_comment_ptr : Z }.

Definition read_entry : Reader RawEntry :=
  name_ptr ← read_u32_le;
  share_type ← read_u32_le;
  comment_ptr ← read_u32_le;
  mret (mkRawEntry name_ptr share_type comment_ptr).

Definition deferred_string (ptr : Z) : Reader (list Z) :=
  if negb (ptr =? 0) then read_ndr_string else mret [].

(** [for entry in &entries] *)
Fixpoint read_deferred (entries : list RawEntry) : Reader (list ShareInfo) :=
  match entries with
  | [] => mret []
  | entry :: entries =>
      name ← deferred_string (re_name_ptr entry);
      comment ← deferred_string (re_comment_ptr entry);
      shares ← read_deferred entries;
      mret (mkShareInfo name (re_share_type entry) comment :: shares)
  end.

Definition share_enum_reader : Reader (list ShareInfo) :=
  level ← read_u32_le;
  fail_if (negb (level =? 1)) (invalid_data "expected share info level 1, got {level}") ;;
  discriminant ← read_u32_le;
  fail_if (negb (discriminant =? 1)) (invalid_data "expected union discriminant 1, got {discriminant}") ;;
  container_ptr ← read_u32_le;
  if container_ptr =? 0 then mret [] else
  count ← read_u32_le;
  array_ptr ← read_u32_le;
  if (array_ptr =? 0) || (count =? 0) then mret [] else
  max_count ← read_u32_le;
  fail_if (max_count <? count) (invalid_data "array max_count ({max_count}) < entries ({count})") ;;
  entries ← repeat_push (Z.to_nat count) read_entry;
  read_deferred entries.

Definition parse_net_share_enum_all_stub (stub : bytes) : result Error (list ShareInfo) :=
  parsed share_enum_reader stub.

Definition parse_net_share_enum_all_response (data : bytes) : result Error (list ShareInfo) :=
  stub ← parse_response data;
  parse_net_share_enum_all_stub stub.

(** [s.name.ends_with('$')] *)
Definition ends_with_dollar (s : list Z) : bool := bool_decide (last s = Some 0x24).

Definition is_disk_share (s : ShareInfo) : bool :=
  (Z.land (si_share_type s) STYPE_BASE_MASK =? STYPE_DISKTREE)
  && negb (negb (Z.land (si_share_type s) STYPE_SPECIAL =? 0)) && negb (ends_with_dollar (si_name s)).

Definition filter_disk_shares (shares : list ShareInfo) : list ShareInfo := List.filter is_disk_share shares.

(** ** Safety *)

(** [R] stays inside its buffer.  Unlike [reader_ok] it says nothing of longer
    buffers: the padding after a string is skipped only where there is some. *)
Definition reader_safe {A} (R : Reader A) : Prop :=
  ∀ d p, 0 <= p <= len d →
    match R (RC d p) with
    | Ok (_, c) => data c = d ∧ p <= pos c <= len d
    | Err _ => True
    | Panic => False
    end.

Lemma reader_ok_safe {A} (R : Reader A) P : reader_ok R P → reader_safe R.
Proof.
  intros HR d p Hp. specialize (HR d p Hp). destruct (R _) as [[v c]|e|]; [|done|done]. by destruct HR as (_ & ? & ? & _).
Qed.
Lemma reader_safe_bind {A B} (R : Reader A) P (K : A → Reader B) :
  reader_ok R P → (∀ a, P a → reader_safe (K a)) → reader_safe (R ≫= K).
Proof.
  intros HR HK d p Hp. specialize (HR d p Hp). unfold mbind, st_bind.
  destruct (R _) as [[v [d' p']]|e|]; [|done|done]. destruct HR as (Hv & Hd & Hp' & _). cbn [data pos] in *. subst d'.
  specialize (HK v Hv d p' ltac:(lia)). destruct (K v _) as [[w c]|e|]; [|done|done]. destruct HK as [? ?]. split; [done|lia].
Qed.
Lemma reader_safe_then {A B} (R : Reader A) (K : A → Reader B) :
  reader_safe R → (∀ a, reader_safe (K a)) → reader_safe (R ≫= K).
Proof.
  intros HR HK d p Hp. specialize (HR d p Hp). unfold mbind, st_bind.
  destruct (R _) as [[v [d' p']]|e|]; [|done|done]. destruct HR as (Hd & Hp'). cbn [data pos] in *. subst d'.
  specialize (HK v d p' ltac:(lia)). destruct (K v _) as [[w c]|e|]; [|done|done]. destruct HK as [? ?]. split; [done|lia].
Qed.
Lemma reader_safe_ret {A} (a : A) : reader_safe (mret a).
Proof. intros d p Hp. cbn. split; [done|lia]. Qed.
Lemma safe_remaining : reader_safe rc_remaining.
Proof. intros d p Hp. cbn. split; [done|lia]. Qed.
Lemma reader_safe_if {A} (b : bool) (R R' : Reader A) : reader_safe R → reader_safe R' → reader_safe (if b then R else R').
Proof. by destruct b. Qed.

Lemma parsed_safe {A} (R : Reader A) d : reader_safe R → parsed R d ≠ Panic.
Proof.
  intros HR. unfold parsed. specialize (HR d 0). pose proof (len_nonneg d). unfold ReadCursor_new.
  destruct (R (RC d 0)) as [[v c]|e|]; [done|done|]. intros _. apply HR. lia.
Qed.

Lemma parsed_reads {A} (R : Reader A) bs rest v : reads_at 0 R bs v → parsed R (bs ++ rest) = Ok v.
Proof. intros Hr. specialize (Hr [] rest eq_refl). cbn [app] in Hr. unfold parsed, ReadCursor_new. by rewrite Hr. Qed.

Lemma safe_ndr_string : reader_safe read_ndr_string.
Proof.
  unfold read_ndr_string. do 2 (eapply reader_safe_bind; [apply rok_u32|]; intros ? _).
  eapply reader_safe_bind; [apply rok_u32|]. intros n Hn. unfold in_range in Hn.
  apply reader_safe_if; [apply reader_safe_ret|]. eapply reader_safe_bind; [apply rok_utf16; lia|]. intros s _.
  eapply reader_safe_bind; [apply rok_position|]. intros q _. cbv zeta. apply reader_safe_then; [apply safe_remaining|]. intros r.
  apply reader_safe_then; [|intros; apply reader_safe_ret]. apply reader_safe_if; [|apply reader_safe_ret].
  eapply reader_ok_safe, rok_skip. pose proof (Z.mod_pos_bound (4 - q mod 4) 4). lia.
Qed.

Lemma safe_deferred l : reader_safe (read_deferred l).
Proof.
  induction l as [|e l IH]; cbn [read_deferred]; [apply reader_safe_ret|].
  do 2 (apply reader_safe_then; [apply reader_safe_if; [apply safe_ndr_string|apply reader_safe_ret]|]; intros ?).
  apply reader_safe_then; [done|]. intros. apply reader_safe_ret.
Qed.

Lemma rok_entry : reader_ok read_entry (λ _, True).
Proof. unfold read_entry. roks. by apply rok_ret. Qed.

Lemma safe_share_enum : reader_safe share_enum_reader.
Proof.
  unfold share_enum_reader.
  repeat first [ eapply reader_safe_bind; [first [apply rok_u32|apply rok_fail_if]|]; intros ? _
               | apply reader_safe_if; [apply reader_safe_ret|] ].
  eapply reader_safe_bind; [apply (rok_repeat _ _ (λ _, True)), rok_entry|]. intros. apply safe_deferred.
Qed.

(** No bytes make the parsers of this file panic. *)
Lemma rpc_parsers_safe d :
  parse_bind_ack d ≠ Panic ∧ parse_response_fragment d ≠ Panic ∧ parse_net_share_enum_all_stub d ≠ Panic.
Proof.
  split_and!.
  - apply parsed_safe, (reader_ok_safe _ (λ _, True)). roks. cbv zeta.
    eapply rok_bind; [apply rok_skip; pose proof (Z.mod_pos_bound (4 - (2 + v12) mod 4) 4); lia|].
    intros _ _. roks; try (by apply rok_ret).
  - apply parsed_safe, (reader_ok_safe _ (λ _, True)). roks; try (by apply rok_ret).
  - apply parsed_safe, safe_share_enum.
Qed.

(** ** What a server sends

    A share as the server marshals it: the two pointers may be null when the string
    they would point to is empty. *)
Record RemoteShare := mkRemoteShare { rs_info : ShareInfo; rs_name_ptr : Z; rs_comment_ptr : Z }.

(** A string without NUL at its end; it goes out with one. *)
Definition text_ok (ptr : Z) (s : list Z) : Prop :=
  is_u32 ptr ∧ (ptr = 0 → s = []) ∧ str_wf s ∧ last s ≠ Some 0 ∧ is_u32 (len (encode_utf16 (s ++ [0]))).

Record RemoteShare_wf (r : RemoteShare) : Prop := {
  rsw_name : text_ok (rs_name_ptr r) (si_name (rs_info r));
  rsw_comment : text_ok (rs_comment_ptr r) (si_comment (rs_info r));
  rsw_type : is_u32 (si_share_type (rs_info r))
}.

(** Conformant and varying: maximum, offset, actual count, units, padding. *)
Definition ndr_string (s : list Z) : bytes :=
  let n := len (encode_utf16 (s ++ [0])) in
  to_le 4 n ++ to_le 4 0 ++ to_le 4 n ++ utf16_le_bytes (s ++ [0]) ++ zeros (align_pad 4 (2 * n)).

Definition ndr_pointee (ptr : Z) (s : list Z) : bytes := if ptr =? 0 then [] else ndr_string s.

Definition ndr_entry (r : RemoteShare) : bytes :=
  to_le 4 (rs_name_ptr r) ++ to_le 4 (si_share_type (rs_info r)) ++ to_le 4 (rs_comment_ptr r).
Definition ndr_deferred (r : RemoteShare) : bytes :=
  ndr_pointee (rs_name_ptr r) (si_name (rs_info r)) ++ ndr_pointee (rs_comment_ptr r) (si_comment (rs_info r)).

(** Level, discriminant, container and array; what follows the array (the number of
    entries in all, the resume handle and the return code) is [trailer]. *)
Definition share_enum_stub (container_ptr array_ptr : Z) (shares : list RemoteShare) (trailer : bytes) : bytes :=
  to_le 4 1 ++ to_le 4 1 ++ to_le 4 container_ptr ++ to_le 4 (len shares) ++ to_le 4 array_ptr
  ++ (if is_empty shares then [] else to_le 4 (len shares) ++ (shares ≫= ndr_entry) ++ (shares ≫= ndr_deferred))
  ++ trailer.

Lemma trim_nul_app s : last s ≠ Some 0 → trim_nul (s ++ [0]) = s.
Proof.
  unfold trim_nul. induction s as [|c s IH]; [done|]. intros Hl. cbn [app].
  destruct s as [|c' s].
  - cbn. cbn in Hl. destruct (Z.eqb_spec c 0); [by subst|done].
  - rewrite IH by (by rewrite last_cons_cons in Hl). done.
Qed.

Lemma pad_is_align q : 0 <= q → (4 - q mod 4) mod 4 = align_pad 4 q.
Proof.
  intros Hq. unfold align_pad. pose proof (Z.mod_pos_bound q 4). destruct (Z.eqb_spec (q mod 4) 0) as [->|H0]; [done|].
  rewrite Z.mod_small; lia.
Qed.
Lemma align_pad_shift p q : p mod 4 = 0 → align_pad 4 (p + q) = align_pad 4 q.
Proof. intros Hp. unfold align_pad. by rewrite Z.add_mod, Hp, Z.add_0_l, Z.mod_mod by lia. Qed.

Lemma len_ndr_string s : len (ndr_string s) mod 4 = 0.
Proof.
  unfold ndr_string. set (n := len (encode_utf16 (s ++ [0]))). pose proof (align_pad_range 4 (2 * n)) as Hr.
  rewrite !len_app, !len_to_le, len_zeros by lia. unfold utf16_le_bytes. rewrite len_units. fold n.
  pose proof (align_pad_aligned 4 (2 * n) ltac:(lia)) as Ha.
  replace (Z.of_nat 4 + (Z.of_nat 4 + (Z.of_nat 4 + (2 * n + align_pad 4 (2 * n)))))
    with (2 * n + align_pad 4 (2 * n) + 3 * 4) by lia.
  by rewrite Z.mod_add by lia.
Qed.

Lemma reads_remaining_skip p pad n :
  n = len pad →
  reads_at p (rem ← rc_remaining; (if (n >? 0) && (rem >=? n) then skip n else mret tt)) pad tt.
Proof.
  intros Hn pre post Hp. unfold mbind, st_bind, rc_remaining, remaining. cbn [data pos].
  rewrite !len_app, Hp. pose proof (len_nonneg post). pose proof (len_nonneg pad).
  destruct (n >? 0) eqn:E.
  - replace (_ >=? n) with true by lia. cbn [andb]. by apply reads_skip.
  - cbn [andb]. destruct pad as [|b pad]; [|rewrite len_cons in Hn; pose proof (len_nonneg pad); lia].
    cbn. by rewrite len_nil, Z.add_0_r.
Qed.

Lemma reads_ndr_string p s :
  0 <= p → p mod 4 = 0 → str_wf s → last s ≠ Some 0 → is_u32 (len (encode_utf16 (s ++ [0]))) →
  reads_at p read_ndr_string (ndr_string s) s.
Proof.
  intros Hp0 Hp Hs Hl Hn. unfold read_ndr_string, ndr_string. set (n := len (encode_utf16 (s ++ [0]))) in *.
  eapply reads_bind; [by apply reads_u32|]. eapply reads_bind; [by apply reads_u32|].
  eapply reads_bind; [by apply reads_u32|].
  assert (0 < n) as Hpos.
  { unfold n, encode_utf16. rewrite bind_app, len_app. pose proof (len_nonneg (s ≫= char_utf16)).
    change (len ([0] ≫= char_utf16)) with 1. lia. }
  replace (n =? 0) with false by lia.
  assert (str_wf (s ++ [0])) as Hs0 by (apply Forall_app; by split; [|constructor]).
  assert (len (utf16_le_bytes (s ++ [0])) = 2 * n) as Hlen by (unfold utf16_le_bytes; by rewrite len_units).
  eapply reads_bind; [apply reads_utf16; [done|lia]|]. eapply reads_bind_0; [apply reads_position|]. cbv zeta.
  rewrite !len_to_le, Hlen. set (q := p + Z.of_nat 4 + Z.of_nat 4 + Z.of_nat 4 + 2 * n).
  assert (0 <= q) as Hq by lia. rewrite (pad_is_align q Hq).
  assert (align_pad 4 q = align_pad 4 (2 * n)) as Epad.
  { unfold q. replace (p + Z.of_nat 4 + Z.of_nat 4 + Z.of_nat 4 + 2 * n) with (p + 3 * 4 + 2 * n) by lia.
    apply align_pad_shift. by rewrite Z.mod_add by lia. }
  rewrite Epad. pose proof (align_pad_range 4 (2 * n)) as Hr.
  pose proof (reads_remaining_skip q (zeros (align_pad 4 (2 * n))) (align_pad 4 (2 * n))) as Hskip.
  rewrite len_zeros in Hskip by lia. specialize (Hskip eq_refl).
  intros pre post Hpre. specialize (Hskip pre post Hpre). revert Hskip. unfold mbind, st_bind, rc_remaining.
  set (c := RC _ q). destruct ((_ >? 0) && _).
  - intros ->. cbn. by rewrite trim_nul_app.
  - intros [= <-]. cbn. by rewrite trim_nul_app.
Qed.

Lemma reads_pointee p ptr s :
  0 <= p → p mod 4 = 0 → text_ok ptr s → reads_at p (deferred_string ptr) (ndr_pointee ptr s) s.
Proof.
  intros Hp0 Hp (_ & H0 & Hs & Hl & Hn). unfold deferred_string, ndr_pointee.
  destruct (Z.eqb_spec ptr 0) as [E|E]; cbn [negb]; [rewrite H0 by done; apply reads_ret|by apply reads_ndr_string].
Qed.
Lemma len_pointee ptr s : len (ndr_pointee ptr s) mod 4 = 0.
Proof. unfold ndr_pointee. case_test; [done|apply len_ndr_string]. Qed.

Lemma aligned_add p q : p mod 4 = 0 → q mod 4 = 0 → (p + q) mod 4 = 0.
Proof. intros Hp Hq. by rewrite Z.add_mod, Hp, Hq by lia. Qed.
#[local] Hint Resolve aligned_add len_pointee : smb.

Definition raw_entry (r : RemoteShare) : RawEntry :=
  mkRawEntry (rs_name_ptr r) (si_share_type (rs_info r)) (rs_comment_ptr r).

Lemma reads_deferred p l :
  0 <= p → p mod 4 = 0 → Forall RemoteShare_wf l →
  reads_at p (read_deferred (map raw_entry l)) (l ≫= ndr_deferred) (map rs_info l).
Proof.
  intros Hp0 Hp Hl. revert p Hp0 Hp. induction Hl as [|r l [Hn Hc Ht] Hl IH]; intros p Hp0 Hp; [apply reads_ret|].
  cbn [map read_deferred raw_entry re_name_ptr re_comment_ptr re_share_type]. rewrite bind_cons.
  unfold ndr_deferred at 1. rewrite <- app_assoc.
  pose proof (len_nonneg (ndr_pointee (rs_name_ptr r) (si_name (rs_info r)))).
  pose proof (len_nonneg (ndr_pointee (rs_comment_ptr r) (si_comment (rs_info r)))).
  eapply reads_bind; [by apply reads_pointee|].
  eapply reads_bind; [apply reads_pointee; [lia|auto with smb|done]|].
  eapply reads_bind_nil; [apply IH; [lia|auto with smb]|].
  destruct r as [[nm ty cm] np cp]. apply reads_ret.
Qed.

Lemma reads_entry p r : RemoteShare_wf r → reads_at p read_entry (ndr_entry r) (raw_entry r).
Proof.
  intros [Hn Hc Ht]. destruct Hn as [Hn _], Hc as [Hc _]. unfold read_entry, ndr_entry.
  eapply reads_bind; [by apply reads_u32|]. eapply reads_bind; [by apply reads_u32|].
  eapply reads_bind_nil; [by apply reads_u32|]. apply reads_ret.
Qed.

Lemma reads_entries p l :
  Forall RemoteShare_wf l → reads_at p (repeat_push (length l) read_entry) (l ≫= ndr_entry) (map raw_entry l).
Proof.
  intros Hl. revert p. induction Hl as [|r l Hr Hl IH]; intros p; [apply reads_ret|].
  cbn [length repeat_push map]. rewrite bind_cons. eapply reads_bind; [by apply reads_entry|].
  eapply reads_bind_nil; [apply IH|]. apply reads_ret.
Qed.

Lemma len_entries l : len (l ≫= ndr_entry) = 12 * len l.
Proof.
  induction l as [|r l IH]; [done|]. rewrite bind_cons, len_app, IH, len_cons. unfold ndr_entry.
  rewrite !len_app, !len_to_le. lia.
Qed.

(** The answer parses back to the shares, whatever the pointers and the trailer. *)
Lemma share_enum_back container_ptr array_ptr shares trailer :
  is_u32 container_ptr → container_ptr ≠ 0 → is_u32 array_ptr → array_ptr ≠ 0 →
  is_u32 (len shares) → Forall RemoteShare_wf shares →
  parse_net_share_enum_all_stub (share_enum_stub container_ptr array_ptr shares trailer)
  = Ok (map rs_info shares).
Proof.
  intros Hc Hc0 Ha Ha0 Hn Hl. unfold parse_net_share_enum_all_stub, share_enum_stub. rewrite !app_assoc.
  apply parsed_reads. rewrite <- !app_assoc. unfold share_enum_reader.
  eapply reads_bind; [by apply reads_u32|]. eapply reads_bind_0; [by apply reads_fail_if|].
  eapply reads_bind; [by apply reads_u32|]. eapply reads_bind_0; [by apply reads_fail_if|].
  eapply reads_bind; [by apply reads_u32|]. rewrite (proj2 (Z.eqb_neq container_ptr 0)) by done.
  eapply reads_bind; [by apply reads_u32|]. eapply reads_bind; [by apply reads_u32|].
  rewrite (proj2 (Z.eqb_neq array_ptr 0)) by done. cbn [orb].
  destruct shares as [|r l]; [cbn; apply reads_ret|].
  replace (len (r :: l) =? 0) with false by (rewrite len_cons; pose proof (len_nonneg l); lia).
  cbn [is_empty]. set (sh := r :: l) in *.
  eapply reads_bind; [by apply reads_u32|]. eapply reads_bind_0; [apply reads_fail_if; lia|].
  replace (Z.to_nat (len sh)) with (length sh) by (unfold len; lia).
  eapply reads_bind; [by apply reads_entries|]. apply reads_deferred; [|  |done].
  - rewrite !len_to_le, len_entries. pose proof (len_nonneg sh). lia.
  - rewrite !len_to_le, len_entries.
    match goal with |- (?x + _) mod 4 = 0 => replace x with (6 * 4) by lia end.
    replace (6 * 4 + 12 * len sh) with ((6 + 3 * len sh) * 4) by lia. apply Z.mod_mul. lia.
Qed.

(** ** PDUs *)

Definition response_pdu (flags call_id alloc_hint context_id cancel_count : Z) (stub : bytes) : bytes :=
  [byte_of_u8 5] ++ [byte_of_u8 0] ++ [byte_of_u8 2] ++ [byte_of_u8 flags] ++ DATA_REP
  ++ to_le 2 (24 + len stub) ++ to_le 2 0 ++ to_le 4 call_id ++ to_le 4 alloc_hint ++ to_le 2 context_id
  ++ [byte_of_u8 cancel_count] ++ [byte_of_u8 0] ++ stub.

Lemma response_fragment_back flags call_id hint ctx cancel stub :
  is_u8 flags → is_u32 call_id → is_u32 hint → is_u16 ctx → is_u8 cancel → is_u16 (24 + len stub) →
  parse_response_fragment (response_pdu flags call_id hint ctx cancel stub)
  = Ok (stub, negb (Z.land flags PFC_LAST_FRAG =? 0)).
Proof.
  intros Hf Hi Hh Hx Hc Hn. unfold parse_response_fragment, response_pdu.
  match goal with |- parsed _ ?b = _ => rewrite <- (app_nil_r b) end. apply parsed_reads.
  eapply reads_bind; [by apply reads_u8|]. eapply reads_bind; [by apply reads_u8|].
  eapply reads_bind_0; [by apply reads_fail_if|].
  eapply reads_bind; [by apply reads_u8|]. eapply reads_bind_0; [by apply reads_fail_if|].
  eapply reads_bind; [by apply reads_u8|]. eapply reads_bind; [by apply reads_read_bytes|].
  eapply reads_bind; [by apply reads_u16|]. eapply reads_bind; [by apply reads_u16|].
  eapply reads_bind; [by apply reads_u32|]. eapply reads_bind; [by apply reads_u32|].
  eapply reads_bind; [by apply reads_u16|]. eapply reads_bind; [by apply reads_u8|].
  eapply reads_bind; [by apply reads_u8|]. eapply reads_bind_0; [apply reads_position|].
  match goal with |- context [?x + len [byte_of_u8 0]] => change (x + len [byte_of_u8 0]) with 24 end.
  pose proof (len_nonneg stub). eapply reads_bind_0; [apply reads_fail_if; lia|].
  eapply reads_bind_nil; [apply reads_read_bytes; lia|]. apply reads_ret.
Qed.

(** What the client writes: the fragment length counts the whole PDU. *)
Definition client_pdu (ptype call_id n : Z) (body : bytes) : bytes :=
  [byte_of_u8 5] ++ [byte_of_u8 0] ++ [byte_of_u8 ptype] ++ [byte_of_u8 3] ++ DATA_REP
  ++ to_le 2 (trunc 16 n) ++ to_le 2 0 ++ to_le 4 call_id ++ body.

(** The header before its length is known. *)
Definition open_header (ptype call_id : Z) : bytes :=
  [byte_of_u8 5] ++ [byte_of_u8 0] ++ [byte_of_u8 ptype] ++ [byte_of_u8 3] ++ DATA_REP
  ++ to_le 2 0 ++ to_le 2 0 ++ to_le 4 call_id.

Lemma w_common_header ptype call_id : wtriple 0 [] (common_header ptype call_id) (open_header ptype call_id) 8.
Proof.
  unfold common_header. wsteps. eapply eq_ind_r with (P := λ b, wtriple _ _ _ b _); [apply w_ret|].
  cbn [app]. by rewrite <- !app_assoc.
Qed.

Lemma w_backpatch ptype call_id body B :
  B = open_header ptype call_id ++ body →
  wtriple 0 B (set_u16_le_at 8 (trunc 16 (0 + len B))) (client_pdu ptype call_id (16 + len body) body) tt.
Proof.
  intros ->.
  assert (0 + len (open_header ptype call_id ++ body) = 16 + len body) as ->.
  { unfold open_header. rewrite !len_app, !len_to_le. unfold len at 1 2 3 4 5. cbn [length DATA_REP]. lia. }
  pose proof (w_set16_at
    ([byte_of_u8 5] ++ [byte_of_u8 0] ++ [byte_of_u8 ptype] ++ [byte_of_u8 3] ++ DATA_REP) 0
    (to_le 2 0 ++ to_le 4 call_id ++ body) 0 (open_header ptype call_id ++ body) 8 (trunc 16 (16 + len body))) as Hset.
  unfold client_pdu. rewrite <- !app_assoc in Hset. apply Hset; [|done]. unfold open_header. by rewrite <- !app_assoc.
Qed.

Lemma build_request_layout call_id opnum stub :
  build_request call_id opnum stub
  = Ok (client_pdu PDU_TYPE_REQUEST call_id (24 + len stub)
          (to_le 4 (trunc 32 (len stub)) ++ to_le 2 0 ++ to_le 2 opnum ++ stub)).
Proof.
  apply written_layout. unfold writes_at. eapply w_bind; [apply w_common_header|]. wsteps.
  set (body := to_le 4 _ ++ to_le 2 0 ++ to_le 2 opnum ++ stub).
  replace (24 + len stub) with (16 + len body) by (unfold body; rewrite !len_app, !len_to_le; lia).
  apply w_backpatch. unfold body. by rewrite <- !app_assoc.
Qed.

Lemma build_bind_ok call_id : ∃ bs, build_srvsvc_bind call_id = Ok bs ∧ len bs = 72 ∧
  ∃ body, bs = client_pdu PDU_TYPE_BIND call_id 72 body.
Proof.
  assert (∃ body, build_srvsvc_bind call_id = Ok (client_pdu PDU_TYPE_BIND call_id (16 + len body) body) ∧ len body = 56)
    as (body & E & Hl).
  { eexists. split.
    - apply written_layout. unfold writes_at. eapply w_bind; [apply w_common_header|]. wsteps.
      eapply w_bind; [apply w_guid; [lia|done]|]. wsteps.
      eapply w_bind; [apply w_guid; [lia|done]|]. wsteps.
      apply w_backpatch. by rewrite <- !app_assoc.
    - done. }
  rewrite Hl in E. eexists. split; [exact E|]. split; [|by exists body].
  unfold client_pdu. rewrite !len_app, !len_to_le, Hl. done.
Qed.

(** The marshalled server name and the arguments of the call. *)
Lemma build_stub_layout server :
  let n := len (encode_utf16 (server ++ [0])) in
  build_net_share_enum_all_stub server
  = Ok (to_le 4 0x00020000 ++ to_le 4 n ++ to_le 4 0 ++ to_le 4 n ++ utf16_le_bytes (server ++ [0])
        ++ zeros (align_pad 4 (2 * n)) ++ to_le 4 1 ++ to_le 4 1 ++ to_le 4 0x00020004 ++ to_le 4 0 ++ to_le 4 0
        ++ to_le 4 0xFFFFFFFF ++ to_le 4 0).
Proof.
  intros n. apply written_layout. unfold writes_at. cbv zeta. wsteps.
  assert (encode_utf16 server ++ [0] = encode_utf16 (server ++ [0])) as E by (unfold encode_utf16; by rewrite bind_app).
  rewrite !E. fold n. eapply w_bind; [apply w_words|]. eapply w_bind; [by apply w_align|]. cbv beta. wsteps.
  fold (utf16_le_bytes (server ++ [0])).
  assert (len (utf16_le_bytes (server ++ [0])) = 2 * n) as Hl by (unfold utf16_le_bytes; by rewrite len_units).
  match goal with |- context [align_pad 4 ?q] => replace (align_pad 4 q) with (align_pad 4 (2 * n)) end.
  2: { rewrite !len_app, !len_to_le, Hl. symmetry.
       match goal with |- align_pad 4 ?q = _ => replace q with (4 * 4 + 2 * n) by (unfold len; cbn [length]; lia) end. by apply align_pad_shift. }
  wtrunc. eapply eq_ind_r with (P := λ b, wtriple _ _ _ b _); [wprim|]. cbn [app]. by rewrite <- !app_assoc.
Qed.
