(* ===== verification/Dfs.v ===== *)
(** * DFS referrals: the exchange and the cache

    Models [src/client/dfs.rs]: asking a server for a referral over IPC$, and
    [DfsResolver], which caches referrals by path prefix and resolves paths by the
    longest cached prefix.

    [str::to_lowercase] follows the Unicode tables and is a parameter; every
    reading of the clock during one call is the same instant. *)

From S2P Require Import Prelude Types Pack Codec Utf16 Name Header FileIo Ioctl Session Connection Pipeline Exec Referral.

(** ** Asking for a referral *)

Definition DFS_MAX_OUTPUT_RESPONSE : Z := 8192.

(** [\\server\IPC$] *)
Definition ipc_path (server : list Z) : list Z :=
  [Name.BACKSLASH; Name.BACKSLASH] ++ server ++ [Name.BACKSLASH; 0x49; 0x50; 0x43; 0x24].

Definition tree_connect_ipc : io Dialog Z :=
  server ← server_name;
  frame ← execute_msg TreeConnect (mkTreeConnectRequest 0 (ipc_path server)) None;
  if negb (bool_decide (command (fr_header frame) = TreeConnect))
  then io_err (invalid_data "expected TreeConnect response, got {:?}")
  else
    expect_success TreeConnect frame ;;
    _resp ← io_lift (unpack_body TreeConnectResponse (fr_body frame));
    match tree_id (fr_header frame) with
    | Some t => mret t
    | None => io_err (invalid_data "TreeConnect response missing tree ID")
    end.

Definition send_dfs_ioctl (tree_id : Z) (path : list Z) : io Dialog RespGetDfsReferral :=
  input_data ← io_lift (packed (mkReqGetDfsReferral 4 path));
  frame ← execute_msg Types.Ioctl
            (mkIoctlRequest FSCTL_DFS_GET_REFERRALS FileId_SENTINEL 0 DFS_MAX_OUTPUT_RESPONSE
               SMB2_0_IOCTL_IS_FSCTL input_data) (Some tree_id);
  expect_success Types.Ioctl frame ;;
  ioctl_resp ← io_lift (unpack_body IoctlResponse (fr_body frame));
  io_lift (unpack_body RespGetDfsReferral (ior_output_data ioctl_resp)).

Definition tree_disconnect (tree_id : Z) : io Dialog unit :=
  frame ← execute_msg TreeDisconnect mkTrivialMessage (Some tree_id);
  expect_success TreeDisconnect frame.

Definition get_dfs_referral (path : list Z) : io Dialog RespGetDfsReferral :=
  tree_id ← tree_connect_ipc;
  result ← attempt (send_dfs_ioctl tree_id path);
  _ ← attempt (tree_disconnect tree_id);
  io_lift result.

(** ** The resolver *)

Record ResolvedPath := mkResolvedPath {
  rp_server : list Z; rp_port : Z; rp_share : list Z; rp_remaining_path : list Z
}.

Record DfsTarget := mkDfsTarget {
  dt_server : list Z; dt_share : list Z; dt_remaining_prefix : list Z
}.

Record CachedReferral := mkCachedReferral {
  cr_dfs_path_prefix : list Z; cr_targets : list DfsTarget; cr_expires_at : Z
}.

Record DfsResolver := mkDfsResolver {
  dfs_cache : gmap (list Z) CachedReferral;
  cache_hits : Z;
  referrals_resolved : Z
}.

Definition DfsResolver_new : DfsResolver := mkDfsResolver ∅ 0 0.

(** [s.replace('/', "\\")] *)
Definition replace_slashes (s : list Z) : list Z :=
  map (λ c, if c =? Name.SLASH then Name.BACKSLASH else c) s.

(** [s.splitn(3, '\\')] and the optional third piece. *)
Fixpoint split_first (sep : Z) (s : list Z) : list Z * option (list Z) :=
  match s with
  | [] => ([], None)
  | c :: s =>
      if c =? sep then ([], Some s)
      else let '(piece, rest) := split_first sep s in (c :: piece, rest)
  end.

Definition parse_unc_target (network_address : list Z) : option DfsTarget :=
  let path := Name.trim_start Name.BACKSLASH network_address in
  let '(server, rest) := split_first Name.BACKSLASH path in
  match rest with
  | None => None
  | Some rest =>
      let '(share, rest) := split_first Name.BACKSLASH rest in
      let remaining_prefix := match rest with Some r => r | None => [] end in
      if is_empty server || is_empty share then None
      else Some (mkDfsTarget server share remaining_prefix)
  end.

(** [s.starts_with(prefix)] *)
Fixpoint str_starts_with (prefix s : list Z) : bool :=
  match prefix, s with
  | [], _ => true
  | p :: prefix, c :: s => (p =? c) && str_starts_with prefix s
  | _ :: _, [] => false
  end.

(** One step of the search over [cache.values()]. *)
Definition better (normalized : list Z) (now : Z) (best : option CachedReferral)
    (entry : CachedReferral) : option CachedReferral :=
  if str_starts_with (cr_dfs_path_prefix entry) normalized
     && (now <? cr_expires_at entry)
     && match best with
        | None => true
        | Some b => len (cr_dfs_path_prefix b) <? len (cr_dfs_path_prefix entry)
        end
  then Some entry else best.

(** The loop, over the entries in whatever order the map yields them. *)
Definition best_match (normalized : list Z) (now : Z) (entries : list CachedReferral) :
    option CachedReferral := fold_left (better normalized now) entries None.

Definition resolve_target (remaining : list Z) (target : DfsTarget) : ResolvedPath :=
  let full_remaining :=
    if is_empty (dt_remaining_prefix target) then remaining
    else if is_empty remaining then dt_remaining_prefix target
    else dt_remaining_prefix target ++ [Name.BACKSLASH] ++ remaining in
  mkResolvedPath (dt_server target) 445 (dt_share target) full_remaining.

Section resolver.
Context (to_lowercase : list Z → list Z).

Definition normalize (s : list Z) : list Z := replace_slashes (to_lowercase s).

(** [resolve_from_cache] over the entries in the given order. *)
Definition resolve_from (entries : list CachedReferral) (unc_path : list Z) (now : Z) :
    option (list ResolvedPath) :=
  let normalized := normalize unc_path in
  match best_match normalized now entries with
  | None => None
  | Some entry =>
      let remaining := drop (length (cr_dfs_path_prefix entry)) normalized in
      let remaining := Name.trim_start Name.BACKSLASH remaining in
      Some (map (resolve_target remaining) (cr_targets entry))
  end.

Definition resolve_from_cache (r : DfsResolver) (unc_path : list Z) (now : Z) :
    option (list ResolvedPath) :=
  resolve_from (map_to_list (dfs_cache r)).*2 unc_path now.

(** The cache key of a referral: normalised, with two leading backslashes. *)
Definition referral_prefix (dfs_path : list Z) : list Z :=
  let dfs_path_prefix := normalize dfs_path in
  if str_starts_with [Name.BACKSLASH; Name.BACKSLASH] dfs_path_prefix then dfs_path_prefix
  else match dfs_path_prefix with
       | c :: stripped => if c =? Name.BACKSLASH
                          then [Name.BACKSLASH; Name.BACKSLASH] ++ stripped else dfs_path_prefix
       | [] => dfs_path_prefix
       end.

(** Nanoseconds in a second. *)
Definition SECOND : Z := 1000000000.

Definition cache_referral (r : DfsResolver) (resp : RespGetDfsReferral) (now : Z) : DfsResolver :=
  match rsd_entries resp with
  | [] => r
  | first :: _ =>
      let dfs_path_prefix := referral_prefix (dre_dfs_path first) in
      let targets := omap (λ e, parse_unc_target (dre_network_address e)) (rsd_entries resp) in
      if is_empty targets then r
      else
        let ttl := Z.max (dre_ttl first) 1 in
        mkDfsResolver
          (<[dfs_path_prefix := mkCachedReferral dfs_path_prefix targets (now + ttl * SECOND)]> (dfs_cache r))
          (cache_hits r) (referrals_resolved r)
  end.

(** [resolve]: the state is the resolver together with the connection that
    reported the uncovered path. *)
Definition resolve (unc_path : list Z) (now : Z) : io (DfsResolver * Dialog) (list ResolvedPath) := λ rd,
  let '(r, d) := rd in
  match resolve_from_cache r unc_path now with
  | Some resolved =>
      Some (Ok resolved, (mkDfsResolver (dfs_cache r) (cache_hits r + 1) (referrals_resolved r), d))
  | None =>
      let referral_path :=
        if str_starts_with [Name.BACKSLASH; Name.BACKSLASH] unc_path then drop 1 unc_path else unc_path in
      match get_dfs_referral referral_path d with
      | None => None
      | Some (Err e, d) => Some (Err e, (r, d))
      | Some (Panic, d) => Some (Panic, (r, d))
      | Some (Ok resp, d) =>
          let r := mkDfsResolver (dfs_cache r) (cache_hits r) (referrals_resolved r + 1) in
          let r := cache_referral r resp now in
          match resolve_from_cache r unc_path now with
          | Some resolved => Some (Ok resolved, (r, d))
          | None => Some (Err (invalid_data "DFS referral response did not match the requested path"), (r, d))
          end
      end
  end.

End resolver.

(** ** The exchange *)

Lemma TreeConnectRequest_packs m : packs (A:=TreeConnectRequest) m.
Proof. unfold packs. eapply packs_by. unfold writes_at, pack, TreeConnectRequest_pack. wsteps. cbv zeta. wsteps. wprim. Qed.
Lemma ReqGetDfsReferral_packs m : packs (A:=ReqGetDfsReferral) m.
Proof. eapply packs_by. unfold writes_at, pack, ReqGetDfsReferral_pack. wsteps. wprim. Qed.
Lemma IoctlRequest_packs m : packs (A:=IoctlRequest) m.
Proof. eapply packs_by. unfold writes_at, pack, IoctlRequest_pack. wsteps. cbv zeta. wsteps. wprim. Qed.
Lemma TrivialMessage_packs m : packs (A:=TrivialMessage) m.
Proof. by apply codec_packs. Qed.
#[export] Hint Resolve TreeConnectRequest_packs ReqGetDfsReferral_packs IoctlRequest_packs
  TrivialMessage_packs : smb.

Lemma referral_no_panic body : unpack_body RespGetDfsReferral body ≠ Panic.
Proof.
  pose proof (referral_parse_safe body) as H. unfold unpack_body.
  by destruct (unpack RespGetDfsReferral (ReadCursor_new body)) as [[v c]|e|].
Qed.

Lemma quiet_referral body : quiet (io_lift (unpack_body RespGetDfsReferral body)).
Proof. apply quiet_lift, referral_no_panic. Qed.
#[export] Hint Resolve quiet_referral : smb.

Lemma connect_ipc_sends : sends_one TreeConnect None tree_connect_ipc.
Proof.
  unfold tree_connect_ipc. apply quiet_before; [by intros d; exists (dl_server_name d)|]. intros s.
  apply sends_one_bind; [auto with smb|]. intros f. apply quiet_if; [auto with smb|].
  apply quiet_bind; [auto with smb|]. intros []. apply quiet_bind; [auto with smb|]. intros resp.
  destruct (tree_id (fr_header f)); auto with smb.
Qed.
Lemma ioctl_sends t path : sends_one Types.Ioctl (Some t) (send_dfs_ioctl t path).
Proof.
  unfold send_dfs_ioctl. destruct (ReqGetDfsReferral_packs (mkReqGetDfsReferral 4 path)) as [bs ->].
  apply quiet_before; [intros d; by exists bs|]. intros b.
  apply sends_one_bind; [auto with smb|]. intros f. auto with smb.
Qed.
Lemma disconnect_sends t : sends_one TreeDisconnect (Some t) (tree_disconnect t).
Proof. unfold tree_disconnect. apply sends_one_bind; auto with smb. Qed.

(** ** The search *)

Lemma starts_with_spec p s : str_starts_with p s = true ↔ p `prefix_of` s.
Proof.
  revert s. induction p as [|a p IH]; intros s; cbn [str_starts_with].
  - split; [intros _; apply prefix_nil|done].
  - destruct s as [|c s]; [split; [done|]; intros H; by apply prefix_nil_not in H|].
    rewrite andb_true_iff, Z.eqb_eq, IH. split.
    + intros [-> H]. by apply prefix_cons.
    + intros H. split; [by apply prefix_cons_inv_1 in H|by apply prefix_cons_inv_2 in H].
Qed.

(** An entry a lookup may use. *)
Definition usable (normalized : list Z) (now : Z) (e : CachedReferral) : Prop :=
  cr_dfs_path_prefix e `prefix_of` normalized ∧ now < cr_expires_at e.

#[global] Instance usable_dec n now e : Decision (usable n now e).
Proof. unfold usable. apply _. Defined.

(** [e] is a usable entry of [l] with a prefix at least as long as any other. *)
Definition longest (normalized : list Z) (now : Z) (l : list CachedReferral) (e : CachedReferral) : Prop :=
  e ∈ l ∧ usable normalized now e ∧
  ∀ e', e' ∈ l → usable normalized now e' → len (cr_dfs_path_prefix e') <= len (cr_dfs_path_prefix e).

Lemma best_match_spec n now l :
  match best_match n now l with
  | Some e => longest n now l e
  | None => ∀ e, e ∈ l → ¬ usable n now e
  end.
Proof.
  unfold best_match. induction l as [|x l IH] using rev_ind; [set_solver|].
  rewrite fold_left_app. cbn [fold_left]. set (b := fold_left _ l None) in *.
  unfold better. destruct (decide (usable n now x)) as [Hx|Hx].
  - destruct Hx as [Hp He]. rewrite (proj2 (starts_with_spec _ _) Hp), (proj2 (Z.ltb_lt _ _) He).
    cbn [andb]. destruct b as [e|].
    + destruct IH as (Hin & Hu & Hmax). case_test; (split; [set_solver|]); (split; [done|]);
        intros e' [He'|He']%elem_of_app; try (apply list_elem_of_singleton in He' as ->);
        intros Hu'; try lia; pose proof (Hmax e' He' Hu'); lia.
    + split; [set_solver|]. split; [done|]. intros e' [He'|He']%elem_of_app Hu'; [by destruct (IH e' He')|].
      apply list_elem_of_singleton in He' as ->. lia.
  - assert (str_starts_with (cr_dfs_path_prefix x) n && (now <? cr_expires_at x) = false) as ->.
    { destruct (_ && _) eqn:E; [|done]. bool_prop. destruct Hx. split; [by apply starts_with_spec|lia]. }
    cbn [andb]. destruct b as [e|].
    + destruct IH as (Hin & Hu & Hmax). split; [set_solver|]. split; [done|].
      intros e' [He'|He']%elem_of_app Hu'; [by apply Hmax|]. by apply list_elem_of_singleton in He' as ->.
    + intros e' [He'|He']%elem_of_app; [by apply IH|]. by apply list_elem_of_singleton in He' as ->.
Qed.

(** Entries with different prefixes have one longest entry. *)
Lemma longest_unique n now l e1 e2 :
  (∀ a b, a ∈ l → b ∈ l → cr_dfs_path_prefix a = cr_dfs_path_prefix b → a = b) →
  longest n now l e1 → longest n now l e2 → e1 = e2.
Proof.
  intros Hinj (H1 & [P1 X1] & M1) (H2 & [P2 X2] & M2). apply Hinj; [done|done|].
  pose proof (M1 e2 H2 (conj P2 X2)). pose proof (M2 e1 H1 (conj P1 X1)).
  destruct P1 as [t1 E1], P2 as [t2 E2]. rewrite E1 in E2. unfold len in *.
  by apply app_inj_1 in E2 as [-> _]; [|lia].
Qed.

Lemma best_match_permutation n now l l' :
  (∀ a b, a ∈ l → b ∈ l → cr_dfs_path_prefix a = cr_dfs_path_prefix b → a = b) →
  l ≡ₚ l' → best_match n now l' = best_match n now l.
Proof.
  intros Hinj Hp. pose proof (best_match_spec n now l) as H1. pose proof (best_match_spec n now l') as H2.
  assert (∀ x, x ∈ l ↔ x ∈ l') as Hel by (intros x; by rewrite Hp).
  destruct (best_match n now l) as [e1|], (best_match n now l') as [e2|].
  - f_equal. apply (longest_unique n now l); [done| |done].
    destruct H2 as (A & B & D). split; [by apply Hel|]. split; [done|]. intros e' He'. apply D. by apply Hel.
  - destruct H1 as (A & B & _). apply Hel in A. by destruct (H2 e1 A).
  - destruct H2 as (A & B & _). apply Hel in A. by destruct (H1 e2 A).
  - done.
Qed.

(** *** The cache *)

(** Every entry is filed under its own prefix and has a target. *)
Definition cache_ok (r : DfsResolver) : Prop :=
  ∀ k e, dfs_cache r !! k = Some e → cr_dfs_path_prefix e = k ∧ cr_targets e ≠ [].

Lemma cache_ok_new : cache_ok DfsResolver_new.
Proof. by intros k e. Qed.

Lemma cache_referral_ok lower r resp now : cache_ok r → cache_ok (cache_referral lower r resp now).
Proof.
  intros Hr. unfold cache_referral. destruct (rsd_entries resp) as [|first rest]; [done|]. cbv zeta.
  destruct (omap _ _) as [|t ts] eqn:Et; cbn [is_empty]; [done|].
  intros k e. cbn [dfs_cache]. intros [[<- <-]|[_ H]]%lookup_insert_Some; [done|by apply Hr].
Qed.

Lemma cache_values_injective r a b :
  cache_ok r → a ∈ (map_to_list (dfs_cache r)).*2 → b ∈ (map_to_list (dfs_cache r)).*2 →
  cr_dfs_path_prefix a = cr_dfs_path_prefix b → a = b.
Proof.
  intros Hr ([k1 x1] & -> & H1)%list_elem_of_fmap ([k2 x2] & -> & H2)%list_elem_of_fmap E.
  apply elem_of_map_to_list in H1, H2. cbn in *.
  destruct (Hr k1 x1 H1) as [E1 _], (Hr k2 x2 H2) as [E2 _]. simplify_eq. congruence.
Qed.

Definition ascii_lowercase (s : list Z) : list Z :=
  map (λ c, if (65 <=? c) && (c <=? 90) then c + 32 else c) s.

(** ** Properties *)

(** Asking for a referral never panics, always returns, and leaves no tree
    behind: it sends either the TREE_CONNECT to IPC$ alone, when that fails, or
    TREE_CONNECT, the referral IOCTL and TREE_DISCONNECT of the tree it got,
    whatever the server answers in between. *)
Theorem dfs_referral_exchange path d :
  ∃ r d', get_dfs_referral path d = Some (r, d') ∧ r ≠ Panic ∧ ∃ b1,
    (dl_sent d' = dl_sent d ++ [SentOne (mkRequest TreeConnect b1 None)] ∧ is_err r = true ∨
     ∃ t b2 b3, dl_sent d' = dl_sent d ++ [SentOne (mkRequest TreeConnect b1 None);
                                           SentOne (mkRequest Types.Ioctl b2 (Some t));
                                           SentOne (mkRequest TreeDisconnect b3 (Some t))]).
Proof.
  destruct (connect_ipc_sends d) as (rc & d1 & b1 & Ec & Hc & Hs1).
  unfold get_dfs_referral, mbind, io_bind. rewrite Ec.
  destruct rc as [t|e|]; [|by eexists _, _; split_and!; [done..|]; exists b1; left|done].
  destruct (ioctl_sends t path d1) as (ri & d2 & b2 & Ei & Hi & Hs2).
  destruct (disconnect_sends t d2) as (rd & d3 & b3 & Ed & Hd & Hs3).
  exists ri, d3. assert (attempt (send_dfs_ioctl t path) d1 = Some (Ok ri, d2)) as ->
    by (unfold attempt; rewrite Ei; by destruct ri).
  assert (attempt (tree_disconnect t) d2 = Some (Ok rd, d3)) as ->
    by (unfold attempt; rewrite Ed; by destruct rd).
  split_and!; [done|done|]. exists b1. right. exists t, b2, b3.
  by rewrite Hs3, Hs2, Hs1, <- !app_assoc.
Qed.

(** A lookup in a well-formed referral cache uses the unexpired entry with
    the longest prefix of the path, gives one resolved path per target of that
    entry, and fails exactly when no unexpired entry covers the path; the order
    in which the hash map yields its entries does not matter; and caching a
    referral keeps the cache well-formed. *)
Theorem dfs_longest_prefix lower r unc_path now entries resp :
  cache_ok r → entries ≡ₚ (map_to_list (dfs_cache r)).*2 →
  resolve_from lower entries unc_path now = resolve_from_cache lower r unc_path now ∧
  cache_ok (cache_referral lower r resp now) ∧
  match resolve_from_cache lower r unc_path now with
  | None => ∀ k e, dfs_cache r !! k = Some e → ¬ usable (normalize lower unc_path) now e
  | Some l => ∃ k e, dfs_cache r !! k = Some e ∧
      longest (normalize lower unc_path) now (map_to_list (dfs_cache r)).*2 e ∧
      l ≠ [] ∧ length l = length (cr_targets e) ∧
      map rp_share l = map dt_share (cr_targets e)
  end.
Proof.
  intros Hr Hp. split_and!.
  - unfold resolve_from_cache, resolve_from. cbv zeta. erewrite best_match_permutation; [done| |by symmetry].
    intros a b. by apply cache_values_injective.
  - by apply cache_referral_ok.
  - unfold resolve_from_cache, resolve_from. cbv zeta.
    pose proof (best_match_spec (normalize lower unc_path) now (map_to_list (dfs_cache r)).*2) as Hb.
    destruct (best_match _ _ _) as [e|].
    + pose proof Hb as (Hin & _ & _). apply list_elem_of_fmap in Hin as ([k x] & -> & Hk).
      apply elem_of_map_to_list in Hk. exists k, x. cbn [snd] in *. split_and!; [done|done|..].
      * destruct (Hr k x Hk) as [_ Ht]. by destruct (cr_targets x).
      * by rewrite length_map.
      * rewrite map_map. by apply map_ext.
    + intros k e Hk. apply Hb, list_elem_of_fmap. exists (k, e). split; [done|]. by apply elem_of_map_to_list.
Qed.

(** [\\srv\dfs] with one target [\\host\vol]. *)
Definition example_prefix : list Z := [92; 92; 115; 114; 118; 92; 100; 102; 115].
Definition example_cache : DfsResolver :=
  mkDfsResolver {[ example_prefix :=
    mkCachedReferral example_prefix [mkDfsTarget [104; 111; 115; 116] [118; 111; 108] []] 100 ]} 0 0.

Lemma dfs_longest_prefix_witness :
  ∃ k e, dfs_cache example_cache !! k = Some e ∧
    longest (normalize ascii_lowercase (example_prefix ++ [92; 97])) 5
      (map_to_list (dfs_cache example_cache)).*2 e ∧
    [mkResolvedPath [104; 111; 115; 116] 445 [118; 111; 108] [97]] ≠ [] ∧
    length [mkResolvedPath [104; 111; 115; 116] 445 [118; 111; 108] [97]] = length (cr_targets e) ∧
    map rp_share [mkResolvedPath [104; 111; 115; 116] 445 [118; 111; 108] [97]] = map dt_share (cr_targets e).
Proof.
  assert (cache_ok example_cache) as Hok.
  { intros k e H. cbn [example_cache dfs_cache] in H. by apply lookup_singleton_Some in H as [<- <-]. }
  pose proof (dfs_longest_prefix ascii_lowercase example_cache (example_prefix ++ [92; 97]) 5
    _ (mkRespGetDfsReferral 0 0 []) Hok (Permutation_refl _)) as (_ & _ & H).
  exact H.
Defined.

(** A prefix is matched as a string and not by path components: with a referral
    for [\\srv\dfs] cached, the unrelated path [\\srv\dfs2\a] is resolved to
    [2\a] on the target. *)
Example dfs_prefix_splits_component :
  resolve_from_cache ascii_lowercase example_cache (example_prefix ++ [50; 92; 97]) 5
  = Some [mkResolvedPath [104; 111; 115; 116] 445 [118; 111; 108] [50; 92; 97]].
Proof. vm_compute. reflexivity. Qed.

(** The remainder handed to the target is the lower-cased path: [\\srv\dfs\A] is
    resolved to [a]. *)
Example dfs_lowers_remaining_path :
  resolve_from_cache ascii_lowercase example_cache (example_prefix ++ [92; 65]) 5
  = Some [mkResolvedPath [104; 111; 115; 116] 445 [118; 111; 108] [97]].
Proof. vm_compute. reflexivity. Qed.
