(* ===== verification/Transfer.v ===== *)
(** * What concurrent writes leave in a file

    The pipelined writers of [src/client/tree.rs] and [src/client/stream.rs]
    launch WRITEs that follow each other in the file, have the server process
    them in any order, and count the bytes it acknowledges.  [wrote] is the
    invariant they share; its steps are a request launched, served, and its
    answer delivered.  When nothing is in flight and every byte has been
    acknowledged, the file is what one write of all the data would have left
    ([wrote_all]). *)

From S2P Require Import Prelude Types Pack Codec Header FileIo Create Pipeline.

Section writes.
Context {C : Type} `{FileServer C}.
(** The handle, the content before, and the offset of the first byte. *)
Context (fid : FileId) (old : bytes) (base : Z) (Hbase : 0 <= base).

(** The bytes a WRITE in flight carries, and the positions it covers. *)
Definition op_data (f : fut) : bytes := match f_op f with OpWrite m => wrq_data m | _ => [] end.
Definition op_offset (f : fut) : Z := match f_op f with OpWrite m => wrq_offset m | _ => 0 end.
Definition covers (f : fut) (x : Z) : Prop := op_offset f <= x < op_offset f + len (op_data f).

Definition carried (q : InFlight) : Z := foldr (λ f n, len (op_data f) + n) 0 q.

(** The answer acknowledges [n] bytes. *)
Definition acks (f : fut) (n : Z) : Prop :=
  ∃ body resp, f_answer f = Some (Ok (NtStatus.SUCCESS, body)) ∧
    unpack_body WriteResponse body = Ok resp ∧ wrr_count resp = n.

(** An answer that makes the writer fail. *)
Definition failed (f : fut) : Prop := (∃ r, f_answer f = Some r) ∧ ∀ n, ¬ acks f n.

(** [f] writes its part of [log], the data launched so far. *)
Definition writes_part (log : bytes) (f : fut) : Prop :=
  (∃ m, f_op f = OpWrite m ∧ wrq_file_id m = fid) ∧ f_answer f ≠ Some Panic ∧
  base <= op_offset f ∧ op_offset f - base + len (op_data f) <= len log ∧
  (∀ x, covers f x → op_data f !! Z.to_nat (x - op_offset f) = log !! Z.to_nat (x - base)) ∧
  ∀ n, acks f n → 0 <= n <= len (op_data f).

(** Position [x] of the file holds its byte of [log]. *)
Definition stored (log : bytes) (c : C) (x : Z) : Prop :=
  0 <= x - base < len log ∧ content c fid !! Z.to_nat x = log !! Z.to_nat (x - base).

Record stored_so_far (log : bytes) (full : Prop) (c : C) (q : InFlight) : Prop := {
  sf_settled : full → ∀ x, 0 <= x - base < len log → Forall (λ f, ¬ covers f x) q → stored log c x;
  sf_served : ∀ f n, f ∈ q → acks f n →
    ∀ x, op_offset f <= x < op_offset f + n → stored log c x;
  sf_rest : ∀ x, 0 <= x < len old → ¬ 0 <= x - base < len log →
    content c fid !! Z.to_nat x = old !! Z.to_nat x;
  sf_len : len old <= len (content c fid)
           <= if is_empty log then len old else Z.max (len old) (base + len log)
}.

(** [acked] bytes acknowledged out of [log]: what has been delivered accounts
    for the rest of what was launched, and unless a failure is on its way, the
    file holds what has been acknowledged. *)
Definition wrote (log : bytes) (acked : Z) (c : C) (q : InFlight) : Prop :=
  ∃ delivered, acked <= delivered ∧ delivered + carried q = len log ∧
    Forall (writes_part log) q ∧
    (Exists failed q ∨ stored_so_far log (acked = delivered) c q).

(** The order in which requests are kept does not matter. *)
#[local] Instance Exists_perm (P : fut → Prop) : Proper (Permutation ==> impl) (Exists P).
Proof.
  intros q q' Hp (f & Hf & HP)%Exists_exists. apply Exists_exists. exists f. by rewrite <- Hp.
Qed.

#[local] Instance stored_so_far_perm log full c : Proper (Permutation ==> impl) (stored_so_far log full c).
Proof.
  intros q q' Hp [Hset Hsrv Hrest Hlen]. split; [|intros f n; rewrite <- Hp; apply Hsrv|done|done].
  intros Hfull x Hx Hc. apply Hset; [done..|]. by rewrite Hp.
Qed.

(** ** Steps *)

Lemma wrote_start c : content c fid = old → wrote [] 0 c [].
Proof.
  intros Hc. exists 0. split; [done|]. split; [done|]. split; [constructor|]. right.
  split; [intros _ x Hx; exfalso; change (len (@nil byte)) with 0 in Hx; lia|by intros f n ?%elem_of_nil| |].
  - intros x _ _. by rewrite Hc.
  - rewrite Hc. cbn. lia.
Qed.

(** A byte in place stays in place when any part of the log is written. *)
Lemma stored_patched log c c' f n x :
  writes_part log f → 0 <= n <= len (op_data f) →
  patched (content c fid) (content c' fid) (op_offset f) (take (Z.to_nat n) (op_data f)) →
  stored log c x ∨ op_offset f <= x < op_offset f + n → stored log c' x.
Proof.
  intros (_ & _ & Hlo & Hhi & Hd & _) Hn (_ & Hin & Hout) Hx.
  assert (len (take (Z.to_nat n) (op_data f)) = n) as Hlen by (unfold len in *; rewrite length_take; lia).
  rewrite Hlen in Hin, Hout.
  destruct (decide (op_offset f <= x < op_offset f + n)) as [Hc|Hnc].
  - split; [lia|]. specialize (Hin (x - op_offset f) ltac:(lia)).
    replace (op_offset f + (x - op_offset f)) with x in Hin by lia. rewrite Hin.
    rewrite lookup_take_lt by lia. apply Hd. unfold covers. lia.
  - destruct Hx as [[Hr Hs]|]; [|done]. split; [done|]. rewrite Hout; [done| |done].
    assert (is_Some (content c fid !! Z.to_nat x)) as Hsome.
    { rewrite Hs. apply lookup_lt_is_Some. unfold len in *. lia. }
    apply lookup_lt_is_Some in Hsome. unfold len. lia.
Qed.

Lemma acks_fun f n n' : acks f n → acks f n' → n = n'.
Proof. intros (b & r & E & U & <-) (b' & r' & E' & U' & <-). congruence. Qed.

Lemma acks_dec f : (∃ n, acks f n) ∨ ∀ n, ¬ acks f n.
Proof.
  destruct (f_answer f) as [[[status body]|e|]|] eqn:E;
    try (right; intros n (b & r & E' & _); congruence).
  destruct (decide (status = NtStatus.SUCCESS)) as [->|Hne];
    [|right; intros n (b & r & E' & _); congruence].
  destruct (unpack_body WriteResponse body) as [resp|e|] eqn:U.
  - left. by exists (wrr_count resp), body, resp.
  - right. intros n (b & r & E' & U' & _). congruence.
  - right. intros n (b & r & E' & U' & _). congruence.
Qed.

Lemma carried_ops q q' : map f_op q = map f_op q' → carried q = carried q'.
Proof.
  revert q'. induction q as [|f q IH]; intros [|f' q']; try done. intros [= E1 E2].
  change (len (op_data f) + carried q = len (op_data f') + carried q').
  rewrite (IH q') by done. unfold op_data. by rewrite E1.
Qed.

Lemma carried_delete q i f : q !! i = Some f → carried q = len (op_data f) + carried (delete i q).
Proof.
  revert i. induction q as [|f' q IH]; intros [|i]; try done.
  - by intros [= ->].
  - intros E. change (len (op_data f') + carried q
      = len (op_data f) + (len (op_data f') + carried (delete i q))). rewrite (IH i E). lia.
Qed.

Lemma carried_app q f : carried (q ++ [f]) = carried q + len (op_data f).
Proof.
  induction q as [|f' q IH]; [cbn; lia|].
  change (len (op_data f') + carried (q ++ [f]) = len (op_data f') + carried q + len (op_data f)). lia.
Qed.

(** A WRITE that is served and acknowledges [n] bytes. *)
Lemma stored_served log full c q i f r c' n :
  stored_so_far log full c q → q !! i = Some f → writes_part log f → acks (answered f r) n →
  0 <= n <= len (op_data f) →
  patched (content c fid) (content c' fid) (op_offset f) (take (Z.to_nat n) (op_data f)) →
  stored_so_far log full c' (<[i := answered f r]> q).
Proof.
  intros [Hset Hsrv Hrest Hlen] Hi Hf Ha Hn Hp.
  assert (∀ x, stored log c x ∨ op_offset f <= x < op_offset f + n → stored log c' x) as Hkeep
    by (intros x; by eapply stored_patched).
  pose proof Hf as (_ & _ & Hlo & Hhi & _). destruct Hp as (Hpl & _ & Hout).
  assert (len (take (Z.to_nat n) (op_data f)) = n) as Etk by (unfold len in *; rewrite length_take; lia).
  split.
  - intros Hfull x Hx Hc. apply Hkeep. left. apply Hset; [done..|].
    apply Forall_lookup. intros j g Hj. destruct (decide (i = j)) as [->|Hne].
    + rewrite Hj in Hi. injection Hi as ->. refine (proj1 (Forall_lookup _ _) Hc j (answered f r) _).
      apply list_lookup_insert_eq. by apply lookup_lt_Some in Hj.
    + refine (proj1 (Forall_lookup _ _) Hc j g _). by rewrite list_lookup_insert_ne.
  - intros g k (j & Hj)%list_elem_of_lookup Hk. destruct (decide (i = j)) as [->|Hne].
    + rewrite list_lookup_insert_eq in Hj by (by apply lookup_lt_Some in Hi). injection Hj as <-.
      rewrite (acks_fun _ _ _ Hk Ha). intros x Hx. apply Hkeep. by right.
    + rewrite list_lookup_insert_ne in Hj by done. intros x Hx. apply Hkeep. left.
      by apply (Hsrv g k); [eapply list_elem_of_lookup_2|..].
  - intros x Hx Hnl. rewrite Hout; [by apply Hrest|lia|rewrite Etk; lia].
  - rewrite Etk in Hpl. rewrite Hpl. destruct (take _ (op_data f)) as [|b tl] eqn:Et; cbn [is_empty]; [done|].
    rewrite len_cons in Etk. pose proof (len_nonneg tl).
    destruct log as [|b' log]; cbn [is_empty] in *; [|lia].
    change (len (@nil byte)) with 0 in Hhi. lia.
Qed.

(** What the answer to a WRITE says has been stored. *)
Lemma acks_stored log c f r c' n :
  writes_part log f → execute_with_credits c (f_tree_id f) (f_op f) (f_charge f) = (r, c') →
  acks (answered f r) n →
  0 <= n <= len (op_data f) ∧
  patched (content c fid) (content c' fid) (op_offset f) (take (Z.to_nat n) (op_data f)).
Proof.
  intros ((m & Hm & <-) & _) Hx (body & resp & [= ->] & Hu & <-). rewrite Hm in Hx.
  unfold op_data, op_offset. rewrite Hm. by eapply fs_write.
Qed.

(** The server processes a request in flight. *)
Lemma wrote_served log acked c q i f r c' :
  wrote log acked c q → q !! i = Some f → f_answer f = None →
  execute_with_credits c (f_tree_id f) (f_op f) (f_charge f) = (r, c') →
  wrote log acked c' (<[i := answered f r]> q).
Proof.
  intros (dl & Hle & Hsum & Hops & Hst) Hi Ha Hx.
  pose proof (proj1 (Forall_lookup _ _) Hops _ _ Hi) as Hf.
  assert (map f_op (<[i := answered f r]> q) = map f_op q) as Hmap.
  { rewrite list_fmap_insert. apply list_insert_id. by rewrite list_lookup_fmap, Hi. }
  assert (writes_part log (answered f r)) as Hf'.
  { pose proof Hf as (Hm & Hnp & Hlo & Hhi & Hd & _). split_and!; try done.
    - cbn. intros [= ->]. by apply fs_no_panic in Hx.
    - intros n Hn. by apply (acks_stored log c f r c' n). }
  exists dl. split; [done|]. split; [by rewrite (carried_ops _ _ Hmap)|].
  split; [by apply Forall_insert|].
  destruct Hst as [Hb|Hst].
  { left. apply Exists_exists in Hb as (g & (j & Hj)%list_elem_of_lookup & Hg).
    apply Exists_exists. exists g. split; [|done]. apply list_elem_of_lookup. exists j.
    rewrite list_lookup_insert_ne; [done|]. intros ->. simplify_eq. destruct Hg as [[? ?] _]. congruence. }
  destruct (acks_dec (answered f r)) as [[n Hn]|Hn]; [right|left].
  - destruct (acks_stored log c f r c' n Hf Hx Hn). by eapply stored_served.
  - apply Exists_exists. exists (answered f r). split; [|split; [by eexists|done]].
    apply list_elem_of_lookup. exists i. apply list_lookup_insert_eq. by apply lookup_lt_Some in Hi.
Qed.

(** An acknowledgement reaches the writer. *)
Lemma wrote_delivered log acked c q i f n :
  wrote log acked c q → q !! i = Some f → acks f n → wrote log (acked + n) c (delete i q).
Proof.
  intros (dl & Hle & Hsum & Hops & Hst) Hi Ha. rewrite (carried_delete q i f Hi) in Hsum.
  pose proof (proj1 (Forall_lookup _ _) Hops _ _ Hi) as (_ & _ & _ & _ & _ & Hn). specialize (Hn n Ha).
  exists (dl + len (op_data f)). split; [lia|]. split; [lia|]. split; [by apply Forall_delete|].
  rewrite (delete_Permutation q i f Hi) in Hst.
  destruct Hst as [[[_ Hb]|Hb]%Exists_cons|[Hset Hsrv Hrest Hlen]]; [by apply Hb in Ha|by left|].
  right. split; [|intros g k Hg; apply Hsrv; by apply list_elem_of_further|done|done].
  intros Hfull x Hx Hc. assert (n = len (op_data f)) as -> by lia.
  destruct (decide (op_offset f <= x < op_offset f + len (op_data f))) as [Hcov|Hcov].
  - eapply Hsrv; [apply list_elem_of_here|done..].
  - apply Hset; [lia|done|]. by constructor.
Qed.

(** The next bytes are launched. *)
Lemma wrote_launched log acked c q f m :
  wrote log acked c q → f_op f = OpWrite m → f_answer f = None → wrq_file_id m = fid →
  wrq_offset m = base + len log →
  wrote (log ++ wrq_data m) acked c (q ++ [f]).
Proof.
  intros (dl & Hle & Hsum & Hops & Hst) Hm Ha Hfid Hoff.
  assert (op_data f = wrq_data m) as Ed by (unfold op_data; by rewrite Hm).
  assert (op_offset f = wrq_offset m) as Eo by (unfold op_offset; by rewrite Hm).
  pose proof (len_nonneg (wrq_data m)). pose proof (len_nonneg log).
  exists dl. split; [done|]. split; [rewrite carried_app, Ed, len_app; lia|].
  assert (∀ x, 0 <= x < len log → (log ++ wrq_data m) !! Z.to_nat x = log !! Z.to_nat x) as Hlog
    by (intros x Hx; apply lookup_app_l; unfold len in *; lia).
  assert (∀ x, stored log c x → stored (log ++ wrq_data m) c x) as Hmono.
  { intros x [Hr Hs]. split; [rewrite len_app; lia|]. by rewrite Hlog. }
  split.
  - apply Forall_app. split.
    + eapply Forall_impl; [done|]. intros g (Hg & Hnp & Hlo & Hhi & Hd & Hk).
      split_and!; try done; [rewrite len_app; lia|]. intros x Hx. rewrite Hd by done. symmetry.
      apply Hlog. unfold covers in Hx. lia.
    + constructor; [|done]. split_and!; [by eexists|by rewrite Ha|lia|rewrite Eo, Ed, len_app; lia| |].
      * intros x Hx. unfold covers in Hx. rewrite Eo, Ed in *. rewrite lookup_app_r by (unfold len in *; lia).
        f_equal. unfold len in *. lia.
      * intros n (b & r & E & _). congruence.
  - destruct Hst as [Hb|[Hset Hsrv Hrest Hlen]]; [left; by apply Exists_app; left|right]. split.
    + intros Hfull x Hx Hc. rewrite len_app in Hx. apply Forall_app in Hc as [Hc [Hcf _]%Forall_cons].
      apply Hmono, Hset; [done| |done]. unfold covers in Hcf. rewrite Eo, Ed in Hcf. lia.
    + intros g n [Hg|Hg%list_elem_of_singleton]%elem_of_app Hk x Hx; [by eapply Hmono, Hsrv|].
      subst g. destruct Hk as (b & r & E & _). congruence.
    + intros x Hx Hnl. apply Hrest; [done|]. rewrite len_app in Hnl. lia.
    + split; [apply Hlen|]. destruct log as [|b log], (wrq_data m) as [|b' d];
        cbn [is_empty app] in *; rewrite ?len_cons, ?len_app, ?len_cons in *; try lia.
Qed.

(** ** The end *)

(** Nothing in flight and everything acknowledged: one write of the whole. *)
Lemma wrote_all log acked c :
  wrote log acked c [] →
  acked <= len log ∧ (acked = len log → patched old (content c fid) base log).
Proof.
  intros (dl & Hle & Hsum & _ & [Hb|[Hset _ Hrest Hlen]]); [by inversion Hb|]. cbn in Hsum.
  split; [lia|]. intros Hall.
  assert (∀ x, 0 <= x < len log → content c fid !! Z.to_nat (base + x) = log !! Z.to_nat x) as Hin.
  { intros x Hx. destruct (Hset ltac:(lia) (base + x)) as [_ E]; [lia|done|].
    rewrite E. f_equal. lia. }
  split_and!; [|done|intros x Hx Hn; apply Hrest; [done|lia]].
  destruct log as [|b log]; cbn [is_empty] in *; [lia|].
  rewrite len_cons in *. pose proof (len_nonneg log).
  assert (is_Some (content c fid !! Z.to_nat (base + len log))) as Hs.
  { rewrite Hin by lia. apply lookup_lt_is_Some. cbn. unfold len. lia. }
  apply lookup_lt_is_Some in Hs. unfold len in *. lia.
Qed.

(** ** The loops' step: wait for an answer and count it *)

Lemma wrote_next log acked q w r w' :
  wrote log acked (w_conn w) q → next q w = Some (r, w') →
  match r with
  | Ok (None, q') => q = [] ∧ q' = [] ∧ w' = w
  | Ok (Some (_, fr), q') =>
      fr ≠ Panic ∧ length q = S (length q') ∧
      ∀ body resp, fr = Ok (NtStatus.SUCCESS, body) → unpack_body WriteResponse body = Ok resp →
        0 <= wrr_count resp ∧ wrote log (acked + wrr_count resp) (w_conn w') q'
  | _ => False
  end.
Proof.
  intros Hw E. apply (next_spec (wrote log acked)) in E; [|apply wrote_served|done].
  destruct r as [[[[tag fr]|] q']|e|]; try done.
  destruct E as (q1 & i & f & Hq & Hi & _ & Ha & -> & Hl & _ & _).
  pose proof Hq as (dl & _ & _ & Hops & _).
  pose proof (proj1 (Forall_lookup _ _) Hops _ _ Hi) as (_ & Hnp & _ & _ & _ & Hk).
  split; [by intros ->|]. split.
  { rewrite length_delete by eauto. apply lookup_lt_Some in Hi. lia. }
  intros body resp -> Hu.
  assert (acks f (wrr_count resp)) as Hack by by exists body, resp.
  split; [by apply Hk in Hack as []|]. by eapply wrote_delivered.
Qed.

End writes.
