(* ===== verification/Tree.v ===== *)
(** * Whole-file reads and writes ([src/client/tree.rs])

    Opening and closing handles, the compound read and write, and the three
    pipelined transfers: a sliding window of requests keeps up to
    [MAX_PIPELINE_WINDOW] READs or WRITEs in flight and places each answer by
    the chunk it was launched for, in whatever order the answers come. *)

From S2P Require Import Prelude Types Pack Codec Name Header FileIo Create Pipeline Transfer.

Definition MAX_PIPELINE_WINDOW : nat := 32.
Definition SMB2_CHANNEL_NONE : Z := 0.
Definition FILE_DIRECTORY_FILE : Z := 0x00000001.
Definition FILE_NON_DIRECTORY_FILE : Z := 0x00000040.
Definition FILE_ATTRIBUTE_DIRECTORY : Z := 0x00000010.

Module FileAccessMask.
Definition FILE_READ_DATA : Z := 0x00000001.
Definition FILE_WRITE_DATA : Z := 0x00000002.
Definition FILE_READ_ATTRIBUTES : Z := 0x00000080.
Definition FILE_WRITE_ATTRIBUTES : Z := 0x00000100.
Definition DELETE : Z := 0x00010000.
Definition SYNCHRONIZE : Z := 0x00100000.
End FileAccessMask.

Record Tree := mkTree {
  tree_id : Z;
  share_name : list Z;
  server : list Z;
  is_dfs : bool;
  encrypt_data : bool
}.

Record Progress := mkProgress { bytes_transferred : Z; total_bytes : option Z }.

Definition normalize_path (path : list Z) : list Z := Name.encode_path path.

Definition format_path (t : Tree) (path : list Z) : list Z :=
  let normalized := normalize_path path in
  if is_dfs t then
    let hostname := match Name.split Name.COLON (server t) with h :: _ => h | [] => server t end in
    if is_empty normalized
    then hostname ++ [Name.BACKSLASH] ++ share_name t
    else hostname ++ [Name.BACKSLASH] ++ share_name t ++ [Name.BACKSLASH] ++ normalized
  else normalized.

(** ** Requests *)

Definition SHARE_ALL : Z :=
  Z.lor (Z.lor ShareAccess.FILE_SHARE_READ ShareAccess.FILE_SHARE_WRITE) ShareAccess.FILE_SHARE_DELETE.

(** The CREATE of [open_file] and [read_file_compound]. *)
Definition read_create (name : list Z) : CreateRequest :=
  mkCreateRequest OplockNone Impersonation
    (Z.lor (Z.lor FileAccessMask.FILE_READ_DATA FileAccessMask.FILE_READ_ATTRIBUTES)
       FileAccessMask.SYNCHRONIZE)
    0 SHARE_ALL FileOpen 0 name [].

(** The CREATE of [open_directory]. *)
Definition directory_create (name : list Z) : CreateRequest :=
  mkCreateRequest OplockNone Impersonation
    (Z.lor (Z.lor FileAccessMask.FILE_READ_DATA FileAccessMask.FILE_READ_ATTRIBUTES)
       FileAccessMask.SYNCHRONIZE)
    0 SHARE_ALL FileOpen FILE_DIRECTORY_FILE name [].

(** The CREATE of [create_directory]. *)
Definition new_directory_create (name : list Z) : CreateRequest :=
  mkCreateRequest OplockNone Impersonation
    (Z.lor FileAccessMask.FILE_READ_ATTRIBUTES FileAccessMask.SYNCHRONIZE)
    FILE_ATTRIBUTE_DIRECTORY SHARE_ALL FileCreate FILE_DIRECTORY_FILE name [].

(** The CREATE of the write paths. *)
Definition write_create (name : list Z) (disposition : CreateDisposition) : CreateRequest :=
  mkCreateRequest OplockNone Impersonation
    (Z.lor (Z.lor FileAccessMask.FILE_WRITE_DATA FileAccessMask.FILE_WRITE_ATTRIBUTES)
       FileAccessMask.SYNCHRONIZE)
    0x80 0 disposition FILE_NON_DIRECTORY_FILE name [].

(** The CREATE of the read-and-write opens. *)
Definition readwrite_create (name : list Z) (disposition : CreateDisposition) : CreateRequest :=
  mkCreateRequest OplockNone Impersonation
    (Z.lor (Z.lor (Z.lor (Z.lor FileAccessMask.FILE_READ_DATA FileAccessMask.FILE_WRITE_DATA)
       FileAccessMask.FILE_READ_ATTRIBUTES) FileAccessMask.FILE_WRITE_ATTRIBUTES)
       FileAccessMask.SYNCHRONIZE)
    0x80 SHARE_ALL disposition FILE_NON_DIRECTORY_FILE name [].

Definition read_request (file_id : FileId) (length offset : Z) : ReadRequest :=
  mkReadRequest 0x50 0 length offset file_id 0 SMB2_CHANNEL_NONE 0 [].

Definition write_request (file_id : FileId) (offset : Z) (data : bytes) : WriteRequest :=
  mkWriteRequest 0x70 offset file_id 0 0 0 0 0 data.

(** [all_or_first_err] *)
Fixpoint collect_frames (frames : list (result Error (Z * bytes))) : result Error (list (Z * bytes)) :=
  match frames with
  | [] => Ok []
  | r :: frames => f ← r; out ← collect_frames frames; Ok (f :: out)
  end.

Definition all_or_first_err (frames : list (result Error (Z * bytes))) (expected : nat) :
    result Error (list (Z * bytes)) :=
  out ← collect_frames frames;
  if negb (length out =? expected)%nat
  then Err (invalid_data "compound response has {} frames, expected {}") else Ok out.

Section tree.
Context {C : Type} `{Wire C}.
Context (t : Tree).

(** ** Handles *)

Definition open_with (req : CreateRequest) : io (World C) CreateResponse :=
  '(status, body) ← execute (tree_id t) (OpCreate req);
  if negb (status =? NtStatus.SUCCESS) then io_err (Protocol status Types.Create)
  else io_lift (unpack_body CreateResponse body).

Definition open_file (path : list Z) : io (World C) (FileId * Z) :=
  resp ← open_with (read_create (format_path t path));
  mret (crr_file_id resp, crr_end_of_file resp).

Definition open_directory (path : list Z) : io (World C) FileId :=
  resp ← open_with (directory_create (format_path t path)); mret (crr_file_id resp).

Definition open_file_for_write_with_disposition (path : list Z) (d : CreateDisposition) :
    io (World C) FileId :=
  resp ← open_with (write_create (format_path t path) d); mret (crr_file_id resp).

Definition open_file_for_write (path : list Z) : io (World C) FileId :=
  open_file_for_write_with_disposition path FileOverwriteIf.
Definition open_file_for_exclusive_create (path : list Z) : io (World C) FileId :=
  open_file_for_write_with_disposition path FileCreate.
Definition open_file_for_write_at (path : list Z) : io (World C) FileId :=
  open_file_for_write_with_disposition path FileOpenIf.

Definition open_readwrite_with_disposition (path : list Z) (d : CreateDisposition) :
    io (World C) (FileId * Z) :=
  resp ← open_with (readwrite_create (format_path t path) d);
  mret (crr_file_id resp, crr_end_of_file resp).

Definition open_file_readwrite (path : list Z) : io (World C) (FileId * Z) :=
  open_readwrite_with_disposition path FileOpenIf.
Definition open_readwrite_overwrite (path : list Z) : io (World C) (FileId * Z) :=
  open_readwrite_with_disposition path FileOverwriteIf.

Definition flush_handle (file_id : FileId) : io (World C) unit :=
  '(status, _) ← execute (tree_id t) (OpFlush (mkFlushRequest file_id));
  if negb (status =? NtStatus.SUCCESS) then io_err (Protocol status Flush) else mret tt.

Definition close_handle (file_id : FileId) : io (World C) unit :=
  forget file_id ;;
  '(status, _) ← execute (tree_id t) (OpClose (mkCloseRequest 0 file_id));
  if negb (status =? NtStatus.SUCCESS) then io_err (Protocol status Close) else mret tt.

Definition create_directory (path : list Z) : io (World C) unit :=
  resp ← open_with (new_directory_create (format_path t path));
  close_handle (crr_file_id resp).

(** ** Compounds *)

Definition read_file_compound (path : list Z) : io (World C) bytes :=
  let normalized := format_path t path in
  max_read ← max_read_size;
  let ops := [(tree_id t, OpCreate (read_create normalized), 1);
              (tree_id t, OpRead (read_request FileId_SENTINEL max_read 0), trunc 16 (div_ceil max_read 65536));
              (tree_id t, OpClose (mkCloseRequest 0 FileId_SENTINEL), 1)] in
  frames ← compound ops;
  responses ← io_lift (all_or_first_err frames (length ops));
  match responses with
  | [(create_status, create_body); (read_status, read_body); _] =>
      if negb (create_status =? NtStatus.SUCCESS) then io_err (Protocol create_status Types.Create) else
      create_resp ← io_lift (unpack_body CreateResponse create_body);
      let file_id := crr_file_id create_resp in
      if crr_end_of_file create_resp >? max_read
      then io_err (FileTooLargeForSingleRead (crr_end_of_file create_resp) max_read) else
      if negb (read_status =? NtStatus.SUCCESS) && negb (read_status =? NtStatus.END_OF_FILE) then
        attempt (close_handle file_id) ;; io_err (Protocol read_status Read)
      else if read_status =? NtStatus.END_OF_FILE then mret []
      else resp ← io_lift (unpack_body ReadResponse read_body); mret (rdr_data resp)
  | _ => io_lift Panic (* [responses[2]] out of range *)
  end.

Definition read_file (path : list Z) : io (World C) bytes := read_file_compound path.

Definition write_file_compound (path : list Z) (data : bytes) : io (World C) Z :=
  let normalized := format_path t path in
  let write_credit_charge := trunc 16 (Z.max (div_ceil (len data) 65536) 1) in
  let ops := [(tree_id t, OpCreate (write_create normalized FileOverwriteIf), 1);
              (tree_id t, OpWrite (write_request FileId_SENTINEL 0 data), write_credit_charge);
              (tree_id t, OpFlush (mkFlushRequest FileId_SENTINEL), 1);
              (tree_id t, OpClose (mkCloseRequest 0 FileId_SENTINEL), 1)] in
  frames ← compound ops;
  responses ← io_lift (all_or_first_err frames (length ops));
  match responses with
  | [(create_status, create_body); (write_status, write_body); _; _] =>
      if negb (create_status =? NtStatus.SUCCESS) then io_err (Protocol create_status Types.Create) else
      create_resp ← io_lift (unpack_body CreateResponse create_body);
      let file_id := crr_file_id create_resp in
      if negb (write_status =? NtStatus.SUCCESS) then
        attempt (close_handle file_id) ;; io_err (Protocol write_status Write)
      else resp ← io_lift (unpack_body WriteResponse write_body); mret (wrr_count resp)
  | _ => io_lift Panic (* [responses[3]] out of range *)
  end.

(** ** Pipelined reads *)

Section read.
Context (file_id : FileId) (file_size chunk_size credit_charge : Z) (total_chunks : nat).

(** The [build_req] closure *)
Definition build_read (chunk_index : nat) : ReadRequest :=
  let offset := Z.of_nat chunk_index * chunk_size in
  let this_chunk := if (chunk_index =? total_chunks - 1)%nat then trunc 32 (file_size - offset)
                    else chunk_size in
  read_request file_id this_chunk offset.

(** The [launch_chunk] closure *)
Definition launch_read (chunk_index : nat) : fut :=
  launch chunk_index (tree_id t) (OpRead (build_read chunk_index)) credit_charge.

(** [data[dest_offset..dest_end].copy_from_slice(&resp.data[..src_len])], with
    [src_len]; the subtraction and the slices panic when they do not fit. *)
Definition place_chunk (chunk_index : nat) (rdata data : bytes) : result Error (bytes * Z) :=
  let dest_offset := Z.of_nat chunk_index * chunk_size in
  let dest_end := Z.min (dest_offset + len rdata) (len data) in
  let src_len := dest_end - dest_offset in
  if src_len <? 0 then Panic
  else Ok (take (Z.to_nat dest_offset) data ++ take (Z.to_nat src_len) rdata
             ++ drop (Z.to_nat dest_end) data, src_len).

(** [while chunks_received < total_chunks], one round per answer. *)
Fixpoint read_slide (rounds : nat) (chunks_sent : nat) (q : InFlight) (data : bytes) :
    io (World C) bytes :=
  match rounds with
  | O => mret data
  | S rounds =>
      '(o, q) ← next q;
      match o with
      | None => mret data
      | Some (chunk_index, frame_result) =>
          '(status, body) ← io_lift frame_result;
          if status =? NtStatus.END_OF_FILE then read_slide rounds chunks_sent q data
          else if negb (status =? NtStatus.SUCCESS) then io_err (Protocol status Read)
          else
            resp ← io_lift (unpack_body ReadResponse body);
            data ← (if is_empty (rdr_data resp) then mret data
                    else '(data, _) ← io_lift (place_chunk chunk_index (rdr_data resp) data);
                         mret data);
            if (chunks_sent <? total_chunks)%nat
            then read_slide rounds (S chunks_sent) (q ++ [launch_read chunks_sent]) data
            else read_slide rounds chunks_sent q data
      end
  end.

Definition read_pipelined_loop : io (World C) bytes :=
  let initial_window := Nat.min total_chunks MAX_PIPELINE_WINDOW in
  read_slide total_chunks initial_window (map launch_read (seq 0 initial_window)) (zeros file_size).

(** The callback of the progress variant decides from everything it has been
    shown, the latest last: [true] is [ControlFlow::Break]. *)
Context (on_progress : list Progress → bool).

Fixpoint read_slide_progress (rounds : nat) (chunks_sent : nat) (q : InFlight) (data : bytes)
    (bytes_received : Z) (shown : list Progress) : io (World C) bytes :=
  match rounds with
  | O => mret data
  | S rounds =>
      '(o, q) ← next q;
      match o with
      | None => mret data
      | Some (chunk_index, frame_result) =>
          '(status, body) ← io_lift frame_result;
          if status =? NtStatus.END_OF_FILE
          then read_slide_progress rounds chunks_sent q data bytes_received shown
          else if negb (status =? NtStatus.SUCCESS) then io_err (Protocol status Read)
          else
            resp ← io_lift (unpack_body ReadResponse body);
            '(data, bytes_received) ←
              (if is_empty (rdr_data resp) then mret (data, bytes_received)
               else '(data, src_len) ← io_lift (place_chunk chunk_index (rdr_data resp) data);
                    mret (data, bytes_received + src_len));
            let shown := shown ++ [mkProgress bytes_received (Some file_size)] in
            if on_progress shown then io_err Cancelled else
            if (chunks_sent <? total_chunks)%nat
            then read_slide_progress rounds (S chunks_sent) (q ++ [launch_read chunks_sent]) data
                   bytes_received shown
            else read_slide_progress rounds chunks_sent q data bytes_received shown
      end
  end.

Definition read_pipelined_loop_with_progress : io (World C) bytes :=
  let initial_window := Nat.min total_chunks MAX_PIPELINE_WINDOW in
  read_slide_progress total_chunks initial_window (map launch_read (seq 0 initial_window))
    (zeros file_size) 0 [].

End read.

(** Chunk size, credit charge and number of chunks of a pipelined read. *)
Definition read_plan (file_size max_read : Z) : Z * Z * nat :=
  let chunk_size := if file_size <=? max_read then Z.min (trunc 32 file_size) max_read
                    else Z.min (512 * 1024) max_read in
  (chunk_size, trunc 16 (div_ceil chunk_size 65536), Z.to_nat (div_ceil file_size chunk_size)).

Definition read_file_pipelined (path : list Z) : io (World C) bytes :=
  '(file_id, file_size) ← open_file path;
  if file_size =? 0 then close_handle file_id ;; mret []
  else
    max_read ← max_read_size;
    let '(chunk_size, credit_charge, total_chunks) := read_plan file_size max_read in
    outcome ← attempt (read_pipelined_loop file_id file_size chunk_size credit_charge total_chunks);
    close_result ← attempt (close_handle file_id);
    data ← io_lift outcome;
    _ ← io_lift close_result;
    mret data.

Definition read_file_pipelined_with_progress (path : list Z) (on_progress : list Progress → bool) :
    io (World C) bytes :=
  '(file_id, file_size) ← open_file path;
  if file_size =? 0 then
    (* the callback is shown the empty transfer and its answer is ignored *)
    close_handle file_id ;; mret []
  else
    max_read ← max_read_size;
    let '(chunk_size, credit_charge, total_chunks) := read_plan file_size max_read in
    outcome ← attempt (read_pipelined_loop_with_progress file_id file_size chunk_size credit_charge
                         total_chunks on_progress);
    close_result ← attempt (close_handle file_id);
    data ← io_lift outcome;
    _ ← io_lift close_result;
    mret data.

(** ** Pipelined writes *)

Section write.
Context (file_id : FileId) (data : bytes) (chunk_size credit_charge : Z) (total_chunks : nat).

(** The [build_req] closure, whose slice is in range for every chunk. *)
Definition build_write (chunk_index : nat) : WriteRequest :=
  let offset := Z.of_nat chunk_index * chunk_size in
  let end_ := Z.min (offset + chunk_size) (len data) in
  write_request file_id offset (subslice data offset end_).

Definition launch_write (chunk_index : nat) : fut :=
  launch chunk_index (tree_id t) (OpWrite (build_write chunk_index)) credit_charge.

Fixpoint write_slide (rounds : nat) (chunks_sent : nat) (q : InFlight) (total_written : Z) :
    io (World C) Z :=
  match rounds with
  | O => mret total_written
  | S rounds =>
      '(o, q) ← next q;
      match o with
      | None => mret total_written
      | Some (_, frame_result) =>
          '(status, body) ← io_lift frame_result;
          if negb (status =? NtStatus.SUCCESS) then io_err (Protocol status Write)
          else
            resp ← io_lift (unpack_body WriteResponse body);
            let total_written := total_written + wrr_count resp in
            if (chunks_sent <? total_chunks)%nat
            then write_slide rounds (S chunks_sent) (q ++ [launch_write chunks_sent]) total_written
            else write_slide rounds chunks_sent q total_written
      end
  end.

Definition write_pipelined_loop : io (World C) Z :=
  let initial_window := Nat.min total_chunks MAX_PIPELINE_WINDOW in
  write_slide total_chunks initial_window (map launch_write (seq 0 initial_window)) 0.

End write.

Definition write_file_pipelined (path : list Z) (data : bytes) : io (World C) Z :=
  let normalized := format_path t path in
  if is_empty data then write_file_compound path data
  else
    create_resp ← open_with (write_create normalized FileOverwriteIf);
    let file_id := crr_file_id create_resp in
    chunk_size ← max_write_size;
    let credit_charge := trunc 16 (div_ceil chunk_size 65536) in
    let total_chunks := Z.to_nat (div_ceil (len data) chunk_size) in
    outcome ← attempt (write_pipelined_loop file_id data chunk_size credit_charge total_chunks);
    (if is_ok outcome then flush_handle file_id else mret tt) ;;
    close_result ← attempt (close_handle file_id);
    bytes_written ← io_lift outcome;
    _ ← io_lift close_result;
    mret bytes_written.

Definition write_file (path : list Z) (data : bytes) : io (World C) Z :=
  max_write ← max_write_size;
  if len data <=? max_write then write_file_compound path data else write_file_pipelined path data.

(** ** Streamed writes *)

(** What [next_chunk] has left to give; past the end it answers [None]. *)
Inductive source_item := Chunk (d : bytes) | Failed (what : string).

Record Streamed := mkStreamed {
  sw_pending_data : bytes;
  sw_pending_offset : Z;
  sw_done : bool;
  sw_callback_err : option string;
  sw_source : list source_item
}.

(** The [next_wire_chunk] closure *)
Definition next_wire_chunk (max_write : Z) (s : Streamed) : option bytes * Streamed :=
  let '(mkStreamed pending_data pending_offset done callback_err source) := s in
  if pending_offset <? len pending_data then
    let end_ := Z.min (pending_offset + max_write) (len pending_data) in
    let chunk := subslice pending_data pending_offset end_ in
    (Some chunk,
     if len pending_data <=? end_ then mkStreamed [] 0 done callback_err source
     else mkStreamed pending_data end_ done callback_err source)
  else if done then (None, s)
  else match source with
       | [] => (None, mkStreamed pending_data pending_offset true callback_err [])
       | Failed e :: source => (None, mkStreamed pending_data pending_offset true (Some e) source)
       | Chunk d :: source =>
           if is_empty d then (None, mkStreamed pending_data pending_offset true callback_err source)
           else if len d <=? max_write
           then (Some d, mkStreamed pending_data pending_offset done callback_err source)
           else (Some (subslice d 0 max_write), mkStreamed d max_write done callback_err source)
       end.

Section streamed.
Context (file_id : FileId) (max_write : Z).

Definition launch_streamed (offset : Z) (chunk_data : bytes) : fut :=
  launch 0 (tree_id t) (OpWrite (write_request file_id offset chunk_data))
    (trunc 16 (Z.max (div_ceil (len chunk_data) 65536) 1)).

(** [while in_flight < MAX_PIPELINE_WINDOW], which pushes a request a round. *)
Fixpoint initial_fill (room : nat) (s : Streamed) (offset : Z) (q : InFlight) :
    Streamed * Z * InFlight :=
  match room with
  | O => (s, offset, q)
  | S room =>
      match next_wire_chunk max_write s with
      | (None, s) => (s, offset, q)
      | (Some chunk_data, s) =>
          initial_fill room s (offset + len chunk_data) (q ++ [launch_streamed offset chunk_data])
      end
  end.

(** [while in_flight > 0], where [in_flight] is the number of requests in [q];
    every round waits for an answer, so the number of events left bounds the
    rounds. *)
Fixpoint stream_slide (rounds : nat) (s : Streamed) (offset : Z) (q : InFlight) (total_written : Z) :
    io (World C) (Z * option string) :=
  match q with
  | [] => mret (total_written, sw_callback_err s)
  | _ =>
      match rounds with
      | O => λ _, None
      | S rounds =>
          '(o, q) ← next q;
          match o with
          | None => mret (total_written, sw_callback_err s)
          | Some (_, frame_result) =>
              '(status, body) ← io_lift frame_result;
              if negb (status =? NtStatus.SUCCESS)
              then drain q ;; io_err (Protocol status Write)
              else
                resp ← io_lift (unpack_body WriteResponse body);
                let total_written := total_written + wrr_count resp in
                match sw_callback_err s with
                | Some _ => stream_slide rounds s offset q total_written
                | None =>
                    match next_wire_chunk max_write s with
                    | (None, s) => stream_slide rounds s offset q total_written
                    | (Some chunk_data, s) =>
                        stream_slide rounds s (offset + len chunk_data)
                          (q ++ [launch_streamed offset chunk_data]) total_written
                    end
                end
          end
      end
  end.

Definition write_streamed_loop (source : list source_item) : io (World C) Z := λ w,
  let '(s, offset, q) := initial_fill MAX_PIPELINE_WINDOW (mkStreamed [] 0 false None source) 0 [] in
  ('(total_written, callback_err) ← stream_slide (S (length (w_events w))) s offset q 0;
   match callback_err with
   | Some e => io_err (Io e)
   | None => mret total_written
   end) w.

End streamed.

Definition write_file_streamed (path : list Z) (source : list source_item) : io (World C) Z :=
  file_id ← open_file_for_write path;
  max_write ← max_write_size;
  outcome ← attempt (write_streamed_loop file_id max_write source);
  (if is_ok outcome then flush_handle file_id else mret tt) ;;
  close_result ← attempt (close_handle file_id);
  bytes_written ← io_lift outcome;
  _ ← io_lift close_result;
  mret bytes_written.

End tree.

(** ** Reading the answers *)

Lemma lookup_place {A} (data rdata : list A) (a n e : Z) (x : Z) :
  0 <= a → n = e - a → 0 <= n <= len rdata → e <= len data → 0 <= x →
  (take (Z.to_nat a) data ++ take (Z.to_nat n) rdata ++ drop (Z.to_nat e) data) !! Z.to_nat x
    = if (a <=? x) && (x <? e) then rdata !! Z.to_nat (x - a) else data !! Z.to_nat x.
Proof.
  unfold len. intros Ha -> Hn He Hx.
  destruct (Z.lt_ge_cases x a) as [Hlt|Hge].
  { replace (a <=? x) with false by lia. cbn.
    rewrite lookup_app_l by (rewrite length_take; lia). apply lookup_take_lt. lia. }
  replace (a <=? x) with true by lia. cbn.
  rewrite lookup_app_r by (rewrite length_take; lia). rewrite length_take, Nat.min_l by lia.
  destruct (x <? e) eqn:E; bool_prop.
  - rewrite lookup_app_l by (rewrite length_take; lia).
    rewrite lookup_take_lt by lia. f_equal. lia.
  - rewrite lookup_app_r by (rewrite length_take; lia). rewrite length_take, Nat.min_l by lia.
    rewrite lookup_drop. f_equal. lia.
Qed.

Lemma lookup_subslice {A} (l : list A) a b x :
  0 <= a → 0 <= x < b - a → subslice l a b !! Z.to_nat x = l !! Z.to_nat (a + x).
Proof.
  intros Ha Hx. unfold subslice. rewrite lookup_take_lt by lia. rewrite lookup_drop.
  f_equal. lia.
Qed.

(** Equality of two byte strings by position. *)
Lemma bytes_eq (l1 l2 : bytes) :
  len l1 = len l2 → (∀ x, 0 <= x < len l1 → l1 !! Z.to_nat x = l2 !! Z.to_nat x) → l1 = l2.
Proof.
  unfold len. intros Hl Hx. apply list_eq_same_length with (length l2); [done|lia|].
  intros i x y Hi H1 H2. specialize (Hx (Z.of_nat i) ltac:(lia)). rewrite Nat2Z.id in Hx.
  congruence.
Qed.

(** ** Handles *)

Section framed.
Context {C : Type} `{Wire C}.

Lemma framed_execute tid op n : framed (execute_charged (C:=C) tid op n).
Proof.
  intros c. unfold execute_charged. cbn [w_conn].
  destruct (execute_with_credits c tid op n) as [r c']. by exists r, c'.
Qed.
Lemma framed_compound ops : framed (compound (C:=C) ops).
Proof. intros c. unfold compound. cbn [w_conn]. destruct (execute_compound c ops) as [r c']. by exists r, c'. Qed.
Lemma framed_forget f : framed (forget (C:=C) f).
Proof. intros c. by exists (Ok tt), (forget_oplock c f). Qed.
Lemma framed_max_read : framed (max_read_size (C:=C)).
Proof. intros c. by exists (Ok (match transfer_sizes c with Some (r, _) => r | None => 65536 end)), c. Qed.
Lemma framed_max_write : framed (max_write_size (C:=C)).
Proof. intros c. by exists (Ok (match transfer_sizes c with Some (_, s) => s | None => 65536 end)), c. Qed.

#[local] Hint Resolve framed_execute framed_compound framed_forget framed_max_read framed_max_write : smb.

Lemma framed_open_with t req : framed (open_with (C:=C) t req).
Proof. apply framed_bind; [apply framed_execute|]. intros []. auto with smb. Qed.
Lemma framed_open_file t path : framed (open_file (C:=C) t path).
Proof. apply framed_bind; [apply framed_open_with|]. auto with smb. Qed.
Lemma framed_close_handle t f : framed (close_handle (C:=C) t f).
Proof.
  apply framed_bind; [auto with smb|]. intros _. apply framed_bind; [apply framed_execute|].
  intros []. auto with smb.
Qed.
Lemma framed_flush_handle t f : framed (flush_handle (C:=C) t f).
Proof. apply framed_bind; [apply framed_execute|]. intros []. auto with smb. Qed.

Lemma framed_closing {A} t fid (outcome : result Error A) :
  framed (close_result ← attempt (close_handle (C:=C) t fid);
          v ← io_lift outcome; _ ← io_lift close_result; mret v).
Proof.
  apply framed_bind; [apply framed_attempt, framed_close_handle|]. intros rc.
  apply framed_bind; [auto with smb|]. intros v. apply framed_bind; auto with smb.
Qed.

Lemma framed_write_compound t path data : framed (write_file_compound (C:=C) t path data).
Proof.
  apply framed_bind; [auto with smb|]. intros frames. apply framed_bind; [auto with smb|].
  intros [|[] [|[] [|[] [|[] []]]]]; auto with smb. apply framed_if; [auto with smb|].
  apply framed_bind; [auto with smb|]. intros resp. apply framed_if; [|auto with smb].
  apply framed_bind; [apply framed_attempt, framed_close_handle|auto with smb].
Qed.

End framed.

Section handles.
Context {C : Type} `{FileServer C} (t : Tree).

Lemma execute_inv op n w r w' :
  execute_charged (tree_id t) op n w = Some (r, w') →
  execute_with_credits (w_conn w) (tree_id t) op n = (r, w_conn w') ∧ w_events w' = w_events w
  ∧ r ≠ Panic.
Proof.
  unfold execute_charged. destruct (execute_with_credits _ _ _ _) as [r1 c1] eqn:E.
  intros [= <- <-]. split; [done|]. split; [done|]. intros ->. by apply fs_no_panic in E.
Qed.

Lemma open_with_spec req w r w' :
  open_with t req w = Some (r, w') →
  r ≠ Panic ∧ w_events w' = w_events w ∧
  ∀ resp, r = Ok resp → len (content (w_conn w') (crr_file_id resp)) = crr_end_of_file resp.
Proof.
  intros [([status body] & w1 & (E & Hev & _)%execute_inv & Ek)
         |[(e & (E & Hev & _)%execute_inv & ->)|[(_ & _ & ?)%execute_inv ?]]]%io_bind_inv; [|done|done].
  destruct (status =? _) eqn:Es in Ek; cbn in Ek; [|by injection Ek as <- <-].
  bool_prop. subst. injection Ek as <- <-.
  split; [apply (unpack_body_no_panic CreateResponse)|]. split; [done|]. intros resp Hr. by eapply fs_create_size.
Qed.

Lemma open_file_spec path w r w' :
  open_file t path w = Some (r, w') →
  r ≠ Panic ∧ w_events w' = w_events w ∧
  ∀ fid size, r = Ok (fid, size) → len (content (w_conn w') fid) = size.
Proof.
  intros [(resp & w1 & (_ & Hev & Hsz)%open_with_spec & Ek)
         |[(e & (_ & Hev & _)%open_with_spec & ->)|[(? & _)%open_with_spec ?]]]%io_bind_inv; [|done|done].
  injection Ek as <- <-. split; [done|]. split; [done|]. intros fid size [= <- <-]. by apply Hsz.
Qed.

Lemma close_handle_spec fid w r w' :
  close_handle t fid w = Some (r, w') →
  r ≠ Panic ∧ (∀ g, content (w_conn w') g = content (w_conn w) g) ∧
  (r = Ok tt → is_open (w_conn w') fid = false).
Proof.
  unfold close_handle, mbind at 1, io_bind at 1, forget.
  set (m := mkCloseRequest 0 fid). set (w0 := mkWorld _ _).
  assert (∀ (r : result Error (Z * bytes)) w1,
            execute_with_credits (w_conn w0) (tree_id t) (OpClose m) 1 = (r, w_conn w1) →
            ∀ g, content (w_conn w1) g = content (w_conn w) g) as Hkeep.
  { intros r1 w1 E g. rewrite <- (fs_forget_keeps (w_conn w) fid g).
    change (forget_oplock (w_conn w) fid) with (w_conn w0).
    rewrite <- (fs_close_keeps (w_conn w0) (tree_id t) m 1 g). by rewrite E. }
  intros [([status body] & w1 & (E & _ & _)%execute_inv & Ek)
         |[(e & (E & _ & _)%execute_inv & ->)|[(_ & _ & ?)%execute_inv ?]]]%io_bind_inv;
    [|by split; [done|]; split; [by eapply Hkeep|]|done].
  destruct (status =? _) eqn:Es in Ek; cbn in Ek; injection Ek as <- <-;
    (split; [done|]; split; [by eapply Hkeep|]); [|done].
  bool_prop. subst. intros _. by apply fs_close_closes in E.
Qed.

Lemma flush_handle_spec fid w r w' :
  flush_handle t fid w = Some (r, w') →
  r ≠ Panic ∧ (∀ g, content (w_conn w') g = content (w_conn w) g).
Proof.
  assert (∀ (r : result Error (Z * bytes)) w1,
            execute_with_credits (w_conn w) (tree_id t) (OpFlush (mkFlushRequest fid)) 1 = (r, w_conn w1) →
            ∀ g, content (w_conn w1) g = content (w_conn w) g) as Hkeep.
  { intros r1 w1 E g. rewrite <- (fs_flush_keeps (w_conn w) (tree_id t) (mkFlushRequest fid) 1 g). by rewrite E. }
  intros [([status body] & w1 & (E & _ & _)%execute_inv & Ek)
         |[(e & (E & _ & _)%execute_inv & ->)|[(_ & _ & ?)%execute_inv ?]]]%io_bind_inv;
    [|by split; [done|eapply Hkeep]|done].
  destruct (status =? _) in Ek; cbn in Ek; injection Ek as <- <-; (split; [done|by eapply Hkeep]).
Qed.

(** [let r = loop.await; let c = close_handle(..).await; let v = r?; c?; Ok(v)]:
    the handle is closed whatever the loop returned. *)
Lemma closing_spec {A} (loop : io (World C) A) fid w r w' :
  (outcome ← attempt loop; close_result ← attempt (close_handle t fid);
   v ← io_lift outcome; _ ← io_lift close_result; mret v) w = Some (r, w') →
  ∃ rl w1, loop w = Some (rl, w1) ∧
    (rl ≠ Panic → r ≠ Panic ∧ (∀ g, content (w_conn w') g = content (w_conn w1) g) ∧
       ∀ v, r = Ok v → rl = Ok v ∧ is_open (w_conn w') fid = false).
Proof.
  intros [(rl & w1 & E & Ek)|[(e & E & ->)|[E ->]]]%io_bind_inv;
    apply attempt_inv in E as (r1 & El & [[-> ?]|[Hnp ?]]); simplify_eq; [|by eexists _, _].
  exists r1, w1. split; [done|]. intros _.
  apply io_bind_inv in Ek as [(rc & w2 & E & Ek)|[(e & E & ->)|[E ->]]];
    apply attempt_inv in E as (rc' & (Hcnp & Hk & Hcl)%close_handle_spec & [[-> ?]|[_ ?]]); simplify_eq.
  unfold mbind, io_bind, io_lift, mret, io_ret in Ek.
  destruct r1 as [a|e|], rc' as [[]|e'|]; simplify_eq;
    (split; [done|]; split; [done|]; intros v Hv; simplify_eq; auto).
Qed.

(** The same with a flush between, which is skipped when the loop failed. *)
Lemma flushing_spec {A} (loop : io (World C) A) fid w r w' :
  (outcome ← attempt loop; (if is_ok outcome then flush_handle t fid else mret tt) ;;
   close_result ← attempt (close_handle t fid);
   v ← io_lift outcome; _ ← io_lift close_result; mret v) w = Some (r, w') →
  ∃ rl w1, loop w = Some (rl, w1) ∧
    (rl ≠ Panic → r ≠ Panic ∧ (∀ g, content (w_conn w') g = content (w_conn w1) g) ∧
       ∀ v, r = Ok v → rl = Ok v ∧ is_open (w_conn w') fid = false).
Proof.
  intros [(rl & w1 & E & Ek)|[(e & E & ->)|[E ->]]]%io_bind_inv;
    apply attempt_inv in E as (r1 & El & [[-> ?]|[Hnp ?]]); simplify_eq; [|by eexists _, _].
  exists r1, w1. split; [done|]. intros _.
  assert (∀ rf w2, (if is_ok r1 then flush_handle t fid else mret tt) w1 = Some (rf, w2) →
            rf ≠ Panic ∧ ∀ g, content (w_conn w2) g = content (w_conn w1) g) as Hflush.
  { intros rf w2. destruct (is_ok r1); [by intros ?%flush_handle_spec|by intros [= <- <-]]. }
  apply io_bind_inv in Ek as [([] & w2 & [_ Hf]%Hflush & Ek)|[(e & [_ Hf]%Hflush & ->)|[[? _]%Hflush _]]];
    [|done|done].
  apply io_bind_inv in Ek as [(rc & w3 & E & Ek)|[(e & E & ->)|[E ->]]];
    apply attempt_inv in E as (rc' & (Hcnp & Hk & Hcl)%close_handle_spec & [[-> ?]|[_ ?]]); simplify_eq.
  unfold mbind, io_bind, io_lift, mret, io_ret in Ek. setoid_rewrite Hf in Hk.
  destruct r1 as [a|e|], rc' as [[]|e'|]; simplify_eq;
    (split; [done|]; split; [done|]; intros v Hv; simplify_eq; auto).
Qed.

End handles.
