(* ===== verification/Share.v ===== *)
(** * Connecting to a share

    Models [Tree::connect] and [Tree::disconnect] of [src/client/tree.rs], with the
    set of DFS trees of the connection ([register_dfs_tree] and
    [deregister_dfs_tree] of [src/client/connection.rs]): the connection sets the
    DFS flag of a request's header from this set. *)

From S2P Require Import Prelude Types Pack Codec Name Header Session Connection Pipeline Exec Dfs Tree.

Module ShareFlags.
Definition ENCRYPT_DATA : Z := 0x00008000.
End ShareFlags.

Module ShareCapabilities.
Definition DFS : Z := 0x00000008.
End ShareCapabilities.

Definition register_dfs_tree (id : Z) : io Dialog unit := λ d,
  Some (Ok tt, dl_set_dfs (λ s, s ∪ {[id]}) d).
Definition deregister_dfs_tree (id : Z) : io Dialog unit := λ d,
  Some (Ok tt, dl_set_dfs (λ s, s ∖ {[id]}) d).

(** [\\server\share] *)
Definition unc_path (server share : list Z) : list Z :=
  [Name.BACKSLASH; Name.BACKSLASH] ++ server ++ [Name.BACKSLASH] ++ share.

(** The part of [connect] after the response came. *)
Definition connected (share_name server : list Z) (frame : Frame) : io Dialog Tree :=
  if negb (bool_decide (command (fr_header frame) = TreeConnect))
  then io_err (invalid_data "expected TreeConnect response, got {:?}")
  else
    expect_success TreeConnect frame ;;
    resp ← io_lift (unpack_body TreeConnectResponse (fr_body frame));
    tree_id ← (match Header.tree_id (fr_header frame) with
               | Some t => mret t
               | None => io_err (invalid_data "TreeConnect response missing tree ID")
               end : io Dialog Z);
    let is_dfs := Flags.contains (tcr_capabilities resp) ShareCapabilities.DFS in
    let encrypt_data := Flags.contains (tcr_share_flags resp) ShareFlags.ENCRYPT_DATA in
    (if is_dfs then register_dfs_tree tree_id else mret tt) ;;
    mret (mkTree tree_id share_name server is_dfs encrypt_data).

Definition connect (share_name : list Z) : io Dialog Tree :=
  server ← server_name;
  frame ← execute_msg TreeConnect (mkTreeConnectRequest 0 (unc_path server share_name)) None;
  connected share_name server frame.

Definition disconnect (t : Tree) : io Dialog unit :=
  frame ← execute_msg TreeDisconnect mkTrivialMessage (Some (tree_id t));
  expect_success TreeDisconnect frame ;;
  deregister_dfs_tree (tree_id t).

(** ** The set of DFS trees *)

Lemma execute_msg_inv {A} `{Pack A} cmd (m : A) tree d r d' :
  packs m → execute_msg cmd m tree d = Some (r, d') →
  r ≠ Panic ∧ dl_dfs_trees d' = dl_dfs_trees d ∧
  ∃ body, dl_sent d' = dl_sent d ++ [SentOne (mkRequest cmd body tree)].
Proof.
  intros [bs E]. unfold execute_msg, mbind, io_bind, io_lift. rewrite E. intros Hx.
  split; [|split; [|exists bs; by eapply execute_raw_sent]];
    revert Hx; unfold execute_raw; destruct (dl_answers _) as [|[f|e] rs]; by intros [= <- <-].
Qed.

(** What [connect] has done once its request was answered. *)
Lemma connected_inv share server f d r d' :
  connected share server f d = Some (r, d') →
  r ≠ Panic ∧ dl_sent d' = dl_sent d ∧
  match r with
  | Ok t => dl_dfs_trees d' = (if is_dfs t then dl_dfs_trees d ∪ {[tree_id t]} else dl_dfs_trees d) ∧
            status (fr_header f) = NtStatus.SUCCESS ∧ Header.tree_id (fr_header f) = Some (tree_id t)
  | _ => dl_dfs_trees d' = dl_dfs_trees d
  end.
Proof.
  unfold connected. destruct (negb _); [by intros [= <- <-]|]. unfold expect_success, mbind, io_bind, io_lift.
  destruct (status (fr_header f) =? NtStatus.SUCCESS) eqn:Es; cbn [negb]; [|by intros [= <- <-]].
  pose proof (unpack_body_no_panic TreeConnectResponse (fr_body f)).
  unfold mret, io_ret. destruct (unpack_body _ _) as [resp|e|]; [|by intros [= <- <-]|done].
  destruct (Header.tree_id (fr_header f)) as [id|]; [|by intros [= <- <-]]. bool_prop.
  destruct (Flags.contains (tcr_capabilities resp) _); by intros [= <- <-].
Qed.

(** [Tree::connect] sends one TREE_CONNECT with no tree id and, exactly when it
    succeeds on a share with the DFS capability, adds the tree id the server gave to
    the connection's DFS trees; [disconnect] sends one TREE_DISCONNECT on the tree
    and removes its id exactly when the server acknowledged it.  A failure of either
    leaves the set as it was; neither panics. *)
Theorem tree_connect_tracks_dfs d :
  (∀ share r d', connect share d = Some (r, d') →
     r ≠ Panic ∧ (∃ body, dl_sent d' = dl_sent d ++ [SentOne (mkRequest TreeConnect body None)]) ∧
     dl_dfs_trees d' = match r with
                       | Ok t => if is_dfs t then dl_dfs_trees d ∪ {[tree_id t]} else dl_dfs_trees d
                       | _ => dl_dfs_trees d
                       end) ∧
  (∀ t r d', disconnect t d = Some (r, d') →
     r ≠ Panic ∧ (∃ body, dl_sent d' = dl_sent d ++ [SentOne (mkRequest TreeDisconnect body (Some (tree_id t)))]) ∧
     dl_dfs_trees d' = match r with Ok _ => dl_dfs_trees d ∖ {[tree_id t]} | _ => dl_dfs_trees d end).
Proof.
  split.
  - intros share r d' [(server & d1 & Es & Ek)|[(e & ? & _)|[? _]]]%io_bind_inv; [|done|done].
    injection Es as <- <-.
    apply io_bind_inv in Ek as
      [(f & d2 & (_ & Hd & body & Hs)%execute_msg_inv & Ek)
      |[(e & (_ & Hd & body & Hs)%execute_msg_inv & ->)|[(? & _)%execute_msg_inv _]]]; auto with smb; try done.
    + apply connected_inv in Ek as (Hr & Hs' & Ht). split; [done|]. rewrite Hs', Hs, <- Hd.
      split; [by eexists|]. destruct r; [by destruct Ht|done|done].
    + rewrite Hd. split; [done|]. by split; [eexists|].
  - intros t r d' [(f & d2 & (_ & Hd & body & Hs)%execute_msg_inv & Ek)
      |[(e & (_ & Hd & body & Hs)%execute_msg_inv & ->)|[(? & _)%execute_msg_inv _]]]%io_bind_inv; auto with smb; try done.
    + revert Ek. unfold expect_success, mbind, io_bind. rewrite <- Hd.
      destruct (status (fr_header f) =? NtStatus.SUCCESS); intros [= <- <-];
        (split; [done|]; split; [by eexists|done]).
    + rewrite Hd. split; [done|]. by split; [eexists|].
Qed.

(** A server that grants tree 9 on a DFS share. *)
Definition dfs_grant : Frame :=
  mkFrame (mkHeader 1 NtStatus.SUCCESS TreeConnect 1 1 0 0 (Some 9) None 0 (zeros 16))
    (body_of (mkTreeConnectResponse DiskShare 0 ShareCapabilities.DFS 0)) [].

Lemma tree_connect_tracks_dfs_witness :
  ∃ d', connect [100] (mkDialog [115] ∅ [] [Reply dfs_grant] [])
        = Some (Ok (mkTree 9 [100] [115] true false), d') ∧ dl_dfs_trees d' = ∅ ∪ {[9]}.
Proof.
  eexists. split; [vm_compute; reflexivity|].
  refine (proj2 (proj2 (proj1 (tree_connect_tracks_dfs (mkDialog [115] ∅ [] [Reply dfs_grant] [])) [100]
            (Ok (mkTree 9 [100] [115] true false)) _ _))).
  vm_compute. reflexivity.
Defined.
