(* ===== verification/Shares.v ===== *)
(** * Listing the shares of a server ([src/client/shares.rs])

    The pipe on IPC$, the two RPC calls, the reassembly of pipe messages and RPC
    fragments, and the clean-up.  The loops run as often as answers are left, which
    is enough: every round takes one. *)

From S2P Require Import Prelude Types Pack Codec Utf16 Tree Name Create FileIo Session Header Connection Pipeline Exec Dfs Rpc.

Definition PIPE_READ_BUFFER_SIZE : Z := 65536.

(** [tree_connect_ipc] and [tree_disconnect] are those of [dfs.rs], line by line. *)
Definition shares_tree_connect_ipc : io Dialog Z := tree_connect_ipc.
Definition shares_tree_disconnect (tree_id : Z) : io Dialog unit := tree_disconnect tree_id.

(** "srvsvc" *)
Definition SRVSVC : list Z := [115; 114; 118; 115; 118; 99].

Definition open_srvsvc_pipe (tree_id : Z) : io Dialog FileId :=
  frame ← execute_msg Types.Create
            (mkCreateRequest OplockNone Impersonation
               (Z.lor FileAccessMask.FILE_READ_DATA FileAccessMask.FILE_WRITE_DATA) 0
               (Z.lor ShareAccess.FILE_SHARE_READ ShareAccess.FILE_SHARE_WRITE) FileOpen 0 SRVSVC [])
            (Some tree_id);
  expect_success Types.Create frame ;;
  resp ← io_lift (unpack_body CreateResponse (fr_body frame));
  mret (crr_file_id resp).

Definition write_pipe (tree_id : Z) (file_id : FileId) (data : bytes) : io Dialog unit :=
  frame ← execute_msg Types.Write (mkWriteRequest 0x70 0 file_id 0 0 0 0 0 data) (Some tree_id);
  expect_success Types.Write frame ;;
  _resp ← io_lift (unpack_body WriteResponse (fr_body frame));
  mret tt.

Fixpoint read_pipe_loop (fuel : nat) (tree_id : Z) (file_id : FileId) (message : bytes) : io Dialog bytes :=
  match fuel with
  | O => λ _, None
  | S fuel =>
      frame ← execute_msg Types.Read
                (mkReadRequest 0x50 0 PIPE_READ_BUFFER_SIZE 0 file_id 0 SMB2_CHANNEL_NONE 0 []) (Some tree_id);
      let st := status (fr_header frame) in
      if negb (NtStatus.is_success_or_partial st) then io_err (Protocol st Types.Read) else
      resp ← io_lift (unpack_body ReadResponse (fr_body frame));
      let message := message ++ rdr_data resp in
      if negb (st =? NtStatus.BUFFER_OVERFLOW) then mret message else
      if len (rdr_data resp) =? 0
      then io_err (invalid_data "pipe read returned BUFFER_OVERFLOW with no data")
      else read_pipe_loop fuel tree_id file_id message
  end.

Definition read_pipe_message (tree_id : Z) (file_id : FileId) : io Dialog bytes := λ d,
  read_pipe_loop (S (length (dl_answers d))) tree_id file_id [] d.

(** The fragments up to the one with PFC_LAST_FRAG. *)
Fixpoint fragments_loop (fuel : nat) (tree_id : Z) (file_id : FileId) (stub : bytes) : io Dialog bytes :=
  match fuel with
  | O => λ _, None
  | S fuel =>
      pdu ← read_pipe_message tree_id file_id;
      '(frag_stub, is_last) ← io_lift (parse_response_fragment pdu);
      let stub := stub ++ frag_stub in
      if is_last : bool then mret stub else fragments_loop fuel tree_id file_id stub
  end.

Definition read_fragments (tree_id : Z) (file_id : FileId) : io Dialog bytes := λ d,
  fragments_loop (S (length (dl_answers d))) tree_id file_id [] d.

Definition rpc_bind_and_request (tree_id : Z) (file_id : FileId) : io Dialog (list ShareInfo) :=
  bind_data ← io_lift (build_srvsvc_bind 1);
  write_pipe tree_id file_id bind_data ;;
  bind_ack_data ← read_pipe_message tree_id file_id;
  io_lift (parse_bind_ack bind_ack_data) ;;
  server ← server_name;
  request_data ← io_lift (build_net_share_enum_all 2 ([Name.BACKSLASH; Name.BACKSLASH] ++ server));
  write_pipe tree_id file_id request_data ;;
  stub ← read_fragments tree_id file_id;
  io_lift (parse_net_share_enum_all_stub stub).

Definition shares_close_handle (tree_id : Z) (file_id : FileId) : io Dialog unit :=
  frame ← execute_msg Types.Close (mkCloseRequest 0 file_id) (Some tree_id);
  expect_success Types.Close frame.

Definition pipe_rpc_exchange (tree_id : Z) : io Dialog (list ShareInfo) :=
  file_id ← open_srvsvc_pipe tree_id;
  result ← attempt (rpc_bind_and_request tree_id file_id);
  _ ← attempt (shares_close_handle tree_id file_id);
  io_lift result.

Definition list_shares : io Dialog (list ShareInfo) :=
  tree_id ← shares_tree_connect_ipc;
  result ← attempt (pipe_rpc_exchange tree_id);
  _ ← attempt (shares_tree_disconnect tree_id);
  all_shares ← io_lift result;
  mret (filter_disk_shares all_shares).

(** ** Steps that take the answers meant for them *)

(** [m] takes exactly the answers [rs] and returns [a]. *)
Definition yields {A} (server : list Z) (m : io Dialog A) (rs : list reply) (a : A) : Prop :=
  ∀ d rest, dl_server_name d = server → dl_answers d = rs ++ rest →
    ∃ d', m d = Some (Ok a, d') ∧ dl_answers d' = rest ∧ dl_server_name d' = server.

Section yields.
Context {A B : Type} (server : list Z).

Lemma yields_ret (a : A) : yields server (mret a) [] a.
Proof. intros d rest Hs Ha. by exists d. Qed.
Lemma yields_lift (r : result Error A) a : r = Ok a → yields server (io_lift r) [] a.
Proof. intros -> d rest Hs Ha. by exists d. Qed.
Lemma yields_bind (m : io Dialog A) (k : A → io Dialog B) rs1 rs2 a b :
  yields server m rs1 a → yields server (k a) rs2 b → yields server (m ≫= k) (rs1 ++ rs2) b.
Proof.
  intros Hm Hk d rest Hs Ha. rewrite <- app_assoc in Ha. destruct (Hm d _ Hs Ha) as (d1 & E & Ha1 & Hs1).
  destruct (Hk d1 _ Hs1 Ha1) as (d2 & E2 & ? & ?). exists d2. unfold mbind, io_bind. by rewrite E.
Qed.
Lemma yields_bind_0 (m : io Dialog A) (k : A → io Dialog B) rs a b :
  yields server m [] a → yields server (k a) rs b → yields server (m ≫= k) rs b.
Proof. apply (yields_bind m k []). Qed.
Lemma yields_bind_nil (m : io Dialog A) (k : A → io Dialog B) rs a b :
  yields server m rs a → yields server (k a) [] b → yields server (m ≫= k) rs b.
Proof. intros Hm Hk. rewrite <- (app_nil_r rs). by eapply yields_bind. Qed.
Lemma yields_attempt (m : io Dialog A) rs a : yields server m rs a → yields server (attempt m) rs (Ok a).
Proof. intros Hm d rest Hs Ha. destruct (Hm d rest Hs Ha) as (d' & E & ?). exists d'. unfold attempt. by rewrite E. Qed.
Lemma yields_server_name : yields server server_name [] server.
Proof. intros d rest Hs Ha. exists d. unfold server_name. by rewrite Hs. Qed.
Lemma yields_execute `{Pack A} cmd (m : A) tree f :
  packs m → yields server (execute_msg cmd m tree) [Reply f] f.
Proof.
  intros [bs E] d rest Hs Ha. unfold execute_msg, mbind, io_bind, io_lift. rewrite E. unfold execute_raw.
  cbn [dl_answers dl_record]. rewrite Ha. eexists. split; [done|]. cbn [dl_answers dl_answered dl_record].
  rewrite Ha. by split.
Qed.
Lemma yields_expect cmd f :
  status (fr_header f) = NtStatus.SUCCESS → yields server (expect_success cmd f) [] tt.
Proof. intros E. unfold expect_success. rewrite E. intros d rest Hs Ha. by exists d. Qed.

End yields.

(** A request whose answer does not matter, as [attempt] makes it. *)
Lemma yields_any {A} `{Pack A} server cmd (m : A) tree r :
  packs m → ∃ x, yields server (attempt (frame ← execute_msg cmd m tree; expect_success cmd frame)) [r] x.
Proof.
  intros [bs E]. destruct r as [f|e].
  - exists (if negb (status (fr_header f) =? NtStatus.SUCCESS)
            then Err (Protocol (status (fr_header f)) cmd) else Ok tt).
    intros d rest Hs Ha. eexists. unfold attempt, execute_msg, mbind, io_bind, io_lift. rewrite E.
    unfold execute_raw. cbn [dl_answers dl_record]. rewrite Ha. cbn [app of_reply]. unfold expect_success.
    destruct (negb _); (split; [done|]; cbn [dl_answers dl_answered dl_record]; by rewrite Ha).
  - exists (Err e). intros d rest Hs Ha. eexists. unfold attempt, execute_msg, mbind, io_bind, io_lift. rewrite E.
    unfold execute_raw. cbn [dl_answers dl_record]. rewrite Ha. cbn [app of_reply].
    split; [done|]. cbn [dl_answers dl_answered dl_record]. by rewrite Ha.
Qed.

Lemma packs_write o off f c rb io il fl d : packs (mkWriteRequest o off f c rb io il fl d).
Proof.
  destruct (is_empty d) eqn:E; eapply packs_by; unfold writes_at, pack, WriteRequest_pack; wsteps;
    cbn [wrq_data]; rewrite E; wprim.
Qed.
Lemma packs_read_pipe f : packs (mkReadRequest 0x50 0 PIPE_READ_BUFFER_SIZE 0 f 0 SMB2_CHANNEL_NONE 0 []).
Proof.
  eapply packs_by. unfold writes_at, pack, ReadRequest_pack. wsteps. cbn [rdq_read_channel_info is_empty].
  eapply w_bind; [wsteps; wprim|]. wprim.
Qed.
Lemma packs_close f : packs (mkCloseRequest 0 f).
Proof. packs_tac. Qed.
Lemma packs_pipe : packs (mkCreateRequest OplockNone Impersonation
  (Z.lor FileAccessMask.FILE_READ_DATA FileAccessMask.FILE_WRITE_DATA) 0
  (Z.lor ShareAccess.FILE_SHARE_READ ShareAccess.FILE_SHARE_WRITE) FileOpen 0 SRVSVC []).
Proof. apply codec_packs. split; first [done|by repeat constructor]. Qed.
#[export] Hint Resolve packs_write packs_read_pipe packs_close packs_pipe : smb.

(** ** Reassembly *)

(** The answer [r] to a READ carries [data] with status [st]. *)
Definition answers_read (st : Z) (data : bytes) (r : reply) : Prop :=
  ∃ f resp, r = Reply f ∧ status (fr_header f) = st ∧
    unpack_body ReadResponse (fr_body f) = Ok resp ∧ rdr_data resp = data.

(** One pipe message, in as many reads as the server likes: all but the last are
    reported as BUFFER_OVERFLOW and carry something. *)
Definition serves_message (msg : bytes) (rs : list reply) : Prop :=
  ∃ chunks tail rs1 r, msg = concat chunks ++ tail ∧ Forall (λ c, c ≠ []) chunks ∧
    rs = rs1 ++ [r] ∧ Forall2 (answers_read NtStatus.BUFFER_OVERFLOW) chunks rs1 ∧
    answers_read NtStatus.SUCCESS tail r.

Lemma read_loop_yields server t fid chunks rs1 tail r message fuel :
  Forall2 (answers_read NtStatus.BUFFER_OVERFLOW) chunks rs1 → Forall (λ c, c ≠ []) chunks →
  answers_read NtStatus.SUCCESS tail r → (length rs1 < fuel)%nat →
  yields server (read_pipe_loop fuel t fid message) (rs1 ++ [r]) (message ++ concat chunks ++ tail).
Proof.
  intros Hc. revert message fuel. induction Hc as [|c rc chunks rs1 Hrc Hc IH]; intros message fuel Hne Hr Hf;
    (destruct fuel as [|fuel]; [cbn in Hf; lia|]); cbn [read_pipe_loop concat app].
  - destruct Hr as (f & resp & -> & Hst & Hu & <-).
    eapply yields_bind_nil; [apply yields_execute; auto with smb|]. cbv zeta. rewrite Hst. cbn [NtStatus.is_success_or_partial].
    change (negb (NtStatus.is_success_or_partial NtStatus.SUCCESS)) with false. cbv iota.
    eapply yields_bind_0; [by apply yields_lift|].
    change (negb (NtStatus.SUCCESS =? NtStatus.BUFFER_OVERFLOW)) with true. apply yields_ret.
  - destruct Hrc as (f & resp & -> & Hst & Hu & <-). apply Forall_cons in Hne as [Hn Hne].
    change (Reply f :: rs1 ++ [r]) with ([Reply f] ++ (rs1 ++ [r])).
    eapply yields_bind; [apply yields_execute; auto with smb|]. cbv zeta. rewrite Hst.
    change (negb (NtStatus.is_success_or_partial NtStatus.BUFFER_OVERFLOW)) with false. cbv iota.
    eapply yields_bind_0; [by apply yields_lift|]. rewrite Z.eqb_refl. cbn [negb].
    replace (len (rdr_data resp) =? 0) with false
      by (destruct (rdr_data resp) as [|b l]; [done|rewrite len_cons; pose proof (len_nonneg l); lia]).
    rewrite <- (app_assoc (rdr_data resp)), (app_assoc message). apply IH; [done|done|cbn in Hf; lia].
Qed.

Lemma read_message_yields server t fid msg rs :
  serves_message msg rs → yields server (read_pipe_message t fid) rs msg.
Proof.
  intros (chunks & tail & rs1 & r & -> & Hne & -> & Hc & Hr) d rest Hs Ha. unfold read_pipe_message.
  apply (read_loop_yields server t fid chunks rs1 tail r [] _ Hc Hne Hr); [|done|done].
  rewrite Ha, !length_app. cbn. lia.
Qed.

(** A fragment of an RPC response. *)
Definition is_fragment (last : bool) (stub pdu : bytes) : Prop := parse_response_fragment pdu = Ok (stub, last).

(** The answer to the call, in as many fragments as the server likes. *)
Definition serves_response (stub : bytes) (rs : list reply) : Prop :=
  ∃ (parts : list (bytes * bytes * list reply)) last_stub last_pdu last_rs,
    stub = concat (map (λ p, p.1.1) parts) ++ last_stub ∧
    Forall (λ p, is_fragment false p.1.1 p.1.2 ∧ serves_message p.1.2 p.2) parts ∧
    is_fragment true last_stub last_pdu ∧ serves_message last_pdu last_rs ∧
    rs = concat (map snd parts) ++ last_rs.

Lemma serves_message_nonempty msg rs : serves_message msg rs → (1 <= length rs)%nat.
Proof. intros (chunks & tail & rs1 & r & _ & _ & -> & _). rewrite length_app. cbn. lia. Qed.

Lemma fragments_yields server t fid parts last_stub last_pdu last_rs stub fuel :
  Forall (λ p : bytes * bytes * list reply, is_fragment false p.1.1 p.1.2 ∧ serves_message p.1.2 p.2) parts →
  is_fragment true last_stub last_pdu → serves_message last_pdu last_rs → (length parts < fuel)%nat →
  yields server (fragments_loop fuel t fid stub) (concat (map snd parts) ++ last_rs)
    (stub ++ concat (map (λ p, p.1.1) parts) ++ last_stub).
Proof.
  intros Hp Hl Hm. revert stub fuel. induction Hp as [|[[s p] rs] parts [Hf Hs] Hp IH]; intros stub fuel Hfu;
    (destruct fuel as [|fuel]; [cbn in Hfu; lia|]); cbn [fragments_loop map concat app fst snd] in *.
  - eapply yields_bind_nil; [by apply read_message_yields|].
    eapply yields_bind_0; [apply yields_lift, Hl|]. cbv beta iota. apply yields_ret.
  - rewrite <- app_assoc. eapply yields_bind; [by apply read_message_yields|].
    eapply yields_bind_0; [apply yields_lift, Hf|]. cbv beta iota zeta.
    rewrite <- (app_assoc s), (app_assoc stub). apply IH. cbn in Hfu. lia.
Qed.

Lemma read_fragments_yields server t fid stub rs :
  serves_response stub rs → yields server (read_fragments t fid) rs stub.
Proof.
  intros (parts & ls & lp & lr & -> & Hp & Hl & Hm & ->) d rest Hs Ha. unfold read_fragments.
  apply (fragments_yields server t fid parts ls lp lr [] _ Hp Hl Hm); [|done|done].
  rewrite Ha, !length_app. clear Ha. induction Hp as [|[[s p] r] parts [_ Hr] Hp IH]; cbn [map concat length snd]; [lia|].
  apply serves_message_nonempty in Hr. cbn [snd] in Hr. rewrite length_app. lia.
Qed.

(** ** The exchange *)

Definition grants_tree (t : Z) (f : Frame) : Prop :=
  command (fr_header f) = TreeConnect ∧ status (fr_header f) = NtStatus.SUCCESS ∧
  (∃ resp, unpack_body TreeConnectResponse (fr_body f) = Ok resp) ∧ Header.tree_id (fr_header f) = Some t.
Definition opens_pipe (f : Frame) : Prop :=
  status (fr_header f) = NtStatus.SUCCESS ∧ ∃ resp, unpack_body CreateResponse (fr_body f) = Ok resp.
Definition accepts_write (f : Frame) : Prop :=
  status (fr_header f) = NtStatus.SUCCESS ∧ ∃ resp, unpack_body WriteResponse (fr_body f) = Ok resp.

(** A server that grants the tree and the pipe, accepts the bind and answers the call
    with [stub]; what it answers to the clean-up does not matter. *)
Definition serves_enumeration (stub : bytes) (rs : list reply) : Prop :=
  ∃ t ft fc w1 ack acks w2 resps rc rd,
    grants_tree t ft ∧ opens_pipe fc ∧ accepts_write w1 ∧ parse_bind_ack ack = Ok tt ∧
    serves_message ack acks ∧ accepts_write w2 ∧ serves_response stub resps ∧
    rs = [Reply ft] ++ ([Reply fc] ++ ([Reply w1] ++ acks ++ [Reply w2] ++ resps) ++ [rc]) ++ [rd].

Lemma connect_yields server t f : grants_tree t f → yields server shares_tree_connect_ipc [Reply f] t.
Proof.
  intros (Hc & Hst & (resp & Hu) & Ht). unfold shares_tree_connect_ipc, tree_connect_ipc.
  eapply yields_bind_0; [apply yields_server_name|]. eapply yields_bind_nil; [apply yields_execute; auto with smb|].
  rewrite (bool_decide_true _ Hc). cbn [negb]. eapply yields_bind_0; [by apply yields_expect|].
  eapply yields_bind_0; [apply yields_lift, Hu|]. rewrite Ht. apply yields_ret.
Qed.

Lemma write_yields server t fid data f : accepts_write f → yields server (write_pipe t fid data) [Reply f] tt.
Proof.
  intros (Hst & resp & Hu). unfold write_pipe. eapply yields_bind_nil; [apply yields_execute; auto with smb|].
  eapply yields_bind_0; [by apply yields_expect|]. eapply yields_bind_0; [apply yields_lift, Hu|]. apply yields_ret.
Qed.

Lemma rpc_yields server t fid w1 ack acks w2 stub resps shares :
  accepts_write w1 → parse_bind_ack ack = Ok tt → serves_message ack acks → accepts_write w2 →
  serves_response stub resps → parse_net_share_enum_all_stub stub = Ok shares →
  yields server (rpc_bind_and_request t fid) ([Reply w1] ++ acks ++ [Reply w2] ++ resps) shares.
Proof.
  intros H1 Hack Hm H2 Hr Hp. unfold rpc_bind_and_request.
  destruct (build_bind_ok 1) as (b & Eb & _). eapply yields_bind_0; [by apply yields_lift|].
  eapply yields_bind; [by apply write_yields|]. eapply yields_bind; [by apply read_message_yields|].
  eapply yields_bind_0; [by apply yields_lift|]. eapply yields_bind_0; [apply yields_server_name|].
  eapply yields_bind_0.
  { apply yields_lift. unfold build_net_share_enum_all. rewrite build_stub_layout.
    cbn [mbind result_bind]. apply build_request_layout. }
  eapply yields_bind; [by apply write_yields|]. eapply yields_bind_nil; [by apply read_fragments_yields|].
  by apply yields_lift.
Qed.


(** ** Clean-up *)

(** A step on the pipe: it returns, sends READs and WRITEs on the tree [t] only, and
    takes at least [n] answers if it succeeds.  [b] bounds the answers left. *)
Definition on_pipe (t : Z) (x : request) : Prop :=
  rq_tree x = Some t ∧ (rq_command x = Types.Read ∨ rq_command x = Types.Write).

Definition works {A} (t : Z) (b n : nat) (m : io Dialog A) : Prop :=
  ∀ d, (length (dl_answers d) < b)%nat → ∃ r d' xs, m d = Some (r, d') ∧ r ≠ Panic ∧
    dl_sent d' = dl_sent d ++ map SentOne xs ∧ Forall (on_pipe t) xs ∧
    (length (dl_answers d') + (if is_err r then 0 else n) <= length (dl_answers d))%nat.

Lemma works_bind {A B} t b n1 n2 (m : io Dialog A) (k : A → io Dialog B) :
  works t b n1 m → (∀ a, works t (b - n1) n2 (k a)) → works t b (n1 + n2) (m ≫= k).
Proof.
  intros Hm Hk d Hd. destruct (Hm d Hd) as (r & d1 & xs & E & Hr & Hs & Hx & Hl). unfold mbind, io_bind. rewrite E.
  destruct r as [a|e|]; [|by exists (Err e), d1, xs|done]. cbn [is_err] in Hl.
  destruct (Hk a d1 ltac:(lia)) as (r & d2 & ys & E2 & Hr2 & Hs2 & Hy & Hl2).
  exists r, d2, (xs ++ ys). split; [done|]. split; [done|].
  rewrite Hs2, Hs, map_app, app_assoc. split; [done|]. split; [by apply Forall_app|]. destruct (is_err r); lia.
Qed.

(** A step that only looks. *)
Definition still {A} (m : io Dialog A) : Prop := ∀ d, ∃ r, m d = Some (r, d) ∧ r ≠ Panic.
Lemma still_works {A} t b (m : io Dialog A) : still m → works t b 0 m.
Proof.
  intros Hm d Hd. destruct (Hm d) as (r & E & Hr). exists r, d, []. cbn [map]. rewrite app_nil_r.
  split; [done|]. split; [done|]. split; [done|]. split; [done|]. destruct (is_err r); lia.
Qed.
Lemma still_lift {A} (r : result Error A) : r ≠ Panic → still (io_lift r).
Proof. intros Hr d. by exists r. Qed.
Lemma still_ret {A} (a : A) : still (mret a).
Proof. intros d. by exists (Ok a). Qed.
Lemma still_err {A} e : still (io_err e : io Dialog A).
Proof. intros d. by exists (Err e). Qed.
Lemma still_expect cmd f : still (expect_success cmd f).
Proof. unfold expect_success. case_test; [apply still_err|apply still_ret]. Qed.
Lemma still_bind {A B} (m : io Dialog A) (k : A → io Dialog B) : still m → (∀ a, still (k a)) → still (m ≫= k).
Proof.
  intros Hm Hk d. destruct (Hm d) as (r & E & Hr). unfold mbind, io_bind. rewrite E.
  destruct r as [a|e|]; [apply Hk|by exists (Err e)|done].
Qed.
Lemma still_unpack A `{Codec A} body : still (io_lift (unpack_body A body)).
Proof. apply still_lift, (unpack_body_no_panic A). Qed.

Lemma execute_step {A} `{Pack A} cmd (m : A) tree d :
  packs m → ∃ bs r d', packed m = Ok bs ∧ execute_msg cmd m tree d = Some (r, d') ∧ r ≠ Panic ∧
    dl_sent d' = dl_sent d ++ [SentOne (mkRequest cmd bs tree)] ∧ dl_answers d' = tail (dl_answers d) ∧
    match dl_answers d with [] => r = Err Disconnected | x :: _ => r = of_reply x end.
Proof.
  intros [bs E]. unfold execute_msg, mbind, io_bind, io_lift. rewrite E. unfold execute_raw. cbn [dl_answers dl_record].
  destruct (dl_answers d) as [|x rs] eqn:Ha.
  - eexists bs, _, _. split; [done|]. split; [done|]. split; [done|]. cbn [dl_sent dl_answers dl_record]. by rewrite Ha.
  - eexists bs, _, _. split; [done|]. split; [done|]. split; [by destruct x|]. cbn [dl_sent dl_answers dl_answered dl_record].
    by rewrite Ha.
Qed.

Lemma works_execute {A} `{Pack A} t b cmd (m : A) :
  packs m → cmd = Types.Read ∨ cmd = Types.Write → works t b 1 (execute_msg cmd m (Some t)).
Proof.
  intros Hm Hc d Hd. destruct (execute_step cmd m (Some t) d Hm) as (bs & r & d' & _ & E & Hr & Hs & Ha & Hx).
  exists r, d', [mkRequest cmd bs (Some t)]. split; [done|]. split; [done|]. split; [done|].
  split; [by apply Forall_singleton|]. rewrite Ha. destruct (dl_answers d); cbn [tail length]; [by subst r|].
  destruct (is_err r); lia.
Qed.

Lemma works_weaken {A} t b n n' (m : io Dialog A) : (n' <= n)%nat → works t b n m → works t b n' m.
Proof.
  intros Hn Hm d Hd. destruct (Hm d Hd) as (r & d' & xs & ? & ? & ? & ? & Hl). exists r, d', xs.
  split_and!; try done. destruct (is_err r); lia.
Qed.
Lemma works_bound {A} t b b' n (m : io Dialog A) : (b' <= b)%nat → works t b n m → works t b' n m.
Proof. intros Hb Hm d Hd. apply Hm. lia. Qed.

Lemma works_read_loop t fid fuel message : works t fuel 1 (read_pipe_loop fuel t fid message).
Proof.
  revert message. induction fuel as [|fuel IH]; intros message; [intros d Hd; lia|]. cbn [read_pipe_loop].
  change 1%nat with (1 + 0)%nat. apply works_bind; [apply works_execute; auto with smb|]. intros f. cbv zeta.
  case_test; [apply still_works, still_err|]. change 0%nat with (0 + 0)%nat.
  apply works_bind; [apply still_works, (still_unpack ReadResponse)|]. intros resp.
  case_test; [apply still_works, still_ret|]. case_test; [apply still_works, still_err|].
  apply (works_bound _ fuel); [lia|]. apply (works_weaken _ _ 1); [lia|]. apply IH.
Qed.

Lemma works_read_message t fid b : works t b 1 (read_pipe_message t fid).
Proof. intros d Hd. apply (works_read_loop t fid (S (length (dl_answers d))) [] d). lia. Qed.

Lemma works_fragments t fid fuel stub : works t fuel 1 (fragments_loop fuel t fid stub).
Proof.
  revert stub. induction fuel as [|fuel IH]; intros stub; [intros d Hd; lia|]. cbn [fragments_loop].
  change 1%nat with (1 + 0)%nat. apply works_bind; [apply works_read_message|]. intros pdu.
  change 0%nat with (0 + 0)%nat.
  apply works_bind; [apply still_works, still_lift, (rpc_parsers_safe pdu)|]. intros [s l]. cbv zeta.
  destruct l; [apply still_works, still_ret|].
  apply (works_bound _ fuel); [lia|]. apply (works_weaken _ _ 1); [lia|]. apply IH.
Qed.

Lemma works_write t fid data b : works t b 1 (write_pipe t fid data).
Proof.
  unfold write_pipe. change 1%nat with (1 + 0)%nat. apply works_bind; [apply works_execute; auto with smb|].
  intros f. apply still_works. apply still_bind; [apply still_expect|]. intros _.
  apply still_bind; [apply (still_unpack WriteResponse)|]. intros. apply still_ret.
Qed.

Lemma works_rpc t fid b : works t b 0 (rpc_bind_and_request t fid).
Proof.
  apply (works_weaken _ _ (0 + (1 + (1 + (0 + (0 + (0 + (1 + (1 + 0)))))))))%nat; [lia|].
  unfold rpc_bind_and_request. destruct (build_bind_ok 1) as (bind & Eb & _). rewrite Eb.
  apply works_bind; [by apply still_works, still_lift|]. intros ?. apply works_bind; [apply works_write|]. intros _.
  apply works_bind; [apply works_read_message|]. intros ack.
  apply works_bind; [apply still_works, still_lift, (rpc_parsers_safe ack)|]. intros _.
  apply works_bind; [apply still_works; intros d; by eexists|]. intros server.
  apply works_bind; [apply still_works, still_lift|].
  { unfold build_net_share_enum_all. rewrite build_stub_layout. cbn [mbind result_bind]. by rewrite build_request_layout. }
  intros req. apply works_bind; [apply works_write|]. intros _. apply works_bind.
  - intros d Hd. apply (works_fragments t fid (S (length (dl_answers d))) [] d). lia.
  - intros stub. apply still_works, still_lift, (rpc_parsers_safe stub).
Qed.

(** One request, then steps that only look. *)
Lemma execute_then {A B} `{Pack A} cmd (m : A) tree (k : Frame → io Dialog B) d :
  packs m → (∀ f, still (k f)) →
  ∃ bs r d', packed m = Ok bs ∧ (frame ← execute_msg cmd m tree; k frame) d = Some (r, d') ∧ r ≠ Panic ∧
    dl_sent d' = dl_sent d ++ [SentOne (mkRequest cmd bs tree)] ∧ dl_answers d' = tail (dl_answers d) ∧
    (is_err r = true ∨ ∃ f, head (dl_answers d) = Some (Reply f) ∧ k f d' = Some (r, d')).
Proof.
  intros Hm Hk. destruct (execute_step cmd m tree d Hm) as (bs & r & d1 & Ep & E & Hr & Hs & Ha & Hx).
  unfold mbind at 1, io_bind at 1. rewrite E. destruct r as [f|e|]; [| |done].
  - destruct (Hk f d1) as (r & E2 & Hr2). exists bs, r, d1. split_and!; try done. right. exists f. split; [|done].
    destruct (dl_answers d) as [|[g|e] rs]; [done| |done]. by injection Hx as ->.
  - exists bs, (Err e), d1. split_and!; try done. by left.
Qed.

Lemma still_create f : still (expect_success Types.Create f ;;
  resp ← io_lift (unpack_body CreateResponse (fr_body f)); mret (crr_file_id resp)).
Proof.
  apply still_bind; [apply still_expect|]. intros _. apply still_bind; [apply (still_unpack CreateResponse)|].
  intros. apply still_ret.
Qed.
Lemma still_connected f : still (
  if negb (bool_decide (command (fr_header f) = TreeConnect))
  then io_err (invalid_data "expected TreeConnect response, got {:?}")
  else
    expect_success TreeConnect f ;;
    _resp ← io_lift (unpack_body TreeConnectResponse (fr_body f));
    match Header.tree_id (fr_header f) with
    | Some t => mret t
    | None => io_err (invalid_data "TreeConnect response missing tree ID")
    end).
Proof.
  case_test; [apply still_err|]. apply still_bind; [apply still_expect|]. intros _.
  apply still_bind; [apply (still_unpack TreeConnectResponse)|]. intros _.
  destruct (Header.tree_id (fr_header f)); [apply still_ret|apply still_err].
Qed.

(** The result of the parts after the answer, when they succeed. *)
Lemma created_id f d fid d' :
  (expect_success Types.Create f ;;
   resp ← io_lift (unpack_body CreateResponse (fr_body f)); mret (crr_file_id resp)) d = Some (Ok fid, d') →
  ∃ resp, unpack_body CreateResponse (fr_body f) = Ok resp ∧ fid = crr_file_id resp.
Proof.
  unfold expect_success, mbind, io_bind, io_lift. destruct (negb _); [done|]. cbn [mret io_ret].
  unfold mret, io_ret. destruct (unpack_body _ _) as [resp|e|]; [|done|done]. intros [= <- _]. by exists resp.
Qed.

(** What the pipe exchange sends on tree [t], after [first] answers: the CREATE alone if
    it fails, else everything up to the CLOSE of the handle that the CREATE returned. *)
Definition pipe_requests (t : Z) (answers : list reply) (failed : bool) (xs : list request) : Prop :=
  ∃ b, (failed = true ∧ xs = [mkRequest Types.Create b (Some t)]) ∨
    ∃ f resp ys, head answers = Some (Reply f) ∧ unpack_body CreateResponse (fr_body f) = Ok resp ∧
      Forall (on_pipe t) ys ∧
      xs = [mkRequest Types.Create b (Some t)] ++ ys
           ++ [mkRequest Types.Close (body_of (mkCloseRequest 0 (crr_file_id resp))) (Some t)].

Lemma attempt_ok {A} (m : io Dialog A) d r d' : m d = Some (r, d') → r ≠ Panic → attempt m d = Some (Ok r, d').
Proof. intros E Hr. unfold attempt. rewrite E. by destruct r. Qed.

Lemma pipe_exchange_sends t d :
  ∃ r d' xs, pipe_rpc_exchange t d = Some (r, d') ∧ r ≠ Panic ∧ dl_sent d' = dl_sent d ++ map SentOne xs ∧
    pipe_requests t (dl_answers d) (is_err r) xs.
Proof.
  destruct (execute_then Types.Create _ (Some t) _ d packs_pipe still_create)
    as (b & r & d1 & _ & E & Hr & Hs & Ha & Hx).
  unfold pipe_rpc_exchange. fold (open_srvsvc_pipe t) in E. unfold mbind at 1, io_bind at 1. rewrite E.
  destruct r as [fid|e|]; [| |done].
  2: { exists (Err e), d1, [mkRequest Types.Create b (Some t)]. split_and!; try done. exists b. by left. }
  destruct Hx as [?|(f & Hf & Ek)]; [done|]. destruct (created_id _ _ _ _ Ek) as (resp & Hu & ->).
  destruct (works_rpc t (crr_file_id resp) (S (length (dl_answers d1))) d1 ltac:(lia)) as (r2 & d2 & ys & E2 & Hr2 & Hs2 & Hy & _).
  destruct (execute_then Types.Close (mkCloseRequest 0 (crr_file_id resp)) (Some t) _ d2
    (packs_close _) (still_expect Types.Close)) as (b3 & r3 & d3 & Eb3 & E3 & Hr3 & Hs3 & _).
  fold (shares_close_handle t (crr_file_id resp)) in E3.
  unfold mbind at 1, io_bind at 1. rewrite (attempt_ok _ _ _ _ E2 Hr2).
  unfold mbind, io_bind. rewrite (attempt_ok _ _ _ _ E3 Hr3).
  exists r2, d3, ([mkRequest Types.Create b (Some t)] ++ ys ++ [mkRequest Types.Close b3 (Some t)]).
  split; [done|]. split; [done|]. split.
  { rewrite Hs3, Hs2, Hs, !map_app. cbn [map]. by rewrite <- !app_assoc. }
  exists b. right. exists f, resp, ys. split_and!; try done. unfold body_of. by rewrite Eb3.
Qed.

(** Listing the shares always returns, never panics, and leaves nothing open on the
    server, whatever it answers.  Either the TREE_CONNECT to IPC$ failed and nothing
    else was sent; or everything after it goes to the tree the server granted and ends
    with its TREE_DISCONNECT, and if the pipe was opened the READs and WRITEs on it are
    followed by the CLOSE of the handle the server returned. *)
Theorem list_shares_cleans_up d :
  ∃ r d' b1, list_shares d = Some (r, d') ∧ r ≠ Panic ∧
    ((is_err r = true ∧ dl_sent d' = dl_sent d ++ [SentOne (mkRequest TreeConnect b1 None)]) ∨
     ∃ f t b2 xs, head (dl_answers d) = Some (Reply f) ∧ Header.tree_id (fr_header f) = Some t ∧
       pipe_requests t (tail (dl_answers d)) (is_err r) xs ∧
       dl_sent d' = dl_sent d ++ map SentOne ([mkRequest TreeConnect b1 None] ++ xs
                                              ++ [mkRequest TreeDisconnect b2 (Some t)])).
Proof.
  unfold list_shares.
  assert (packs (mkTreeConnectRequest 0 (ipc_path (dl_server_name d)))) as Hp by auto with smb.
  destruct (execute_then TreeConnect _ None _ d Hp still_connected) as (b1 & r & d1 & _ & E & Hr & Hs & Ha & Hx).
  assert (shares_tree_connect_ipc d = Some (r, d1)) as Ec by (rewrite <- E; reflexivity).
  unfold mbind at 1, io_bind at 1. rewrite Ec. destruct r as [t|e|]; [| |done].
  2: { exists (Err e), d1, b1. split_and!; try done. by left. }
  destruct Hx as [?|(f & Hf & Ek)]; [done|].
  assert (Header.tree_id (fr_header f) = Some t) as Ht.
  { revert Ek. unfold expect_success, mbind, io_bind, io_lift, mret, io_ret. destruct (negb _); [done|].
    destruct (negb _); [done|]. destruct (unpack_body _ _); [|done|done].
    destruct (Header.tree_id (fr_header f)); [by intros [= ->]|done]. }
  destruct (pipe_exchange_sends t d1) as (r2 & d2 & xs & E2 & Hr2 & Hs2 & Hpipe).
  assert (packs (mkTrivialMessage)) as Hd by auto with smb.
  destruct (execute_then TreeDisconnect mkTrivialMessage (Some t) _ d2 Hd (still_expect TreeDisconnect))
    as (b3 & r3 & d3 & _ & E3 & Hr3 & Hs3 & _).
  unfold mbind at 1, io_bind at 1. rewrite (attempt_ok _ _ _ _ E2 Hr2).
  unfold mbind at 1, io_bind at 1.
  rewrite (attempt_ok (shares_tree_disconnect t) d2 r3 d3 E3 Hr3).
  exists (match r2 with Ok l => Ok (filter_disk_shares l) | Err e => Err e | Panic => Panic end), d3, b1.
  split; [by destruct r2|]. split; [by destruct r2|]. right. exists f, t, b3, xs.
  split; [done|]. split; [done|]. split; [rewrite <- Ha; by destruct r2|].
  rewrite Hs3, Hs2, Hs, !map_app. cbn [map]. by rewrite <- !app_assoc.
Qed.

(** ** A server with a disk share and IPC$ *)

Definition toy_frame (cmd : Command) (st : Z) (body : bytes) : Frame :=
  mkFrame (mkHeader 1 st cmd 1 1 0 0 (Some 7) None 0 (zeros 16)) body [].
Definition toy_read (st : Z) (data : bytes) : reply :=
  Reply (toy_frame Types.Read st (body_of (mkReadResponse 80 0 0 data))).
Definition toy_write : Frame := toy_frame Types.Write 0 (body_of (mkWriteResponse 72 0 0 0)).

Definition toy_ack : bytes :=
  [x05; x00; x0c; x03] ++ DATA_REP ++ to_le 2 40 ++ to_le 2 0 ++ to_le 4 1 ++ to_le 2 4280 ++ to_le 2 4280
  ++ to_le 4 0 ++ to_le 2 0 ++ zeros 2 ++ [x01; x00; x00; x00] ++ to_le 2 0.

Definition toy_shares : list RemoteShare :=
  [mkRemoteShare (mkShareInfo [100; 111; 99; 115] STYPE_DISKTREE [120]) 4 8;
   mkRemoteShare (mkShareInfo [73; 80; 67; 36] (Z.lor STYPE_IPC STYPE_SPECIAL) []) 12 0].
Definition toy_stub : bytes := share_enum_stub 1 2 toy_shares (to_le 4 2 ++ to_le 4 0 ++ to_le 4 0).

(** Two fragments, the first in two reads. *)
Definition toy_pdu1 : bytes := response_pdu 1 2 0 0 0 (take 30 toy_stub).
Definition toy_pdu2 : bytes := response_pdu 2 2 0 0 0 (drop 30 toy_stub).
Definition toy_grant : Frame := toy_frame TreeConnect 0 (body_of (mkTreeConnectResponse PipeShare 0 0 0)).
Definition toy_created : Frame :=
  toy_frame Types.Create 0 (body_of (mkCreateResponse OplockNone 0 FileOpened (mkFileTime 0) (mkFileTime 0)
    (mkFileTime 0) (mkFileTime 0) 0 0 0 (mkFileId 3 4) [])).
Definition toy_answers : list reply :=
  [Reply toy_grant; Reply toy_created; Reply toy_write; toy_read NtStatus.SUCCESS toy_ack; Reply toy_write;
   toy_read NtStatus.BUFFER_OVERFLOW (take 11 toy_pdu1); toy_read NtStatus.SUCCESS (drop 11 toy_pdu1);
   toy_read NtStatus.SUCCESS toy_pdu2; Failure Disconnected; Failure Disconnected].

Lemma toy_answers_read st data :
  len data <= 1000 → answers_read st data (toy_read st data).
Proof.
  intros Hl. eexists _, _. split; [done|]. split; [done|]. split; [apply (unpack_body_of ReadResponse)|done].
  split; [done|]. split; [done|]. split; [done|]. unfold MAX_UNPACK_BUFFER. cbn [rdr_data]. lia.
Qed.

Lemma toy_serves : serves_enumeration toy_stub toy_answers.
Proof.
  assert (∀ msg, len msg <= 1000 → serves_message msg [toy_read NtStatus.SUCCESS msg]) as Hone.
  { intros msg Hm. exists [], msg, [], (toy_read NtStatus.SUCCESS msg). split_and!; try done. by apply toy_answers_read. }
  assert (accepts_write toy_write) as Hw by (split; [done|]; eexists; vm_compute; reflexivity).
  exists 7, toy_grant, toy_created, toy_write, toy_ack, [toy_read NtStatus.SUCCESS toy_ack], toy_write,
    [toy_read NtStatus.BUFFER_OVERFLOW (take 11 toy_pdu1); toy_read NtStatus.SUCCESS (drop 11 toy_pdu1);
     toy_read NtStatus.SUCCESS toy_pdu2], (Failure Disconnected), (Failure Disconnected).
  split; [|split; [|split; [exact Hw|split; [vm_compute; reflexivity|
    split; [apply Hone; vm_compute; discriminate|split; [exact Hw|split]]]]]].
  - split; [done|]. split; [done|]. split; [eexists; vm_compute; reflexivity|done].
  - split; [done|]. eexists. vm_compute. reflexivity.
  - exists [(take 30 toy_stub, toy_pdu1,
             [toy_read NtStatus.BUFFER_OVERFLOW (take 11 toy_pdu1); toy_read NtStatus.SUCCESS (drop 11 toy_pdu1)])],
      (drop 30 toy_stub), toy_pdu2, [toy_read NtStatus.SUCCESS toy_pdu2].
    split; [vm_compute; reflexivity|]. split; [|split; [vm_compute; reflexivity|split; [apply Hone; vm_compute; discriminate|done]]].
    apply Forall_singleton. split; [vm_compute; reflexivity|].
    exists [take 11 toy_pdu1], (drop 11 toy_pdu1), [toy_read NtStatus.BUFFER_OVERFLOW (take 11 toy_pdu1)],
      (toy_read NtStatus.SUCCESS (drop 11 toy_pdu1)).
    split; [vm_compute; reflexivity|]. split; [by apply Forall_singleton|]. split; [done|].
    split; [constructor; [apply toy_answers_read; vm_compute; discriminate|constructor]|].
    apply toy_answers_read. vm_compute. discriminate.
  - reflexivity.
Qed.

Lemma toy_text ptr s :
  is_u32 ptr → (ptr = 0 → s = []) → forallb is_char s = true → last s ≠ Some 0 →
  (len (encode_utf16 (s ++ [0])) <? 2 ^ 32) = true → text_ok ptr s.
Proof.
  intros H1 H2 H3 H4 H5. split; [done|]. split; [done|]. split; [|split; [done|]].
  - unfold str_wf. apply Forall_forall. intros c Hc. by apply (proj1 (forallb_forall _ _) H3), list_elem_of_In.
  - bool_prop. unfold in_range. pose proof (len_nonneg (encode_utf16 (s ++ [0]))). lia.
Qed.

Lemma toy_shares_wf : Forall RemoteShare_wf toy_shares.
Proof.
  constructor; [|constructor; [|constructor]]; (split; [apply toy_text; done|apply toy_text; done|done]).
Qed.

