(* ===== verification/Script.v ===== *)
(** * A server that follows a script

    An instance of [Wire] that answers from a list, whatever it is asked, and
    records every request: quantifying over scripts quantifies over every
    behaviour of a server, so that theorems about what a client sends hold against
    all of them. *)

From S2P Require Import Prelude Types Pack Codec Header FileIo Create Query Pipeline Tree.

(** A reply to one request: an error of the connection, or status and body. *)
Inductive answer := Refused (e : Error) | Answered (status : Z) (body : bytes).

Definition of_answer (a : answer) : result Error (Z * bytes) :=
  match a with Refused e => Err e | Answered s b => Ok (s, b) end.

(** What left the client. *)
Inductive sent :=
| One (tree : Z) (op : FileOp) (charge : Z)
| Several (ops : list (Z * FileOp * Z)).

Record Script := mkScript {
  sc_sent : list sent;
  sc_answers : list answer;
  sc_compounds : list (Error + list answer)
}.

Definition script_execute (s : Script) (tree : Z) (op : FileOp) (charge : Z) :
    result Error (Z * bytes) * Script :=
  let log := sc_sent s ++ [One tree op charge] in
  match sc_answers s with
  | [] => (Err Disconnected, mkScript log [] (sc_compounds s))
  | a :: rest => (of_answer a, mkScript log rest (sc_compounds s))
  end.

Definition script_compound (s : Script) (ops : list (Z * FileOp * Z)) :
    result Error (list (result Error (Z * bytes))) * Script :=
  let log := sc_sent s ++ [Several ops] in
  match sc_compounds s with
  | [] => (Err Disconnected, mkScript log (sc_answers s) [])
  | c :: rest =>
      (match c with inl e => Err e | inr l => Ok (map of_answer l) end,
       mkScript log (sc_answers s) rest)
  end.

#[global] Instance script_wire : Wire Script := {
  transfer_sizes _ := Some (65536, 65536);
  transact_size _ := Some 65536;
  execute_with_credits := script_execute;
  execute_compound := script_compound;
  forget_oplock s _ := s
}.

(** ** What a step sends to a script *)

(** From any script with these answers left, [m] returns [r], has sent [xs] and
    leaves these answers. *)
Definition speaks {A} (m : io (World Script) A) (answers : list answer) (cs : list (Error + list answer))
    (r : result Error A) (xs : list sent) (answers' : list answer) (cs' : list (Error + list answer)) : Prop :=
  ∀ log evs, m (mkWorld (mkScript log answers cs) evs)
             = Some (r, mkWorld (mkScript (log ++ xs) answers' cs') evs).

Section speaks.
Context {A B : Type}.
Implicit Types (m : io (World Script) A) (k : A → io (World Script) B).

Lemma speaks_ret (a : A) l c : speaks (mret a) l c (Ok a) [] l c.
Proof. intros log evs. by rewrite app_nil_r. Qed.
Lemma speaks_err e l c : speaks (io_err e : io (World Script) A) l c (Err e) [] l c.
Proof. intros log evs. by rewrite app_nil_r. Qed.
Lemma speaks_lift (r : result Error A) l c : speaks (io_lift r) l c r [] l c.
Proof. intros log evs. by rewrite app_nil_r. Qed.
Lemma speaks_bind m k l c a xs l1 c1 r ys l2 c2 :
  speaks m l c (Ok a) xs l1 c1 → speaks (k a) l1 c1 r ys l2 c2 →
  speaks (m ≫= k) l c r (xs ++ ys) l2 c2.
Proof.
  intros Hm Hk log evs. unfold mbind, io_bind. rewrite Hm, Hk. by rewrite app_assoc.
Qed.
Lemma speaks_bind_err m k l c e xs l1 c1 :
  speaks m l c (Err e) xs l1 c1 → speaks (m ≫= k) l c (Err e) xs l1 c1.
Proof. intros Hm log evs. unfold mbind, io_bind. by rewrite Hm. Qed.
Lemma speaks_attempt m l c r xs l1 c1 :
  speaks m l c r xs l1 c1 → r ≠ Panic → speaks (attempt m) l c (Ok r) xs l1 c1.
Proof. intros Hm Hr log evs. unfold attempt. rewrite Hm. by destruct r. Qed.
End speaks.

Lemma speaks_execute tree op a l c :
  speaks (execute tree op) (a :: l) c (of_answer a) [One tree op 1] l c.
Proof. by intros log evs. Qed.
Lemma speaks_execute_end tree op c :
  speaks (execute tree op) [] c (Err Disconnected) [One tree op 1] [] c.
Proof. by intros log evs. Qed.
Lemma speaks_execute_charged tree op n a l c :
  speaks (execute_charged tree op n) (a :: l) c (of_answer a) [One tree op n] l c.
Proof. by intros log evs. Qed.
Lemma speaks_execute_charged_end tree op n c :
  speaks (execute_charged tree op n) [] c (Err Disconnected) [One tree op n] [] c.
Proof. by intros log evs. Qed.
Lemma speaks_forget f l c : speaks (forget f) l c (Ok tt) [] l c.
Proof. intros log evs. by rewrite app_nil_r. Qed.
Lemma speaks_compound ops x l c :
  speaks (compound ops) l (x :: c)
    (match x with inl e => Err e | inr rs => Ok (map of_answer rs) end) [Several ops] l c.
Proof. by intros log evs. Qed.
Lemma speaks_query_len l c : speaks query_buffer_len l c (Ok 65536) [] l c.
Proof. intros log evs. by rewrite app_nil_r. Qed.

(** ** CLOSE *)

Lemma speaks_close t fid a l c :
  speaks (close_handle t fid) (a :: l) c
    (match a with
     | Refused e => Err e
     | Answered s _ => if s =? NtStatus.SUCCESS then Ok tt else Err (Protocol s Close)
     end) [One (tree_id t) (OpClose (mkCloseRequest 0 fid)) 1] l c.
Proof.
  intros log evs. unfold close_handle, mbind, io_bind, forget. cbn [w_conn].
  change (forget_oplock _ fid) with (mkScript log (a :: l) c).
  rewrite (speaks_execute _ _ a l c log evs). destruct a as [e|s b]; [done|]. cbn. by destruct (s =? _).
Qed.

(** Whatever is left to answer, CLOSE is sent once and does not panic. *)
Lemma close_sends t fid l c :
  ∃ r l', r ≠ Panic ∧
    speaks (close_handle t fid) l c r [One (tree_id t) (OpClose (mkCloseRequest 0 fid)) 1] l' c.
Proof.
  destruct l as [|a l]; [by eexists (Err Disconnected), []|]. eexists _, l.
  split; [|apply speaks_close]. destruct a as [e|s b]; [done|by destruct (s =? _)].
Qed.

(** ** Compounds *)

(** The answer to a compound that has a response for every operation. *)
Definition replies (rs : list (Z * bytes)) : Error + list answer :=
  inr (map (λ r, Answered r.1 r.2) rs).

Lemma collect_replies rs :
  collect_frames (map of_answer (map (λ r : Z * bytes, Answered r.1 r.2) rs)) = Ok rs.
Proof. induction rs as [|[s b] rs IH]; [done|]. cbn [map of_answer collect_frames fst snd mbind result_bind]. by rewrite IH. Qed.

Lemma speaks_replies {A} ops n rs (k : list (Z * bytes) → io (World Script) A) l c r xs l' :
  length rs = n → speaks (k rs) l c r xs l' c →
  speaks (frames ← compound ops; responses ← io_lift (all_or_first_err frames n); k responses)
    l (replies rs :: c) r (Several ops :: xs) l' c.
Proof.
  intros Hn Hk. eapply (speaks_bind _ _ _ _ _ [_]); [apply (speaks_compound ops (replies rs))|]. cbv beta.
  eapply (speaks_bind _ _ _ _ rs []); [|exact Hk]. unfold all_or_first_err. rewrite collect_replies.
  cbn [mbind result_bind]. rewrite Hn, Nat.eqb_refl. apply speaks_lift.
Qed.
