(* ===== verification/Listing.v ===== *)
(** * Directory listings

    Models the listing half of [src/client/tree.rs]: the parser of
    FileBothDirectoryInformation records, one QUERY_DIRECTORY round trip, the loop
    over them, and [list_directory].

    The loop of [query_directory_loop] has no bound of its own: its model takes a
    number of rounds and is still running ([None]) when they are over. *)

From S2P Require Import Prelude Types Pack Codec Utf16 Name Header FileIo Create Query Contexts Pipeline Script Tree.

Record DirectoryEntry := mkDirectoryEntry {
  de_name : list Z;
  de_size : Z;
  de_is_directory : bool;
  de_created : FileTime;
  de_modified : FileTime
}.

(** ** Parsing *)

(** One record: the entry and the offset of the next one. *)
Definition read_dir_entry : Reader (DirectoryEntry * Z) :=
  next_entry_offset ← read_u32_le;
  _file_index ← read_u32_le;
  creation_time ← unpack FileTime;
  _last_access_time ← unpack FileTime;
  last_write_time ← unpack FileTime;
  _change_time ← unpack FileTime;
  end_of_file ← read_u64_le;
  _allocation_size ← read_u64_le;
  file_attributes ← read_u32_le;
  file_name_length ← read_u32_le;
  _ea_size ← read_u32_le;
  _short_name_length ← read_u8;
  _reserved ← read_u8;
  skip 24 ;;
  name ← (if file_name_length >? 0
          then raw ← read_utf16_le file_name_length; mret (Name.decode_name raw)
          else mret []);
  let is_directory := negb (Z.land file_attributes FILE_ATTRIBUTE_DIRECTORY =? 0) in
  mret (mkDirectoryEntry name end_of_file is_directory creation_time last_write_time, next_entry_offset).

(** The loop at [offset]; every round but the last moves [offset] forward. *)
Fixpoint parse_dir_loop (fuel : nat) (data : bytes) (offset : Z) (entries : list DirectoryEntry) :
    result Error (list DirectoryEntry) :=
  match fuel with
  | O => Panic
  | S fuel =>
      if offset + 94 >? len data then Ok entries
      else
        entry_data ← slice data offset (len data);
        '(entry, next_entry_offset, _) ← read_dir_entry (ReadCursor_new entry_data);
        let entries := entries ++ [entry] in
        if next_entry_offset =? 0 then Ok entries
        else parse_dir_loop fuel data (offset + next_entry_offset) entries
  end.

Definition parse_file_both_directory_info (data : bytes) : result Error (list DirectoryEntry) :=
  parse_dir_loop (S (length data)) data 0 [].

(** ** Querying *)

Inductive QueryStepOutcome :=
| Entries (entries : list DirectoryEntry) (bytes : Z)
| NoMoreFiles (bytes : Z).

Definition query_request (file_id : FileId) (restart : bool) (output_buffer_length : Z) :
    QueryDirectoryRequest :=
  mkQueryDirectoryRequest FileBothDirectoryInformation
    (if restart then QueryDirectoryFlags.RESTART_SCANS else 0) 0 file_id output_buffer_length [0x2A].

Section listing.
Context {C : Type} `{Wire C}.
Context (t : Tree).

Definition query_directory_step (file_id : FileId) (restart : bool) (output_buffer_length : Z) :
    io (World C) QueryStepOutcome :=
  let credit_charge := trunc 16 (Z.max (div_ceil output_buffer_length 65536) 1) in
  '(status, body) ← execute_charged (tree_id t)
     (OpQueryDirectory (query_request file_id restart output_buffer_length)) credit_charge;
  if status =? NtStatus.NO_MORE_FILES then mret (NoMoreFiles (len body))
  else if negb (status =? NtStatus.SUCCESS) then io_err (Protocol status QueryDirectory)
  else
    resp ← io_lift (unpack_body QueryDirectoryResponse body);
    entries ← io_lift (parse_file_both_directory_info (qdr_output_buffer resp));
    mret (Entries entries (len (qdr_output_buffer resp))).

(** [loop { .. }] of [query_directory_loop]. *)
Fixpoint query_rounds (rounds : nat) (file_id : FileId) (len : Z) (restart : bool)
    (all_entries : list DirectoryEntry) : io (World C) (list DirectoryEntry) :=
  match rounds with
  | O => λ _, None
  | S rounds =>
      outcome ← query_directory_step file_id restart len;
      match outcome with
      | NoMoreFiles _ => mret all_entries
      | Entries entries _ => query_rounds rounds file_id len false (all_entries ++ entries)
      end
  end.

Definition query_directory_loop (rounds : nat) (file_id : FileId) : io (World C) (list DirectoryEntry) :=
  output_buffer_length ← query_buffer_len;
  query_rounds rounds file_id output_buffer_length true [].

Definition list_directory (rounds : nat) (path : list Z) : io (World C) (list DirectoryEntry) :=
  file_id ← open_directory t path;
  result ← attempt (query_directory_loop rounds file_id);
  close_result ← attempt (close_handle t file_id);
  entries ← io_lift result;
  io_lift close_result ;;
  mret entries.

End listing.

(** ** The parser is safe *)

Lemma rok_dir_entry : reader_ok read_dir_entry (λ e, is_u32 e.2).
Proof.
  unfold read_dir_entry. roks.
  eapply rok_bind with (P := λ _, True).
  { apply rok_if; intros _; [|by apply rok_ret].
    eapply rok_bind; [apply rok_utf16; eauto with smb|]. intros. by apply rok_ret. }
  intros name _. by apply rok_ret.
Qed.

Lemma parse_dir_loop_safe fuel data offset entries :
  0 <= offset → Z.max 0 (len data - offset) < Z.of_nat fuel →
  parse_dir_loop fuel data offset entries ≠ Panic.
Proof.
  revert offset entries. induction fuel as [|fuel IH]; intros offset entries Ho Hf; [lia|].
  cbn [parse_dir_loop]. case_test; [done|]. rewrite slice_ok by lia. cbn [mbind result_bind].
  pose proof (rok_dir_entry (subslice data offset (len data)) 0) as Hr. unfold ReadCursor_new.
  specialize (Hr ltac:(rewrite len_subslice; lia)).
  destruct (read_dir_entry _) as [[[e n] c]|err|]; [|done|done]. cbn [mbind result_bind].
  destruct Hr as (Hn & _). cbn [snd] in Hn. unfold in_range in Hn.
  destruct (n =? 0) eqn:E; [done|]. bool_prop. apply IH; lia.
Qed.
Lemma parse_dir_no_panic data : parse_file_both_directory_info data ≠ Panic.
Proof. apply parse_dir_loop_safe; unfold len; lia. Qed.

(** ** Records as a server writes them (MS-FSCC 2.4.8) *)

Record DirRecord := mkDirRecord {
  fb_index : Z; fb_created : Z; fb_accessed : Z; fb_modified : Z; fb_changed : Z;
  fb_size : Z; fb_allocated : Z; fb_attributes : Z; fb_ea : Z; fb_short_len : Z; fb_short : bytes;
  fb_name : list Z
}.

Record DirRecord_wf (r : DirRecord) : Prop := {
  fbw_index : is_u32 (fb_index r);
  fbw_created : is_u64 (fb_created r);
  fbw_accessed : is_u64 (fb_accessed r);
  fbw_modified : is_u64 (fb_modified r);
  fbw_changed : is_u64 (fb_changed r);
  fbw_size : is_u64 (fb_size r);
  fbw_allocated : is_u64 (fb_allocated r);
  fbw_attributes : is_u32 (fb_attributes r);
  fbw_ea : is_u32 (fb_ea r);
  fbw_short_len : is_u8 (fb_short_len r);
  fbw_short : len (fb_short r) = 24;
  fbw_name : str_wf (fb_name r);
  fbw_fits : align8 (94 + len (utf16_le_bytes (fb_name r))) < 2 ^ 32
}.

Definition record_fixed (next : Z) (r : DirRecord) : bytes :=
  to_le 4 next ++ to_le 4 (fb_index r) ++ to_le 8 (fb_created r) ++ to_le 8 (fb_accessed r)
  ++ to_le 8 (fb_modified r) ++ to_le 8 (fb_changed r) ++ to_le 8 (fb_size r)
  ++ to_le 8 (fb_allocated r) ++ to_le 4 (fb_attributes r)
  ++ to_le 4 (len (utf16_le_bytes (fb_name r))) ++ to_le 4 (fb_ea r)
  ++ [byte_of_u8 (fb_short_len r)] ++ [byte_of_u8 0] ++ fb_short r.

(** Length of a record that another one follows. *)
Definition record_len (r : DirRecord) : Z := align8 (94 + len (utf16_le_bytes (fb_name r))).

Fixpoint encode_records (l : list DirRecord) : bytes :=
  match l with
  | [] => []
  | r :: l =>
      let name := utf16_le_bytes (fb_name r) in
      if is_empty l then record_fixed 0 r ++ name
      else record_fixed (record_len r) r ++ name ++ zeros (record_len r - (94 + len name))
           ++ encode_records l
  end.

(** What a caller is told of a record. *)
Definition entry_of (r : DirRecord) : DirectoryEntry :=
  mkDirectoryEntry (Name.decode_name (fb_name r)) (fb_size r)
    (negb (Z.land (fb_attributes r) FILE_ATTRIBUTE_DIRECTORY =? 0))
    (mkFileTime (fb_created r)) (mkFileTime (fb_modified r)).

Lemma reads_dir_entry next r :
  DirRecord_wf r → is_u32 next →
  reads_at 0 read_dir_entry (record_fixed next r ++ utf16_le_bytes (fb_name r)) (entry_of r, next).
Proof.
  intros [H1 H2 H3 H4 H5 H6 H7 H8 H9 H10 H11 H12 H13] Hn.
  pose proof (len_nonneg (utf16_le_bytes (fb_name r))).
  pose proof (align8_spec (94 + len (utf16_le_bytes (fb_name r)))).
  assert (is_u32 (len (utf16_le_bytes (fb_name r)))) by (unfold in_range; lia).
  unfold read_dir_entry, record_fixed, entry_of. rewrite <- !app_assoc. repeat rstep.
  do 4 (eapply reads_bind; [by apply (reads_filetime _ (mkFileTime _))|]; cbv beta). repeat rstep.
  eapply reads_bind; [by apply reads_skip|]. cbv beta.
  eapply reads_bind_nil.
  - instantiate (1 := Name.decode_name (fb_name r)). case_test.
    + eapply reads_bind_nil; [by apply reads_utf16|]. apply reads_ret.
    + assert (len (utf16_le_bytes (fb_name r)) = 0) as E by lia.
      rewrite (len_0_nil _ E). rewrite (len_utf16_nil (fb_name r)) by done. apply reads_ret.
  - cbv zeta. apply reads_ret.
Qed.

Lemma record_fixed_len next r : DirRecord_wf r → len (record_fixed next r) = 94.
Proof. intros Hr. unfold record_fixed. autorewrite with len. rewrite (fbw_short r Hr). lia. Qed.

(** The parser, at the start of an encoded list that ends the buffer. *)
Lemma parse_records pre l fuel acc :
  Forall DirRecord_wf l → (length l < fuel)%nat →
  parse_dir_loop fuel (pre ++ encode_records l) (len pre) acc = Ok (acc ++ map entry_of l).
Proof.
  intros Hl. revert pre fuel acc. induction Hl as [|r l Hr Hl IH]; intros pre fuel acc Hf;
    (destruct fuel as [|fuel]; [cbn in Hf; lia|]); cbn [length] in Hf.
  { cbn [parse_dir_loop encode_records map]. rewrite !app_nil_r. by case_test; [|lia]. }
  cbn [parse_dir_loop]. pose proof (len_nonneg pre).
  set (name := utf16_le_bytes (fb_name r)). pose proof (len_nonneg name).
  pose proof (align8_spec (94 + len name)) as Ha. change (align8 (94 + len name)) with (record_len r) in Ha.
  assert (is_u32 (record_len r)) as Hu by (pose proof (fbw_fits r Hr); unfold in_range; unfold record_len, name in *; lia).
  set (next := if is_empty l then 0 else record_len r).
  assert (∃ rest, encode_records (r :: l) = record_fixed next r ++ name ++ rest ∧
                  (is_empty l = false → rest = zeros (record_len r - (94 + len name)) ++ encode_records l)) as (rest & E & Hrest).
  { unfold next. cbn [encode_records]. fold name. destruct (is_empty l); [exists []|eexists; split; [done|done]].
    by rewrite app_nil_r. }
  rewrite E. pose proof (record_fixed_len next r Hr) as Hfl. pose proof (len_nonneg rest).
  assert (len (pre ++ record_fixed next r ++ name ++ rest) = len pre + len (record_fixed next r ++ name ++ rest)) as Hlen
    by apply len_app.
  assert (len (record_fixed next r ++ name ++ rest) = 94 + len name + len rest) as Hlen' by (rewrite !len_app; lia).
  case_test; [lia|]. rewrite slice_ok by lia.
  cbn [mbind result_bind]. rewrite (subslice_suffix pre) by done.
  pose proof (reads_dir_entry next r Hr ltac:(unfold next; by destruct (is_empty l)) [] rest eq_refl) as Hread.
  cbn [app] in Hread. rewrite <- app_assoc in Hread. fold name in Hread. unfold ReadCursor_new.
  rewrite Hread. cbn [mbind result_bind map]. unfold next at 1.
  destruct (is_empty l) eqn:El; [by destruct l|].
  rewrite (proj2 (Z.eqb_neq _ _)) by lia. unfold next. rewrite Hrest by done.
  set (pre' := pre ++ record_fixed (record_len r) r ++ name ++ zeros (record_len r - (94 + len name))).
  replace (pre ++ record_fixed (record_len r) r ++ name ++ _ ++ encode_records l)
    with (pre' ++ encode_records l) by (unfold pre'; by rewrite <- !app_assoc).
  replace (len pre + record_len r) with (len pre').
  - rewrite IH by lia. f_equal. by rewrite <- app_assoc.
  - unfold pre'. rewrite !len_app, record_fixed_len, len_zeros by (done || lia). lia.
Qed.

Lemma encode_records_len l : Forall DirRecord_wf l → Z.of_nat (length l) <= len (encode_records l).
Proof.
  induction 1 as [|r l Hr Hl IH]; [done|]. cbn [encode_records length].
  pose proof (len_nonneg (utf16_le_bytes (fb_name r))).
  destruct (is_empty l) eqn:E; rewrite !len_app, !record_fixed_len by done.
  - destruct l; [cbn; lia|done].
  - pose proof (len_nonneg (zeros (record_len r - (94 + len (utf16_le_bytes (fb_name r)))))). lia.
Qed.

Lemma parse_encoded l :
  Forall DirRecord_wf l → parse_file_both_directory_info (encode_records l) = Ok (map entry_of l).
Proof.
  intros Hl. apply (parse_records [] l _ [] Hl). pose proof (encode_records_len l Hl). unfold len in *. lia.
Qed.

(** ** One round trip *)

(** CREATE, answered with success. *)
Lemma speaks_open_directory t path opened l c :
  CreateResponse_wf opened →
  speaks (open_directory t path) (Answered NtStatus.SUCCESS (body_of opened) :: l) c
    (Ok (crr_file_id opened)) [One (tree_id t) (OpCreate (directory_create (format_path t path))) 1] l c.
Proof.
  intros Hw log evs. unfold open_directory, open_with, mbind, io_bind.
  rewrite (speaks_execute _ _ _ l c log evs). cbn [of_answer]. rewrite Z.eqb_refl. cbn [negb].
  unfold io_lift. by rewrite (unpack_body_of CreateResponse).
Qed.

(** The query of one round. *)
Definition query (t : Tree) (fid : FileId) (restart : bool) : sent :=
  One (tree_id t) (OpQueryDirectory (query_request fid restart 65536)) 1.

(** A page of the listing. *)
Definition page (l : list DirRecord) : answer :=
  Answered NtStatus.SUCCESS (body_of (mkQueryDirectoryResponse (encode_records l))).

Definition page_wf (l : list DirRecord) : Prop :=
  Forall DirRecord_wf l ∧ len (encode_records l) <= MAX_UNPACK_BUFFER.

Lemma speaks_page t fid restart p l c :
  page_wf p →
  speaks (query_directory_step t fid restart 65536) (page p :: l) c
    (Ok (Entries (map entry_of p) (len (encode_records p)))) [query t fid restart] l c.
Proof.
  intros [Hp Hl] log evs. unfold query_directory_step, mbind, io_bind.
  change (trunc 16 (Z.max (div_ceil 65536 65536) 1)) with 1. cbv zeta.
  rewrite (speaks_execute_charged _ _ 1 (page p) l c log evs). unfold page, of_answer.
  change (NtStatus.SUCCESS =? NtStatus.NO_MORE_FILES) with false.
  change (NtStatus.SUCCESS =? NtStatus.SUCCESS) with true. cbn [negb]. cbv iota.
  unfold io_lift. rewrite (unpack_body_of QueryDirectoryResponse) by done.
  cbn [qdr_output_buffer]. by rewrite parse_encoded.
Qed.

Lemma speaks_no_more t fid restart body l c :
  speaks (query_directory_step t fid restart 65536) (Answered NtStatus.NO_MORE_FILES body :: l) c
    (Ok (NoMoreFiles (len body))) [query t fid restart] l c.
Proof. by intros log evs. Qed.

(** The rounds of a scan: only the first one may restart it. *)
Lemma speaks_rounds t fid rounds restart pages acc body l c :
  Forall page_wf pages → (length pages < rounds)%nat →
  speaks (query_rounds t rounds fid 65536 restart acc)
    (map page pages ++ Answered NtStatus.NO_MORE_FILES body :: l) c
    (Ok (acc ++ map entry_of (concat pages)))
    (query t fid restart :: map (λ _, query t fid false) pages) l c.
Proof.
  intros Hp. revert rounds restart acc. induction Hp as [|p pages Hw Hp IH]; intros [|rounds] restart acc Hr;
    cbn [length] in Hr; [lia| |lia|]; cbn [query_rounds map concat app].
  - eapply (speaks_bind _ _ _ _ _ [_]); [apply speaks_no_more|]. rewrite app_nil_r. apply speaks_ret.
  - eapply (speaks_bind _ _ _ _ _ [_]); [by apply speaks_page|]. cbv beta iota.
    rewrite map_app, app_assoc. apply IH. lia.
Qed.

(** ** Whole listings *)

(** What the caller gets when the scan succeeded: the answer to CLOSE decides. *)
Definition after_close {A} (v : A) (a : answer) : result Error A :=
  match a with
  | Refused e => Err e
  | Answered s _ => if s =? NtStatus.SUCCESS then Ok v else Err (Protocol s Close)
  end.

(** C30: a server that opens the directory, sends its records in any number of
    pages (each laid out as MS-FSCC prescribes) and then says NO_MORE_FILES has
    every record reported, once and in its order, with the name decoded and the
    size, times and directory bit of the record; the client sends CREATE, one query
    per page and one more, of which only the first restarts the scan, and CLOSE. *)
Theorem list_directory_exact t path rounds opened pages body closed :
  CreateResponse_wf opened → Forall page_wf pages → (length pages < rounds)%nat →
  speaks (list_directory t rounds path)
    (Answered NtStatus.SUCCESS (body_of opened)
       :: map page pages ++ [Answered NtStatus.NO_MORE_FILES body; closed]) []
    (after_close (map entry_of (concat pages)) closed)
    ([One (tree_id t) (OpCreate (directory_create (format_path t path))) 1]
     ++ (query t (crr_file_id opened) true :: map (λ _, query t (crr_file_id opened) false) pages)
     ++ [One (tree_id t) (OpClose (mkCloseRequest 0 (crr_file_id opened))) 1]) [] [].
Proof.
  intros Hop Hp Hr. unfold list_directory.
  eapply speaks_bind; [by apply speaks_open_directory|].
  eapply speaks_bind.
  { eapply (speaks_attempt _ _ _ (Ok _)); [|done]. unfold query_directory_loop.
    eapply (speaks_bind _ _ _ _ _ []); [apply speaks_query_len|]. by apply speaks_rounds. }
  cbn [app]. eapply (speaks_bind _ _ _ _ _ [_] _ _ _ []).
  { eapply speaks_attempt; [apply speaks_close|]. destruct closed as [|s b]; [done|by destruct (s =? _)]. }
  destruct closed as [e|s b]; cbn [after_close]; [|destruct (s =? NtStatus.SUCCESS)]; apply speaks_lift.
Qed.

Definition sample_tree : Tree := mkTree 5 [100] [115] false false.
Definition sample_opened : CreateResponse :=
  mkCreateResponse OplockNone 0 FileOpened (mkFileTime 0) (mkFileTime 0) (mkFileTime 0) (mkFileTime 0)
    0 0 FILE_ATTRIBUTE_DIRECTORY (mkFileId 3 7) [].
Definition sample_record (size : Z) (name : list Z) : DirRecord :=
  mkDirRecord 0 1 2 3 4 size 4096 0x20 0 0 (zeros 24) name.

(** A directory of two pages, three files. *)
Lemma list_directory_exact_witness :
  speaks (list_directory sample_tree 3 [115])
    (Answered NtStatus.SUCCESS (body_of sample_opened)
       :: map page [[sample_record 10 [97]; sample_record 20 [98; 99]]; [sample_record 30 [100]]]
       ++ [Answered NtStatus.NO_MORE_FILES []; Answered NtStatus.SUCCESS []]) []
    (Ok [mkDirectoryEntry [97] 10 false (mkFileTime 1) (mkFileTime 3);
         mkDirectoryEntry [98; 99] 20 false (mkFileTime 1) (mkFileTime 3);
         mkDirectoryEntry [100] 30 false (mkFileTime 1) (mkFileTime 3)])
    [One 5 (OpCreate (directory_create [115])) 1;
     query sample_tree (mkFileId 3 7) true; query sample_tree (mkFileId 3 7) false;
     query sample_tree (mkFileId 3 7) false; One 5 (OpClose (mkCloseRequest 0 (mkFileId 3 7))) 1] [] [].
Proof.
  refine (list_directory_exact sample_tree [115] 3 sample_opened
            [[sample_record 10 [97]; sample_record 20 [98; 99]]; [sample_record 30 [100]]]
            [] (Answered NtStatus.SUCCESS []) _ _ _).
  all: repeat constructor; try done.
Defined.

(** ** The handle is closed *)

(** Any answer to a query: the step sends that query and nothing else. *)
Lemma speaks_step t fid restart l c :
  ∃ r l', r ≠ Panic ∧ speaks (query_directory_step t fid restart 65536) l c r [query t fid restart] l' c.
Proof.
  unfold query_directory_step. change (trunc 16 (Z.max (div_ceil 65536 65536) 1)) with 1. cbv zeta.
  destruct l as [|[e|s b] l].
  1, 2: eexists (Err _), _; split; [done|]; eapply speaks_bind_err;
    first [apply speaks_execute_charged_end|apply (speaks_execute_charged _ _ _ (Refused e))].
  assert (∃ r l', r ≠ Panic ∧ speaks
    (if s =? NtStatus.NO_MORE_FILES then mret (NoMoreFiles (len b))
     else if negb (s =? NtStatus.SUCCESS) then io_err (Protocol s QueryDirectory)
     else resp ← io_lift (unpack_body QueryDirectoryResponse b);
          entries ← io_lift (parse_file_both_directory_info (qdr_output_buffer resp));
          mret (Entries entries (len (qdr_output_buffer resp)))) l c r [] l' c) as (r & l' & Hr & Hs).
  { destruct (s =? _); [eexists (Ok _), _; split; [done|apply speaks_ret]|].
    destruct (negb _); [eexists (Err _), _; split; [done|apply speaks_err]|].
    pose proof (unpack_body_no_panic QueryDirectoryResponse b).
    destruct (unpack_body _ b) as [resp|e|]; [|eexists (Err e), _; split; [done|]; apply speaks_bind_err, speaks_lift|done].
    pose proof (parse_dir_no_panic (qdr_output_buffer resp)).
    destruct (parse_file_both_directory_info _) as [es|e|] eqn:E; [eexists (Ok _), _|eexists (Err e), _|done];
      (split; [done|]); (eapply (speaks_bind _ _ _ _ _ []); [apply speaks_lift|]); cbv beta; rewrite E.
    - eapply (speaks_bind _ _ _ _ _ []); [apply speaks_lift|apply speaks_ret].
    - apply speaks_bind_err, speaks_lift. }
  exists r, l'. split; [done|]. eapply (speaks_bind _ _ _ _ (s, b) [_] l c);
    [apply (speaks_execute_charged _ _ _ (Answered s b))|exact Hs].
Qed.

Definition is_query (t : Tree) (fid : FileId) (x : sent) : Prop := ∃ restart, x = query t fid restart.

Lemma rounds_send t fid rounds restart acc l c :
  (∀ log evs, query_rounds t rounds fid 65536 restart acc (mkWorld (mkScript log l c) evs) = None) ∨
  ∃ r qs l', r ≠ Panic ∧ Forall (is_query t fid) qs ∧
    speaks (query_rounds t rounds fid 65536 restart acc) l c r qs l' c.
Proof.
  revert restart acc l. induction rounds as [|rounds IH]; intros restart acc l; [by left|]. cbn [query_rounds].
  destruct (speaks_step t fid restart l c) as (r & l1 & Hr & Hs).
  assert (is_query t fid (query t fid restart)) as Hq by by eexists.
  destruct r as [[es n|n]|e|]; [| | |done].
  - destruct (IH false (acc ++ es) l1) as [Hnone|(r & qs & l' & Hr' & Hqs & Hs')].
    + left. intros log evs. unfold mbind, io_bind. rewrite Hs. apply Hnone.
    + right. eexists r, ([_] ++ qs), l'. split; [done|]. split; [by constructor|]. by eapply speaks_bind.
  - right. eexists (Ok acc), ([_] ++ []), l1. split; [done|]. split; [by constructor|].
    eapply speaks_bind; [done|apply speaks_ret].
  - right. eexists (Err e), [_], l1. split; [done|]. split; [by constructor|]. by apply speaks_bind_err.
Qed.

(** Once the directory is open, whatever the server answers afterwards, a
    listing that comes back has sent queries for that handle and then, as its last
    message, the CLOSE of that handle; it does not panic on any of those answers. *)
Theorem list_directory_closes t path rounds opened l c :
  CreateResponse_wf opened →
  (∀ log evs, list_directory t rounds path
     (mkWorld (mkScript log (Answered NtStatus.SUCCESS (body_of opened) :: l) c) evs) = None) ∨
  ∃ r qs l', r ≠ Panic ∧ Forall (is_query t (crr_file_id opened)) qs ∧
    speaks (list_directory t rounds path) (Answered NtStatus.SUCCESS (body_of opened) :: l) c r
      ([One (tree_id t) (OpCreate (directory_create (format_path t path))) 1]
       ++ qs ++ [One (tree_id t) (OpClose (mkCloseRequest 0 (crr_file_id opened))) 1]) l' c.
Proof.
  intros Hop. pose proof (speaks_open_directory t path opened l c Hop) as Ho. unfold list_directory.
  destruct (rounds_send t (crr_file_id opened) rounds true [] l c) as [Hnone|(r & qs & l1 & Hr & Hqs & Hs)].
  - left. intros log evs. unfold mbind at 1, io_bind at 1. rewrite Ho.
    unfold mbind at 1, io_bind at 1, attempt at 1, query_directory_loop.
    unfold mbind at 1, io_bind at 1. rewrite speaks_query_len. by rewrite Hnone.
  - right. destruct (close_sends t (crr_file_id opened) l1 c) as (rc & l2 & Hrc & Hc).
    exists (match r, rc with Ok v, Ok _ => Ok v | Ok _, Err e => Err e | Err e, _ => Err e | _, _ => Panic end), qs, l2.
    split; [by destruct r, rc|]. split; [done|]. eapply speaks_bind; [exact Ho|]. cbv beta.
    eapply speaks_bind.
    { eapply speaks_attempt; [|exact Hr]. unfold query_directory_loop.
      eapply (speaks_bind _ _ _ _ _ []); [apply speaks_query_len|]. exact Hs. }
    cbv beta. eapply (speaks_bind _ _ _ _ _ [_] _ _ _ []); [by eapply speaks_attempt|].
    destruct r as [v|e|], rc as [[]|e'|]; try done; apply speaks_lift.
Qed.

Lemma list_directory_closes_witness :
  ∃ r qs l', r ≠ Panic ∧ Forall (is_query sample_tree (mkFileId 3 7)) qs ∧
    speaks (list_directory sample_tree 2 [115])
      [Answered NtStatus.SUCCESS (body_of sample_opened); Answered NtStatus.ACCESS_DENIED []] [] r
      ([One 5 (OpCreate (directory_create [115])) 1]
       ++ qs ++ [One 5 (OpClose (mkCloseRequest 0 (mkFileId 3 7))) 1]) l' [].
Proof.
  destruct (list_directory_closes sample_tree [115] 2 sample_opened [Answered NtStatus.ACCESS_DENIED []] []) as [H|H].
  - by repeat constructor.
  - exfalso. specialize (H [] []). vm_compute in H. discriminate H.
  - exact H.
Defined.

(** The loop trusts the server to end the scan: against one that sends a page for
    every query it is still running after any number of rounds. *)
Example listing_unbounded t path rounds evs :
  list_directory t rounds path
    (mkWorld (mkScript [] (Answered NtStatus.SUCCESS (body_of sample_opened) :: repeat (page []) rounds) []) evs) = None.
Proof.
  assert (∀ restart acc log, query_rounds t rounds (mkFileId 3 7) 65536 restart acc
            (mkWorld (mkScript log (repeat (page []) rounds) []) evs) = None) as Hrounds.
  { induction rounds as [|n IH]; intros restart acc log; [done|]. cbn [query_rounds repeat].
    unfold mbind, io_bind. rewrite (speaks_page t (mkFileId 3 7) restart [] (repeat (page []) n) []) by done.
    apply IH. }
  unfold list_directory, mbind at 1, io_bind at 1. rewrite speaks_open_directory by (by repeat constructor).
  unfold mbind at 1, io_bind at 1, attempt at 1, query_directory_loop, mbind at 1, io_bind at 1.
  rewrite speaks_query_len. unfold crr_file_id, sample_opened. by rewrite Hrounds.
Qed.
