(* ===== verification/Metadata.v ===== *)
(** * Metadata and namespace operations

    Models the compounds of [src/client/tree.rs] that look at or change a name:
    [stat], [fs_info], [rename], [delete_compound] and their callers, each one
    CREATE, its queries or updates on the sentinel handle, and CLOSE. *)

From S2P Require Import Prelude Types Fields Pack Codec Utf16 Name Header FileIo Create Query Pipeline Script Tree.

Definition FILE_BASIC_INFORMATION : Z := 4.
Definition FILE_STANDARD_INFORMATION : Z := 5.
Definition FILE_RENAME_INFORMATION : Z := 10.
Definition FILE_DISPOSITION_INFORMATION : Z := 13.
Definition FILE_FS_FULL_SIZE_INFORMATION : Z := 7.

Record FileInfo := mkFileInfo {
  fi_size : Z; fi_is_directory : bool;
  fi_created : FileTime; fi_modified : FileTime; fi_accessed : FileTime
}.

Record FsInfo := mkFsInfo {
  fsi_total_bytes : Z; fsi_free_bytes : Z; fsi_total_free_bytes : Z;
  fsi_bytes_per_sector : Z; fsi_sectors_per_unit : Z
}.

(** [a * b] on [u64]: panics on overflow (the behaviour of a debug build). *)
Definition mul_u64 (a b : Z) : result Error Z := if a * b <? 2 ^ 64 then Ok (a * b) else Panic.

(** ** Requests *)

Definition attributes_create (options : Z) (name : list Z) : CreateRequest :=
  mkCreateRequest OplockNone Impersonation
    (Z.lor FileAccessMask.FILE_READ_ATTRIBUTES FileAccessMask.SYNCHRONIZE)
    0 SHARE_ALL FileOpen options name [].

Definition delete_create (options : Z) (name : list Z) : CreateRequest :=
  mkCreateRequest OplockNone Impersonation
    (Z.lor FileAccessMask.DELETE FileAccessMask.FILE_READ_ATTRIBUTES)
    0 SHARE_ALL FileOpen options name [].

Definition query_info (info_type : InfoType) (info_class output_buffer_length : Z) : FileOp :=
  OpQueryInfo (mkQueryInfoRequest info_type info_class output_buffer_length 0 0 FileId_SENTINEL []).

Definition set_info (info_class : Z) (buffer : bytes) : FileOp :=
  OpSetInfo (mkSetInfoRequest InfoFile info_class 0 FileId_SENTINEL buffer).

Definition close_sentinel : FileOp := OpClose (mkCloseRequest 0 FileId_SENTINEL).

Definition build_rename_info_buffer (new_name : list Z) : bytes :=
  let name_u16 := encode_utf16 new_name in
  let name_byte_len := len name_u16 * 2 in
  [byte_of_u8 0] ++ zeros 7 ++ to_le 8 0 ++ to_le 4 (trunc 32 name_byte_len)
  ++ utf16_le_bytes new_name.

(** ** Parsing *)

(** FileBasicInformation: created, accessed, modified, attributes. *)
Definition parse_basic (buf : bytes) : result Error (FileTime * FileTime * FileTime * Z) :=
  if len buf <? 36 then Err (invalid_data "FileBasicInformation too short: {} bytes") else
  created ← le_at buf 0 8;
  accessed ← le_at buf 8 16;
  modified ← le_at buf 16 24;
  _change_time ← le_at buf 24 32;
  file_attributes ← le_at buf 32 36;
  Ok (mkFileTime created, mkFileTime accessed, mkFileTime modified, file_attributes).

(** FileStandardInformation: size, directory byte. *)
Definition parse_standard (buf : bytes) : result Error (Z * Z) :=
  if len buf <? 22 then Err (invalid_data "FileStandardInformation too short: {} bytes") else
  _allocation_size ← le_at buf 0 8;
  end_of_file ← le_at buf 8 16;
  _number_of_links ← le_at buf 16 20;
  _delete_pending ← byte_at buf 20;
  is_directory_byte ← byte_at buf 21;
  Ok (end_of_file, is_directory_byte).

(** FileFsFullSizeInformation; [i64 as u64] keeps the bits. *)
Definition parse_fs_full_size (buf : bytes) : result Error FsInfo :=
  if len buf <? 32 then Err (invalid_data "FileFsFullSizeInformation too short: {} bytes") else
  total_allocation_units ← le_at buf 0 8;
  caller_available_units ← le_at buf 8 16;
  actual_available_units ← le_at buf 16 24;
  sectors_per_unit ← le_at buf 24 28;
  bytes_per_sector ← le_at buf 28 32;
  bytes_per_unit ← mul_u64 sectors_per_unit bytes_per_sector;
  total_bytes ← mul_u64 total_allocation_units bytes_per_unit;
  free_bytes ← mul_u64 caller_available_units bytes_per_unit;
  total_free_bytes ← mul_u64 actual_available_units bytes_per_unit;
  Ok (mkFsInfo total_bytes free_bytes total_free_bytes bytes_per_sector sectors_per_unit).

(** ** Operations *)

Section metadata.
Context {C : Type} `{Wire C}.
Context (t : Tree).

(** An operation after a successful CREATE failed: its cascaded CLOSE failed with
    it, so the handle is closed by a request of its own. *)
Definition fail_closing {A} (create_body : bytes) (status : Z) (command : Command) : io (World C) A :=
  create_resp ← io_lift (unpack_body CreateResponse create_body);
  attempt (close_handle t (crr_file_id create_resp)) ;;
  io_err (Protocol status command).

Definition on_tree (ops : list FileOp) : list (Z * FileOp * Z) := map (λ op, (tree_id t, op, 1)) ops.

Definition stat_ops (path : list Z) : list FileOp :=
  [OpCreate (attributes_create 0 (format_path t path));
   query_info InfoFile FILE_BASIC_INFORMATION 40;
   query_info InfoFile FILE_STANDARD_INFORMATION 24;
   close_sentinel].

Definition stat (path : list Z) : io (World C) FileInfo :=
  frames ← compound (on_tree (stat_ops path));
  responses ← io_lift (all_or_first_err frames (length (stat_ops path)));
  match responses with
  | [(create_status, create_body); (basic_status, basic_body); (std_status, std_body); _] =>
      if negb (create_status =? NtStatus.SUCCESS) then io_err (Protocol create_status Types.Create) else
      if negb (NtStatus.is_success_or_partial basic_status)
      then fail_closing create_body basic_status QueryInfo else
      basic_resp ← io_lift (unpack_body QueryInfoResponse basic_body);
      '(created, accessed, modified, file_attributes) ← io_lift (parse_basic (qir_output_buffer basic_resp));
      if negb (NtStatus.is_success_or_partial std_status)
      then fail_closing create_body std_status QueryInfo else
      std_resp ← io_lift (unpack_body QueryInfoResponse std_body);
      '(end_of_file, is_directory_byte) ← io_lift (parse_standard (qir_output_buffer std_resp));
      let is_directory := negb (is_directory_byte =? 0)
                          || negb (Z.land file_attributes FILE_ATTRIBUTE_DIRECTORY =? 0) in
      mret (mkFileInfo end_of_file is_directory created modified accessed)
  | _ => io_lift Panic (* [responses[3]] out of range *)
  end.

Definition fs_info_ops : list FileOp :=
  [OpCreate (attributes_create FILE_DIRECTORY_FILE []);
   query_info InfoFilesystem FILE_FS_FULL_SIZE_INFORMATION 32;
   close_sentinel].

Definition fs_info : io (World C) FsInfo :=
  frames ← compound (on_tree fs_info_ops);
  responses ← io_lift (all_or_first_err frames (length fs_info_ops));
  match responses with
  | [(create_status, create_body); (query_status, query_body); _] =>
      if negb (create_status =? NtStatus.SUCCESS) then io_err (Protocol create_status Types.Create) else
      if negb (NtStatus.is_success_or_partial query_status)
      then fail_closing create_body query_status QueryInfo else
      query_resp ← io_lift (unpack_body QueryInfoResponse query_body);
      io_lift (parse_fs_full_size (qir_output_buffer query_resp))
  | _ => io_lift Panic (* [responses[2]] out of range *)
  end.

Definition rename_ops (from to : list Z) : list FileOp :=
  [OpCreate (delete_create 0 (format_path t from));
   set_info FILE_RENAME_INFORMATION (build_rename_info_buffer (normalize_path to));
   close_sentinel].

Definition rename (from to : list Z) : io (World C) unit :=
  frames ← compound (on_tree (rename_ops from to));
  responses ← io_lift (all_or_first_err frames (length (rename_ops from to)));
  match responses with
  | [(create_status, create_body); (setinfo_status, _); _] =>
      if negb (create_status =? NtStatus.SUCCESS) then io_err (Protocol create_status Types.Create) else
      if negb (setinfo_status =? NtStatus.SUCCESS)
      then fail_closing create_body setinfo_status SetInfo else mret tt
  | _ => io_lift Panic (* [responses[2]] out of range *)
  end.

Definition delete_ops (path : list Z) (type_option : Z) : list FileOp :=
  [OpCreate (delete_create type_option (format_path t path));
   set_info FILE_DISPOSITION_INFORMATION [byte_of_u8 1];
   close_sentinel].

(** The [for (header, command) in ..] of [delete_compound] *)
Fixpoint check_each (create_body : bytes) (l : list (Z * Command)) : io (World C) unit :=
  match l with
  | [] => mret tt
  | (status, command) :: l =>
      if negb (status =? NtStatus.SUCCESS) then fail_closing create_body status command
      else check_each create_body l
  end.

Definition delete_compound (path : list Z) (type_option : Z) : io (World C) unit :=
  frames ← compound (on_tree (delete_ops path type_option));
  responses ← io_lift (all_or_first_err frames (length (delete_ops path type_option)));
  match responses with
  | [(create_status, create_body); (setinfo_status, _); (close_status, _)] =>
      if negb (create_status =? NtStatus.SUCCESS) then io_err (Protocol create_status Types.Create) else
      check_each create_body [(setinfo_status, SetInfo); (close_status, Close)]
  | _ => io_lift Panic (* [responses[2]] out of range *)
  end.

Definition delete_file (path : list Z) : io (World C) unit := delete_compound path FILE_NON_DIRECTORY_FILE.
Definition delete_directory (path : list Z) : io (World C) unit := delete_compound path FILE_DIRECTORY_FILE.

(** The batches: [results.push(self.op(conn, x).await)] for every [x]. *)
Fixpoint each {X A} (op : X → io (World C) A) (l : list X) : io (World C) (list (result Error A)) :=
  match l with
  | [] => mret []
  | x :: l => r ← attempt (op x); results ← each op l; mret (r :: results)
  end.

Definition delete_files (paths : list (list Z)) : io (World C) (list (result Error unit)) :=
  if is_empty paths then mret [] else each delete_file paths.
Definition stat_files (paths : list (list Z)) : io (World C) (list (result Error FileInfo)) :=
  if is_empty paths then mret [] else each stat paths.
Definition rename_files (renames : list (list Z * list Z)) : io (World C) (list (result Error unit)) :=
  if is_empty renames then mret [] else each (λ '(from, to), rename from to) renames.

End metadata.

(** ** What a failed compound sends *)

Lemma speaks_fail_closing {A} t body status command l c :
  ∃ r xs l', speaks (fail_closing (A:=A) t body status command) l c r xs l' c ∧ (∃ e, r = Err e) ∧
    ∀ resp, unpack_body CreateResponse body = Ok resp →
      r = Err (Protocol status command) ∧
      xs = [One (tree_id t) (OpClose (mkCloseRequest 0 (crr_file_id resp))) 1].
Proof.
  unfold fail_closing. pose proof (unpack_body_no_panic CreateResponse body).
  destruct (unpack_body CreateResponse body) as [resp|e|]; [| |done].
  - destruct (close_sends t (crr_file_id resp) l c) as (r & l' & Hr & Hs).
    eexists (Err _), [_], l'. split; [|split; [by eexists|by intros resp' [= <-]]].
    eapply (speaks_bind _ _ _ _ _ []); [apply speaks_lift|]. cbv beta.
    eapply (speaks_bind _ _ _ _ r [_] _ _ _ []); [by apply speaks_attempt|]. apply speaks_err.
  - eexists (Err e), [], l. split; [apply speaks_bind_err, speaks_lift|]. split; [by eexists|done].
Qed.

(** ** Renames and deletions *)

(** [m] sent the compound [ops] and was answered [(s0, b0)] for its CREATE: it
    reports success exactly when [fine], and has closed the handle of a CREATE that
    succeeded unless it reports success; it never panics. *)
Definition reports (t : Tree) (m : io (World Script) unit) (ops : list FileOp)
    (s0 : Z) (b0 : bytes) (rest : list (Z * bytes)) (fine : Prop) (l : list answer)
    (c : list (Error + list answer)) : Prop :=
  ∃ r xs l',
    speaks m l (replies ((s0, b0) :: rest) :: c) r (Several (on_tree t ops) :: xs) l' c ∧
    r ≠ Panic ∧ (r = Ok tt ↔ s0 = NtStatus.SUCCESS ∧ fine) ∧
    (s0 ≠ NtStatus.SUCCESS → r = Err (Protocol s0 Types.Create) ∧ xs = []) ∧
    (∀ resp, s0 = NtStatus.SUCCESS → unpack_body CreateResponse b0 = Ok resp →
       (r = Ok tt ∧ xs = []) ∨
       (∃ s cmd, r = Err (Protocol s cmd)) ∧
       xs = [One (tree_id t) (OpClose (mkCloseRequest 0 (crr_file_id resp))) 1]).

Lemma reports_intro t m ops s0 b0 rest fine l c (k : list (Z * bytes) → io (World Script) unit) :
  m = (frames ← compound (on_tree t ops); responses ← io_lift (all_or_first_err frames (length ops)); k responses) →
  S (length rest) = length ops →
  (s0 ≠ NtStatus.SUCCESS → k ((s0, b0) :: rest) = io_err (Protocol s0 Types.Create)) →
  (s0 = NtStatus.SUCCESS → fine → k ((s0, b0) :: rest) = mret tt) →
  (s0 = NtStatus.SUCCESS → fine ∨ ∃ s cmd, ¬ fine ∧ k ((s0, b0) :: rest) = fail_closing t b0 s cmd) →
  reports t m ops s0 b0 rest fine l c.
Proof.
  intros -> Hlen Hfail Hok Hsplit.
  assert (∀ r xs l', speaks (k ((s0, b0) :: rest)) l c r xs l' c →
    speaks (frames ← compound (on_tree t ops);
            responses ← io_lift (all_or_first_err frames (length ops)); k responses)
      l (replies ((s0, b0) :: rest) :: c) r (Several (on_tree t ops) :: xs) l' c) as Hgo
    by (intros r xs l'; by apply speaks_replies).
  destruct (decide (s0 = NtStatus.SUCCESS)) as [E|E].
  2: { eexists (Err _), [], l. split; [apply Hgo; rewrite Hfail by done; apply speaks_err|]. split; [done|]. by split; [split; [|intros []]|]. }
  destruct (Hsplit E) as [Hf|(s & cmd & Hf & Ek)].
  - eexists (Ok tt), [], l. split; [apply Hgo; rewrite Hok by done; apply speaks_ret|]. naive_solver.
  - destruct (speaks_fail_closing (A:=unit) t b0 s cmd l c) as (r & xs & l' & Hs & [e ->] & Hr).
    eexists _, xs, l'. split; [apply Hgo; by rewrite Ek|]. split; [done|]. split; [naive_solver|].
    split; [done|]. intros resp _ Hresp. right. destruct (Hr resp Hresp) as [-> ->]. eauto.
Qed.


(** ** Queries *)

(** FileBasicInformation (MS-FSCC 2.4.7) *)
Definition encode_basic (created accessed modified changed attributes : Z) : bytes :=
  fields [(8%nat, created); (8%nat, accessed); (8%nat, modified); (8%nat, changed); (4%nat, attributes); (4%nat, 0)].

(** FileStandardInformation (MS-FSCC 2.4.41) *)
Definition encode_standard (allocated size links : Z) (pending directory : bool) : bytes :=
  fields [(8%nat, allocated); (8%nat, size); (4%nat, links); (1%nat, Z.b2z pending); (1%nat, Z.b2z directory); (2%nat, 0)].

(** FileFsFullSizeInformation (MS-FSCC 2.5.4) *)
Definition encode_fs_full_size (total caller actual sectors sector_bytes : Z) : bytes :=
  fields [(8%nat, total); (8%nat, caller); (8%nat, actual); (4%nat, sectors); (4%nat, sector_bytes)].

Lemma parse_basic_encoded created accessed modified changed attributes :
  is_u64 created → is_u64 accessed → is_u64 modified → is_u64 changed → is_u32 attributes →
  parse_basic (encode_basic created accessed modified changed attributes)
  = Ok (mkFileTime created, mkFileTime accessed, mkFileTime modified, attributes).
Proof.
  intros. unfold parse_basic, encode_basic. rewrite len_fields. cbn [width foldr fst].
  case_test; [done|]. field 0%nat 0. field 1%nat 8. field 2%nat 16. field 3%nat 24. field 4%nat 32. done.
Qed.

Lemma parse_standard_encoded allocated size links pending directory :
  is_u64 allocated → is_u64 size → is_u32 links →
  parse_standard (encode_standard allocated size links pending directory) = Ok (size, Z.b2z directory).
Proof.
  intros. unfold parse_standard, encode_standard, byte_at. rewrite len_fields. cbn [width foldr fst].
  case_test; [done|]. field 0%nat 0. field 1%nat 8. field 2%nat 16.
  rewrite (le_at_field _ 3%nat 1 (Z.b2z pending) 20) by (done || by destruct pending). cbn [mbind result_bind].
  by rewrite (le_at_field _ 4%nat 1 (Z.b2z directory) 21) by (done || by destruct directory).
Qed.

(** Sizes whose products fit 64 bits are computed exactly; a product that does not
    fit stops a debug build. *)
Lemma parse_fs_full_size_encoded total caller actual sectors sector_bytes :
  is_u64 total → is_u64 caller → is_u64 actual → is_u32 sectors → is_u32 sector_bytes →
  let unit_bytes := sectors * sector_bytes in
  parse_fs_full_size (encode_fs_full_size total caller actual sectors sector_bytes)
  = if (total * unit_bytes <? 2 ^ 64) && (caller * unit_bytes <? 2 ^ 64) && (actual * unit_bytes <? 2 ^ 64)
    then Ok (mkFsInfo (total * unit_bytes) (caller * unit_bytes) (actual * unit_bytes) sector_bytes sectors)
    else Panic.
Proof.
  intros Ht Hc Ha Hs Hb unit_bytes. unfold parse_fs_full_size, encode_fs_full_size. rewrite len_fields. cbn [width foldr fst].
  case_test; [done|]. field 0%nat 0. field 1%nat 8. field 2%nat 16. field 3%nat 24. field 4%nat 28. fold unit_bytes.
  assert (mul_u64 sectors sector_bytes = Ok unit_bytes) as ->.
  { unfold mul_u64. fold unit_bytes. rewrite (proj2 (Z.ltb_lt _ _)); [done|].
    unfold unit_bytes, in_range in *. nia. }
  cbn [mbind result_bind]. unfold mul_u64.
  destruct (total * unit_bytes <? 2 ^ 64); cbn [andb mbind result_bind]; [|done].
  destruct (caller * unit_bytes <? 2 ^ 64); cbn [andb mbind result_bind]; [|done].
  by destruct (actual * unit_bytes <? 2 ^ 64).
Qed.

Definition query_body (buffer : bytes) : bytes := body_of (mkQueryInfoResponse buffer).

Lemma unpack_query_body b :
  len b <= MAX_UNPACK_BUFFER → unpack_body QueryInfoResponse (query_body b) = Ok (mkQueryInfoResponse b).
Proof. intros Hb. by apply (unpack_body_of QueryInfoResponse). Qed.

(** A server that opened the file and answered both queries with the structures
    MS-FSCC prescribes has its times and size reported exactly, and the file reported
    as a directory when either structure says so, whatever it answered to CLOSE; one
    compound is all that is sent. *)
Theorem stat_exact t path b0 s1 s2 s3 b3 created accessed modified changed attributes
    allocated size links pending directory l c :
  NtStatus.is_success_or_partial s1 = true → NtStatus.is_success_or_partial s2 = true →
  is_u64 created → is_u64 accessed → is_u64 modified → is_u64 changed → is_u32 attributes →
  is_u64 allocated → is_u64 size → is_u32 links →
  speaks (stat t path) l
    (replies [(NtStatus.SUCCESS, b0);
              (s1, query_body (encode_basic created accessed modified changed attributes));
              (s2, query_body (encode_standard allocated size links pending directory));
              (s3, b3)] :: c)
    (Ok (mkFileInfo size (directory || negb (Z.land attributes FILE_ATTRIBUTE_DIRECTORY =? 0))
           (mkFileTime created) (mkFileTime modified) (mkFileTime accessed)))
    [Several (on_tree t (stat_ops t path))] l c.
Proof.
  intros Hs1 Hs2 Hc Ha Hm Hch Hat Hal Hsz Hl. apply speaks_replies; [done|]. cbv beta iota.
  rewrite Z.eqb_refl, Hs1, Hs2. cbn [negb]. intros log evs.
  unfold mbind, io_bind, io_lift. rewrite unpack_query_body by (unfold encode_basic, encode_standard; by rewrite len_fields).
  cbn [qir_output_buffer]. rewrite parse_basic_encoded by done.
  rewrite unpack_query_body by (unfold encode_basic, encode_standard; by rewrite len_fields).
  cbn [qir_output_buffer]. rewrite parse_standard_encoded by done. rewrite app_nil_r.
  by destruct directory.
Qed.

(** A directory of 4096 bytes whose attribute word alone says so. *)
Lemma stat_exact_witness :
  speaks (stat (mkTree 5 [100] [115] false false) [97]) []
    [replies [(NtStatus.SUCCESS, []); (NtStatus.SUCCESS, query_body (encode_basic 1 2 3 4 16));
              (NtStatus.SUCCESS, query_body (encode_standard 4096 4096 1 false false)); (NtStatus.SUCCESS, [])]]
    (Ok (mkFileInfo 4096 true (mkFileTime 1) (mkFileTime 3) (mkFileTime 2)))
    [Several (on_tree (mkTree 5 [100] [115] false false) (stat_ops (mkTree 5 [100] [115] false false) [97]))] [] [].
Proof.
  by refine (stat_exact (mkTree 5 [100] [115] false false) [97] [] NtStatus.SUCCESS NtStatus.SUCCESS NtStatus.SUCCESS []
               1 2 3 4 16 4096 4096 1 false false [] [] _ _ _ _ _ _ _ _ _ _).
Defined.

(** The parsers read inside the buffer only. *)
Lemma parse_basic_no_panic buf : parse_basic buf ≠ Panic.
Proof. unfold parse_basic. case_test; [done|]. bool_prop. by in_buffer. Qed.
Lemma parse_standard_no_panic buf : parse_standard buf ≠ Panic.
Proof. unfold parse_standard, byte_at. case_test; [done|]. bool_prop. by in_buffer. Qed.

(** ** Names and batches *)

(** FileRenameInformation as a server reads it (MS-FSCC 2.4.43): replace flag,
    root directory, new name. *)
Definition read_rename_info : Reader (Z * Z * list Z) :=
  replace ← read_u8;
  skip 7 ;;
  root ← read_u64_le;
  name_len ← read_u32_le;
  name ← read_utf16_le name_len;
  mret (replace, root, name).

Lemma utf16_bytes_len s : len (encode_utf16 s) * 2 = len (utf16_le_bytes s).
Proof.
  unfold utf16_le_bytes. induction (encode_utf16 s) as [|u us IH]; [done|].
  cbn [mbind list_bind]. rewrite len_app, len_to_le, <- IH, len_cons. lia.
Qed.

(** The buffer of a rename asks for the new name, without replacing a file of that
    name. *)
Lemma rename_info_decodes name :
  str_wf name → len (utf16_le_bytes name) <= MAX_UNPACK_BUFFER →
  reads_at 0 read_rename_info (build_rename_info_buffer name) (0, 0, name).
Proof.
  intros Hn Hl. unfold read_rename_info, build_rename_info_buffer. cbv zeta.
  rewrite utf16_bytes_len. pose proof (len_nonneg (utf16_le_bytes name)).
  rewrite trunc_small by (unfold in_range, MAX_UNPACK_BUFFER in *; lia).
  repeat rstep. eapply reads_bind; [by apply (reads_skip _ (zeros 7))|]. cbv beta.
  repeat rstep. eapply reads_bind_nil; [by apply reads_utf16|]. apply reads_ret.
Qed.

(** An item of a batch: what it is asked for, the answer to its compound, its
    result and what it sends. *)
Record item (X A : Type) := mkItem {
  it_what : X; it_answer : Error + list answer; it_result : result Error A; it_sent : list sent
}.
Arguments it_what {X A}.
Arguments it_answer {X A}.
Arguments it_result {X A}.
Arguments it_sent {X A}.

(** A batch gives one result per item, in order, each that of the operation alone:
    no failure stops the items after it. *)
Lemma speaks_each {X A} (op : X → io (World Script) A) (items : list (item X A)) l c :
  Forall (λ i, it_result i ≠ Panic ∧
               ∀ c', speaks (op (it_what i)) l (it_answer i :: c') (it_result i) (it_sent i) l c') items →
  speaks (each op (map it_what items)) l (map it_answer items ++ c)
    (Ok (map it_result items)) (concat (map it_sent items)) l c.
Proof.
  induction 1 as [|i items [Hr Hi] _ IH]; [apply speaks_ret|]. cbn [map each app concat].
  eapply speaks_bind; [by apply speaks_attempt|]. cbv beta.
  rewrite <- (app_nil_r (concat _)). eapply speaks_bind; [apply IH|]. apply speaks_ret.
Qed.

(** ** What the server can provoke *)

Definition any_tree : Tree := mkTree 5 [100] [115] false false.

(** The product of a cluster count and a cluster size that the server chose is not
    checked. *)
Example fs_info_overflows :
  speaks (fs_info any_tree) []
    [replies [(NtStatus.SUCCESS, []); (NtStatus.SUCCESS, query_body (encode_fs_full_size (2 ^ 63) 0 0 2 1));
              (NtStatus.SUCCESS, [])]]
    Panic [Several (on_tree any_tree fs_info_ops)] [] [].
Proof.
  apply speaks_replies; [done|]. intros log evs. rewrite app_nil_r. cbv beta iota.
  unfold mbind, io_bind, io_lift. rewrite unpack_query_body by done. cbn [qir_output_buffer].
  by rewrite parse_fs_full_size_encoded by done.
Qed.

(** A first query that succeeds with a buffer too short to parse is reported before
    the second query's failure is looked at: the CLOSE of the compound failed with
    that query, and no other is sent. *)
Example stat_leaks_handle :
  speaks (stat any_tree [97]) []
    [replies [(NtStatus.SUCCESS, []); (NtStatus.SUCCESS, query_body []);
              (NtStatus.ACCESS_DENIED, []); (NtStatus.ACCESS_DENIED, [])]]
    (Err (invalid_data "FileBasicInformation too short: {} bytes"))
    [Several (on_tree any_tree (stat_ops any_tree [97]))] [] [].
Proof.
  apply speaks_replies; [done|]. intros log evs. rewrite app_nil_r. cbv beta iota.
  unfold mbind, io_bind, io_lift. rewrite unpack_query_body by done. done.
Qed.
