(* ===== verification/Disk.v ===== *)
(** * A file server in memory

    One file behind every handle, at most [cap] bytes per READ or WRITE: an
    instance of the interfaces of [Pipeline], on which the theorems about
    transfers are applied to concrete inputs.  [Disk 65536] answers every READ
    in full; a smaller cap gives a server that cuts its answers short. *)

From S2P Require Import Prelude Types Pack Codec Header FileIo Create Pipeline Transfer Tree.

Record Disk (cap : Z) := mkDisk { d_bytes : bytes; d_open : bool; d_flush_status : Z }.
Arguments mkDisk {cap}.
Arguments d_bytes {cap}.
Arguments d_open {cap}.
Arguments d_flush_status {cap}.

Definition handle : FileId := mkFileId 1 1.

Definition write_at (old : bytes) (off : Z) (d : bytes) : bytes :=
  if is_empty d then old
  else take (Z.to_nat off) (old ++ zeros (off - len old)) ++ d ++ drop (Z.to_nat (off + len d)) old.

Lemma write_at_patched old off d : 0 <= off → patched old (write_at old off d) off d.
Proof.
  intros Ho. unfold patched, write_at. destruct (is_empty d) eqn:Ed.
  { destruct d; [|done]. split; [done|]. split; [|done].
    intros i Hi. change (len (@nil byte)) with 0 in Hi. lia. }
  assert (length (take (Z.to_nat off) (old ++ zeros (off - len old))) = Z.to_nat off) as Hl.
  { rewrite length_take, length_app. unfold zeros, len. rewrite length_replicate. lia. }
  split; [|split].
  - unfold len in *. rewrite !length_app, Hl, length_drop. lia.
  - intros i Hi. rewrite lookup_app_r by (rewrite Hl; lia). rewrite Hl.
    rewrite lookup_app_l by (unfold len in *; lia). f_equal. lia.
  - intros i Hi Hn. destruct (Z.lt_ge_cases i off).
    + rewrite lookup_app_l by (rewrite Hl; lia). rewrite lookup_take_lt by lia.
      apply lookup_app_l. unfold len in *. lia.
    + rewrite lookup_app_r by (rewrite Hl; lia). rewrite Hl.
      rewrite lookup_app_r by (unfold len in *; lia). rewrite lookup_drop. f_equal. unfold len in *. lia.
Qed.

Section disk.
Context {cap : Z}.
Implicit Types d : Disk cap.

Definition disk_read d (m : ReadRequest) : Z * bytes :=
  if (rdq_length m <? 0) || (65536 <? rdq_length m) || (rdq_offset m <? 0)
  then (NtStatus.INVALID_PARAMETER, [])
  else if len (d_bytes d) <=? rdq_offset m then (NtStatus.END_OF_FILE, [])
  else (NtStatus.SUCCESS, body_of (mkReadResponse 0x50 0 0
          (take (Z.to_nat (Z.min (rdq_length m) (Z.max 1 cap)))
             (drop (Z.to_nat (rdq_offset m)) (d_bytes d))))).

Definition disk_write d (m : WriteRequest) : (Z * bytes) * Disk cap :=
  if (65536 <? len (wrq_data m)) || (wrq_offset m <? 0)
  then ((NtStatus.INVALID_PARAMETER, []), d)
  else let n := Z.min (len (wrq_data m)) (Z.max 1 cap) in
       ((NtStatus.SUCCESS, body_of (mkWriteResponse n 0 0 0)),
        mkDisk (write_at (d_bytes d) (wrq_offset m) (take (Z.to_nat n) (wrq_data m))) (d_open d)
          (d_flush_status d)).

Definition disk_create d (m : CreateRequest) : (Z * bytes) * Disk cap :=
  let b := match crq_create_disposition m with FileOverwriteIf => [] | _ => d_bytes d end in
  if 2 ^ 64 <=? len b then ((NtStatus.INSUFFICIENT_RESOURCES, []), d)
  else ((NtStatus.SUCCESS, body_of (mkCreateResponse OplockNone 0 FileOpened (mkFileTime 0)
           (mkFileTime 0) (mkFileTime 0) (mkFileTime 0) 0 (len b) 0 handle [])),
        mkDisk b true (d_flush_status d)).

Definition disk_execute d (op : FileOp) : (Z * bytes) * Disk cap :=
  match op with
  | OpCreate m => disk_create d m
  | OpRead m => (disk_read d m, d)
  | OpWrite m => disk_write d m
  | OpFlush _ => ((d_flush_status d, []), d)
  | OpClose _ => ((NtStatus.SUCCESS, []), mkDisk (d_bytes d) false (d_flush_status d))
  | OpQueryDirectory _ | OpQueryInfo _ | OpSetInfo _ | OpIoctl _ => ((NtStatus.NOT_SUPPORTED, []), d)
  end.

#[global] Instance disk_wire : Wire (Disk cap) := {
  transfer_sizes _ := Some (65536, 65536);
  transact_size _ := Some 65536;
  execute_with_credits d _ op _ := let '(r, d) := disk_execute d op in (Ok r, d);
  execute_compound d ops :=
    let step acc o := let '(rs, d) := acc in let '(r, d) := disk_execute d o.1.2 in (rs ++ [Ok r], d) in
    let '(rs, d) := foldl step ([], d) ops in (Ok rs, d);
  forget_oplock d _ := d
}.

Lemma disk_read_inv d m body resp :
  disk_read d m = (NtStatus.SUCCESS, body) → unpack_body ReadResponse body = Ok resp →
  0 <= rdq_length m <= 65536 ∧ 0 <= rdq_offset m < len (d_bytes d) ∧
  rdr_data resp = take (Z.to_nat (Z.min (rdq_length m) (Z.max 1 cap)))
                    (drop (Z.to_nat (rdq_offset m)) (d_bytes d)).
Proof.
  unfold disk_read. case_test; [done|]. bool_prop. case_test; [done|]. bool_prop.
  intros [= <-]. rewrite (unpack_body_of ReadResponse); [intros [= <-]; auto with lia|].
  split; [done|]. split; [done|]. split; [done|]. cbn. unfold MAX_UNPACK_BUFFER, len.
  rewrite length_take. lia.
Qed.

#[global] Program Instance disk_server : FileServer (Disk cap) := {
  content d _ := d_bytes d;
  is_open d _ := d_open d
}.
Next Obligation. intros c t op n c'. cbn. by destruct (disk_execute c op). Qed.
Next Obligation. intros c r w [= <- <-]. lia. Qed.
Next Obligation.
  intros c t m n c' body. cbn. unfold disk_read. case_test; [done|].
  case_test; [by bool_prop|]. done.
Qed.
Next Obligation.
  intros c t m n c' body resp. cbn. intros [= Hr <-] Hu.
  destruct (disk_read_inv _ _ _ _ Hr Hu) as (Hl & Ho & ->). split; [apply prefix_take|]. split.
  - unfold len. rewrite length_take. lia.
  - intros Hpos. destruct (take _ _) eqn:E; [|done]. exfalso. apply (f_equal length) in E.
    rewrite length_take, length_drop in E. unfold len in Ho. cbn in E. lia.
Qed.
Next Obligation. done. Qed.
Next Obligation.
  intros c t m n c' body resp. cbn. unfold disk_write. case_test; [done|]. bool_prop.
  intros [= <- <-]. rewrite (unpack_body_of WriteResponse).
  - intros [= <-]. cbn. split; [pose proof (len_nonneg (wrq_data m)); lia|]. by apply write_at_patched.
  - unfold codec_wf, WriteResponse_codec, WriteResponse_wf, in_range. cbn.
    pose proof (len_nonneg (wrq_data m)). lia.
Qed.
Next Obligation. done. Qed.
Next Obligation. done. Qed.
Next Obligation. done. Qed.
Next Obligation.
  intros c t m n c' body resp. cbn. unfold disk_create. set (b := match _ with FileOverwriteIf => _ | _ => _ end).
  case_test; [done|]. bool_prop. intros [= <- <-]. rewrite (unpack_body_of CreateResponse).
  - by intros [= <-].
  - pose proof (len_nonneg b). split; try done; cbn; unfold in_range; lia.
Qed.
Next Obligation. intros c t m n c' body. cbn. by intros [= <- <-]. Qed.

End disk.

(** Reads of at most 64 KiB are answered in full. *)
#[global] Instance disk_full : FullReads (Disk 65536).
Proof.
  intros c t m n c' body resp. cbn. intros [= Hr <-] Hu.
  destruct (disk_read_inv _ _ _ _ Hr Hu) as (Hl & _ & ->). f_equal. lia.
Qed.

Definition share : Tree := mkTree 5 [0x73] [0x68] false false.

(** A disk that holds [b], with nothing open. *)
Definition disk_of (cap : Z) (b : bytes) : Disk cap := mkDisk b false NtStatus.SUCCESS.
