(* ===== verification/Reads.v ===== *)
(** * Pipelined reads ([src/client/tree.rs])

    The sliding window of READs gives back exactly the file, whatever the order
    of service and of delivery, when the server does not cut its answers short. *)

From S2P Require Import Prelude Types Pack Codec Name Header FileIo Create Pipeline Transfer Tree Disk.

(** ** Pipelined reads are exact *)

Section read_correct.
Context {C : Type} `{FullReads C}.
Context (t : Tree) (file_id : FileId) (cs charge : Z) (total : nat) (F : bytes).
Context (Hcs : 0 < cs < 2 ^ 32) (HF : 0 < len F) (Htotal : Z.of_nat total = div_ceil (len F) cs).

Let chunk (i : nat) : bytes := subslice F (Z.of_nat i * cs) (Z.min (Z.of_nat i * cs + cs) (len F)).

(** A request in flight: it asks for its chunk, and its answer, if any, carries it. *)
Definition read_in_flight (f : fut) : Prop :=
  (f_tag f < total)%nat ∧ f_op f = OpRead (build_read file_id (len F) cs total (f_tag f)) ∧
  f_answer f ≠ Some Panic ∧
  ∀ status body, f_answer f = Some (Ok (status, body)) → status ≠ NtStatus.END_OF_FILE ∧
    (status = NtStatus.SUCCESS → ∀ resp, unpack_body ReadResponse body = Ok resp →
       rdr_data resp = chunk (f_tag f)).

Definition reads_in_flight (c : C) (q : InFlight) : Prop :=
  content c file_id = F ∧ Forall read_in_flight q.

Lemma chunk_start i : (i < total)%nat → 0 <= Z.of_nat i * cs < len F.
Proof. intros Hi. pose proof (div_ceil_spec (len F) cs). nia. Qed.

Lemma build_read_length i :
  (i < total)%nat →
  rdq_length (build_read file_id (len F) cs total i) = Z.min cs (len F - Z.of_nat i * cs).
Proof.
  intros Hi. pose proof (chunk_start i Hi). pose proof (div_ceil_spec (len F) cs ltac:(lia) HF) as Hd.
  unfold build_read. cbn. destruct (i =? total - 1)%nat eqn:E.
  - apply Nat.eqb_eq in E. rewrite trunc_small by (unfold in_range; nia). nia.
  - apply Nat.eqb_neq in E. nia.
Qed.

Lemma reads_served c q i f r c' :
  reads_in_flight c q → q !! i = Some f → f_answer f = None →
  execute_with_credits c (f_tree_id f) (f_op f) (f_charge f) = (r, c') →
  reads_in_flight c' (<[i := answered f r]> q).
Proof.
  intros [Hc Hq] Hi _ Hx. pose proof (proj1 (Forall_lookup _ _) Hq _ _ Hi) as (Ht & Ho & _ & _).
  rewrite Ho in Hx. split.
  - rewrite <- Hc, <- (fs_read_keeps c (f_tree_id f) (build_read file_id (len F) cs total (f_tag f)) (f_charge f)).
    by rewrite Hx.
  - apply Forall_insert; [done|]. split; [done|]. split; [done|].
    split; [intros [= ->]; by apply fs_no_panic in Hx|].
    cbn. intros status body [= ->]. pose proof (chunk_start _ Ht). split.
    + intros ->. apply fs_end in Hx. cbn in Hx. rewrite Hc in Hx. lia.
    + intros -> resp Hu. rewrite (fs_full _ _ _ _ _ _ _ Hx Hu), build_read_length by done.
      cbn [rdq_offset rdq_file_id build_read read_request]. rewrite Hc.
      unfold chunk, subslice. f_equal. lia.
Qed.

(** Placing the bytes of chunk [i] settles its positions and keeps the others. *)
Lemma place_chunk_spec i data :
  (i < total)%nat → len data = len F →
  ∃ data' n, place_chunk cs i (chunk i) data = Ok (data', n) ∧ len data' = len F ∧
    ∀ x, 0 <= x < len F →
      data' !! Z.to_nat x = if x / cs =? Z.of_nat i then F !! Z.to_nat x else data !! Z.to_nat x.
Proof.
  intros Hi Hd. pose proof (chunk_start i Hi) as Hs. unfold place_chunk.
  assert (len (chunk i) = Z.min cs (len F - Z.of_nat i * cs)) as Hlen.
  { unfold chunk. rewrite len_subslice by lia. lia. }
  set (a := Z.of_nat i * cs) in *. set (e := Z.min (a + len (chunk i)) (len data)).
  replace (e - a <? 0) with false by lia. do 2 eexists. split; [done|].
  split; [unfold len in *; rewrite !length_app, !length_take, length_drop; lia|].
  intros x Hx. rewrite lookup_place by lia.
  assert ((a <=? x) && (x <? e) = (x / cs =? Z.of_nat i)) as ->.
  { pose proof (Z.div_mod x cs). pose proof (Z.mod_pos_bound x cs).
    apply eq_true_iff_eq. rewrite andb_true_iff, Z.leb_le, Z.ltb_lt, Z.eqb_eq. unfold a in *.
    split; [|nia]. intros [? ?]. symmetry. apply Z.div_unique with (x - Z.of_nat i * cs); lia. }
  destruct (x / cs =? Z.of_nat i) eqn:E; [|done]. bool_prop.
  pose proof (Z.div_mod x cs). pose proof (Z.mod_pos_bound x cs).
  unfold chunk. rewrite lookup_subslice by (fold a; nia). f_equal. fold a. lia.
Qed.

(** The positions whose chunk has been delivered hold the bytes of the file. *)
Definition settled (sent : nat) (q : InFlight) (data : bytes) : Prop :=
  len data = len F ∧
  ∀ x, 0 <= x < len F → x / cs < Z.of_nat sent → Z.to_nat (x / cs) ∉ map f_tag q →
    data !! Z.to_nat x = F !! Z.to_nat x.

Definition window (sent : nat) (q : InFlight) : Prop :=
  NoDup (map f_tag q) ∧ (∀ i, i ∈ map f_tag q → (i < sent)%nat) ∧ (sent <= total)%nat ∧
  ((sent < total)%nat → q ≠ []).

Lemma settled_all data : settled total [] data → data = F.
Proof.
  intros [Hl Hx]. apply bytes_eq; [done|]. intros x Hr. rewrite Hl in Hr.
  apply Hx; [done| |apply not_elem_of_nil].
  pose proof (div_ceil_spec (len F) cs ltac:(lia) HF). apply Z.div_lt_upper_bound; lia.
Qed.

(** The delivered chunk leaves the window and, once placed, is settled. *)
Lemma settle_delivered sent q i f data :
  q !! i = Some f → NoDup (map f_tag q) → (f_tag f < total)%nat → settled sent q data →
  ∃ data' n, place_chunk cs (f_tag f) (chunk (f_tag f)) data = Ok (data', n) ∧
    settled sent (delete i q) data'.
Proof.
  intros Hi Hnd Ht [Hl Hx].
  destruct (place_chunk_spec (f_tag f) data Ht Hl) as (data' & n & E & Hl' & Hx').
  exists data', n. split; [done|]. split; [done|]. intros x Hr Hs Hn. rewrite (Hx' x Hr).
  destruct (x / cs =? Z.of_nat (f_tag f)) eqn:Ex; [done|]. bool_prop.
  apply Hx; [done..|]. rewrite (delete_Permutation q i f Hi). cbn [map]. rewrite elem_of_cons.
  pose proof (Z.div_pos x cs ltac:(lia) ltac:(lia)). intros [?|?]; [lia|done].
Qed.

Lemma settled_push sent q data :
  settled sent q data →
  settled (S sent) (q ++ [launch_read t file_id (len F) cs charge total sent]) data.
Proof.
  intros [Hl Hx]. split; [done|]. intros x Hr Hs Hn. rewrite map_app, elem_of_app in Hn. cbn in Hn.
  pose proof (Z.div_pos x cs ltac:(lia) ltac:(lia)).
  apply Hx; [done| |by intros ?; apply Hn; left].
  destruct (Z.eq_dec (x / cs) (Z.of_nat sent)) as [E|]; [|lia].
  exfalso. apply Hn. right. rewrite E, Nat2Z.id. apply list_elem_of_here.
Qed.

Lemma window_push sent q i f :
  q !! i = Some f → window sent q → (sent < total)%nat →
  window (S sent) (delete i q ++ [launch_read t file_id (len F) cs charge total sent]).
Proof.
  intros Hi (Hnd & Hlt & Hle & Hne) Hs. pose proof (delete_Permutation q i f Hi) as Hp.
  assert (NoDup (map f_tag (delete i q))) as Hnd'.
  { rewrite Hp in Hnd. cbn in Hnd. by apply NoDup_cons in Hnd as []. }
  assert (∀ j, j ∈ map f_tag (delete i q) → (j < sent)%nat) as Hlt'.
  { intros j Hj. apply Hlt. rewrite Hp. cbn. by apply list_elem_of_further. }
  split; [|split; [|split; [lia|]]].
  - rewrite map_app. apply NoDup_app. split; [done|]. split; [|apply NoDup_singleton].
    intros j Hj Hj'. apply Hlt' in Hj. cbn in Hj'. apply list_elem_of_singleton in Hj'. lia.
  - intros j. rewrite map_app, elem_of_app. intros [Hj%Hlt'|Hj]; [lia|].
    cbn in Hj. apply list_elem_of_singleton in Hj. lia.
  - intros _ Hnil. by apply app_eq_nil in Hnil as [_ ?].
Qed.

Lemma window_pop q i f : q !! i = Some f → window total q → window total (delete i q).
Proof.
  intros Hi (Hnd & Hlt & Hle & Hne). pose proof (delete_Permutation q i f Hi) as Hp.
  split; [|split; [|split; [lia|lia]]].
  - rewrite Hp in Hnd. cbn in Hnd. by apply NoDup_cons in Hnd as [].
  - intros j Hj. apply Hlt. rewrite Hp. cbn. by apply list_elem_of_further.
Qed.

Lemma launched_read_ok sent :
  (sent < total)%nat → read_in_flight (launch_read t file_id (len F) cs charge total sent).
Proof. by intros. Qed.

Lemma read_slide_correct rounds sent q data w r w' :
  reads_in_flight (w_conn w) q → window sent q → settled sent q data →
  rounds = (total - sent + length q)%nat →
  read_slide t file_id (len F) cs charge total rounds sent q data w = Some (r, w') →
  r ≠ Panic ∧ content (w_conn w') file_id = F ∧ ∀ d, r = Ok d → d = F.
Proof.
  revert sent q data w. induction rounds as [|rounds IH]; intros sent q data w Hq Hw Hs Hr.
  - cbn. intros [= <- <-]. split; [done|]. split; [apply Hq|]. intros d [= <-].
    destruct q; [|cbn in Hr; lia]. pose proof Hw as (_ & _ & ? & _).
    replace sent with total in Hs by lia. by apply settled_all.
  - cbn [read_slide]. unfold mbind at 1, io_bind at 1.
    destruct (next q w) as [[rn w1]|] eqn:En; [|done].
    apply (next_spec reads_in_flight) in En; [|by apply reads_served|done].
    destruct rn as [[o q']|e|]; [|done|done].
    destruct o as [[tag fr]|]; [|by destruct En as (-> & _ & ->); cbn in Hr; pose proof Hw as (_&_&?&Hne);
      destruct (decide (sent < total)%nat) as [Hlt|]; [by specialize (Hne Hlt)|lia]].
    destruct En as (q1 & i & f & [Hc Hq1] & Hi & <- & Ha & -> & Hl & Ht & _).
    pose proof (proj1 (Forall_lookup _ _) Hq1 _ _ Hi) as (Hft & _ & Hnp & Hans). rewrite Ha in Hnp.
    assert (window sent q1) as Hw1.
    { unfold window in *. rewrite Ht. destruct Hw as (?&?&?&Hne). split_and!; try done.
      intros Hlt ->. apply (Hne Hlt). by destruct q. }
    assert (settled sent q1 data) as Hs1 by (unfold settled in *; by rewrite Ht).
    unfold mbind at 1, io_bind at 1, io_lift at 1.
    destruct fr as [[status body]|e|]; [|by intros [= <- <-]|done].
    destruct (Hans _ _ Ha) as [Hne Hok].
    replace (status =? NtStatus.END_OF_FILE) with false by (symmetry; by apply Z.eqb_neq).
    destruct (status =? NtStatus.SUCCESS) eqn:Est; cbn [negb]; [|by intros [= <- <-]]. bool_prop.
    unfold mbind at 1, io_bind at 1, io_lift at 1.
    destruct (unpack_body ReadResponse body) as [resp|e|] eqn:Eu;
      [|by intros [= <- <-]|by apply (unpack_body_no_panic ReadResponse) in Eu].
    rewrite (Hok Est resp eq_refl).
    assert (is_empty (chunk (f_tag f)) = false) as ->.
    { pose proof (chunk_start _ Hft). assert (0 < len (chunk (f_tag f))) as Hpos
        by (unfold chunk; rewrite len_subslice; lia). by destruct (chunk (f_tag f)). }
    destruct (settle_delivered sent q1 i f data Hi (proj1 Hw1) Hft Hs1) as (data' & n & -> & Hs').
    unfold mbind at 1, io_bind at 1, io_lift at 1, mret at 1, io_ret at 1, mbind at 1, io_bind at 1.
    assert (length (delete i q1) = pred (length q)) as Hlen by (rewrite length_delete by eauto; lia).
    assert (0 < length q)%nat by (apply lookup_lt_Some in Hi; lia).
    assert (Forall read_in_flight (delete i q1)) as Hq' by by apply Forall_delete.
    case_test.
    + apply Nat.ltb_lt in Heqb. apply IH.
      * split; [done|]. apply Forall_app. split; [done|]. by repeat constructor.
      * by eapply window_push.
      * by apply settled_push.
      * rewrite length_app, Hlen. cbn. lia.
    + apply Nat.ltb_ge in Heqb. pose proof Hw1 as (_ & _ & ? & _).
      assert (sent = total) as -> by lia. apply IH; [done|by eapply window_pop|done|lia].
Qed.

Lemma initial_window_ok k :
  (k <= total)%nat → (0 < k)%nat →
  let q := map (launch_read t file_id (len F) cs charge total) (seq 0 k) in
  Forall read_in_flight q ∧ window k q ∧ settled k q (zeros (len F)) ∧ length q = k.
Proof.
  intros Hk Hpos q.
  assert (map f_tag q = seq 0 k) as Ht.
  { unfold q. rewrite map_map. cbn. apply map_id. }
  assert (length q = k) as Hlen by (unfold q; by rewrite length_map, length_seq).
  split_and!; [..|done].
  - apply Forall_map, Forall_forall. intros i [_ Hi]%elem_of_seq. apply launched_read_ok. lia.
  - unfold window. rewrite Ht. split_and!; [apply NoDup_seq| |done|].
    + intros i [_ Hi]%elem_of_seq. lia.
    + intros _ ->. cbn in Hlen. lia.
  - unfold settled. rewrite Ht. split; [rewrite len_zeros; lia|]. intros x Hx Hk' Hn.
    exfalso. apply Hn, elem_of_seq. pose proof (Z.div_pos x cs). lia.
Qed.

Lemma total_positive : (0 < total)%nat.
Proof. pose proof (div_ceil_spec (len F) cs ltac:(lia) HF). nia. Qed.

Lemma read_pipelined_loop_correct w r w' :
  content (w_conn w) file_id = F →
  read_pipelined_loop t file_id (len F) cs charge total w = Some (r, w') →
  r ≠ Panic ∧ content (w_conn w') file_id = F ∧ ∀ d, r = Ok d → d = F.
Proof.
  intros Hc. unfold read_pipelined_loop. pose proof total_positive. set (k := Nat.min _ _).
  assert (0 < k <= total)%nat as Hk by (unfold k, MAX_PIPELINE_WINDOW; lia).
  destruct (initial_window_ok k) as (Hq & Hw & Hs & Hl); [lia..|].
  intros E. eapply read_slide_correct in E; try done. lia.
Qed.

End read_correct.

(** The window keeps moving as long as requests are served. *)
Lemma read_slide_returns {C} `{Wire C} t fid size cs charge total n sent q data c evs k :
  (n <= k)%nat →
  is_Some (read_slide t fid size cs charge total n sent q data (mkWorld (C:=C) c (evs ++ service k))).
Proof.
  revert sent q data c evs k. induction n as [|n IH]; intros sent q data c evs k Hk; [by eexists|].
  cbn [read_slide]. unfold mbind at 1, io_bind at 1.
  destruct (next_returns q c evs k ltac:(lia)) as (o & q' & c' & evs' & k' & -> & Hk' & _).
  destruct o as [[tag fr]|]; [|by eexists].
  unfold mbind at 1, io_bind at 1, io_lift at 1. destruct fr as [[status body]|e|]; [|by eexists..].
  case_test; [apply IH; lia|]. case_test; [by eexists|].
  unfold mbind at 1, io_bind at 1, io_lift at 1. destruct (unpack_body _ _) as [resp|e|]; [|by eexists..].
  unfold mbind at 1, io_bind at 1. destruct (is_empty _).
  - cbn. case_test; apply IH; lia.
  - unfold mbind at 1, io_bind at 1, io_lift at 1. destruct (place_chunk _ _ _ _) as [[d' n']|e|]; [|by eexists..].
    cbn. case_test; apply IH; lia.
Qed.

(** What the sizes of a read come to. *)
Lemma read_plan_ok size max_read cs charge total :
  0 < size → 65536 <= max_read < 2 ^ 32 → read_plan size max_read = (cs, charge, total) →
  0 < cs <= max_read ∧ Z.of_nat total = div_ceil size cs.
Proof.
  intros Hs Hm. unfold read_plan. intros [= <- <- <-]. split.
  - case_test; bool_prop; [rewrite trunc_small by (unfold in_range; lia)|]; lia.
  - apply Z2Nat.id. match goal with |- 0 <= div_ceil _ ?e => set (d := e) end.
    assert (0 < d) by (unfold d; case_test; bool_prop; [rewrite trunc_small by (unfold in_range; lia)|]; lia).
    pose proof (div_ceil_spec size d ltac:(lia) Hs). nia.
Qed.

Lemma max_read_in_range {C} `{FileServer C} (c : C) :
  65536 <= match transfer_sizes c with Some (r, _) => r | None => 65536 end < 2 ^ 32.
Proof. destruct (transfer_sizes c) as [[r s]|] eqn:E; [|lia]. by apply fs_sizes in E as []. Qed.

Lemma read_file_pipelined_returns {C} `{Wire C} t path c evs :
  ∃ n, is_Some (read_file_pipelined t path (mkWorld (C:=C) c (evs ++ service n))).
Proof.
  destruct (framed_open_file t path c) as (r & c' & E).
  set (k := match r with
            | Ok (_, size) =>
                (read_plan size match transfer_sizes c' with Some (r, _) => r | None => 65536 end).2
            | _ => 0%nat
            end).
  exists k. unfold read_file_pipelined. unfold mbind at 1, io_bind at 1. rewrite E.
  destruct r as [[fid size]|e|]; [|by eexists..].
  case_test; [apply framed_prompt, framed_bind; [apply framed_close_handle|auto with smb]|].
  unfold mbind at 1, io_bind at 1, max_read_size. cbn [w_conn].
  destruct (read_plan _ _) as [[cs charge] total] eqn:Ep.
  unfold mbind at 1, io_bind at 1, attempt at 1, read_pipelined_loop.
  match goal with |- context [read_slide _ _ _ _ _ _ _ ?s ?q ?d _] =>
    destruct (read_slide_returns t fid size cs charge total total s q d c' evs k) as [[rl w1] ->] end.
  { unfold k. cbn. lia. }
  destruct rl; [by apply framed_prompt, framed_closing..|by eexists].
Qed.

(** C27: a pipelined read is exact whatever the order in which its requests
    are served and their answers arrive: when it returns data, that is the whole
    content of the file it opened, which it has closed again; it never panics;
    and wherever a schedule stops, serving what is outstanding makes the call
    return. *)
Theorem pipelined_read_correct {C} `{FullReads C} t path c evs :
  (∀ r w', read_file_pipelined t path (mkWorld c evs) = Some (r, w') →
     r ≠ Panic ∧
     ∀ data, r = Ok data → ∃ fid w1, open_file t path (mkWorld c evs) = Some (Ok (fid, len data), w1) ∧
       data = content (w_conn w1) fid ∧ content (w_conn w') fid = data ∧ is_open (w_conn w') fid = false) ∧
  ∃ n, is_Some (read_file_pipelined t path (mkWorld c (evs ++ service n))).
Proof.
  split.
  - intros r w' [([fid size] & w1 & Eo & Ek)|[(e & Eo & ->)|[Eo ->]]]%io_bind_inv;
      pose proof Eo as (Hnp & _ & Hsz)%open_file_spec; [|done|done].
    specialize (Hsz _ _ eq_refl). subst size.
    destruct (len (content (w_conn w1) fid) =? 0) eqn:Ez; bool_prop.
    + apply io_bind_inv in Ek as [([] & w2 & (_ & Hk & Hcl)%close_handle_spec & Ek)
        |[(e & (Hnc & _)%close_handle_spec & ->)|[(Hnc & _)%close_handle_spec ->]]]; [|done|done].
      injection Ek as <- <-. split; [done|]. intros data [= <-]. exists fid, w1.
      rewrite Hk, (len_0_nil _ Ez) in *. rewrite len_nil in *. auto.
    + unfold mbind at 1, io_bind at 1, max_read_size in Ek.
      destruct (read_plan _ _) as [[cs charge] total] eqn:Ep.
      pose proof (len_nonneg (content (w_conn w1) fid)). pose proof (max_read_in_range (w_conn w1)).
      apply read_plan_ok in Ep as [Hcs Ht]; [|lia|done].
      apply closing_spec in Ek as (rl & w2 & El & Hcl).
      eapply read_pipelined_loop_correct in El as (Hl & Hc & Hd); [|lia|lia|done|done].
      destruct (Hcl Hl) as (Hrp & Hk & Hv). split; [done|]. intros data [-> Hop]%Hv.
      specialize (Hd _ eq_refl). exists fid, w1. rewrite Hk, Hc. subst data. auto.
  - apply read_file_pipelined_returns.
Qed.

Lemma pipelined_read_correct_witness :
  ∃ w', read_file_pipelined share [0x66] (mkWorld (disk_of 65536 [x01; x02; x03]) (service 1))
          = Some (Ok [x01; x02; x03], w') ∧
        ∃ fid w1, open_file share [0x66] (mkWorld (disk_of 65536 [x01; x02; x03]) (service 1))
                    = Some (Ok (fid, 3), w1) ∧
                  content (w_conn w') fid = [x01; x02; x03] ∧ is_open (w_conn w') fid = false.
Proof.
  destruct (pipelined_read_correct share [0x66] (disk_of 65536 [x01; x02; x03]) (service 1)) as [Hr _].
  destruct (read_file_pipelined _ _ _) as [[r w']|] eqn:E; [|by vm_compute in E].
  assert (r = Ok [x01; x02; x03]) as -> by (vm_compute in E; congruence).
  destruct (Hr _ _ eq_refl) as [_ Hd]. destruct (Hd _ eq_refl) as (fid & w1 & Eo & _ & Hc & Ho).
  exists w'. split; [reflexivity|]. exists fid, w1. exact (conj Eo (conj Hc Ho)).
Defined.

(** A server that answers a READ with fewer bytes than asked, as it may: the rest
    of the chunk is returned as zero bytes, and the read succeeds. *)
Example short_read_zero_fills :
  option_map fst (read_file_pipelined share [0x66]
    (mkWorld (disk_of 4 [x01; x02; x03; x04; x05; x06]) (service 1)))
  = Some (Ok [x01; x02; x03; x04; x00; x00]).
Proof. by vm_compute. Qed.

(** ** The progress variant *)

(** Shown to a callback that never cancels, the progress variant is the plain
    read. *)
Lemma read_slide_progress_plain {C} `{Wire C} t fid size cs charge total n sent q data got shown w :
  read_slide_progress t fid size cs charge total (λ _, false) n sent q data got shown w
  = read_slide (C:=C) t fid size cs charge total n sent q data w.
Proof.
  revert sent q data got shown w. induction n as [|n IH]; intros sent q data got shown w; [done|].
  cbn [read_slide_progress read_slide]. unfold mbind, io_bind, io_lift.
  destruct (next q w) as [[[[o q']|e|] w1]|]; [|done..]. destruct o as [[i fr]|]; [|done].
  destruct fr as [[status body]|e|]; [|done..]. case_test; [apply IH|]. case_test; [done|].
  destruct (unpack_body _ _) as [resp|e|]; [|done..].
  destruct (is_empty _); [cbn; case_test; apply IH|].
  destruct (place_chunk _ _ _ _) as [[d k]|e|]; [|done..]. cbn. case_test; apply IH.
Qed.

(** The read with a progress callback is the plain pipelined read as long as
    the callback never cancels. *)
Theorem progress_read_equiv {C} `{Wire C} t path w :
  read_file_pipelined_with_progress (C:=C) t path (λ _, false) w = read_file_pipelined t path w.
Proof.
  unfold read_file_pipelined_with_progress, read_file_pipelined, mbind, io_bind.
  destruct (open_file t path w) as [[[[fid size]|e|] w1]|]; [|done..].
  case_test; [done|]. unfold max_read_size. destruct (read_plan _ _) as [[cs charge] total].
  unfold attempt, read_pipelined_loop_with_progress, read_pipelined_loop.
  by rewrite read_slide_progress_plain.
Qed.
