(* ===== verification/Writes.v ===== *)
(** * Pipelined and streamed writes ([src/client/tree.rs])

    The sliding windows of WRITEs leave in the file what one write of all the
    data would have left, when all of it is acknowledged. *)

From S2P Require Import Prelude Types Pack Codec Name Header FileIo Create Pipeline Transfer Tree Disk.

(** ** Pipelined writes are exact *)

Lemma take_add {A} (l : list A) (a b : Z) :
  0 <= a <= b → take (Z.to_nat a) l ++ subslice l a b = take (Z.to_nat b) l.
Proof.
  intros Hab. unfold subslice. replace (Z.to_nat b) with (Z.to_nat a + Z.to_nat (b - a))%nat by lia.
  by rewrite take_take_drop.
Qed.

Section write_correct.
Context {C : Type} `{FileServer C}.
Context (t : Tree) (fid : FileId) (data : bytes) (cs charge : Z) (total : nat) (old : bytes).
Context (Hcs : 0 < cs) (Hdata : 0 < len data) (Htotal : Z.of_nat total = div_ceil (len data) cs).

(** The data of the first [sent] chunks. *)
Let launched (sent : nat) : bytes := take (Z.to_nat (Z.of_nat sent * cs)) data.

Lemma write_chunk_start sent : (sent < total)%nat → 0 <= Z.of_nat sent * cs < len data.
Proof. intros Hs. pose proof (div_ceil_spec (len data) cs). nia. Qed.

Lemma launched_all : launched total = data.
Proof. unfold launched. pose proof (div_ceil_spec (len data) cs). apply take_ge. unfold len in *. lia. Qed.

Lemma wrote_push acked c q sent :
  wrote fid old 0 (launched sent) acked c q → (sent < total)%nat →
  wrote fid old 0 (launched (S sent)) acked c
    (q ++ [launch_write t fid data cs charge sent]).
Proof.
  intros Hw Hs. pose proof (write_chunk_start sent Hs) as Hb.
  assert (launched (S sent) = launched sent ++ wrq_data (build_write fid data cs sent)) as ->.
  { cbn. unfold launched. rewrite take_add by lia.
    destruct (Z.le_gt_cases (Z.of_nat (S sent) * cs) (len data)).
    - f_equal. lia.
    - rewrite Z.min_r by lia. rewrite !take_ge; unfold len in *; [done|lia|lia]. }
  eapply wrote_launched; try done.
  cbn. unfold launched, len in *. rewrite length_take. lia.
Qed.

Lemma write_slide_correct rounds sent q acked w r w' :
  wrote fid old 0 (launched sent) acked (w_conn w) q →
  (sent <= total)%nat → ((sent < total)%nat → q ≠ []) → rounds = (total - sent + length q)%nat →
  write_slide t fid data cs charge total rounds sent q acked w = Some (r, w') →
  r ≠ Panic ∧ ∀ n, r = Ok n → wrote fid old 0 data n (w_conn w') [].
Proof.
  revert sent q acked w. induction rounds as [|rounds IH]; intros sent q acked w Hw Hle Hne Hr.
  - cbn. intros [= <- <-]. split; [done|]. intros n [= <-].
    destruct q; [|cbn in Hr; lia]. assert (sent = total) as -> by lia. by rewrite launched_all in Hw.
  - cbn [write_slide]. unfold mbind at 1, io_bind at 1.
    destruct (next q w) as [[rn w1]|] eqn:En; [|done].
    apply (wrote_next fid old 0) with (log := launched sent) (acked := acked) in En; [|lia|done].
    destruct rn as [[[[tag fr]|] q']|e|]; try done.
    2: { destruct En as (-> & _ & ->). cbn in Hr. destruct (decide (sent < total)%nat) as [Hlt|]; [|lia].
         by specialize (Hne Hlt). }
    destruct En as (Hnp & Hl & Hk). unfold mbind at 1, io_bind at 1, io_lift at 1.
    destruct fr as [[status body]|e|]; [|by intros [= <- <-]|done].
    destruct (status =? NtStatus.SUCCESS) eqn:Est; cbn [negb]; [|by intros [= <- <-]]. bool_prop. subst status.
    unfold mbind at 1, io_bind at 1, io_lift at 1.
    destruct (unpack_body WriteResponse body) as [resp|e|] eqn:Eu;
      [|by intros [= <- <-]|by apply (unpack_body_no_panic WriteResponse) in Eu].
    destruct (Hk _ resp eq_refl Eu) as [Hn Hw']. case_test.
    + apply Nat.ltb_lt in Heqb. apply IH; [by apply wrote_push|lia| |rewrite length_app; cbn; lia].
      intros _ [_ ?]%app_eq_nil. done.
    + apply Nat.ltb_ge in Heqb. apply IH; [done|done|lia|lia].
Qed.

Lemma initial_writes c k :
  content c fid = old → (k <= total)%nat →
  wrote fid old 0 (launched k) 0 c (map (launch_write t fid data cs charge) (seq 0 k)).
Proof.
  intros Hc. induction k as [|k IH]; intros Hk.
  - unfold launched. cbn. by apply wrote_start.
  - rewrite seq_S, map_app. apply wrote_push; [apply IH; lia|lia].
Qed.

Lemma write_pipelined_loop_correct w r w' :
  content (w_conn w) fid = old →
  write_pipelined_loop t fid data cs charge total w = Some (r, w') →
  r ≠ Panic ∧ ∀ n, r = Ok n → n <= len data ∧ (n = len data → patched old (content (w_conn w') fid) 0 data).
Proof.
  intros Hc. unfold write_pipelined_loop. set (k := Nat.min _ _).
  pose proof (div_ceil_spec (len data) cs Hcs Hdata).
  assert (0 < k <= total)%nat as Hk by (unfold k, MAX_PIPELINE_WINDOW; nia).
  intros E. eapply write_slide_correct in E as [Hnp Hok].
  - split; [done|]. intros n Hn. apply (wrote_all fid old 0). by apply Hok.
  - by apply initial_writes; [|lia].
  - lia.
  - intros _. destruct k; [lia|done].
  - rewrite length_map, length_seq. lia.
Qed.

End write_correct.

(** ** Streamed writes are exact *)

(** What a source gives before it ends, with an empty chunk, an error or at its
    end, and the error it ends with. *)
Fixpoint stream_data (source : list source_item) : bytes :=
  match source with
  | Chunk d :: source => if is_empty d then [] else d ++ stream_data source
  | _ => []
  end.

Fixpoint stream_err (source : list source_item) : option string :=
  match source with
  | Chunk d :: source => if is_empty d then None else stream_err source
  | Failed e :: _ => Some e
  | [] => None
  end.

(** The bytes not yet handed out, and the error not yet met. *)
Definition stream_left (s : Streamed) : bytes :=
  drop (Z.to_nat (sw_pending_offset s)) (sw_pending_data s)
  ++ (if sw_done s then [] else stream_data (sw_source s)).

Definition stream_ends (s : Streamed) : option string :=
  if sw_done s then sw_callback_err s else stream_err (sw_source s).

Definition stream_wf (s : Streamed) : Prop :=
  0 <= sw_pending_offset s <= len (sw_pending_data s) ∧
  (sw_done s = false → sw_callback_err s = None) ∧
  (sw_done s = true → len (sw_pending_data s) <= sw_pending_offset s).

Lemma next_wire_chunk_spec max_write s :
  0 < max_write → stream_wf s →
  match next_wire_chunk max_write s with
  | (Some d, s') => stream_wf s' ∧ 0 < len d <= max_write ∧ stream_left s = d ++ stream_left s' ∧
                    stream_ends s' = stream_ends s
  | (None, s') => stream_wf s' ∧ stream_left s = [] ∧ stream_left s' = [] ∧ sw_done s' = true ∧
                  stream_ends s' = stream_ends s
  end.
Proof.
  intros Hm (Hp & He & Hdone). destruct s as [pd po dn ce src]. unfold stream_wf, stream_left, stream_ends.
  cbn [sw_pending_data sw_pending_offset sw_done sw_callback_err sw_source] in *. cbn [next_wire_chunk].
  destruct (po <? len pd) eqn:E1; bool_prop.
  - set (e := Z.min _ _).
    assert (drop (Z.to_nat po) pd = subslice pd po e ++ drop (Z.to_nat e) pd) as Hd.
    { unfold subslice. replace (Z.to_nat e) with (Z.to_nat po + Z.to_nat (e - po))%nat by lia.
      by rewrite <- drop_drop, take_drop. }
    assert (len (subslice pd po e) = e - po) as Hl by (apply len_subslice; lia).
    rewrite Hl, Hd, <- app_assoc. destruct (len pd <=? e) eqn:E2; bool_prop; cbn.
    + rewrite drop_nil, (drop_ge pd) by (unfold len in *; lia).
      split_and!; try done; lia.
    + split_and!; try done; try lia. intros ?%Hdone. lia.
  - rewrite (drop_ge pd) by (unfold len in *; lia). cbn [app].
    destruct dn; cbn; [rewrite (drop_ge pd) by (unfold len in *; lia); split_and!; (done || lia)|].
    assert (drop (Z.to_nat po) pd = []) as Hdrop by (apply drop_ge; unfold len in *; lia).
    destruct src as [|[d|e] src]; cbn; rewrite ?Hdrop; [split_and!; (done || lia || by rewrite (He eq_refl))| |split_and!; (done || lia)].
    destruct (is_empty d) eqn:Ed; cbn; rewrite ?Hdrop; [split_and!; (done || lia || by rewrite (He eq_refl))|].
    assert (0 < len d) as Hd by (destruct d; [done|rewrite len_cons; pose proof (len_nonneg d); lia]).
    destruct (len d <=? max_write) eqn:E3; bool_prop; cbn; rewrite ?Hdrop; [split_and!; auto; lia|].
    rewrite len_subslice by lia. split_and!; try done; try lia.
    unfold subslice. by rewrite Z.sub_0_r, drop_0, app_assoc, take_drop.
Qed.

Section stream_correct.
Context {C : Type} `{FileServer C}.
Context (t : Tree) (fid : FileId) (max_write : Z) (old D : bytes) (E : option string).
Context (Hmax : 0 < max_write).

Definition streaming (s : Streamed) (offset : Z) (q : InFlight) (acked : Z) (c : C) : Prop :=
  stream_wf s ∧ stream_ends s = E ∧
  ∃ log, offset = len log ∧ log ++ stream_left s = D ∧ wrote fid old 0 log acked c q.

(** Whether another chunk is launched or the source is found to be at its end. *)
Lemma streaming_pull s offset q acked c :
  streaming s offset q acked c →
  match next_wire_chunk max_write s with
  | (Some d, s') => streaming s' (offset + len d) (q ++ [launch_streamed t fid offset d]) acked c ∧
                    (length (stream_left s') < length (stream_left s))%nat
  | (None, s') => streaming s' offset q acked c ∧ sw_done s' = true ∧ stream_left s' = []
  end.
Proof.
  intros (Hwf & He & log & -> & Hd & Hw). pose proof (next_wire_chunk_spec max_write s Hmax Hwf) as Hn.
  destruct (next_wire_chunk max_write s) as [[d|] s'].
  - destruct Hn as (Hwf' & Hl & Hs & He'). split; [|rewrite Hs, length_app; unfold len in Hl; lia].
    split; [done|]. split; [congruence|]. exists (log ++ d).
    split; [by rewrite len_app|]. split; [by rewrite <- app_assoc, <- Hs|].
    by apply (wrote_launched fid old 0 log acked c q _ (write_request fid (len log) d)).
  - destruct Hn as (Hwf' & Hs & Hs' & Hdn & He'). split; [|done].
    split; [done|]. split; [congruence|]. exists log. split; [done|]. split; [|done].
    by rewrite Hs', <- Hs.
Qed.

Lemma initial_fill_grows room s o q s' o' q' :
  initial_fill t fid max_write room s o q = (s', o', q') → (length q <= length q')%nat.
Proof.
  revert s o q. induction room as [|room IH]; intros s o q; cbn; [by intros [= _ _ <-]|].
  destruct (next_wire_chunk max_write s) as [[d|] s1]; [|by intros [= _ _ <-]].
  intros Hl%IH. rewrite length_app in Hl. lia.
Qed.

Lemma initial_fill_spec room s offset q acked c s' offset' q' :
  streaming s offset q acked c → initial_fill t fid max_write room s offset q = (s', offset', q') →
  streaming s' offset' q' acked c ∧
  (q' = [] → (0 < room)%nat → sw_done s' = true ∧ stream_left s' = []) ∧
  (length q' + length (stream_left s') <= length q + length (stream_left s))%nat.
Proof.
  revert s offset q. induction room as [|room IH]; intros s offset q Hs; cbn [initial_fill].
  - intros [= <- <- <-]. split; [done|]. split; [lia|done].
  - pose proof (streaming_pull _ _ _ _ _ Hs) as Hp.
    destruct (next_wire_chunk max_write s) as [[d|] s1].
    + destruct Hp as [Hp Hl]. intros Ef. pose proof Ef as (Hs' & Hq & Hlen)%IH; [|done].
      split; [done|]. rewrite length_app in Hlen. cbn in Hlen. split; [|lia].
      intros -> _. apply initial_fill_grows in Ef. rewrite length_app in Ef. cbn in Ef. lia.
    + destruct Hp as (Hp & Hdn & Hl). intros [= <- <- <-]. rewrite Hl. cbn. split; [done|]. split; [done|lia].
Qed.

(** Nothing in flight and the source at its end. *)
Lemma streaming_end s offset acked c :
  streaming s offset [] acked c → sw_done s = true → stream_left s = [] →
  sw_callback_err s = E ∧ wrote fid old 0 D acked c [].
Proof.
  intros (_ & He & log & _ & Hd & Hw) Hdn Hl. unfold stream_ends in He. rewrite Hdn in He.
  split; [done|]. rewrite Hl, app_nil_r in Hd. by subst log.
Qed.

Lemma stream_slide_correct rounds s offset q acked w r w' :
  streaming s offset q acked (w_conn w) → (q = [] → sw_done s = true ∧ stream_left s = []) →
  stream_slide t fid max_write rounds s offset q acked w = Some (r, w') →
  r ≠ Panic ∧ ∀ n e, r = Ok (n, e) → e = E ∧ wrote fid old 0 D n (w_conn w') [].
Proof.
  revert s offset q acked w. induction rounds as [|rounds IH]; intros s offset q acked w Hs Hend.
  - destruct q as [|f q]; [|done]. cbn. intros [= <- <-]. split; [done|]. intros n e [= <- <-].
    destruct (Hend eq_refl). by eapply streaming_end.
  - cbn [stream_slide]. destruct q as [|f q0] eqn:Eq.
    { intros [= <- <-]. split; [done|]. intros n e [= <- <-].
      destruct (Hend eq_refl). by eapply streaming_end. }
    assert (q ≠ []) as Hne by (by rewrite Eq). rewrite <- Eq in *. clear f q0 Eq Hend. unfold mbind at 1, io_bind at 1.
    destruct (next q w) as [[rn w1]|] eqn:En; [|done].
    pose proof Hs as (Hwf & He & log & Ho & Hd & Hw).
    apply (wrote_next fid old 0 ltac:(lia) log acked) in En; [|done].
    destruct rn as [[[[tag fr]|] q']|e|]; try done; [|by destruct En as [-> _]].
    destruct En as (Hnp & _ & Hk). unfold mbind at 1, io_bind at 1, io_lift at 1.
    destruct fr as [[status body]|e|]; [|by intros [= <- <-]|done].
    destruct (status =? NtStatus.SUCCESS) eqn:Est; cbn [negb]; bool_prop.
    2: { unfold mbind, io_bind. destruct (drain q' w1) as [[[[]|e|] w2]|] eqn:Ed; try by intros [= <- <-].
         by apply drain_ok in Ed. }
    subst status. unfold mbind at 1, io_bind at 1, io_lift at 1.
    destruct (unpack_body WriteResponse body) as [resp|e|] eqn:Eu;
      [|by intros [= <- <-]|by apply (unpack_body_no_panic WriteResponse) in Eu].
    destruct (Hk _ resp eq_refl Eu) as [_ Hw'].
    assert (streaming s offset q' (acked + wrr_count resp) (w_conn w1)) as Hs1
      by (split; [done|]; split; [done|]; by exists log).
    destruct (sw_callback_err s) eqn:Ece.
    + apply IH; [done|]. intros _. destruct Hwf as (_ & Hd1 & Hd2).
      assert (sw_done s = true) as Hdn by (destruct (sw_done s); [done|specialize (Hd1 eq_refl); congruence]).
      split; [done|]. unfold stream_left. rewrite Hdn, app_nil_r. apply drop_ge.
      specialize (Hd2 Hdn). unfold len in Hd2. lia.
    + pose proof (streaming_pull _ _ _ _ _ Hs1) as Hp.
      destruct (next_wire_chunk max_write s) as [[d|] s1].
      * destruct Hp as [Hp _]. apply IH; [done|]. by intros [_ ?]%app_eq_nil.
      * destruct Hp as (Hp & ? & ?). by apply IH.
Qed.

End stream_correct.

(** A write that covers the whole of the old content replaces it. *)
Lemma patched_whole old new d : patched old new 0 d → len old <= len d → new = d.
Proof.
  intros (Hl & Hin & _) Hle. apply bytes_eq.
  - rewrite Hl. destruct d; cbn [is_empty] in *; [change (len (@nil byte)) with 0 in *; pose proof (len_nonneg old)|]; lia.
  - intros x Hx. apply (Hin x). rewrite Hl in Hx. destruct d; cbn [is_empty] in Hx; lia.
Qed.

Lemma max_write_in_range {C} `{FileServer C} (c : C) :
  65536 <= match transfer_sizes c with Some (_, s) => s | None => 65536 end < 2 ^ 32.
Proof. destruct (transfer_sizes c) as [[r s]|] eqn:E; [|lia]. by apply fs_sizes in E as []. Qed.

(** ** The windows keep moving *)

Lemma write_slide_returns {C} `{Wire C} t fid data cs charge total n sent q acked c evs k :
  (n <= k)%nat →
  is_Some (write_slide t fid data cs charge total n sent q acked (mkWorld (C:=C) c (evs ++ service k))).
Proof.
  revert sent q acked c evs k. induction n as [|n IH]; intros sent q acked c evs k Hk; [by eexists|].
  cbn [write_slide]. unfold mbind at 1, io_bind at 1.
  destruct (next_returns q c evs k ltac:(lia)) as (o & q' & c' & evs' & k' & -> & Hk' & _).
  destruct o as [[tag fr]|]; [|by eexists].
  unfold mbind at 1, io_bind at 1, io_lift at 1. destruct fr as [[status body]|e|]; [|by eexists..].
  case_test; [by eexists|].
  unfold mbind at 1, io_bind at 1, io_lift at 1. destruct (unpack_body _ _) as [resp|e|]; [|by eexists..].
  case_test; apply IH; lia.
Qed.

(** What is left to send, in flight or in the source, bounds the rounds needed. *)
Lemma stream_slide_returns {C} `{Wire C} t fid max_write rounds s offset q acked c evs k :
  0 < max_write → stream_wf s → (length q + length (stream_left s) <= k)%nat →
  (length (evs ++ service k) < rounds)%nat →
  is_Some (stream_slide t fid max_write rounds s offset q acked (mkWorld (C:=C) c (evs ++ service k))).
Proof.
  intros Hm. revert s offset q acked c evs k.
  induction rounds as [|rounds IH]; intros s offset q acked c evs k Hwf Hk Hr; [lia|].
  cbn [stream_slide]. destruct q as [|f q0] eqn:Eq; [by eexists|]. rewrite <- Eq in *.
  assert (0 < length q)%nat as Hq by (rewrite Eq; cbn; lia). clear f q0 Eq.
  unfold mbind at 1, io_bind at 1.
  destruct (next_returns q c evs k ltac:(lia)) as (o & q' & c' & evs' & k' & En & Hk' & Hnone & _ & Hl).
  rewrite En. destruct o as [[tag fr]|]; [|by eexists]. apply next_consumes in En. cbn [w_events] in En.
  unfold mbind at 1, io_bind at 1, io_lift at 1. destruct fr as [[status body]|e|]; [|by eexists..].
  case_test.
  { destruct (drain_returns q' c' evs' k' ltac:(lia)) as [[rd wd] Ed]. unfold mbind, io_bind.
    rewrite Ed. destruct rd; by eexists. }
  unfold mbind at 1, io_bind at 1, io_lift at 1. destruct (unpack_body _ _) as [resp|e|]; [|by eexists..].
  destruct (sw_callback_err s); [apply IH; [done|lia|lia]|].
  pose proof (next_wire_chunk_spec max_write s Hm Hwf) as Hn.
  destruct (next_wire_chunk max_write s) as [[d|] s1].
  - destruct Hn as (Hwf' & Hd & Hs & _). apply IH; [done| |lia].
    rewrite length_app. cbn [length]. rewrite Hs, length_app in Hk. unfold len in Hd. lia.
  - destruct Hn as (Hwf' & _ & Hs & _). apply IH; [done|rewrite Hs; cbn; lia|lia].
Qed.

Lemma write_streamed_loop_correct {C} `{FileServer C} t fid max_write source w r w' :
  0 < max_write → write_streamed_loop t fid max_write source w = Some (r, w') →
  r ≠ Panic ∧ ∀ n, r = Ok n → stream_err source = None ∧ n <= len (stream_data source) ∧
    (n = len (stream_data source) →
     patched (content (w_conn w) fid) (content (w_conn w') fid) 0 (stream_data source)).
Proof.
  intros Hm. unfold write_streamed_loop.
  destruct (initial_fill _ _ _ _ _ _ _) as [[s offset] q] eqn:Ef.
  assert (streaming fid (content (w_conn w) fid) (stream_data source) (stream_err source)
            (mkStreamed [] 0 false None source) 0 [] 0 (w_conn w)) as Hs0.
  { split; [by split_and!|]. split; [done|]. exists []. split_and!; try done. by apply wrote_start. }
  eapply initial_fill_spec in Ef as (Hs & Hend & _); [|done|exact Hs0].
  intros [([n e] & w1 & E & Ek)|[(e & E & ->)|[E ->]]]%io_bind_inv;
    (eapply stream_slide_correct in E as [Hnp Hok]; [|done|exact Hs|intros ->; apply Hend; [done|unfold MAX_PIPELINE_WINDOW; lia]]); [|done|done].
  destruct (Hok n e eq_refl) as [-> Hw]. destruct (stream_err source); injection Ek as <- <-; [done|].
  split; [done|]. intros n' [= <-]. split; [done|]. by apply (wrote_all fid _ 0) in Hw.
Qed.

Lemma framed_open_for_write {C} `{Wire C} t path d :
  framed (open_file_for_write_with_disposition (C:=C) t path d).
Proof. apply framed_bind; [apply framed_open_with|auto with smb]. Qed.

Lemma framed_flushing {C} `{Wire C} {A} t fid (outcome : result Error A) :
  framed ((if is_ok outcome then flush_handle (C:=C) t fid else mret tt) ;;
          close_result ← attempt (close_handle t fid);
          v ← io_lift outcome; _ ← io_lift close_result; mret v).
Proof.
  apply framed_bind; [apply framed_if; [apply framed_flush_handle|auto with smb]|].
  intros _. apply framed_closing.
Qed.

Lemma write_file_pipelined_returns {C} `{FileServer C} t path data c evs :
  ∃ k, is_Some (write_file_pipelined t path data (mkWorld (C:=C) c (evs ++ service k))).
Proof.
  destruct (framed_open_with t (write_create (format_path t path) FileOverwriteIf) c) as (r & c' & E).
  exists (Z.to_nat (div_ceil (len data) match transfer_sizes c' with Some (_, s) => s | None => 65536 end)).
  unfold write_file_pipelined. destruct (is_empty data); [apply framed_prompt, framed_write_compound|].
  unfold mbind at 1, io_bind at 1. rewrite E. destruct r as [resp|e|]; [|by eexists..].
  unfold mbind at 1, io_bind at 1, max_write_size. cbn [w_conn].
  unfold mbind at 1, io_bind at 1, attempt at 1, write_pipelined_loop.
  match goal with |- context [write_slide _ ?f ?d ?cs ?ch ?n _ ?s ?q ?a (mkWorld _ (_ ++ service ?k))] =>
    destruct (write_slide_returns t f d cs ch n n s q a c' evs k) as [[rl w1] ->] end; [lia|].
  destruct rl; [by apply framed_prompt, framed_flushing..|by eexists].
Qed.

Lemma write_file_streamed_returns {C} `{FileServer C} t path source c evs :
  ∃ k, is_Some (write_file_streamed t path source (mkWorld (C:=C) c (evs ++ service k))).
Proof.
  destruct (framed_open_for_write t path FileOverwriteIf c) as (r & c' & E).
  exists (length (stream_data source)). unfold write_file_streamed, mbind at 1, io_bind at 1.
  unfold open_file_for_write. rewrite E. destruct r as [fid|e|]; [|by eexists..].
  unfold mbind at 1, io_bind at 1, max_write_size. cbn [w_conn].
  pose proof (max_write_in_range c') as Hm. set (mw := match _ with Some _ => _ | None => _ end) in *.
  unfold mbind at 1, io_bind at 1, attempt at 1, write_streamed_loop. cbn [w_events].
  destruct (initial_fill _ _ _ _ _ _ _) as [[s offset] q] eqn:Ef.
  assert (streaming fid (content c' fid) (stream_data source) (stream_err source)
            (mkStreamed [] 0 false None source) 0 [] 0 c') as Hs0.
  { split; [by split_and!|]. split; [done|]. exists []. split_and!; try done. by apply wrote_start. }
  eapply initial_fill_spec in Ef as ((Hwf & _) & _ & Hlen); [|lia|exact Hs0].
  unfold stream_left at 2 in Hlen. cbn in Hlen. rewrite drop_nil in Hlen. cbn [app] in Hlen.
  unfold mbind at 1, io_bind at 1.
  match goal with |- context [stream_slide _ _ _ ?r _ _ _ _ (mkWorld _ (_ ++ service ?k))] =>
    destruct (stream_slide_returns t fid mw r s offset q 0 c' evs k) as [[rl w1] ->] end; [lia|done|lia|lia|].
  destruct rl as [[n [e|]]|e|]; [by apply framed_prompt, framed_flushing..|by eexists].
Qed.

(** C28: a pipelined write, under any order of service and delivery, never
    reports more bytes than it was given; when it reports all of them the file
    holds what one write of the whole data would have left, and the handle is
    closed; it never panics, and serving what is outstanding makes it return. *)
Theorem pipelined_write_correct {C} `{FileServer C} t path data c evs :
  data ≠ [] →
  (∀ r w', write_file_pipelined t path data (mkWorld c evs) = Some (r, w') →
     r ≠ Panic ∧
     ∀ n, r = Ok n → ∃ fid w1, open_file_for_write t path (mkWorld c evs) = Some (Ok fid, w1) ∧
       n <= len data ∧ is_open (w_conn w') fid = false ∧
       (n = len data → patched (content (w_conn w1) fid) (content (w_conn w') fid) 0 data)) ∧
  ∃ k, is_Some (write_file_pipelined t path data (mkWorld c (evs ++ service k))).
Proof.
  intros Hd. split; [|apply write_file_pipelined_returns].
  intros r w'. unfold write_file_pipelined. destruct data as [|b data']; [done|]. cbn [is_empty].
  set (data := b :: data') in *. assert (0 < len data) as Hpos
    by (unfold data; rewrite len_cons; pose proof (len_nonneg data'); lia). clearbody data.
  intros [(resp & w1 & Eo & Ek)|[(e & (? & _)%open_with_spec & ->)|[(? & _)%open_with_spec ->]]]%io_bind_inv;
    [|done|done].
  unfold mbind at 1, io_bind at 1, max_write_size in Ek. pose proof (max_write_in_range (w_conn w1)) as Hm.
  apply flushing_spec in Ek as (rl & w2 & El & Hcl).
  eapply write_pipelined_loop_correct in El as [Hl Hok]; [|lia|done| |done].
  2: { apply Z2Nat.id. match goal with |- 0 <= div_ceil _ ?d =>
         pose proof (div_ceil_spec (len data) d ltac:(lia) Hpos) end. nia. }
  destruct (Hcl Hl) as (Hrp & Hk & Hv). split; [done|]. intros n [-> Hop]%Hv.
  destruct (Hok n eq_refl) as [Hn Hp]. exists (crr_file_id resp), w1. split_and!; [|done|done|by rewrite Hk].
  unfold open_file_for_write, open_file_for_write_with_disposition, mbind, io_bind. by rewrite Eo.
Qed.

Lemma pipelined_write_correct_witness :
  ∃ w', write_file_pipelined share [0x66] [x01; x02] (mkWorld (disk_of 65536 [x09]) (service 1))
          = Some (Ok 2, w') ∧
        ∃ fid, is_open (w_conn w') fid = false ∧ content (w_conn w') fid = [x01; x02].
Proof.
  assert ([x01; x02] ≠ []) as Hne by done.
  destruct (pipelined_write_correct share [0x66] [x01; x02] (disk_of 65536 [x09]) (service 1) Hne) as [Hr _].
  destruct (write_file_pipelined _ _ _ _) as [[r w']|] eqn:E; [|by vm_compute in E].
  assert (r = Ok 2) as -> by (vm_compute in E; congruence).
  destruct (Hr _ _ eq_refl) as [_ Hd]. destruct (Hd _ eq_refl) as (fid & w1 & Eo & _ & Ho & Hp).
  exists w'. split; [done|]. exists fid. split; [done|]. apply (patched_whole (content (w_conn w1) fid)); [by apply Hp|].
  vm_compute in Eo. injection Eo as <- <-. by vm_compute.
Defined.

(** A FLUSH that fails returns before the CLOSE: the handle stays open, although
    the handle "is always closed, even on error". *)
Example failed_flush_leaks_handle :
  option_map (λ rw, (rw.1, is_open (w_conn rw.2) handle))
    (write_file_streamed share [0x66] [Chunk [x01]]
       (mkWorld (mkDisk (cap := 65536) [] false NtStatus.DISK_FULL) (service 1)))
  = Some (Err (Protocol NtStatus.DISK_FULL Flush), true).
Proof. by vm_compute. Qed.

(** A streamed write sends the chunks its source gives up to the first
    empty one, an error or the end, splits those that are too large, and, under
    any order of service and delivery, reports success only when the source did
    not fail; when it reports every byte, the file holds what one write of them
    all would have left and the handle is closed; it never panics, and serving
    what is outstanding makes it return. *)
Theorem streamed_write_correct {C} `{FileServer C} t path source c evs :
  (∀ r w', write_file_streamed t path source (mkWorld c evs) = Some (r, w') →
     r ≠ Panic ∧
     ∀ n, r = Ok n → ∃ fid w1, open_file_for_write t path (mkWorld c evs) = Some (Ok fid, w1) ∧
       stream_err source = None ∧ n <= len (stream_data source) ∧ is_open (w_conn w') fid = false ∧
       (n = len (stream_data source) →
        patched (content (w_conn w1) fid) (content (w_conn w') fid) 0 (stream_data source))) ∧
  ∃ k, is_Some (write_file_streamed t path source (mkWorld c (evs ++ service k))).
Proof.
  split; [|apply write_file_streamed_returns].
  intros r w' [(fid & w1 & Eo & Ek)|Hbad]%io_bind_inv.
  - unfold mbind at 1, io_bind at 1, max_write_size in Ek. pose proof (max_write_in_range (w_conn w1)) as Hm.
    apply flushing_spec in Ek as (rl & w2 & El & Hcl).
    apply write_streamed_loop_correct in El as [Hl Hok]; [|lia].
    destruct (Hcl Hl) as (Hrp & Hk & Hv). split; [done|]. intros n [-> Hop]%Hv.
    destruct (Hok n eq_refl) as (He & Hn & Hp). exists fid, w1. rewrite Hk. by split_and!.
  - assert (∀ r1, open_file_for_write t path (mkWorld c evs) = Some (r1, w') → r1 ≠ Panic) as Hnp.
    { intros r1 [(resp & w1 & _ & Ek)|[(e & _ & ->)|[(? & _)%open_with_spec ->]]]%io_bind_inv; [|done|done].
      by injection Ek as <- <-. }
    destruct Hbad as [(e & _ & ->)|[E ->]]; [done|by apply Hnp in E].
Qed.
