(* ===== verification/Stream.v ===== *)
(** * Streams over one open handle ([src/client/stream.rs])

    [FileDownload] reads front to back, [FileReader] at any position,
    [FileUpload] writes a buffer chunk by chunk, and [FileWriter] takes pushed
    chunks and keeps a window of WRITEs in flight.  Each is a record threaded
    through its methods together with the connection. *)

From S2P Require Import Prelude Types Pack Codec Name Header FileIo Create Pipeline Transfer Tree.

(** A method with [&mut self] on [S]. *)
Section methods.
Context {S C : Type}.

Definition self : io (S * World C) S := λ sw, Some (Ok sw.1, sw).
Definition set_self (s : S) : io (S * World C) unit := λ sw, Some (Ok tt, (s, sw.2)).
Definition on_conn {A} (m : io (World C) A) : io (S * World C) A := λ sw,
  match m sw.2 with
  | None => None
  | Some (r, w) => Some (r, (sw.1, w))
  end.

End methods.

(** [n.div_ceil(65536).max(1) as u16] *)
Definition charge_of (n : Z) : Z := trunc 16 (Z.max (div_ceil n 65536) 1).

(** ** FileDownload *)

Record FileDownload := mkFileDownload {
  fd_tree : Tree;
  fd_file_id : FileId;
  fd_file_size : Z;
  fd_bytes_received : Z;
  fd_chunk_size : Z;
  fd_done : bool
}.

Definition FileDownload_new (t : Tree) (file_id : FileId) (file_size chunk_size : Z) : FileDownload :=
  mkFileDownload t file_id file_size 0 chunk_size false.

Definition FileDownload_progress (d : FileDownload) : Progress :=
  mkProgress (fd_bytes_received d) (Some (fd_file_size d)).

Definition fd_set_done (d : FileDownload) : FileDownload :=
  mkFileDownload (fd_tree d) (fd_file_id d) (fd_file_size d) (fd_bytes_received d) (fd_chunk_size d) true.
Definition fd_receive (d : FileDownload) (n : Z) : FileDownload :=
  mkFileDownload (fd_tree d) (fd_file_id d) (fd_file_size d) (fd_bytes_received d + n)
    (fd_chunk_size d) (fd_done d).

Section download.
Context {C : Type} `{Wire C}.

(** [FileDownload::close] *)
Definition fd_close : io (FileDownload * World C) unit :=
  d ← self;
  if fd_done d then mret tt
  else set_self (fd_set_done d) ;; on_conn (close_handle (fd_tree d) (fd_file_id d)).

(** [next_chunk], whose [Some(Err(..))] is a value, not an early return. *)
Definition next_chunk : io (FileDownload * World C) (option (result Error bytes)) :=
  d ← self;
  if fd_done d then mret None else
  let remaining := sat_sub (fd_file_size d) (fd_bytes_received d) in
  if remaining =? 0 then
    r ← attempt fd_close;
    match r with Err e => mret (Some (Err e)) | _ => mret None end
  else
    let this_chunk := trunc 32 (Z.min remaining (fd_chunk_size d)) in
    exec_result ← attempt (on_conn (execute_charged (tree_id (fd_tree d))
      (OpRead (read_request (fd_file_id d) this_chunk (fd_bytes_received d))) (charge_of this_chunk)));
    match exec_result with
    | Panic => io_lift Panic
    | Err e => set_self (fd_set_done d) ;; mret (Some (Err e))
    | Ok (status, body) =>
        if status =? NtStatus.END_OF_FILE then attempt fd_close ;; mret None
        else if negb (status =? NtStatus.SUCCESS)
        then set_self (fd_set_done d) ;; mret (Some (Err (Protocol status Read)))
        else match unpack_body ReadResponse body with
             | Panic => io_lift Panic
             | Err e => set_self (fd_set_done d) ;; mret (Some (Err e))
             | Ok resp =>
                 if is_empty (rdr_data resp) then attempt fd_close ;; mret None
                 else
                   let d := fd_receive d (len (rdr_data resp)) in
                   set_self d ;;
                   (if fd_file_size d <=? fd_bytes_received d then
                      r ← attempt fd_close;
                      match r with Err e => mret (Some (Err e)) | _ => mret (Some (Ok (rdr_data resp))) end
                    else mret (Some (Ok (rdr_data resp))))
             end
    end.

(** The loop of [collect]: a chunk has at least a byte, so one round per byte of
    the file, and a last one that finds the end, are enough. *)
Fixpoint collect_loop (fuel : nat) (data : bytes) : io (FileDownload * World C) bytes :=
  match fuel with
  | O => io_lift Panic
  | S fuel =>
      o ← next_chunk;
      match o with
      | None => mret data
      | Some result => chunk ← io_lift result; collect_loop fuel (data ++ chunk)
      end
  end.

Definition collect : io (FileDownload * World C) bytes :=
  d ← self; collect_loop (Z.to_nat (fd_file_size d) + 2) [].

(** [collect_with_progress]; the callback sees every progress so far. *)
Fixpoint collect_progress_loop (on_progress : list Progress → bool) (fuel : nat) (data : bytes)
    (shown : list Progress) : io (FileDownload * World C) bytes :=
  match fuel with
  | O => io_lift Panic
  | S fuel =>
      o ← next_chunk;
      match o with
      | None => mret data
      | Some result =>
          chunk ← io_lift result;
          d ← self;
          let shown := shown ++ [FileDownload_progress d] in
          if on_progress shown then attempt fd_close ;; io_err Cancelled
          else collect_progress_loop on_progress fuel (data ++ chunk) shown
      end
  end.

Definition collect_with_progress (on_progress : list Progress → bool) :
    io (FileDownload * World C) bytes :=
  d ← self; collect_progress_loop on_progress (Z.to_nat (fd_file_size d) + 2) [] [].

(** [Tree::download] *)
Definition download (t : Tree) (path : list Z) : io (World C) FileDownload :=
  '(file_id, file_size) ← open_file t path;
  chunk_size ← max_read_size;
  mret (FileDownload_new t file_id file_size chunk_size).

End download.

(** ** FileReader *)

Record FileReader := mkFileReader {
  fr_tree : Tree;
  fr_file_id : FileId;
  fr_file_size : Z;
  fr_max_read : Z;
  fr_closed : bool
}.

Definition FileReader_new (t : Tree) (file_id : FileId) (file_size max_read : Z) : FileReader :=
  mkFileReader t file_id file_size max_read false.

Section reader.
Context {C : Type} `{Wire C}.

Definition open_file_reader (t : Tree) (path : list Z) : io (World C) FileReader :=
  '(file_id, file_size) ← open_file t path;
  max_read ← max_read_size;
  mret (FileReader_new t file_id file_size max_read).

(** [while pos < end]: a round adds at least a byte or is the last. *)
Fixpoint read_at_loop (fuel : nat) (rd : FileReader) (end_ pos : Z) (out : bytes) : io (World C) bytes :=
  if pos <? end_ then
    match fuel with
    | O => io_lift Panic
    | S fuel =>
        let chunk_len := trunc 32 (Z.min (end_ - pos) (fr_max_read rd)) in
        '(status, body) ← execute_charged (tree_id (fr_tree rd))
           (OpRead (read_request (fr_file_id rd) chunk_len pos)) (charge_of chunk_len);
        if status =? NtStatus.END_OF_FILE then mret out
        else if negb (status =? NtStatus.SUCCESS) then io_err (Protocol status Read)
        else
          resp ← io_lift (unpack_body ReadResponse body);
          if is_empty (rdr_data resp) then mret out
          else read_at_loop fuel rd end_ (pos + len (rdr_data resp)) (out ++ rdr_data resp)
    end
  else mret out.

Definition read_at (rd : FileReader) (offset length : Z) : io (World C) bytes :=
  if (length =? 0) || (fr_file_size rd <=? offset) then mret []
  else
    let to_read := Z.min length (fr_file_size rd - offset) in
    let end_ := offset + to_read in
    read_at_loop (Z.to_nat to_read) rd end_ offset [].

Definition FileReader_close (rd : FileReader) : io (World C) unit :=
  close_handle (fr_tree rd) (fr_file_id rd).

End reader.

(** ** FileUpload *)

Record FileUpload := mkFileUpload {
  fu_tree : Tree;
  fu_file_id : FileId;
  fu_data : bytes;
  fu_total_bytes : Z;
  fu_bytes_written : Z;
  fu_chunk_size : Z;
  fu_done : bool
}.

Definition FileUpload_new (t : Tree) (file_id : FileId) (data : bytes) (chunk_size : Z) : FileUpload :=
  mkFileUpload t file_id data (len data) 0 chunk_size false.

Definition FileUpload_new_done (t : Tree) (total_bytes : Z) : FileUpload :=
  mkFileUpload t FileId_SENTINEL [] total_bytes total_bytes 0 true.

Definition FileUpload_progress (u : FileUpload) : Progress :=
  mkProgress (fu_bytes_written u) (Some (fu_total_bytes u)).

Definition fu_set_done (u : FileUpload) : FileUpload :=
  mkFileUpload (fu_tree u) (fu_file_id u) (fu_data u) (fu_total_bytes u) (fu_bytes_written u)
    (fu_chunk_size u) true.
Definition fu_wrote (u : FileUpload) (n : Z) : FileUpload :=
  mkFileUpload (fu_tree u) (fu_file_id u) (fu_data u) (fu_total_bytes u) (fu_bytes_written u + n)
    (fu_chunk_size u) (fu_done u).

Section upload.
Context {C : Type} `{Wire C}.

Definition flush_and_close : io (FileUpload * World C) unit :=
  u ← self;
  if fu_done u then mret tt
  else
    set_self (fu_set_done u) ;;
    on_conn (flush_handle (fu_tree u) (fu_file_id u)) ;;
    on_conn (close_handle (fu_tree u) (fu_file_id u)).

Definition write_next_chunk : io (FileUpload * World C) bool :=
  u ← self;
  if fu_done u then mret false else
  let offset := fu_bytes_written u in
  if len (fu_data u) <=? offset then flush_and_close ;; mret false
  else
    let remaining := len (fu_data u) - offset in
    let this_chunk := Z.min remaining (fu_chunk_size u) in
    let chunk := subslice (fu_data u) offset (offset + this_chunk) in
    exec_result ← attempt (on_conn (execute_charged (tree_id (fu_tree u))
      (OpWrite (write_request (fu_file_id u) offset chunk)) (charge_of this_chunk)));
    match exec_result with
    | Panic => io_lift Panic
    | Err e => set_self (fu_set_done u) ;; io_err e
    | Ok (status, body) =>
        if negb (status =? NtStatus.SUCCESS) then
          set_self (fu_set_done u) ;;
          attempt (on_conn (close_handle (fu_tree u) (fu_file_id u))) ;;
          io_err (Protocol status Write)
        else
          resp ← io_lift (unpack_body WriteResponse body);
          let u := fu_wrote u (wrr_count resp) in
          set_self u ;;
          if fu_total_bytes u <=? fu_bytes_written u then flush_and_close ;; mret false
          else mret true
    end.

End upload.

(** ** FileWriter *)

Record FileWriter := mkFileWriter {
  fw_tree : Tree;
  fw_file_id : FileId;
  fw_max_write_size : Z;
  fw_offset : Z;
  fw_in_flight : InFlight;
  fw_total_written : Z;
  fw_pending_data : bytes;
  fw_pending_offset : Z;
  fw_stashed_chunk : option bytes;
  fw_done : bool
}.

Definition FileWriter_new (t : Tree) (file_id : FileId) (max_write_size : Z) : FileWriter :=
  mkFileWriter t file_id max_write_size 0 [] 0 [] 0 None false.

Definition FileWriter_progress (f : FileWriter) : Progress := mkProgress (fw_total_written f) None.

Definition fw_set_offset (f : FileWriter) (offset : Z) : FileWriter :=
  mkFileWriter (fw_tree f) (fw_file_id f) (fw_max_write_size f) offset (fw_in_flight f)
    (fw_total_written f) (fw_pending_data f) (fw_pending_offset f) (fw_stashed_chunk f) (fw_done f).
Definition fw_set_in_flight (f : FileWriter) (q : InFlight) : FileWriter :=
  mkFileWriter (fw_tree f) (fw_file_id f) (fw_max_write_size f) (fw_offset f) q
    (fw_total_written f) (fw_pending_data f) (fw_pending_offset f) (fw_stashed_chunk f) (fw_done f).
Definition fw_confirm (f : FileWriter) (n : Z) : FileWriter :=
  mkFileWriter (fw_tree f) (fw_file_id f) (fw_max_write_size f) (fw_offset f) (fw_in_flight f)
    (fw_total_written f + n) (fw_pending_data f) (fw_pending_offset f) (fw_stashed_chunk f) (fw_done f).
Definition fw_set_pending (f : FileWriter) (d : bytes) (o : Z) : FileWriter :=
  mkFileWriter (fw_tree f) (fw_file_id f) (fw_max_write_size f) (fw_offset f) (fw_in_flight f)
    (fw_total_written f) d o (fw_stashed_chunk f) (fw_done f).
Definition fw_stash (f : FileWriter) (s : option bytes) : FileWriter :=
  mkFileWriter (fw_tree f) (fw_file_id f) (fw_max_write_size f) (fw_offset f) (fw_in_flight f)
    (fw_total_written f) (fw_pending_data f) (fw_pending_offset f) s (fw_done f).
Definition fw_set_done (f : FileWriter) : FileWriter :=
  mkFileWriter (fw_tree f) (fw_file_id f) (fw_max_write_size f) (fw_offset f) (fw_in_flight f)
    (fw_total_written f) (fw_pending_data f) (fw_pending_offset f) (fw_stashed_chunk f) true.

(** [next_pending_chunk], whose slice is always in range. *)
Definition next_pending_chunk (f : FileWriter) : option bytes * FileWriter :=
  if len (fw_pending_data f) <=? fw_pending_offset f then (None, f)
  else
    let end_ := Z.min (fw_pending_offset f + fw_max_write_size f) (len (fw_pending_data f)) in
    let chunk := subslice (fw_pending_data f) (fw_pending_offset f) end_ in
    (Some chunk,
     if len (fw_pending_data f) <=? end_ then fw_set_pending f [] 0
     else fw_set_pending f (fw_pending_data f) end_).

Definition launch_wire_chunk (f : FileWriter) (data : bytes) : FileWriter :=
  let req := write_request (fw_file_id f) (fw_offset f) data in
  let f' := fw_set_in_flight f (fw_in_flight f ++
              [launch 0 (tree_id (fw_tree f)) (OpWrite req) (charge_of (len data))]) in
  fw_set_offset f' (fw_offset f + len data).

Definition can_send (f : FileWriter) (_ : bytes) : bool :=
  (length (fw_in_flight f) <? MAX_PIPELINE_WINDOW)%nat.

Section writer.
Context {C : Type} `{Wire C}.

Definition open_file_writer_with (d : CreateDisposition) (t : Tree) (path : list Z) :
    io (World C) FileWriter :=
  file_id ← open_file_for_write_with_disposition t path d;
  max_write ← max_write_size;
  mret (FileWriter_new t file_id max_write).

Definition open_file_writer : Tree → list Z → io (World C) FileWriter :=
  open_file_writer_with FileOverwriteIf.
Definition open_file_writer_exclusive : Tree → list Z → io (World C) FileWriter :=
  open_file_writer_with FileCreate.
Definition open_file_writer_at (t : Tree) (path : list Z) (offset : Z) : io (World C) FileWriter :=
  f ← open_file_writer_with FileOpenIf t path;
  mret (fw_set_offset f offset).

Definition drain_one : io (FileWriter * World C) unit :=
  f ← self;
  '(o, q) ← on_conn (next (fw_in_flight f));
  let f := fw_set_in_flight f q in
  set_self f ;;
  match o with
  | None => mret tt
  | Some (_, result) =>
      '(status, body) ← io_lift result;
      if negb (status =? NtStatus.SUCCESS) then
        on_conn (drain q) ;;
        set_self (fw_set_in_flight f []) ;;
        attempt (on_conn (close_handle (fw_tree f) (fw_file_id f))) ;;
        set_self (fw_set_done (fw_set_in_flight f [])) ;;
        io_err (Protocol status Write)
      else
        resp ← io_lift (unpack_body WriteResponse body);
        set_self (fw_confirm f (wrr_count resp))
  end.

(** [while !self.in_flight.is_empty()]: every round takes one request out. *)
Fixpoint drain_all_loop (n : nat) : io (FileWriter * World C) unit :=
  match n with
  | O => mret tt
  | S n => drain_one ;; drain_all_loop n
  end.

Definition drain_all : io (FileWriter * World C) unit :=
  f ← self; drain_all_loop (length (fw_in_flight f)).

Definition send_or_stash (data : bytes) : io (FileWriter * World C) bool :=
  f ← self;
  (if (MAX_PIPELINE_WINDOW <=? length (fw_in_flight f))%nat then drain_one else mret tt) ;;
  f ← self;
  if can_send f data then set_self (launch_wire_chunk f data) ;; mret true
  else if negb (is_empty (fw_in_flight f)) then
    drain_one ;;
    f ← self;
    if can_send f data then set_self (launch_wire_chunk f data) ;; mret true
    else set_self (fw_stash f (Some data)) ;; mret false
  else set_self (fw_stash f (Some data)) ;; mret false.

Definition flush_stash : io (FileWriter * World C) unit :=
  f ← self;
  match fw_stashed_chunk f with
  | None => mret tt
  | Some stashed =>
      set_self (fw_stash f None) ;;
      (if negb (is_empty (fw_in_flight f)) && negb (can_send f stashed) then drain_one else mret tt) ;;
      f ← self;
      if can_send f stashed then set_self (launch_wire_chunk f stashed)
      else set_self (fw_stash f (Some stashed))
  end.

(** [while let Some(wire_chunk) = self.next_pending_chunk()]: every chunk takes at
    least a byte off the pending data, so a round per byte is enough. *)
Fixpoint write_chunk_loop (fuel : nat) : io (FileWriter * World C) unit :=
  f ← self;
  let '(o, f) := next_pending_chunk f in
  set_self f ;;
  match o with
  | None => mret tt
  | Some wire_chunk =>
      match fuel with
      | O => io_lift Panic
      | S fuel =>
          sent ← send_or_stash wire_chunk;
          if negb sent then mret tt else write_chunk_loop fuel
      end
  end.

Definition write_chunk (data : bytes) : io (FileWriter * World C) unit :=
  if is_empty data then mret tt
  else
    f ← self;
    set_self (if fw_pending_offset f <? len (fw_pending_data f)
              then fw_set_pending f (drop (Z.to_nat (fw_pending_offset f)) (fw_pending_data f) ++ data) 0
              else fw_set_pending f data 0) ;;
    flush_stash ;;
    f ← self;
    write_chunk_loop (length (fw_pending_data f)).

Fixpoint finish_loop (fuel : nat) : io (FileWriter * World C) unit :=
  f ← self;
  let '(o, f) := next_pending_chunk f in
  set_self f ;;
  match o with
  | None => mret tt
  | Some wire_chunk =>
      match fuel with
      | O => io_lift Panic
      | S fuel =>
          sent ← send_or_stash wire_chunk;
          (if negb sent then flush_stash else mret tt) ;;
          finish_loop fuel
      end
  end.

Definition finish : io (FileWriter * World C) Z :=
  flush_stash ;;
  f ← self;
  finish_loop (length (fw_pending_data f)) ;;
  drain_all ;;
  f ← self;
  on_conn (flush_handle (fw_tree f) (fw_file_id f)) ;;
  on_conn (close_handle (fw_tree f) (fw_file_id f)) ;;
  set_self (fw_set_done f) ;;
  mret (fw_total_written f).

(** The loop of [abort] over what is in flight: errors are swallowed, and the
    first transport error ends it. *)
Fixpoint abort_drain (n : nat) : io (FileWriter * World C) unit :=
  match n with
  | O => mret tt
  | S n =>
      f ← self;
      '(o, q) ← on_conn (next (fw_in_flight f));
      let f := fw_set_in_flight f q in
      set_self f ;;
      match o with
      | None => mret tt
      | Some (_, Panic) => io_lift Panic
      | Some (_, Err _) => mret tt
      | Some (_, Ok (status, body)) =>
          (if status =? NtStatus.SUCCESS then
             match unpack_body WriteResponse body with
             | Ok resp => set_self (fw_confirm f (wrr_count resp))
             | Err _ => mret tt
             | Panic => io_lift Panic
             end
           else mret tt) ;;
          abort_drain n
      end
  end.

Definition abort : io (FileWriter * World C) Z :=
  f ← self;
  set_self (fw_stash (fw_set_pending f [] 0) None) ;;
  abort_drain (length (fw_in_flight f)) ;;
  attempt (on_conn (close_handle (fw_tree f) (fw_file_id f))) ;;
  f ← self;
  set_self (fw_set_done f) ;;
  mret (fw_total_written f).

(** A whole use of a writer: push every chunk, then finish. *)
Fixpoint push_all (chunks : list bytes) : io (FileWriter * World C) Z :=
  match chunks with
  | [] => finish
  | d :: chunks => write_chunk d ;; push_all chunks
  end.

End writer.
