(* ===== verification/Triple.v ===== *)
(** * Triples for awaiting code

    [triple P m Q]: started where [P] holds, [m] does not panic, and if it
    returns a value [Q] holds of it; nothing is said of an error. *)

From S2P Require Import Prelude Types Pack Codec Header FileIo Create Pipeline Transfer Tree Stream.

(** ** Triples *)

Definition triple {W A} (P : W → Prop) (m : io W A) (Q : A → W → Prop) : Prop :=
  ∀ w r w', P w → m w = Some (r, w') → r ≠ Panic ∧ ∀ a, r = Ok a → Q a w'.

Lemma triple_bind {W A B} P (m : io W A) R (k : A → io W B) Q :
  triple P m R → (∀ a, triple (R a) (k a) Q) → triple P (m ≫= k) Q.
Proof.
  intros Hm Hk w r w' HP [(a & w1 & E & Ek)|[(e & E & ->)|[E ->]]]%io_bind_inv;
    destruct (Hm _ _ _ HP E) as [Hnp Ha]; [|done|done].
  eapply Hk; [by apply Ha|done].
Qed.
Lemma triple_ret {W A} (a : A) (Q : A → W → Prop) : triple (Q a) (mret a) Q.
Proof. intros w r w' HQ [= <- <-]. split; [done|]. by intros ? [= <-]. Qed.
Lemma triple_err {W A} e P (Q : A → W → Prop) : triple P (io_err e) Q.
Proof. by intros w r w' _ [= <- <-]. Qed.
Lemma triple_lift {W A} (r : result Error A) P (Q : A → W → Prop) :
  r ≠ Panic → (∀ a, r = Ok a → ∀ w, P w → Q a w) → triple P (io_lift r) Q.
Proof. intros Hr HQ w r' w' HP [= <- <-]. split; [done|]. intros a Ha. by apply HQ. Qed.
Lemma triple_attempt {W A} P (m : io W A) R (Q : result Error A → W → Prop) :
  triple P m R → (∀ r w w', P w → m w = Some (r, w') → Q r w') → triple P (attempt m) Q.
Proof.
  intros Hm HQ w r w' HP (r1 & E & [[-> ->]|[Hnp ->]])%attempt_inv.
  - by destruct (Hm _ _ _ HP E).
  - split; [done|]. intros a [= <-]. by eapply HQ.
Qed.
Lemma triple_conseq {W A} (P P' : W → Prop) (m : io W A) (Q Q' : A → W → Prop) :
  triple P' m Q' → (∀ w, P w → P' w) → (∀ a w, Q' a w → Q a w) → triple P m Q.
Proof.
  intros Hm HP HQ w r w' Hw E. destruct (Hm w r w' (HP _ Hw) E) as [? Ha].
  split; [done|]. intros a Hr. by apply HQ, Ha.
Qed.
Lemma triple_if {W A} (b : bool) P (m1 m2 : io W A) Q :
  (b = true → triple P m1 Q) → (b = false → triple P m2 Q) → triple P (if b then m1 else m2) Q.
Proof. destruct b; auto. Qed.
(** A method reads its own state. *)
Lemma triple_self {S C A} P (k : S → io (S * World C) A) Q :
  (∀ s, triple (λ sw, P sw ∧ sw.1 = s) (k s) Q) → triple P (self ≫= k) Q.
Proof. intros Hk [s w] r w' HP E. by eapply (Hk s); [|exact E]. Qed.
Lemma triple_set {S C A} s P (k : unit → io (S * World C) A) Q :
  triple (λ sw, ∃ s0, P (s0, sw.2) ∧ sw.1 = s) (k tt) Q → triple P (set_self s ≫= k) Q.
Proof. intros Hk [s0 w] r w' HP E. eapply Hk; [|exact E]. by exists s0. Qed.

(** A step that does not panic, whatever it does. *)
Abbreviation safe m := (triple (λ _, True) m (λ _ _, True)).

Lemma safe_bind {W A B} (m : io W A) (k : A → io W B) Q :
  safe m → (∀ a, triple (λ _, True) (k a) Q) → triple (λ _, True) (m ≫= k) Q.
Proof. intros Hm Hk. eapply triple_bind; [exact Hm|done]. Qed.
Lemma safe_on_conn {S C A} (m : io (World C) A) : safe m → safe (on_conn (S:=S) m).
Proof.
  intros Hm [s w] r w' _. unfold on_conn. cbn. destruct (m w) as [[r1 w1]|] eqn:E; [|done].
  intros [= <- <-]. by apply Hm in E as [].
Qed.
Lemma safe_attempt {W A} (m : io W A) : safe m → safe (attempt m).
Proof. intros Hm. by eapply triple_attempt. Qed.
Lemma safe_set {S C} (s : S) : safe (set_self (C:=C) s).
Proof. by intros w r w' _ [= <- <-]. Qed.
Lemma safe_drain {C} `{Wire C} q : safe (drain (C:=C) q).
Proof. intros w r w' _ ->%drain_ok. done. Qed.
Lemma safe_close {C} `{FileServer C} t f : safe (close_handle (C:=C) t f).
Proof. intros w r w' _ [? _]%close_handle_spec. done. Qed.
Lemma safe_flush {C} `{FileServer C} t f : safe (flush_handle (C:=C) t f).
Proof. intros w r w' _ [? _]%flush_handle_spec. done. Qed.

#[export] Hint Resolve safe_bind safe_on_conn safe_attempt safe_set safe_drain safe_close safe_flush
  triple_err : smb.
