(* ===== verification/Readers.v ===== *)
(** * Sequential and positioned readers ([FileReader] and [FileDownload] of
    [src/client/stream.rs])

    Both send one READ at a time, from where the last answer ended, so they are
    exact also against a server that cuts its answers short. *)

From S2P Require Import Prelude Types Pack Codec Name Header FileIo Create Pipeline Transfer Tree Disk Stream.

(** An answer of at most [n] bytes from [pos] is the slice it stands for. *)
Lemma prefix_slice (F d : bytes) pos :
  0 <= pos → d `prefix_of` drop (Z.to_nat pos) F → d = subslice F pos (pos + len d) ∧ (d ≠ [] → pos + len d <= len F).
Proof.
  intros Hp [k Hk]. split.
  - unfold subslice. rewrite Hk. replace (Z.to_nat (pos + len d - pos)) with (length d) by (unfold len; lia).
    by rewrite take_app_length.
  - intros Hd. apply (f_equal length) in Hk. rewrite length_drop, length_app in Hk. unfold len.
    destruct d; [done|]. cbn in *. lia.
Qed.

Lemma subslice_join {A} (l : list A) a b c :
  0 <= a <= b → b <= c → subslice l a b ++ subslice l b c = subslice l a c.
Proof.
  intros Hab Hbc. unfold subslice. replace (Z.to_nat (c - a)) with (Z.to_nat (b - a) + Z.to_nat (c - b))%nat by lia.
  rewrite <- take_take_drop, drop_drop. do 3 f_equal. lia.
Qed.

Section readers.
Context {C : Type} `{FileServer C}.

(** One READ of at least a byte inside the file. *)
Lemma read_step t fid F n pos charge (w : World C) r w' :
  content (w_conn w) fid = F → 0 <= pos < len F → 0 < n →
  execute_charged (tree_id t) (OpRead (read_request fid n pos)) charge w = Some (r, w') →
  r ≠ Panic ∧ content (w_conn w') fid = F ∧ w_events w' = w_events w ∧
  ∀ status body, r = Ok (status, body) → status ≠ NtStatus.END_OF_FILE ∧
    (status = NtStatus.SUCCESS → ∀ resp, unpack_body ReadResponse body = Ok resp →
       rdr_data resp ≠ [] ∧ len (rdr_data resp) <= n ∧ pos + len (rdr_data resp) <= len F ∧
       rdr_data resp = subslice F pos (pos + len (rdr_data resp))).
Proof.
  intros Hc Hp Hn (E & Hev & Hnp)%execute_inv. split; [done|]. split.
  { rewrite <- Hc, <- (fs_read_keeps (w_conn w) (tree_id t) (read_request fid n pos) charge). by rewrite E. }
  split; [done|]. intros status body ->. split.
  - intros ->. apply fs_end in E. cbn in E. rewrite Hc in E. lia.
  - intros -> resp Hu. destruct (fs_read _ _ _ _ _ _ _ E Hu) as (Hpre & Hl & Hne). cbn in *.
    rewrite Hc in Hpre. destruct (prefix_slice F _ pos ltac:(lia) Hpre) as [Hs Hle].
    split_and!; [by apply Hne|done|by apply Hle, Hne|done].
Qed.

Lemma read_at_loop_correct fuel rd end_ pos out F w r w' :
  content (w_conn w) (fr_file_id rd) = F → 0 <= pos <= end_ → end_ <= len F →
  0 < fr_max_read rd < 2 ^ 32 → end_ - pos <= Z.of_nat fuel →
  read_at_loop fuel rd end_ pos out w = Some (r, w') →
  r ≠ Panic ∧ content (w_conn w') (fr_file_id rd) = F ∧ ∀ d, r = Ok d → d = out ++ subslice F pos end_.
Proof.
  revert pos out w. induction fuel as [|fuel IH]; intros pos out w Hc Hp He Hm Hf; cbn [read_at_loop];
    destruct (pos <? end_) eqn:E; bool_prop; try lia.
  1, 3: (assert (pos = end_) as -> by lia; intros [= <- <-]; split; [done|]; split; [done|];
         intros d [= <-]; unfold subslice; by rewrite Z.sub_diag, app_nil_r).
  rewrite trunc_small by (unfold in_range; lia).
  intros [([status body] & w1 & Ex & Ek)|[(e & Ex & ->)|[Ex ->]]]%io_bind_inv;
    (eapply (read_step _ _ F) in Ex as (Hnp & Hc1 & _ & Hans); [|done|lia|lia]); [|done|done].
  destruct (Hans _ _ eq_refl) as [Hne Hok].
  replace (status =? NtStatus.END_OF_FILE) with false in Ek by (symmetry; by apply Z.eqb_neq).
  destruct (status =? NtStatus.SUCCESS) eqn:Es; cbn [negb] in Ek; [|by injection Ek as <- <-]. bool_prop.
  unfold mbind, io_bind, io_lift in Ek.
  destruct (unpack_body ReadResponse body) as [resp|e|] eqn:Eu;
    [|by injection Ek as <- <-|by apply (unpack_body_no_panic ReadResponse) in Eu].
  destruct (Hok Es resp eq_refl) as (Hd & Hl & Hin & Hs). set (n := len (rdr_data resp)) in *.
  assert (0 < n) by (unfold n; destruct (rdr_data resp); [done|rewrite len_cons; pose proof (len_nonneg l); lia]).
  replace (is_empty (rdr_data resp)) with false in Ek by (by destruct (rdr_data resp)).
  apply IH in Ek as (Hnp' & Hc' & Hd'); [|done|lia..].
  split; [done|]. split; [done|]. intros d ->%Hd'. rewrite <- app_assoc. f_equal. rewrite Hs.
  apply subslice_join; lia.
Qed.

Lemma framed_read_at_loop fuel rd end_ pos out : framed (read_at_loop (C:=C) fuel rd end_ pos out).
Proof.
  revert pos out. induction fuel as [|fuel IH]; intros pos out; cbn [read_at_loop];
    (apply framed_if; [|auto with smb]); [auto with smb|].
  apply framed_bind; [apply framed_execute|]. intros []. apply framed_if; [auto with smb|].
  apply framed_if; [auto with smb|]. apply framed_bind; [auto with smb|]. intros resp.
  apply framed_if; auto with smb.
Qed.

End readers.

(** [read_at] reads like [pread]: it always returns, never panics and never
    changes the file, and the bytes it returns are exactly those of the range
    clamped to the file, whatever the sizes of the server's answers. *)
Theorem read_at_correct {C} `{FileServer C} rd offset length (w : World C) :
  fr_file_size rd = len (content (w_conn w) (fr_file_id rd)) → 0 < fr_max_read rd < 2 ^ 32 →
  0 <= offset → 0 <= length →
  ∃ r w', read_at rd offset length w = Some (r, w') ∧ r ≠ Panic ∧
    content (w_conn w') (fr_file_id rd) = content (w_conn w) (fr_file_id rd) ∧
    ∀ d, r = Ok d → d = take (Z.to_nat length) (drop (Z.to_nat offset) (content (w_conn w) (fr_file_id rd))).
Proof.
  intros Hs Hm Ho Hl. unfold read_at. set (F := content _ _) in *. case_test; bool_prop.
  - exists (Ok []), w. split; [done|]. split; [done|]. split; [done|]. intros d [= <-].
    destruct Heqb as [Hz|Hz]; bool_prop; [subst; done|].
    rewrite drop_ge, take_nil by (unfold len in *; lia). done.
  - set (n := Z.min _ _). assert (0 < n <= len F - offset) as Hn by lia.
    destruct w as [c evs]. destruct (framed_read_at_loop (Z.to_nat n) rd (offset + n) offset [] c) as (r & c' & E).
    specialize (E evs). exists r, (mkWorld c' evs). split; [done|].
    apply (read_at_loop_correct _ _ _ _ _ F) in E as (Hnp & Hc & Hd); [|done|lia..].
    split; [done|]. split; [done|]. intros d ->%Hd. cbn. unfold subslice. rewrite Z.add_simpl_l.
    unfold n, len in *. destruct (Z.le_gt_cases length (fr_file_size rd - offset)).
    + by rewrite Z.min_l by lia.
    + rewrite Z.min_r by lia. rewrite !take_ge; rewrite ?length_drop; [done|lia|lia].
Qed.

Lemma read_at_correct_witness :
  ∃ r w', read_at (FileReader_new share handle 5 65536) 1 10
            (mkWorld (disk_of 2 [x01; x02; x03; x04; x05]) []) = Some (r, w') ∧
          r = Ok [x02; x03; x04; x05].
Proof.
  assert (0 < 65536 < 2 ^ 32) as Hm by lia. assert (0 <= 1) as H1 by lia. assert (0 <= 10) as H2 by lia.
  assert (fr_file_size (FileReader_new share handle 5 65536)
          = len (content (disk_of 2 [x01; x02; x03; x04; x05]) handle)) as Hs by reflexivity.
  destruct (read_at_correct (FileReader_new share handle 5 65536) 1 10
    (mkWorld (disk_of 2 [x01; x02; x03; x04; x05]) []) Hs Hm H1 H2) as (r & w' & E & _ & _ & Hd).
  exists r, w'. split; [exact E|]. vm_compute in E. injection E as <- _. by rewrite (Hd _ eq_refl).
Defined.

(** ** Downloads *)

(** A request whose failure is looked at instead of returned. *)
Lemma attempt_executed {S C} `{FileServer C} t op n (s : S) (w : World C) r sw' :
  attempt (on_conn (execute_charged (tree_id t) op n)) (s, w) = Some (r, sw') →
  ∃ re w1, r = Ok re ∧ re ≠ Panic ∧ sw' = (s, w1) ∧ execute_charged (tree_id t) op n w = Some (re, w1).
Proof.
  intros (re & E & Hr)%attempt_inv. unfold on_conn in E. cbn [fst snd] in E.
  destruct (execute_charged _ _ _ _) as [[re' we]|] eqn:Ee; [|done]. simplify_eq.
  pose proof Ee as (_ & _ & Hnp)%execute_inv. destruct Hr as [[? _]|[_ ->]]; [done|].
  by exists re, we.
Qed.

Section downloads.
Context {C : Type} `{FileServer C}.
Context (t : Tree) (fid : FileId) (F : bytes) (cs : Z).
Context (Hcs : 0 < cs < 2 ^ 32).

(** [got] bytes received, the handle still open on this side. *)
Definition downloading (got : Z) (sw : FileDownload * World C) : Prop :=
  sw.1 = mkFileDownload t fid (len F) got cs false ∧ 0 <= got <= len F ∧
  content (w_conn sw.2) fid = F.

(** The whole file received and the handle closed. *)
Definition downloaded (sw : FileDownload * World C) : Prop :=
  fd_done sw.1 = true ∧ content (w_conn sw.2) fid = F ∧ is_open (w_conn sw.2) fid = false.

Lemma fd_close_spec got sw r sw' :
  downloading got sw → attempt fd_close sw = Some (r, sw') →
  ∃ rc, r = Ok rc ∧ rc ≠ Panic ∧ (rc = Ok tt → downloaded sw').
Proof.
  destruct sw as [d w]. intros (Hd & _ & Hc) (rc & E & Hr)%attempt_inv. cbn in Hd, Hc. subst d.
  unfold fd_close, mbind, io_bind, self, set_self, on_conn in E. cbn [fd_done fst snd fd_tree fd_file_id] in E.
  destruct (close_handle t fid w) as [[rc' w1]|] eqn:Ec; [|done]. injection E as <- <-.
  apply close_handle_spec in Ec as (Hnp & Hk & Hcl). destruct Hr as [[? _]|[_ ->]]; [done|].
  exists rc'. split; [done|]. split; [done|]. intros ->. split; [done|]. cbn. rewrite Hk. auto.
Qed.

Lemma next_chunk_spec got sw r sw' :
  downloading got sw → next_chunk sw = Some (r, sw') →
  ∃ o, r = Ok o ∧ o ≠ Some Panic ∧
    match o with
    | None => got = len F ∧ downloaded sw'
    | Some (Ok d) => 0 < len d ∧ d = subslice F got (got + len d) ∧ got + len d <= len F ∧
        (downloading (got + len d) sw' ∧ got + len d < len F ∨ downloaded sw' ∧ got + len d = len F)
    | Some _ => True
    end.
Proof.
  intros Hdl E. pose proof Hdl as (Hd & Hg & Hc). destruct sw as [d w]. cbn in Hd, Hc. subst d.
  unfold next_chunk, mbind at 1, io_bind at 1, self in E.
  cbn [fst fd_done fd_file_size fd_bytes_received fd_chunk_size fd_tree fd_file_id] in E.
  unfold sat_sub in E. destruct (Z.max 0 (len F - got) =? 0) eqn:Ez; bool_prop.
  - apply io_bind_inv in E as [(rc & w1 & Ec & E)|[(e & Ec & ->)|[Ec ->]]];
      apply (fd_close_spec got) in Ec as (rc' & ? & Hnp & Hcl); try done; simplify_eq.
    destruct rc' as [[]|e|]; [|by injection E as <- <-; eexists|done].
    injection E as <- <-. exists None. split; [done|]. split; [done|]. split; [lia|by apply Hcl].
  - rewrite trunc_small in E by (unfold in_range; lia).
    apply io_bind_inv in E as [(rx & sw1 & Ex & E)|[(e & Ex & ->)|[Ex ->]]];
      apply attempt_executed in Ex as (re & w1 & Er & Hnp & -> & Ex); simplify_eq.
    apply (read_step t fid F) in Ex as (_ & Hc1 & _ & Hans); [|done|lia|lia].
    destruct re as [[status body]|e|]; [|by injection E as <- <-; eexists|done].
    destruct (Hans _ _ eq_refl) as [Hne Hok].
    replace (status =? NtStatus.END_OF_FILE) with false in E by (symmetry; by apply Z.eqb_neq).
    destruct (status =? NtStatus.SUCCESS) eqn:Es; cbn [negb] in E; [|by injection E as <- <-; eexists].
    bool_prop. destruct (unpack_body ReadResponse body) as [resp|e|] eqn:Eu;
      [|by injection E as <- <-; eexists|by apply (unpack_body_no_panic ReadResponse) in Eu].
    destruct (Hok Es resp eq_refl) as (Hd & Hl & Hin & Hs).
    replace (is_empty (rdr_data resp)) with false in E by (by destruct (rdr_data resp)).
    assert (0 < len (rdr_data resp)) as Hpos
      by (destruct (rdr_data resp); [done|rewrite len_cons; pose proof (len_nonneg l); lia]).
    assert (downloading (got + len (rdr_data resp)) (mkFileDownload t fid (len F) (got + len (rdr_data resp)) cs false, w1))
      as Hdl' by (split; [done|]; split; [lia|done]).
    unfold mbind at 1, io_bind at 1, set_self at 1 in E. cbn [fd_file_size fd_bytes_received fd_receive snd] in E.
    destruct (len F <=? got + len (rdr_data resp)) eqn:El; bool_prop.
    + apply io_bind_inv in E as [(rc & w2 & Ec & E)|[(e & Ec & ->)|[Ec ->]]];
        apply (fd_close_spec (got + len (rdr_data resp))) in Ec as (rc' & ? & Hnpc & Hcl); try done; simplify_eq.
      destruct rc' as [[]|e|]; [|by injection E as <- <-; eexists|done].
      injection E as <- <-. eexists. split; [done|]. split; [done|]. split_and!; [done..|].
      right. split; [by apply Hcl|lia].
    + injection E as <- <-. eexists. split; [done|]. split; [done|]. split_and!; [done..|by left].
Qed.

Lemma collect_loop_correct fuel got sw r sw' :
  downloading got sw → len F - got + 1 < Z.of_nat fuel →
  collect_loop fuel (subslice F 0 got) sw = Some (r, sw') →
  r ≠ Panic ∧ ∀ d, r = Ok d → d = F ∧ downloaded sw'.
Proof.
  revert got sw. induction fuel as [|fuel IH]; intros got sw Hdl Hf; pose proof Hdl as (_ & Hg & _);
    [lia|]. cbn [collect_loop].
  assert (subslice F 0 (len F) = F) as Hall
    by (unfold subslice, len; rewrite drop_0, take_ge by lia; done).
  intros [(o & sw1 & En & Ek)|[(e & En & ->)|[En ->]]]%io_bind_inv;
    apply (next_chunk_spec got) in En as (o' & ? & Hnp & Ho); try done; simplify_eq.
  destruct o' as [[d|e|]|]; [|by injection Ek as <- <-|done|].
  - destruct Ho as (Hd & Hs & Hle & Hnext). unfold mbind, io_bind, io_lift in Ek.
    assert (subslice F 0 got ++ d = subslice F 0 (got + len d)) as Happ
      by (rewrite Hs at 1; apply subslice_join; lia).
    rewrite Happ in Ek. destruct Hnext as [[Hdl' Hlt]|[Hdone Heq]]; [eapply IH; [exact Hdl'|lia|done]|].
    rewrite Heq, Hall in Ek. destruct fuel as [|fuel]; [lia|]. cbn [collect_loop] in Ek.
    destruct sw1 as [d1 w1]. pose proof Hdone as (Hfd & _). cbn in Hfd.
    unfold mbind, io_bind, next_chunk, self, mbind, io_bind in Ek. cbn [fst] in Ek. rewrite Hfd in Ek.
    injection Ek as <- <-. split; [done|]. by intros ? [= <-].
  - destruct Ho as [-> Hdone]. injection Ek as <- <-. split; [done|]. intros d [= <-].
    by rewrite Hall.
Qed.

End downloads.

(** Every step of a download waits for nothing but its own request. *)
Lemma framed_on_conn {S C A} (m : io (World C) A) (s : S) c evs :
  framed m → ∃ r c', on_conn m (s, mkWorld c evs) = Some (r, (s, mkWorld c' evs)).
Proof. intros Hm. destruct (Hm c) as (r & c' & E). exists r, c'. unfold on_conn. cbn. by rewrite E. Qed.

Lemma prompt_on_conn {S C A} (m : io (World C) A) : framed m → prompt (on_conn (S:=S) m).
Proof. intros Hm [s [c evs]]. destruct (framed_on_conn m s c evs Hm) as (r & c' & ->). by eexists. Qed.
Lemma prompt_bind {W A B} (m : io W A) (k : A → io W B) :
  prompt m → (∀ a, prompt (k a)) → prompt (m ≫= k).
Proof.
  intros Hm Hk w. unfold mbind, io_bind. destruct (Hm w) as [[[a|e|] w1] ->]; [apply Hk|by eexists..].
Qed.
Lemma prompt_attempt {W A} (m : io W A) : prompt m → prompt (attempt m).
Proof. intros Hm w. unfold attempt. destruct (Hm w) as [[[] ?] ->]; by eexists. Qed.
Lemma prompt_now {W A} (m : io W A) : (∀ w, is_Some (m w)) → prompt m.
Proof. done. Qed.

Lemma prompt_fd_close {C} `{Wire C} : prompt (fd_close (C:=C)).
Proof.
  apply prompt_bind; [by eexists|]. intros d. case_test; [by eexists|].
  apply prompt_bind; [by eexists|]. intros _. apply prompt_on_conn, framed_close_handle.
Qed.

Lemma prompt_next_chunk {C} `{Wire C} : prompt (next_chunk (C:=C)).
Proof.
  apply prompt_bind; [by eexists|]. intros d. case_test; [by eexists|]. cbv zeta. case_test.
  { apply prompt_bind; [apply prompt_attempt, prompt_fd_close|]. intros []; by eexists. }
  apply prompt_bind; [apply prompt_attempt, prompt_on_conn, framed_execute|].
  intros [[status body]|e|]; [|by eexists..].
  case_test; [apply prompt_bind; [apply prompt_attempt, prompt_fd_close|by eexists]|].
  case_test; [by eexists|]. destruct (unpack_body _ _) as [resp|e|]; [|by eexists..].
  case_test; [apply prompt_bind; [apply prompt_attempt, prompt_fd_close|by eexists]|].
  apply prompt_bind; [by eexists|]. intros _. case_test; [|by eexists].
  apply prompt_bind; [apply prompt_attempt, prompt_fd_close|]. intros []; by eexists.
Qed.

Lemma prompt_collect {C} `{Wire C} : prompt (collect (C:=C)).
Proof.
  apply prompt_bind; [by eexists|]. intros d. generalize (Z.to_nat (fd_file_size d) + 2)%nat as n.
  intros n. generalize (@nil byte) as data. induction n as [|n IH]; intros data; [by eexists|].
  cbn [collect_loop]. apply prompt_bind; [apply prompt_next_chunk|].
  intros [r|]; [|by eexists]. apply prompt_bind; [by eexists|]. intros chunk. apply IH.
Qed.

(** Downloading a file to its end gives exactly its content, whatever the
    sizes of the server's answers, and leaves the handle closed; it never panics,
    that is, the rounds allowed are enough, and it always returns. *)
Theorem download_correct {C} `{FileServer C} t path (w : World C) fd w1 :
  download t path w = Some (Ok fd, w1) →
  ∃ r fd' w', collect (fd, w1) = Some (r, (fd', w')) ∧ r ≠ Panic ∧
    ∀ data, r = Ok data → data = content (w_conn w1) (fd_file_id fd) ∧
      content (w_conn w') (fd_file_id fd) = data ∧ is_open (w_conn w') (fd_file_id fd) = false.
Proof.
  intros [([fid size] & w0 & (_ & _ & Hsz)%open_file_spec & Ek)|[(e & _ & ?)|[_ ?]]]%io_bind_inv; [|done|done].
  specialize (Hsz _ _ eq_refl). unfold mbind, io_bind, max_read_size in Ek. injection Ek as <- <-.
  set (cs := match _ with Some _ => _ | None => _ end). cbn [fd_file_id FileDownload_new].
  assert (65536 <= cs < 2 ^ 32) as Hcs
    by (unfold cs; destruct (transfer_sizes (w_conn w0)) as [[r s]|] eqn:E; [by apply fs_sizes in E as []|lia]).
  destruct (prompt_collect (FileDownload_new t fid size cs, w0)) as [[r [fd' w']] Ec].
  exists r, fd', w'. split; [done|]. subst size.
  unfold collect, mbind, io_bind, self in Ec. cbn [fst fd_file_size FileDownload_new] in Ec.
  apply (collect_loop_correct t fid (content (w_conn w0) fid) cs ltac:(lia) _ 0) in Ec as [Hnp Hd].
  - split; [done|]. intros data [-> (_ & ? & ?)]%Hd. auto.
  - split; [done|]. split; [|done]. pose proof (len_nonneg (content (w_conn w0) fid)). lia.
  - pose proof (len_nonneg (content (w_conn w0) fid)). lia.
Qed.

Lemma download_correct_witness :
  ∃ fd w1, download share [0x66] (mkWorld (disk_of 2 [x01; x02; x03]) []) = Some (Ok fd, w1) ∧
    ∃ r fd' w', collect (fd, w1) = Some (r, (fd', w')) ∧ r ≠ Panic ∧
      (∀ data, r = Ok data → data = content (w_conn w1) (fd_file_id fd) ∧
        content (w_conn w') (fd_file_id fd) = data ∧ is_open (w_conn w') (fd_file_id fd) = false).
Proof.
  destruct (download share [0x66] (mkWorld (disk_of 2 [x01; x02; x03]) [])) as [[r w1]|] eqn:E;
    [|by vm_compute in E].
  destruct r as [fd|e|]; [|by vm_compute in E..]. exists fd, w1. split; [reflexivity|].
  exact (download_correct share [0x66] _ fd w1 E).
Defined.
