(* ===== verification/Upload.v ===== *)
(** * Chunked uploads ([FileUpload] of [src/client/stream.rs], and
    [SmbClient::upload] and [write_file_with_progress] of [src/client/mod.rs])

    An upload writes one chunk per call from where the server's last count
    ended, so a short write is continued, not skipped; the last call flushes and
    closes.  [write_file_with_progress] advances by what it sent instead. *)

From S2P Require Import Prelude Types Pack Codec Name Header FileIo Create Pipeline Transfer Tree Disk Stream Triple Readers.

Section operations.
Context {C : Type} `{Wire C}.

(** [SmbClient::upload], on the connection of the client. *)
Definition upload (t : Tree) (path : list Z) (data : bytes) : io (World C) FileUpload :=
  max_write ← max_write_size;
  if len data <=? max_write then
    write_file_compound t path data ;; mret (FileUpload_new_done t (len data))
  else
    file_id ← open_file_for_write t path;
    mret (FileUpload_new t file_id data (trunc 32 max_write)).

(** The [while offset < data.len()] loop; [true] when the callback cancelled.
    A round advances by at least a byte, so a round per byte is enough. *)
Fixpoint progress_write_loop (fuel : nat) (t : Tree) (file_id : FileId) (data : bytes) (max_write : Z)
    (on_progress : list Progress → bool) (total_written offset : Z) (shown : list Progress) :
    io (World C) (Z * bool) :=
  if offset <? len data then
    match fuel with
    | O => io_lift Panic
    | S fuel =>
        let remaining := len data - offset in
        let chunk_size := Z.min remaining max_write in
        let chunk := subslice data offset (offset + chunk_size) in
        '(status, body) ← execute_charged (tree_id t)
           (OpWrite (write_request file_id offset chunk)) (charge_of chunk_size);
        if negb (status =? NtStatus.SUCCESS) then
          attempt (close_handle t file_id) ;; io_err (Protocol status Write)
        else
          resp ← io_lift (unpack_body WriteResponse body);
          let total_written := total_written + wrr_count resp in
          let shown := shown ++ [mkProgress total_written (Some (len data))] in
          if on_progress shown then mret (total_written, true)
          else progress_write_loop fuel t file_id data max_write on_progress total_written
                 (offset + chunk_size) shown
    end
  else mret (total_written, false).

Definition write_file_with_progress (t : Tree) (path : list Z) (data : bytes)
    (on_progress : list Progress → bool) : io (World C) Z :=
  create_resp ← open_with t (write_create (format_path t path) FileOverwriteIf);
  let file_id := crr_file_id create_resp in
  max_write ← max_write_size;
  '(total_written, cancelled) ←
     progress_write_loop (length data) t file_id data max_write on_progress 0 0 [];
  if (cancelled : bool) then attempt (close_handle t file_id) ;; io_err Cancelled
  else
    flush_handle t file_id ;;
    close_handle t file_id ;;
    mret total_written.

End operations.

(** ** Uploads are exact *)

(** Two writes end to end are one. *)
Lemma patched_extend old mid new d k n :
  0 <= k → 0 <= n → k + n <= len d →
  patched old mid 0 (take (Z.to_nat k) d) → patched mid new k (take (Z.to_nat n) (drop (Z.to_nat k) d)) →
  patched old new 0 (take (Z.to_nat (k + n)) d).
Proof.
  intros Hk Hn Hle (Hl1 & Hi1 & Ho1) (Hl2 & Hi2 & Ho2).
  assert (∀ j, 0 <= j <= len d → len (take (Z.to_nat j) d) = j) as Hlt
    by (intros j Hj; unfold len in *; rewrite length_take; lia).
  assert (len (take (Z.to_nat n) (drop (Z.to_nat k) d)) = n) as Hld
    by (unfold len in *; rewrite length_take, length_drop; lia).
  unfold patched. rewrite (Hlt (k + n)) by lia. rewrite (Hlt k) in * by lia. rewrite Hld in *.
  assert (∀ (l : bytes) j, len l = j → is_empty l = (j =? 0)) as Hemp.
  { intros [|b l] j <-; cbn; [done|]. rewrite len_cons. pose proof (len_nonneg l). symmetry. lia. }
  rewrite (Hemp _ k) in Hl1 by (apply Hlt; lia). rewrite (Hemp _ n Hld) in Hl2.
  split; [rewrite (Hemp _ (k + n)) by (apply Hlt; lia); pose proof (len_nonneg old);
          destruct (k =? 0) eqn:E1, (n =? 0) eqn:E2, (k + n =? 0) eqn:E3; bool_prop; lia|].
  assert (k <= len mid) as Hmid by (pose proof (len_nonneg old); destruct (k =? 0) eqn:E1; bool_prop; lia).
  split.
  - intros i Hi. rewrite lookup_take_lt by lia. destruct (Z.lt_ge_cases i k).
    + rewrite Z.add_0_l, Ho2 by lia. specialize (Hi1 i ltac:(lia)). rewrite Z.add_0_l in Hi1.
      rewrite Hi1. apply lookup_take_lt. lia.
    + specialize (Hi2 (i - k) ltac:(lia)). replace (k + (i - k)) with i in Hi2 by lia.
      rewrite Z.add_0_l, Hi2, lookup_take_lt, lookup_drop by lia. f_equal. lia.
  - intros i Hi Hn'. rewrite Ho2; [apply Ho1; lia| |lia]. rewrite Hl1. destruct (k =? 0); lia.
Qed.

Section uploads.
Context {C : Type} `{FileServer C}.
Context (t : Tree) (fid : FileId) (old data : bytes) (cs : Z) (Hcs : 0 < cs).

(** [k] bytes written, the upload not finished. *)
Definition uploading (k : Z) (sw : FileUpload * World C) : Prop :=
  sw.1 = mkFileUpload t fid data (len data) k cs false ∧ 0 <= k <= len data ∧
  patched old (content (w_conn sw.2) fid) 0 (take (Z.to_nat k) data).

(** Everything written and flushed, the handle closed. *)
Definition uploaded (sw : FileUpload * World C) : Prop :=
  fu_done sw.1 = true ∧ fu_bytes_written sw.1 = len data ∧ is_open (w_conn sw.2) fid = false ∧
  patched old (content (w_conn sw.2) fid) 0 data.

Lemma flush_and_close_spec sw r sw' :
  uploading (len data) sw → flush_and_close sw = Some (r, sw') → r ≠ Panic ∧ (r = Ok tt → uploaded sw').
Proof.
  destruct sw as [u w]. intros (Hu & _ & Hp). cbn in Hu, Hp. subst u.
  replace (take (Z.to_nat (len data)) data) with data in Hp by (symmetry; apply take_ge; unfold len; lia).
  unfold flush_and_close, mbind, io_bind, self, set_self, on_conn. cbn [fst snd fu_done fu_tree fu_file_id].
  destruct (flush_handle t fid w) as [[[[]|e|] w1]|] eqn:Ef; [| | |done];
    apply flush_handle_spec in Ef as [Hnp Hk]; [|by intros [= <- <-]|done].
  cbn [fst snd]. destruct (close_handle t fid w1) as [[rc w2]|] eqn:Ec; [|done]. intros [= <- <-].
  apply close_handle_spec in Ec as (Hnc & Hk2 & Hcl). split; [done|]. intros ->.
  split_and!; [done|done|by apply Hcl|cbn; by rewrite Hk2, Hk].
Qed.

Lemma last_chunk_spec sw r sw' :
  uploading (len data) sw → (flush_and_close ;; mret false) sw = Some (r, sw') →
  r ≠ Panic ∧ r ≠ Ok true ∧ (r = Ok false → uploaded sw' ∧ write_next_chunk sw' = Some (Ok false, sw')).
Proof.
  intros Hup [([] & sw3 & E & Ek)|[(e & E & ->)|[E ->]]]%io_bind_inv;
    eapply flush_and_close_spec in E as [Hnp Hdone]; try done.
  injection Ek as <- <-. specialize (Hdone eq_refl). split; [done|]. split; [done|]. intros _. split; [done|].
  destruct sw3 as [u3 w3]. destruct Hdone as [Hd _]. cbn in Hd.
  unfold write_next_chunk, mbind, io_bind, self. cbn [fst]. by rewrite Hd.
Qed.

Lemma refused_chunk_spec (u : FileUpload) status :
  triple (λ _, True)
    (set_self u ;; attempt (on_conn (close_handle t fid)) ;; io_err (Protocol status Write)
       : io (FileUpload * World C) bool) (λ _ _, False).
Proof. repeat (apply safe_bind; [auto with smb|intros ?]). apply triple_err. Qed.

End uploads.

(** A call of [write_next_chunk] on an upload with [k] bytes written never
    panics; when it asks to be called again it has written some number of
    further bytes, and the file is the old one with the first of them all
    replaced; when it reports completion, the file holds the whole data, flushed,
    the handle is closed, and further calls do nothing. *)
Theorem upload_step_correct {C} `{FileServer C} t fid old data cs k (sw : FileUpload * World C) r sw' :
  0 < cs → uploading t fid old data cs k sw → write_next_chunk sw = Some (r, sw') →
  r ≠ Panic ∧
  (r = Ok true → ∃ n, 0 <= n ∧ k + n < len data ∧ uploading t fid old data cs (k + n) sw') ∧
  (r = Ok false → uploaded fid old data sw' ∧ write_next_chunk sw' = Some (Ok false, sw')).
Proof.
  intros Hcs Hup. pose proof Hup as (Hu & Hk & Hp). destruct sw as [u w]. cbn in Hu, Hp. subst u.
  unfold write_next_chunk, mbind at 1, io_bind at 1, self at 1.
  cbn [fst fu_done fu_bytes_written fu_data fu_tree fu_file_id fu_chunk_size].
  destruct (len data <=? k) eqn:E; bool_prop.
  { assert (k = len data) as -> by lia. intros Ek. eapply last_chunk_spec in Ek as (? & ? & ?); [|done].
    split; [done|]. split; [by intros ?|done]. }
  set (n := Z.min (len data - k) cs). intros Ek.
  apply io_bind_inv in Ek as [(rx & sw1 & Ex & Ek)|[(e & Ex & ->)|[Ex ->]]];
    apply attempt_executed in Ex as (re & w1 & Er & Hnp & -> & Ex); simplify_eq.
  destruct re as [[status body]|e|]; [|by injection Ek as <- <-|done].
  destruct (status =? NtStatus.SUCCESS) eqn:Es; cbn [negb] in Ek; bool_prop.
  - subst status. apply execute_inv in Ex as (Ex & _ & _).
    apply io_bind_inv in Ek as [(resp & sw2 & E2 & Ek)|[(e & E2 & ->)|[E2 ->]]];
      unfold io_lift in E2; injection E2 as Eu <-; [|done|by apply (unpack_body_no_panic WriteResponse) in Eu].
    destruct (fs_write _ _ _ _ _ _ _ Ex Eu) as [Hc Hw]. cbn [wrq_data wrq_offset wrq_file_id write_request w_conn] in Hc, Hw.
    assert (len (subslice data k (k + n)) = n) as Hln by (rewrite len_subslice; lia). rewrite Hln in Hc.
    replace (take (Z.to_nat (wrr_count resp)) (subslice data k (k + n)))
      with (take (Z.to_nat (wrr_count resp)) (drop (Z.to_nat k) data)) in Hw
      by (unfold subslice; rewrite take_take; f_equal; lia).
    assert (uploading t fid old data cs (k + wrr_count resp)
              (mkFileUpload t fid data (len data) (k + wrr_count resp) cs false, w1)) as Hup'.
    { split; [done|]. split; [lia|]. eapply patched_extend; [lia..|exact Hp|exact Hw]. }
    unfold mbind at 1, io_bind at 1, set_self at 1 in Ek. cbn [snd fu_total_bytes fu_bytes_written fu_wrote] in Ek.
    destruct (len data <=? k + wrr_count resp) eqn:El; bool_prop.
    + assert (k + wrr_count resp = len data) as Heq by lia.
      rewrite Heq in Hup'. eapply last_chunk_spec in Ek as (? & ? & ?); [|unfold fu_wrote; cbn; by rewrite Heq]. split; [done|]. split; [by intros ?|done].
    + injection Ek as <- <-. split; [done|]. split; [|done]. intros _.
      exists (wrr_count resp). split; [lia|]. split; [lia|done].
  - destruct (refused_chunk_spec t fid _ status _ _ _ I Ek) as [? Hno]. split; [done|].
    split; intros ->; by destruct (Hno _ eq_refl).
Qed.

Lemma upload_step_correct_witness :
  ∃ sw', write_next_chunk (FileUpload_new share handle [x01; x02; x03] 65536, mkWorld (disk_of 2 []) [])
           = Some (Ok true, sw') ∧
         ∃ n, 0 <= n ∧ 0 + n < 3 ∧ uploading share handle [] [x01; x02; x03] 65536 (0 + n) sw'.
Proof.
  destruct (write_next_chunk (FileUpload_new share handle [x01; x02; x03] 65536, mkWorld (disk_of 2 []) []))
    as [[r sw']|] eqn:E; [|by vm_compute in E].
  assert (r = Ok true) as -> by (vm_compute in E; congruence).
  assert (0 < 65536) as Hcs by lia.
  assert (uploading share handle [] [x01; x02; x03] 65536 0
    (FileUpload_new share handle [x01; x02; x03] 65536, mkWorld (disk_of 2 []) [])) as Hup.
  { split; [reflexivity|]. split; [done|]. split; [done|].
    split; intros i [Hi0 Hi1]; exfalso; revert Hi1; apply Z.le_ngt; exact Hi0. }
  destruct (upload_step_correct share handle [] [x01; x02; x03] 65536 0 _ _ _ Hcs Hup E) as (_ & Ht & _).
  exists sw'. split; [reflexivity|]. exact (Ht eq_refl).
Defined.

(** Two of five bytes are stored, and the write succeeds with a count of two; the
    same data through a [FileUpload] is asked for again from there. *)
Example short_write_is_not_resumed :
  option_map (λ rw, (rw.1, d_bytes (w_conn rw.2)))
    (write_file_with_progress share [0x66] [x01; x02; x03; x04; x05] (λ _, false)
       (mkWorld (disk_of 2 []) []))
  = Some (Ok 2, [x01; x02]).
Proof. by vm_compute. Qed.
