(* ===== verification/Writer.v ===== *)
(** * The push-based writer ([FileWriter] of [src/client/stream.rs])

    What a program that pushes chunks and finishes leaves in the file, under
    every order in which the server processes the WRITEs and the answers come
    back; that the window is never exceeded and no chunk is ever stashed; and
    that the writer returns once its requests are served.

    The methods are specified by triples: [triple P m Q] for what holds when a
    call returns, [serves P n m] for how many services it may wait for. *)

From S2P Require Import Prelude Types Pack Codec Name Header FileIo Create Pipeline Transfer Tree Disk Stream Triple.

(** ** Services waited for *)

(** [m] returns once [n] more requests are served, or with an error after at
    most a window more. *)
Definition serves {S C A} (P : S * World C → Prop) (n : nat) (m : io (S * World C) A) : Prop :=
  ∀ s c evs k, P (s, mkWorld c (evs ++ service k)) → (n + MAX_PIPELINE_WINDOW <= k)%nat →
  ∃ r sw', m (s, mkWorld c (evs ++ service k)) = Some (r, sw') ∧
    ∀ a, r = Ok a → ∃ evs' k', w_events sw'.2 = evs' ++ service k' ∧ (k <= k' + n)%nat.

Lemma serves_bind {S C A B} (P : S * World C → Prop) n1 n2 (m : io (S * World C) A) R (k : A → io (S * World C) B) :
  triple P m R → serves P n1 m → (∀ a, serves (R a) n2 (k a)) → serves P (n1 + n2) (m ≫= k).
Proof.
  intros Ht Hm Hk s c evs j HP Hj.
  destruct (Hm s c evs j HP ltac:(lia)) as (r & [s1 [c1 e1]] & E & Hc).
  destruct (Ht _ _ _ HP E) as [_ HR]. unfold mbind, io_bind. rewrite E.
  destruct r as [a|e|]; [|by eexists _, _..].
  destruct (Hc a eq_refl) as (evs1 & j1 & He & Hj1). cbn in He. subst e1.
  destruct (Hk a s1 c1 evs1 j1 (HR a eq_refl) ltac:(lia)) as (r2 & sw2 & E2 & Hc2).
  exists r2, sw2. split; [done|]. intros b Hb. destruct (Hc2 b Hb) as (evs2 & j2 & ? & ?).
  exists evs2, j2. split; [done|lia].
Qed.
Lemma serves_self {S C A} (P : S * World C → Prop) n (k : S → io (S * World C) A) :
  (∀ s, serves (λ sw, P sw ∧ sw.1 = s) n (k s)) → serves P n (self ≫= k).
Proof. intros Hk s c evs j HP Hj. by apply (Hk s s c evs j). Qed.
Lemma serves_set {S C A} (P : S * World C → Prop) n s (k : unit → io (S * World C) A) :
  serves (λ sw, ∃ s0, P (s0, sw.2) ∧ sw.1 = s) n (k tt) → serves P n (set_self s ≫= k).
Proof. intros Hk s0 c evs j HP Hj. apply (Hk s c evs j); [by exists s0|done]. Qed.
Lemma serves_now {S C A} (P : S * World C → Prop) n (m : io (S * World C) A) :
  (∀ s c evs, ∃ r s' c', m (s, mkWorld c evs) = Some (r, (s', mkWorld c' evs))) → serves P n m.
Proof.
  intros Hm s c evs k _ _. destruct (Hm s c (evs ++ service k)) as (r & s' & c' & E).
  exists r, (s', mkWorld c' (evs ++ service k)). split; [done|]. intros _ _. exists evs, k. split; [done|lia].
Qed.
Lemma serves_weaken {S C A} (P P' : S * World C → Prop) n n' (m : io (S * World C) A) :
  serves P' n' m → (∀ sw, P sw → P' sw) → (n' <= n)%nat → serves P n m.
Proof.
  intros Hm HP Hn s c evs k Hs Hk.
  destruct (Hm s c evs k (HP _ Hs) ltac:(lia)) as (r & sw' & E & Hc).
  exists r, sw'. split; [done|]. intros a Ha. destruct (Hc a Ha) as (evs' & k' & ? & ?).
  exists evs', k'. split; [done|lia].
Qed.
(** A step on the connection alone that waits for nothing. *)
Lemma serves_framed {S C A} (P : S * World C → Prop) n (m : io (World C) A) : framed m → serves P n (on_conn m).
Proof.
  intros Hm. apply serves_now. intros s c evs. destruct (Hm c) as (r & c' & E).
  unfold on_conn. cbn [snd fst]. rewrite E. by exists r, s, c'.
Qed.

(** ** The invariant *)

Section writer.
Context {C : Type} `{FileServer C}.
Context (t : Tree) (fid : FileId) (mw base : Z) (old : bytes).
Context (Hmw : 0 < mw) (Hbase : 0 <= base).

(** [log] has been launched, [pend] is buffered. *)
Record writer_ok (log pend : bytes) (sw : FileWriter * World C) : Prop := {
  wo_tree : fw_tree sw.1 = t;
  wo_file : fw_file_id sw.1 = fid;
  wo_max : fw_max_write_size sw.1 = mw;
  wo_offset : fw_offset sw.1 = base + len log;
  wo_stash : fw_stashed_chunk sw.1 = None;
  wo_window : (length (fw_in_flight sw.1) <= MAX_PIPELINE_WINDOW)%nat;
  wo_range : 0 <= fw_pending_offset sw.1 <= len (fw_pending_data sw.1);
  wo_pending : drop (Z.to_nat (fw_pending_offset sw.1)) (fw_pending_data sw.1) = pend;
  wo_wrote : wrote fid old base log (fw_total_written sw.1) (w_conn sw.2) (fw_in_flight sw.1)
}.

(** Waiting for an answer takes one request out of the window. *)
Lemma drain_one_spec log pend n :
  triple (λ sw, writer_ok log pend sw ∧ length (fw_in_flight sw.1) = n) drain_one
    (λ _ sw, writer_ok log pend sw ∧ length (fw_in_flight sw.1) = pred n).
Proof.
  intros [f w] r sw' [[Ht Hf Hm Ho Hst Hwin Hr Hp Hw] Hn] E. cbn [fst snd] in *.
  unfold drain_one, mbind at 1, io_bind at 1, self in E. cbn [fst] in E.
  apply io_bind_inv in E as [([o q] & [f1 w1] & En & E)|[(e & En & ->)|[En ->]]];
    unfold on_conn in En; cbn [fst snd] in En;
    destruct (next (fw_in_flight f) w) as [[rn w2]|] eqn:Ex; simplify_eq;
    pose proof (wrote_next fid old base Hbase _ _ _ _ _ _ Hw Ex) as Hx; [|done|done].
  unfold mbind at 1, io_bind at 1, set_self at 1 in E. cbn [snd] in E.
  destruct o as [[tag fr]|].
  - destruct Hx as (Hnp & Hl & Hk).
    unfold mbind at 1, io_bind at 1, io_lift at 1 in E. destruct fr as [[status body]|e|]; [| |done].
    2: { injection E as <- <-. done. }
    destruct (status =? NtStatus.SUCCESS) eqn:Es; cbn [negb] in E; bool_prop.
    + subst status. unfold mbind at 1, io_bind at 1, io_lift at 1 in E.
      destruct (unpack_body WriteResponse body) as [resp|e|] eqn:Eu;
        [|by injection E as <- <-|by apply (unpack_body_no_panic WriteResponse) in Eu].
      injection E as <- <-. destruct (Hk _ resp eq_refl Eu) as [_ Hw'].
      split; [done|]. intros _ _. split; [|cbn; lia]. constructor; cbn; try done. lia.
    + eapply (safe_bind _ _ (λ _ _, False)) in E as [Hs Hno]; [|auto with smb| |done].
      * split; [done|]. by intros [] ?%Hno.
      * intros _. repeat (apply safe_bind; [auto with smb|intros ?]). apply triple_err.
  - destruct Hx as (Hnil & -> & ->). injection E as <- <-. split; [done|]. intros _ _.
    rewrite Hnil in *. split; [constructor; cbn; try done; lia|done].
Qed.

Lemma launch_ok log pend d f w :
  writer_ok log pend (f, w) → (length (fw_in_flight f) < MAX_PIPELINE_WINDOW)%nat →
  writer_ok (log ++ d) pend (launch_wire_chunk f d, w).
Proof.
  intros [Ht Hf Hm Ho Hst Hwin Hr Hp Hw] Hl. cbn [fst snd] in *. constructor; cbn; try done.
  - rewrite Ho, len_app. lia.
  - rewrite length_app. cbn. lia.
  - by apply (wrote_launched fid old base log _ _ _ _ (write_request (fw_file_id f) (fw_offset f) d)).
Qed.

(** A full window is made room in. *)
Lemma make_room_spec log pend f0 :
  triple (λ sw, writer_ok log pend sw ∧ sw.1 = f0)
    (if (MAX_PIPELINE_WINDOW <=? length (fw_in_flight f0))%nat then drain_one else mret tt)
    (λ _ sw, writer_ok log pend sw ∧ (length (fw_in_flight sw.1) < MAX_PIPELINE_WINDOW)%nat).
Proof.
  apply triple_if; intros Hb.
  - intros sw r w' [Hok <-] E. pose proof (wo_window _ _ _ Hok) as Hwin.
    eapply drain_one_spec in E as [Hnp Hpost]; [|split; [exact Hok|reflexivity]].
    split; [done|]. intros a [Hok' Hl]%Hpost. split; [done|].
    rewrite Hl. unfold MAX_PIPELINE_WINDOW in *. lia.
  - apply Nat.leb_gt in Hb. intros sw r w' [Hok <-] [= <- <-]. split; [done|]. by intros _ _.
Qed.

(** A wire chunk is always sent, never stashed. *)
Lemma send_or_stash_spec log pend d :
  triple (writer_ok log pend) (send_or_stash d) (λ sent sw, sent = true ∧ writer_ok (log ++ d) pend sw).
Proof.
  apply triple_self. intros f0. eapply triple_bind; [apply make_room_spec|].
  intros []. apply triple_self. intros f [f1 w] r w' [[Hok Hl] Hf]. cbn in Hf, Hl. subst f1.
  unfold can_send. replace (length (fw_in_flight f) <? MAX_PIPELINE_WINDOW)%nat with true
    by (symmetry; by apply Nat.ltb_lt).
  intros [= <- <-]. split; [done|]. intros b [= <-]. split; [done|]. by apply launch_ok.
Qed.

Lemma flush_stash_spec log pend :
  triple (writer_ok log pend) flush_stash (λ _, writer_ok log pend).
Proof.
  apply triple_self. intros f [f1 w] r w' [Hok Hf] E. cbn in Hf. subst f1.
  pose proof (wo_stash _ _ _ Hok) as Hs. cbn in Hs. rewrite Hs in E. injection E as <- <-.
  split; [done|]. by intros _ _.
Qed.

Lemma next_pending_spec log pend f w :
  writer_ok log pend (f, w) →
  match next_pending_chunk f with
  | (None, f') => pend = [] ∧ f' = f
  | (Some d, f') => 0 < len d ∧ ∃ pend', pend = d ++ pend' ∧ writer_ok log pend' (f', w)
  end.
Proof.
  intros [Ht Hf Hm Ho Hst Hwin Hr Hp Hw]. cbn [fst snd] in *. unfold next_pending_chunk.
  case_test; bool_prop; [split; [|done]; rewrite <- Hp; apply drop_ge; unfold len in *; lia|].
  rewrite Hm. set (pd := fw_pending_data f) in *. set (po := fw_pending_offset f) in *.
  set (e := Z.min _ _).
  assert (drop (Z.to_nat po) pd = subslice pd po e ++ drop (Z.to_nat e) pd) as Hd.
  { unfold subslice. replace (Z.to_nat e) with (Z.to_nat po + Z.to_nat (e - po))%nat by lia.
    by rewrite <- drop_drop, take_drop. }
  split; [rewrite len_subslice by lia; lia|]. exists (drop (Z.to_nat e) pd).
  split; [congruence|]. case_test; bool_prop; constructor; cbn; try done; try lia.
  rewrite drop_nil, drop_ge by (unfold len in *; lia). done.
Qed.

(** Both loops over the pending data send all of it. *)
Lemma write_chunk_loop_spec fuel log pend :
  (length pend <= fuel)%nat →
  triple (writer_ok log pend) (write_chunk_loop fuel) (λ _, writer_ok (log ++ pend) []).
Proof.
  revert log pend. induction fuel as [|fuel IH]; intros log pend Hl; cbn [write_chunk_loop];
    apply triple_self; intros f [f1 w] r w' [Hok Hf] E; cbn in Hf; subst f1;
    pose proof (next_pending_spec _ _ _ _ Hok) as Hn; destruct (next_pending_chunk f) as [[d|] f'];
    unfold mbind at 1, io_bind at 1, set_self at 1 in E; cbn [snd] in E.
  - exfalso. destruct Hn as (Hd & pend' & -> & _). rewrite length_app in Hl. unfold len in Hd. lia.
  - destruct Hn as [-> ->]. injection E as <- <-. rewrite app_nil_r. split; [done|]. by intros _ _.
  - destruct Hn as (Hd & pend' & -> & Hok'). rewrite length_app in Hl. unfold len in Hd.
    refine (triple_bind _ _ _ _ (λ _, writer_ok (log ++ d ++ pend') [])
              (send_or_stash_spec log pend' d) _ _ _ _ Hok' E).
    intros sent. cbn beta. intros sw r1 w1 [-> Hok1]. cbn [negb]. rewrite app_assoc.
    apply IH; [lia|done].
  - destruct Hn as [-> ->]. injection E as <- <-. rewrite app_nil_r. split; [done|]. by intros _ _.
Qed.

Lemma finish_loop_spec fuel log pend :
  (length pend <= fuel)%nat →
  triple (writer_ok log pend) (finish_loop fuel) (λ _, writer_ok (log ++ pend) []).
Proof.
  revert log pend. induction fuel as [|fuel IH]; intros log pend Hl; cbn [finish_loop];
    apply triple_self; intros f [f1 w] r w' [Hok Hf] E; cbn in Hf; subst f1;
    pose proof (next_pending_spec _ _ _ _ Hok) as Hn; destruct (next_pending_chunk f) as [[d|] f'];
    unfold mbind at 1, io_bind at 1, set_self at 1 in E; cbn [snd] in E.
  - exfalso. destruct Hn as (Hd & pend' & -> & _). rewrite length_app in Hl. unfold len in Hd. lia.
  - destruct Hn as [-> ->]. injection E as <- <-. rewrite app_nil_r. split; [done|]. by intros _ _.
  - destruct Hn as (Hd & pend' & -> & Hok'). rewrite length_app in Hl. unfold len in Hd.
    refine (triple_bind _ _ _ _ (λ _, writer_ok (log ++ d ++ pend') [])
              (send_or_stash_spec log pend' d) _ _ _ _ Hok' E).
    intros sent. cbn beta. intros sw r1 w1 [-> Hok1]. cbn [negb].
    unfold mbind at 1, io_bind at 1, mret at 1, io_ret at 1. rewrite app_assoc. apply IH; [lia|done].
  - destruct Hn as [-> ->]. injection E as <- <-. rewrite app_nil_r. split; [done|]. by intros _ _.
Qed.

(** With nothing buffered, a pushed chunk becomes the buffer. *)
Lemma push_pending_ok log d f w :
  writer_ok log [] (f, w) →
  writer_ok log d (if fw_pending_offset f <? len (fw_pending_data f)
                   then fw_set_pending f (drop (Z.to_nat (fw_pending_offset f)) (fw_pending_data f) ++ d) 0
                   else fw_set_pending f d 0, w).
Proof.
  intros [Ht Hf Hm Ho Hst Hwin Hr Hp Hw]. cbn [fst snd] in *. case_test; bool_prop.
  - exfalso. apply (f_equal length) in Hp. rewrite length_drop in Hp. unfold len in *. cbn in Hp. lia.
  - constructor; cbn; try done. pose proof (len_nonneg d). lia.
Qed.

Lemma write_chunk_spec log d :
  triple (writer_ok log []) (write_chunk d) (λ _, writer_ok (log ++ d) []).
Proof.
  unfold write_chunk. destruct (is_empty d) eqn:Ed.
  { destruct d; [|done]. rewrite app_nil_r. apply (triple_ret tt (λ _, writer_ok log [])). }
  apply triple_self. intros f. apply triple_set. eapply (triple_bind _ _ (λ _, writer_ok log d)).
  - eapply triple_conseq; [apply (flush_stash_spec log d)| |done].
    intros [f1 w] (f0 & [Hok E0] & E1). cbn [fst snd] in *. subst. by apply push_pending_ok.
  - intros _. apply triple_self. intros f1 sw r w' [Hok <-]. apply write_chunk_loop_spec; [|done].
    rewrite <- (wo_pending _ _ _ Hok), length_drop. lia.
Qed.

Lemma drain_all_loop_spec n log pend :
  triple (λ sw, writer_ok log pend sw ∧ length (fw_in_flight sw.1) = n) (drain_all_loop n)
    (λ _ sw, writer_ok log pend sw ∧ fw_in_flight sw.1 = []).
Proof.
  induction n as [|n IH]; cbn [drain_all_loop].
  - intros sw r w' [Hok Hl%length_zero_iff_nil] [= <- <-]. split; [done|]. by intros _ _.
  - eapply triple_bind; [apply drain_one_spec|]. intros []. apply IH.
Qed.

Lemma drain_all_spec log pend :
  triple (writer_ok log pend) drain_all (λ _ sw, writer_ok log pend sw ∧ fw_in_flight sw.1 = []).
Proof.
  apply triple_self. intros f sw r w' [Hok <-]. by apply drain_all_loop_spec.
Qed.

(** What a finished writer has left. *)
Definition finished (log : bytes) (n : Z) (sw : FileWriter * World C) : Prop :=
  n <= len log ∧ is_open (w_conn sw.2) fid = false ∧
  (n = len log → patched old (content (w_conn sw.2) fid) base log).

Lemma closing_tail f log :
  fw_tree f = t → fw_file_id f = fid →
  triple (λ sw, wrote fid old base log (fw_total_written f) (w_conn sw.2) [])
    (on_conn (flush_handle (fw_tree f) (fw_file_id f)) ;;
     on_conn (close_handle (fw_tree f) (fw_file_id f)) ;;
     set_self (fw_set_done f) ;; mret (fw_total_written f))
    (λ n sw, finished log n sw).
Proof.
  intros -> ->. apply triple_bind with (R := λ _ sw, fw_total_written f <= len log ∧
    (fw_total_written f = len log → patched old (content (w_conn sw.2) fid) base log)).
  - intros [f1 w] r [f2 w2] Hw%(wrote_all fid old base). unfold on_conn. cbn [snd] in *.
    destruct (flush_handle t fid w) as [[r1 w1]|] eqn:E; [|done]. intros [= <- <- <-].
    apply flush_handle_spec in E as [Hnp Hk]. split; [done|]. intros _ _. by rewrite Hk.
  - intros _. apply triple_bind with (R := λ _ sw, finished log (fw_total_written f) sw).
    + intros [f1 w] r [f2 w2] [Hn Hp]. unfold on_conn. cbn [snd] in *.
      destruct (close_handle t fid w) as [[r1 w1]|] eqn:E; [|done]. intros [= <- <- <-].
      apply close_handle_spec in E as (Hnp & Hk & Hcl). split; [done|]. intros [] ->.
      split_and!; [done|by apply Hcl|by rewrite Hk].
    + intros _ [f1 w] r sw Hfin [= <- <-]. split; [done|]. by intros n [= <-].
Qed.

Lemma finish_spec log : triple (writer_ok log []) finish (finished log).
Proof.
  eapply triple_bind; [apply flush_stash_spec|]. intros []. apply triple_self. intros f.
  apply triple_bind with (R := λ _, writer_ok log []).
  { intros sw r w' [Hok _] E. apply (finish_loop_spec _ log []) in E; [by rewrite app_nil_r in E|cbn; lia|exact Hok]. }
  intros []. eapply triple_bind; [apply drain_all_spec|]. intros []. apply triple_self. intros f1.
  intros sw r w' [[[Ht Hf _ _ _ _ _ _ Hw] Hq] <-]. apply (closing_tail _ log); [done..|].
  by rewrite Hq in Hw.
Qed.

Lemma push_all_spec log chunks :
  triple (writer_ok log []) (push_all chunks) (finished (log ++ concat chunks)).
Proof.
  revert log. induction chunks as [|d chunks IH]; intros log; cbn [push_all concat].
  - rewrite app_nil_r. apply finish_spec.
  - rewrite app_assoc. eapply triple_bind; [apply write_chunk_spec|]. intros []. apply IH.
Qed.

(** ** The writer returns *)

Lemma drain_one_serves log pend : serves (writer_ok log pend) 1 drain_one.
Proof.
  intros f c evs k Hok Hk. pose proof (wo_window _ _ _ Hok) as Hwin. cbn [fst] in Hwin.
  unfold drain_one, mbind at 1, io_bind at 1, self. cbn [fst].
  unfold mbind at 1, io_bind at 1, on_conn at 1. cbn [snd fst].
  destruct (next_returns (fw_in_flight f) c evs k ltac:(lia))
    as (o & q & c1 & evs1 & k1 & -> & Hk1 & _ & _ & Hq).
  unfold mbind at 1, io_bind at 1, set_self at 1. cbn [snd].
  destruct o as [[tag fr]|].
  2: { eexists _, _. split; [done|]. intros _ _. exists evs1, k1. split; [done|lia]. }
  unfold mbind at 1, io_bind at 1, io_lift at 1. destruct fr as [[status body]|e|]; [|by eexists _, _..].
  destruct (status =? NtStatus.SUCCESS); cbn [negb].
  - unfold mbind, io_bind, io_lift. destruct (unpack_body _ _) as [resp|e|]; [|by eexists _, _..].
    eexists _, _. split; [done|]. intros _ _. exists evs1, k1. split; [done|lia].
  - unfold mbind at 1, io_bind at 1, on_conn at 1. cbn [snd fst].
    destruct (drain_returns q c1 evs1 k1) as [[r2 [c2 e2]] ->]; [lia|]. destruct r2 as [[]|e|]; [|by eexists _, _..].
    unfold mbind at 1, io_bind at 1, set_self at 1. cbn [snd].
    unfold mbind at 1, io_bind at 1, attempt, on_conn. cbn [snd fst].
    destruct (framed_close_handle (fw_tree f) (fw_file_id f) c2) as (r3 & c3 & E3).
    cbn [fw_tree fw_file_id fw_set_in_flight]. rewrite E3. destruct r3 as [[]|e|]; by eexists _, _.
Qed.

Lemma send_or_stash_serves log pend d : serves (writer_ok log pend) 1 (send_or_stash d).
Proof.
  apply serves_self. intros f0. eapply (serves_bind _ 1 0); [apply make_room_spec|..].
  - destruct (MAX_PIPELINE_WINDOW <=? _)%nat.
    + eapply serves_weaken; [apply drain_one_serves|by intros sw [? _]|lia].
    + apply serves_now. intros s c evs. by eexists _, _, _.
  - intros []. apply serves_self. intros f s c evs k [[Hok Hl] <-] _. cbn [fst] in *.
    unfold can_send. replace (length (fw_in_flight s) <? MAX_PIPELINE_WINDOW)%nat with true
      by (symmetry; by apply Nat.ltb_lt).
    eexists _, _. split; [done|]. intros _ _. exists evs, k. split; [done|lia].
Qed.

Lemma flush_stash_serves log pend : serves (writer_ok log pend) 0 flush_stash.
Proof.
  apply serves_self. intros f s c evs k [Hok <-] _. cbn [fst].
  pose proof (wo_stash _ _ _ Hok) as Hs. cbn in Hs. rewrite Hs.
  eexists _, _. split; [done|]. intros _ _. exists evs, k. split; [done|lia].
Qed.

Lemma write_chunk_loop_serves fuel log pend :
  (length pend <= fuel)%nat → serves (writer_ok log pend) (length pend) (write_chunk_loop fuel).
Proof.
  revert log pend. induction fuel as [|fuel IH]; intros log pend Hl; cbn [write_chunk_loop];
    apply serves_self; intros f s c evs k [Hok Hf] Hk; cbn in Hf; subst s;
    pose proof (next_pending_spec _ _ _ _ Hok) as Hn; destruct (next_pending_chunk f) as [[d|] f'];
    unfold mbind at 1, io_bind at 1, set_self at 1; cbn [snd].
  1, 2, 4: (eexists _, _; split; [done|]; intros ? ?; exists evs, k; split; [done|lia]).
  destruct Hn as (Hd & pend' & -> & Hok'). rewrite length_app in *. unfold len in Hd.
  refine (serves_weaken _ _ _ (1 + length pend') _ (serves_bind _ 1 _ _ _ _ (send_or_stash_spec log pend' d)
            (send_or_stash_serves log pend' d) _) (λ sw H, H) _ _ _ _ _ Hok' _); [|lia|lia].
  intros sent. eapply serves_weaken with (P' := λ sw, writer_ok (log ++ d) pend' sw ∧ sent = true);
    [|by intros sw [? ?]|done].
  intros s1 c1 evs1 k1 [Hok1 ->] Hk1. cbn [negb]. apply (IH (log ++ d)); [lia|done|done].
Qed.

Lemma finish_loop_serves fuel log pend :
  (length pend <= fuel)%nat → serves (writer_ok log pend) (length pend) (finish_loop fuel).
Proof.
  revert log pend. induction fuel as [|fuel IH]; intros log pend Hl; cbn [finish_loop];
    apply serves_self; intros f s c evs k [Hok Hf] Hk; cbn in Hf; subst s;
    pose proof (next_pending_spec _ _ _ _ Hok) as Hn; destruct (next_pending_chunk f) as [[d|] f'];
    unfold mbind at 1, io_bind at 1, set_self at 1; cbn [snd].
  1, 2, 4: (eexists _, _; split; [done|]; intros ? ?; exists evs, k; split; [done|lia]).
  destruct Hn as (Hd & pend' & -> & Hok'). rewrite length_app in *. unfold len in Hd.
  refine (serves_weaken _ _ _ (1 + length pend') _ (serves_bind _ 1 _ _ _ _ (send_or_stash_spec log pend' d)
            (send_or_stash_serves log pend' d) _) (λ sw H, H) _ _ _ _ _ Hok' _); [|lia|lia].
  intros sent. eapply serves_weaken with (P' := λ sw, writer_ok (log ++ d) pend' sw ∧ sent = true);
    [|by intros sw [? ?]|done].
  intros s1 c1 evs1 k1 [Hok1 ->] Hk1. cbn [negb]. apply (IH (log ++ d)); [lia|done|done].
Qed.

Lemma write_chunk_serves log d : serves (writer_ok log []) (length d) (write_chunk d).
Proof.
  unfold write_chunk. destruct (is_empty d); [apply serves_now; intros; by eexists _, _, _|].
  apply serves_self. intros f. apply serves_set.
  eapply serves_weaken with (P' := writer_ok log d) (n' := (0 + length d)%nat); [| |lia].
  - eapply serves_bind; [apply flush_stash_spec|apply flush_stash_serves|].
    intros []. apply serves_self. intros f1 s c evs k [Hok <-]. cbn [fst].
    apply (write_chunk_loop_serves _ log); [|done].
    rewrite <- (wo_pending _ _ _ Hok), length_drop. cbn. lia.
  - intros [f1 w] (f0 & [Hok E0] & E1). cbn [fst snd] in *. subst. by apply push_pending_ok.
Qed.

Lemma drain_all_serves log pend : serves (writer_ok log pend) MAX_PIPELINE_WINDOW drain_all.
Proof.
  apply serves_self. intros f.
  assert (∀ n, serves (λ sw, writer_ok log pend sw ∧ length (fw_in_flight sw.1) = n) n (drain_all_loop n)) as Hloop.
  { induction n as [|n IH]; cbn [drain_all_loop]; [apply serves_now; intros; by eexists _, _, _|].
    eapply (serves_bind _ 1 n); [apply drain_one_spec| |intros []; apply IH].
    eapply serves_weaken; [apply drain_one_serves|by intros sw [? _]|done]. }
  intros s c evs k [Hok <-] Hk. cbn [fst]. pose proof (wo_window _ _ _ Hok) as Hwin. cbn [fst] in Hwin.
  refine (serves_weaken _ _ _ _ _ (Hloop (length (fw_in_flight s))) (λ _ H, H) Hwin _ _ _ _ _ _); [done|lia].
Qed.

Lemma finish_serves log : serves (writer_ok log []) MAX_PIPELINE_WINDOW finish.
Proof.
  eapply (serves_bind _ 0 _); [apply flush_stash_spec|apply flush_stash_serves|].
  intros []. apply serves_self. intros f. eapply (serves_bind _ 0 _ _ (λ _, writer_ok log [])).
  - intros sw r w' [Hok _] E. apply (finish_loop_spec _ log []) in E; [by rewrite app_nil_r in E|cbn; lia|exact Hok].
  - eapply serves_weaken; [apply (finish_loop_serves _ log []); cbn; lia|by intros sw [? _]|done].
  - intros _. eapply (serves_bind _ MAX_PIPELINE_WINDOW 0); [apply drain_all_spec|apply drain_all_serves|].
    intros []. apply serves_self. intros f1. eapply (serves_bind _ 0 0 _ (λ _ _, True)).
    { intros [s w] r w' _ E. by apply (safe_on_conn _ (safe_flush _ _)) in E. }
    { apply serves_framed, framed_flush_handle. }
    intros []. eapply (serves_bind _ 0 0 _ (λ _ _, True)).
    { intros [s w] r w' _ E. by apply (safe_on_conn _ (safe_close _ _)) in E. }
    { apply serves_framed, framed_close_handle. }
    intros []. apply serves_now. intros s c evs. by eexists _, _, _.
Qed.

Lemma push_all_serves log chunks :
  serves (writer_ok log []) (length (concat chunks) + MAX_PIPELINE_WINDOW) (push_all chunks).
Proof.
  revert log. induction chunks as [|d chunks IH]; intros log; cbn [push_all concat].
  - apply finish_serves.
  - rewrite length_app, <- Nat.add_assoc. eapply serves_bind; [apply write_chunk_spec|apply write_chunk_serves|].
    intros []. apply IH.
Qed.

End writer.

Lemma new_writer_ok {C} `{FileServer C} t fid mw base (w : World C) :
  writer_ok t fid mw base (content (w_conn w) fid) [] []
    (fw_set_offset (FileWriter_new t fid mw) base, w).
Proof.
  constructor; cbn; try done; [rewrite len_nil; lia|unfold MAX_PIPELINE_WINDOW; lia|by apply wrote_start].
Qed.


