(* ===== verification/Durable.v ===== *)
(** * Durable handles ([src/client/durable.rs])

    Opening a file with a handle that survives a disconnect, and claiming it back with
    two proofs: the server's comparison of the create guid, and the client's
    comparison of the identity of the file.  A [Host] is a dialog with the server
    together with what the connection keeps beside it: the trees of granted oplocks,
    the generation and the negotiated dialect.  The random create guid is an argument. *)

From S2P Require Import Prelude Types Fields Pack Codec Utf16 Header Connection Tree Name Create FileIo Session Query Negotiate Contexts Pipeline Exec.

Definition FILE_ATTRIBUTE_NORMAL : Z := 0x80.
Definition FILE_INTERNAL_INFORMATION : Z := 6.
Definition FS_VOLUME_INFORMATION : Z := 1.
Definition FS_VOLUME_SERIAL_OFFSET : Z := 8.

Record FileIdentity := mkFileIdentity { fi_volume_serial : Z; fi_index_number : Z }.

#[global] Instance FileIdentity_eq_dec : EqDecision FileIdentity.
Proof. solve_decision. Defined.

Record DurableHandle := mkDurableHandle {
  dh_file_id : FileId;
  dh_grant : DurableGrant;
  dh_identity : FileIdentity;
  dh_create_guid : Guid;
  dh_generation : Z
}.

Record DurableOpen := mkDurableOpen {
  do_file_id : FileId; do_size : Z; do_durable : option DurableHandle
}.

(** ** The connection *)

Record Host := mkHost {
  ho_dialog : Dialog;
  ho_oplock_trees : gmap FileId Z;
  ho_generation : Z;
  ho_dialect : option Dialect
}.

Definition on_dialog {A} (m : io Dialog A) : io Host A := λ h,
  match m (ho_dialog h) with
  | None => None
  | Some (r, d) => Some (r, mkHost d (ho_oplock_trees h) (ho_generation h) (ho_dialect h))
  end.

Definition set_oplocks (f : gmap FileId Z → gmap FileId Z) : io Host unit := λ h,
  Some (Ok tt, mkHost (ho_dialog h) (f (ho_oplock_trees h)) (ho_generation h) (ho_dialect h)).
Definition register_oplock (file_id : FileId) (tree_id : Z) : io Host unit := set_oplocks <[file_id := tree_id]>.
Definition forget_oplock (file_id : FileId) : io Host unit := set_oplocks (delete file_id).

Definition generation : io Host Z := λ h, Some (Ok (ho_generation h), h).
Definition dialect : io Host (option Dialect) := λ h, Some (Ok (ho_dialect h), h).

Definition is_current (handle : DurableHandle) (h : Host) : bool := dh_generation handle =? ho_generation h.

(** [conn.execute_compound(..)]: an error for the whole, or an answer per operation. *)
Definition execute_compound (reqs : list request) : io Dialog (list (result Error Frame)) := λ d,
  let d := dl_record (SentCompound reqs) d in
  match dl_compound_answers d with
  | [] => Some (Err Disconnected, d)
  | inl e :: _ => Some (Err e, dl_compound_answered d)
  | inr rs :: _ => Some (Ok (map of_reply rs), dl_compound_answered d)
  end.

Definition durable_close_handle (t : Tree) (file_id : FileId) : io Host unit :=
  forget_oplock file_id ;;
  frame ← on_dialog (execute_msg Types.Close (mkCloseRequest 0 file_id) (Some (tree_id t)));
  on_dialog (expect_success Types.Close frame).

(** ** Identity *)

Definition index_query : QueryInfoRequest :=
  mkQueryInfoRequest InfoFile FILE_INTERNAL_INFORMATION 8 0 0 FileId_SENTINEL [].
Definition volume_query : QueryInfoRequest :=
  mkQueryInfoRequest InfoFilesystem FS_VOLUME_INFORMATION 128 0 0 FileId_SENTINEL [].

(** [r.ok()] *)
Definition ok {A} (r : result Error A) : result Error (option A) :=
  match r with Ok a => Ok (Some a) | Err _ => Ok None | Panic => Panic end.

Definition payload (frame : Frame) : result Error (option bytes) :=
  if negb (status (fr_header frame) =? NtStatus.SUCCESS) then Ok None else
  resp ← ok (unpack_body QueryInfoResponse (fr_body frame));
  Ok (option_map qir_output_buffer resp).

Definition read_index (body : bytes) : result Error (option Z) :=
  ok ('(v, _) ← read_u64_le (ReadCursor_new body); Ok v).

(** [body.get(8..12)] as a word. *)
Definition read_serial (body : bytes) : option Z :=
  if FS_VOLUME_SERIAL_OFFSET + 4 <=? len body
  then Some (of_le (subslice body FS_VOLUME_SERIAL_OFFSET (FS_VOLUME_SERIAL_OFFSET + 4))) else None.

Definition from_frames (index volume : option Frame) : result Error (option FileIdentity) :=
  match index with
  | None => Ok None
  | Some index =>
      body ← payload index;
      match body with
      | None => Ok None
      | Some body =>
          index_number ← read_index body;
          match index_number with
          | None => Ok None
          | Some index_number =>
              volume_body ← (match volume with Some v => payload v | None => Ok None end);
              let volume_serial := match volume_body with
                                   | Some b => default 0 (read_serial b)
                                   | None => 0
                                   end in
              Ok (Some (mkFileIdentity volume_serial index_number))
          end
      end
  end.

(** [frames.get(i).and_then(|f| f.as_ref())] with [frames] the answers that came. *)
Definition frame_at (results : list (result Error Frame)) (i : nat) : option Frame :=
  match results !! i with Some (Ok f) => Some f | _ => None end.

Definition create_and_identify (t : Tree) (create_req : CreateRequest) : io Host (Frame * option FileIdentity) :=
  b1 ← io_lift (packed create_req);
  b2 ← io_lift (packed index_query);
  b3 ← io_lift (packed volume_query);
  results ← on_dialog (execute_compound
    [mkRequest Types.Create b1 (Some (tree_id t)); mkRequest Types.QueryInfo b2 (Some (tree_id t));
     mkRequest Types.QueryInfo b3 (Some (tree_id t))]);
  match frame_at results 0 with
  | None => io_err (invalid_data "compound CREATE produced no response")
  | Some create =>
      if negb (status (fr_header create) =? NtStatus.SUCCESS)
      then io_err (Protocol (status (fr_header create)) Types.Create) else
      identity ← io_lift (from_frames (frame_at results 1) (frame_at results 2));
      mret (create, identity)
  end.

(** ** Opening *)

Definition ACCESS_READ_WRITE : Z :=
  Z.lor (Z.lor (Z.lor (Z.lor FileAccessMask.FILE_READ_DATA FileAccessMask.FILE_WRITE_DATA)
    FileAccessMask.FILE_READ_ATTRIBUTES) FileAccessMask.FILE_WRITE_ATTRIBUTES) FileAccessMask.SYNCHRONIZE.

(** [p.dialect >= Dialect::Smb3_0] *)
Definition durable_possible (d : option Dialect) : bool :=
  match d with Some d => Dialect_code Smb3_0 <=? Dialect_code d | None => false end.

Definition durable_create (oplock : OplockLevel) (disposition : CreateDisposition) (name : list Z)
    (contexts : bytes) : CreateRequest :=
  mkCreateRequest oplock Impersonation ACCESS_READ_WRITE FILE_ATTRIBUTE_NORMAL
    (Z.lor ShareAccess.FILE_SHARE_READ ShareAccess.FILE_SHARE_WRITE) disposition FILE_NON_DIRECTORY_FILE
    name contexts.

(** [find(..).map(from_bytes).transpose()?] *)
Definition find_grant (answered : list CreateContext) : result Error (option DurableGrant) :=
  match find_context answered NAME_DH2Q with
  | None => Ok None
  | Some c => g ← DurableGrant_from_bytes (cc_data c); Ok (Some g)
  end.

Definition open_file_durable (t : Tree) (create_guid : Guid) (path : list Z) : io Host DurableOpen :=
  d ← dialect;
  let possible := durable_possible d in
  contexts ← io_lift (if possible
                      then ctx ← DurableRequestV2_context (mkDurableRequestV2 0 false create_guid);
                           pack_contexts [ctx]
                      else Ok []);
  '(create, identity) ← create_and_identify t
     (durable_create (if possible then Batch else OplockNone) FileOpenIf (format_path t path) contexts);
  resp ← io_lift (unpack_body CreateResponse (fr_body create));
  answered ← io_lift (parse_contexts (crr_create_contexts resp));
  grant ← io_lift (find_grant answered);
  durable ← (match grant, identity with
             | Some grant, Some identity =>
                 register_oplock (crr_file_id resp) (tree_id t) ;;
                 g ← generation;
                 mret (Some (mkDurableHandle (crr_file_id resp) grant identity create_guid g))
             | _, _ => mret None
             end);
  mret (mkDurableOpen (crr_file_id resp) (crr_end_of_file resp) durable).

(** ** Claiming back *)

Definition reclaim_durable_handle (t : Tree) (handle : DurableHandle) (path : list Z) : io Host DurableHandle :=
  contexts ← io_lift (ctx ← DurableReconnectV2_context
                              (mkDurableReconnectV2 (dh_file_id handle) (dh_create_guid handle)
                                 (dg_persistent (dh_grant handle)));
                      pack_contexts [ctx]);
  r ← attempt (create_and_identify t (durable_create Batch FileOpen (format_path t path) contexts));
  '(create, identity) ← (match r with
                         | Ok p => mret p
                         | Err (Protocol _ _) => io_err (DurableHandleLost path Expired)
                         | Err e => io_err e
                         | Panic => λ h, Some (Panic, h)
                         end);
  resp ← io_lift (unpack_body CreateResponse (fr_body create));
  match identity with
  | None =>
      _ ← attempt (durable_close_handle t (crr_file_id resp));
      io_err (DurableHandleLost path IdentityUnavailable)
  | Some identity =>
      if negb (bool_decide (identity = dh_identity handle)) then
        _ ← attempt (durable_close_handle t (crr_file_id resp));
        io_err (DurableHandleLost path IdentityMismatch)
      else
        register_oplock (crr_file_id resp) (tree_id t) ;;
        g ← generation;
        mret (mkDurableHandle (crr_file_id resp) (dh_grant handle) (dh_identity handle) (dh_create_guid handle) g)
  end.

(** ** Requests *)

Lemma durable_close_packs f : packs (mkCloseRequest 0 f).
Proof. packs_tac. Qed.
Lemma create_packs m : packs (m : CreateRequest).
Proof. eapply packs_by, CreateRequest_pack_layout. Qed.
Lemma queries_pack : packs index_query ∧ packs volume_query.
Proof. split; apply codec_packs; by split. Qed.

(** The data of the two contexts. *)
Definition dh2q_bytes (g : Guid) : bytes := to_le 4 0 ++ to_le 4 0 ++ to_le 8 0 ++ guid_bytes g.
Definition dh2c_bytes (f : FileId) (g : Guid) (persists : bool) : bytes :=
  to_le 8 (persistent f) ++ to_le 8 (volatile f) ++ guid_bytes g ++ to_le 4 (if persists then FLAG_PERSISTENT else 0).

Lemma dh2q_written g :
  Guid_wf g → DurableRequestV2_context (mkDurableRequestV2 0 false g) = Ok (mkCreateContext NAME_DH2Q (dh2q_bytes g)).
Proof.
  intros Hg. unfold DurableRequestV2_context, DurableRequestV2_to_bytes.
  rewrite (written_layout _ (dh2q_bytes g)); [done|]. unfold writes_at, dh2q_bytes, guid_bytes. wsteps. wdone.
Qed.
Lemma dh2c_written f g b :
  Guid_wf g → DurableReconnectV2_context (mkDurableReconnectV2 f g b) = Ok (mkCreateContext NAME_DH2C (dh2c_bytes f g b)).
Proof.
  intros Hg. unfold DurableReconnectV2_context, DurableReconnectV2_to_bytes.
  rewrite (written_layout _ (dh2c_bytes f g b)); [done|]. unfold writes_at. wsteps.
  eapply w_bind; [apply w_guid; [lia|done]|]. wdone.
Qed.

Lemma context_small name data : len name = 4 → len data <= 36 → CreateContext_wf (mkCreateContext name data).
Proof.
  intros Hn Hd. split; cbn [cc_name cc_data]; rewrite Hn; unfold align8; [done|].
  change ((16 + 4 + 7) / 8 * 8) with 24. pose proof (len_nonneg data).
  pose proof (Z.div_mod (24 + len data + 7) 8). pose proof (Z.mod_pos_bound (24 + len data + 7) 8). lia.
Qed.

(** A context alone in its chain, and read back from it. *)
Lemma lone_context name data :
  len name = 4 → len data <= 36 →
  ∃ bs, pack_contexts [mkCreateContext name data] = Ok bs ∧ parse_contexts bs = Ok [mkCreateContext name data].
Proof. intros Hn Hd. apply contexts_back, Forall_singleton. by apply context_small. Qed.

(** ** One round trip *)

Lemma payload_ok f : ∃ o, payload f = Ok o.
Proof.
  unfold payload. case_test; [by eexists|]. pose proof (unpack_body_no_panic QueryInfoResponse (fr_body f)).
  destruct (unpack_body QueryInfoResponse (fr_body f)); [by eexists|by eexists|done].
Qed.
Lemma read_index_ok b : ∃ o, read_index b = Ok o.
Proof.
  unfold read_index. pose proof (rok_start read_u64_le _ b rok_u64) as Hs.
  destruct (read_u64_le (ReadCursor_new b)) as [[v c]|e|]; [by eexists|by eexists|done].
Qed.
Lemma from_frames_ok i v : ∃ o, from_frames i v = Ok o.
Proof.
  unfold from_frames. destruct i as [i|]; [|by eexists]. destruct (payload_ok i) as [[b|] ->]; [|by eexists].
  cbn [mbind result_bind]. destruct (read_index_ok b) as [[n|] ->]; [|by eexists]. cbn [mbind result_bind].
  destruct v as [v|]; [|by eexists]. destruct (payload_ok v) as [o ->]. by eexists.
Qed.

(** The frame of the CREATE and the identity in the answers to a compound. *)
Definition answer_frame (rs : list reply) (i : nat) : option Frame := frame_at (map of_reply rs) i.
Definition answer_identity (rs : list reply) : result Error (option FileIdentity) :=
  from_frames (answer_frame rs 1) (answer_frame rs 2).

(** The first answer to a compound still to come. *)
Definition next_answers (h : Host) : option (list reply) :=
  match dl_compound_answers (ho_dialog h) with inr rs :: _ => Some rs | _ => None end.

(** The connection beside the dialog is as it was. *)
Definition same_books (h h' : Host) : Prop :=
  ho_oplock_trees h' = ho_oplock_trees h ∧ ho_generation h' = ho_generation h ∧ ho_dialect h' = ho_dialect h.

Definition identify_requests (t : Tree) (req : CreateRequest) : exchange :=
  SentCompound [mkRequest Types.Create (body_of req) (Some (tree_id t));
                mkRequest Types.QueryInfo (body_of index_query) (Some (tree_id t));
                mkRequest Types.QueryInfo (body_of volume_query) (Some (tree_id t))].

Lemma create_and_identify_spec t req h :
  ∃ r h', create_and_identify t req h = Some (r, h') ∧ r ≠ Panic ∧ same_books h h' ∧
    dl_sent (ho_dialog h') = dl_sent (ho_dialog h) ++ [identify_requests t req] ∧
    dl_answers (ho_dialog h') = dl_answers (ho_dialog h) ∧
    match r with
    | Ok (f, i) => ∃ rs, next_answers h = Some rs ∧ answer_frame rs 0 = Some f ∧
                     status (fr_header f) = NtStatus.SUCCESS ∧ answer_identity rs = Ok i
    | _ => ∀ rs f, next_answers h = Some rs → answer_frame rs 0 = Some f → status (fr_header f) ≠ NtStatus.SUCCESS
    end.
Proof.
  destruct (create_packs req) as [b1 E1], queries_pack as [[b2 E2] [b3 E3]].
  unfold create_and_identify, identify_requests, body_of, next_answers. rewrite E1, E2, E3.
  unfold mbind at 1 2 3, io_bind at 1 2 3, io_lift at 1 2 3.
  unfold mbind at 1, io_bind at 1, on_dialog, execute_compound. cbn [dl_compound_answers dl_record].
  destruct (dl_compound_answers (ho_dialog h)) as [|[e|rs] rest] eqn:Ea.
  - eexists _, _. split; [done|]. by split_and!.
  - eexists _, _. split; [done|]. by split_and!.
  - fold (answer_frame rs 0). fold (answer_frame rs 1). fold (answer_frame rs 2). fold (answer_identity rs).
    destruct (answer_frame rs 0) as [f|] eqn:Ef.
    2: { eexists _, _. split; [done|]. split_and!; try done. intros rs' f' [= <-]. by rewrite Ef. }
    case_test; bool_prop.
    { eexists _, _. split; [done|]. split_and!; try done. intros rs' f' [= <-]. rewrite Ef. by intros [= <-]. }
    destruct (from_frames_ok (answer_frame rs 1) (answer_frame rs 2)) as [i Ei]. fold (answer_identity rs) in Ei.
    rewrite Ei. eexists _, _. split; [done|]. split_and!; try done. by exists rs.
Qed.

Lemma close_spec t fid h :
  ∃ r h', attempt (durable_close_handle t fid) h = Some (Ok r, h') ∧
    ho_oplock_trees h' = delete fid (ho_oplock_trees h) ∧ ho_generation h' = ho_generation h ∧
    dl_sent (ho_dialog h') = dl_sent (ho_dialog h)
      ++ [SentOne (mkRequest Types.Close (body_of (mkCloseRequest 0 fid)) (Some (tree_id t)))].
Proof.
  destruct (durable_close_packs fid) as [b E]. unfold attempt, durable_close_handle, forget_oplock, set_oplocks, body_of.
  unfold mbind at 1 2, io_bind at 1 2, on_dialog at 1, execute_msg, io_lift, mbind at 1, io_bind at 1. rewrite E.
  cbn [ho_dialog]. unfold execute_raw. cbn [dl_answers dl_record].
  destruct (dl_answers (ho_dialog h)) as [|[f|e] rs]; cbn [of_reply]; [by eexists _, _| |by eexists _, _].
  unfold on_dialog, expect_success. destruct (negb _); by eexists _, _.
Qed.

(** ** Properties *)

(** The CREATE of a reclaim. *)
Definition reclaim_create (t : Tree) (path : list Z) (contexts : bytes) : CreateRequest :=
  durable_create Batch FileOpen (format_path t path) contexts.

Definition close_sent (t : Tree) (fid : FileId) : exchange :=
  SentOne (mkRequest Types.Close (body_of (mkCloseRequest 0 fid)) (Some (tree_id t))).

(** A handle that came back readable. *)
Definition came_back (h : Host) (rs : list reply) (resp : CreateResponse) : Prop :=
  next_answers h = Some rs ∧ ∃ f, answer_frame rs 0 = Some f ∧ status (fr_header f) = NtStatus.SUCCESS ∧
    unpack_body CreateResponse (fr_body f) = Ok resp.

(** What a reclaim has done: the request carried the reconnect context alone; [closes]
    were sent after it. *)
Definition reclaim_outcome (t : Tree) (handle : DurableHandle) (path : list Z) (h h' : Host)
    (contexts : bytes) (closes : list exchange) (r : result Error DurableHandle) : Prop :=
  parse_contexts contexts = Ok [mkCreateContext NAME_DH2C
    (dh2c_bytes (dh_file_id handle) (dh_create_guid handle) (dg_persistent (dh_grant handle)))] ∧
  dl_sent (ho_dialog h')
  = dl_sent (ho_dialog h) ++ identify_requests t (reclaim_create t path contexts) :: closes ∧
  match r with
  | Ok new => closes = [] ∧ ∃ rs resp, came_back h rs resp ∧
      answer_identity rs = Ok (Some (dh_identity handle)) ∧
      new = mkDurableHandle (crr_file_id resp) (dh_grant handle) (dh_identity handle)
              (dh_create_guid handle) (ho_generation h) ∧
      is_current new h' = true ∧ ho_oplock_trees h' = <[crr_file_id resp := tree_id t]> (ho_oplock_trees h)
  | Err e => ho_oplock_trees h' ⊆ ho_oplock_trees h ∧
      ∀ rs resp, came_back h rs resp →
        answer_identity rs ≠ Ok (Some (dh_identity handle)) ∧ closes = [close_sent t (crr_file_id resp)] ∧ ho_oplock_trees h' !! crr_file_id resp = None ∧
        e = DurableHandleLost path (match answer_identity rs with
                                    | Ok (Some _) => IdentityMismatch
                                    | _ => IdentityUnavailable
                                    end)
  | Panic => False
  end.

(** Put the handle back and fail. *)
Definition refuse (t : Tree) (fid : FileId) (e : Error) : io Host DurableHandle :=
  _ ← attempt (durable_close_handle t fid); io_err e.

Lemma refuse_spec t fid e h :
  ∃ h', refuse t fid e h = Some (Err e, h') ∧ ho_oplock_trees h' = delete fid (ho_oplock_trees h) ∧
    dl_sent (ho_dialog h') = dl_sent (ho_dialog h) ++ [close_sent t fid].
Proof.
  destruct (close_spec t fid h) as (r & h' & E & Ho & _ & Hs). exists h'.
  unfold refuse, mbind, io_bind. rewrite E. done.
Qed.

(** The last step of a reclaim: the identity is compared, and the handle kept or closed. *)
Definition judge (t : Tree) (handle : DurableHandle) (path : list Z) (resp : CreateResponse)
    (identity : option FileIdentity) : io Host DurableHandle :=
  match identity with
  | None => refuse t (crr_file_id resp) (DurableHandleLost path IdentityUnavailable)
  | Some identity =>
      if negb (bool_decide (identity = dh_identity handle))
      then refuse t (crr_file_id resp) (DurableHandleLost path IdentityMismatch)
      else
        register_oplock (crr_file_id resp) (tree_id t) ;;
        g ← generation;
        mret (mkDurableHandle (crr_file_id resp) (dh_grant handle) (dh_identity handle) (dh_create_guid handle) g)
  end.

Lemma came_back_unique h rs resp rs' resp' :
  came_back h rs resp → came_back h rs' resp' → rs' = rs ∧ resp' = resp.
Proof.
  intros (Hn & f & Hf & _ & Hu) (Hn' & f' & Hf' & _ & Hu'). rewrite Hn in Hn'. injection Hn' as <-.
  split; [done|]. congruence.
Qed.

Lemma judge_spec t handle path h h1 cs rs resp i :
  parse_contexts cs = Ok [mkCreateContext NAME_DH2C
    (dh2c_bytes (dh_file_id handle) (dh_create_guid handle) (dg_persistent (dh_grant handle)))] →
  same_books h h1 →
  dl_sent (ho_dialog h1) = dl_sent (ho_dialog h) ++ [identify_requests t (reclaim_create t path cs)] →
  came_back h rs resp → answer_identity rs = Ok i →
  ∃ r h' contexts closes, judge t handle path resp i h1 = Some (r, h') ∧
    reclaim_outcome t handle path h h' contexts closes r.
Proof.
  intros Hcs (Ho & Hgen & _) Hs Hc Hi.
  assert (∀ l : DurableLoss, i ≠ Some (dh_identity handle) →
    l = (match i with Some _ => IdentityMismatch | None => IdentityUnavailable end) →
    ∃ r h' contexts closes, refuse t (crr_file_id resp) (DurableHandleLost path l) h1 = Some (r, h') ∧
      reclaim_outcome t handle path h h' contexts closes r) as Href.
  { intros l Hne ->. destruct (refuse_spec t (crr_file_id resp) (DurableHandleLost path
      (match i with Some _ => IdentityMismatch | None => IdentityUnavailable end)) h1) as (h2 & Ec & Ho2 & Hs2).
    eexists (Err _), h2, cs, [close_sent t (crr_file_id resp)]. split; [exact Ec|]. split; [done|].
    split; [rewrite Hs2, Hs, <- app_assoc; done|]. rewrite Ho2, Ho. split; [apply delete_subseteq|].
    intros rs' resp' Hc'. destruct (came_back_unique _ _ _ _ _ Hc Hc') as [-> ->]. rewrite Hi.
    split; [congruence|]. split; [done|]. split; [apply lookup_delete_eq|]. by destruct i. }
  destruct i as [i|]; [|by apply Href]. unfold judge. destruct (bool_decide_reflect (i = dh_identity handle)) as [->|Hne]; cbn [negb].
  2: { apply Href; [|done]. by intros [= ->]. }
  eexists (Ok _), _, cs, []. split; [done|]. split; [done|]. split; [exact Hs|]. split; [done|].
  exists rs, resp. rewrite Ho, Hgen. unfold is_current. cbn [dh_generation ho_generation]. rewrite Z.eqb_refl.
  by split_and!.
Qed.

(** C36: a durable handle is claimed back with both proofs or not at all.  The request
    carries the reconnect context alone, with the file id and the create guid of the
    handle.  It succeeds only if the server granted the CREATE and the identity it then
    gave for the file is the one recorded at open; the new handle keeps grant, identity
    and guid, has the new file id, belongs to the current session, and its oplock is
    registered.  When a handle came back but is not proven, it is closed, the error says
    so, and no oplock stays registered for it.  It never panics, whatever the server
    answers. *)
Theorem reclaim_needs_both_proofs t handle path h :
  Guid_wf (dh_create_guid handle) →
  ∃ r h' contexts closes,
    reclaim_durable_handle t handle path h = Some (r, h') ∧
    reclaim_outcome t handle path h h' contexts closes r.
Proof.
  intros Hg. unfold reclaim_durable_handle. rewrite dh2c_written by done. cbn [mbind result_bind].
  destruct (lone_context NAME_DH2C (dh2c_bytes (dh_file_id handle) (dh_create_guid handle)
    (dg_persistent (dh_grant handle)))) as (cs & -> & Hcs); [done| |].
  { unfold dh2c_bytes. rewrite !len_app, guid_bytes_len, !len_to_le by done. lia. }
  destruct (create_and_identify_spec t (reclaim_create t path cs) h)
    as (r & h1 & E & Hr & (Ho & Hgen & Hd) & Hs & Ha & Hx).
  unfold mbind at 1, io_bind at 1, io_lift at 1. fold (reclaim_create t path cs).
  unfold mbind at 1, io_bind at 1, attempt at 1. rewrite E. destruct r as [[f i]|e|]; [| |done].
  2: { assert (∀ rs resp, ¬ came_back h rs resp) as Hno.
       { intros rs resp (Hn & f & Hf & Hst & _). by apply (Hx rs f). }
       exists (Err (match e with Protocol _ _ => DurableHandleLost path Expired | _ => e end)), h1, cs, [].
       split; [by destruct e|]. split; [done|]. split; [done|]. rewrite Ho. split; [done|].
       intros rs resp Hc. by destruct (Hno rs resp). }
  destruct Hx as (rs & Hn & Hf & Hst & Hi). unfold mbind at 1, io_bind at 1. cbv beta iota.
  unfold mbind at 1, io_bind at 1. unfold mret at 1, io_ret at 1.
  pose proof (unpack_body_no_panic CreateResponse (fr_body f)) as Hu. unfold io_lift at 1.
  destruct (unpack_body CreateResponse (fr_body f)) as [resp|e|] eqn:Eu; [| |done].
  2: { exists (Err e), h1, cs, []. split; [done|]. split; [done|]. split; [done|]. rewrite Ho. split; [done|].
       intros rs' resp (Hn' & f' & Hf' & _ & Hu'). rewrite Hn in Hn'. injection Hn' as <-. congruence. }
  apply (judge_spec t handle path h h1 cs rs resp i); [done|by split_and!|done| |done]. split; [done|]. by exists f.
Qed.

(** ** Opening honestly *)

(** What the server's answer grants. *)
Definition granted (resp : CreateResponse) : result Error (option DurableGrant) :=
  answered ← parse_contexts (crr_create_contexts resp); find_grant answered.

Lemma granted_safe resp : granted resp ≠ Panic.
Proof.
  unfold granted. pose proof (parse_contexts_safe (crr_create_contexts resp)) as Hp.
  destruct (parse_contexts (crr_create_contexts resp)) as [cs|e|]; [|done|done]. cbn [mbind result_bind].
  unfold find_grant. destruct (find_context cs NAME_DH2Q) as [c|]; [|done]. unfold DurableGrant_from_bytes.
  assert (reader_ok (timeout_ms ← read_u32_le; flags ← read_u32_le;
    mret (mkDurableGrant timeout_ms (negb (Z.land flags FLAG_PERSISTENT =? 0)))) (λ _, True)) as Hr.
  { eapply rok_bind; [apply rok_u32|]. intros. eapply rok_bind; [apply rok_u32|]. intros. by apply rok_ret. }
  pose proof (rok_start _ _ (cc_data c) Hr) as Hs.
  destruct ((timeout_ms ← read_u32_le; flags ← read_u32_le; _) (ReadCursor_new (cc_data c))) as [[g c']|e|]; done.
Qed.

(** The contexts an open sends. *)
Definition open_contexts (possible : bool) (g : Guid) : list CreateContext :=
  if possible then [mkCreateContext NAME_DH2Q (dh2q_bytes g)] else [].

Lemma open_contexts_packed (possible : bool) g :
  Guid_wf g →
  ∃ cs, (if possible
         then ctx ← DurableRequestV2_context (mkDurableRequestV2 0 false g); pack_contexts [ctx]
         else Ok []) = Ok cs ∧ parse_contexts cs = Ok (open_contexts possible g).
Proof.
  intros Hg. destruct possible; [|by exists []]. rewrite dh2q_written by done. apply lone_context; [done|].
  unfold dh2q_bytes. rewrite !len_app, guid_bytes_len, !len_to_le by done. lia.
Qed.

(** The handle of an open that the server granted and identified. *)
Definition durable_of (g : Guid) (gen : Z) (resp : CreateResponse) (grant : option DurableGrant)
    (identity : option FileIdentity) : option DurableHandle :=
  match grant, identity with
  | Some grant, Some identity => Some (mkDurableHandle (crr_file_id resp) grant identity g gen)
  | _, _ => None
  end.

(** What an open has done: [contexts] is what its CREATE carried. *)
Definition open_outcome (t : Tree) (g : Guid) (path : list Z) (h h' : Host) (contexts : bytes)
    (r : result Error DurableOpen) : Prop :=
  let possible := durable_possible (ho_dialect h) in
  parse_contexts contexts = Ok (open_contexts possible g) ∧
  dl_sent (ho_dialog h') = dl_sent (ho_dialog h) ++
    [identify_requests t (durable_create (if possible then Batch else OplockNone) FileOpenIf (format_path t path) contexts)] ∧
  match r with
  | Ok o => ∃ rs resp grant identity,
      came_back h rs resp ∧ granted resp = Ok grant ∧ answer_identity rs = Ok identity ∧
      o = mkDurableOpen (crr_file_id resp) (crr_end_of_file resp)
            (durable_of g (ho_generation h) resp grant identity) ∧
      ho_oplock_trees h' = (match do_durable o with
                            | Some d => <[dh_file_id d := tree_id t]> (ho_oplock_trees h)
                            | None => ho_oplock_trees h
                            end)
  | Err e => ho_oplock_trees h' = ho_oplock_trees h ∧
      ∀ rs resp, came_back h rs resp → granted resp = Err e
  | Panic => False
  end.

(** The last step of an open: the contexts are read and the handle kept or not. *)
Definition settle_open (t : Tree) (g : Guid) (resp : CreateResponse) (identity : option FileIdentity) : io Host DurableOpen :=
  answered ← io_lift (parse_contexts (crr_create_contexts resp));
  grant ← io_lift (find_grant answered);
  durable ← (match grant, identity with
             | Some grant, Some identity =>
                 register_oplock (crr_file_id resp) (tree_id t) ;;
                 gen ← generation;
                 mret (Some (mkDurableHandle (crr_file_id resp) grant identity g gen))
             | _, _ => mret None
             end);
  mret (mkDurableOpen (crr_file_id resp) (crr_end_of_file resp) durable).

Lemma settle_open_spec t g resp identity h :
  match granted resp with
  | Ok grant => ∃ h', settle_open t g resp identity h
      = Some (Ok (mkDurableOpen (crr_file_id resp) (crr_end_of_file resp)
                    (durable_of g (ho_generation h) resp grant identity)), h') ∧
      ho_dialog h' = ho_dialog h ∧
      ho_oplock_trees h' = (match durable_of g (ho_generation h) resp grant identity with
                            | Some d => <[dh_file_id d := tree_id t]> (ho_oplock_trees h)
                            | None => ho_oplock_trees h
                            end)
  | Err e => settle_open t g resp identity h = Some (Err e, h)
  | Panic => False
  end.
Proof.
  pose proof (granted_safe resp) as Hs. unfold granted in *. unfold settle_open, mbind, io_bind, io_lift in *.
  destruct (parse_contexts (crr_create_contexts resp)) as [a|e|]; [|done|done].
  cbn [result_bind] in *. destruct (find_grant a) as [[grant|]|e|]; [| |done|done]; destruct identity as [i|]; by eexists.
Qed.

(** An open is presented as durable exactly when it can be claimed back.  The handle
    is there if and only if the server answered with a durable grant and told which file
    it opened, it then carries the guid that was sent, and its oplock is registered;
    otherwise the open succeeds without a durable handle, and nothing is registered.
    Below SMB 3.0 neither the context nor an oplock is requested; from it on the request
    carries the durable context alone.  The open never panics, and it fails on a CREATE
    the server granted only if the contexts of the answer cannot be read. *)
Theorem open_durable_honest t g path h :
  Guid_wf g →
  ∃ r h' contexts, open_file_durable t g path h = Some (r, h') ∧ open_outcome t g path h h' contexts r.
Proof.
  intros Hg. unfold open_file_durable. unfold mbind at 1, io_bind at 1, dialect. cbv zeta.
  destruct (open_contexts_packed (durable_possible (ho_dialect h)) g Hg) as (cs & -> & Hcs).
  unfold mbind at 1, io_bind at 1, io_lift at 1. cbv beta iota.
  set (req := durable_create _ _ _ _).
  destruct (create_and_identify_spec t req h) as (r & h1 & E & Hr & (Ho & Hgen & Hd) & Hs & Ha & Hx).
  unfold mbind at 1, io_bind at 1. rewrite E.
  destruct r as [[f i]|e|]; [| |done].
  2: { exists (Err e), h1, cs. split; [done|]. split; [done|]. split; [done|]. split; [done|].
       intros rs resp (Hn & f & Hf & Hst & _). by destruct (Hx rs f). }
  destruct Hx as (rs & Hn & Hf & Hst & Hi). unfold mbind at 1, io_bind at 1, io_lift at 1.
  pose proof (unpack_body_no_panic CreateResponse (fr_body f)) as Hu.
  destruct (unpack_body CreateResponse (fr_body f)) as [resp|e|] eqn:Eu; [| |done].
  2: { exists (Err e), h1, cs. split; [done|]. split; [done|]. split; [done|]. split; [done|].
       intros rs' resp (Hn' & f' & Hf' & _ & Hu'). congruence. }
  assert (came_back h rs resp) as Hc by (split; [done|]; by exists f).
  pose proof (settle_open_spec t g resp i h1) as Ht. destruct (granted resp) as [grant|e|] eqn:Eg; [| |done].
  - destruct Ht as (h2 & Et & Hd2 & Ho2). rewrite Hgen, Ho in *. eexists _, h2, cs. split; [exact Et|].
    split; [done|]. rewrite Hd2. split; [done|]. by exists rs, resp, grant, i.
  - exists (Err e), h1, cs. split; [exact Ht|]. split; [done|]. split; [done|]. split; [done|]. intros rs' resp' Hc'.
    by destruct (came_back_unique _ _ _ _ _ Hc Hc') as [-> ->].
Qed.

(** ** Witnesses *)

Definition sample_guid : Guid := mkGuid 1 2 3 (to_le 8 4).
Definition sample_share : Tree := mkTree 5 [100] [115] false false.
Definition sample_handle : DurableHandle :=
  mkDurableHandle (mkFileId 1 2) (mkDurableGrant 60000 false) (mkFileIdentity 9 77) sample_guid 0.

Definition sample_answer (cmd : Command) (body : bytes) : reply :=
  Reply (mkFrame (mkHeader 1 0 cmd 1 1 0 0 (Some 5) None 0 (zeros 16)) body []).
Definition sample_created (contexts : bytes) : reply :=
  sample_answer Types.Create (body_of (mkCreateResponse Batch 0 FileOpened (mkFileTime 0) (mkFileTime 0)
    (mkFileTime 0) (mkFileTime 0) 0 0 0 (mkFileId 3 4) contexts)).
Definition sample_identity (index : Z) : list reply :=
  [sample_answer Types.QueryInfo (body_of (mkQueryInfoResponse (to_le 8 index)));
   sample_answer Types.QueryInfo (body_of (mkQueryInfoResponse (zeros 8 ++ to_le 4 9 ++ zeros 6)))].
Definition sample_host (rs : list reply) : Host :=
  mkHost (mkDialog [115] ∅ [] [] [inr rs]) {[mkFileId 1 2 := 5]} 1 (Some Smb3_1_1).

(** The same file comes back; then another one. *)
Lemma reclaim_needs_both_proofs_witness :
  ∃ r h' contexts closes,
    reclaim_durable_handle sample_share sample_handle [97] (sample_host (sample_created [] :: sample_identity 77)) = Some (r, h') ∧
    reclaim_outcome sample_share sample_handle [97] (sample_host (sample_created [] :: sample_identity 77)) h' contexts closes r.
Proof. apply reclaim_needs_both_proofs. by split_and!. Defined.

Example reclaims_the_same_file :
  option_map fst (reclaim_durable_handle sample_share sample_handle [97]
    (sample_host (sample_created [] :: sample_identity 77)))
  = Some (Ok (mkDurableHandle (mkFileId 3 4) (mkDurableGrant 60000 false) (mkFileIdentity 9 77) sample_guid 1)).
Proof. vm_compute. reflexivity. Qed.
Example refuses_another_file :
  option_map fst (reclaim_durable_handle sample_share sample_handle [97]
    (sample_host (sample_created [] :: sample_identity 78)))
  = Some (Err (DurableHandleLost [97] IdentityMismatch)).
Proof. vm_compute. reflexivity. Qed.

Lemma open_durable_honest_witness :
  ∃ r h' contexts,
    open_file_durable sample_share sample_guid [97] (sample_host (sample_created [] :: sample_identity 77)) = Some (r, h') ∧
    open_outcome sample_share sample_guid [97] (sample_host (sample_created [] :: sample_identity 77)) h' contexts r.
Proof. apply open_durable_honest. by split_and!. Defined.

(** A grant that is cut short fails the open after the server has opened the file, and
    the handle is not closed: nothing is sent after the compound. *)
Example short_grant_leaks_handle :
  match pack_contexts [mkCreateContext NAME_DH2Q (zeros 4)] with
  | Ok contexts =>
      match open_file_durable sample_share sample_guid [97] (sample_host (sample_created contexts :: sample_identity 77)) with
      | Some (Err (InvalidData _), h') => length (dl_sent (ho_dialog h')) = 1%nat
      | _ => False
      end
  | _ => False
  end.
Proof. vm_compute. reflexivity. Qed.
