(* ===== verification/Watcher.v ===== *)
(** * The directory watcher ([src/client/watcher.rs], [Tree::watch])

    A watcher keeps CHANGE_NOTIFY requests parked at the server: it arms the next one
    before it waits for the previous, and replaces requests that have been parked too
    long.  What the connection does with its calls is a script: each call
    ([dispatch], [await_long_poll_refreshable], [try_recv], [send_cancel]) takes its
    outcome from a list, whatever it holds; a script that has ended, or whose next entry
    is for another call, leaves the watcher waiting ([None]).  The connection's side of the
    wait is [Liveness.await_long_poll_loop].  What happened is kept in a log. *)

From S2P Require Import Prelude Types Fields Pack Codec Utf16 Name Header FileIo Create Session Connection Liveness Pipeline Exec Tree.

Definition DEFAULT_COMPLETION_FILTER : Z :=
  Z.lor (Z.lor (Z.lor (Z.lor (Z.lor FILE_NOTIFY_CHANGE_FILE_NAME FILE_NOTIFY_CHANGE_DIR_NAME)
    FILE_NOTIFY_CHANGE_ATTRIBUTES) FILE_NOTIFY_CHANGE_SIZE) FILE_NOTIFY_CHANGE_LAST_WRITE)
    FILE_NOTIFY_CHANGE_CREATION.
Definition OUTPUT_BUFFER_LENGTH : Z := 65536.

Inductive FileNotifyAction := Added | Removed | Modified | RenamedOldName | RenamedNewName.

#[global] Instance FileNotifyAction_eq_dec : EqDecision FileNotifyAction.
Proof. solve_decision. Defined.

Definition FileNotifyAction_from_u32 (value : Z) : result Error FileNotifyAction :=
  if value =? 1 then Ok Added else if value =? 2 then Ok Removed else if value =? 3 then Ok Modified
  else if value =? 4 then Ok RenamedOldName else if value =? 5 then Ok RenamedNewName
  else Err (invalid_data "unknown FILE_NOTIFY_INFORMATION action: {other:#010X}").

Record FileNotifyEvent := mkFileNotifyEvent { ne_action : FileNotifyAction; ne_filename : list Z }.

(** ** Parsing *)

Definition decode_utf16le (bs : bytes) : result Error (list Z) :=
  if negb (len bs mod 2 =? 0) then Err (invalid_data "UTF-16LE filename has odd byte count")
  else match from_utf16 (chunks_u16 bs) with
       | Some s => Ok s
       | None => Err (invalid_data "invalid UTF-16LE filename: {e}")
       end.

(** The loop at [offset]; every round but the last moves [offset] forward. *)
Fixpoint parse_notify_loop (fuel : nat) (data : bytes) (offset : Z) (events : list FileNotifyEvent) :
    result Error (list FileNotifyEvent) :=
  match fuel with
  | O => Panic
  | S fuel =>
      if offset + 12 >? len data
      then Err (invalid_data "FILE_NOTIFY_INFORMATION truncated: not enough bytes for fixed fields")
      else
        next_entry_offset ← le_at data offset (offset + 4);
        action_raw ← le_at data (offset + 4) (offset + 8);
        filename_length ← le_at data (offset + 8) (offset + 12);
        let filename_start := offset + 12 in
        let filename_end := filename_start + filename_length in
        if filename_end >? len data
        then Err (invalid_data "FILE_NOTIFY_INFORMATION filename extends beyond buffer: need {} bytes at offset {}, buffer is {} bytes")
        else
          filename_bytes ← slice data filename_start filename_end;
          name ← decode_utf16le filename_bytes;
          let filename := Name.decode_path name in
          action ← FileNotifyAction_from_u32 action_raw;
          let events := events ++ [mkFileNotifyEvent action filename] in
          if next_entry_offset =? 0 then Ok events
          else parse_notify_loop fuel data (offset + next_entry_offset) events
  end.

Definition parse_notify_information (data : bytes) : result Error (list FileNotifyEvent) :=
  if is_empty data then Ok [] else parse_notify_loop (S (length data)) data 0 [].

(** ** The connection of a watcher *)

(** What a call on the connection came to. *)
Inductive reaction :=
| OnDispatch (r : Error + nat)  (** message ids taken by other tasks meanwhile *)
| OnAwait (r : Error + option Frame) (aid : option Z)  (** no frame: a refresh is due *)
| OnTryRecv (r : option reply) (aid : option Z)
| OnCancel (r : option Error).

Inductive happening :=
| Armed (id : Z) (r : request)
| Refused (r : request)
| Delivered (id : Z) (f : Frame)
| Expired (id : Z)
| Broken (id : Z)
| Cancelled (id : Z) (aid : option Z)
| Dropped (id : Z).

Record Feed := mkFeed { fd_next : Z; fd_script : list reaction; fd_log : list happening }.

Definition feed_log (x : happening) (f : Feed) : Feed := mkFeed (fd_next f) (fd_script f) (fd_log f ++ [x]).

Record Watcher := mkWatcher {
  wt_tree : Tree; wt_file_id : FileId; wt_recursive : bool; wt_pending : option Z
}.

(** A watcher and its clone of the connection. *)
Abbreviation Watching := (Watcher * Feed)%type.

Definition Watcher_new (t : Tree) (file_id : FileId) (recursive : bool) : Watcher :=
  mkWatcher t file_id recursive None.

Definition set_pending (p : option Z) : io Watching unit := λ '(w, f),
  Some (Ok tt, (mkWatcher (wt_tree w) (wt_file_id w) (wt_recursive w) p, f)).
Definition get_pending : io Watching (option Z) := λ '(w, f), Some (Ok (wt_pending w), (w, f)).

(** A guard that goes out of scope. *)
Definition note (x : happening) : io Watching unit := λ '(w, f), Some (Ok tt, (w, feed_log x f)).
Definition drop_guard (g : option Z) : io Watching unit :=
  match g with Some id => note (Dropped id) | None => mret tt end.

(** The guard of an armed request is its message id. *)
Definition dispatch_call (r : request) : io Watching Z := λ '(w, f),
  match fd_script f with
  | OnDispatch (inr skipped) :: script =>
      let id := fd_next f + Z.of_nat skipped in
      Some (Ok id, (w, mkFeed (id + 1) script (fd_log f ++ [Armed id r])))
  | OnDispatch (inl e) :: script => Some (Err e, (w, mkFeed (fd_next f) script (fd_log f ++ [Refused r])))
  | _ => None
  end.

(** The guard is consumed whatever the outcome. *)
Definition await_call (g : Z) : io Watching LongPollOutcome := λ '(w, f),
  match fd_script f with
  | OnAwait (inr (Some frame)) _ :: script =>
      Some (Ok (Answered frame), (w, mkFeed (fd_next f) script (fd_log f ++ [Delivered g frame])))
  | OnAwait (inr None) aid :: script =>
      Some (Ok (RefreshDue g aid), (w, mkFeed (fd_next f) script (fd_log f ++ [Expired g])))
  | OnAwait (inl e) _ :: script => Some (Err e, (w, mkFeed (fd_next f) script (fd_log f ++ [Broken g])))
  | _ => None
  end.

(** [(sibling.async_id(), sibling.try_recv())] *)
Definition try_recv_call (g : Z) : io Watching (option reply * option Z) := λ '(w, f),
  match fd_script f with
  | OnTryRecv r aid :: script =>
      let log := match r with Some (Reply frame) => [Delivered g frame] | Some _ => [Broken g] | None => [] end in
      Some (Ok (r, aid), (w, mkFeed (fd_next f) script (fd_log f ++ log)))
  | _ => None
  end.

Definition cancel_call (id : Z) (aid : option Z) : io Watching unit := λ '(w, f),
  match fd_script f with
  | OnCancel r :: script => Some (match r with None => Ok tt | Some e => Err e end,
            (w, mkFeed (fd_next f) script (fd_log f ++ [Cancelled id aid])))
  | _ => None
  end.

(** ** The watcher *)

Definition notify_request (w : Watcher) : ChangeNotifyRequest :=
  mkChangeNotifyRequest (if wt_recursive w then SMB2_WATCH_TREE else 0) OUTPUT_BUFFER_LENGTH (wt_file_id w)
    DEFAULT_COMPLETION_FILTER.

Definition dispatch_next : io Watching Z := λ '(w, f),
  (body ← io_lift (packed (notify_request w));
   dispatch_call (mkRequest ChangeNotify body (Some (tree_id (wt_tree w))))) (w, f).

(** A failed cancel is logged and swallowed. *)
Definition retire (id : Z) (aid : option Z) : io Watching unit :=
  _ ← attempt (cancel_call id aid); mret tt.

(** The guards of a failing call go out of scope: [fresh] here, [sibling] on its own. *)
Definition refresh (retired : Z) (aid : option Z) : io Watching (option Frame) :=
  fresh ← dispatch_next;
  retire retired aid ;;
  sibling ← get_pending;
  set_pending None ;;
  answered ← (match sibling with
              | None => mret None
              | Some sibling =>
                  '(r, aid) ← try_recv_call sibling;
                  match r with
                  | Some (Reply frame) => mret (Some frame)
                  | Some (Failure e) => drop_guard (Some fresh) ;; io_err e
                  | None => drop_guard (Some sibling) ;; retire sibling aid ;; mret None
                  end
              end);
  set_pending (Some fresh) ;;
  mret answered.

(** The request a round waits for: the pending one, or the first. *)
Definition take_in_flight : io Watching Z :=
  pending ← get_pending;
  match pending with Some g => mret g | None => g ← dispatch_next; set_pending (Some g) ;; mret g end.

(** The loop of [next_events]. *)
Fixpoint next_frame (rounds : nat) : io Watching Frame :=
  match rounds with
  | O => λ _, None
  | S rounds =>
      in_flight ← take_in_flight;
      set_pending None ;;
      next ← attempt dispatch_next;
      match next with
      | Err e => drop_guard (Some in_flight) ;; io_err e
      | Panic => io_lift Panic
      | Ok next_rx =>
          set_pending (Some next_rx) ;;
          outcome ← await_call in_flight;
          match outcome with
          | Answered frame => mret frame
          | RefreshDue id aid =>
              answered ← refresh id aid;
              match answered with
              | Some frame => mret frame
              | None => next_frame rounds
              end
          end
      end
  end.

(** What [next_events] makes of the frame. *)
Definition events_of (frame : Frame) : result Error (list FileNotifyEvent) :=
  let st := status (fr_header frame) in
  if st =? NtStatus.NOTIFY_ENUM_DIR then Err (Protocol st ChangeNotify)
  else if negb (st =? NtStatus.SUCCESS) then Err (Protocol st ChangeNotify)
  else
    resp ← unpack_body ChangeNotifyResponse (fr_body frame);
    parse_notify_information (cnr_output_data resp).

Definition next_events (rounds : nat) : io Watching (list FileNotifyEvent) :=
  frame ← next_frame rounds; io_lift (events_of frame).

(** [Tree::watch] and [Watcher::close], which drops the pending guard and closes. *)
Section handle.
Context {C : Type} `{Wire C}.

Definition watch (t : Tree) (path : list Z) (recursive : bool) : io (World C) Watcher :=
  file_id ← open_directory t path; mret (Watcher_new t file_id recursive).
Definition watcher_close (w : Watcher) : io (World C) unit := close_handle (wt_tree w) (wt_file_id w).
End handle.

(** ** The parser *)

Lemma decode_utf16le_safe bs : decode_utf16le bs ≠ Panic.
Proof. unfold decode_utf16le. case_test; [done|]. by destruct (from_utf16 _). Qed.
Lemma action_safe v : FileNotifyAction_from_u32 v ≠ Panic.
Proof. unfold FileNotifyAction_from_u32. by repeat case_match. Qed.

Lemma parse_notify_loop_safe fuel data offset events :
  0 <= offset → Z.max 0 (len data - offset) < Z.of_nat fuel →
  parse_notify_loop fuel data offset events ≠ Panic.
Proof.
  revert offset events. induction fuel as [|fuel IH]; intros offset events Ho Hf; [lia|].
  cbn [parse_notify_loop]. case_test; [done|].
  destruct (le_at_ok data offset (offset + 4)) as [next En]; [lia|lia|].
  destruct (le_at_ok data (offset + 4) (offset + 8)) as [a Ea]; [lia|lia|].
  destruct (le_at_ok data (offset + 8) (offset + 12)) as [n El]; [lia|lia|].
  apply le_at_range in En as Hn; [|lia]. apply le_at_range in El as Hl; [|lia]. unfold in_range in Hn, Hl.
  rewrite En, Ea, El. cbn [mbind result_bind]. cbv zeta. case_test; [done|]. rewrite slice_ok by lia.
  cbn [mbind result_bind]. pose proof (decode_utf16le_safe (subslice data (offset + 12) (offset + 12 + n))).
  destruct (decode_utf16le _) as [s|e|]; [|done|done]. cbn [mbind result_bind].
  pose proof (action_safe a). destruct (FileNotifyAction_from_u32 a) as [k|e|]; [|done|done]. cbn [mbind result_bind].
  destruct (next =? 0) eqn:E; [done|]. bool_prop. apply IH; lia.
Qed.

Lemma parse_notify_safe data : parse_notify_information data ≠ Panic.
Proof. unfold parse_notify_information. case_test; [done|]. apply parse_notify_loop_safe; unfold len; lia. Qed.

(** A FILE_NOTIFY_INFORMATION record as a server lays it out (MS-FSCC 2.7.1). *)
Record NotifyRecord := mkNotifyRecord { nr_action : FileNotifyAction; nr_name : list Z; nr_padding : bytes }.

Definition action_code (a : FileNotifyAction) : Z :=
  match a with Added => 1 | Removed => 2 | Modified => 3 | RenamedOldName => 4 | RenamedNewName => 5 end.

Definition notify_len (r : NotifyRecord) : Z := 12 + len (utf16_le_bytes (nr_name r)) + len (nr_padding r).
Definition notify_fields (next : Z) (r : NotifyRecord) : bytes :=
  to_le 4 next ++ to_le 4 (action_code (nr_action r)) ++ to_le 4 (len (utf16_le_bytes (nr_name r))).

Fixpoint notify_bytes (l : list NotifyRecord) : bytes :=
  match l with
  | [] => []
  | r :: l =>
      notify_fields (if is_empty l then 0 else notify_len r) r ++ utf16_le_bytes (nr_name r) ++ nr_padding r ++ notify_bytes l
  end.

Definition NotifyRecord_wf (r : NotifyRecord) : Prop := str_wf (nr_name r) ∧ is_u32 (notify_len r).

(** What a consumer is told of a record. *)
Definition event_of (r : NotifyRecord) : FileNotifyEvent :=
  mkFileNotifyEvent (nr_action r) (Name.decode_path (nr_name r)).

Lemma decode_utf16le_back s : str_wf s → decode_utf16le (utf16_le_bytes s) = Ok s.
Proof.
  intros Hs. unfold decode_utf16le. rewrite len_utf16_even. cbn [Z.eqb negb]. unfold utf16_le_bytes.
  rewrite chunks_u16_to_le by by apply encode_utf16_u16. by rewrite from_utf16_encode.
Qed.

Lemma notify_fields_len next r : len (notify_fields next r) = 12.
Proof. unfold notify_fields. by autorewrite with len. Qed.

(** The three words of a record, wherever it is. *)
Lemma notify_words pre next r post :
  is_u32 next → is_u32 (len (utf16_le_bytes (nr_name r))) →
  let data := pre ++ notify_fields next r ++ post in let o := len pre in
  le_at data o (o + 4) = Ok next ∧ le_at data (o + 4) (o + 8) = Ok (action_code (nr_action r)) ∧
  le_at data (o + 8) (o + 12) = Ok (len (utf16_le_bytes (nr_name r))).
Proof.
  intros Hn Hl. cbv zeta. unfold notify_fields. rewrite <- !app_assoc. split_and!.
  - by apply le_at_app.
  - rewrite (app_assoc pre). apply le_at_app; [by autorewrite with len|autorewrite with len; lia|].
    by destruct (nr_action r).
  - rewrite (app_assoc pre), (app_assoc (pre ++ _)). apply le_at_app; [autorewrite with len; lia..|done].
Qed.

Lemma action_back a : FileNotifyAction_from_u32 (action_code a) = Ok a.
Proof. by destruct a. Qed.

Lemma parse_notify_records pre l fuel acc :
  Forall NotifyRecord_wf l → l ≠ [] → (length l <= fuel)%nat →
  parse_notify_loop fuel (pre ++ notify_bytes l) (len pre) acc = Ok (acc ++ map event_of l).
Proof.
  intros Hl. revert pre fuel acc. induction Hl as [|r l [Hn Hu] Hl IH]; intros pre fuel acc Hne Hf; [done|].
  destruct fuel as [|fuel]; [cbn in Hf; lia|]. cbn [length] in Hf. cbn [parse_notify_loop notify_bytes map].
  set (next := if is_empty l then 0 else notify_len r).
  set (rest := nr_padding r ++ notify_bytes l).
  pose proof (len_nonneg pre). pose proof (len_nonneg (utf16_le_bytes (nr_name r))). pose proof (len_nonneg rest).
  pose proof (len_nonneg (nr_padding r)). pose proof (notify_fields_len next r) as Hfl.
  assert (is_u32 next) by (unfold next; destruct (is_empty l); [done|exact Hu]).
  assert (is_u32 (len (utf16_le_bytes (nr_name r)))) by (unfold notify_len, in_range in *; lia).
  destruct (notify_words pre next r (utf16_le_bytes (nr_name r) ++ rest)) as (E1 & E2 & E3); [done|done|].
  rewrite E1, E2, E3. cbn [mbind result_bind]. cbv zeta. rewrite !len_app, Hfl.
  case_test; [lia|]. case_test; [lia|].
  rewrite (app_assoc pre), slice_app by (rewrite len_app, Hfl; lia). cbn [mbind result_bind].
  rewrite decode_utf16le_back by done. cbn [mbind result_bind]. rewrite action_back. cbn [mbind result_bind].
  fold (event_of r). unfold next. destruct (is_empty l) eqn:El; [by destruct l|].
  rewrite (proj2 (Z.eqb_neq _ _)) by (unfold notify_len; lia). unfold rest.
  rewrite <- (app_assoc pre), (app_assoc (utf16_le_bytes _)), (app_assoc (notify_fields _ _)), (app_assoc pre).
  replace (len pre + notify_len r) with (len (pre ++ notify_fields (notify_len r) r ++ utf16_le_bytes (nr_name r) ++ nr_padding r))
    by (rewrite !len_app, notify_fields_len; unfold notify_len; lia).
  rewrite IH; [|by destruct l|lia]. by rewrite <- app_assoc.
Qed.

Lemma notify_bytes_len l : Z.of_nat (length l) <= len (notify_bytes l).
Proof.
  induction l as [|r l IH]; [done|]. cbn [notify_bytes length]. rewrite !len_app, notify_fields_len.
  pose proof (len_nonneg (utf16_le_bytes (nr_name r))). pose proof (len_nonneg (nr_padding r)). lia.
Qed.

Lemma parse_notify_bytes l :
  Forall NotifyRecord_wf l → parse_notify_information (notify_bytes l) = Ok (map event_of l).
Proof.
  intros Hl. unfold parse_notify_information. pose proof (notify_bytes_len l) as Hb. destruct l as [|r l]; [done|].
  destruct (is_empty (notify_bytes (r :: l))) eqn:E.
  { destruct (notify_bytes (r :: l)); [rewrite len_nil in Hb; cbn [length] in Hb; lia|done]. }
  apply (parse_notify_records [] _ _ [] Hl); [done|]. unfold len in Hb. lia.
Qed.

Lemma events_of_safe frame : events_of frame ≠ Panic.
Proof.
  unfold events_of. case_test; [done|]. case_test; [done|].
  pose proof (unpack_body_no_panic ChangeNotifyResponse (fr_body frame)).
  destruct (unpack_body _ _) as [resp|e|]; [apply parse_notify_safe|done|done].
Qed.

(** ** Always armed *)

(** The requests whose answers the watcher would hear, and those parked at the server. *)
Definition hears (s : gset Z) (x : happening) : gset Z :=
  match x with
  | Armed id _ => s ∪ {[id]}
  | Delivered id _ | Expired id | Broken id | Dropped id => s ∖ {[id]}
  | Refused _ | Cancelled _ _ => s
  end.
Definition parks (s : gset Z) (x : happening) : gset Z :=
  match x with
  | Armed id _ => s ∪ {[id]}
  | Delivered id _ | Cancelled id _ => s ∖ {[id]}
  | _ => s
  end.
Definition heard (f : Feed) : gset Z := foldl hears ∅ (fd_log f).
Definition parked (f : Feed) : gset Z := foldl parks ∅ (fd_log f).

(** After each of these there is a request whose answer would be heard. *)
Fixpoint always_hears (s : gset Z) (log : list happening) : Prop :=
  match log with [] => True | x :: log => hears s x ≠ ∅ ∧ always_hears (hears s x) log end.

Definition is_failure (x : happening) : Prop := match x with Refused _ | Broken _ => True | _ => False end.

Fixpoint answers (log : list happening) : list Frame :=
  match log with [] => [] | Delivered _ f :: log => f :: answers log | _ :: log => answers log end.

(** What a watcher asks for, each time. *)
Definition asks (w : Watcher) : request :=
  mkRequest ChangeNotify (body_of (notify_request w)) (Some (tree_id (wt_tree w))).
Definition asks_only (w : Watcher) (x : happening) : Prop :=
  match x with Armed _ r | Refused r => r = asks w | _ => True end.

(** Between two calls: the pending request alone is parked, and heard. *)
Definition settled (w : Watcher) (f : Feed) : Prop :=
  match wt_pending w with
  | Some g => heard f = {[g]} ∧ parked f = {[g]} ∧ g < fd_next f
  | None => heard f = ∅ ∧ parked f = ∅
  end.

Definition with_pending (w : Watcher) (p : option Z) : Watcher :=
  mkWatcher (wt_tree w) (wt_file_id w) (wt_recursive w) p.

Lemma heard_log n s log new : heard (mkFeed n s (log ++ new)) = foldl hears (foldl hears ∅ log) new.
Proof. unfold heard. cbn [fd_log]. apply foldl_app. Qed.
Lemma parked_log n s log new : parked (mkFeed n s (log ++ new)) = foldl parks (foldl parks ∅ log) new.
Proof. unfold parked. cbn [fd_log]. apply foldl_app. Qed.

Lemma answers_app a b : answers (a ++ b) = answers a ++ answers b.
Proof. induction a as [|[] a IH]; cbn [answers app]; by rewrite ?IH. Qed.
Lemma always_hears_app s a b : always_hears s (a ++ b) ↔ always_hears s a ∧ always_hears (foldl hears s a) b.
Proof. revert s. induction a as [|x a IH]; intros s; cbn [always_hears app foldl]; [tauto|]. rewrite IH. tauto. Qed.

Lemma notify_packs w : packs (notify_request w).
Proof. packs_tac. Qed.

Lemma dispatch_next_inv w f r s :
  dispatch_next (w, f) = Some (r, s) →
  (∃ id script, r = Ok id ∧ fd_next f <= id ∧ s = (w, mkFeed (id + 1) script (fd_log f ++ [Armed id (asks w)]))) ∨
  (∃ e script, r = Err e ∧ s = (w, mkFeed (fd_next f) script (fd_log f ++ [Refused (asks w)]))).
Proof.
  unfold dispatch_next, asks, body_of. destruct (notify_packs w) as [body ->].
  unfold mbind, io_bind, io_lift, dispatch_call. destruct (fd_script f) as [|[[e|n]| | |] script]; try done.
  - intros [= <- <-]. right. by exists e, script.
  - intros [= <- <-]. left. eexists _, script. split; [done|]. split; [lia|done].
Qed.

Lemma retire_inv id aid w f r s :
  retire id aid (w, f) = Some (r, s) →
  r = Ok tt ∧ ∃ script, s = (w, mkFeed (fd_next f) script (fd_log f ++ [Cancelled id aid])).
Proof.
  unfold retire, attempt, cancel_call, mbind, io_bind. destruct (fd_script f) as [|[| | |[e|]] script]; try done;
    intros [= <- <-]; eauto.
Qed.

(** The replacement is armed, then the old request and its sibling are let go. *)
Lemma handover w f g n fresh aid tail nx sc :
  heard f = {[n]} → parked f = {[g; n]} → g ≠ n → g < fresh → n < fresh → fresh < nx →
  (∃ frame, tail = [Delivered n frame]) ∨ (∃ aid, tail = [Dropped n; Cancelled n aid]) →
  let new := Armed fresh (asks w) :: Cancelled g aid :: tail in
  settled (with_pending w (Some fresh)) (mkFeed nx sc (fd_log f ++ new)) ∧ always_hears {[n]} new.
Proof.
  intros Hh Hk Hgn Hg Hn Hnx Ht. cbv zeta. unfold settled. cbn [with_pending wt_pending fd_next].
  rewrite heard_log, parked_log. change (foldl hears ∅ (fd_log f)) with (heard f).
  change (foldl parks ∅ (fd_log f)) with (parked f). rewrite Hh, Hk. clear Hh Hk.
  assert (n ≠ fresh) as Hnf by lia. assert (g ≠ fresh) as Hgf by lia. clear Hg Hn.
  destruct Ht as [[frame ->]|[a ->]]; cbn [foldl hears parks always_hears]; split_and!; try done; set_solver.
Qed.

Lemma refresh_spec w f g n aid r w' f' :
  wt_pending w = Some n → heard f = {[n]} → parked f = {[g; n]} → g ≠ n → g < fd_next f → n < fd_next f →
  refresh g aid (w, f) = Some (r, (w', f')) →
  ∃ new, fd_log f' = fd_log f ++ new ∧ Forall (asks_only w) new ∧
    match r with
    | Ok a => ∃ k, w' = with_pending w (Some k) ∧ settled w' f' ∧ always_hears {[n]} new ∧ answers new = option_list a
    | Err _ => answers new = [] ∧ Exists is_failure new ∧ ∃ p, w' = with_pending w p
    | Panic => False
    end.
Proof.
  intros Hp Hh Hk Hgn Hg Hn. unfold refresh. intros E.
  apply io_bind_inv in E as [(fresh & [w1 f1] & E1 & E)|[(e & E1 & ->)|[E1 ->]]].
  2: { apply dispatch_next_inv in E1 as [(id & sc & [=] & _)|(e' & sc & [= <-] & [= -> ->])].
       exists [Refused (asks w)]. split; [done|]. split; [by repeat constructor|]. split; [done|].
       split; [by repeat constructor|]. exists (wt_pending w). by destruct w. }
  2: { by apply dispatch_next_inv in E1 as [(id & sc & [=] & _)|(e' & sc & [=] & _)]. }
  apply dispatch_next_inv in E1 as [(id & sc & [= <-] & Hid & [= -> ->])|(e' & sc & [=] & _)].
  apply io_bind_inv in E as [([] & [w2 f2] & E2 & E)|[(e & E2 & ->)|[E2 ->]]];
    apply retire_inv in E2 as ([=] & sc2 & [= -> ->]).
  cbn [fd_next fd_log] in E.
  unfold get_pending, set_pending in E. unfold mbind at 1 2 3, io_bind at 1 2 3 in E. rewrite Hp in E.
  rewrite <- app_assoc in E. cbn [app] in E. unfold try_recv_call, mbind at 1, io_bind at 1 in E.
  cbn [fd_script fd_next fd_log] in E. destruct sc2 as [|[| |o aid2|] sc3]; try done.
  destruct o as [[frame|e]|].
  - (* the sibling has its answer *)
    injection E as <- <- <-. exists [Armed fresh (asks w); Cancelled g aid; Delivered n frame].
    split; [cbn [fd_log]; by rewrite <- app_assoc|]. split; [by repeat constructor|]. exists fresh. split; [done|].
    rewrite <- app_assoc. edestruct (handover w f g n fresh aid [Delivered n frame]); eauto; lia.
  - (* the sibling failed *)
    injection E as <- <- <-. exists [Armed fresh (asks w); Cancelled g aid; Broken n; Dropped fresh].
    split; [unfold feed_log; cbn [fd_log]; by rewrite <- !app_assoc|]. split; [by repeat constructor|]. split; [done|].
    split; [by apply Exists_cons_tl, Exists_cons_tl, Exists_cons_hd|]. by exists None.
  - (* nothing came: it is retired too *)
    unfold drop_guard, note, feed_log, retire, attempt, cancel_call, mbind, io_bind in E.
    cbn [fd_script fd_next fd_log] in E. rewrite app_nil_r, <- !app_assoc in E.
    assert (∃ a sc4, r = Ok None ∧ w' = with_pending w (Some fresh) ∧
      f' = mkFeed (fresh + 1) sc4 (fd_log f ++ [Armed fresh (asks w); Cancelled g aid; Dropped n; Cancelled n a])) as (a & sc4 & -> & -> & ->).
    { destruct sc3 as [|[| | |[e|]] sc4]; try done; injection E as <- <- <-; by eexists _, _. }
    eexists. split; [done|]. split; [by repeat constructor|]. exists fresh. split; [done|].
    edestruct (handover w f g n fresh aid [Dropped n; Cancelled n a]); eauto; lia.
Qed.

Lemma take_in_flight_spec w f r w' f' :
  settled w f → take_in_flight (w, f) = Some (r, (w', f')) →
  ∃ new, fd_log f' = fd_log f ++ new ∧ Forall (asks_only w) new ∧ answers new = [] ∧
    match r with
    | Ok g => w' = with_pending w (Some g) ∧ settled w' f' ∧ always_hears (heard f) new
    | Err _ => w' = w ∧ Exists is_failure new
    | Panic => False
    end.
Proof.
  intros Hs. unfold take_in_flight, get_pending. unfold mbind at 1, io_bind at 1.
  destruct (wt_pending w) as [g|] eqn:Ep.
  { intros [= <- <- <-]. exists []. rewrite app_nil_r. split_and!; try done. destruct w; cbn in *; by subst. }
  unfold settled in Hs. rewrite Ep in Hs. destruct Hs as [Hh Hk]. intros E.
  apply io_bind_inv in E as [(g & [w1 f1] & E1 & E)|[(e & E1 & ->)|[E1 ->]]];
    apply dispatch_next_inv in E1 as [(id & sc & [=] & Hid & [= -> ->])|(e' & sc & [=] & [= -> ->])].
  - subst. injection E as <- <- <-. exists [Armed id (asks w)]. split; [done|]. split; [by repeat constructor|].
    split; [done|]. split; [done|]. unfold settled. cbn [wt_pending fd_next]. rewrite heard_log, parked_log.
    change (foldl hears ∅ (fd_log f)) with (heard f). change (foldl parks ∅ (fd_log f)) with (parked f).
    rewrite Hh, Hk. cbn [foldl hears parks always_hears]. rewrite !(left_id_L ∅ (∪)). split_and!; [done|done|lia|by apply non_empty_singleton_L|done].
  - subst. exists [Refused (asks w)]. split; [done|]. split; [by repeat constructor|]. split; [done|].
    split; [done|]. by repeat constructor.
Qed.

(** The log of a call: a frame was delivered, or something failed. *)
Definition call_ok (w : Watcher) (f : Feed) (r : result Error Frame) (w' : Watcher) (f' : Feed) : Prop :=
  ∃ new, fd_log f' = fd_log f ++ new ∧ Forall (asks_only w) new ∧
    match r with
    | Ok frame => answers new = [frame] ∧ settled w' f' ∧ (∃ k, w' = with_pending w (Some k)) ∧ always_hears (heard f) new
    | Err _ => answers new = [] ∧ Exists is_failure new ∧ ∃ p, w' = with_pending w p
    | Panic => False
    end.

(** A call that comes after quiet events. *)
Lemma call_after w w1 f f1 r w' f' new1 p :
  fd_log f1 = fd_log f ++ new1 → Forall (asks_only w) new1 → answers new1 = [] →
  always_hears (heard f) new1 → w1 = with_pending w p →
  call_ok w1 f1 r w' f' → call_ok w f r w' f'.
Proof.
  intros Hl Ha Han Hh -> (new & Hl' & Ha' & Hr). exists (new1 ++ new). rewrite Hl', Hl, <- app_assoc.
  split; [done|]. split; [by apply Forall_app|]. rewrite answers_app, Han. cbn [app].
  assert (heard f1 = foldl hears (heard f) new1) as Hf by (unfold heard; by rewrite Hl, foldl_app).
  destruct r as [frame|e|]; [| |done].
  - destruct Hr as (? & ? & [k ->] & Hh'). rewrite Hf in Hh'. split_and!; [done|done|by exists k|].
    by apply always_hears_app.
  - destruct Hr as (? & ? & [q ->]). split_and!; [done|by apply Exists_app; right|by exists q].
Qed.

(** A round whose request is due for a refresh, before rounds that behave. *)
Lemma refresh_round rounds w f1 g n aid sc r w' f' :
  (∀ w f, settled w f → next_frame rounds (w, f) = Some (r, (w', f')) → call_ok w f r w' f') →
  heard f1 = {[g]} → parked f1 = {[g]} → g < fd_next f1 → fd_next f1 <= n →
  (answered ← refresh g aid; match answered with Some frame => mret frame | None => next_frame rounds end)
    (with_pending w (Some n), mkFeed (n + 1) sc ((fd_log f1 ++ [Armed n (asks w)]) ++ [Expired g])) = Some (r, (w', f')) →
  call_ok (with_pending w (Some g)) f1 r w' f'.
Proof.
  intros IH Hh Hk Hg Hn E.
  rewrite <- app_assoc in E. cbn [app] in E.
  set (f2 := mkFeed (n + 1) sc (fd_log f1 ++ [Armed n (asks w); Expired g])).
  assert (heard f2 = {[n]} ∧ parked f2 = {[g; n]} ∧ always_hears (heard f1) [Armed n (asks w); Expired g]) as (Hh2 & Hk2 & Ha2).
  { unfold f2. rewrite heard_log, parked_log. change (foldl hears ∅ (fd_log f1)) with (heard f1).
    change (foldl parks ∅ (fd_log f1)) with (parked f1). rewrite Hh, Hk. assert (g ≠ n) as Hgn by lia.
    clear - Hgn. cbn [foldl hears parks always_hears]. split_and!; try done; set_solver. }
  apply (call_after _ (with_pending w (Some n)) f1 f2 _ _ _ [Armed n (asks w); Expired g] (Some n));
    [done|by repeat constructor|done|done|done|].
  clear Hh Hk Ha2. apply io_bind_inv in E as [(a & [w3 f3] & E3 & E)|[(e & E3 & ->)|[E3 ->]]];
    (destruct (refresh_spec (with_pending w (Some n)) f2 g n aid _ _ _ eq_refl Hh2 Hk2 ltac:(lia) ltac:(cbn; lia)
       ltac:(cbn; lia) E3) as (new & Hl & Ha & Hr)); [| |done].
  2: { exists new. split_and!; [done|done|..]; tauto. }
  destruct Hr as (k & -> & Hs & Hal & Hans). destruct a as [frame|].
  + injection E as <- <- <-. exists new. split_and!; [done|done|done|done|by exists k|by rewrite Hh2].
  + apply (call_after _ (with_pending w (Some k)) f2 f3 _ _ _ new (Some k));
      [done|done|done|by rewrite Hh2|done|]. by apply IH.
Qed.

Lemma next_frame_spec rounds w f r w' f' :
  settled w f → next_frame rounds (w, f) = Some (r, (w', f')) → call_ok w f r w' f'.
Proof.
  revert w f. induction rounds as [|rounds IH]; intros w f Hs; [done|]. cbn [next_frame]. intros E.
  apply io_bind_inv in E as [(g & [w1 f1] & E1 & E)|[(e & E1 & ->)|[E1 ->]]];
    destruct (take_in_flight_spec _ _ _ _ _ Hs E1) as (new & Hl & Ha & Han & Hr); [|..|done].
  2: { destruct Hr as [-> Hx]. exists new. split_and!; [done..|]. exists (wt_pending w). by destruct w. }
  destruct Hr as (-> & Hs1 & Hh). apply (call_after w (with_pending w (Some g)) f f1 _ _ _ new (Some g)); [done..|]. clear E1 Hl Ha Han Hh Hs new f.
  unfold settled in Hs1. cbn [with_pending wt_pending] in Hs1. destruct Hs1 as (Hh & Hk & Hg).
  unfold set_pending in E. unfold mbind at 1, io_bind at 1 in E. cbn [with_pending wt_tree wt_file_id wt_recursive] in E.
  fold (with_pending w None) in E. unfold attempt, mbind at 1, io_bind at 1 in E.
  destruct (dispatch_next (with_pending w None, f1)) as [[rn [w2 f2]]|] eqn:E2; [|done].
  apply dispatch_next_inv in E2 as [(n & sc & -> & Hn & [= -> ->])|(e & sc & -> & [= -> ->])].
  2: { injection E as <- <- <-. exists [Refused (asks w); Dropped g]. unfold feed_log. cbn [fd_log].
       split; [by rewrite <- app_assoc|]. split; [by repeat constructor|]. split; [done|].
       split; [by apply Exists_cons_hd|]. by exists None. }
  unfold mbind at 1, io_bind at 1, await_call, mbind at 1, io_bind at 1 in E.
  cbn [with_pending wt_tree wt_file_id wt_recursive fd_script fd_next fd_log] in E.
  destruct sc as [|[|[e|[frame|]] aid| |] sc]; try done.
  - (* the wait failed *)
    injection E as <- <- <-. exists [Armed n (asks w); Broken g]. cbn [fd_log].
    split; [by rewrite <- app_assoc|]. split; [by repeat constructor|]. split; [done|].
    split; [by apply Exists_cons_tl, Exists_cons_hd|]. by exists (Some n).
  - (* it was answered *)
    injection E as <- <- <-. exists [Armed n (asks w); Delivered g frame]. cbn [fd_log].
    split; [by rewrite <- app_assoc|]. split; [by repeat constructor|]. split; [done|].
    rewrite <- app_assoc. unfold settled. cbn [wt_pending fd_next app]. rewrite heard_log, parked_log.
    change (foldl hears ∅ (fd_log f1)) with (heard f1). change (foldl parks ∅ (fd_log f1)) with (parked f1).
    rewrite Hh, Hk. assert (g ≠ n) as Hgn by lia. clear Hh Hk IH. cbn [foldl hears parks always_hears].
    split_and!; [set_solver|set_solver|lia|by exists n|set_solver|set_solver|done].
  - (* a refresh is due *)
    by apply (refresh_round rounds w f1 g n aid sc r w' f').
Qed.

(** ** Properties *)


(** Change events are reported exactly.  A server that answers with a chain of
    FILE_NOTIFY_INFORMATION records, with whatever padding between them, has each of them
    reported once and in order, with its action and the path mapped back per component;
    and no bytes make the parser panic. *)
Theorem notify_events_exact frame l data :
  Forall NotifyRecord_wf l → len (notify_bytes l) <= MAX_UNPACK_BUFFER →
  status (fr_header frame) = NtStatus.SUCCESS → fr_body frame = body_of (mkChangeNotifyResponse (notify_bytes l)) →
  events_of frame = Ok (map event_of l) ∧ parse_notify_information data ≠ Panic.
Proof.
  intros Hl Hb Hst Hf. split; [|apply parse_notify_safe]. unfold events_of. rewrite Hst, Hf.
  change (NtStatus.SUCCESS =? NtStatus.NOTIFY_ENUM_DIR) with false. cbn [Z.eqb NtStatus.SUCCESS negb].
  rewrite (unpack_body_of ChangeNotifyResponse).
  - cbn [mbind result_bind cnr_output_data]. by apply parse_notify_bytes.
  - exact Hb.
Qed.

(** ** Witnesses *)

Definition watched_tree : Tree := mkTree 5 [100] [115] false false.
Definition sample_records : list NotifyRecord :=
  [mkNotifyRecord RenamedOldName [97; 92; 98] (zeros 2); mkNotifyRecord RenamedNewName [99] []].
Definition sample_frame : Frame :=
  mkFrame (mkHeader 1 0 ChangeNotify 1 1 0 0 (Some 5) None 0 (zeros 16))
    (body_of (mkChangeNotifyResponse (notify_bytes sample_records))) [].

(** A first call: armed, refreshed once, then answered. *)
Definition sample_feed : Feed :=
  mkFeed 7 [OnDispatch (inr 0%nat); OnDispatch (inr 2%nat); OnAwait (inr None) (Some 1);
            OnDispatch (inr 0%nat); OnCancel None; OnTryRecv None None; OnCancel (Some Disconnected);
            OnDispatch (inr 0%nat); OnAwait (inr (Some sample_frame)) None] [].
Definition sample_watcher : Watcher := Watcher_new watched_tree (mkFileId 1 2) true.


Lemma notify_events_exact_witness :
  events_of sample_frame = Ok [mkFileNotifyEvent RenamedOldName [97; 47; 98]; mkFileNotifyEvent RenamedNewName [99]].
Proof.
  apply (notify_events_exact sample_frame sample_records []); [|done|done|done].
  by repeat constructor.
Defined.

(** A failed answer to the sibling during a refresh takes the replacement down with it:
    nothing is armed any more, although it was armed first so that nothing after it could
    leave the directory unwatched. *)
Example failed_sibling_unarms :
  match next_events 5 (sample_watcher, mkFeed 7
          [OnDispatch (inr 0%nat); OnDispatch (inr 0%nat); OnAwait (inr None) None;
           OnDispatch (inr 0%nat); OnCancel None; OnTryRecv (Some (Failure Disconnected)) None] []) with
  | Some (Err _, (w', f')) => wt_pending w' = None ∧ heard f' = ∅ ∧ parked f' = {[8; 9]}
  | _ => False
  end.
Proof. vm_compute. split; [done|]. split; reflexivity. Qed.
