(* ===== verification/Utf8.v ===== *)
(** * UTF-8 strings

    [str::as_bytes] and [String::from_utf8] on strings as lists of scalar values. *)

From S2P Require Import Prelude Types Pack.
From Stdlib Require Strings.Ascii Strings.String.

Definition utf8_char (c : Z) : bytes :=
  map byte_of_u8
    (if c <? 0x80 then [c]
     else if c <? 0x800 then [0xC0 + c / 64; 0x80 + c mod 64]
     else if c <? 0x10000 then [0xE0 + c / 4096; 0x80 + c / 64 mod 64; 0x80 + c mod 64]
     else [0xF0 + c / 262144; 0x80 + c / 4096 mod 64; 0x80 + c / 64 mod 64; 0x80 + c mod 64]).

Definition utf8_bytes (s : list Z) : bytes := s ≫= utf8_char.

(** A continuation byte, as its six bits. *)
Definition continuation (b : byte) : option Z :=
  let v := u8_of_byte b in if (0x80 <=? v) && (v <? 0xC0) then Some (v - 0x80) else None.

(** A scalar value that is not encoded in more bytes than it needs. *)
Definition scalar (least c : Z) : option Z := if (least <=? c) && is_char c then Some c else None.

Fixpoint from_utf8 (bs : bytes) : option (list Z) :=
  match bs with
  | [] => Some []
  | b0 :: bs =>
      let v := u8_of_byte b0 in
      if v <? 0x80 then s ← from_utf8 bs; Some (v :: s)
      else if v <? 0xC0 then None
      else match bs with
      | [] => None
      | b1 :: bs =>
          c1 ← continuation b1;
          if v <? 0xE0 then c ← scalar 0x80 ((v - 0xC0) * 64 + c1); s ← from_utf8 bs; Some (c :: s)
          else match bs with
          | [] => None
          | b2 :: bs =>
              c2 ← continuation b2;
              if v <? 0xF0 then c ← scalar 0x800 ((v - 0xE0) * 4096 + c1 * 64 + c2); s ← from_utf8 bs; Some (c :: s)
              else match bs with
              | [] => None
              | b3 :: bs =>
                  c3 ← continuation b3;
                  c ← scalar 0x10000 ((v - 0xF0) * 262144 + c1 * 4096 + c2 * 64 + c3);
                  s ← from_utf8 bs; Some (c :: s)
              end
          end
      end
  end.

(** ** Lemmas *)

Lemma u8_small v : 0 <= v < 256 → u8_of_byte (byte_of_u8 v) = v.
Proof. intros Hv. rewrite u8_of_byte_of_u8. by apply Z.mod_small. Qed.

Lemma continuation_back v : 0 <= v < 64 → continuation (byte_of_u8 (0x80 + v)) = Some v.
Proof.
  intros Hv. unfold continuation. rewrite u8_small by lia. rewrite (proj2 (Z.leb_le _ _)), (proj2 (Z.ltb_lt _ _)) by lia.
  cbn [andb]. f_equal. lia.
Qed.
Lemma scalar_back least c : least <= c → is_char c = true → scalar least c = Some c.
Proof. intros Hl Hc. unfold scalar. by rewrite (proj2 (Z.leb_le _ _)), Hc. Qed.

Lemma is_char_range c : is_char c = true → 0 <= c < 0x110000.
Proof. unfold is_char. intros. bool_prop. lia. Qed.

Ltac decide_ltb :=
  repeat match goal with
  | |- context [?a <? ?b] => first [rewrite (proj2 (Z.ltb_lt a b)) by lia | rewrite (proj2 (Z.ltb_ge a b)) by lia]
  end.

Lemma from_utf8_char c bs : is_char c = true → from_utf8 (utf8_char c ++ bs) = s ← from_utf8 bs; Some (c :: s).
Proof.
  intros Hc. pose proof (is_char_range c Hc) as Hr. unfold utf8_char.
  pose proof (Z.div_mod c 64). pose proof (Z.mod_pos_bound c 64).
  pose proof (Z.div_mod (c / 64) 64). pose proof (Z.mod_pos_bound (c / 64) 64).
  pose proof (Z.div_mod (c / 4096) 64). pose proof (Z.mod_pos_bound (c / 4096) 64).
  assert (c / 64 / 64 = c / 4096) by (rewrite Z.div_div by lia; done).
  assert (c / 4096 / 64 = c / 262144) by (rewrite Z.div_div by lia; done).
  repeat case_test; cbn [map app from_utf8]; rewrite ?u8_small by lia; decide_ltb; try done;
    rewrite ?continuation_back by lia; cbn [mbind option_bind].
  - replace ((192 + c / 64 - 192) * 64 + c mod 64) with c by lia. by rewrite scalar_back by (lia || done).
  - replace ((224 + c / 4096 - 224) * 4096 + c / 64 mod 64 * 64 + c mod 64) with c by lia.
    by rewrite scalar_back by (lia || done).
  - replace ((240 + c / 262144 - 240) * 262144 + c / 4096 mod 64 * 4096 + c / 64 mod 64 * 64 + c mod 64) with c by lia.
    by rewrite scalar_back by (lia || done).
Qed.

Lemma from_utf8_back s : str_wf s → from_utf8 (utf8_bytes s) = Some s.
Proof.
  induction 1 as [|c s Hc Hs IH]; [done|]. unfold utf8_bytes. cbn [mbind list_bind]. fold (utf8_bytes s).
  rewrite from_utf8_char by done. by rewrite IH.
Qed.

(** A string literal of the source: its scalar values. *)
Definition literal (s : string) : list Z := map (λ c, Z.of_N (Ascii.N_of_ascii c)) (String.list_ascii_of_string s).
