(* ===== verification/KrbCrypto.v ===== *)
(** * Kerberos cryptography ([src/auth/kerberos/crypto.rs])

    The encryption profiles of RFC 3961, 3962 and 4757 over an abstract AES block cipher,
    HMAC-SHA1 and PBKDF2 ([KrbPrimitives]) and the MD4 and HMAC-MD5 of [Ntlm].  Random
    confounders are arguments. *)

From S2P Require Import Prelude Types Fields Pack Utf16 Utf8 Ntlm.

(** What the code uses of the crates [aes], [hmac], [sha1] and [pbkdf2]. *)
Class KrbPrimitives := {
  aes_block : bytes → bytes → bytes;     (** key, block: encrypt *)
  aes_unblock : bytes → bytes → bytes;   (** key, block: decrypt *)
  hmac_sha1 : bytes → bytes → bytes;
  pbkdf2_hmac_sha1 : bytes → bytes → Z → Z → bytes  (** password, salt, iterations, length *)
}.
Class KrbLaws `{KrbPrimitives} := {
  aes_block_len : ∀ k b, len b = 16 → len (aes_block k b) = 16;
  aes_unblock_len : ∀ k b, len b = 16 → len (aes_unblock k b) = 16;
  aes_unblock_block : ∀ k b, len b = 16 → aes_unblock k (aes_block k b) = b;
  hmac_sha1_len : ∀ k m, len (hmac_sha1 k m) = 20;
  pbkdf2_len : ∀ p s i n, 0 <= n → len (pbkdf2_hmac_sha1 p s i n) = n
}.

Inductive EncryptionType := Aes256CtsHmacSha196 | Aes128CtsHmacSha196 | Rc4Hmac.

#[global] Instance EncryptionType_eq_dec : EqDecision EncryptionType.
Proof. solve_decision. Defined.

Definition EncryptionType_code (e : EncryptionType) : Z :=
  match e with Aes256CtsHmacSha196 => 18 | Aes128CtsHmacSha196 => 17 | Rc4Hmac => 23 end.

Definition etype_from_i32 (val : Z) : result Error EncryptionType :=
  if val =? 18 then Ok Aes256CtsHmacSha196 else if val =? 17 then Ok Aes128CtsHmacSha196
  else if val =? 23 then Ok Rc4Hmac
  else Err (Auth "unsupported Kerberos encryption type: {val}").

(** ** n-fold *)

(** [while b != 0], with enough rounds ([Panic]-free by [gcd_loop_spec]). *)
Fixpoint gcd_loop (fuel : nat) (a b : Z) : Z :=
  match fuel with
  | O => a
  | S fuel => if b =? 0 then a else gcd_loop fuel b (a mod b)
  end.
Definition gcd (a b : Z) : Z := gcd_loop (S (Z.to_nat b)) a b.
Definition lcm (a b : Z) : Z := a / gcd a b * b.

(** Byte [byte_idx] of [input] rotated right by [rot] bits. *)
Definition rotated_byte (input : bytes) (rot byte_idx : Z) : Z :=
  let in_len := len input in
  let in_bits := in_len * 8 in
  let rot_mod := rot mod in_bits in
  let bit := (byte_idx * 8 + in_bits - rot_mod) mod in_bits in
  let b := bit / 8 in
  let s := bit mod 8 in
  let at_ i := u8_of_byte (nth (Z.to_nat i) input x00) in
  if s =? 0 then at_ b
  else trunc 8 (Z.lor (Z.shiftl (at_ b) s) (Z.shiftr (at_ ((b + 1) mod in_len)) (8 - s))).

(** [for i in 0..lcm_bytes], from [i] with [n] rounds left; the accumulators are [u32]. *)
Fixpoint nfold_sum (n : nat) (i : Z) (input : bytes) (output_len : Z) (acc : list Z) : list Z :=
  match n with
  | O => acc
  | S n =>
      let copy := i / len input in
      let byte_in_copy := i mod len input in
      let val := rotated_byte input (copy * 13) byte_in_copy in
      let out_idx := Z.to_nat (i mod output_len) in
      nfold_sum n (i + 1) input output_len (<[out_idx := nth out_idx acc 0 + val]> acc)
  end.

(** [for i in (0..output_len).rev()]: the bytes and the carry out of the first. *)
Fixpoint carry_pass (r : list Z) : list Z * Z :=
  match r with
  | [] => ([], 0)
  | x :: r =>
      let '(r, carry) := carry_pass r in
      let x := x + carry in
      (Z.land x 0xff :: r, Z.shiftr x 8)
  end.

(** [result[output_len - 1] += carry] *)
Fixpoint add_last (r : list Z) (c : Z) : list Z :=
  match r with [] => [] | [x] => [x + c] | x :: r => x :: add_last r c end.

(** The loop around it; running out of rounds is [Panic], which never happens. *)
Fixpoint carry_loop (fuel : nat) (r : list Z) : result Error (list Z) :=
  match fuel with
  | O => Panic
  | S fuel =>
      let '(r, carry) := carry_pass r in
      if carry =? 0 then Ok r else carry_loop fuel (add_last r carry)
  end.

(** An empty input divides by zero. *)
Definition nfold (input : bytes) (output_len : Z) : result Error bytes :=
  if is_empty input then Panic else
  let in_bits := len input * 8 in
  let out_bits := output_len * 8 in
  let lcm_bytes := lcm in_bits out_bits / 8 in
  let sums := nfold_sum (Z.to_nat lcm_bytes) 0 input output_len (repeat 0 (Z.to_nat output_len)) in
  r ← carry_loop 4 sums;
  Ok (map byte_of_u8 r).

(** ** Blocks *)

Section crypto.
Context `{KrbPrimitives} `{NtlmPrimitives}.

Definition valid_aes_key (key : bytes) : bool := (len key =? 16) || (len key =? 32).

Definition aes_ecb_encrypt (key block : bytes) : result Error bytes :=
  if negb (len block =? 16) then Panic else
  if valid_aes_key key then Ok (aes_block key block) else Panic.
Definition aes_ecb_decrypt (key block : bytes) : result Error bytes :=
  if negb (len block =? 16) then Panic else
  if valid_aes_key key then Ok (aes_unblock key block) else Panic.

(** [for j in 0..16 { block[j] ^= prev[j]; }] *)
Definition byte_xor (a b : byte) : byte := byte_of_u8 (Z.lxor (u8_of_byte a) (u8_of_byte b)).
Definition xor_bytes (a b : bytes) : bytes := zip_with byte_xor a b.

(** [for i in 0..n_blocks], on the data from block [i] on. *)
Fixpoint cbc_encrypt_loop (n_blocks : nat) (key prev data : bytes) : result Error bytes :=
  match n_blocks with
  | O => Ok []
  | S n =>
      encrypted ← aes_ecb_encrypt key (xor_bytes (take 16 data) prev);
      rest ← cbc_encrypt_loop n key encrypted (drop 16 data);
      Ok (encrypted ++ rest)
  end.
Definition aes_cbc_encrypt (key iv data : bytes) : result Error bytes :=
  if negb (len data mod 16 =? 0) then Panic else
  if negb (len iv =? 16) then Panic else
  cbc_encrypt_loop (Z.to_nat (len data / 16)) key iv data.

Fixpoint cbc_decrypt_loop (n_blocks : nat) (key prev data : bytes) : result Error bytes :=
  match n_blocks with
  | O => Ok []
  | S n =>
      let ct_block := take 16 data in
      decrypted ← aes_ecb_decrypt key ct_block;
      rest ← cbc_decrypt_loop n key ct_block (drop 16 data);
      Ok (xor_bytes decrypted prev ++ rest)
  end.
Definition aes_cbc_decrypt (key iv data : bytes) : result Error bytes :=
  if negb (len data mod 16 =? 0) then Panic else
  if negb (len iv =? 16) then Panic else
  cbc_decrypt_loop (Z.to_nat (len data / 16)) key iv data.

(** ** Cipher text stealing *)

(** [vec![0u8; n]] with a prefix copied in *)
Definition pad_to (n : Z) (l : bytes) : bytes := l ++ zeros (n - len l).

(** The last two blocks exchanged. *)
Definition swap_last_blocks (n_blocks : Z) (l : bytes) : bytes :=
  let second_last_start := (n_blocks - 2) * 16 in
  let last_start := (n_blocks - 1) * 16 in
  subslice l 0 second_last_start ++ subslice l last_start (last_start + 16)
  ++ subslice l second_last_start (second_last_start + 16).

Definition encrypt_aes_cts (key iv plaintext : bytes) : result Error bytes :=
  if is_empty plaintext then Ok [] else
  if len plaintext <=? 16 then
    if len iv <? 16 then Panic else
    aes_ecb_encrypt key (xor_bytes (pad_to 16 plaintext) (take 16 iv))
  else
    let n_blocks := div_ceil (len plaintext) 16 in
    cbc_out ← aes_cbc_encrypt key iv (pad_to (n_blocks * 16) plaintext);
    Ok (take (length plaintext) (swap_last_blocks n_blocks cbc_out)).

Definition decrypt_aes_cts (key iv ciphertext : bytes) : result Error bytes :=
  if is_empty ciphertext then Ok [] else
  if len ciphertext <=? 16 then
    if negb (len ciphertext =? 16)
    then Err (invalid_data "AES-CTS single-block ciphertext must be exactly 16 bytes, got {}") else
    pt ← aes_ecb_decrypt key ciphertext;
    if len iv <? 16 then Panic else Ok (xor_bytes pt (take 16 iv))
  else
    let orig_len := len ciphertext in
    let n_blocks := div_ceil orig_len 16 in
    let padded_ct := pad_to (n_blocks * 16) ciphertext in
    let second_last_start := (n_blocks - 2) * 16 in
    let last_start := (n_blocks - 1) * 16 in
    unswapped ←
      (if negb (orig_len mod 16 =? 0) then
         let tail_len := orig_len - (n_blocks - 1) * 16 in
         let c_n_minus_1 := subslice padded_ct second_last_start (second_last_start + 16) in
         intermediate ← aes_ecb_decrypt key c_n_minus_1;
         let reconstructed_last :=
           subslice padded_ct last_start (last_start + tail_len) ++ subslice intermediate tail_len 16 in
         Ok (subslice padded_ct 0 second_last_start ++ reconstructed_last ++ c_n_minus_1)
       else Ok (swap_last_blocks n_blocks padded_ct));
    plaintext ← aes_cbc_decrypt key iv unswapped;
    slice plaintext 0 orig_len.

(** ** Keys *)

(** [while result.len() < key_size]; one round per block. *)
Fixpoint dk_loop (fuel : nat) (key input out : bytes) : result Error bytes :=
  if len out <? len key then
    match fuel with
    | O => Panic
    | S fuel => encrypted ← aes_ecb_encrypt key input; dk_loop fuel key encrypted (out ++ encrypted)
    end
  else Ok (take (length key) out).

Definition dk_derive (base_key constant : bytes) : result Error bytes :=
  folded ← nfold constant 16;
  dk_loop (length base_key) base_key folded [].

Definition string_to_key_aes (password salt : list Z) (key_size : Z) : result Error bytes :=
  if negb ((key_size =? 16) || (key_size =? 32)) then Panic else
  dk_derive (pbkdf2_hmac_sha1 (utf8_bytes password) (utf8_bytes salt) 4096 key_size)
    [x6b; x65; x72; x62; x65; x72; x6f; x73].

Definition string_to_key_rc4 (password : list Z) : bytes := md4 (utf16_le_bytes password).

Definition derive_key_aes (base_key usage : bytes) : result Error bytes := dk_derive base_key usage.

Definition usage_enc (usage : Z) : bytes := to_be 4 usage ++ [xaa].
Definition usage_int (usage : Z) : bytes := to_be 4 usage ++ [x55].
Definition usage_chk (usage : Z) : bytes := to_be 4 usage ++ [x99].

(** [result[..12]] of the MAC *)
Definition hmac_sha1_96 (key data : bytes) : result Error bytes := slice (hmac_sha1 key data) 0 12.

(** [rc4_transform]: the same cipher as NTLM's. *)
Definition rc4_transform (key data : bytes) : result Error bytes := rc4_encrypt key data.

(** ** RC4-HMAC *)

Definition encrypt_rc4_hmac (key : bytes) (usage : Z) (confounder plaintext : bytes) : result Error bytes :=
  let k1 := hmac_md5 key (to_le 4 usage) in
  let payload := confounder ++ plaintext in
  let checksum := hmac_md5 k1 payload in
  let k3 := hmac_md5 k1 checksum in
  encrypted ← rc4_transform k3 payload;
  Ok (checksum ++ encrypted).

Definition decrypt_rc4_hmac (key : bytes) (usage : Z) (ciphertext : bytes) : result Error bytes :=
  if len ciphertext <? 24
  then Err (invalid_data "RC4-HMAC ciphertext too short (need at least 16-byte checksum + 8-byte confounder)") else
  checksum ← slice ciphertext 0 16;
  encrypted_data ← slice ciphertext 16 (len ciphertext);
  let k1 := hmac_md5 key (to_le 4 usage) in
  let k3 := hmac_md5 k1 checksum in
  payload ← rc4_transform k3 encrypted_data;
  let computed_checksum := hmac_md5 k1 payload in
  if negb (bool_decide (computed_checksum = checksum))
  then Err (invalid_data "RC4-HMAC checksum verification failed") else
  if len payload <? 8 then Err (invalid_data "RC4-HMAC decrypted payload too short") else
  slice payload 8 (len payload).

(** ** The profiles *)

Definition compute_checksum (key : bytes) (usage : Z) (data : bytes) (etype : EncryptionType) : result Error bytes :=
  match etype with
  | Aes128CtsHmacSha196 | Aes256CtsHmacSha196 =>
      kc ← derive_key_aes key (usage_chk usage);
      hmac_sha1_96 kc data
  | Rc4Hmac => Ok (hmac_md5 (hmac_md5 key (to_le 4 usage)) data)
  end.

(** The arm both AES types share. *)
Definition kerberos_encrypt_aes (base_key : bytes) (usage : Z) (confounder plaintext : bytes) : result Error bytes :=
  ke ← derive_key_aes base_key (usage_enc usage);
  ki ← derive_key_aes base_key (usage_int usage);
  let full_plain := confounder ++ plaintext in
  hmac ← hmac_sha1_96 ki full_plain;
  ciphertext ← encrypt_aes_cts ke (zeros 16) full_plain;
  Ok (ciphertext ++ hmac).

(** The confounder is 16 random bytes for AES and 8 for RC4. *)
Definition kerberos_encrypt (base_key : bytes) (usage : Z) (confounder plaintext : bytes) (etype : EncryptionType) :
    result Error bytes :=
  match etype with
  | Aes128CtsHmacSha196 | Aes256CtsHmacSha196 => kerberos_encrypt_aes base_key usage confounder plaintext
  | Rc4Hmac => encrypt_rc4_hmac base_key usage confounder plaintext
  end.

Definition kerberos_decrypt_aes (base_key : bytes) (usage : Z) (ciphertext : bytes) : result Error bytes :=
  if len ciphertext <? 12 + 16
  then Err (invalid_data "Kerberos AES ciphertext too short (need at least confounder + HMAC)") else
  let hmac_offset := len ciphertext - 12 in
  enc_data ← slice ciphertext 0 hmac_offset;
  expected_hmac ← slice ciphertext hmac_offset (len ciphertext);
  ke ← derive_key_aes base_key (usage_enc usage);
  ki ← derive_key_aes base_key (usage_int usage);
  full_plain ← decrypt_aes_cts ke (zeros 16) enc_data;
  computed_hmac ← hmac_sha1_96 ki full_plain;
  if negb (bool_decide (computed_hmac = expected_hmac))
  then Err (Auth "Kerberos AES HMAC verification failed") else
  if len full_plain <? 16 then Err (invalid_data "Kerberos AES decrypted data too short for confounder") else
  slice full_plain 16 (len full_plain).

Definition kerberos_decrypt (base_key : bytes) (usage : Z) (ciphertext : bytes) (etype : EncryptionType) :
    result Error bytes :=
  match etype with
  | Aes128CtsHmacSha196 | Aes256CtsHmacSha196 => kerberos_decrypt_aes base_key usage ciphertext
  | Rc4Hmac => decrypt_rc4_hmac base_key usage ciphertext
  end.

End crypto.

(** The vectors of RFC 3961. *)
Definition hex (z : Z) (n : nat) : bytes := to_be n z.
Example nfold_rfc3961 :
  nfold [x30; x31; x32; x33; x34; x35] 8 = Ok (hex 0xbe072631276b1955 8) ∧
  nfold [x70; x61; x73; x73; x77; x6f; x72; x64] 7 = Ok (hex 0x78a07b6caf85fa 7) ∧
  nfold [x6b; x65; x72; x62; x65; x72; x6f; x73] 16 = Ok (hex 0x6b65726265726f737b9b5b2b93132b93 16) ∧
  nfold [x6b; x65; x72; x62; x65; x72; x6f; x73] 21 = Ok (hex 0x8372c236344e5f1550cd0747e15d62ca7a5a3bcea4 21).
Proof. vm_compute. by split_and!. Qed.

(** ** Blocks and their chaining *)

Lemma byte_xor_twice a b : byte_xor (byte_xor a b) b = a.
Proof. apply xor_twice. Qed.

Lemma xor_bytes_twice a b : length a = length b → xor_bytes (xor_bytes a b) b = a.
Proof.
  revert b. induction a as [|x a IH]; intros [|y b] Hl; try done. cbn. unfold xor_bytes in IH.
  rewrite byte_xor_twice, IH; [done|]. by injection Hl.
Qed.
Lemma length_xor a b : length a = length b → length (xor_bytes a b) = length a.
Proof. intros Hl. unfold xor_bytes. rewrite length_zip_with. lia. Qed.
Lemma xor_drop n a b : drop n (xor_bytes a b) = xor_bytes (drop n a) (drop n b).
Proof. apply zip_with_drop. Qed.
Lemma byte_xor_zero b : byte_xor x00 b = b.
Proof.
  unfold byte_xor. change (u8_of_byte x00) with 0. rewrite Z.lxor_0_l. apply byte_of_u8_of_byte.
Qed.
Lemma xor_zeros n b : length b = Z.to_nat n → xor_bytes (zeros n) b = b.
Proof.
  unfold zeros, xor_bytes. intros Hb. revert Hb. generalize (Z.to_nat n). intros k. revert k.
  induction b as [|x b IH]; intros [|k] Hb; try done. cbn. rewrite byte_xor_zero. f_equal. apply IH. by injection Hb.
Qed.

Section chaining.
Context `{KrbLaws} `{NtlmPrimitives}.
Context (key : bytes) (Hkey : valid_aes_key key = true).

Lemma len_16 (b : bytes) : length b = 16%nat ↔ len b = 16.
Proof. unfold len. lia. Qed.

Lemma ecb_encrypt_ok b : length b = 16%nat → aes_ecb_encrypt key b = Ok (aes_block key b).
Proof. intros Hb%len_16. unfold aes_ecb_encrypt. by rewrite Hb, Hkey. Qed.
Lemma ecb_decrypt_ok b : length b = 16%nat → aes_ecb_decrypt key b = Ok (aes_unblock key b).
Proof. intros Hb%len_16. unfold aes_ecb_decrypt. by rewrite Hb, Hkey. Qed.
Lemma length_block b : length b = 16%nat → length (aes_block key b) = 16%nat.
Proof. rewrite !len_16. apply aes_block_len. Qed.
Lemma length_unblock b : length b = 16%nat → length (aes_unblock key b) = 16%nat.
Proof. rewrite !len_16. apply aes_unblock_len. Qed.
Lemma unblock_block b : length b = 16%nat → aes_unblock key (aes_block key b) = b.
Proof. rewrite len_16. apply aes_unblock_block. Qed.

Lemma length_take_16 n (l : bytes) : length l = (16 * S n)%nat → length (take 16 l) = 16%nat ∧ length (drop 16 l) = (16 * n)%nat.
Proof. intros Hl. rewrite length_take, length_drop. lia. Qed.

(** CBC is undone block by block. *)
Lemma cbc_round_trip n prev data :
  length data = (16 * n)%nat → length prev = 16%nat →
  ∃ ct, cbc_encrypt_loop n key prev data = Ok ct ∧ length ct = length data ∧ cbc_decrypt_loop n key prev ct = Ok data.
Proof.
  revert prev data. induction n as [|n IH]; intros prev data Hd Hp.
  { exists []. destruct data; [done|cbn in Hd; lia]. }
  cbn [cbc_encrypt_loop]. destruct (length_take_16 n data Hd) as [Ht Hr].
  assert (length (xor_bytes (take 16 data) prev) = 16%nat) as Hx by (rewrite length_xor; lia).
  rewrite ecb_encrypt_ok by done. cbn [mbind result_bind]. pose proof (length_block _ Hx) as Hb.
  destruct (IH (aes_block key (xor_bytes (take 16 data) prev)) (drop 16 data) Hr Hb) as (ct & -> & Hl & Hdec).
  cbn [mbind result_bind]. eexists. split; [done|]. split; [rewrite length_app; lia|]. cbn [cbc_decrypt_loop].
  rewrite take_app_length', drop_app_length' by lia. rewrite ecb_decrypt_ok by done. cbn [mbind result_bind].
  rewrite Hdec. cbn [mbind result_bind]. rewrite unblock_block by done. rewrite xor_bytes_twice by lia.
  by rewrite take_drop.
Qed.

Lemma cbc_encrypt_S n prev data :
  cbc_encrypt_loop (S n) key prev data
  = encrypted ← aes_ecb_encrypt key (xor_bytes (take 16 data) prev);
    rest ← cbc_encrypt_loop n key encrypted (drop 16 data); Ok (encrypted ++ rest).
Proof. done. Qed.

(** The last two blocks of a chain. *)
Lemma cbc_last_blocks n prev data b :
  length data = (16 * S n)%nat → length prev = 16%nat → length b = 16%nat →
  ∃ h c, length h = (16 * n)%nat ∧ length c = 16%nat ∧
    cbc_encrypt_loop (S (S n)) key prev (data ++ b) = Ok (h ++ c ++ aes_block key (xor_bytes b c)).
Proof.
  revert prev data. induction n as [|n IH]; intros prev data Hd Hp Hb; destruct (length_take_16 _ data Hd) as [Ht Hr];
    rewrite cbc_encrypt_S;
    (assert (length (xor_bytes (take 16 data) prev) = 16%nat) as Hx by (rewrite length_xor; lia));
    rewrite take_app_le, drop_app_le by lia; rewrite ecb_encrypt_ok by done; cbn [mbind result_bind];
    pose proof (length_block _ Hx) as Hc; set (c0 := aes_block key _) in *.
  - assert (drop 16 data = []) as -> by (apply nil_length_inv; lia). cbn [app cbc_encrypt_loop].
    rewrite take_ge by lia. assert (length (xor_bytes b c0) = 16%nat) as Hx' by (rewrite length_xor; lia).
    rewrite ecb_encrypt_ok by done. cbn [mbind result_bind]. exists [], c0. split_and!; [done|done|].
    by rewrite app_nil_r.
  - destruct (IH c0 (drop 16 data)) as (h & c & Hh & Hc' & ->); [lia|done|done|]. cbn [mbind result_bind].
    exists (c0 ++ h), c. split_and!; [rewrite length_app; lia|done|]. by rewrite <- app_assoc.
Qed.

(** ** Cipher text stealing *)

Lemma swap_last_parts (k : nat) (h x y : bytes) :
  length h = (16 * k)%nat → length x = 16%nat → length y = 16%nat →
  swap_last_blocks (Z.of_nat k + 2) (h ++ x ++ y) = h ++ y ++ x.
Proof.
  intros Hh Hx Hy. unfold swap_last_blocks. assert (len h = 16 * Z.of_nat k) as Hh' by (unfold len; lia).
  apply len_16 in Hx as Hx'. apply len_16 in Hy as Hy'.
  rewrite (subslice_full_prefix h) by lia. f_equal. f_equal.
  - rewrite (app_assoc h x y). apply subslice_suffix; rewrite len_app; lia.
  - apply subslice_app; lia.
Qed.

(** The lengths of a text of [k + 2] blocks, the last of [t] bytes. *)
Lemma stolen_lengths (pt : bytes) (k t : nat) :
  length pt = (16 * S k + t)%nat → (0 < t <= 16)%nat →
  div_ceil (len pt) 16 = Z.of_nat k + 2 ∧ is_empty pt = false ∧ (len pt <=? 16) = false.
Proof.
  intros Hl Ht. assert (len pt = 16 * (Z.of_nat k + 1) + Z.of_nat t) as Hz by (unfold len; lia).
  split; [|split; [destruct pt; [cbn in Hl; lia|done]|lia]].
  pose proof (div_ceil_spec (len pt) 16). lia.
Qed.

Lemma cbc_encrypt_ok n iv data :
  length data = (16 * n)%nat → length iv = 16%nat → aes_cbc_encrypt key iv data = cbc_encrypt_loop n key iv data.
Proof.
  intros Hd Hi%len_16. unfold aes_cbc_encrypt. assert (len data = Z.of_nat n * 16) as -> by (unfold len; lia).
  rewrite Z_mod_mult, Z_div_mult, Hi, Nat2Z.id by lia. done.
Qed.
Lemma cbc_decrypt_ok n iv data :
  length data = (16 * n)%nat → length iv = 16%nat → aes_cbc_decrypt key iv data = cbc_decrypt_loop n key iv data.
Proof.
  intros Hd Hi%len_16. unfold aes_cbc_decrypt. assert (len data = Z.of_nat n * 16) as -> by (unfold len; lia).
  rewrite Z_mod_mult, Z_div_mult, Hi, Nat2Z.id by lia. done.
Qed.

(** What stealing makes of a text of more than one block. *)
Lemma cts_encrypted (k t : nat) iv d b0 :
  length iv = 16%nat → length d = (16 * S k)%nat → length b0 = t → (0 < t <= 16)%nat →
  ∃ h c, length h = (16 * k)%nat ∧ length c = 16%nat ∧
    let b := b0 ++ zeros (16 - Z.of_nat t) in let e := aes_block key (xor_bytes b c) in
    encrypt_aes_cts key iv (d ++ b0) = Ok (h ++ e ++ take t c) ∧
    cbc_decrypt_loop (S (S k)) key iv (h ++ c ++ e) = Ok (d ++ b).
Proof.
  intros Hi Hd Hb Ht. cbv zeta. set (b := b0 ++ zeros (16 - Z.of_nat t)).
  assert (length b = 16%nat) as Hb16 by (unfold b, zeros; rewrite length_app, length_replicate; lia).
  destruct (cbc_last_blocks k iv d b Hd Hi Hb16) as (h & c & Hh & Hc & E). exists h, c. split; [done|]. split; [done|].
  destruct (cbc_round_trip (S (S k)) iv (d ++ b)) as (ct & E' & _ & Hdec); [rewrite length_app; lia|done|].
  rewrite E in E'. injection E' as <-. split; [|exact Hdec].
  destruct (stolen_lengths (d ++ b0) k t) as (Hn & He & H16); [rewrite length_app; lia|done|].
  unfold encrypt_aes_cts. rewrite He, H16, Hn. cbv zeta.
  assert (pad_to ((Z.of_nat k + 2) * 16) (d ++ b0) = d ++ b) as ->.
  { unfold pad_to, b. rewrite <- app_assoc. do 3 f_equal. unfold len. rewrite length_app. lia. }
  rewrite (cbc_encrypt_ok (S (S k))), E by (rewrite ?length_app; lia). cbn [mbind result_bind].
  assert (length (xor_bytes b c) = 16%nat) as Hx by (rewrite length_xor; lia).
  pose proof (length_block _ Hx). rewrite swap_last_parts by done. f_equal.
  rewrite app_assoc, take_app_ge by (rewrite !length_app; lia). rewrite app_assoc. f_equal. f_equal. rewrite !length_app. lia.
Qed.

Lemma cts_decrypted (k t : nat) iv h c e :
  length iv = 16%nat → length h = (16 * k)%nat → length c = 16%nat → length e = 16%nat → (0 < t <= 16)%nat →
  (t < 16 → drop t (aes_unblock key e) = drop t c)%nat →
  decrypt_aes_cts key iv (h ++ e ++ take t c)
  = plaintext ← cbc_decrypt_loop (S (S k)) key iv (h ++ c ++ e); slice plaintext 0 (16 * (Z.of_nat k + 1) + Z.of_nat t).
Proof.
  intros Hi Hh Hc He Ht Hu. set (ct := h ++ e ++ take t c).
  assert (length ct = (16 * S k + t)%nat) as Hct by (unfold ct; rewrite !length_app, length_take; lia).
  destruct (stolen_lengths ct k t Hct Ht) as (Hn & Hne & H16).
  assert (len ct = 16 * (Z.of_nat k + 1) + Z.of_nat t) as Hlen by (unfold len; lia).
  unfold decrypt_aes_cts. rewrite Hne, H16, Hn. cbv zeta. rewrite Hlen.
  assert (cbc_decrypt_loop (S (S k)) key iv (h ++ c ++ e) = aes_cbc_decrypt key iv (h ++ c ++ e)) as ->
    by (symmetry; apply cbc_decrypt_ok; [rewrite !length_app; lia|done]).
  assert (pad_to ((Z.of_nat k + 2) * 16) ct = h ++ e ++ (take t c ++ zeros (16 - Z.of_nat t))) as Hpad.
  { unfold pad_to, ct. rewrite <- !app_assoc. do 4 f_equal. unfold ct in Hlen. rewrite Hlen. lia. }
  rewrite Hpad. replace ((16 * (Z.of_nat k + 1) + Z.of_nat t) mod 16) with (Z.of_nat t mod 16)
    by (rewrite <- Z.add_mod_idemp_l, Z.mul_comm, Z_mod_mult; done).
  destruct (Nat.eq_dec t 16%nat) as [->|Hne16].
  - change (Z.of_nat 16%nat mod 16 =? 0) with true. cbn [negb mbind result_bind].
    change (zeros (16 - Z.of_nat 16%nat)) with (@nil byte). rewrite app_nil_r, take_ge by lia. by rewrite swap_last_parts.
  - rewrite (proj2 (Z.eqb_neq _ _)) by (rewrite Z.mod_small by lia; lia). cbn [negb].
    assert (len h = 16 * Z.of_nat k) as Hh' by (unfold len; lia). apply len_16 in He as He'.
    rewrite (subslice_app h e _ ((Z.of_nat k + 2 - 2) * 16)) by lia. rewrite ecb_decrypt_ok by done. cbn [mbind result_bind].
    rewrite (subslice_full_prefix h) by lia. do 2 f_equal. f_equal. f_equal.
    rewrite (app_assoc h e), (subslice_app (h ++ e) (take t c)) by (unfold len in *; rewrite ?length_app, ?length_take; lia).
    rewrite <- (take_drop t c) at 2. f_equal. rewrite <- Hu by lia.
    pose proof (length_unblock e He). unfold subslice.
    replace (16 * (Z.of_nat k + 1) + Z.of_nat t - (Z.of_nat k + 2 - 1) * 16) with (Z.of_nat t) by lia.
    rewrite Nat2Z.id, take_ge by (rewrite length_drop; lia). done.
Qed.

Lemma one_block iv pt :
  length iv = 16%nat → length pt = 16%nat →
  ∃ ct, encrypt_aes_cts key iv pt = Ok ct ∧ len ct = len pt ∧ decrypt_aes_cts key iv ct = Ok pt.
Proof.
  intros Hi Hp. assert (∀ l : bytes, length l = 16%nat → is_empty l = false) as He by by intros [|].
  assert (len pt = 16 ∧ len iv = 16) as [Hp' Hi'] by by rewrite <- !len_16.
  unfold encrypt_aes_cts. rewrite He, Hp', Hi', (take_ge iv) by (done || lia).
  cbn [Z.leb Z.ltb Z.compare Pos.compare Pos.compare_cont]. unfold pad_to. rewrite Hp'.
  change (zeros (16 - 16)) with (@nil byte). rewrite app_nil_r.
  assert (length (xor_bytes pt iv) = 16%nat) as Hx by (rewrite length_xor; lia).
  rewrite ecb_encrypt_ok by done. eexists. split; [done|]. pose proof (length_block _ Hx) as Hb.
  split; [by apply len_16|]. unfold decrypt_aes_cts. apply len_16 in Hb as Hb'. rewrite He, Hb', Hi' by done.
  cbn [Z.leb Z.compare Pos.compare Pos.compare_cont Z.eqb Pos.eqb negb].
  rewrite ecb_decrypt_ok by done. cbn [mbind result_bind Z.ltb Z.compare Pos.compare Pos.compare_cont].
  rewrite (take_ge iv) by lia. by rewrite unblock_block, xor_bytes_twice by (lia || done).
Qed.

(** Decryption undoes encryption of one block or more. *)
Lemma cts_round_trip iv pt :
  length iv = 16%nat → 16 <= len pt →
  ∃ ct, encrypt_aes_cts key iv pt = Ok ct ∧ len ct = len pt ∧ decrypt_aes_cts key iv ct = Ok pt.
Proof.
  intros Hi Hp. destruct (decide (len pt = 16)) as [E|E]; [apply one_block; [done|by apply len_16]|].
  pose proof (div_ceil_spec (len pt) 16 ltac:(lia) ltac:(lia)) as Hd.
  set (k := Z.to_nat (div_ceil (len pt) 16 - 2)). set (t := (length pt - 16 * S k)%nat).
  assert (length pt = (16 * S k + t)%nat ∧ (0 < t <= 16)%nat) as [Hl Ht] by (unfold t, k, len in *; lia).
  destruct (cts_encrypted k t iv (take (16 * S k) pt) (drop (16 * S k) pt)) as (h & c & Hh & Hc & Eenc & Edec);
    [done|rewrite length_take; lia|rewrite length_drop; lia|done|]. rewrite take_drop in Eenc. eexists. split; [exact Eenc|].
  set (b := drop (16 * S k) pt ++ zeros (16 - Z.of_nat t)) in *.
  assert (length b = 16%nat) as Hb by (unfold b, zeros; rewrite length_app, length_drop, length_replicate; lia).
  assert (length (xor_bytes b c) = 16%nat) as Hx by (rewrite length_xor; lia). pose proof (length_block _ Hx).
  split; [unfold len; rewrite !length_app, length_take; lia|].
  rewrite (cts_decrypted k t); [|done..|].
  - rewrite Edec. cbn [mbind result_bind]. unfold b. rewrite app_assoc, take_drop.
    assert (16 * (Z.of_nat k + 1) + Z.of_nat t = len pt) as -> by (unfold len; lia).
    rewrite slice_ok by (rewrite ?len_app; pose proof (len_nonneg (zeros (16 - Z.of_nat t))); lia).
    by rewrite subslice_full_prefix.
  - intros Hlt. rewrite unblock_block by done. rewrite xor_drop. unfold b.
    rewrite drop_app_length' by (rewrite length_drop; lia). apply xor_zeros. rewrite length_drop. lia.
Qed.

End chaining.
