(* ===== verification/KrbFold.v ===== *)
(** * n-fold (RFC 3961, section 5.1) against its definition

    The sum in one's-complement arithmetic of the chunks of a concatenation of rotated
    copies is that concatenation, as a number, modulo [256 ^ output_len - 1]. *)

From Stdlib Require Import Setoid Morphisms.
From S2P Require Import Prelude Types Fields KrbCrypto.

(** ** The definition *)

(** [i], of [n] bits, rotated right by [r]. *)
Definition rotr (n r i : Z) : Z := let r := r mod n in i / 2 ^ r + i mod 2 ^ r * 2 ^ (n - r).

(** [k] copies end to end, each rotated 13 bits further. *)
Fixpoint copies (n i : Z) (k : nat) : Z :=
  match k with O => 0 | S k => copies n i k * 2 ^ n + rotr n (13 * Z.of_nat k) i end.

(** A list of digits in base 256, most significant first. *)
Definition be_val (l : list Z) : Z := foldl (λ a x, a * 256 + x) 0 l.

(** ** Congruence *)

Definition cong (n a b : Z) : Prop := (n | a - b).

#[global] Instance cong_equiv n : Equivalence (cong n).
Proof.
  split; unfold cong.
  - intros a. exists 0. lia.
  - intros a b [q E]. exists (- q). lia.
  - intros a b c [q E] [q' E']. exists (q + q'). lia.
Qed.
#[global] Instance cong_add n : Proper (cong n ==> cong n ==> cong n) Z.add.
Proof. intros a a' [q E] b b' [q' E']. exists (q + q'). lia. Qed.
#[global] Instance cong_mul n : Proper (cong n ==> cong n ==> cong n) Z.mul.
Proof.
  intros a a' [q E] b b' [q' E']. exists (q * b + a' * q'). replace (a * b - a' * b') with ((a - a') * b + a' * (b - b')) by ring.
  rewrite E, E'. ring.
Qed.
Lemma cong_pow_1 n a k : 0 <= k → cong n a 1 → cong n (a ^ k) 1.
Proof.
  intros Hk Ha. revert k Hk. apply natlike_ind; [done|]. intros k Hk IH. rewrite Z.pow_succ_r by lia.
  by rewrite IH, Ha.
Qed.

(** ** Greatest common divisors *)

Lemma gcd_loop_spec fuel a b : 0 <= b < Z.of_nat fuel → 0 <= a → gcd_loop fuel a b = Z.gcd a b.
Proof.
  revert a b. induction fuel as [|fuel IH]; intros a b Hb Ha; [lia|]. cbn [gcd_loop].
  destruct (b =? 0) eqn:E; bool_prop.
  - subst. by rewrite Z.gcd_0_r, Z.abs_eq.
  - pose proof (Z.mod_pos_bound a b). rewrite IH by lia. rewrite Z.gcd_comm, Z.gcd_mod by done. by rewrite Z.gcd_comm.
Qed.

Lemma lcm_spec a b : 0 < a → 0 < b → lcm a b = Z.lcm a b.
Proof.
  intros Ha Hb. unfold lcm, gcd. rewrite gcd_loop_spec by lia. unfold Z.lcm.
  pose proof (Z.gcd_nonneg a b). destruct (Z.gcd_divide_l a b) as [q Hq]. destruct (Z.gcd_divide_r a b) as [q' Hq'].
  assert (Z.gcd a b ≠ 0) as Hg by (intros E%Z.gcd_eq_0; lia). rewrite Z.abs_eq; [|apply Z.mul_nonneg_nonneg; [lia|apply Z.div_pos; lia]].
  revert Hq Hq' Hg. generalize (Z.gcd a b). intros g -> -> Hg. rewrite !Z.div_mul by done. ring.
Qed.

(** ** Digits *)

Lemma be_val_acc l a : foldl (λ a x, a * 256 + x) a l = a * 256 ^ len l + be_val l.
Proof.
  revert a. induction l as [|x l IH]; intros a; [rewrite len_nil; cbn; lia|].
  unfold be_val. cbn [foldl]. rewrite (IH (a * 256 + x)), (IH (0 * 256 + x)).
  rewrite len_cons, Z.pow_add_r by (try apply len_nonneg; lia). ring.
Qed.
Lemma be_val_cons x l : be_val (x :: l) = x * 256 ^ len l + be_val l.
Proof. unfold be_val at 1. cbn [foldl]. rewrite be_val_acc. ring. Qed.
Lemma be_val_app a b : be_val (a ++ b) = be_val a * 256 ^ len b + be_val b.
Proof. unfold be_val at 1. rewrite foldl_app. apply be_val_acc. Qed.
Lemma be_val_snoc a x : be_val (a ++ [x]) = be_val a * 256 + x.
Proof. rewrite be_val_app. unfold be_val at 2. cbn. unfold len. cbn. lia. Qed.

Definition is_digit (x : Z) : Prop := 0 <= x < 256.

Lemma pow256_pos n : 0 <= n → 0 < 256 ^ n.
Proof. intros. by apply Z.pow_pos_nonneg. Qed.
Lemma be_val_nonneg l : Forall (λ x, 0 <= x) l → 0 <= be_val l.
Proof.
  induction 1 as [|x l Hx Hl IH]; [done|]. rewrite be_val_cons. pose proof (pow256_pos (len l) (len_nonneg l)). nia.
Qed.
Lemma be_val_bound l : Forall is_digit l → 0 <= be_val l < 256 ^ len l.
Proof.
  induction 1 as [|x l Hx Hl IH]; [done|]. rewrite be_val_cons, len_cons, Z.pow_add_r by (try apply len_nonneg; lia).
  unfold is_digit in Hx. nia.
Qed.

Lemma be_val_insert l k v :
  (k < length l)%nat → be_val (<[k := nth k l 0 + v]> l) = be_val l + v * 256 ^ (len l - 1 - Z.of_nat k).
Proof.
  revert k. induction l as [|x l IH]; intros k Hk; [cbn in Hk; lia|]. destruct k as [|k].
  - change (<[0%nat:=nth 0 (x :: l) 0 + v]> (x :: l)) with ((x + v) :: l). rewrite !be_val_cons, len_cons.
    replace (1 + len l - 1 - Z.of_nat 0) with (len l) by lia. ring.
  - change (<[S k:=nth (S k) (x :: l) 0 + v]> (x :: l)) with (x :: <[k := nth k l 0 + v]> l).
    cbn [length] in Hk. rewrite !be_val_cons, IH, len_cons by lia.
    replace (1 + len l - 1 - Z.of_nat (S k)) with (len l - 1 - Z.of_nat k) by lia.
    assert (len (<[k := nth k l 0 + v]> l) = len l) as -> by (unfold len; by rewrite length_insert). ring.
Qed.

(** ** Carries *)

Lemma carry_pass_spec r :
  Forall (λ x, 0 <= x) r →
  let '(r', c) := carry_pass r in
  length r' = length r ∧ Forall is_digit r' ∧ 0 <= c ∧ be_val r = c * 256 ^ len r + be_val r'.
Proof.
  induction 1 as [|x r Hx Hr IH]; [cbn; split_and!; try done; lia|]. cbn [carry_pass].
  destruct (carry_pass r) as [r' c]. destruct IH as (Hl & Hd & Hc & E).
  change 0xff with (Z.ones 8). rewrite Z.land_ones, Z.shiftr_div_pow2 by lia. change (2 ^ 8) with 256.
  pose proof (Z.div_mod (x + c) 256). pose proof (Z.mod_pos_bound (x + c) 256).
  split_and!; [cbn; lia|constructor; [unfold is_digit; lia|done]|apply Z.div_pos; lia|].
  rewrite !be_val_cons, len_cons, E, Z.pow_add_r by (try apply len_nonneg; lia).
  assert (len r' = len r) as -> by (unfold len; lia). nia.
Qed.

Lemma add_last_spec r c :
  r ≠ [] → length (add_last r c) = length r ∧ be_val (add_last r c) = be_val r + c.
Proof.
  induction r as [|x r IH]; [done|]. intros _. destruct r as [|y r]; [split; [done|cbn; lia]|].
  change (add_last (x :: y :: r) c) with (x :: add_last (y :: r) c). destruct IH as [Hl E]; [done|].
  split; [change (S (length (add_last (y :: r) c)) = S (length (y :: r))); lia|]. rewrite !(be_val_cons x), E. assert (len (add_last (y :: r) c) = len (y :: r)) as -> by (unfold len; lia). ring.
Qed.
Lemma add_last_nonneg r c : Forall is_digit r → 0 <= c → Forall (λ x, 0 <= x) (add_last r c).
Proof.
  intros Hr Hc. induction Hr as [|x r Hx Hr IH]; [done|]. unfold is_digit in Hx. destruct r; cbn [add_last].
  - by repeat constructor; lia.
  - constructor; [lia|done].
Qed.

(** One pass takes the quotient by [m] off and puts it back at the end. *)
Lemma carry_step fuel r m v :
  Forall (λ x, 0 <= x) r → r ≠ [] → m = 256 ^ len r → be_val r = v →
  ∃ r', length r' = length r ∧
    (v < m → Forall is_digit r' ∧ be_val r' = v ∧ carry_loop (S fuel) r = Ok r') ∧
    (m <= v → Forall (λ x, 0 <= x) r' ∧ be_val r' = v mod m + v / m ∧ carry_loop (S fuel) r = carry_loop fuel r').
Proof.
  intros Hr Hne -> Hv. pose proof (carry_pass_spec r Hr) as Hs. cbn [carry_loop].
  destruct (carry_pass r) as [r1 c]. destruct Hs as (Hl & Hd & Hc & E). rewrite Hv in E.
  assert (len r1 = len r) as Hlen by (unfold len; lia).
  pose proof (be_val_bound r1 Hd) as Hb. rewrite Hlen in Hb. pose proof (pow256_pos (len r) (len_nonneg r)).
  assert (c = v / 256 ^ len r ∧ be_val r1 = v mod 256 ^ len r) as [-> Hm].
  { split; [apply (Z.div_unique _ _ _ (be_val r1)); lia|apply (Z.mod_unique _ _ c); lia]. }
  destruct (Z.lt_ge_cases v (256 ^ len r)) as [Hlt|Hge].
  - exists r1. split; [done|]. split; [|lia]. intros _. pose proof (be_val_nonneg r Hr).
    rewrite Z.div_small, Z.mod_small in * by lia. done.
  - exists (add_last r1 (v / 256 ^ len r)).
    destruct (add_last_spec r1 (v / 256 ^ len r)) as [Hl' E']; [by destruct r1; [destruct r|]|].
    split; [lia|]. split; [lia|]. intros _. split; [by apply add_last_nonneg|]. split; [lia|].
    assert (1 <= v / 256 ^ len r) by (apply Z.div_le_lower_bound; lia).
    by rewrite (proj2 (Z.eqb_neq _ _)) by lia.
Qed.

Lemma carried_congruent v m : m ≠ 0 → cong (m - 1) (v mod m + v / m) v.
Proof. intros Hm. exists (- (v / m)). pose proof (Z.div_mod v m Hm). lia. Qed.

(** Three passes are enough for sums below [m * m]. *)
Lemma carry_loop_spec fuel r m v :
  Forall (λ x, 0 <= x) r → r ≠ [] → m = 256 ^ len r → be_val r = v → v < m * m →
  ∃ r', carry_loop (S (S (S fuel))) r = Ok r' ∧ length r' = length r ∧ Forall is_digit r' ∧
    cong (m - 1) (be_val r') v ∧ (be_val r' = 0 → v = 0).
Proof.
  intros Hr Hne Hm Hv Hlt. pose proof (be_val_nonneg r Hr) as Hv0.
  assert (1 < m) as Hm1.
  { subst m. destruct r as [|x r]; [done|]. rewrite len_cons. apply Z.pow_gt_1; [lia|pose proof (len_nonneg r); lia]. }
  assert (∀ r' : list Z, length r' = length r → len r' = len r ∧ r' ≠ []) as Hsame.
  { intros r' Hl. split; [unfold len; lia|]. intros ->. by destruct r. }
  destruct (carry_step (S (S fuel)) r m v Hr Hne Hm Hv) as (r1 & Hl1 & Hend1 & Hgo1).
  destruct (Z.lt_ge_cases v m) as [H1|H1].
  { destruct (Hend1 H1) as (Hd & Hb & E). exists r1. rewrite Hb. by split_and!. }
  destruct (Hgo1 H1) as (Hr1 & Hv1 & ->). clear Hend1 Hgo1. set (v1 := v mod m + v / m) in *.
  assert (cong (m - 1) v1 v) as C1 by (apply carried_congruent; lia).
  pose proof (Z.mod_pos_bound v m ltac:(lia)). assert (1 <= v / m < m) as Hq1.
  { split; [apply Z.div_le_lower_bound; lia|apply Z.div_lt_upper_bound; lia]. }
  destruct (Hsame r1 Hl1) as [Hlen1 Hne1].
  destruct (carry_step (S fuel) r1 m v1 Hr1 Hne1) as (r2 & Hl2 & Hend2 & Hgo2); [by rewrite Hlen1|done|].
  destruct (Z.lt_ge_cases v1 m) as [H2|H2].
  { destruct (Hend2 H2) as (Hd & Hb & E). exists r2. rewrite Hb. split_and!; [done|lia|done|done|lia]. }
  destruct (Hgo2 H2) as (Hr2 & Hv2 & ->). clear Hend2 Hgo2.
  assert (v1 / m = 1 ∧ v1 mod m = v1 - m) as [Hq2 Hm2].
  { split; [symmetry; apply (Z.div_unique _ _ _ (v1 - m)); lia|symmetry; apply (Z.mod_unique _ _ 1); lia]. }
  rewrite Hq2, Hm2 in Hv2. destruct (Hsame r2 ltac:(lia)) as [Hlen2 Hne2].
  destruct (carry_step fuel r2 m (v1 - m + 1) Hr2 Hne2) as (r3 & Hl3 & Hend3 & _); [by rewrite Hlen2|done|].
  destruct (Hend3 ltac:(lia)) as (Hd & Hb & E). exists r3. rewrite Hb. split_and!; [done|lia|done| |lia].
  rewrite <- C1. exists (-1). lia.
Qed.

(** ** Columns *)

(** The digits the loop reads, from [i] on. *)
Definition digit_of (input : bytes) (i : Z) : Z := rotated_byte input (i / len input * 13) (i mod len input).
Fixpoint digits (input : bytes) (i : Z) (n : nat) : list Z :=
  match n with O => [] | S n => digit_of input i :: digits input (i + 1) n end.

Lemma len_digits input i n : len (digits input i n) = Z.of_nat n.
Proof. revert i. induction n as [|n IH]; intros i; [done|]. cbn [digits]. rewrite len_cons, IH. lia. Qed.
Lemma digits_app input i a b : digits input i (a + b) = digits input i a ++ digits input (i + Z.of_nat a) b.
Proof.
  revert i. induction a as [|a IH]; intros i; [by rewrite Z.add_0_r|]. cbn [digits Nat.add app]. rewrite IH.
  do 3 f_equal. lia.
Qed.

(** A power of 256 modulo [256 ^ out - 1] depends on its exponent modulo [out] only. *)
Lemma pow_wraps out a : 0 < out → 0 <= a → cong (256 ^ out - 1) (256 ^ a) (256 ^ (a mod out)).
Proof.
  intros Ho Ha. pose proof (Z.div_mod a out ltac:(lia)) as E. pose proof (Z.mod_pos_bound a out Ho).
  pose proof (Z.div_pos a out Ha Ho). rewrite E at 1. rewrite Z.pow_add_r by nia. rewrite Z.pow_mul_r by lia.
  rewrite (cong_pow_1 _ (256 ^ out)); [by rewrite Z.mul_1_l|done|]. exists 1. lia.
Qed.

Lemma rotated_byte_digit input rot k : is_digit (rotated_byte input rot k).
Proof.
  unfold rotated_byte, is_digit. cbv zeta. case_match; [apply u8_of_byte_range|].
  unfold trunc. apply Z.mod_pos_bound. lia.
Qed.
Lemma digits_ok input i n : Forall is_digit (digits input i n).
Proof. revert i. induction n as [|n IH]; intros i; constructor; [apply rotated_byte_digit|apply IH]. Qed.

(** The loop adds each digit to a column: the value is that of the digits modulo
    [256 ^ out - 1], bounded, and vanishes with them. *)
Lemma nfold_sum_spec n i input out acc :
  0 < out → 0 <= i → (i + Z.of_nat n) mod out = 0 → len acc = out → Forall (λ x, 0 <= x) acc →
  let r := nfold_sum n i input out acc in
  len r = out ∧ Forall (λ x, 0 <= x) r ∧
  cong (256 ^ out - 1) (be_val r) (be_val acc + be_val (digits input i n)) ∧
  be_val acc <= be_val r <= be_val acc + Z.of_nat n * (256 ^ out - 1) ∧
  (be_val r = be_val acc → be_val (digits input i n) = 0).
Proof.
  intros Ho. revert i acc. induction n as [|n IH]; intros i acc Hi Hm Hl Hacc; cbv zeta.
  { cbn [nfold_sum digits]. unfold be_val at 3 8. cbn [foldl]. rewrite Z.add_0_r. split_and!; try done; lia. }
  cbn [nfold_sum digits]. fold (digit_of input i). set (k := Z.to_nat (i mod out)).
  pose proof (Z.mod_pos_bound i out Ho) as Hk. assert (k < length acc)%nat as Hk' by (unfold k, len in *; lia).
  set (acc' := <[k := nth k acc 0 + digit_of input i]> acc).
  assert (is_digit (digit_of input i)) as Hd by apply rotated_byte_digit. unfold is_digit in Hd.
  assert (be_val acc' = be_val acc + digit_of input i * 256 ^ (out - 1 - i mod out)) as Hb.
  { unfold acc'. rewrite be_val_insert by done. do 3 f_equal. unfold k. lia. }
  assert (0 < 256 ^ (out - 1 - i mod out)) as Hp by (apply pow256_pos; lia).
  assert (256 * 256 ^ (out - 1 - i mod out) <= 256 ^ out) as Hp'.
  { rewrite <- Z.pow_succ_r by lia. apply Z.pow_le_mono_r; lia. }
  destruct (IH (i + 1) acc') as (Hlr & Hnr & Hcr & Hbr & Hzr).
  { lia. } { rewrite <- Hm. f_equal. lia. } { unfold acc', len. by rewrite length_insert. }
  { unfold acc'. apply Forall_insert; [done|]. pose proof (proj1 (Forall_nth _ 0 acc) Hacc k Hk') as Hn0. cbv beta in *. lia. }
  rewrite Hb in *. split_and!; [done|done| |nia|nia|].
  - rewrite Hcr, be_val_cons, len_digits, <- Z.add_assoc.
    rewrite (pow_wraps out (Z.of_nat n)) by lia.
    assert (Z.of_nat n mod out = out - 1 - i mod out) as ->; [|done].
    symmetry. apply (Z.mod_unique _ _ ((i + Z.of_nat (S n)) / out - i / out - 1)); [lia|].
    pose proof (Z.div_mod (i + Z.of_nat (S n)) out ltac:(lia)). pose proof (Z.div_mod i out ltac:(lia)). nia.
  - intros E. rewrite be_val_cons. assert (digit_of input i = 0) as -> by nia. rewrite Hzr; lia.
Qed.

(** ** Rotations *)

Lemma of_be_val l : of_be l = be_val (map u8_of_byte l).
Proof.
  induction l as [|x l IH] using rev_ind; [done|]. rewrite map_app. cbn [map]. rewrite be_val_snoc, <- IH.
  unfold of_be. rewrite rev_app_distr. cbn [rev app of_le]. ring.
Qed.

Lemma u8_digits l : Forall is_digit (map u8_of_byte l).
Proof. induction l; constructor; [apply u8_of_byte_range|done]. Qed.

(** Digit [b] of a number. *)
Lemma be_digit l b :
  Forall is_digit l → (b < length l)%nat → nth b l 0 = be_val l / 256 ^ (len l - 1 - Z.of_nat b) mod 256.
Proof.
  intros Hl Hb. destruct (nth_split l 0 Hb) as (l1 & l2 & E & Hl1). set (x := nth b l 0) in *.
  assert (len l - 1 - Z.of_nat b = len l2) as -> by (rewrite E; unfold len; rewrite length_app; cbn [length]; lia).
  rewrite E in Hl. apply Forall_app in Hl as [_ Hl]. apply Forall_cons in Hl as [Hx Hl2]. unfold is_digit in Hx.
  pose proof (be_val_bound l2 Hl2) as Hb2. rewrite E, be_val_app, be_val_cons, len_cons.
  rewrite Z.pow_add_r by (try apply len_nonneg; lia).
  replace (be_val l1 * (256 ^ 1 * 256 ^ len l2) + (x * 256 ^ len l2 + be_val l2))
    with (be_val l2 + (x + be_val l1 * 256) * 256 ^ len l2) by ring.
  rewrite Z.div_add, Z.div_small, Z.add_0_l by lia. rewrite Z_mod_plus_full. symmetry. by apply Z.mod_small.
Qed.

(** Bits of a byte of the input. *)
Lemma input_bits input b t :
  0 <= b < len input → 0 <= t < 8 →
  Z.testbit (u8_of_byte (nth (Z.to_nat b) input x00)) t = Z.testbit (of_be input) (8 * (len input - 1 - b) + t).
Proof.
  intros Hb Ht. change (u8_of_byte (nth (Z.to_nat b) input x00)) with (u8_of_byte (nth (Z.to_nat b) input x00)).
  rewrite <- (map_nth u8_of_byte input x00). change (u8_of_byte x00) with 0.
  rewrite be_digit by (apply u8_digits || (rewrite length_map; unfold len in Hb; lia)).
  rewrite <- of_be_val. unfold len at 1. rewrite length_map. fold (len input). rewrite Z2Nat.id by lia.
  change 256 with (2 ^ 8) at 2. rewrite Z.testbit_mod_pow2 by lia. rewrite (proj2 (Z.ltb_lt _ _)) by lia. cbn [andb].
  change 256 with (2 ^ 8). rewrite <- Z.pow_mul_r by lia. rewrite Z.div_pow2_bits by lia. f_equal. lia.
Qed.

Lemma of_be_range l : 0 <= of_be l < 2 ^ (8 * len l).
Proof.
  rewrite of_be_val. pose proof (be_val_bound _ (u8_digits l)) as Hb. unfold len in Hb at 1. rewrite length_map in Hb.
  fold (len l) in Hb. rewrite Z.pow_mul_r by (try apply len_nonneg; lia). exact Hb.
Qed.

Lemma split_bits a b m j :
  0 <= a < 2 ^ m → 0 <= m → 0 <= j → Z.testbit (a + b * 2 ^ m) j = if j <? m then Z.testbit a j else Z.testbit b (j - m).
Proof.
  intros Ha Hm Hj. destruct (Z.ltb_spec j m).
  - rewrite <- (Z.mod_pow2_bits_low _ m) by done. rewrite Z_mod_plus_full. by rewrite Z.mod_small.
  - replace j with (j - m + m) at 1 by lia. rewrite <- Z.div_pow2_bits by lia.
    rewrite Z.div_add, Z.div_small, Z.add_0_l by lia. done.
Qed.

Lemma rotr_bits n r i j :
  0 < n → 0 <= i < 2 ^ n → 0 <= j < n → Z.testbit (rotr n r i) j = Z.testbit i ((j + r mod n) mod n).
Proof.
  intros Hn Hi Hj. unfold rotr. cbv zeta. set (s := r mod n). pose proof (Z.mod_pos_bound r n Hn) as Hs. fold s in Hs.
  assert (0 <= i / 2 ^ s < 2 ^ (n - s)).
  { split; [apply Z.div_pos; [lia|apply Z.pow_pos_nonneg; lia]|]. apply Z.div_lt_upper_bound; [apply Z.pow_pos_nonneg; lia|].
    rewrite <- Z.pow_add_r by lia. replace (s + (n - s)) with n by lia. lia. }
  rewrite split_bits by lia. destruct (Z.ltb_spec j (n - s)).
  - rewrite Z.div_pow2_bits by lia. f_equal. symmetry. apply Z.mod_small. lia.
  - rewrite Z.mod_pow2_bits_low by lia. f_equal. apply (Z.mod_unique _ _ 1); lia.
Qed.

Lemma rotr_range n r i : 0 < n → 0 <= i < 2 ^ n → 0 <= rotr n r i < 2 ^ n.
Proof.
  intros Hn Hi. unfold rotr. cbv zeta. set (s := r mod n). pose proof (Z.mod_pos_bound r n Hn) as Hs. fold s in Hs.
  assert (2 ^ n = 2 ^ s * 2 ^ (n - s)) as E by (rewrite <- Z.pow_add_r by lia; f_equal; lia).
  pose proof (Z.pow_pos_nonneg 2 s). pose proof (Z.pow_pos_nonneg 2 (n - s)).
  pose proof (Z.mod_pos_bound i (2 ^ s) ltac:(lia)). pose proof (Z.div_pos i (2 ^ s) ltac:(lia) ltac:(lia)).
  assert (i / 2 ^ s < 2 ^ (n - s)) by (apply Z.div_lt_upper_bound; lia). nia.
Qed.

(** The loop's byte is that byte of the rotated number. *)
Lemma rotated_byte_bits input rot k t :
  0 <= k < len input → 0 <= t < 8 →
  let n := len input * 8 in
  Z.testbit (rotated_byte input rot k) t = Z.testbit (of_be input) ((n - 8 * (k + 1) + t + rot mod n) mod n).
Proof.
  intros Hk Ht. cbv zeta. unfold rotated_byte. cbv zeta. set (n := len input * 8).
  assert (0 < n) as Hn by lia. pose proof (Z.mod_pos_bound rot n Hn) as Hr. set (r := rot mod n) in *.
  set (bit := (k * 8 + n - r) mod n). pose proof (Z.mod_pos_bound (k * 8 + n - r) n Hn) as Hbit. fold bit in Hbit.
  pose proof (Z.div_mod bit 8 ltac:(lia)) as Eb. pose proof (Z.mod_pos_bound bit 8 ltac:(lia)) as Hs.
  assert (0 <= bit / 8 < len input) as Hb by (split; [apply Z.div_pos; lia|apply Z.div_lt_upper_bound; lia]).
  assert ((n - 8 * (k + 1) + t + r) mod n = (n - bit - 8 + t) mod n) as ->.
  { pose proof (Z.div_mod (k * 8 + n - r) n ltac:(lia)) as E. fold bit in E.
    replace (n - 8 * (k + 1) + t + r) with (n - bit - 8 + t + (1 - (k * 8 + n - r) / n) * n) by lia. apply Z_mod_plus_full. }
  destruct (bit mod 8 =? 0) eqn:Es; bool_prop.
  { rewrite input_bits by lia. f_equal. rewrite (Z.mod_small (n - bit - 8 + t)) by lia. lia. }
  unfold trunc. rewrite Z.testbit_mod_pow2 by lia. rewrite (proj2 (Z.ltb_lt t 8)) by lia. cbn [andb].
  rewrite Z.lor_spec, Z.shiftl_spec, Z.shiftr_spec by lia. destruct (Z.lt_ge_cases t (bit mod 8)) as [Hlt|Hge].
  - rewrite Z.testbit_neg_r by lia. cbn [orb]. set (b1 := (bit / 8 + 1) mod len input).
    pose proof (Z.mod_pos_bound (bit / 8 + 1) (len input) ltac:(lia)) as Hb1. fold b1 in Hb1.
    rewrite input_bits by lia. f_equal. destruct (Z.eq_dec (bit / 8 + 1) (len input)) as [E|E].
    + assert (b1 = 0) as -> by (unfold b1; rewrite E; apply Z.mod_same; lia). apply (Z.mod_unique _ _ (-1)); lia.
    + assert (b1 = bit / 8 + 1) as -> by (apply Z.mod_small; lia). rewrite (Z.mod_small (n - bit - 8 + t)); lia.
  - rewrite input_bits by lia. rewrite (Z.bits_above_log2 (u8_of_byte _)).
    + rewrite orb_false_r. f_equal. rewrite (Z.mod_small (n - bit - 8 + t)); lia.
    + apply u8_of_byte_range.
    + pose proof (u8_of_byte_range (nth (Z.to_nat ((bit / 8 + 1) mod len input)) input x00)) as Hu. unfold in_range in Hu.
      destruct (Z.eq_dec (u8_of_byte (nth (Z.to_nat ((bit / 8 + 1) mod len input)) input x00)) 0) as [->|Hnz]; [cbn; lia|].
      apply Z.log2_lt_pow2; [lia|]. assert (2 ^ 8 <= 2 ^ (t + (8 - bit mod 8))) by (apply Z.pow_le_mono_r; lia). lia.
Qed.

Lemma rotated_byte_spec input rot k :
  0 <= k < len input →
  rotated_byte input rot k = rotr (len input * 8) rot (of_be input) / 256 ^ (len input - 1 - k) mod 256.
Proof.
  intros Hk. apply Z.bits_inj'. intros t Ht. change 256 with (2 ^ 8). rewrite Z.testbit_mod_pow2 by lia.
  destruct (Z.ltb_spec t 8); cbn [andb].
  - rewrite rotated_byte_bits by lia. rewrite <- Z.pow_mul_r by lia. rewrite Z.div_pow2_bits by lia.
    pose proof (of_be_range input) as Ho. rewrite Z.mul_comm in Ho. rewrite rotr_bits by lia. do 2 f_equal. lia.
  - pose proof (rotated_byte_digit input rot k) as Hd. unfold is_digit in Hd.
    destruct (Z.eq_dec (rotated_byte input rot k) 0) as [->|Hnz]; [apply Z.bits_0|].
    apply Z.bits_above_log2; [lia|]. apply Z.log2_lt_pow2; [lia|].
    assert (2 ^ 8 <= 2 ^ t) by (apply Z.pow_le_mono_r; lia). lia.
Qed.

(** ** Copies *)

(** The digits of [x], most significant first. *)
Lemma be_val_digits_of x n :
  0 <= x → be_val (map (λ k, x / 256 ^ (Z.of_nat n - 1 - Z.of_nat k) mod 256) (seq 0 n)) = x mod 256 ^ Z.of_nat n.
Proof.
  intros Hx. revert x Hx. induction n as [|n IH]; intros x Hx; [by rewrite Z.mod_1_r|].
  rewrite seq_S, map_app. cbn [map]. rewrite be_val_snoc.
  replace (Z.of_nat (S n) - 1 - Z.of_nat (0 + n)) with 0 by lia. rewrite Z.pow_0_r, Z.div_1_r.
  rewrite (map_ext_in _ (λ k, x / 256 / 256 ^ (Z.of_nat n - 1 - Z.of_nat k) mod 256)).
  - rewrite IH by (apply Z.div_pos; lia). rewrite Nat2Z.inj_succ, Z.pow_succ_r by lia.
    rewrite Z.rem_mul_r by (pose proof (pow256_pos (Z.of_nat n)); lia). lia.
  - intros k Hk%in_seq. f_equal. rewrite Z.div_div by (try apply pow256_pos; lia). f_equal.
    rewrite <- Z.pow_succ_r by lia. f_equal. lia.
Qed.

(** The digits of one copy. *)
Lemma digits_copy input c n :
  input ≠ [] → (n <= length input)%nat →
  digits input (len input * Z.of_nat c) n
  = map (λ k, rotr (len input * 8) (13 * Z.of_nat c) (of_be input) / 256 ^ (len input - 1 - Z.of_nat k) mod 256) (seq 0 n).
Proof.
  intros Hne. assert (0 < len input) as Hpos by (destruct input; [done|rewrite len_cons; pose proof (len_nonneg input); lia]).
  induction n as [|n IH]; intros Hn; [done|]. replace (S n) with (n + 1)%nat by lia. rewrite digits_app, IH by lia.
  rewrite seq_app, map_app. f_equal. cbn [digits seq map]. f_equal. unfold digit_of.
  assert (0 <= Z.of_nat n < len input) by (unfold len; lia).
  replace (len input * Z.of_nat c + Z.of_nat n) with (Z.of_nat n + Z.of_nat c * len input) by lia.
  rewrite Z.div_add, Z.div_small, Z_mod_plus_full, Z.mod_small by lia. rewrite rotated_byte_spec by lia.
  cbn [Nat.add]. do 3 f_equal. lia.
Qed.

Lemma digits_copies input k :
  input ≠ [] → be_val (digits input 0 (k * length input)) = copies (len input * 8) (of_be input) k.
Proof.
  intros Hne. assert (0 < len input) as Hpos by (destruct input; [done|rewrite len_cons; pose proof (len_nonneg input); lia]).
  induction k as [|k IH]; [done|]. replace (S k * length input)%nat with (k * length input + length input)%nat by lia.
  rewrite digits_app, be_val_app, IH, len_digits. cbn [copies]. f_equal.
  - f_equal. rewrite Z.mul_comm, Z.pow_mul_r by lia. by unfold len.
  - replace (0 + Z.of_nat (k * length input)) with (len input * Z.of_nat k) by (unfold len; lia).
    rewrite digits_copy by done. pose proof (of_be_range input) as Ho. rewrite Z.mul_comm in Ho.
    pose proof (rotr_range (len input * 8) (13 * Z.of_nat k) (of_be input) ltac:(lia) Ho) as Hr.
    pose proof (be_val_digits_of (rotr (len input * 8) (13 * Z.of_nat k) (of_be input)) (length input) ltac:(lia)) as E.
    fold (len input) in E. rewrite E. apply Z.mod_small. change 256 with (2 ^ 8). rewrite <- Z.pow_mul_r by lia.
    by replace (8 * len input) with (len input * 8) by lia.
Qed.

Lemma copies_nonneg n i k : 0 < n → 0 <= i < 2 ^ n → 0 <= copies n i k.
Proof.
  intros Hn Hi. induction k as [|k IH]; [done|]. cbn [copies]. pose proof (rotr_range n (13 * Z.of_nat k) i Hn Hi).
  pose proof (Z.pow_pos_nonneg 2 n). nia.
Qed.
Lemma copies_zero n i k : 0 < n → 0 <= i < 2 ^ n → copies n i (S k) = 0 → i = 0.
Proof.
  intros Hn Hi. induction k as [|k IH].
  - cbn [copies]. unfold rotr. cbv zeta. change (13 * Z.of_nat 0) with 0. rewrite Z.mod_0_l by lia.
    rewrite Z.pow_0_r, Z.mod_1_r, Z.div_1_r. lia.
  - remember (S k) as m eqn:Em. cbn [copies]. subst m. intros E. apply IH.
    pose proof (rotr_range n (13 * Z.of_nat (S k)) i Hn Hi). pose proof (copies_nonneg n i (S k) Hn Hi).
    pose proof (Z.pow_pos_nonneg 2 n). nia.
Qed.

Lemma be_val_zeros n : be_val (repeat 0 n) = 0.
Proof. induction n as [|n IH]; [done|]. cbn [repeat]. rewrite be_val_cons, IH. lia. Qed.

Lemma of_be_digits r : Forall is_digit r → of_be (map byte_of_u8 r) = be_val r.
Proof.
  intros Hr. rewrite of_be_val, map_map. f_equal. induction Hr as [|x r Hx Hr IH]; [done|]. cbn [map].
  rewrite IH, u8_of_byte_of_u8, Z.mod_small by done. done.
Qed.

Lemma nfold_spec input out :
  input ≠ [] → 0 < out → len input * out < 256 ^ out →
  ∃ bs, nfold input out = Ok bs ∧ len bs = out ∧
    cong (256 ^ out - 1) (of_be bs)
      (copies (len input * 8) (of_be input) (Z.to_nat (Z.lcm (len input) out / len input))) ∧
    (of_be bs = 0 → of_be input = 0).
Proof.
  intros Hne Ho Hsize. assert (0 < len input) as Hpos by (destruct input; [done|rewrite len_cons; pose proof (len_nonneg input); lia]).
  unfold nfold. destruct (is_empty input) eqn:Ee; [by destruct input|]. cbv zeta.
  set (l := Z.lcm (len input) out). assert (lcm (len input * 8) (out * 8) / 8 = l) as ->.
  { rewrite lcm_spec by lia. rewrite Z.lcm_mul_mono_r. change (Z.abs 8) with 8. by rewrite Z.div_mul. }
  destruct (Z.divide_lcm_l (len input) out) as [k Hk]. destruct (Z.divide_lcm_r (len input) out) as [q Hq]. fold l in Hk, Hq.
  assert (0 < l) as Hl by (pose proof (Z.lcm_nonneg (len input) out); assert (l ≠ 0) by (intros E%Z.lcm_eq_0; lia); unfold l in *; lia).
  assert (0 < k) by nia. assert (Z.to_nat l = Z.to_nat k * length input)%nat as Hln by (unfold len in *; nia).
  assert (l / len input = k) as -> by (rewrite Hk; apply Z.div_mul; lia).
  destruct (nfold_sum_spec (Z.to_nat l) 0 input out (repeat 0 (Z.to_nat out))) as (Hlr & Hnr & Hcr & Hbr & Hzr);
    [lia|lia|rewrite Z2Nat.id, Hq by lia; apply Z.mod_mul; lia|unfold len; rewrite repeat_length; lia
    |apply Forall_forall; by intros x ->%list_elem_of_In%repeat_spec|].
  rewrite be_val_zeros in *. rewrite Hln, digits_copies in Hcr, Hzr by done. rewrite <- Hln in Hcr, Hzr.
  assert (l <= len input * out) as Hle.
  { apply Z.divide_pos_le; [lia|]. apply Z.lcm_least; [apply Z.divide_factor_l|apply Z.divide_factor_r]. }
  set (sums := nfold_sum (Z.to_nat l) 0 input out (repeat 0 (Z.to_nat out))) in *.
  destruct (carry_loop_spec 1 sums (256 ^ out) (be_val sums)) as (r & -> & Hlen & Hd & Hc & Hz);
    [done|intros E; rewrite E, len_nil in Hlr; lia|by rewrite Hlr|done|nia|].
  cbn [mbind result_bind]. eexists. split; [done|]. rewrite of_be_digits by done. split_and!.
  - unfold len in *. rewrite length_map. lia.
  - by rewrite Hc, Hcr.
  - intros E. specialize (Hz E). pose proof (of_be_range input) as Hr. rewrite Z.mul_comm in Hr.
    destruct (Z.to_nat k) as [|k'] eqn:Ek; [lia|]. apply (copies_zero (len input * 8) _ k'); [lia|done|by apply Hzr].
Qed.

(** ** Properties *)

(** C22: N-fold is the function of RFC 3961.  For any input the computed key material,
    as a number, is the concatenation of the copies of the input, each rotated 13 bits
    further, up to the least common multiple of the two lengths, summed in
    one's-complement arithmetic of the output's width: congruent to it modulo
    [256 ^ output_len - 1], and zero only when the input is.  The carry loop ends within
    its rounds. *)
Theorem nfold_is_rfc3961 input out :
  input ≠ [] → 0 < out → len input * out < 256 ^ out →
  ∃ bs, nfold input out = Ok bs ∧ len bs = out ∧
    cong (256 ^ out - 1) (of_be bs)
      (copies (len input * 8) (of_be input) (Z.to_nat (Z.lcm (len input) out / len input))) ∧
    (of_be bs = 0 → of_be input = 0).
Proof. apply nfold_spec. Qed.

Lemma nfold_is_rfc3961_witness :
  ∃ bs, nfold [x30; x31; x32; x33; x34; x35] 8 = Ok bs ∧ of_be bs = 0xbe072631276b1955 ∧
    cong (256 ^ 8 - 1) (of_be bs) (copies 48 0x303132333435 4).
Proof.
  destruct (nfold_is_rfc3961 [x30; x31; x32; x33; x34; x35] 8) as (bs & E & _ & Hc & _); [done|done|done|].
  exists bs. split; [exact E|]. split; [|exact Hc]. vm_compute in E. by injection E as <-.
Defined.
