(* ===== verification/KrbProfile.v ===== *)
(** * The Kerberos encryption profiles ([src/auth/kerberos/crypto.rs])

    Key derivation and the two profiles: decryption undoes encryption, and accepts nothing
    whose checksum is not the right one. *)

From S2P Require Import Prelude Types Fields Pack Ntlm KrbCrypto KrbFold.

(** The keys a profile takes. *)
Definition key_fits (key : bytes) (etype : EncryptionType) : Prop :=
  match etype with
  | Aes128CtsHmacSha196 => len key = 16
  | Aes256CtsHmacSha196 => len key = 32
  | Rc4Hmac => True
  end.
Definition confounder_len (etype : EncryptionType) : Z :=
  match etype with Rc4Hmac => 8 | _ => 16 end.

Lemma subslice_two {A} (l : list A) a : 0 <= a <= len l → subslice l 0 a ++ subslice l a (len l) = l.
Proof.
  intros Ha. unfold subslice. rewrite Z.sub_0_r, drop_0. rewrite (take_ge (drop _ _)); [apply take_drop|].
  rewrite length_drop. unfold len in *. lia.
Qed.

Section profile.
Context `{KrbLaws} `{NtlmLaws}.

(** ** Derived keys *)

Lemma dk_loop_ok fuel key input out :
  valid_aes_key key = true → length input = 16%nat → (length key <= length out + 16 * fuel)%nat →
  ∃ k, dk_loop fuel key input out = Ok k ∧ len k = len key.
Proof.
  intros Hk. revert input out. induction fuel as [|fuel IH]; intros input out Hi Hf; cbn [dk_loop].
  - case_test; [unfold len in *; lia|]. eexists. split; [done|]. unfold len in *. rewrite length_take. lia.
  - case_test.
    + rewrite ecb_encrypt_ok by done. cbn [mbind result_bind]. pose proof (length_block key input Hi).
      apply IH; [done|]. rewrite length_app. lia.
    + eexists. split; [done|]. unfold len in *. rewrite length_take. lia.
Qed.

Lemma dk_derive_ok key constant :
  valid_aes_key key = true → constant ≠ [] → len constant < 2 ^ 64 →
  ∃ k, dk_derive key constant = Ok k ∧ len k = len key ∧ valid_aes_key k = true.
Proof.
  intros Hk Hc Hl. unfold dk_derive. destruct (nfold_spec constant 16 Hc) as (folded & -> & Hf & _); [lia| |].
  { change (256 ^ 16) with (2 ^ 64 * 2 ^ 64). lia. }
  cbn [mbind result_bind]. destruct (dk_loop_ok (length key) key folded []) as (k & -> & Hlk); [exact Hk|apply len_16, Hf|cbn [length]; lia|].
  exists k. split; [reflexivity|]. split; [exact Hlk|]. unfold valid_aes_key in *. rewrite Hlk. exact Hk.
Qed.

Lemma usage_key_ok key usage x :
  valid_aes_key key = true →
  ∃ k, derive_key_aes key (to_be 4 usage ++ [x]) = Ok k ∧ valid_aes_key k = true.
Proof.
  intros Hk. destruct (dk_derive_ok key (to_be 4 usage ++ [x])) as (k & E & _ & Hv);
    [exact Hk| | |exists k; exact (conj E Hv)].
  - intros E%(f_equal len). rewrite len_app, len_to_be in E. discriminate E.
  - rewrite len_app, len_to_be. reflexivity.
Qed.

Lemma hmac_96_ok k data : ∃ m, hmac_sha1_96 k data = Ok m ∧ len m = 12.
Proof.
  unfold hmac_sha1_96. pose proof (hmac_sha1_len k data). rewrite slice_ok by lia. eexists. split; [done|].
  rewrite len_subslice; lia.
Qed.

Lemma fits_valid key etype : key_fits key etype → etype ≠ Rc4Hmac → valid_aes_key key = true.
Proof. unfold valid_aes_key. intros Hk He. destruct etype; cbn in Hk; [by rewrite Hk..|done]. Qed.

(** ** Decryption of anything *)

Lemma cbc_decrypt_total n key prev data :
  valid_aes_key key = true → length data = (16 * n)%nat → length prev = 16%nat →
  ∃ pt, cbc_decrypt_loop n key prev data = Ok pt ∧ length pt = length data.
Proof.
  intros Hk. revert prev data. induction n as [|n IH]; intros prev data Hd Hp.
  { exists []. destruct data; [done|cbn in Hd; lia]. }
  cbn [cbc_decrypt_loop]. destruct (length_take_16 n data Hd) as [Ht Hr]. rewrite ecb_decrypt_ok by done.
  cbn [mbind result_bind]. destruct (IH (take 16 data) (drop 16 data) Hr Ht) as (pt & -> & Hl).
  eexists. split; [done|]. pose proof (length_unblock key _ Ht). rewrite length_app, length_xor by lia. lia.
Qed.

Lemma cts_decrypt_total key iv ct :
  valid_aes_key key = true → length iv = 16%nat → 16 <= len ct →
  ∃ pt, decrypt_aes_cts key iv ct = Ok pt ∧ len pt = len ct.
Proof.
  intros Hk Hi Hc. unfold decrypt_aes_cts. destruct (is_empty ct) eqn:Ee; [by destruct ct|]. assert (len iv = 16) as Hi' by by apply len_16.
  destruct (len ct <=? 16) eqn:E16; bool_prop.
  { assert (len ct = 16) as E by lia. rewrite E. cbn [Z.eqb Pos.eqb negb]. apply len_16 in E as E'.
    rewrite ecb_decrypt_ok, Hi' by done. cbn [mbind result_bind]. change (16 <? 16) with false. cbv iota.
    eexists. split; [done|]. pose proof (length_unblock key ct E') as Hu. unfold len.
    rewrite length_xor; [by rewrite Hu|]. rewrite take_ge; lia. }
  pose proof (div_ceil_spec (len ct) 16 ltac:(lia) ltac:(lia)) as Hd. set (n := div_ceil (len ct) 16) in *. cbv zeta.
  assert (len (pad_to (n * 16) ct) = n * 16) as Hpad by (unfold pad_to; rewrite len_app, len_zeros by lia; lia).
  set (padded := pad_to (n * 16) ct) in *.
  assert (∃ u, (if negb (len ct mod 16 =? 0) then
         intermediate ← aes_ecb_decrypt key (subslice padded ((n - 2) * 16) ((n - 2) * 16 + 16));
         Ok (subslice padded 0 ((n - 2) * 16) ++
             (subslice padded ((n - 1) * 16) ((n - 1) * 16 + (len ct - (n - 1) * 16)) ++ subslice intermediate (len ct - (n - 1) * 16) 16)
             ++ subslice padded ((n - 2) * 16) ((n - 2) * 16 + 16))
       else Ok (swap_last_blocks n padded)) = Ok u ∧ len u = n * 16) as (u & -> & Hu).
  { destruct (len ct mod 16 =? 0); cbn [negb].
    - eexists. split; [done|]. unfold swap_last_blocks. rewrite !len_app, !len_subslice by lia. lia.
    - assert (length (subslice padded ((n - 2) * 16) ((n - 2) * 16 + 16)) = 16%nat) as Hb
        by (apply len_16; rewrite len_subslice; lia).
      rewrite ecb_decrypt_ok by done. cbn [mbind result_bind]. eexists. split; [done|].
      pose proof (length_unblock key _ Hb) as Hub%len_16. rewrite !len_app, !len_subslice by lia. lia. }
  cbn [mbind result_bind]. unfold aes_cbc_decrypt. rewrite Hu, Z_mod_mult, Hi'. cbn [Z.eqb Pos.eqb negb]. rewrite Z_div_mult by lia.
  destruct (cbc_decrypt_total (Z.to_nat n) key iv u Hk) as (pt & -> & Hp); [unfold len in Hu; lia|done|].
  cbn [mbind result_bind]. assert (len pt = n * 16) by (unfold len in *; lia).
  rewrite slice_ok by lia. eexists. split; [done|]. rewrite len_subslice; lia.
Qed.

(** ** The profiles *)

(** The checksum a profile puts beside what it encrypts. *)
Definition sealing_tag (key : bytes) (usage : Z) (data : bytes) (etype : EncryptionType) : result Error bytes :=
  match etype with
  | Rc4Hmac => Ok (hmac_md5 (hmac_md5 key (to_le 4 usage)) data)
  | _ => ki ← derive_key_aes key (usage_int usage); hmac_sha1_96 ki data
  end.

(** Where it is in a ciphertext. *)
Definition tag_of (ct : bytes) (etype : EncryptionType) : bytes :=
  match etype with
  | Rc4Hmac => subslice ct 0 16
  | _ => subslice ct (len ct - 12) (len ct)
  end.

#[local] Opaque derive_key_aes decrypt_aes_cts encrypt_aes_cts hmac_sha1_96 rc4_encrypt to_le to_be.

(** Decryption of a body and a checksum of 12 bytes. *)
Lemma aes_decrypts key usage ke ki body m full :
  derive_key_aes key (usage_enc usage) = Ok ke → derive_key_aes key (usage_int usage) = Ok ki →
  len m = 12 → 16 <= len body → decrypt_aes_cts ke (zeros 16) body = Ok full → len full = len body →
  kerberos_decrypt_aes key usage (body ++ m)
  = computed ← hmac_sha1_96 ki full;
    if negb (bool_decide (computed = m)) then Err (Auth "Kerberos AES HMAC verification failed")
    else Ok (subslice full 16 (len full)).
Proof.
  intros Eke Eki Hm Hb Ed Hf. unfold kerberos_decrypt_aes. rewrite len_app, Hm.
  rewrite (proj2 (Z.ltb_ge _ _)) by lia. replace (len body + 12 - 12) with (len body) by lia.
  rewrite (slice_ok (body ++ m) 0) by (rewrite ?len_app; lia). rewrite subslice_full_prefix by reflexivity. rewrite bind_ok.
  rewrite slice_ok by (rewrite ?len_app; lia). rewrite subslice_suffix by lia. rewrite bind_ok.
  rewrite Eke, bind_ok, Eki, bind_ok, Ed, bind_ok.
  destruct (hmac_sha1_96 ki full) as [c|e|]; [|reflexivity|reflexivity]. rewrite !bind_ok.
  rewrite (proj2 (Z.ltb_ge (len full) 16)) by lia. rewrite slice_ok by lia. reflexivity.
Qed.

Lemma aes_round_trip key usage confounder plaintext :
  valid_aes_key key = true → len confounder = 16 →
  ∃ ct, kerberos_encrypt_aes key usage confounder plaintext = Ok ct ∧ kerberos_decrypt_aes key usage ct = Ok plaintext.
Proof.
  intros Hv Hc. destruct (usage_key_ok key usage xaa Hv) as (ke & Eke & Hke).
  destruct (usage_key_ok key usage x55 Hv) as (ki & Eki & Hki).
  fold (usage_enc usage) in Eke. fold (usage_int usage) in Eki. pose proof (len_nonneg plaintext) as Hp.
  destruct (cts_round_trip ke Hke (zeros 16) (confounder ++ plaintext)) as (c & Ec & Hlc & Edc); [reflexivity|rewrite len_app; lia|].
  destruct (hmac_96_ok ki (confounder ++ plaintext)) as (m & Em & Hm).
  exists (c ++ m). rewrite len_app in Hlc. split.
  - unfold kerberos_encrypt_aes. rewrite Eke, bind_ok, Eki, bind_ok. rewrite Em, bind_ok, Ec. reflexivity.
  - rewrite (aes_decrypts key usage ke ki c m (confounder ++ plaintext) Eke Eki Hm) by (exact Edc || (rewrite ?len_app; lia)).
    rewrite Em, bind_ok. rewrite bool_decide_eq_true_2 by reflexivity. cbn [negb].
    rewrite subslice_suffix by (rewrite ?len_app; lia). reflexivity.
Qed.

Lemma rc4_round_trip key usage confounder plaintext :
  len confounder = 8 →
  ∃ ct, encrypt_rc4_hmac key usage confounder plaintext = Ok ct ∧ decrypt_rc4_hmac key usage ct = Ok plaintext.
Proof.
  intros Hc. unfold encrypt_rc4_hmac. cbv zeta. set (k1 := hmac_md5 key (to_le 4 usage)). set (payload := confounder ++ plaintext).
  set (checksum := hmac_md5 k1 payload). assert (len checksum = 16) as Hs by apply hmac_md5_len.
  assert (hmac_md5 k1 checksum ≠ []) as Hk.
  { intros E. pose proof (hmac_md5_len k1 checksum) as Hl. rewrite E in Hl. discriminate Hl. }
  destruct (rc4_involutive (hmac_md5 k1 checksum) payload Hk) as (e & E1 & E2 & Hle). unfold rc4_transform. rewrite E1.
  exists (checksum ++ e). split; [reflexivity|]. assert (len payload = 8 + len plaintext) as Hp by (unfold payload; rewrite len_app; lia).
  pose proof (len_nonneg plaintext). unfold decrypt_rc4_hmac. rewrite len_app. rewrite (proj2 (Z.ltb_ge _ _)) by lia.
  rewrite (slice_ok (checksum ++ e) 0) by (rewrite ?len_app; lia). rewrite subslice_full_prefix, bind_ok by lia.
  rewrite slice_ok by (rewrite ?len_app; lia). rewrite subslice_suffix, bind_ok by lia. fold k1.
  unfold rc4_transform. rewrite E2, bind_ok. fold checksum. rewrite bool_decide_eq_true_2 by reflexivity.
  cbn [negb]. rewrite Hp. rewrite (proj2 (Z.ltb_ge (8 + len plaintext) 8)) by lia. rewrite slice_ok by lia. unfold payload.
  rewrite subslice_suffix by (rewrite ?Hc; lia). reflexivity.
Qed.

(** ** What is accepted *)

Lemma aes_authentic key usage ct :
  valid_aes_key key = true →
  kerberos_decrypt_aes key usage ct ≠ Panic ∧
  ∀ p, kerberos_decrypt_aes key usage ct = Ok p →
    ∃ confounder, len confounder = 16 ∧
      (ki ← derive_key_aes key (usage_int usage); hmac_sha1_96 ki (confounder ++ p)) = Ok (subslice ct (len ct - 12) (len ct)).
Proof.
  intros Hv. destruct (Z.lt_ge_cases (len ct) 28) as [Hs|Hl].
  { unfold kerberos_decrypt_aes. rewrite (proj2 (Z.ltb_lt _ _)) by lia. split; discriminate. }
  destruct (usage_key_ok key usage xaa Hv) as (ke & Eke & Hke). destruct (usage_key_ok key usage x55 Hv) as (ki & Eki & _).
  fold (usage_enc usage) in Eke. fold (usage_int usage) in Eki.
  set (n := Z.to_nat (len ct - 12)). set (body := take n ct). set (m := drop n ct).
  assert (len body = len ct - 12 ∧ len m = 12) as [Hb Hm] by (unfold body, m, n, len in *; rewrite length_take, length_drop; lia).
  assert (ct = body ++ m) as Ect by (symmetry; apply take_drop).
  destruct (cts_decrypt_total ke (zeros 16) body Hke) as (full & Ed & Hf); [reflexivity|lia|].
  assert (subslice ct (len ct - 12) (len ct) = m) as -> by (rewrite Ect at 1; apply subslice_suffix; lia).
  rewrite Ect, (aes_decrypts key usage ke ki body m full Eke Eki Hm ltac:(lia) Ed Hf), Eki. clearbody body m. clear Ect.
  destruct (hmac_96_ok ki full) as (c & Em & _). rewrite Em, !bind_ok.
  destruct (bool_decide_reflect (c = m)) as [->|Hne]; cbn [negb]; [|split; discriminate].
  split; [discriminate|]. intros p [= <-]. exists (subslice full 0 16). split; [rewrite len_subslice; lia|].
  rewrite bind_ok. assert (subslice full 0 16 ++ subslice full 16 (len full) = full) as -> by (apply subslice_two; lia). exact Em.
Qed.

Lemma rc4_authentic key usage ct :
  decrypt_rc4_hmac key usage ct ≠ Panic ∧
  ∀ p, decrypt_rc4_hmac key usage ct = Ok p →
    ∃ confounder, len confounder = 8 ∧ @Ok Error _ (hmac_md5 (hmac_md5 key (to_le 4 usage)) (confounder ++ p)) = Ok (subslice ct 0 16).
Proof.
  unfold decrypt_rc4_hmac. destruct (len ct <? 24) eqn:El; [split; discriminate|]. bool_prop.
  rewrite (slice_ok ct 0), bind_ok by lia. rewrite (slice_ok ct 16), bind_ok by lia.
  set (k1 := hmac_md5 key (to_le 4 usage)). set (c := subslice ct 0 16).
  assert (hmac_md5 k1 c ≠ []) as Hk by (intros E; pose proof (hmac_md5_len k1 c) as Hl; rewrite E in Hl; discriminate Hl).
  destruct (rc4_involutive (hmac_md5 k1 c) (subslice ct 16 (len ct)) Hk) as (payload & E1 & _ & Hp).
  rewrite len_subslice in Hp by lia. unfold rc4_transform. rewrite E1, bind_ok.
  destruct (bool_decide_reflect (hmac_md5 k1 payload = c)) as [Ec|Hne]; cbn [negb]; [|split; discriminate].
  destruct (len payload <? 8) eqn:E8; [bool_prop; lia|]. bool_prop. rewrite slice_ok by lia. split; [discriminate|].
  intros p [= <-]. exists (subslice payload 0 8). split; [rewrite len_subslice; lia|]. f_equal.
  rewrite subslice_two by lia. exact Ec.
Qed.

Lemma profile_round_trip key usage confounder plaintext etype :
  key_fits key etype → len confounder = confounder_len etype →
  ∃ ct, kerberos_encrypt key usage confounder plaintext etype = Ok ct ∧
        kerberos_decrypt key usage ct etype = Ok plaintext.
Proof.
  intros Hk Hc. destruct etype; cbn [kerberos_encrypt kerberos_decrypt];
    [apply aes_round_trip; [by eapply fits_valid|exact Hc]..|apply rc4_round_trip, Hc].
Qed.
Lemma valid_authentic key usage ct etype :
  (etype ≠ Rc4Hmac → valid_aes_key key = true) →
  kerberos_decrypt key usage ct etype ≠ Panic ∧
  ∀ p, kerberos_decrypt key usage ct etype = Ok p →
    ∃ confounder, len confounder = confounder_len etype ∧
      sealing_tag key usage (confounder ++ p) etype = Ok (tag_of ct etype).
Proof.
  intros Hk. destruct etype; cbn [kerberos_decrypt confounder_len sealing_tag tag_of];
    [apply aes_authentic; by apply Hk..|apply rc4_authentic].
Qed.
Lemma profile_authentic key usage ct etype :
  key_fits key etype →
  kerberos_decrypt key usage ct etype ≠ Panic ∧
  ∀ p, kerberos_decrypt key usage ct etype = Ok p →
    ∃ confounder, len confounder = confounder_len etype ∧
      sealing_tag key usage (confounder ++ p) etype = Ok (tag_of ct etype).
Proof. intros Hk. apply valid_authentic. intros He. by eapply fits_valid. Qed.

(** ** Properties *)

(** Each encryption profile is undone by its decryption: whatever key of the right
    size, key usage, confounder and plaintext, encryption succeeds and decrypting its
    output with the same key and usage returns the plaintext, for AES-128, AES-256 (with
    cipher text stealing at every length) and RC4. *)
Theorem kerberos_round_trip key usage confounder plaintext etype :
  key_fits key etype → len confounder = confounder_len etype →
  ∃ ct, kerberos_encrypt key usage confounder plaintext etype = Ok ct ∧
        kerberos_decrypt key usage ct etype = Ok plaintext.
Proof. apply profile_round_trip. Qed.

(** C21: decryption accepts nothing that was not sealed with the key.  With a key of the
    right size it never panics, whatever the ciphertext, and when it returns a plaintext,
    the checksum in the ciphertext is the one of a confounder and that plaintext under the
    key and usage. *)
Theorem kerberos_decrypt_authentic key usage ct etype :
  key_fits key etype →
  kerberos_decrypt key usage ct etype ≠ Panic ∧
  ∀ p, kerberos_decrypt key usage ct etype = Ok p →
    ∃ confounder, len confounder = confounder_len etype ∧
      sealing_tag key usage (confounder ++ p) etype = Ok (tag_of ct etype).
Proof. apply profile_authentic. Qed.

End profile.

(** ** Witnesses *)

(** A cipher that reverses its block, and checksums of the right size. *)
Definition fit (n : Z) (l : bytes) : bytes := take (Z.to_nat n) (l ++ zeros n).
Lemma fit_len n l : 0 <= n → len (fit n l) = n.
Proof. intros Hn. unfold fit, len, zeros. rewrite length_take, length_app, length_replicate. lia. Qed.

#[global] Instance toy_krb : KrbPrimitives := {
  aes_block k b := rev b;
  aes_unblock k b := rev b;
  hmac_sha1 k m := fit 20 (k ++ m);
  pbkdf2_hmac_sha1 p s i n := fit n (p ++ s)
}.
#[global] Instance toy_krb_laws : KrbLaws.
Proof.
  split; cbn; intros; try (unfold len; rewrite length_rev; done); [apply rev_involutive|by apply fit_len..].
Qed.

#[local] Existing Instance toy_ntlm.
#[local] Existing Instance toy_ntlm_laws.

Definition sample_key : bytes := to_be 32 0x0102030405060708090a0b0c0d0e0f101112131415161718191a1b1c1d1e1f20.
Definition sample_text : bytes := to_be 21 0x48656c6c6f20776f726c64.

Lemma kerberos_round_trip_witness :
  ∃ ct, kerberos_encrypt sample_key 7 (zeros 16) sample_text Aes256CtsHmacSha196 = Ok ct ∧
        kerberos_decrypt sample_key 7 ct Aes256CtsHmacSha196 = Ok sample_text.
Proof. apply kerberos_round_trip; reflexivity. Defined.

Lemma kerberos_decrypt_authentic_witness :
  kerberos_decrypt sample_key 7 (zeros 40) Aes256CtsHmacSha196 ≠ Panic.
Proof. apply (kerberos_decrypt_authentic sample_key 7 (zeros 40) Aes256CtsHmacSha196). reflexivity. Defined.

Example tampered_is_refused :
  kerberos_decrypt sample_key 7 (zeros 40) Aes256CtsHmacSha196 = Err (Auth "Kerberos AES HMAC verification failed").
Proof. vm_compute. reflexivity. Qed.

(** A key of another size is not refused but panics. *)
Example short_key_panics : kerberos_decrypt (zeros 5) 7 (zeros 40) Aes256CtsHmacSha196 = Panic.
Proof. vm_compute. reflexivity. Qed.
