(* ===== verification/KrbMessages.v ===== *)
(** * Kerberos messages ([src/auth/kerberos/messages.rs])

    The ASN.1/DER encoding of the requests a client sends and the parsing of what a KDC
    and a server answer.  Strings are lists of scalar values, encoded in UTF-8. *)

From S2P Require Import Prelude Types Fields Pack Utf8 Spnego KrbCrypto.

Definition TAG_INTEGER : Z := 0x02.
Definition TAG_BIT_STRING : Z := 0x03.
Definition TAG_GENERAL_STRING : Z := 0x1b.
Definition TAG_GENERALIZED_TIME : Z := 0x18.

Record PrincipalName := mkPrincipalName { name_type : Z; name_string : list (list Z) }.
Record EncryptedData := mkEncryptedData { ed_etype : Z; ed_kvno : option Z; ed_cipher : bytes }.
Record Ticket := mkTicket {
  tkt_vno : Z; tkt_realm : list Z; tkt_sname : PrincipalName; tkt_enc_part : EncryptedData;
  tkt_raw_bytes : option bytes
}.
Record PaData := mkPaData { padata_type : Z; padata_value : bytes }.
Record KdcRep := mkKdcRep {
  kr_msg_type : Z; kr_crealm : list Z; kr_cname : PrincipalName; kr_ticket : Ticket; kr_enc_part : EncryptedData
}.
Record EncryptionKey := mkEncryptionKey { keytype : Z; keyvalue : bytes }.
Record EncKdcRepPart := mkEncKdcRepPart {
  ep_key : EncryptionKey; ep_nonce : Z; ep_flags : Z; ep_authtime : list Z; ep_endtime : list Z;
  ep_srealm : list Z; ep_sname : PrincipalName
}.
Record ApRep := mkApRep { ar_enc_part : EncryptedData }.
Record EncApRepPart := mkEncApRepPart { eap_subkey : option EncryptionKey; eap_seq_number : option Z }.
Record KrbError := mkKrbError {
  ke_error_code : Z; ke_crealm : option (list Z); ke_realm : list Z; ke_sname : PrincipalName;
  ke_e_text : option (list Z); ke_e_data : option bytes
}.

(** ** Encoding helpers *)

Definition der_context (tag_num : Z) (data : bytes) : bytes := der_tlv (Z.lor 0xa0 tag_num) data.
Definition der_application (tag_num : Z) (data : bytes) : bytes := der_tlv (Z.lor 0x60 tag_num) data.

(** [x as i32] and [x as i64] of a wider integer. *)
Definition to_signed (w z : Z) : Z := let m := z mod 2 ^ w in if m <? 2 ^ (w - 1) then m else m - 2 ^ w.
Definition high_bit (b : byte) : bool := negb (Z.land (u8_of_byte b) 0x80 =? 0).

(** [while start < last && bytes[start] == pad && ..]: leading bytes that only repeat the sign. *)
Fixpoint skip_sign (pad : byte) (bs : bytes) : bytes :=
  match bs with
  | b :: (c :: _) as rest =>
      if bool_decide (b = pad) && Bool.eqb (high_bit c) (high_bit pad) then skip_sign pad rest else bs
  | _ => bs
  end.

Definition der_integer (val : Z) : bytes :=
  let bs := to_be 4 val in
  der_tlv TAG_INTEGER (if 0 <=? val then skip_sign x00 bs else skip_sign xff bs).
Definition der_integer_u32 (val : Z) : bytes := der_tlv TAG_INTEGER (skip_sign x00 (to_be 8 val)).

Definition der_octet_string (data : bytes) : bytes := der_tlv TAG_OCTET_STRING data.
Definition der_general_string (s : list Z) : bytes := der_tlv TAG_GENERAL_STRING (utf8_bytes s).
Definition der_generalized_time (time : list Z) : bytes := der_tlv TAG_GENERALIZED_TIME (utf8_bytes time).
Definition der_bit_string (bits : bytes) (unused : Z) : bytes := der_tlv TAG_BIT_STRING (byte_of_u8 unused :: bits).
Definition der_sequence (items : list bytes) : bytes := der_tlv TAG_SEQUENCE (concat items).

(** ** Parsing helpers *)

(** [while pos < data.len()], every field at least two bytes. *)
Fixpoint sequence_loop (fuel : nat) (data : bytes) (pos : Z) (fields : list (Z * bytes)) : result Error (list (Z * bytes)) :=
  match fuel with
  | O => Panic
  | S fuel =>
      if negb (pos <? len data) then Ok fields
      else
        rest ← slice data pos (len data);
        '(tag, value, consumed) ← parse_der_tlv rest;
        sequence_loop fuel data (pos + consumed) (fields ++ [(tag, value)])
  end.
Definition parse_sequence_fields (data : bytes) : result Error (list (Z * bytes)) :=
  sequence_loop (S (length data)) data 0 [].

Definition parse_integer_value (data : bytes) : result Error Z :=
  match data with
  | [] => Err (invalid_data "Kerberos: empty INTEGER")
  | b :: _ =>
      let val := foldl (λ val b, to_signed 64 (Z.lor (Z.shiftl val 8) (u8_of_byte b))) (if high_bit b then -1 else 0) data in
      Ok (to_signed 32 val)
  end.

(** The value of a TLV with an expected tag. *)
Definition expect_tlv (want : Z) (msg : string) (data : bytes) : result Error bytes :=
  '(tag, value, _) ← parse_der_tlv data;
  if negb (tag =? want) then Err (invalid_data msg) else Ok value.

Definition parse_der_integer (data : bytes) : result Error Z :=
  value ← expect_tlv TAG_INTEGER "Kerberos: expected INTEGER (0x02), got 0x{tag:02x}" data; parse_integer_value value.
Definition parse_der_integer_u32 (data : bytes) : result Error Z :=
  val ← parse_der_integer data; Ok (val mod 2 ^ 32).
Definition parse_der_octet_string (data : bytes) : result Error bytes :=
  expect_tlv TAG_OCTET_STRING "Kerberos: expected OCTET STRING (0x04), got 0x{tag:02x}" data.

Definition utf8_or (msg : string) (bs : bytes) : result Error (list Z) :=
  match from_utf8 bs with Some s => Ok s | None => Err (invalid_data msg) end.
Definition parse_der_general_string (data : bytes) : result Error (list Z) :=
  value ← expect_tlv TAG_GENERAL_STRING "Kerberos: expected GeneralString (0x1b), got 0x{tag:02x}" data;
  utf8_or "Kerberos: invalid UTF-8 in GeneralString" value.
Definition parse_der_generalized_time (data : bytes) : result Error (list Z) :=
  value ← expect_tlv TAG_GENERALIZED_TIME "Kerberos: expected GeneralizedTime (0x18), got 0x{tag:02x}" data;
  utf8_or "Kerberos: invalid UTF-8 in GeneralizedTime" value.
Definition parse_der_bit_string (data : bytes) : result Error (bytes * Z) :=
  value ← expect_tlv TAG_BIT_STRING "Kerberos: expected BIT STRING (0x03), got 0x{tag:02x}" data;
  match value with
  | [] => Err (invalid_data "Kerberos: empty BIT STRING")
  | unused :: bits => Ok (bits, u8_of_byte unused)
  end.

(** [for (ftag, fvalue) in &fields { match ftag .. }] *)
Definition each_field {A} (field : Z → bytes → A → result Error A) (fields : list (Z * bytes)) (acc : A) : result Error A :=
  fold_left (λ r p, acc ← r; field p.1 p.2 acc) fields (Ok acc).

Definition ok_or_data {A} (o : option A) (msg : string) : result Error A :=
  match o with Some a => Ok a | None => Err (invalid_data msg) end.

(** ** Compound types *)

Definition encode_principal_name (name : PrincipalName) : bytes :=
  der_sequence [der_context 0 (der_integer (name_type name));
                der_context 1 (der_sequence (map der_general_string (name_string name)))].

Definition encode_encrypted_data (ed : EncryptedData) : bytes :=
  let etype := der_context 0 (der_integer (ed_etype ed)) in
  let cipher := der_context 2 (der_octet_string (ed_cipher ed)) in
  match ed_kvno ed with
  | Some kvno => der_sequence [etype; der_context 1 (der_integer kvno); cipher]
  | None => der_sequence [etype; cipher]
  end.

Definition encode_ticket (t : Ticket) : bytes :=
  der_application 1 (der_sequence
    [der_context 0 (der_integer (tkt_vno t)); der_context 1 (der_general_string (tkt_realm t));
     der_context 2 (encode_principal_name (tkt_sname t)); der_context 3 (encode_encrypted_data (tkt_enc_part t))]).

Definition encode_pa_data (pa : PaData) : bytes :=
  der_sequence [der_context 1 (der_integer (padata_type pa)); der_context 2 (der_octet_string (padata_value pa))].

(** The names of a principal, one TLV each. *)
Fixpoint names_loop (fuel : nat) (sdata : bytes) (pos : Z) (names : list (list Z)) : result Error (list (list Z)) :=
  match fuel with
  | O => Panic
  | S fuel =>
      if negb (pos <? len sdata) then Ok names
      else
        rest ← slice sdata pos (len sdata);
        '(_, sv, consumed) ← parse_der_tlv rest;
        s ← utf8_or "Kerberos: invalid UTF-8 in name-string" sv;
        names_loop fuel sdata (pos + consumed) (names ++ [s])
  end.

Definition principal_field (ftag : Z) (fvalue : bytes) (acc : option Z * list (list Z)) :
    result Error (option Z * list (list Z)) :=
  let '(name_type, name_string) := acc in
  if ftag =? 0xa0 then v ← parse_der_integer fvalue; Ok (Some v, name_string)
  else if ftag =? 0xa1 then
    sdata ← expect_tlv TAG_SEQUENCE "Kerberos: expected SEQUENCE for name-string" fvalue;
    names ← names_loop (S (length sdata)) sdata 0 name_string;
    Ok (name_type, names)
  else Ok acc.

Definition parse_principal_name (data : bytes) : result Error PrincipalName :=
  seq_data ← expect_tlv TAG_SEQUENCE "Kerberos: expected SEQUENCE for PrincipalName, got 0x{tag:02x}" data;
  fields ← parse_sequence_fields seq_data;
  '(name_type, name_string) ← each_field principal_field fields (None, []);
  name_type ← ok_or_data name_type "Kerberos: missing name-type in PrincipalName";
  Ok (mkPrincipalName name_type name_string).

Definition encrypted_field (ftag : Z) (fvalue : bytes) (acc : option Z * option Z * option bytes) :
    result Error (option Z * option Z * option bytes) :=
  let '(etype, kvno, cipher) := acc in
  if ftag =? 0xa0 then v ← parse_der_integer fvalue; Ok (Some v, kvno, cipher)
  else if ftag =? 0xa1 then v ← parse_der_integer fvalue; Ok (etype, Some v, cipher)
  else if ftag =? 0xa2 then v ← parse_der_octet_string fvalue; Ok (etype, kvno, Some v)
  else Ok acc.

Definition parse_encrypted_data (data : bytes) : result Error EncryptedData :=
  seq_data ← expect_tlv TAG_SEQUENCE "Kerberos: expected SEQUENCE for EncryptedData, got 0x{tag:02x}" data;
  fields ← parse_sequence_fields seq_data;
  '(etype, kvno, cipher) ← each_field encrypted_field fields (None, None, None);
  etype ← ok_or_data etype "Kerberos: missing etype in EncryptedData";
  cipher ← ok_or_data cipher "Kerberos: missing cipher in EncryptedData";
  Ok (mkEncryptedData etype kvno cipher).

Definition ticket_acc : Type := option Z * option (list Z) * option PrincipalName * option EncryptedData.
Definition ticket_field (ftag : Z) (fvalue : bytes) (acc : ticket_acc) : result Error ticket_acc :=
  let '(tkt_vno, realm, sname, enc_part) := acc in
  if ftag =? 0xa0 then v ← parse_der_integer fvalue; Ok (Some v, realm, sname, enc_part)
  else if ftag =? 0xa1 then v ← parse_der_general_string fvalue; Ok (tkt_vno, Some v, sname, enc_part)
  else if ftag =? 0xa2 then v ← parse_principal_name fvalue; Ok (tkt_vno, realm, Some v, enc_part)
  else if ftag =? 0xa3 then v ← parse_encrypted_data fvalue; Ok (tkt_vno, realm, sname, Some v)
  else Ok acc.

Definition parse_ticket (data : bytes) : result Error Ticket :=
  '(tag, inner, total_consumed) ← parse_der_tlv data;
  if negb (tag =? 0x61)
  then Err (invalid_data "Kerberos: expected APPLICATION [1] (0x61) for Ticket, got 0x{tag:02x}") else
  raw_bytes ← slice data 0 total_consumed;
  seq_data ← expect_tlv TAG_SEQUENCE "Kerberos: expected SEQUENCE in Ticket, got 0x{seq_tag:02x}" inner;
  fields ← parse_sequence_fields seq_data;
  '(tkt_vno, realm, sname, enc_part) ← each_field ticket_field fields (None, None, None, None);
  tkt_vno ← ok_or_data tkt_vno "Kerberos: missing tkt-vno in Ticket";
  realm ← ok_or_data realm "Kerberos: missing realm in Ticket";
  sname ← ok_or_data sname "Kerberos: missing sname in Ticket";
  enc_part ← ok_or_data enc_part "Kerberos: missing enc-part in Ticket";
  Ok (mkTicket tkt_vno realm sname enc_part (Some raw_bytes)).

Definition key_field (ftag : Z) (fvalue : bytes) (acc : option Z * option bytes) : result Error (option Z * option bytes) :=
  let '(keytype, keyvalue) := acc in
  if ftag =? 0xa0 then v ← parse_der_integer fvalue; Ok (Some v, keyvalue)
  else if ftag =? 0xa1 then v ← parse_der_octet_string fvalue; Ok (keytype, Some v)
  else Ok acc.

Definition parse_encryption_key (data : bytes) : result Error EncryptionKey :=
  seq_data ← expect_tlv TAG_SEQUENCE "Kerberos: expected SEQUENCE for EncryptionKey, got 0x{tag:02x}" data;
  fields ← parse_sequence_fields seq_data;
  '(keytype, keyvalue) ← each_field key_field fields (None, None);
  keytype ← ok_or_data keytype "Kerberos: missing keytype in EncryptionKey";
  keyvalue ← ok_or_data keyvalue "Kerberos: missing keyvalue in EncryptionKey";
  Ok (mkEncryptionKey keytype keyvalue).

(** ** Requests *)

(** "20370913024805Z" *)
Definition TILL : list Z := [50; 48; 51; 55; 48; 57; 49; 51; 48; 50; 52; 56; 48; 53; 90].

Definition encode_kdc_req_body (cname : option PrincipalName) (realm : list Z) (sname : PrincipalName) (nonce : Z)
    (etypes : list EncryptionType) : bytes :=
  let kdc_options := der_context 0 (der_bit_string [x40; x81; x00; x10] 0) in
  der_sequence
    ([kdc_options] ++
     (match cname with Some cn => [der_context 1 (encode_principal_name cn)] | None => [] end) ++
     [der_context 2 (der_general_string realm); der_context 3 (encode_principal_name sname);
      der_context 5 (der_generalized_time TILL); der_context 7 (der_integer_u32 nonce);
      der_context 8 (der_sequence (map (λ e, der_integer (EncryptionType_code e)) etypes))]).

Definition encode_kdc_req (msg_type_val : Z) (cname : option PrincipalName) (realm : list Z) (sname : PrincipalName)
    (nonce : Z) (etypes : list EncryptionType) (padata : list PaData) : bytes :=
  let req_body := encode_kdc_req_body cname realm sname nonce etypes in
  let kdc_req_seq := der_sequence
    ([der_context 1 (der_integer 5); der_context 2 (der_integer msg_type_val)] ++
     (if is_empty padata then [] else [der_context 3 (der_sequence (map encode_pa_data padata))]) ++
     [der_context 4 req_body]) in
  let app_tag := if msg_type_val =? 10 then 10 else if msg_type_val =? 12 then 12 else trunc 8 msg_type_val in
  der_application app_tag kdc_req_seq.

Definition encode_as_req (cname : PrincipalName) (realm : list Z) (sname : PrincipalName) (nonce : Z)
    (etypes : list EncryptionType) (padata : list PaData) : bytes :=
  encode_kdc_req 10 (Some cname) realm sname nonce etypes padata.
Definition encode_tgs_req_body (realm : list Z) (sname : PrincipalName) (nonce : Z) (etypes : list EncryptionType) : bytes :=
  encode_kdc_req_body None realm sname nonce etypes.
Definition encode_tgs_req (realm : list Z) (sname : PrincipalName) (nonce : Z) (etypes : list EncryptionType)
    (tgt_ap_req : bytes) : bytes :=
  encode_kdc_req 12 None realm sname nonce etypes [mkPaData 1 tgt_ap_req].

Definition encode_ap_req (ticket : Ticket) (encrypted_authenticator : EncryptedData) (mutual_required : bool) : bytes :=
  let opts_byte0 := if mutual_required then x20 else x00 in
  let ticket_raw := der_context 3 (match tkt_raw_bytes ticket with Some b => b | None => encode_ticket ticket end) in
  der_application 14 (der_sequence
    [der_context 0 (der_integer 5); der_context 1 (der_integer 14);
     der_context 2 (der_bit_string [opts_byte0; x00; x00; x00] 0); ticket_raw;
     der_context 4 (encode_encrypted_data encrypted_authenticator)]).

(** A checksum or a key: a type and a value. *)
Definition encode_typed (t : Z) (v : bytes) : bytes :=
  der_sequence [der_context 0 (der_integer t); der_context 1 (der_octet_string v)].

Definition encode_authenticator (crealm : list Z) (cname : PrincipalName) (ctime : list Z) (cusec : Z)
    (subkey : option (bytes * Z)) (seq_number : option Z) (cksum : option (bytes * Z)) : bytes :=
  der_application 2 (der_sequence
    ([der_context 0 (der_integer 5); der_context 1 (der_general_string crealm); der_context 2 (encode_principal_name cname)] ++
     (match cksum with Some (data, t) => [der_context 3 (encode_typed t data)] | None => [] end) ++
     [der_context 4 (der_integer_u32 cusec); der_context 5 (der_generalized_time ctime)] ++
     (match subkey with Some (v, t) => [der_context 6 (encode_typed t v)] | None => [] end) ++
     (match seq_number with Some seq => [der_context 7 (der_integer_u32 seq)] | None => [] end))).

Definition encode_pa_enc_timestamp (ctime : list Z) (cusec : Z) : bytes :=
  der_sequence [der_context 0 (der_generalized_time ctime); der_context 1 (der_integer_u32 cusec)].

(** ** Replies *)

Definition kdc_rep_acc : Type :=
  option Z * option (list Z) * option PrincipalName * option Ticket * option EncryptedData.
Definition kdc_rep_field (ftag : Z) (fvalue : bytes) (acc : kdc_rep_acc) : result Error kdc_rep_acc :=
  let '(msg_type, crealm, cname, ticket, enc_part) := acc in
  if ftag =? 0xa1 then v ← parse_der_integer fvalue; Ok (Some v, crealm, cname, ticket, enc_part)
  else if ftag =? 0xa3 then v ← parse_der_general_string fvalue; Ok (msg_type, Some v, cname, ticket, enc_part)
  else if ftag =? 0xa4 then v ← parse_principal_name fvalue; Ok (msg_type, crealm, Some v, ticket, enc_part)
  else if ftag =? 0xa5 then v ← parse_ticket fvalue; Ok (msg_type, crealm, cname, Some v, enc_part)
  else if ftag =? 0xa6 then v ← parse_encrypted_data fvalue; Ok (msg_type, crealm, cname, ticket, Some v)
  else Ok acc.

Definition parse_kdc_rep (data : bytes) : result Error KdcRep :=
  '(tag, inner, _) ← parse_der_tlv data;
  expected_msg_type ←
    (if tag =? 0x6b then Ok 11 else if tag =? 0x6d then Ok 13
     else Err (invalid_data "Kerberos: expected APPLICATION [11] or [13] for KDC-REP, got 0x{tag:02x}"));
  seq_data ← expect_tlv TAG_SEQUENCE "Kerberos: expected SEQUENCE in KDC-REP, got 0x{seq_tag:02x}" inner;
  fields ← parse_sequence_fields seq_data;
  '(msg_type, crealm, cname, ticket, enc_part) ← each_field kdc_rep_field fields (None, None, None, None, None);
  msg_type ← ok_or_data msg_type "Kerberos: missing msg-type in KDC-REP";
  if negb (msg_type =? expected_msg_type)
  then Err (invalid_data "Kerberos: KDC-REP msg-type mismatch: tag says {expected_msg_type}, field says {msg_type}") else
  crealm ← ok_or_data crealm "Kerberos: missing crealm in KDC-REP";
  cname ← ok_or_data cname "Kerberos: missing cname in KDC-REP";
  ticket ← ok_or_data ticket "Kerberos: missing ticket in KDC-REP";
  enc_part ← ok_or_data enc_part "Kerberos: missing enc-part in KDC-REP";
  Ok (mkKdcRep msg_type crealm cname ticket enc_part).

Definition enc_part_acc : Type :=
  option EncryptionKey * option Z * option Z * option (list Z) * option (list Z) * option (list Z) * option PrincipalName.
Definition enc_part_field (ftag : Z) (fvalue : bytes) (acc : enc_part_acc) : result Error enc_part_acc :=
  let '(key, nonce, flags, authtime, endtime, srealm, sname) := acc in
  if ftag =? 0xa0 then v ← parse_encryption_key fvalue; Ok (Some v, nonce, flags, authtime, endtime, srealm, sname)
  else if ftag =? 0xa2 then v ← parse_der_integer_u32 fvalue; Ok (key, Some v, flags, authtime, endtime, srealm, sname)
  else if ftag =? 0xa4 then
    '(bits, _) ← parse_der_bit_string fvalue;
    Ok (key, nonce, (if 4 <=? len bits then Some (of_be (take 4 bits)) else flags), authtime, endtime, srealm, sname)
  else if ftag =? 0xa5 then v ← parse_der_generalized_time fvalue; Ok (key, nonce, flags, Some v, endtime, srealm, sname)
  else if ftag =? 0xa7 then v ← parse_der_generalized_time fvalue; Ok (key, nonce, flags, authtime, Some v, srealm, sname)
  else if ftag =? 0xa9 then v ← parse_der_general_string fvalue; Ok (key, nonce, flags, authtime, endtime, Some v, sname)
  else if ftag =? 0xaa then v ← parse_principal_name fvalue; Ok (key, nonce, flags, authtime, endtime, srealm, Some v)
  else Ok acc.

Definition parse_enc_kdc_rep_part (data : bytes) : result Error EncKdcRepPart :=
  '(tag, inner, _) ← parse_der_tlv data;
  seq_data ←
    (if (tag =? 0x79) || (tag =? 0x7a)
     then expect_tlv TAG_SEQUENCE "Kerberos: expected SEQUENCE in EncKDCRepPart, got 0x{seq_tag:02x}" inner
     else if tag =? TAG_SEQUENCE then Ok inner
     else Err (invalid_data "Kerberos: expected APPLICATION [25/26] or SEQUENCE for EncKDCRepPart, got 0x{tag:02x}"));
  fields ← parse_sequence_fields seq_data;
  '(key, nonce, flags, authtime, endtime, srealm, sname) ←
     each_field enc_part_field fields (None, None, None, None, None, None, None);
  key ← ok_or_data key "Kerberos: missing key in EncKDCRepPart";
  nonce ← ok_or_data nonce "Kerberos: missing nonce in EncKDCRepPart";
  authtime ← ok_or_data authtime "Kerberos: missing authtime in EncKDCRepPart";
  endtime ← ok_or_data endtime "Kerberos: missing endtime in EncKDCRepPart";
  srealm ← ok_or_data srealm "Kerberos: missing srealm in EncKDCRepPart";
  sname ← ok_or_data sname "Kerberos: missing sname in EncKDCRepPart";
  Ok (mkEncKdcRepPart key nonce (default 0 flags) authtime endtime srealm sname).

Definition krb_error_acc : Type :=
  option Z * option (list Z) * option (list Z) * option PrincipalName * option (list Z) * option bytes.
Definition krb_error_field (ftag : Z) (fvalue : bytes) (acc : krb_error_acc) : result Error krb_error_acc :=
  let '(error_code, crealm, realm, sname, e_text, e_data) := acc in
  if ftag =? 0xa6 then v ← parse_der_integer fvalue; Ok (Some v, crealm, realm, sname, e_text, e_data)
  else if ftag =? 0xa7 then v ← parse_der_general_string fvalue; Ok (error_code, Some v, realm, sname, e_text, e_data)
  else if ftag =? 0xa9 then v ← parse_der_general_string fvalue; Ok (error_code, crealm, Some v, sname, e_text, e_data)
  else if ftag =? 0xaa then v ← parse_principal_name fvalue; Ok (error_code, crealm, realm, Some v, e_text, e_data)
  else if ftag =? 0xab then v ← parse_der_general_string fvalue; Ok (error_code, crealm, realm, sname, Some v, e_data)
  else if ftag =? 0xac then v ← parse_der_octet_string fvalue; Ok (error_code, crealm, realm, sname, e_text, Some v)
  else Ok acc.

Definition parse_krb_error (data : bytes) : result Error KrbError :=
  inner ← expect_tlv 0x7e "Kerberos: expected APPLICATION [30] (0x7e) for KRB-ERROR, got 0x{tag:02x}" data;
  seq_data ← expect_tlv TAG_SEQUENCE "Kerberos: expected SEQUENCE in KRB-ERROR, got 0x{seq_tag:02x}" inner;
  fields ← parse_sequence_fields seq_data;
  '(error_code, crealm, realm, sname, e_text, e_data) ←
     each_field krb_error_field fields (None, None, None, None, None, None);
  error_code ← ok_or_data error_code "Kerberos: missing error-code in KRB-ERROR";
  realm ← ok_or_data realm "Kerberos: missing realm in KRB-ERROR";
  sname ← ok_or_data sname "Kerberos: missing sname in KRB-ERROR";
  Ok (mkKrbError error_code crealm realm sname e_text e_data).

(** The OID, what follows it, and the length of the whole token. *)
Definition parse_gss_api_wrapper (data : bytes) : result Error (bytes * bytes * Z) :=
  '(tag, inner, total) ← parse_der_tlv data;
  if negb (tag =? 0x60)
  then Err (invalid_data "Kerberos: expected GSS-API wrapper (0x60), got 0x{tag:02x}") else
  '(_, oid, oid_consumed) ← parse_der_tlv inner;
  rest ← slice inner oid_consumed (len inner);
  Ok (oid, rest, total).

Definition ap_rep_field (ftag : Z) (fvalue : bytes) (acc : option EncryptedData) : result Error (option EncryptedData) :=
  if ftag =? 0xa2 then v ← parse_encrypted_data fvalue; Ok (Some v) else Ok acc.

Definition parse_ap_rep (data : bytes) : result Error ApRep :=
  '(tag, inner, _) ← parse_der_tlv data;
  inner ←
    (if tag =? 0x60 then
       '(_, _, oid_consumed) ← parse_der_tlv inner;
       ap_rep_data ← slice inner oid_consumed (len inner);
       expect_tlv 0x6f "Kerberos: expected AP-REP (0x6f) inside GSS wrapper, got 0x{ap_tag:02x}" ap_rep_data
     else if tag =? 0x6f then Ok inner
     else Err (invalid_data "Kerberos: expected APPLICATION [15] (0x6f) or GSS wrapper (0x60) for AP-REP, got 0x{tag:02x}"));
  seq_data ← expect_tlv TAG_SEQUENCE "Kerberos: expected SEQUENCE in AP-REP, got 0x{seq_tag:02x}" inner;
  fields ← parse_sequence_fields seq_data;
  enc_part ← each_field ap_rep_field fields None;
  enc_part ← ok_or_data enc_part "Kerberos: missing enc-part in AP-REP";
  Ok (mkApRep enc_part).

Definition enc_ap_rep_field (ftag : Z) (fvalue : bytes) (acc : option EncryptionKey * option Z) :
    result Error (option EncryptionKey * option Z) :=
  let '(subkey, seq_number) := acc in
  if ftag =? 0xa2 then v ← parse_encryption_key fvalue; Ok (Some v, seq_number)
  else if ftag =? 0xa3 then v ← parse_der_integer_u32 fvalue; Ok (subkey, Some v)
  else Ok acc.

Definition parse_enc_ap_rep_part (data : bytes) : result Error EncApRepPart :=
  '(tag, inner, _) ← parse_der_tlv data;
  seq_data ←
    (if tag =? 0x7b
     then expect_tlv TAG_SEQUENCE "Kerberos: expected SEQUENCE in EncAPRepPart, got 0x{seq_tag:02x}" inner
     else if tag =? TAG_SEQUENCE then Ok inner
     else Err (invalid_data "Kerberos: expected APPLICATION [27] or SEQUENCE for EncAPRepPart, got 0x{tag:02x}"));
  fields ← parse_sequence_fields seq_data;
  '(subkey, seq_number) ← each_field enc_ap_rep_field fields (None, None);
  Ok (mkEncApRepPart subkey seq_number).
