(* ===== verification/KrbWire.v ===== *)
(** * Kerberos messages on the wire: safety and round trips

    Every parser of [KrbMessages] is safe on arbitrary bytes, and reads back what it or a
    peer that follows RFC 4120 encodes. *)

From S2P Require Import Prelude Types Fields Pack Utf8 Spnego KrbCrypto KrbFold KrbMessages.

(** ** Safety *)

Create HintDb krb discriminated.

Lemma np_bind {A B} (m : result Error A) (k : A → result Error B) :
  m ≠ Panic → (∀ a, k a ≠ Panic) → m ≫= k ≠ Panic.
Proof. intros Hm Hk. destruct m; [apply Hk|done|done]. Qed.
Lemma np_tlv d : parse_der_tlv d ≠ Panic.
Proof. pose proof (parse_der_tlv_spec d). by destruct (parse_der_tlv d) as [[[??]?]|?|]. Qed.
Lemma np_if {A} (b : bool) (x y : result Error A) : x ≠ Panic → y ≠ Panic → (if b then x else y) ≠ Panic.
Proof. by destruct b. Qed.
Lemma np_ok {A} (a : A) : @Ok Error A a ≠ Panic.
Proof. done. Qed.
Lemma np_err {A} (e : Error) : @Err Error A e ≠ Panic.
Proof. done. Qed.
Lemma np_ok_or_data {A} (o : option A) msg : ok_or_data o msg ≠ Panic.
Proof. by destruct o. Qed.
Lemma np_utf8 msg bs : utf8_or msg bs ≠ Panic.
Proof. unfold utf8_or. by destruct (from_utf8 bs). Qed.
Lemma np_integer_value d : parse_integer_value d ≠ Panic.
Proof. by destruct d. Qed.
#[export] Hint Resolve np_tlv np_ok np_err np_ok_or_data np_utf8 np_integer_value : krb.

(** Walks a parser: binds, tests and the pairs it takes apart. *)
Ltac np :=
  repeat first
    [ solve [auto with krb]
    | apply np_if
    | apply np_bind; [|let a := fresh "a" in intros a; repeat match goal with p : (_ * _)%type |- _ => destruct p end]
    | match goal with |- (match ?x with _ => _ end) ≠ Panic => destruct x end ].

Lemma np_expect t msg d : expect_tlv t msg d ≠ Panic.
Proof. unfold expect_tlv. np. Qed.
#[export] Hint Resolve np_expect : krb.

Lemma sequence_loop_safe fuel d pos acc :
  0 <= pos → Z.max 0 (len d - pos) < Z.of_nat fuel → sequence_loop fuel d pos acc ≠ Panic.
Proof.
  revert pos acc. induction fuel as [|fuel IH]; intros pos acc Hp Hf; [lia|]. cbn [sequence_loop].
  destruct (pos <? len d) eqn:E; cbn [negb]; [|done]. bool_prop. rewrite slice_ok by lia. cbn [mbind result_bind].
  tlv t v n. rewrite len_subslice in Htlv by lia. apply IH; lia.
Qed.
Lemma np_sequence d : parse_sequence_fields d ≠ Panic.
Proof. apply sequence_loop_safe; unfold len; lia. Qed.

Lemma names_loop_safe fuel d pos acc :
  0 <= pos → Z.max 0 (len d - pos) < Z.of_nat fuel → names_loop fuel d pos acc ≠ Panic.
Proof.
  revert pos acc. induction fuel as [|fuel IH]; intros pos acc Hp Hf; [lia|]. cbn [names_loop].
  destruct (pos <? len d) eqn:E; cbn [negb]; [|done]. bool_prop. rewrite slice_ok by lia. cbn [mbind result_bind].
  tlv t v n. rewrite len_subslice in Htlv by lia. unfold utf8_or. destruct (from_utf8 v); [|done]. cbn [mbind result_bind].
  apply IH; lia.
Qed.
Lemma np_names d acc : names_loop (S (length d)) d 0 acc ≠ Panic.
Proof. apply names_loop_safe; unfold len; lia. Qed.
#[export] Hint Resolve np_sequence np_names : krb.

Lemma np_each {A} (field : Z → bytes → A → result Error A) l acc :
  (∀ t v a, field t v a ≠ Panic) → each_field field l acc ≠ Panic.
Proof.
  intros Hf. unfold each_field. assert (∀ r, r ≠ Panic → fold_left (λ r p, acc ← r; field p.1 p.2 acc) l r ≠ Panic) as Hr.
  { induction l as [|[t v] l IH]; intros r Hr; [done|]. cbn [fold_left]. apply IH. by apply np_bind. }
  by apply Hr.
Qed.

Lemma np_integer d : parse_der_integer d ≠ Panic.
Proof. unfold parse_der_integer. np. Qed.
Lemma np_octets d : parse_der_octet_string d ≠ Panic.
Proof. apply np_expect. Qed.
Lemma np_general d : parse_der_general_string d ≠ Panic.
Proof. unfold parse_der_general_string. np. Qed.
Lemma np_time d : parse_der_generalized_time d ≠ Panic.
Proof. unfold parse_der_generalized_time. np. Qed.
Lemma np_bits d : parse_der_bit_string d ≠ Panic.
Proof. unfold parse_der_bit_string. np. Qed.
#[export] Hint Resolve np_integer np_octets np_general np_time np_bits : krb.
Lemma np_u32 d : parse_der_integer_u32 d ≠ Panic.
Proof. unfold parse_der_integer_u32. np. Qed.
#[export] Hint Resolve np_u32 : krb.

(** A parser made of a field function. *)
Ltac np_fields f := np; try (apply np_each; intros ? ? ?; unfold f; np).

Lemma np_principal d : parse_principal_name d ≠ Panic.
Proof. unfold parse_principal_name. np_fields principal_field. Qed.
Lemma np_encrypted d : parse_encrypted_data d ≠ Panic.
Proof. unfold parse_encrypted_data. np_fields encrypted_field. Qed.
Lemma np_key d : parse_encryption_key d ≠ Panic.
Proof. unfold parse_encryption_key. np_fields key_field. Qed.
#[export] Hint Resolve np_principal np_encrypted np_key : krb.
Lemma np_ticket d : parse_ticket d ≠ Panic.
Proof.
  unfold parse_ticket. tlv t v n. apply np_if; [done|]. rewrite slice_ok by lia. cbn [mbind result_bind].
  np_fields ticket_field.
Qed.
#[export] Hint Resolve np_ticket : krb.
Lemma np_kdc_rep d : parse_kdc_rep d ≠ Panic.
Proof. unfold parse_kdc_rep. np_fields kdc_rep_field. Qed.
Lemma np_enc_part d : parse_enc_kdc_rep_part d ≠ Panic.
Proof. unfold parse_enc_kdc_rep_part. np_fields enc_part_field. Qed.
Lemma np_krb_error d : parse_krb_error d ≠ Panic.
Proof. unfold parse_krb_error. np_fields krb_error_field. Qed.
Lemma np_gss d : parse_gss_api_wrapper d ≠ Panic.
Proof.
  unfold parse_gss_api_wrapper. tlv t v n. apply np_if; [done|]. tlv t' v' n'. by rewrite slice_ok by lia.
Qed.
Lemma np_ap_rep d : parse_ap_rep d ≠ Panic.
Proof.
  unfold parse_ap_rep. tlv t v n. apply np_bind.
  - apply np_if; [|np]. tlv t' v' n'. rewrite slice_ok by lia. apply np_expect.
  - intros inner. np_fields ap_rep_field.
Qed.
Lemma np_enc_ap_rep d : parse_enc_ap_rep_part d ≠ Panic.
Proof. unfold parse_enc_ap_rep_part. np_fields enc_ap_rep_field. Qed.
#[export] Hint Resolve np_kdc_rep np_enc_part np_krb_error np_gss np_ap_rep np_enc_ap_rep : krb.

(** ** Integers *)

(** The signed value of a big-endian integer. *)
Definition sign_of (bs : bytes) : Z := match bs with b :: _ => if high_bit b then -1 else 0 | [] => 0 end.
Definition signed_be (bs : bytes) : Z := sign_of bs * 256 ^ len bs + of_be bs.

Lemma of_be_cons b bs : of_be (b :: bs) = u8_of_byte b * 256 ^ len bs + of_be bs.
Proof.
  rewrite !of_be_val. cbn [map]. rewrite be_val_cons. unfold len at 1. by rewrite length_map.
Qed.
Lemma of_be_bound bs : 0 <= of_be bs < 256 ^ len bs.
Proof. rewrite of_be_val. pose proof (be_val_bound _ (u8_digits bs)) as Hb. unfold len in Hb at 1. by rewrite length_map in Hb. Qed.

Lemma high_bit_spec b : high_bit b = (128 <=? u8_of_byte b).
Proof. by destruct b. Qed.

Lemma to_signed_range w z : 0 < w → - 2 ^ (w - 1) <= to_signed w z < 2 ^ (w - 1).
Proof.
  intros Hw. unfold to_signed. cbv zeta. assert (2 ^ w = 2 * 2 ^ (w - 1)) as E by (rewrite <- Z.pow_succ_r by lia; f_equal; lia).
  pose proof (Z.mod_pos_bound z (2 ^ w)). pose proof (Z.pow_pos_nonneg 2 (w - 1)). destruct (Z.ltb_spec (z mod 2 ^ w) (2 ^ (w - 1))); lia.
Qed.
Lemma to_signed_small w z : 0 < w → - 2 ^ (w - 1) <= z < 2 ^ (w - 1) → to_signed w z = z.
Proof.
  intros Hw Hz. unfold to_signed. cbv zeta. assert (2 ^ w = 2 * 2 ^ (w - 1)) as E by (rewrite <- Z.pow_succ_r by lia; f_equal; lia).
  destruct (Z.lt_ge_cases z 0).
  - assert (z mod 2 ^ w = z + 2 ^ w) as -> by (symmetry; apply (Z.mod_unique _ _ (-1)); lia).
    destruct (Z.ltb_spec (z + 2 ^ w) (2 ^ (w - 1))); lia.
  - rewrite Z.mod_small by lia. destruct (Z.ltb_spec z (2 ^ (w - 1))); lia.
Qed.

(** Accumulating at most seven bytes does not wrap. *)
Lemma fold_signed bs s :
  - 2 ^ 63 <= s * 256 ^ len bs → s * 256 ^ len bs + 256 ^ len bs <= 2 ^ 63 →
  foldl (λ val b, to_signed 64 (Z.lor (Z.shiftl val 8) (u8_of_byte b))) s bs = s * 256 ^ len bs + of_be bs.
Proof.
  revert s. induction bs as [|b bs IH]; intros s H1 H2; [change (of_be []) with 0; rewrite len_nil, Z.pow_0_r; cbn [foldl]; lia|]. cbn [foldl]. rewrite len_cons in *.
  rewrite Z.pow_add_r in * by (try apply len_nonneg; lia). change (256 ^ 1) with 256 in *.
  pose proof (u8_of_byte_range b) as Hb. unfold in_range in Hb. pose proof (pow256_pos (len bs) (len_nonneg bs)).
  rewrite Z.shiftl_mul_pow2 by lia. change (2 ^ 8) with 256. rewrite Z.lor_comm, lor_bytes by lia.
  rewrite to_signed_small; [|lia|change (64 - 1) with 63; nia].
  rewrite IH by nia. rewrite of_be_cons. ring.
Qed.

Lemma parse_integer_spec bs :
  bs ≠ [] → len bs <= 7 → parse_integer_value bs = Ok (to_signed 32 (signed_be bs)).
Proof.
  intros Hne Hl. unfold parse_integer_value, signed_be. destruct bs as [|b bs]; [done|].
  change (if high_bit b then -1 else 0) with (sign_of (b :: bs)). cbv zeta. rewrite fold_signed; [done|..].
  all: assert (256 ^ len (b :: bs) <= 256 ^ 7) by (apply Z.pow_le_mono_r; lia).
  all: assert (-1 <= sign_of (b :: bs) <= 0) by (cbn [sign_of]; destruct (high_bit b); lia).
  all: pose proof (pow256_pos (len (b :: bs)) (len_nonneg _)); change (256 ^ 7) with (2 ^ 56) in *.
  - nia.
  - assert (2 ^ 56 <= 2 ^ 63) by (apply Z.pow_le_mono_r; lia). nia.
Qed.

(** Bytes that repeat the sign do not change the value. *)
Lemma skip_sign_spec pad bs :
  pad = x00 ∨ pad = xff → bs ≠ [] →
  skip_sign pad bs ≠ [] ∧ len (skip_sign pad bs) <= len bs ∧ signed_be (skip_sign pad bs) = signed_be bs.
Proof.
  intros Hp. induction bs as [|b bs IH]; [done|]. intros _. destruct bs as [|c bs]; [cbn [skip_sign]; split_and!; [done|lia|done]|].
  change (skip_sign pad (b :: c :: bs)) with
    (if bool_decide (b = pad) && Bool.eqb (high_bit c) (high_bit pad) then skip_sign pad (c :: bs) else b :: c :: bs).
  destruct (bool_decide_reflect (b = pad)) as [->|]; cbn [andb]; [|split_and!; [done|lia|done]].
  destruct (Bool.eqb (high_bit c) (high_bit pad)) eqn:E; [|split_and!; [done|lia|done]].
  apply Bool.eqb_prop in E. destruct IH as (Hne & Hl & Hv); [done|]. split; [done|].
  split; [rewrite (len_cons pad); lia|]. rewrite Hv. unfold signed_be. rewrite (of_be_cons pad), (len_cons pad).
  rewrite Z.pow_add_r by (try apply len_nonneg; lia). cbn [sign_of]. rewrite E. change (256 ^ 1) with 256.
  destruct Hp as [-> | ->]; [change (high_bit x00) with false; change (u8_of_byte x00) with 0
                            |change (high_bit xff) with true; change (u8_of_byte xff) with 255]; cbv iota; lia.
Qed.

(** Two's complement, most significant byte first. *)
Lemma signed_to_be (n : nat) v :
  (0 < n)%nat → - 2 ^ (8 * Z.of_nat n - 1) <= v < 2 ^ (8 * Z.of_nat n - 1) → signed_be (to_be n v) = v.
Proof.
  intros Hn Hv. set (m := 2 ^ (8 * Z.of_nat n)). assert (m = 2 * 2 ^ (8 * Z.of_nat n - 1)) as Em.
  { unfold m. rewrite <- Z.pow_succ_r by lia. f_equal. lia. }
  assert (256 ^ Z.of_nat n = m) as E256 by (unfold m; by rewrite Z.pow_mul_r by lia).
  assert (of_be (to_be n v) = v mod m) as Eo.
  { unfold of_be, to_be. rewrite rev_involutive, of_le_to_le. by rewrite E256. }
  unfold signed_be. rewrite len_to_be, E256, Eo. pose proof (Z.mod_pos_bound v m ltac:(lia)).
  assert (sign_of (to_be n v) = if v mod m <? 2 ^ (8 * Z.of_nat n - 1) then 0 else -1) as ->.
  { destruct (to_be n v) as [|b bs] eqn:Eb; [apply (f_equal length) in Eb; unfold to_be in Eb; rewrite length_rev, length_to_le in Eb; cbn in Eb; lia|].
    cbn [sign_of]. rewrite high_bit_spec. rewrite of_be_cons in Eo. pose proof (of_be_bound bs) as Hb.
    assert (Z.of_nat n = 1 + len bs) as Hlen by (rewrite <- (len_cons b), <- Eb; by rewrite len_to_be).
    assert (2 ^ (8 * Z.of_nat n - 1) = 128 * 256 ^ len bs) as E128.
    { change 256 with (2 ^ 8). rewrite <- Z.pow_mul_r by (try apply len_nonneg; lia). change 128 with (2 ^ 7).
      rewrite <- Z.pow_add_r by (pose proof (len_nonneg bs); lia). f_equal. lia. }
    destruct (Z.ltb_spec (v mod m) (2 ^ (8 * Z.of_nat n - 1))); destruct (Z.leb_spec 128 (u8_of_byte b)); try done; nia. }
  destruct (Z.lt_ge_cases v 0).
  - assert (v mod m = v + m) as -> by (symmetry; apply (Z.mod_unique _ _ (-1)); lia).
    destruct (Z.ltb_spec (v + m) (2 ^ (8 * Z.of_nat n - 1))); lia.
  - rewrite Z.mod_small by lia. destruct (Z.ltb_spec v (2 ^ (8 * Z.of_nat n - 1))); lia.
Qed.

(** ** Sizes

    Lengths of 65536 and more are not encoded; everything inside a token that is shorter
    is shorter too. *)

Definition small (bs : bytes) : Prop := len bs < 65536.

Lemma small_tlv t d : small (der_tlv t d) → small d.
Proof. unfold small. rewrite len_der_tlv. pose proof (len_der_length (len d)). lia. Qed.
Lemma small_sequence items : small (der_sequence items) → Forall small items.
Proof.
  intros Hs%small_tlv. revert Hs. unfold small. induction items as [|i items IH]; intros Hs; constructor; cbn [concat] in Hs; rewrite len_app in Hs;
    pose proof (len_nonneg i); pose proof (len_nonneg (concat items)); [lia|apply IH; lia].
Qed.

Lemma expect_back t msg d : is_u8 t → small d → expect_tlv t msg (der_tlv t d) = Ok d.
Proof. intros Ht Hd. unfold expect_tlv. rewrite parse_der_tlv_whole by done. cbn [mbind result_bind]. by rewrite Z.eqb_refl. Qed.

(** The fields of a sequence of TLVs. *)
Lemma sequence_back_at (l : list (Z * bytes)) pre acc fuel :
  Forall (λ p, is_u8 p.1 ∧ small p.2) l → (length l < fuel)%nat →
  sequence_loop fuel (pre ++ concat (map (λ p, der_tlv p.1 p.2) l)) (len pre) acc = Ok (acc ++ l).
Proof.
  intros Hl. revert pre acc fuel. induction Hl as [|[t d] l [Ht Hd] Hl IH]; intros pre acc [|fuel] Hf;
    cbn [length] in Hf; [lia| |lia|]; cbn [sequence_loop map concat fst snd].
  - by rewrite !app_nil_r, Z.ltb_irrefl.
  - set (rest := concat _). pose proof (len_der_tlv t d). pose proof (len_nonneg d). pose proof (len_der_length (len d)).
    pose proof (len_nonneg rest). pose proof (len_nonneg pre).
    assert (len (pre ++ der_tlv t d ++ rest) = len pre + len (der_tlv t d ++ rest)) as Hlen by apply len_app.
    assert (len (der_tlv t d ++ rest) = len (der_tlv t d) + len rest) as Hlen' by apply len_app.
    rewrite (proj2 (Z.ltb_lt _ _)) by lia. cbn [negb]. rewrite slice_ok by lia. cbn [mbind result_bind].
    rewrite subslice_suffix by done. rewrite parse_der_tlv_back by done. cbn [mbind result_bind].
    rewrite app_assoc, <- len_app, IH by lia. by rewrite <- app_assoc.
Qed.
Lemma sequence_back (l : list (Z * bytes)) :
  Forall (λ p, is_u8 p.1 ∧ small p.2) l → parse_sequence_fields (concat (map (λ p, der_tlv p.1 p.2) l)) = Ok l.
Proof.
  intros Hl. apply (sequence_back_at l [] []); [done|]. clear. induction l as [|[t x] l IH]; [cbn; lia|].
  cbn [map concat length fst snd]. rewrite length_app.
  pose proof (len_der_tlv t x). pose proof (len_der_length (len x)). pose proof (len_nonneg x). unfold len in *. lia.
Qed.

(** A SEQUENCE of context fields, read by a field function. *)
Definition contexts (l : list (Z * bytes)) : list bytes := map (λ p, der_context p.1 p.2) l.
Definition context_tag (k : Z) : Z := Z.lor 0xa0 k.

(** The tag of a context field: one byte, from which its number reads back. *)
Lemma context_tag_spec k :
  0 <= k < 32 → is_u8 (context_tag k) ∧ Z.land (context_tag k) 0xe0 = 0xa0 ∧ Z.land (context_tag k) 0x1f = k.
Proof.
  intros Hk. set (ok k := (0 <=? context_tag k) && (context_tag k <? 256) && (Z.land (context_tag k) 0xe0 =? 0xa0) &&
    (Z.land (context_tag k) 0x1f =? k)).
  assert (forallb (λ n, ok (Z.of_nat n)) (seq 0 32) = true) as Ho by (vm_compute; reflexivity). rewrite forallb_forall in Ho.
  specialize (Ho (Z.to_nat k) ltac:(apply in_seq; lia)). rewrite Z2Nat.id in Ho by lia. unfold ok in Ho. bool_prop. unfold in_range. lia.
Qed.

Lemma fields_back {A} (field : Z → bytes → A → result Error A) (l : list (Z * bytes)) msg acc :
  Forall (λ p, 0 <= p.1 < 32) l → small (der_sequence (contexts l)) →
  (seq_data ← expect_tlv TAG_SEQUENCE msg (der_sequence (contexts l));
   fields ← parse_sequence_fields seq_data; each_field field fields acc)
  = fold_left (λ r p, acc ← r; field (context_tag p.1) p.2 acc) l (Ok acc).
Proof.
  intros Hl Hs. unfold der_sequence. rewrite expect_back by (done || by apply small_tlv in Hs). cbn [mbind result_bind].
  assert (contexts l = map (λ p, der_tlv p.1 p.2) (map (λ p, (context_tag p.1, p.2)) l)) as E
    by (unfold contexts, context_tag, der_context; by rewrite map_map).
  rewrite E. rewrite sequence_back.
  - cbn [mbind result_bind]. unfold each_field. generalize (@Ok Error A acc).
    clear. induction l as [|p l IH]; intros r; [done|]. cbn [map fold_left fst snd]. apply IH.
  - apply small_sequence in Hs. unfold contexts in Hs. clear E. induction l as [|[k d] l IH]; [constructor|].
    apply Forall_cons in Hl as [Hk Hl]. cbn [map] in Hs. apply Forall_cons in Hs as [Hd Hs]. constructor; [|by apply IH].
    cbn [fst snd]. split; [by apply context_tag_spec|by apply small_tlv in Hd].
Qed.

(** ** Values *)

Definition integer_body (v : Z) : bytes := if 0 <=? v then skip_sign x00 (to_be 4 v) else skip_sign xff (to_be 4 v).
Lemma integer_body_spec v :
  - 2 ^ 31 <= v < 2 ^ 31 → integer_body v ≠ [] ∧ len (integer_body v) <= 4 ∧ signed_be (integer_body v) = v.
Proof.
  intros Hv. assert (to_be 4 v ≠ []) as Hne by (intros E%(f_equal len); rewrite len_to_be in E; discriminate E).
  assert (∀ pad, pad = x00 ∨ pad = xff → skip_sign pad (to_be 4 v) ≠ [] ∧ len (skip_sign pad (to_be 4 v)) <= 4 ∧
    signed_be (skip_sign pad (to_be 4 v)) = v) as Hpad.
  { intros pad Hp. destruct (skip_sign_spec pad (to_be 4 v) Hp Hne) as (H1 & H2 & H3). rewrite len_to_be in H2.
    split; [done|]. split; [lia|]. rewrite H3. by apply signed_to_be; [lia|]. }
  unfold integer_body. destruct (0 <=? v); apply Hpad; auto.
Qed.

Lemma integer_back v : - 2 ^ 31 <= v < 2 ^ 31 → parse_der_integer (der_integer v) = Ok v.
Proof.
  intros Hv. unfold parse_der_integer, der_integer. cbv zeta. fold (integer_body v).
  destruct (integer_body_spec v Hv) as (Hb & Hl & Hs).
  rewrite expect_back by (done || (unfold small; lia)). cbn [mbind result_bind].
  rewrite parse_integer_spec by (done || lia). rewrite Hs, to_signed_small by lia. done.
Qed.

Lemma to_be_wide v : is_u32 v → to_be 8 v = [x00; x00; x00] ++ to_be 5 v.
Proof.
  unfold in_range. intros Hv. unfold to_be. cbn [to_le rev]. rewrite <- !app_assoc. cbn [app].
  assert (v / 256 / 256 / 256 / 256 = 0) as -> by (rewrite !Z.div_div by lia; apply Z.div_small; lia). done.
Qed.

Lemma integer_u32_back v : is_u32 v → parse_der_integer_u32 (der_integer_u32 v) = Ok v.
Proof.
  intros Hv. unfold parse_der_integer_u32, parse_der_integer, der_integer_u32.
  assert (skip_sign x00 (to_be 8 v) = skip_sign x00 (to_be 5 v)) as ->.
  { rewrite to_be_wide by done. unfold to_be. cbn [to_le rev]. rewrite <- !app_assoc. cbn [app].
    assert (v / 256 / 256 / 256 / 256 = 0) as -> by (unfold in_range in Hv; rewrite !Z.div_div by lia; apply Z.div_small; lia).
    done. }
  assert (to_be 5 v ≠ []) as Hne by (intros E%(f_equal len); rewrite len_to_be in E; discriminate E).
  destruct (skip_sign_spec x00 (to_be 5 v)) as (Hb & Hl & Hs); [by left|done|]. rewrite len_to_be in Hl.
  rewrite signed_to_be in Hs by (unfold in_range in Hv; lia).
  rewrite expect_back by (done || (unfold small; lia)). cbn [mbind result_bind].
  rewrite parse_integer_spec, Hs by (done || lia). cbn [mbind result_bind]. f_equal. unfold in_range in Hv. unfold to_signed. cbv zeta.
  rewrite (Z.mod_small v) by lia. destruct (v <? 2 ^ (32 - 1)); [by apply Z.mod_small|].
  replace (v - 2 ^ 32) with (v + -1 * 2 ^ 32) by ring. rewrite Z_mod_plus_full. by apply Z.mod_small.
Qed.

Lemma octets_back d : small d → parse_der_octet_string (der_octet_string d) = Ok d.
Proof. by apply expect_back. Qed.
Lemma utf8_back msg s : str_wf s → utf8_or msg (utf8_bytes s) = Ok s.
Proof. intros Hs. unfold utf8_or. by rewrite from_utf8_back. Qed.
Lemma general_back s : str_wf s → small (der_general_string s) → parse_der_general_string (der_general_string s) = Ok s.
Proof.
  intros Hs Hd%small_tlv. unfold parse_der_general_string, der_general_string. rewrite expect_back by done. by apply utf8_back.
Qed.
Lemma time_back s : str_wf s → small (der_generalized_time s) → parse_der_generalized_time (der_generalized_time s) = Ok s.
Proof.
  intros Hs Hd%small_tlv. unfold parse_der_generalized_time, der_generalized_time. rewrite expect_back by done. by apply utf8_back.
Qed.
Lemma bits_back bits : small (der_bit_string bits 0) → parse_der_bit_string (der_bit_string bits 0) = Ok (bits, 0).
Proof. intros Hd%small_tlv. unfold parse_der_bit_string, der_bit_string. by rewrite expect_back. Qed.

(** ** Principals and encrypted data *)

Definition PrincipalName_wf (n : PrincipalName) : Prop :=
  - 2 ^ 31 <= name_type n < 2 ^ 31 ∧ Forall str_wf (name_string n).

Lemma names_back names pre acc fuel :
  Forall str_wf names → Forall small (map der_general_string names) → (length names < fuel)%nat →
  names_loop fuel (pre ++ concat (map der_general_string names)) (len pre) acc = Ok (acc ++ names).
Proof.
  intros Hl. revert pre acc fuel. induction Hl as [|s names Hs Hl IH]; intros pre acc [|fuel] Hsm Hf;
    cbn [length] in Hf; [lia| |lia|]; cbn [names_loop map concat].
  - by rewrite !app_nil_r, Z.ltb_irrefl.
  - cbn [map] in Hsm. apply Forall_cons in Hsm as [Hd Hsm]. set (rest := concat _). change (der_general_string s) with (der_tlv TAG_GENERAL_STRING (utf8_bytes s)) in *.
    set (d := utf8_bytes s). pose proof (len_der_tlv TAG_GENERAL_STRING d). pose proof (len_nonneg d).
    pose proof (len_der_length (len d)). pose proof (len_nonneg rest). pose proof (len_nonneg pre).
    assert (len (pre ++ der_tlv TAG_GENERAL_STRING d ++ rest) = len pre + len (der_tlv TAG_GENERAL_STRING d ++ rest)) as Hlen by apply len_app.
    assert (len (der_tlv TAG_GENERAL_STRING d ++ rest) = len (der_tlv TAG_GENERAL_STRING d) + len rest) as Hlen' by apply len_app.
    rewrite (proj2 (Z.ltb_lt _ _)) by lia. cbn [negb]. rewrite slice_ok by lia. cbn [mbind result_bind].
    rewrite subslice_suffix by done. apply small_tlv in Hd. rewrite parse_der_tlv_back by done. cbn [mbind result_bind].
    unfold d. rewrite utf8_back by done. cbn [mbind result_bind].
    rewrite app_assoc, <- len_app, IH by (done || lia). by rewrite <- app_assoc.
Qed.

Lemma names_all names :
  Forall str_wf names → small (der_sequence (map der_general_string names)) →
  names_loop (S (length (concat (map der_general_string names)))) (concat (map der_general_string names)) 0 [] = Ok names.
Proof.
  intros Hn Hs%small_sequence. apply (names_back names [] []); [done|done|]. clear. induction names as [|s names IH]; [cbn; lia|].
  cbn [map concat length]. rewrite length_app. pose proof (len_der_tlv TAG_GENERAL_STRING (utf8_bytes s)) as Hl.
  pose proof (len_der_length (len (utf8_bytes s))). pose proof (len_nonneg (utf8_bytes s)).
  change (der_tlv TAG_GENERAL_STRING (utf8_bytes s)) with (der_general_string s) in Hl. unfold len in *. lia.
Qed.

(** A record of context fields is read field by field. *)
Lemma record_back {A B} (field : Z → bytes → A → result Error A) (l : list (Z * bytes)) msg acc a (k : A → result Error B) :
  Forall (λ p, 0 <= p.1 < 32) l → small (der_sequence (contexts l)) →
  fold_left (λ r p, acc ← r; field (context_tag p.1) p.2 acc) l (Ok acc) = Ok a →
  (seq_data ← expect_tlv TAG_SEQUENCE msg (der_sequence (contexts l));
   fields ← parse_sequence_fields seq_data; x ← each_field field fields acc; k x) = k a.
Proof.
  intros Hl Hs Hf. pose proof (fields_back field l msg acc Hl Hs) as E. rewrite Hf in E. revert E.
  destruct (expect_tlv _ _ _) as [d|e|]; [|done|done]. rewrite !bind_ok.
  destruct (parse_sequence_fields d) as [fs|e|]; [|done|done]. rewrite !bind_ok. by intros ->.
Qed.

(** Optional fields. *)
Definition optional (k : Z) (o : option bytes) : list (Z * bytes) := match o with Some b => [(k, b)] | None => [] end.

Lemma Forall_optional (P : Z * bytes → Prop) k o l : (∀ b, P (k, b)) → Forall P l → Forall P (optional k o ++ l).
Proof. intros Hk Hl. destruct o; [by constructor|done]. Qed.

(** A field the parser does not know changes nothing. *)
Lemma skip_optional {A} (field : Z → bytes → A → result Error A) k o l acc :
  (∀ v a, field (context_tag k) v a = Ok a) →
  fold_left (λ r p, acc ← r; field (context_tag p.1) p.2 acc) (optional k o ++ l) (Ok acc)
  = fold_left (λ r p, acc ← r; field (context_tag p.1) p.2 acc) l (Ok acc).
Proof. intros Hk. destruct o as [b|]; [|done]. cbn [optional app fold_left fst snd]. by rewrite bind_ok, Hk. Qed.

(** The parts of a small record are small. *)
Ltac small_parts H :=
  let H' := fresh "Hparts" in
  pose proof H as H'; apply small_sequence in H'; unfold contexts in H'; cbn [map fst snd app] in H';
  repeat match type of H' with
  | Forall small (_ :: _) => let H1 := fresh "Hsm" in apply Forall_cons in H' as [H1%small_tlv H']
  | Forall small (map _ (optional _ _ ++ _)) => rewrite map_app in H'; apply Forall_app in H' as [_ H']; cbn [map fst snd app] in H'
  end; clear H'.

Ltac unknown_field :=
  intros; repeat match goal with
  | a : ?T |- _ => lazymatch eval hnf in T with (_ * _)%type => destruct a end
  end; reflexivity.
Ltac known_tags :=
  repeat match goal with
  | |- context [context_tag ?k] => let v := eval vm_compute in (context_tag k) in change (context_tag k) with v
  end.

Ltac tags_fit := repeat first [apply Forall_nil_2 | apply Forall_cons_2 | apply Forall_optional; [intros b|]]; cbn [fst]; lia.

(** One field after the other. *)
Ltac read_fields f :=
  cbn [fold_left fst snd app]; known_tags;
  repeat (repeat (rewrite bind_ok; cbn [f Z.eqb Pos.eqb]; autorewrite with krb_back);
    rewrite skip_optional by unknown_field; cbn [fold_left fst snd app]; known_tags);
  repeat (rewrite bind_ok; cbn [f Z.eqb Pos.eqb]; autorewrite with krb_back); try done.
Create Rewrite HintDb krb_back.
#[export] Hint Rewrite integer_back octets_back general_back time_back bits_back integer_u32_back using done : krb_back.

Lemma principal_back n :
  PrincipalName_wf n → small (encode_principal_name n) → parse_principal_name (encode_principal_name n) = Ok n.
Proof.
  intros [Ht Hn] Hs. unfold parse_principal_name.
  set (l := [(0, der_integer (name_type n)); (1, der_sequence (map der_general_string (name_string n)))]).
  change (encode_principal_name n) with (der_sequence (contexts l)) in *. unfold l in Hs. small_parts Hs.
  rewrite (record_back principal_field l _ _ (Some (name_type n), name_string n)); [by destruct n|by repeat constructor|done|].
  unfold l. read_fields principal_field. apply small_tlv in Hsm0 as Hsm1. unfold der_sequence.
  rewrite expect_back by done. rewrite bind_ok, names_all by done. done.
Qed.
#[export] Hint Rewrite principal_back using done : krb_back.

Definition EncryptedData_wf (ed : EncryptedData) : Prop :=
  - 2 ^ 31 <= ed_etype ed < 2 ^ 31 ∧ (∀ k, ed_kvno ed = Some k → - 2 ^ 31 <= k < 2 ^ 31).

Lemma encrypted_back ed :
  EncryptedData_wf ed → small (encode_encrypted_data ed) → parse_encrypted_data (encode_encrypted_data ed) = Ok ed.
Proof.
  intros [Ht Hk] Hs. unfold parse_encrypted_data.
  set (l := [(0, der_integer (ed_etype ed))] ++ (match ed_kvno ed with Some k => [(1, der_integer k)] | None => [] end)
            ++ [(2, der_octet_string (ed_cipher ed))]).
  assert (encode_encrypted_data ed = der_sequence (contexts l)) as E by (unfold encode_encrypted_data, l; by destruct (ed_kvno ed)).
  rewrite E in *. unfold l in *. destruct ed as [et [k|] c]; cbn [ed_kvno ed_etype ed_cipher app] in *; small_parts Hs.
  - specialize (Hk k eq_refl). apply small_tlv in Hsm1.
    rewrite (record_back encrypted_field _ _ _ (Some et, Some k, Some c)); [done|by repeat constructor|done|].
    read_fields encrypted_field.
  - apply small_tlv in Hsm0. rewrite (record_back encrypted_field _ _ _ (Some et, None, Some c)); [done|by repeat constructor|done|].
    read_fields encrypted_field.
Qed.
#[export] Hint Rewrite encrypted_back using done : krb_back.

Lemma key_back t v :
  - 2 ^ 31 <= t < 2 ^ 31 → small (encode_typed t v) → parse_encryption_key (encode_typed t v) = Ok (mkEncryptionKey t v).
Proof.
  intros Ht Hs. unfold parse_encryption_key.
  change (encode_typed t v) with (der_sequence (contexts [(0, der_integer t); (1, der_octet_string v)])) in *. small_parts Hs.
  apply small_tlv in Hsm0. rewrite (record_back key_field _ _ _ (Some t, Some v)); [done|by repeat constructor|done|].
  read_fields key_field.
Qed.
#[export] Hint Rewrite key_back using done : krb_back.

Definition Ticket_wf (t : Ticket) : Prop :=
  - 2 ^ 31 <= tkt_vno t < 2 ^ 31 ∧ str_wf (tkt_realm t) ∧ PrincipalName_wf (tkt_sname t) ∧ EncryptedData_wf (tkt_enc_part t).

(** The ticket as it is kept: with the bytes it came in. *)
Definition received (t : Ticket) : Ticket :=
  mkTicket (tkt_vno t) (tkt_realm t) (tkt_sname t) (tkt_enc_part t) (Some (encode_ticket t)).

Lemma subslice_whole (bs : bytes) : subslice bs 0 (len bs) = bs.
Proof. rewrite <- (app_nil_r bs) at 1. by apply subslice_full_prefix. Qed.

Lemma ticket_back t : Ticket_wf t → small (encode_ticket t) → parse_ticket (encode_ticket t) = Ok (received t).
Proof.
  intros (Hv & Hr & Hn & He) Hs. unfold parse_ticket.
  set (l := [(0, der_integer (tkt_vno t)); (1, der_general_string (tkt_realm t)); (2, encode_principal_name (tkt_sname t));
             (3, encode_encrypted_data (tkt_enc_part t))]).
  assert (encode_ticket t = der_tlv 0x61 (der_sequence (contexts l))) as E by done.
  rewrite E in *. apply small_tlv in Hs. rewrite parse_der_tlv_whole by done. rewrite bind_ok. cbn [Z.eqb Pos.eqb negb].
  pose proof (len_nonneg (der_tlv 0x61 (der_sequence (contexts l)))). rewrite slice_ok by lia. rewrite bind_ok.
  rewrite subslice_whole. unfold l in Hs. small_parts Hs.
  rewrite (record_back ticket_field l _ _ (Some (tkt_vno t), Some (tkt_realm t), Some (tkt_sname t), Some (tkt_enc_part t)));
    [|by repeat constructor|done|unfold l; read_fields ticket_field].
  cbn [ok_or_data]. rewrite !bind_ok. unfold received. by rewrite E.
Qed.
#[export] Hint Rewrite ticket_back using done : krb_back.

(** ** What a KDC and a server send (RFC 4120, sections 5.4 to 5.9) *)

Definition kdc_rep_fields (padata : option bytes) (r : KdcRep) : list (Z * bytes) :=
  [(0, der_integer 5); (1, der_integer (kr_msg_type r))] ++ optional 2 padata ++
  [(3, der_general_string (kr_crealm r)); (4, encode_principal_name (kr_cname r)); (5, encode_ticket (kr_ticket r));
   (6, encode_encrypted_data (kr_enc_part r))].
Definition kdc_rep_bytes (padata : option bytes) (r : KdcRep) : bytes :=
  der_application (kr_msg_type r) (der_sequence (contexts (kdc_rep_fields padata r))).
Definition KdcRep_wf (r : KdcRep) : Prop :=
  (kr_msg_type r = 11 ∨ kr_msg_type r = 13) ∧ str_wf (kr_crealm r) ∧ PrincipalName_wf (kr_cname r) ∧
  Ticket_wf (kr_ticket r) ∧ EncryptedData_wf (kr_enc_part r).

Lemma kdc_rep_back padata r :
  KdcRep_wf r → small (kdc_rep_bytes padata r) →
  parse_kdc_rep (kdc_rep_bytes padata r)
  = Ok (mkKdcRep (kr_msg_type r) (kr_crealm r) (kr_cname r) (received (kr_ticket r)) (kr_enc_part r)).
Proof.
  intros (Hm & Hr & Hn & Ht & He) Hs. unfold parse_kdc_rep, kdc_rep_bytes, der_application in *.
  set (l := kdc_rep_fields padata r) in *. apply small_tlv in Hs as Hs'.
  assert (is_u8 (Z.lor 96 (kr_msg_type r))) as Hu by by destruct Hm as [-> | ->].
  rewrite parse_der_tlv_whole by done. rewrite bind_ok.
  assert ((if Z.lor 96 (kr_msg_type r) =? 0x6b then Ok 11 else if Z.lor 96 (kr_msg_type r) =? 0x6d then Ok 13
     else Err (invalid_data "Kerberos: expected APPLICATION [11] or [13] for KDC-REP, got 0x{tag:02x}")) = Ok (kr_msg_type r)) as ->
    by by destruct Hm as [-> | ->].
  rewrite bind_ok. assert (- 2 ^ 31 <= kr_msg_type r < 2 ^ 31) by (destruct Hm; lia).
  rewrite (record_back kdc_rep_field l _ _ (Some (kr_msg_type r), Some (kr_crealm r), Some (kr_cname r),
    Some (received (kr_ticket r)), Some (kr_enc_part r))).
  - cbn [ok_or_data]. rewrite !bind_ok. by rewrite Z.eqb_refl.
  - unfold l, kdc_rep_fields. by destruct padata; repeat constructor.
  - done.
  - unfold l, kdc_rep_fields in *. destruct padata as [pa|]; cbn [optional app] in *; small_parts Hs'; read_fields kdc_rep_field.
Qed.

Definition enc_part_fields (last_req : bytes) (expiration starttime renew caddr : option bytes) (p : EncKdcRepPart) :
    list (Z * bytes) :=
  [(0, encode_typed (keytype (ep_key p)) (keyvalue (ep_key p))); (1, last_req); (2, der_integer_u32 (ep_nonce p))] ++
  optional 3 expiration ++ [(4, der_bit_string (to_be 4 (ep_flags p)) 0); (5, der_generalized_time (ep_authtime p))] ++
  optional 6 starttime ++ [(7, der_generalized_time (ep_endtime p))] ++ optional 8 renew ++
  [(9, der_general_string (ep_srealm p)); (10, encode_principal_name (ep_sname p))] ++ optional 11 caddr.
(** In [APPLICATION 25], [APPLICATION 26] or bare. *)
Definition enc_part_bytes (wrapper : option Z) (fields : list (Z * bytes)) : bytes :=
  match wrapper with
  | Some k => der_application k (der_sequence (contexts fields))
  | None => der_sequence (contexts fields)
  end.
Definition EncKdcRepPart_wf (p : EncKdcRepPart) : Prop :=
  - 2 ^ 31 <= keytype (ep_key p) < 2 ^ 31 ∧ is_u32 (ep_nonce p) ∧ is_u32 (ep_flags p) ∧ str_wf (ep_authtime p) ∧
  str_wf (ep_endtime p) ∧ str_wf (ep_srealm p) ∧ PrincipalName_wf (ep_sname p).

Lemma flags_back f (o : option Z) :
  is_u32 f → (if 4 <=? len (to_be 4 f) then Some (of_be (take 4 (to_be 4 f))) else o) = Some f.
Proof.
  intros Hf. rewrite len_to_be. cbn [Z.of_nat Z.leb]. change (4 <=? 4) with true. cbv iota. f_equal.
  rewrite take_ge; [by apply of_be_to_be|]. unfold to_be. rewrite length_rev, length_to_le. lia.
Qed.
#[export] Hint Rewrite flags_back using done : krb_back.

Lemma enc_part_back wrapper last_req expiration starttime renew caddr p :
  EncKdcRepPart_wf p → wrapper ∈ [None; Some 25; Some 26] →
  let l := enc_part_fields last_req expiration starttime renew caddr p in
  small (enc_part_bytes wrapper l) → parse_enc_kdc_rep_part (enc_part_bytes wrapper l) = Ok p.
Proof.
  intros (Hk & Hn & Hf & Ha & He & Hr & Hs) Hw l Hsm. unfold parse_enc_kdc_rep_part.
  assert (small (der_sequence (contexts l))) as Hsm'.
  { unfold enc_part_bytes in Hsm. destruct wrapper; [by apply small_tlv in Hsm|done]. }
  assert ((x ← parse_der_tlv (enc_part_bytes wrapper l);
    let '(tag, inner, _) := x in
    if (tag =? 0x79) || (tag =? 0x7a)
    then expect_tlv TAG_SEQUENCE "Kerberos: expected SEQUENCE in EncKDCRepPart, got 0x{seq_tag:02x}" inner
    else if tag =? TAG_SEQUENCE then Ok inner
    else Err (invalid_data "Kerberos: expected APPLICATION [25/26] or SEQUENCE for EncKDCRepPart, got 0x{tag:02x}"))
    = expect_tlv TAG_SEQUENCE "Kerberos: expected SEQUENCE in EncKDCRepPart, got 0x{seq_tag:02x}" (der_sequence (contexts l))) as Hopen.
  { unfold enc_part_bytes. rewrite !elem_of_cons in Hw. destruct Hw as [-> |[-> |[-> |Hw]]]; [..|by apply not_elem_of_nil in Hw];
      unfold der_application, der_sequence at 1; (rewrite parse_der_tlv_whole by (done || by apply small_tlv in Hsm')); rewrite bind_ok;
      [|done|done]. symmetry. apply expect_back; [done|by apply small_tlv in Hsm']. }
  destruct (parse_der_tlv (enc_part_bytes wrapper l)) as [[[tag inner] total]|e|] eqn:Et;
    [rewrite bind_ok in Hopen|unfold der_sequence in Hopen; rewrite expect_back in Hopen by (done || by apply small_tlv in Hsm'); done..].
  rewrite bind_ok. rewrite Hopen.
  rewrite (record_back enc_part_field l _ _ (Some (ep_key p), Some (ep_nonce p), Some (ep_flags p), Some (ep_authtime p),
    Some (ep_endtime p), Some (ep_srealm p), Some (ep_sname p))).
  - cbn [ok_or_data]. rewrite !bind_ok. by destruct p.
  - unfold l, enc_part_fields. rewrite <- (app_nil_r (optional 11 caddr)). cbn [app]. tags_fit.
  - done.
  - clear Hopen Et Hw Hsm. unfold l, enc_part_fields in *. clear l.
    cbn [app] in *; small_parts Hsm'. read_fields enc_part_field.
    rewrite <- (app_nil_r (optional 11 caddr)). rewrite skip_optional by unknown_field. by destruct (ep_key p).
Qed.

(** KRB-ERROR: the times and the client's name are skipped. *)
Definition krb_error_fields (ctime cusec cname : option bytes) (stime susec : bytes) (e : KrbError) : list (Z * bytes) :=
  [(0, der_integer 5); (1, der_integer 30)] ++ optional 2 ctime ++ optional 3 cusec ++
  [(4, stime); (5, susec); (6, der_integer (ke_error_code e))] ++
  optional 7 (der_general_string <$> ke_crealm e) ++ optional 8 cname ++
  [(9, der_general_string (ke_realm e)); (10, encode_principal_name (ke_sname e))] ++
  optional 11 (der_general_string <$> ke_e_text e) ++ optional 12 (der_octet_string <$> ke_e_data e).
Definition krb_error_bytes (ctime cusec cname : option bytes) (stime susec : bytes) (e : KrbError) : bytes :=
  der_application 30 (der_sequence (contexts (krb_error_fields ctime cusec cname stime susec e))).
Definition KrbError_wf (e : KrbError) : Prop :=
  - 2 ^ 31 <= ke_error_code e < 2 ^ 31 ∧ str_wf (ke_realm e) ∧ PrincipalName_wf (ke_sname e) ∧
  (∀ r, ke_crealm e = Some r → str_wf r) ∧ (∀ t, ke_e_text e = Some t → str_wf t).

Ltac fold_optional :=
  repeat match goal with
  | H : context [optional ?k None] |- _ => change (optional k None) with (@nil (Z * bytes)) in *
  | H : context [optional ?k (Some ?b)] |- _ => change (optional k (Some b)) with [(k, b)] in *
  end.

Lemma krb_error_back ctime cusec cname stime susec e :
  let bs := krb_error_bytes ctime cusec cname stime susec e in
  KrbError_wf e → small bs → parse_krb_error bs = Ok e.
Proof.
  intros bs (Hc & Hr & Hn & Hcr & Het) Hs. unfold bs, parse_krb_error, krb_error_bytes, der_application in *. clear bs.
  set (l := krb_error_fields ctime cusec cname stime susec e) in *. apply small_tlv in Hs as Hs'.
  change (Z.lor 96 30) with 0x7e in *. rewrite expect_back by done. rewrite bind_ok.
  rewrite (record_back krb_error_field l _ _ (Some (ke_error_code e), ke_crealm e, Some (ke_realm e), Some (ke_sname e),
    ke_e_text e, ke_e_data e)).
  - cbn [ok_or_data]. rewrite !bind_ok. by destruct e.
  - unfold l, krb_error_fields. rewrite <- (app_nil_r (optional 12 _)). cbn [app]. tags_fit.
  - done.
  - unfold l, krb_error_fields in *. clear l. destruct e as [code [cr|] rl sn [et|] [ed|]];
      cbn [ke_crealm ke_e_text ke_e_data ke_error_code ke_realm ke_sname fmap option_fmap option_map] in *;
      try specialize (Hcr _ eq_refl); try specialize (Het _ eq_refl); fold_optional; cbn [app] in *; small_parts Hs';
      try match goal with H : small (der_octet_string _) |- _ => apply small_tlv in H end; read_fields krb_error_field.
Qed.

(** AP-REP, bare or after the OID of a GSS-API token, and what it encrypts. *)
Definition ap_rep_bytes (r : ApRep) : bytes :=
  der_application 15 (der_sequence (contexts [(0, der_integer 5); (1, der_integer 15); (2, encode_encrypted_data (ar_enc_part r))])).
Definition gss_bytes (oid token : bytes) : bytes := der_application 0 (der_tlv 6 oid ++ token).

Definition enc_ap_rep_fields (ctime cusec : bytes) (p : EncApRepPart) : list (Z * bytes) :=
  [(0, ctime); (1, cusec)] ++
  optional 2 ((λ k, encode_typed (keytype k) (keyvalue k)) <$> eap_subkey p) ++ optional 3 (der_integer_u32 <$> eap_seq_number p).
Definition enc_ap_rep_bytes (ctime cusec : bytes) (p : EncApRepPart) : bytes :=
  der_application 27 (der_sequence (contexts (enc_ap_rep_fields ctime cusec p))).
Definition EncApRepPart_wf (p : EncApRepPart) : Prop :=
  (∀ k, eap_subkey p = Some k → - 2 ^ 31 <= keytype k < 2 ^ 31) ∧ (∀ n, eap_seq_number p = Some n → is_u32 n).

Lemma ap_rep_body r :
  EncryptedData_wf (ar_enc_part r) → let l := [(0, der_integer 5); (1, der_integer 15); (2, encode_encrypted_data (ar_enc_part r))] in
  small (der_sequence (contexts l)) →
  (seq_data ← expect_tlv TAG_SEQUENCE "Kerberos: expected SEQUENCE in AP-REP, got 0x{seq_tag:02x}" (der_sequence (contexts l));
   fields ← parse_sequence_fields seq_data;
   enc_part ← each_field ap_rep_field fields None;
   enc_part ← ok_or_data enc_part "Kerberos: missing enc-part in AP-REP";
   Ok (mkApRep enc_part)) = Ok r.
Proof.
  intros He l Hs. unfold l in Hs. small_parts Hs.
  rewrite (record_back ap_rep_field l _ _ (Some (ar_enc_part r))); [by destruct r|by repeat constructor|done|].
  unfold l. read_fields ap_rep_field.
Qed.

Lemma ap_rep_back r :
  EncryptedData_wf (ar_enc_part r) → small (ap_rep_bytes r) → parse_ap_rep (ap_rep_bytes r) = Ok r.
Proof.
  intros He Hs. unfold parse_ap_rep, ap_rep_bytes, der_application in *. apply small_tlv in Hs.
  rewrite parse_der_tlv_whole by done. rewrite bind_ok. change (Z.lor 0x60 15) with 0x6f. cbn [Z.eqb Pos.eqb]. rewrite bind_ok.
  by apply ap_rep_body.
Qed.

Lemma small_app a b : small (a ++ b) → small a ∧ small b.
Proof. unfold small. rewrite len_app. pose proof (len_nonneg a). pose proof (len_nonneg b). lia. Qed.

Lemma gss_back oid token : small (gss_bytes oid token) → parse_gss_api_wrapper (gss_bytes oid token) = Ok (oid, token, len (gss_bytes oid token)).
Proof.
  intros Hs. unfold parse_gss_api_wrapper, gss_bytes, der_application in *. apply small_tlv in Hs.
  apply small_app in Hs as Ho. destruct Ho as [Ho%small_tlv _].
  rewrite parse_der_tlv_whole by done. rewrite bind_ok. change (Z.lor 0x60 0) with 0x60. cbn [Z.eqb Pos.eqb negb].
  rewrite parse_der_tlv_back by done. rewrite bind_ok.
  pose proof (len_nonneg (der_tlv 6 oid)). pose proof (len_nonneg token).
  rewrite slice_ok by (rewrite len_app; lia). rewrite bind_ok. rewrite subslice_suffix; [reflexivity|reflexivity|apply len_app].
Qed.

Lemma wrapped_ap_rep_back oid r :
  EncryptedData_wf (ar_enc_part r) → small (gss_bytes oid (ap_rep_bytes r)) →
  parse_ap_rep (gss_bytes oid (ap_rep_bytes r)) = Ok r.
Proof.
  intros He Hs. unfold parse_ap_rep, gss_bytes in *. unfold der_application at 1 in Hs. unfold der_application at 1. apply small_tlv in Hs.
  apply small_app in Hs as Ho. destruct Ho as [Ho%small_tlv Ha].
  rewrite parse_der_tlv_whole by done. rewrite bind_ok. change (Z.lor 0x60 0) with 0x60. cbn [Z.eqb Pos.eqb].
  rewrite parse_der_tlv_back by done. rewrite bind_ok.
  pose proof (len_nonneg (der_tlv 6 oid)). pose proof (len_nonneg (ap_rep_bytes r)).
  rewrite slice_ok by (rewrite len_app; lia). rewrite bind_ok, subslice_suffix by (done || apply len_app).
  unfold ap_rep_bytes, der_application in *. apply small_tlv in Ha. change (Z.lor 96 15) with 0x6f.
  rewrite expect_back by done. rewrite bind_ok. by apply ap_rep_body.
Qed.

Lemma enc_ap_rep_back ctime cusec p :
  EncApRepPart_wf p → small (enc_ap_rep_bytes ctime cusec p) → parse_enc_ap_rep_part (enc_ap_rep_bytes ctime cusec p) = Ok p.
Proof.
  intros [Hk Hn] Hs. unfold parse_enc_ap_rep_part, enc_ap_rep_bytes, der_application in *. apply small_tlv in Hs as Hs'.
  rewrite parse_der_tlv_whole by done. rewrite bind_ok. change (Z.lor 0x60 27) with 0x7b. cbn [Z.eqb Pos.eqb].
  set (l := enc_ap_rep_fields ctime cusec p) in *.
  rewrite (record_back enc_ap_rep_field l _ _ (eap_subkey p, eap_seq_number p)).
  - by destruct p.
  - unfold l, enc_ap_rep_fields. rewrite <- (app_nil_r (optional 3 _)). cbn [app]. tags_fit.
  - done.
  - unfold l, enc_ap_rep_fields in *. clear l. destruct p as [[[kt kv]|] [n|]]; cbn [eap_subkey eap_seq_number fmap option_fmap option_map] in *;
      try specialize (Hk _ eq_refl); try specialize (Hn _ eq_refl); cbn [keytype keyvalue] in *;
      fold_optional; cbn [app] in *; small_parts Hs'; read_fields enc_ap_rep_field.
Qed.

(** ** The theorems *)

(** No input makes a Kerberos parser panic or run past its bytes: on arbitrary bytes each of the
    parsers of replies, tickets, errors and their encrypted parts returns a value or an error (the
    loops over fields and names always finish). *)
Theorem krb_parsers_safe (d : bytes) :
  parse_kdc_rep d ≠ Panic ∧ parse_enc_kdc_rep_part d ≠ Panic ∧ parse_krb_error d ≠ Panic ∧
  parse_ap_rep d ≠ Panic ∧ parse_enc_ap_rep_part d ≠ Panic ∧ parse_ticket d ≠ Panic ∧
  parse_gss_api_wrapper d ≠ Panic ∧ parse_encrypted_data d ≠ Panic ∧ parse_encryption_key d ≠ Panic ∧
  parse_principal_name d ≠ Panic.
Proof. split_and!; auto with krb. Qed.

(** C23: what a KDC or a server encodes by RFC 4120 is what the client reads.  For a well-formed
    KDC-REP, encrypted part, KRB-ERROR, AP-REP (bare or in a GSS-API token) and encrypted AP-REP
    part, with any values of the fields the client skips and any choice of the optional ones,
    the parser returns exactly the values encoded; a ticket keeps the bytes it came in, which
    [encode_ticket] sends on unchanged. *)
Theorem krb_messages_round_trip
    (padata : option bytes) (r : KdcRep)
    (wrapper : option Z) (last_req : bytes) (expiration starttime renew caddr : option bytes) (p : EncKdcRepPart)
    (ctime cusec cname : option bytes) (stime susec : bytes) (e : KrbError)
    (oid : bytes) (a : ApRep) (ap : EncApRepPart) :
  let enc := enc_part_bytes wrapper (enc_part_fields last_req expiration starttime renew caddr p) in
  KdcRep_wf r → EncKdcRepPart_wf p → wrapper ∈ [None; Some 25; Some 26] → KrbError_wf e →
  EncryptedData_wf (ar_enc_part a) → EncApRepPart_wf ap →
  small (kdc_rep_bytes padata r) → small enc → small (krb_error_bytes ctime cusec cname stime susec e) →
  small (gss_bytes oid (ap_rep_bytes a)) → small (enc_ap_rep_bytes stime susec ap) →
  parse_kdc_rep (kdc_rep_bytes padata r)
  = Ok (mkKdcRep (kr_msg_type r) (kr_crealm r) (kr_cname r) (received (kr_ticket r)) (kr_enc_part r)) ∧
  encode_ticket (received (kr_ticket r)) = encode_ticket (kr_ticket r) ∧
  parse_enc_kdc_rep_part enc = Ok p ∧
  parse_krb_error (krb_error_bytes ctime cusec cname stime susec e) = Ok e ∧
  parse_ap_rep (ap_rep_bytes a) = Ok a ∧ parse_ap_rep (gss_bytes oid (ap_rep_bytes a)) = Ok a ∧
  parse_enc_ap_rep_part (enc_ap_rep_bytes stime susec ap) = Ok ap.
Proof.
  intros enc Hr Hp Hw He Ha Hap H1 H2 H3 H4 H5. split_and!; [by apply kdc_rep_back|done|by apply enc_part_back|by apply krb_error_back| | |].
  - apply ap_rep_back; [done|]. by apply small_tlv, small_app in H4 as [_ ?].
  - by apply wrapped_ap_rep_back.
  - by apply enc_ap_rep_back.
Qed.

Definition sample_name : PrincipalName := mkPrincipalName 2 [literal "cifs"; literal "nas.corp"].
Definition sample_enc : EncryptedData := mkEncryptedData 18 (Some 2) [x01; x02; x03].
Definition sample_rep : KdcRep :=
  mkKdcRep 13 (literal "CORP") (mkPrincipalName 1 [literal "alice"]) (mkTicket 5 (literal "CORP") sample_name sample_enc None) sample_enc.
Definition sample_part : EncKdcRepPart :=
  mkEncKdcRepPart (mkEncryptionKey 18 (repeat xaa 32)) 0x7fffffff 0x40e10000 (literal "20240101000000Z") (literal "20240101100000Z")
    (literal "CORP") sample_name.
Definition sample_error : KrbError := mkKrbError 25 None (literal "CORP") sample_name (Some (literal "pre-auth")) (Some [x30; x00]).

Lemma krb_messages_round_trip_witness :
  parse_kdc_rep (kdc_rep_bytes None sample_rep)
  = Ok (mkKdcRep 13 (literal "CORP") (kr_cname sample_rep) (received (kr_ticket sample_rep)) sample_enc) ∧
  parse_krb_error (krb_error_bytes None None None [x30; x00] [x30; x00] sample_error) = Ok sample_error.
Proof.
  assert (∀ n : PrincipalName, n = sample_name ∨ n = kr_cname sample_rep → PrincipalName_wf n) as Hn.
  { intros n [-> | ->]; (split; [cbn; lia|by repeat constructor]). }
  assert (EncryptedData_wf sample_enc) as He by (split; [cbn; lia|intros k [= <-]; lia]).
  destruct (krb_messages_round_trip None sample_rep (Some 26) [x30; x00] None None None None sample_part None None None
    [x30; x00] [x30; x00] sample_error [x2a] (mkApRep sample_enc) (mkEncApRepPart (Some (mkEncryptionKey 18 [xab])) (Some 7)))
    as (H1 & _ & _ & H4 & _).
  - split_and!; [by right|by repeat constructor|by apply Hn; right| |done]. split; [by vm_compute|]. split; [by repeat constructor|]. split; [by apply Hn; left|done].
  - do 3 (split; [by vm_compute|]). do 3 (split; [by repeat constructor|]). by apply Hn; left.
  - set_solver.
  - split; [by vm_compute|]. split; [by repeat constructor|]. split; [by apply Hn; left|]. split; [done|]. intros t [= <-]. by repeat constructor.
  - done.
  - split; [intros k [= <-]; by vm_compute|by intros n [= <-]].
  - by vm_compute.
  - by vm_compute.
  - by vm_compute.
  - by vm_compute.
  - by vm_compute.
  - exact (conj H1 H4).
Defined.
