(* ===== verification/Ccache.v ===== *)
(** * Credential caches ([src/auth/kerberos/ccache.rs])

    The reader of MIT credential cache files, versions 3 and 4, and the lookups of tickets in
    them.  Positions are [usize] values: they exceed the length of the file by at most one
    skipped [u32] length, far from 2^64, so their additions are exact. *)

From S2P Require Import Prelude Types Fields Pack Utf8.

Record CcachePrincipal := mkCcachePrincipal { cp_name_type : Z; cp_realm : list Z; cp_components : list (list Z) }.
Record CcacheCredential := mkCcacheCredential {
  cc_client : CcachePrincipal; cc_server : CcachePrincipal; cc_key_etype : Z; cc_key_data : bytes;
  cc_authtime : Z; cc_starttime : Z; cc_endtime : Z; cc_renew_till : Z; cc_ticket : bytes
}.
Record CCache := mkCCache {
  cache_version : Z; cache_default_principal : CcachePrincipal; cache_credentials : list CcacheCredential
}.

(** ** Reading helpers: the value and the new position *)

Definition short : Error := invalid_data "ccache: unexpected end of data".

Definition cc_u8 (data : bytes) (pos : Z) : result Error (Z * Z) :=
  if len data <=? pos then Err short else
  b ← slice data pos (pos + 1);
  Ok (of_be b, pos + 1).

Definition cc_u16 (data : bytes) (pos : Z) : result Error (Z * Z) :=
  if len data <? pos + 2 then Err short else
  b ← slice data pos (pos + 2);
  Ok (of_be b, pos + 2).

Definition cc_u32 (data : bytes) (pos : Z) : result Error (Z * Z) :=
  if len data <? pos + 4 then Err short else
  b ← slice data pos (pos + 4);
  Ok (of_be b, pos + 4).

Definition cc_bytes (n : Z) (data : bytes) (pos : Z) : result Error (bytes * Z) :=
  if len data <? pos + n then Err short else
  b ← slice data pos (pos + n);
  Ok (b, pos + n).

Definition cc_string (data : bytes) (pos : Z) : result Error (list Z * Z) :=
  '(n, pos) ← cc_u32 data pos;
  '(bs, pos) ← cc_bytes n data pos;
  match from_utf8 bs with
  | Some s => Ok (s, pos)
  | None => Err (invalid_data "ccache: invalid UTF-8 in string")
  end.

(** [for _ in 0..num_components]: a round cache_reads at least four bytes, so the file's length bounds
    the rounds that succeed. *)
Fixpoint components_loop (fuel : nat) (n : Z) (acc : list (list Z)) (data : bytes) (pos : Z) :
    result Error (list (list Z) * Z) :=
  if n <=? 0 then Ok (acc, pos) else
  match fuel with
  | O => Panic
  | S fuel =>
      '(s, pos) ← cc_string data pos;
      components_loop fuel (n - 1) (acc ++ [s]) data pos
  end.

Definition read_principal (data : bytes) (pos : Z) : result Error (CcachePrincipal * Z) :=
  '(name_type, pos) ← cc_u32 data pos;
  '(num_components, pos) ← cc_u32 data pos;
  '(realm, pos) ← cc_string data pos;
  '(components, pos) ← components_loop (S (length data)) num_components [] data pos;
  Ok (mkCcachePrincipal name_type realm components, pos).

Definition read_keyblock (data : bytes) (pos : Z) : result Error (Z * bytes * Z) :=
  '(enctype, pos) ← cc_u16 data pos;
  '(key_len, pos) ← cc_u32 data pos;
  '(key_data, pos) ← cc_bytes key_len data pos;
  Ok (enctype, key_data, pos).

(** Addresses and authorisation data: a type, a length, and bytes that are skipped unread. *)
Fixpoint skip_entries (fuel : nat) (n : Z) (data : bytes) (pos : Z) : result Error Z :=
  if n <=? 0 then Ok pos else
  match fuel with
  | O => Panic
  | S fuel =>
      '(_, pos) ← cc_u16 data pos;
      '(entry_len, pos) ← cc_u32 data pos;
      skip_entries fuel (n - 1) data (pos + entry_len)
  end.

Definition read_credential (data : bytes) (pos : Z) : result Error (CcacheCredential * Z) :=
  '(client, pos) ← read_principal data pos;
  '(server, pos) ← read_principal data pos;
  '(key_etype, key_data, pos) ← read_keyblock data pos;
  '(authtime, pos) ← cc_u32 data pos;
  '(starttime, pos) ← cc_u32 data pos;
  '(endtime, pos) ← cc_u32 data pos;
  '(renew_till, pos) ← cc_u32 data pos;
  '(_, pos) ← cc_u8 data pos;
  '(_, pos) ← cc_u32 data pos;
  '(addr_count, pos) ← cc_u32 data pos;
  pos ← skip_entries (S (length data)) addr_count data pos;
  '(authdata_count, pos) ← cc_u32 data pos;
  pos ← skip_entries (S (length data)) authdata_count data pos;
  '(ticket_len, pos) ← cc_u32 data pos;
  '(ticket, pos) ← cc_bytes ticket_len data pos;
  '(second_ticket_len, pos) ← cc_u32 data pos;
  '(_, pos) ← cc_bytes second_ticket_len data pos;
  Ok (mkCcacheCredential client server key_etype key_data authtime starttime endtime renew_till ticket, pos).

(** [while pos < data.len()]: an error is taken for the end of the file. *)
Fixpoint credentials_loop (fuel : nat) (data : bytes) (pos : Z) (acc : list CcacheCredential) :
    result Error (list CcacheCredential) :=
  match fuel with
  | O => Panic
  | S fuel =>
      if negb (pos <? len data) then Ok acc else
      match read_credential data pos with
      | Ok (cred, pos) => credentials_loop fuel data pos (acc ++ [cred])
      | Err _ => Ok acc
      | Panic => Panic
      end
  end.

Definition skip_header (version : Z) (data : bytes) (pos : Z) : result Error Z :=
  if negb (version =? 0x0504) then Ok pos else
  '(header_len, pos) ← cc_u16 data pos;
  if len data <? pos + header_len then Err (invalid_data "ccache: header extends past end of file")
  else Ok (pos + header_len).

Definition parse_ccache (data : bytes) : result Error CCache :=
  if len data <? 2 then Err (invalid_data "ccache: file too short for version") else
  '(version, pos) ← cc_u16 data 0;
  if negb (version =? 0x0503) && negb (version =? 0x0504)
  then Err (invalid_data "ccache: unsupported version 0x{version:04x} (expected 0x0503 or 0x0504)") else
  pos ← skip_header version data pos;
  '(default_principal, pos) ← read_principal data pos;
  credentials ← credentials_loop (S (length data)) data pos [];
  Ok (mkCCache version default_principal credentials).

(** The file that is read: an explicit path, or [$KRB5CCNAME] without its [FILE:] prefix. *)
Definition strip_file (p : list Z) : list Z :=
  if bool_decide (take 5 p = literal "FILE:") then drop 5 p else p.

Definition load_ccache (read_file : list Z → option bytes) (krb5ccname : option (list Z)) (path : option (list Z)) :
    result Error CCache :=
  path ← match path with
         | Some p => Ok p
         | None =>
             match krb5ccname with
             | Some env_path => Ok (strip_file env_path)
             | None => Err (invalid_data "ccache: no path specified and $KRB5CCNAME not set")
             end
         end;
  match read_file path with
  | Some data => parse_ccache data
  | None => Err (invalid_data "ccache: failed to read {path}: {e}")
  end.

(** ** Lookups *)

(** [str::eq_ignore_ascii_case]. *)
Definition to_ascii_lower (c : Z) : Z := if (65 <=? c) && (c <=? 90) then c + 32 else c.
Definition eq_ignore_ascii_case (a b : list Z) : bool := bool_decide (map to_ascii_lower a = map to_ascii_lower b).

Definition find_service_ticket (service hostname realm : list Z) (c : CCache) : option CcacheCredential :=
  List.find (λ c,
    eq_ignore_ascii_case (cp_realm (cc_server c)) realm &&
    match cp_components (cc_server c) with
    | [s; h] => eq_ignore_ascii_case s service && eq_ignore_ascii_case h hostname
    | _ => false
    end) (cache_credentials c).

Definition find_tgt (realm : list Z) (c : CCache) : option CcacheCredential :=
  List.find (λ c,
    eq_ignore_ascii_case (cp_realm (cc_server c)) realm &&
    match cp_components (cc_server c) with
    | [s; r] => bool_decide (s = literal "krbtgt") && eq_ignore_ascii_case r realm
    | _ => false
    end) (cache_credentials c).

(** ** Safety *)

(** The reader does not panic, and when it returns it has moved to [lo] or further and the file
    holds the bytes up to [lo]. *)
Definition advances {A} (data : bytes) (lo : Z) (r : result Error (A * Z)) : Prop :=
  match r with Ok (_, q) => lo <= q ∧ lo <= len data | Err _ => True | Panic => False end.

Lemma advances_bind {A B} data mid lo (m : result Error (A * Z)) (k : A * Z → result Error (B * Z)) :
  advances data mid m → (∀ a q, mid <= q → mid <= len data → advances data lo (k (a, q))) → advances data lo (m ≫= k).
Proof. intros Hm Hk. destruct m as [[a q]|e|]; [by apply Hk; apply Hm|done|done]. Qed.
Lemma advances_weaken {A} data lo lo' (r : result Error (A * Z)) : lo' <= lo → advances data lo r → advances data lo' r.
Proof. intros Hl. destruct r as [[a q]|e|]; [cbn; lia|done|done]. Qed.

Lemma of_be_nonneg bs : 0 <= of_be bs.
Proof. apply of_le_range. Qed.

Section safety.
Variable data : bytes.
Implicit Types pos : Z.

Lemma cc_u8_advances pos : 0 <= pos → advances data (pos + 1) (cc_u8 data pos).
Proof. intros. unfold cc_u8. case_test; [done|]. bool_prop. rewrite slice_ok by lia. cbn. lia. Qed.
Lemma cc_u16_advances pos : 0 <= pos → advances data (pos + 2) (cc_u16 data pos).
Proof. intros. unfold cc_u16. case_test; [done|]. bool_prop. rewrite slice_ok by lia. cbn. lia. Qed.
Lemma cc_bytes_advances n pos : 0 <= pos → 0 <= n → advances data (pos + n) (cc_bytes n data pos).
Proof. intros. unfold cc_bytes. case_test; [done|]. bool_prop. rewrite slice_ok by lia. cbn. lia. Qed.

(** What a [u32] read hands on is not negative. *)
Lemma cc_u32_advances {B} pos (k : Z * Z → result Error (B * Z)) lo :
  0 <= pos → (∀ v, 0 <= v → pos + 4 <= len data → advances data lo (k (v, pos + 4))) →
  advances data lo (cc_u32 data pos ≫= k).
Proof.
  intros Hp Hk. unfold cc_u32. case_test; [done|]. bool_prop. rewrite slice_ok by lia. rewrite !bind_ok.
  apply Hk; [apply of_be_nonneg|lia].
Qed.

Lemma read_string_advances pos : 0 <= pos → advances data (pos + 4) (cc_string data pos).
Proof.
  intros Hp. unfold cc_string. apply cc_u32_advances; [done|]. intros n Hn Hl.
  apply (advances_bind _ (pos + 4 + n)); [apply cc_bytes_advances; lia|]. intros bs q Hq Hql. destruct (from_utf8 bs); [cbn; lia|done].
Qed.

Lemma components_advances fuel n acc pos :
  0 <= pos <= len data → len data - pos < Z.of_nat fuel → advances data pos (components_loop fuel n acc data pos).
Proof.
  revert n acc pos. induction fuel as [|fuel IH]; intros n acc pos Hp Hf; cbn [components_loop]; (case_test; [cbn; lia|]); [lia|].
  pose proof (read_string_advances pos ltac:(lia)) as Hs. destruct (cc_string data pos) as [[s q]|e|]; [|done|done]. cbn [advances] in Hs.
  rewrite bind_ok. destruct (Z.le_gt_cases q (len data)); [apply (advances_weaken _ q); [lia|]; apply IH; lia|].
  destruct fuel; [lia|]. cbn [components_loop]. case_test; [cbn; lia|]. unfold cc_string, cc_u32. by rewrite (proj2 (Z.ltb_lt _ _)) by lia.
Qed.

Lemma read_principal_advances pos : 0 <= pos → advances data (pos + 12) (read_principal data pos).
Proof.
  intros Hp. unfold read_principal. apply cc_u32_advances; [done|]. intros nt _ _. apply cc_u32_advances; [lia|]. intros n _ Hn.
  pose proof (read_string_advances (pos + 4 + 4) ltac:(lia)) as Hs. destruct (cc_string data _) as [[s q]|e|]; [|done|done]. cbn [advances] in Hs.
  rewrite bind_ok. apply (advances_bind _ (pos + 12)); [|intros; cbn; lia].
  destruct (Z.le_gt_cases q (len data)); [apply (advances_weaken _ q); [lia|]; apply components_advances; [lia|unfold len in *; lia]|].
  cbn [components_loop]. case_test; [cbn; lia|]. unfold cc_string, cc_u32. by rewrite (proj2 (Z.ltb_lt _ _)) by lia.
Qed.

Lemma skip_entries_safe fuel n pos :
  0 <= pos → Z.max 0 (len data - pos) < Z.of_nat fuel →
  match skip_entries fuel n data pos with Ok q => pos <= q | Err _ => True | Panic => False end.
Proof.
  revert n pos. induction fuel as [|fuel IH]; intros n pos Hp Hf; [lia|]. cbn [skip_entries]. case_test; [lia|].
  pose proof (cc_u16_advances pos Hp) as H1. destruct (cc_u16 data pos) as [[x q]|e|]; [|done|done]. cbn [advances] in H1. rewrite bind_ok.
  unfold cc_u32. case_test; [done|]. bool_prop. rewrite slice_ok by lia. rewrite !bind_ok. pose proof (of_be_nonneg (subslice data q (q + 4))).
  pose proof (IH (n - 1) (q + 4 + of_be (subslice data q (q + 4))) ltac:(lia) ltac:(lia)) as H2.
  destruct (skip_entries fuel _ _ _); [lia|done|done].
Qed.
Lemma skip_bind {B} n pos lo (k : Z → result Error (B * Z)) :
  0 <= pos → (∀ q, pos <= q → advances data lo (k q)) → advances data lo (skip_entries (S (length data)) n data pos ≫= k).
Proof.
  intros Hp Hk. pose proof (skip_entries_safe (S (length data)) n pos Hp ltac:(unfold len; lia)) as Hs.
  destruct (skip_entries _ _ _ _); [by apply Hk|done|done].
Qed.

Lemma read_keyblock_advances pos : 0 <= pos → advances data pos (read_keyblock data pos).
Proof.
  intros Hp. unfold read_keyblock. apply (advances_bind _ (pos + 2)); [by apply cc_u16_advances|]. intros et q Hq _.
  apply cc_u32_advances; [lia|]. intros n Hn _. apply (advances_bind _ (q + 4 + n)); [apply cc_bytes_advances; lia|].
  intros kd q' Hq' Hl. cbn. lia.
Qed.

Lemma read_credential_advances pos : 0 <= pos → advances data (pos + 1) (read_credential data pos).
Proof.
  intros Hp. unfold read_credential.
  apply (advances_bind _ (pos + 12)); [by apply read_principal_advances|]. intros client q1 H1 Hl.
  apply (advances_bind _ (q1 + 12)); [apply read_principal_advances; lia|]. intros server q2 H2 _.
  apply (advances_bind _ q2); [apply read_keyblock_advances; lia|]. intros [et kd] q4 H4 _.
  do 4 (apply cc_u32_advances; [lia|]; intros ? _ _).
  apply (advances_bind _ (q4 + 4)); [eapply advances_weaken, cc_u8_advances; lia|]. intros _ q5 H5 _.
  apply cc_u32_advances; [lia|]; intros _ _ _. apply cc_u32_advances; [lia|]; intros ac _ _.
  apply skip_bind; [lia|]. intros q6 H6. apply cc_u32_advances; [lia|]; intros dc _ _.
  apply skip_bind; [lia|]. intros q7 H7. apply cc_u32_advances; [lia|]; intros tl Ht _.
  apply (advances_bind _ (q7 + 4 + tl)); [apply cc_bytes_advances; lia|]. intros tk q8 H8 _.
  apply cc_u32_advances; [lia|]; intros sl Hsl _.
  apply (advances_bind _ (q8 + 4 + sl)); [apply cc_bytes_advances; lia|]. intros _ q9 H9 H9'. cbn. lia.
Qed.

Lemma credentials_loop_safe fuel pos acc :
  0 <= pos → Z.max 0 (len data - pos) < Z.of_nat fuel → credentials_loop fuel data pos acc ≠ Panic.
Proof.
  revert pos acc. induction fuel as [|fuel IH]; intros pos acc Hp Hf; [lia|]. cbn [credentials_loop].
  destruct (pos <? len data) eqn:E; cbn [negb]; [|done]. bool_prop.
  pose proof (read_credential_advances pos Hp) as Hc. destruct (read_credential data pos) as [[c q]|e|]; [|done|done].
  cbn [advances] in Hc. apply IH; lia.
Qed.
End safety.

Lemma parse_ccache_safe data : parse_ccache data ≠ Panic.
Proof.
  unfold parse_ccache. case_test; [done|]. pose proof (cc_u16_advances data 0 ltac:(lia)) as H1.
  destruct (cc_u16 data 0) as [[v q]|e|]; [|done|done]. cbn [advances] in H1. rewrite bind_ok. case_test; [done|].
  assert (match skip_header v data q with Ok q' => q <= q' | Err _ => True | Panic => False end) as H2.
  { unfold skip_header. case_test; [lia|]. unfold cc_u16. case_test; [done|]. bool_prop. rewrite slice_ok by lia. rewrite !bind_ok.
    case_test; [done|]. pose proof (of_be_nonneg (subslice data q (q + 2))). lia. }
  destruct (skip_header v data q) as [q'|e|]; [|done|done]. rewrite bind_ok.
  pose proof (read_principal_advances data q' ltac:(lia)) as H3. destruct (read_principal data q') as [[p q'']|e|]; [|done|done].
  cbn [advances] in H3. rewrite bind_ok. pose proof (credentials_loop_safe data (S (length data)) q'' [] ltac:(lia) ltac:(unfold len; lia)).
  by destruct (credentials_loop _ _ _ _).
Qed.

(** ** What a Kerberos library writes *)

Definition lengthed (bs : bytes) : bytes := to_be 4 (len bs) ++ bs.
Definition string_block (s : list Z) : bytes := lengthed (utf8_bytes s).
Definition principal_block (p : CcachePrincipal) : bytes :=
  to_be 4 (cp_name_type p) ++ to_be 4 (len (cp_components p)) ++ string_block (cp_realm p) ++
  concat (map string_block (cp_components p)).
Definition entry_block (e : Z * bytes) : bytes := to_be 2 e.1 ++ lengthed e.2.
Definition entries_block (l : list (Z * bytes)) : bytes := to_be 4 (len l) ++ concat (map entry_block l).

(** The fields of a credential that the reader skips. *)
Record Skipped := mkSkipped {
  is_skey : Z; ticket_flags : Z; addresses : list (Z * bytes); authdata : list (Z * bytes); second_ticket : bytes
}.
Definition credential_block (x : Skipped * CcacheCredential) : bytes :=
  let '(k, c) := x in
  principal_block (cc_client c) ++ principal_block (cc_server c) ++
  to_be 2 (cc_key_etype c) ++ lengthed (cc_key_data c) ++
  to_be 4 (cc_authtime c) ++ to_be 4 (cc_starttime c) ++ to_be 4 (cc_endtime c) ++ to_be 4 (cc_renew_till c) ++
  to_be 1 (is_skey k) ++ to_be 4 (ticket_flags k) ++ entries_block (addresses k) ++ entries_block (authdata k) ++
  lengthed (cc_ticket c) ++ lengthed (second_ticket k).
Definition header_block (version : Z) (header : bytes) : bytes :=
  if version =? 0x0504 then to_be 2 (len header) ++ header else [].
Definition ccache_block (header : bytes) (version : Z) (principal : CcachePrincipal) (creds : list (Skipped * CcacheCredential)) :
    bytes :=
  to_be 2 version ++ header_block version header ++ principal_block principal ++ concat (map credential_block creds).

Definition cc_fits (bs : bytes) : Prop := len bs < 2 ^ 32.
Definition principal_ok (p : CcachePrincipal) : Prop :=
  is_u32 (cp_name_type p) ∧ len (cp_components p) < 2 ^ 32 ∧ Forall (λ s, str_wf s ∧ cc_fits (utf8_bytes s)) (cp_realm p :: cp_components p).
Definition entries_ok (l : list (Z * bytes)) : Prop := len l < 2 ^ 32 ∧ Forall (λ e, is_u16 e.1 ∧ cc_fits e.2) l.
Definition credential_ok (x : Skipped * CcacheCredential) : Prop :=
  let '(k, c) := x in
  principal_ok (cc_client c) ∧ principal_ok (cc_server c) ∧ is_u16 (cc_key_etype c) ∧ cc_fits (cc_key_data c) ∧
  is_u32 (cc_authtime c) ∧ is_u32 (cc_starttime c) ∧ is_u32 (cc_endtime c) ∧ is_u32 (cc_renew_till c) ∧
  is_u8 (is_skey k) ∧ is_u32 (ticket_flags k) ∧ entries_ok (addresses k) ∧ entries_ok (authdata k) ∧ cc_fits (cc_ticket c) ∧ cc_fits (second_ticket k).

(** A reader that cache_reads one block, wherever it stands, continues after it. *)
Definition cache_reads {A} (rd : bytes → Z → result Error (A * Z)) (e : bytes) (x : A) : Prop :=
  ∀ pre post, rd (pre ++ e ++ post) (len pre) = Ok (x, len (pre ++ e)).

Lemma reads_step {A B} {rd : bytes → Z → result Error (A * Z)} {e x} (Hr : cache_reads rd e x) d pre post (k : A * Z → result Error B) :
  d = pre ++ e ++ post → (rd d (len pre) ≫= k) = k (x, len (pre ++ e)).
Proof. intros ->. by rewrite (Hr pre post). Qed.

Ltac reads_next H := erewrite (reads_step H); [|rewrite <- ?app_assoc; reflexivity].

Lemma reads_int (n : nat) v (rd : bytes → Z → result Error (Z * Z)) :
  in_range (8 * Z.of_nat n) v →
  (∀ d p, 0 <= p → p + Z.of_nat n <= len d → rd d p = Ok (of_be (subslice d p (p + Z.of_nat n)), p + Z.of_nat n)) →
  cache_reads rd (to_be n v) v.
Proof.
  intros Hv Hrd pre post. pose proof (len_nonneg pre). pose proof (len_nonneg post).
  rewrite Hrd; [|lia|rewrite !len_app, len_to_be; lia].
  rewrite subslice_app by (rewrite ?len_to_be; done). by rewrite of_be_to_be, len_app, len_to_be.
Qed.
Lemma cache_reads_u8 v : is_u8 v → cache_reads cc_u8 (to_be 1 v) v.
Proof.
  intros Hv. apply reads_int; [done|]. intros d p Hp Hl. unfold cc_u8. rewrite (proj2 (Z.leb_gt _ _)) by lia. by rewrite slice_ok by lia.
Qed.
Lemma cache_reads_u16 v : is_u16 v → cache_reads cc_u16 (to_be 2 v) v.
Proof.
  intros Hv. apply reads_int; [done|]. intros d p Hp Hl. unfold cc_u16. rewrite (proj2 (Z.ltb_ge _ _)) by lia. by rewrite slice_ok by lia.
Qed.
Lemma cache_reads_u32 v : is_u32 v → cache_reads cc_u32 (to_be 4 v) v.
Proof.
  intros Hv. apply reads_int; [done|]. intros d p Hp Hl. unfold cc_u32. rewrite (proj2 (Z.ltb_ge _ _)) by lia. by rewrite slice_ok by lia.
Qed.
Lemma cache_reads_bytes bs : cache_reads (cc_bytes (len bs)) bs bs.
Proof.
  intros pre post. pose proof (len_nonneg pre). pose proof (len_nonneg post). pose proof (len_nonneg bs). unfold cc_bytes.
  rewrite (proj2 (Z.ltb_ge _ _)) by (rewrite !len_app; lia). rewrite slice_ok by (rewrite ?len_app; lia).
  rewrite bind_ok, subslice_app by done. by rewrite len_app.
Qed.
Lemma fits_u32 bs : cc_fits bs → is_u32 (len bs).
Proof. unfold cc_fits, in_range. pose proof (len_nonneg bs). lia. Qed.

Lemma reads_string s : str_wf s → cc_fits (utf8_bytes s) → cache_reads cc_string (string_block s) s.
Proof.
  intros Hs Hf pre post. unfold cc_string, string_block, lengthed. reads_next (cache_reads_u32 _ (fits_u32 _ Hf)).
  reads_next (cache_reads_bytes (utf8_bytes s)). rewrite from_utf8_back by done. by rewrite <- app_assoc.
Qed.

Lemma reads_components names acc fuel :
  Forall (λ s, str_wf s ∧ cc_fits (utf8_bytes s)) names → (length names <= fuel)%nat →
  cache_reads (components_loop fuel (len names) acc) (concat (map string_block names)) (acc ++ names).
Proof.
  intros Hn. revert acc fuel. induction Hn as [|s names [Hs Hf] Hn IH]; intros acc fuel Hl pre post; cbn [map concat].
  - rewrite !app_nil_r. by destruct fuel.
  - cbn [length] in Hl. destruct fuel as [|fuel]; [lia|]. cbn [components_loop]. rewrite len_cons. pose proof (len_nonneg names).
    rewrite (proj2 (Z.leb_gt _ _)) by lia. reads_next (reads_string s Hs Hf). rewrite Z.add_simpl_l.
    rewrite <- app_assoc, (app_assoc pre). rewrite (IH (acc ++ [s]) fuel ltac:(lia) (pre ++ string_block s) post).
    by rewrite <- !app_assoc.
Qed.

Lemma length_blocks {A} (f : A → bytes) l : (∀ x, (1 <= length (f x))%nat) → (length l <= length (concat (map f l)))%nat.
Proof. intros Hf. induction l as [|x l IH]; [done|]. cbn [map concat length]. rewrite length_app. specialize (Hf x). lia. Qed.
Lemma lengthed_nonempty bs : (1 <= length (lengthed bs))%nat.
Proof. unfold lengthed, to_be. rewrite length_app, length_rev, length_to_le. lia. Qed.

Lemma reads_principal p : principal_ok p → cache_reads read_principal (principal_block p) p.
Proof.
  intros (Ht & Hc & Hs) pre post. apply Forall_cons in Hs as [[Hr Hrf] Hs]. unfold read_principal, principal_block.
  reads_next (cache_reads_u32 _ Ht). assert (is_u32 (len (cp_components p))) as Hc' by (unfold in_range; pose proof (len_nonneg (cp_components p)); lia).
  reads_next (cache_reads_u32 _ Hc'). reads_next (reads_string _ Hr Hrf).
  set (d := pre ++ _ ++ post). assert (length (cp_components p) <= S (length d))%nat as Hf.
  { pose proof (length_blocks string_block (cp_components p) (λ s, lengthed_nonempty _)). unfold d. rewrite !length_app. lia. }
  erewrite (reads_step (reads_components (cp_components p) [] (S (length d)) Hs Hf)); [|unfold d; rewrite <- ?app_assoc; reflexivity].
  destruct p. by rewrite <- !app_assoc.
Qed.

Lemma reads_keyblock et kd : is_u16 et → cc_fits kd → cache_reads read_keyblock (to_be 2 et ++ lengthed kd) (et, kd).
Proof.
  intros He Hk pre post. unfold read_keyblock, lengthed. reads_next (cache_reads_u16 _ He). reads_next (cache_reads_u32 _ (fits_u32 _ Hk)).
  reads_next (cache_reads_bytes kd). by rewrite <- !app_assoc.
Qed.

(** Entries, with the position as the only result. *)
Lemma skip_back l fuel d pre post :
  Forall (λ e, is_u16 e.1 ∧ cc_fits e.2) l → (length l <= fuel)%nat → d = pre ++ concat (map entry_block l) ++ post →
  skip_entries fuel (len l) d (len pre) = Ok (len (pre ++ concat (map entry_block l))).
Proof.
  intros Hl. revert fuel pre. induction Hl as [|[t b] l [Ht Hb] Hl IH]; intros fuel pre Hf ->; cbn [map concat].
  - rewrite !app_nil_r. by destruct fuel.
  - cbn [length] in Hf. destruct fuel as [|fuel]; [lia|]. cbn [skip_entries]. rewrite len_cons. pose proof (len_nonneg l).
    rewrite (proj2 (Z.leb_gt _ _)) by lia. unfold entry_block at 1, lengthed. cbn [fst snd] in *.
    reads_next (cache_reads_u16 _ Ht). reads_next (cache_reads_u32 _ (fits_u32 _ Hb)). rewrite Z.add_simpl_l.
    replace (len ((pre ++ to_be 2 t) ++ to_be 4 (len b)) + len b) with (len (pre ++ entry_block (t, b)))
      by (unfold entry_block, lengthed; cbn [fst snd]; rewrite !len_app; lia).
    rewrite IH; [by rewrite <- app_assoc|lia|]. unfold entry_block, lengthed. cbn [map concat fst snd]. by rewrite <- !app_assoc.
Qed.

(** The count, the entries, and what follows. *)
Lemma entries_step {B} l d pre post (k : Z → result Error B) :
  entries_ok l → d = pre ++ entries_block l ++ post →
  ('(n, pos) ← cc_u32 d (len pre); pos ← skip_entries (S (length d)) n d pos; k pos) = k (len (pre ++ entries_block l)).
Proof.
  intros [Hn Hl] ->. unfold entries_block. assert (is_u32 (len l)) as Hu by (unfold in_range; pose proof (len_nonneg l); lia).
  reads_next (cache_reads_u32 _ Hu).
  erewrite skip_back; [rewrite bind_ok; by rewrite <- app_assoc|done| |rewrite <- !app_assoc; reflexivity].
  pose proof (length_blocks entry_block l). rewrite !length_app. unshelve epose proof (H _).
  - intros [t b]. unfold entry_block. rewrite length_app. pose proof (lengthed_nonempty b). cbn [fst snd]. lia.
  - lia.
Qed.

Lemma lengthed_step {B} (bs : bytes) d pre post (k : bytes * Z → result Error B) :
  cc_fits bs → d = pre ++ lengthed bs ++ post →
  ('(n, pos) ← cc_u32 d (len pre); cc_bytes n d pos ≫= k) = k (bs, len (pre ++ lengthed bs)).
Proof.
  intros Hb ->. unfold lengthed. reads_next (cache_reads_u32 _ (fits_u32 _ Hb)). reads_next (cache_reads_bytes bs). by rewrite <- app_assoc.
Qed.

Lemma reads_credential x : credential_ok x → cache_reads read_credential (credential_block x) x.2.
Proof.
  destruct x as [k c]. cbn [fst snd]. intros (Hc & Hs & Het & Hk & H1 & H2 & H3 & H4 & Hsk & Htf & Ha & Hd & Ht & H2t) pre post.
  unfold read_credential, credential_block. rewrite (app_assoc (to_be 2 _)).
  reads_next (reads_principal _ Hc). reads_next (reads_principal _ Hs). reads_next (reads_keyblock _ _ Het Hk).
  reads_next (cache_reads_u32 _ H1). reads_next (cache_reads_u32 _ H2). reads_next (cache_reads_u32 _ H3). reads_next (cache_reads_u32 _ H4).
  reads_next (cache_reads_u8 _ Hsk). reads_next (cache_reads_u32 _ Htf).
  erewrite (entries_step (addresses k)); [|done|rewrite <- ?app_assoc; reflexivity].
  erewrite (entries_step (authdata k)); [|done|rewrite <- ?app_assoc; reflexivity].
  erewrite (lengthed_step (cc_ticket c)); [|done|rewrite <- ?app_assoc; reflexivity].
  erewrite (lengthed_step (second_ticket k)); [|done|rewrite <- ?app_assoc; reflexivity].
  destruct c. by rewrite <- !app_assoc.
Qed.

Lemma principal_nonempty p : (1 <= length (principal_block p))%nat.
Proof. unfold principal_block. rewrite length_app. unfold to_be at 1. rewrite length_rev, length_to_le. lia. Qed.

(** The credentials of the file, up to its end or to bytes that are not one. *)
Lemma credentials_back creds d pre rest acc fuel :
  Forall credential_ok creds → (length creds < fuel)%nat → d = pre ++ concat (map credential_block creds) ++ rest →
  (rest = [] ∨ ∃ e, read_credential d (len d - len rest) = Err e) →
  credentials_loop fuel d (len pre) acc = Ok (acc ++ creds.*2).
Proof.
  intros Hc. revert pre acc fuel. induction Hc as [|x creds Hx Hc IH]; intros pre acc [|fuel] Hf Hd Hrest; [lia| |lia|];
    cbn [length] in Hf; cbn [map concat] in Hd; cbn [credentials_loop fmap list_fmap].
  - rewrite app_nil_r. destruct Hrest as [-> |[e He]].
    + cbn [app] in Hd. rewrite Hd, app_nil_r, Z.ltb_irrefl. done.
    + replace (len d - len rest) with (len pre) in He by (rewrite Hd, !len_app; cbn [app]; rewrite ?len_nil; lia).
      rewrite He. by destruct (negb _).
  - assert (len pre < len d) as Hlt.
    { rewrite Hd, !len_app. pose proof (len_nonneg (concat (map credential_block creds))). pose proof (len_nonneg rest).
      destruct x as [k c]. unfold credential_block. rewrite len_app. set (z := len (_ ++ _)). assert (0 <= z) by apply len_nonneg.
      pose proof (principal_nonempty (cc_client c)). unfold len in *. lia. }
    rewrite (proj2 (Z.ltb_lt _ _)) by done. cbn [negb]. rewrite Hd at 1. rewrite <- app_assoc.
    rewrite (reads_credential x Hx pre). rewrite (IH (pre ++ credential_block x)); [by rewrite <- app_assoc|lia| |done].
    rewrite Hd. by rewrite <- !app_assoc.
Qed.

Lemma header_back version header d pre post :
  len header < 2 ^ 16 → d = pre ++ header_block version header ++ post →
  skip_header version d (len pre) = Ok (len (pre ++ header_block version header)).
Proof.
  intros Hh ->. unfold skip_header, header_block. destruct (version =? 0x0504); cbn [negb]; [|by rewrite app_nil_r].
  assert (is_u16 (len header)) as Hu by (unfold in_range; pose proof (len_nonneg header); lia).
  reads_next (cache_reads_u16 _ Hu). rewrite (proj2 (Z.ltb_ge _ _)).
  - f_equal. rewrite !len_app. lia.
  - rewrite !len_app. pose proof (len_nonneg post). lia.
Qed.

(** ** The theorems *)

(** The reader of credential caches never panics, on any bytes, and finishes; and it cache_reads
    back, credential by credential, a cache in the layout of version 4 (which it also expects
    of version 3): the principal, the keys, the times and the tickets are the ones written,
    whatever header, flags, addresses, authorisation data and second tickets are stored with
    them, and bytes at the end that are no credential do not lose the ones before them. *)
Theorem ccache_round_trip (garbage header : bytes) (version : Z) (principal : CcachePrincipal)
    (creds : list (Skipped * CcacheCredential)) (rest : bytes) :
  let file := ccache_block header version principal creds in
  version = 0x0503 ∨ version = 0x0504 → len header < 2 ^ 16 → principal_ok principal → Forall credential_ok creds →
  (rest = [] ∨ ∃ e, read_credential (file ++ rest) (len file) = Err e) →
  parse_ccache garbage ≠ Panic ∧
  parse_ccache (file ++ rest) = Ok (mkCCache version principal creds.*2).
Proof.
  intros file Hv Hh Hp Hc Hrest. split; [apply parse_ccache_safe|]. unfold parse_ccache.
  set (d := file ++ rest) in *. assert (d = [] ++ to_be 2 version ++ header_block version header ++ principal_block principal ++
    concat (map credential_block creds) ++ rest) as Hd by (unfold d, file, ccache_block; rewrite <- !app_assoc; reflexivity).
  assert (2 <= len d) as Hl.
  { rewrite Hd. cbn [app]. rewrite len_app, len_to_be. pose proof (len_nonneg (header_block version header ++ principal_block principal ++
      concat (map credential_block creds) ++ rest)). lia. }
  rewrite (proj2 (Z.ltb_ge _ _)) by done. change 0 with (len (@nil byte)) at 1.
  assert (is_u16 version) as Hu by (unfold in_range; destruct Hv; subst; lia).
  rewrite (reads_step (cache_reads_u16 version Hu) d [] _ _ Hd). cbn [app].
  assert (negb (version =? 0x0503) && negb (version =? 0x0504) = false) as -> by (destruct Hv as [-> | ->]; reflexivity). cbv iota.
  rewrite (header_back version header d (to_be 2 version) _ Hh Hd). rewrite bind_ok.
  erewrite (reads_step (reads_principal _ Hp)); [|rewrite Hd; cbn [app]; rewrite <- ?app_assoc; reflexivity].
  rewrite (credentials_back creds d _ rest [] (S (length d)) Hc); [done| |rewrite Hd; cbn [app]; rewrite <- ?app_assoc; reflexivity|].
  - pose proof (length_blocks credential_block creds) as Hb. rewrite Hd, !length_app. unshelve epose proof (Hb _).
    + intros [k c]. unfold credential_block. rewrite length_app. pose proof (principal_nonempty (cc_client c)). lia.
    + lia.
  - destruct Hrest as [Hr|[e He]]; [by left|right]. exists e. rewrite <- He. f_equal. unfold d. rewrite len_app. lia.
Qed.

Definition cache_client : CcachePrincipal := mkCcachePrincipal 1 (literal "EXAMPLE.COM") [literal "user"].
Definition sample_tgs : CcachePrincipal := mkCcachePrincipal 2 (literal "EXAMPLE.COM") [literal "krbtgt"; literal "EXAMPLE.COM"].
Definition sample_tgt : CcacheCredential :=
  mkCcacheCredential cache_client sample_tgs 18 (repeat xaa 32) 1744100000 1744100000 1744200000 0 [x61; x03; x30; x01; x00].
Definition sample_skipped : Skipped := mkSkipped 0 0x50800000 [(2, [x0a; x00; x00; x01])] [] [].

Lemma sample_client_ok : principal_ok cache_client.
Proof. split; [by vm_compute|]. split; [by vm_compute|]. by repeat constructor. Qed.
Lemma sample_tgt_ok : credential_ok (sample_skipped, sample_tgt).
Proof.
  split; [apply sample_client_ok|]. split; [split; [by vm_compute|]; split; [by vm_compute|]; by repeat constructor|].
  do 8 (split; [by vm_compute|]). split; [split; [by vm_compute|by repeat constructor]|]. split; [by split|]. by split.
Qed.

Lemma ccache_round_trip_witness :
  parse_ccache (ccache_block [x00; x01; x00; x00] 0x0504 cache_client [(sample_skipped, sample_tgt)] ++ [xff])
  = Ok (mkCCache 0x0504 cache_client [sample_tgt]).
Proof.
  apply (ccache_round_trip [] [x00; x01; x00; x00] 0x0504 cache_client [(sample_skipped, sample_tgt)] [xff]).
  - by right.
  - by vm_compute.
  - apply sample_client_ok.
  - constructor; [apply sample_tgt_ok|constructor].
  - right. eexists. vm_compute. reflexivity.
Defined.

(** A version 3 file stores the encryption type twice, which the reader does not expect: it takes
    the second one for half of the key's length, fails, and reports a cache without the ticket. *)
Definition v3_credential : bytes :=
  principal_block cache_client ++ principal_block sample_tgs ++ to_be 2 18 ++ to_be 2 18 ++ lengthed (repeat xaa 32) ++
  to_be 4 1744100000 ++ to_be 4 1744100000 ++ to_be 4 1744200000 ++ to_be 4 0 ++ to_be 1 0 ++ to_be 4 0x50800000 ++
  entries_block [] ++ entries_block [] ++ lengthed [x61; x03; x30; x01; x00] ++ lengthed [].
Example v3_ticket_is_lost :
  parse_ccache (to_be 2 0x0503 ++ principal_block cache_client ++ v3_credential) = Ok (mkCCache 0x0503 cache_client []).
Proof. vm_compute. reflexivity. Qed.

(** Lookups return the first credential that matches; host, service and realm without regard to
    ASCII case, the [krbtgt] of a TGT with it. *)
Example tgt_lookup :
  find_tgt (literal "example.com") (mkCCache 0x0504 cache_client [sample_tgt]) = Some sample_tgt ∧
  find_tgt (literal "other") (mkCCache 0x0504 cache_client [sample_tgt]) = None ∧
  find_service_ticket (literal "KRBTGT") (literal "Example.Com") (literal "EXAMPLE.com") (mkCCache 0x0504 cache_client [sample_tgt])
  = Some sample_tgt.
Proof. split_and!; vm_compute; reflexivity. Qed.
