(* ===== verification/KrbTime.v ===== *)
(** * Kerberos timestamps ([src/auth/kerberos/authenticator.rs])

    The conversion of the system clock to the UTC calendar and to GeneralizedTime, against
    the calendar counted year by year and month by month. *)

From S2P Require Import Prelude Types Fields Pack Utf8.

(** ** The conversion *)

(** [x as u32]. *)
Definition as_u32 (z : Z) : Z := z mod 2 ^ 32.

(** Year, month and day, from the days since 1970-01-01 (the source's [z], [era], [doe], [yoe], [doy] and [mp]). *)
Definition civil_from_days (days : Z) : Z * Z * Z :=
  let z := days + 719468 in
  let era := Z.quot (if 0 <=? z then z else z - 146096) 146097 in
  let doe := z - era * 146097 in
  let yoe := (doe - doe / 1460 + doe / 36524 - doe / 146096) / 365 in
  let y := yoe + era * 400 in
  let doy := doe - (365 * yoe + yoe / 4 - yoe / 100) in
  let mp := (5 * doy + 2) / 153 in
  let d := doy - (153 * mp + 2) / 5 + 1 in
  let m := if mp <? 10 then mp + 3 else mp - 9 in
  let y := if m <=? 2 then y + 1 else y in
  (y, m, d).

Definition secs_to_datetime (secs : Z) : Z * Z * Z * Z * Z * Z :=
  let days := secs / 86400 in
  let time_of_day := secs mod 86400 in
  let hour := time_of_day / 3600 in
  let minute := (time_of_day mod 3600) / 60 in
  let second := time_of_day mod 60 in
  let '(y, m, d) := civil_from_days days in
  (as_u32 y, as_u32 m, as_u32 d, hour, minute, second).

(** [format!("{:0w}", v)] of an unsigned integer of at most twenty digits. *)
Fixpoint decimal (fuel : nat) (v : Z) : list Z :=
  match fuel with
  | O => []
  | S fuel => (if v <? 10 then [] else decimal fuel (v / 10)) ++ [48 + v mod 10]
  end.
Definition padded (w : nat) (v : Z) : list Z :=
  let ds := decimal 20 v in replicate (w - length ds) 48 ++ ds.

(** [now] is the time since the epoch, in microseconds. *)
Definition current_kerberos_time (now : Z) : list Z * Z :=
  let total_secs := now / 1000000 in
  let usec := now mod 1000000 in
  let '(year, month, day, hour, minute, second) := secs_to_datetime total_secs in
  (padded 4 year ++ padded 2 month ++ padded 2 day ++ padded 2 hour ++ padded 2 minute ++ padded 2 second ++ literal "Z", usec).

(** ** The calendar *)

Definition is_leap (y : Z) : bool := (y mod 4 =? 0) && negb (y mod 100 =? 0) || (y mod 400 =? 0).
Definition year_len (y : Z) : Z := if is_leap y then 366 else 365.
Definition month_len (y m : Z) : Z :=
  if m =? 2 then (if is_leap y then 29 else 28)
  else if (m =? 4) || (m =? 6) || (m =? 9) || (m =? 11) then 30 else 31.

(** Days of the [n] years from 1970 on, and of the [n] first months of a year. *)
Fixpoint days_of_years (n : nat) : Z := match n with O => 0 | S n => days_of_years n + year_len (1970 + Z.of_nat n) end.
Fixpoint days_of_months (y : Z) (n : nat) : Z := match n with O => 0 | S n => days_of_months y n + month_len y (Z.of_nat (S n)) end.
Definition days_since_epoch (y m d : Z) : Z :=
  days_of_years (Z.to_nat (y - 1970)) + days_of_months y (Z.to_nat (m - 1)) + (d - 1).

(** ** Years *)

Lemma is_leap_div y : (if is_leap y then 1 else 0) = (y / 4 - (y - 1) / 4) - (y / 100 - (y - 1) / 100) + (y / 400 - (y - 1) / 400).
Proof.
  unfold is_leap. destruct (Z.eqb_spec (y mod 4) 0), (Z.eqb_spec (y mod 100) 0), (Z.eqb_spec (y mod 400) 0); cbn [andb negb orb];
    Z.to_euclidean_division_equations; lia.
Qed.

(** Days from the first of March of the year 0 to that of year [y]. *)
Definition march_days (y : Z) : Z := 365 * y + y / 4 - y / 100 + y / 400.

Lemma days_of_years_closed n : days_of_years n = march_days (1970 + Z.of_nat n - 1) + 306 - 719468.
Proof.
  induction n as [|n IH]; [by vm_compute|]. cbn [days_of_years]. rewrite IH. unfold march_days, year_len.
  replace (1970 + Z.of_nat (S n) - 1) with (1970 + Z.of_nat n) by lia.
  pose proof (is_leap_div (1970 + Z.of_nat n)). destruct (is_leap _); lia.
Qed.

(** Within an era of 400 years: the first day of a year that starts in March. *)
Definition year_start (yoe : Z) : Z := 365 * yoe + yoe / 4 - yoe / 100.
Definition year_of_era (doe : Z) : Z := (doe - doe / 1460 + doe / 36524 - doe / 146096) / 365.

Lemma year_of_era_step a : 0 <= a → year_of_era a <= year_of_era (a + 1).
Proof. intros Ha. unfold year_of_era. apply Z.div_le_mono; [lia|]. Z.to_euclidean_division_equations; lia. Qed.
Lemma year_of_era_mono a b : 0 <= a <= b → year_of_era a <= year_of_era b.
Proof.
  intros [Ha Hb]. replace b with (a + Z.of_nat (Z.to_nat (b - a))) by lia. generalize (Z.to_nat (b - a)) as n. clear b Hb.
  induction n as [|n IH]; [by rewrite Z.add_0_r|]. pose proof (year_of_era_step (a + Z.of_nat n) ltac:(lia)).
  replace (a + Z.of_nat (S n)) with (a + Z.of_nat n + 1) by lia. lia.
Qed.

(** The 400 years of an era, by evaluation at their first and last days. *)
Definition year_ok (y : nat) : bool :=
  let y := Z.of_nat y in
  let last := if y =? 399 then 146096 else year_start (y + 1) - 1 in
  (year_of_era (year_start y) =? y) && (year_of_era last =? y) && (last - year_start y <=? 365).
Lemma years_ok : forallb year_ok (seq 0 400) = true.
Proof. vm_compute. reflexivity. Qed.
Lemma year_ok_at y : 0 <= y < 400 → year_ok (Z.to_nat y) = true.
Proof. intros Hy. pose proof years_ok as Ho. rewrite forallb_forall in Ho. apply Ho, in_seq. lia. Qed.

Lemma year_of_era_range doe : 0 <= doe <= 146096 → 0 <= year_of_era doe < 400.
Proof.
  intros Hd. pose proof (year_of_era_mono 0 doe ltac:(lia)) as H1. pose proof (year_of_era_mono doe 146096 ltac:(lia)) as H2.
  change (year_of_era 0) with 0 in H1. change (year_of_era 146096) with 399 in H2. lia.
Qed.

Lemma year_of_era_spec doe :
  0 <= doe <= 146096 → let yoe := year_of_era doe in
  0 <= yoe < 400 ∧ 0 <= doe - year_start yoe <= 365 ∧ (yoe < 399 → doe < year_start (yoe + 1)).
Proof.
  intros Hd yoe. pose proof (year_of_era_range doe Hd) as Hy. fold yoe in Hy. split; [done|].
  pose proof (year_ok_at yoe Hy) as Ho. unfold year_ok in Ho. rewrite Z2Nat.id in Ho by lia. bool_prop.
  assert (year_start yoe <= doe) as Hlo.
  { destruct (Z.le_gt_cases (year_start yoe) doe) as [|Hgt]; [done|]. exfalso.
    destruct (Z.eq_dec yoe 0) as [E|Hne]; [rewrite E in Hgt; change (year_start 0) with 0 in Hgt; lia|].
    pose proof (year_ok_at (yoe - 1) ltac:(lia)) as Ho. unfold year_ok in Ho. rewrite Z2Nat.id in Ho by lia.
    replace (yoe - 1 =? 399) with false in Ho by lia. replace (yoe - 1 + 1) with yoe in Ho by lia. bool_prop.
    pose proof (year_of_era_mono doe (year_start yoe - 1) ltac:(lia)) as Hm. fold yoe in Hm. lia. }
  assert (yoe < 399 → doe < year_start (yoe + 1)) as Hhi.
  { intros Hlt. destruct (Z.lt_ge_cases doe (year_start (yoe + 1))) as [|Hge]; [done|]. exfalso.
    pose proof (year_ok_at (yoe + 1) ltac:(lia)) as Ho'. unfold year_ok in Ho'. rewrite Z2Nat.id in Ho' by lia. bool_prop.
    assert (0 <= year_start (yoe + 1)) by (unfold year_start; Z.to_euclidean_division_equations; lia).
    pose proof (year_of_era_mono (year_start (yoe + 1)) doe ltac:(lia)) as Hm. fold yoe in Hm. lia. }
  split; [|done]. destruct (Z.eqb_spec yoe 399) as [E|Hne]; [lia|]. specialize (Hhi ltac:(lia)). lia.
Qed.

(** ** Months *)

(** The same counts, from whether the year is a leap year. *)
Definition month_len_of (leap : bool) (m : Z) : Z :=
  if m =? 2 then (if leap then 29 else 28)
  else if (m =? 4) || (m =? 6) || (m =? 9) || (m =? 11) then 30 else 31.
Fixpoint days_of_months_of (leap : bool) (n : nat) : Z :=
  match n with O => 0 | S n => days_of_months_of leap n + month_len_of leap (Z.of_nat (S n)) end.
Lemma days_of_months_leap y n : days_of_months y n = days_of_months_of (is_leap y) n.
Proof. induction n as [|n IH]; [done|]. cbn [days_of_months days_of_months_of]. by rewrite IH. Qed.

(** Month and day of the days of a year that starts in March, by evaluation: [leap] says whether the
    calendar year the day falls into is a leap year; a 366th day exists only then. *)
Definition month_of (doy : Z) : Z := let mp := (5 * doy + 2) / 153 in if mp <? 10 then mp + 3 else mp - 9.
Definition day_of (doy : Z) : Z := let mp := (5 * doy + 2) / 153 in doy - (153 * mp + 2) / 5 + 1.
Definition doy_ok (leap : bool) (n : nat) : bool :=
  let doy := Z.of_nat n in
  let m := month_of doy in
  let d := day_of doy in
  (negb leap && (doy =? 365)) ||
  ((1 <=? m) && (m <=? 12) && (1 <=? d) && (d <=? month_len_of leap m) &&
   (days_of_months_of leap (Z.to_nat (m - 1)) + (d - 1)
    =? (if m <=? 2 then doy - 306 else doy + 59 + (if leap then 1 else 0)))).
Lemma doys_ok : forallb (λ n, doy_ok true n && doy_ok false n) (seq 0 366) = true.
Proof. vm_compute. reflexivity. Qed.

Lemma day_of_year leap doy :
  0 <= doy <= 365 → (doy = 365 → leap = true) →
  1 <= month_of doy <= 12 ∧ 1 <= day_of doy <= month_len_of leap (month_of doy) ∧
  days_of_months_of leap (Z.to_nat (month_of doy - 1)) + (day_of doy - 1)
  = (if month_of doy <=? 2 then doy - 306 else doy + 59 + (if leap then 1 else 0)).
Proof.
  intros Hd Hl. pose proof doys_ok as Ho. rewrite forallb_forall in Ho. specialize (Ho (Z.to_nat doy) ltac:(apply in_seq; lia)).
  apply andb_true_iff in Ho as [Ht Hf]. assert (doy_ok leap (Z.to_nat doy) = true) as Ho by by destruct leap. clear Ht Hf.
  unfold doy_ok in Ho. rewrite Z2Nat.id in Ho by lia. apply orb_true_iff in Ho as [Ho|Ho].
  - bool_prop. destruct leap; [done|]. by specialize (Hl ltac:(done)).
  - bool_prop. lia.
Qed.

(** ** The date *)

Lemma civil_from_days_spec days y m d :
  0 <= days → civil_from_days days = (y, m, d) →
  1970 <= y ∧ 1 <= m <= 12 ∧ 1 <= d <= month_len y m ∧ days_since_epoch y m d = days ∧ 365 * (y - 1970) <= days + 365.
Proof.
  intros Hdays. unfold civil_from_days. cbv zeta. set (z := days + 719468). rewrite (proj2 (Z.leb_le 0 z)) by lia.
  rewrite Z.quot_div_nonneg by lia. set (era := z / 146097). set (doe := z - era * 146097).
  assert (0 <= doe <= 146096) as Hdoe by (unfold doe, era; Z.to_euclidean_division_equations; lia).
  fold (year_of_era doe). set (yoe := year_of_era doe). fold (year_start yoe). set (doy := doe - year_start yoe).
  fold (month_of doy). fold (day_of doy). pose proof (year_of_era_spec doe Hdoe) as (Hyoe & Hdoy & Hnext). fold yoe doy in Hyoe, Hdoy, Hnext.
  set (y' := yoe + era * 400).
  assert (doy = 365 → is_leap (y' + 1) = true) as H365.
  { intros E. pose proof (is_leap_div (y' + 1)) as Hl. destruct (is_leap (y' + 1)); [done|]. exfalso. unfold y' in Hl.
    destruct (Z.eq_dec yoe 399) as [E399|Hne]; [rewrite E399 in Hl; Z.to_euclidean_division_equations; lia|].
    specialize (Hnext ltac:(lia)). unfold doy, year_start in *. Z.to_euclidean_division_equations; lia. }
  assert (march_days y' = era * 146097 + year_start yoe) as Hmarch
    by (unfold march_days, y', year_start; clear -Hyoe; Z.to_euclidean_division_equations; lia).
  assert (march_days y' + doy = z) as Hz by (unfold doy, doe in *; lia). clearbody doy.
  assert (month_of doy <= 2 ∨ 3 <= month_of doy ∧ doy <= 305) as Hsplit.
  { unfold month_of. cbv zeta. destruct (Z.ltb_spec ((5 * doy + 2) / 153) 10); [right|left]; Z.to_euclidean_division_equations; lia. }
  pose proof (is_leap_div y') as Hleap. destruct Hsplit as [Hm|[Hm H305]].
  - rewrite (proj2 (Z.leb_le _ 2)) by done. intros [= <- <- <-].
    destruct (day_of_year (is_leap (y' + 1)) doy Hdoy H365) as (H1 & H2 & H3). rewrite (proj2 (Z.leb_le _ 2)) in H3 by done.
    assert (1969 <= y') by (clear -Hz Hdoy Hdays; unfold march_days, z in *; Z.to_euclidean_division_equations; lia).
    split_and!; try lia; [apply H2| |].
    + unfold days_since_epoch. rewrite days_of_years_closed, days_of_months_leap.
      replace (1970 + Z.of_nat (Z.to_nat (y' + 1 - 1970)) - 1) with y' by lia. lia.
    + unfold march_days, z in *. Z.to_euclidean_division_equations; lia.
  - rewrite (proj2 (Z.leb_gt _ 2)) by lia. intros [= <- <- <-].
    destruct (day_of_year (is_leap y') doy Hdoy ltac:(lia)) as (H1 & H2 & H3). rewrite (proj2 (Z.leb_gt _ 2)) in H3 by lia.
    assert (1970 <= y') by (clear -Hz H305 Hdays; unfold march_days, z in *; Z.to_euclidean_division_equations; lia).
    split_and!; try lia; [apply H2| |].
    + unfold days_since_epoch. rewrite days_of_years_closed, days_of_months_leap.
      replace (1970 + Z.of_nat (Z.to_nat (y' - 1970)) - 1) with (y' - 1) by lia. unfold march_days in *. destruct (is_leap y'); lia.
    + unfold march_days, z in *. Z.to_euclidean_division_equations; lia.
Qed.

(** ** Digits *)

Definition decimal_value (ds : list Z) : Z := foldl (λ a c, a * 10 + (c - 48)) 0 ds.
Definition decimal_digit (c : Z) : Prop := 48 <= c <= 57.

Lemma decimal_value_app a b : decimal_value (a ++ b) = decimal_value a * 10 ^ len b + decimal_value b.
Proof.
  unfold decimal_value. rewrite foldl_app. generalize (foldl (λ a c, a * 10 + (c - 48)) 0 a) as v. clear a. intros v.
  assert (∀ v, foldl (λ a c, a * 10 + (c - 48)) v b = v * 10 ^ len b + foldl (λ a c, a * 10 + (c - 48)) 0 b) as Hv; [|apply Hv].
  clear v. induction b as [|c b IH]; intros v; [rewrite len_nil; cbn [foldl]; lia|]. cbn [foldl]. rewrite (IH (v * 10 + _)), (IH (0 * 10 + _)).
  rewrite len_cons, Z.pow_add_r by (try apply len_nonneg; lia). change (10 ^ 1) with 10. ring.
Qed.

Lemma decimal_spec w fuel v :
  (1 <= w <= fuel)%nat → 0 <= v < 10 ^ Z.of_nat w →
  (length (decimal fuel v) <= w)%nat ∧ decimal_value (decimal fuel v) = v ∧ Forall decimal_digit (decimal fuel v).
Proof.
  revert w v. induction fuel as [|fuel IH]; intros w v Hw Hv; [lia|]. cbn [decimal].
  assert (decimal_digit (48 + v mod 10)) as Hd by (unfold decimal_digit; Z.to_euclidean_division_equations; lia).
  destruct (Z.ltb_spec v 10).
  - cbn [app length]. rewrite Z.mod_small by lia. rewrite Z.mod_small in Hd by lia. split; [lia|]. split; [unfold decimal_value; cbn [foldl]; lia|by apply Forall_singleton].
  - destruct w as [|[|w]]; [lia|change (10 ^ Z.of_nat 1) with 10 in Hv; lia|].
    assert (10 ^ Z.of_nat (S (S w)) = 10 * 10 ^ Z.of_nat (S w)) as E by (rewrite <- Z.pow_succ_r by lia; f_equal; lia).
    destruct (IH (S w) (v / 10) ltac:(lia)) as (H1 & H2 & H3); [Z.to_euclidean_division_equations; lia|].
    rewrite length_app. split; [cbn [length]; lia|]. split.
    + rewrite decimal_value_app, H2. unfold decimal_value. cbn [foldl]. change (len [48 + v mod 10]) with 1. Z.to_euclidean_division_equations; lia.
    + apply Forall_app. by split; [|apply Forall_singleton].
Qed.

Lemma padded_spec w v :
  (1 <= w <= 20)%nat → 0 <= v < 10 ^ Z.of_nat w →
  length (padded w v) = w ∧ decimal_value (padded w v) = v ∧ Forall decimal_digit (padded w v).
Proof.
  intros Hw Hv. destruct (decimal_spec w 20 v Hw Hv) as (H1 & H2 & H3). unfold padded. cbv zeta.
  rewrite length_app, length_replicate. split; [lia|]. split.
  - rewrite decimal_value_app, H2. generalize (w - length (decimal 20 v))%nat as n. intros n.
    assert (decimal_value (replicate n 48) = 0) as ->; [|lia]. unfold decimal_value. induction n; [done|]. done.
  - apply Forall_app. split; [|done]. apply Forall_replicate. unfold decimal_digit. lia.
Qed.

Lemma length_two (l : list Z) : length l = 2%nat → ∃ a b, l = [a; b].
Proof. destruct l as [|a [|b [|]]]; try done. intros _. by exists a, b. Qed.

(** The date and the time of day that a clock reading stands for. *)
Lemma datetime_spec secs :
  0 <= secs < 2 ^ 56 →
  let '(y, m, d, hour, minute, second) := secs_to_datetime secs in
  1970 <= y ∧ 1 <= m <= 12 ∧ 1 <= d <= month_len y m ∧ 0 <= hour < 24 ∧ 0 <= minute < 60 ∧ 0 <= second < 60 ∧
  secs = 86400 * days_since_epoch y m d + 3600 * hour + 60 * minute + second.
Proof.
  intros Hs. unfold secs_to_datetime. cbv zeta. destruct (civil_from_days (secs / 86400)) as [[y m] d] eqn:E.
  apply civil_from_days_spec in E as (Hy & Hm & Hd & He & Hb); [|Z.to_euclidean_division_equations; lia].
  assert (month_len y m <= 31) by (unfold month_len; repeat case_match; lia).
  assert (secs / 86400 < 2 ^ 40) by (Z.to_euclidean_division_equations; lia).
  unfold as_u32. rewrite (Z.mod_small y), (Z.mod_small m), (Z.mod_small d) by lia.
  rewrite He. clear -Hs Hy Hm Hd. split_and!; try lia; Z.to_euclidean_division_equations; lia.
Qed.

(** Before the year 10000. *)
Lemma year_bound y m d secs r :
  1970 <= y → 1 <= m <= 12 → 1 <= d → 0 <= r → secs = 86400 * days_since_epoch y m d + r → secs < 253402300800 → y <= 9999.
Proof.
  intros Hy Hm Hd Hr -> Hs. destruct (Z.le_gt_cases y 9999) as [|Hgt]; [done|]. exfalso.
  assert (0 <= days_of_months y (Z.to_nat (m - 1))).
  { generalize (Z.to_nat (m - 1)) as n. induction n as [|n IH]; [done|]. cbn [days_of_months]. unfold month_len. repeat case_match; lia. }
  unfold days_since_epoch in Hs. rewrite days_of_years_closed in Hs.
  replace (1970 + Z.of_nat (Z.to_nat (y - 1970)) - 1) with (y - 1) in Hs by lia. unfold march_days in Hs.
  Z.to_euclidean_division_equations; lia.
Qed.

(** ** The theorem *)

(** The clock as a Kerberos server reads it.  For every time from 1970 to the end of the year
    9999, [current_kerberos_time] is fourteen digits and a [Z] that name an existing date of the
    Gregorian calendar and a time of day, and the seconds since 1970-01-01, counted year by year and
    month by month with leap years, of that date and time are exactly the clock's; the
    microseconds are the rest. *)
Theorem kerberos_time_exact (now : Z) :
  0 <= now < 253402300800 * 1000000 →
  let '(time, usec) := current_kerberos_time now in
  let field a b := decimal_value (take (b - a) (drop a time)) in
  let '(y, m, d, hour, minute, second) := (field 0 4, field 4 6, field 6 8, field 8 10, field 10 12, field 12 14)%nat in
  Forall decimal_digit (take 14 time) ∧ drop 14 time = literal "Z" ∧
  1970 <= y <= 9999 ∧ 1 <= m <= 12 ∧ 1 <= d <= month_len y m ∧
  0 <= hour < 24 ∧ 0 <= minute < 60 ∧ 0 <= second < 60 ∧ 0 <= usec < 1000000 ∧
  now = (86400 * days_since_epoch y m d + 3600 * hour + 60 * minute + second) * 1000000 + usec.
Proof.
  intros Hn. unfold current_kerberos_time. cbv zeta. set (secs := now / 1000000).
  assert (0 <= secs < 253402300800) as Hs by (unfold secs; Z.to_euclidean_division_equations; lia).
  pose proof (datetime_spec secs ltac:(lia)) as Hd. destruct (secs_to_datetime secs) as [[[[[y m] d] h] mi] s].
  destruct Hd as (Hy & Hm & Hdd & Hh & Hmi & Hse & E).
  pose proof (year_bound y m d secs (3600 * h + 60 * mi + s) Hy Hm ltac:(lia) ltac:(lia) ltac:(lia) ltac:(lia)) as Hy'.
  assert (month_len y m <= 31) by (unfold month_len; repeat case_match; lia).
  destruct (padded_spec 4 y ltac:(lia)) as (L1 & V1 & D1); [change (10 ^ Z.of_nat 4) with 10000; lia|].
  destruct (padded_spec 2 m ltac:(lia)) as (L2 & V2 & D2); [change (10 ^ Z.of_nat 2) with 100; lia|].
  destruct (padded_spec 2 d ltac:(lia)) as (L3 & V3 & D3); [change (10 ^ Z.of_nat 2) with 100; lia|].
  destruct (padded_spec 2 h ltac:(lia)) as (L4 & V4 & D4); [change (10 ^ Z.of_nat 2) with 100; lia|].
  destruct (padded_spec 2 mi ltac:(lia)) as (L5 & V5 & D5); [change (10 ^ Z.of_nat 2) with 100; lia|].
  destruct (padded_spec 2 s ltac:(lia)) as (L6 & V6 & D6); [change (10 ^ Z.of_nat 2) with 100; lia|].
  destruct (length_two _ L2) as (c1 & c2 & E2), (length_two _ L3) as (d1 & d2 & E3), (length_two _ L4) as (e1 & e2 & E4),
    (length_two _ L5) as (f1 & f2 & E5), (length_two _ L6) as (g1 & g2 & E6).
  destruct (padded 4 y) as [|a1 [|a2 [|a3 [|a4 [|]]]]]; try discriminate L1.
  rewrite E2 in V2, D2; rewrite E3 in V3, D3; rewrite E4 in V4, D4; rewrite E5 in V5, D5; rewrite E6 in V6, D6.
  rewrite E2, E3, E4, E5, E6. cbn [app Nat.sub take drop]. change (take 0 (literal "Z")) with (@nil Z). rewrite V1, V2, V3, V4, V5, V6.
  split.
  { change [a1; a2; a3; a4; c1; c2; d1; d2; e1; e2; f1; f2; g1; g2] with
      ([a1; a2; a3; a4] ++ [c1; c2] ++ [d1; d2] ++ [e1; e2] ++ [f1; f2] ++ [g1; g2]). by repeat apply Forall_app_2. }
  split; [done|]. split_and!; try lia; unfold secs in *; Z.to_euclidean_division_equations; lia.
Qed.

Lemma kerberos_time_exact_witness :
  current_kerberos_time 1709210096123456 = (literal "20240229123456Z", 123456) ∧ 
  1709210096123456 = (86400 * days_since_epoch 2024 2 29 + 3600 * 12 + 60 * 34 + 56) * 1000000 + 123456.
Proof.
  pose proof (kerberos_time_exact 1709210096123456 ltac:(lia)) as H.
  assert (current_kerberos_time 1709210096123456 = (literal "20240229123456Z", 123456)) as E by (vm_compute; reflexivity).
  rewrite E in H. split; [exact E|]. apply H.
Defined.
