(* ===== verification/Kdc.v ===== *)
(** * The transport to a KDC ([src/auth/kerberos/kdc.rs])

    UDP with three attempts, then TCP with three attempts; and the small DER scanner that
    recognises KRB_ERR_RESPONSE_TOO_BIG.  What the network does is a parameter: the net_outcome of
    each operation of each attempt.  What the client does is returned with the result, as the list
    of its sleeps, datagrams and connections. *)

From S2P Require Import Prelude Types Fields Pack Utf8 Spnego KrbCrypto KrbFold KrbMessages KrbWire.

Definition KERBEROS_PORT : list Z := literal "88".
Definition UDP_MAX_SIZE : Z := 65535.
Definition KRB_ERR_RESPONSE_TOO_BIG : Z := 52.
Definition MAX_KDC_FRAME_SIZE : Z := 1024 * 1024.
Definition MAX_RETRIES : nat := 3.
(** Seconds. *)
Definition RETRY_BASE_DELAY : Z := 1.

Record KdcConfig := mkKdcConfig { kdc_host : list Z; kdc_timeout : Z }.

Definition resolve_address (address : list Z) : list Z :=
  if bool_decide (58 ∈ address) then address else address ++ literal ":" ++ KERBEROS_PORT.

(** ** The scanner

    [Err ()] is the source's [None]. *)

Definition at_index (data : bytes) (pos : Z) : result unit Z := b ← slice data pos (pos + 1); Ok (of_be b).

(** [for i in 0..num_bytes]: the length's bytes, most significant first. *)
Fixpoint length_bytes (n : nat) (data : bytes) (pos length : Z) : result unit Z :=
  match n with
  | O => Ok length
  | S n => b ← at_index data pos; length_bytes n data (pos + 1) (Z.lor (Z.shiftl length 8) b)
  end.

(** The length and the position after it. *)
Definition read_der_length (data : bytes) (pos : Z) : result unit (Z * Z) :=
  if len data <=? pos then Err () else
  first ← at_index data pos;
  match first ?= 0x80 with
  | Lt => Ok (first, pos + 1)
  | Eq => Err ()
  | Gt =>
      let num_bytes := Z.land first 0x7f in
      if (4 <? num_bytes) || (len data <? pos + 1 + num_bytes) then Err () else
      length ← length_bytes (Z.to_nat num_bytes) data (pos + 1) 0;
      Ok (length, pos + 1 + num_bytes)
  end.

Definition skip_der_length (data : bytes) (pos : Z) : result unit Z :=
  '(_, new_pos) ← read_der_length data pos;
  Ok new_pos.

(** kdc.rs's own [parse_der_integer]. *)
Definition kdc_der_integer (data : bytes) (pos : Z) : result unit Z :=
  if len data <=? pos then Err () else
  tag ← at_index data pos;
  if negb (tag =? 0x02) then Err () else
  '(length, val_pos) ← read_der_length data (pos + 1);
  if (len data <? val_pos + length) || (length =? 0) || (4 <? length) then Err () else
  length_bytes (Z.to_nat length) data val_pos 0.

Fixpoint error_code_loop (fuel : nat) (data : bytes) (pos : Z) : result unit Z :=
  match fuel with
  | O => Panic
  | S fuel =>
      if len data <=? pos then Err () else
      tag ← at_index data pos;
      if negb (Z.land tag 0xe0 =? 0xa0) then Err () else
      let tag_num := Z.land tag 0x1f in
      '(field_len, new_pos) ← read_der_length data (pos + 1);
      let field_end := new_pos + field_len in
      if tag_num =? 6 then kdc_der_integer data new_pos
      else error_code_loop fuel data field_end
  end.

Definition extract_krb_error_code (data : bytes) : result unit Z :=
  if len data <=? 0 then Err () else
  tag ← at_index data 0;
  if negb (tag =? 0x7e) then Err () else
  pos ← skip_der_length data 1;
  if len data <=? pos then Err () else
  tag ← at_index data pos;
  if negb (tag =? 0x30) then Err () else
  pos ← skip_der_length data (pos + 1);
  error_code_loop (S (length data)) data pos.

(** Whether the scan panicked is an net_outcome of its own. *)
Definition is_response_too_big (response : bytes) : result unit bool :=
  if is_empty response then Ok false else
  first ← at_index response 0;
  if negb (first =? 0x7e) then Ok false else
  match extract_krb_error_code response with
  | Ok code => Ok (code =? KRB_ERR_RESPONSE_TOO_BIG)
  | Err _ => Ok false
  | Panic => Panic
  end.

(** ** The network *)

(** An operation under [tokio::time::timeout]. *)
Inductive net_outcome (A : Type) := Done (a : A) | Failed (what : string) | TimedOut.
Arguments Done {A} _.
Arguments Failed {A} _.
Arguments TimedOut {A}.

Definition net_outcome_error {A} (o : net_outcome A) : option Error :=
  match o with Done _ => None | Failed what => Some (Io what) | TimedOut => Some Timeout end.

(** How the bytes a peer sends end: it closes, the connection breaks, or nothing more comes. *)
Inductive stream_end := Closed | Broken (what : string) | Stalls.

Record TcpPeer := mkTcpPeer {
  peer_connect : net_outcome unit; peer_nodelay : option string; peer_write : net_outcome unit;
  peer_sends : bytes; peer_end : stream_end
}.

(** By attempt. *)
Record KdcNetwork := mkKdcNetwork {
  udp_bind : option string; udp_send : nat → net_outcome unit; udp_recv : nat → net_outcome bytes; tcp_peer : nat → TcpPeer
}.

(** A connection carries the request when it could be written in full. *)
Inductive kdc_event :=
| Sleep (seconds : Z)
| Datagram (payload : bytes)
| Connection (written : option bytes).

(** The delay before an attempt but the first. *)
Definition backoff (attempt : nat) : list kdc_event :=
  match attempt with O => [] | S n => [Sleep (RETRY_BASE_DELAY * 2 ^ Z.of_nat n)] end.

Definition last_error (last_err : option Error) : Error := default Timeout last_err.

Section network.
Variable net : KdcNetwork.
Variable message : bytes.

(** [for attempt in 0..MAX_RETRIES], from [attempt] with [more] attempts to go. *)
Fixpoint udp_attempts (more attempt : nat) (last_err : option Error) : result Error bytes * list kdc_event :=
  match more with
  | O => (Err (last_error last_err), [])
  | S more =>
      let '(r, evs) :=
        match udp_send net attempt with
        | Done _ =>
            match udp_recv net attempt with
            | Done buf => (Ok (take (Z.to_nat UDP_MAX_SIZE) buf), [])
            | o => udp_attempts more (S attempt) (net_outcome_error o)
            end
        | o => udp_attempts more (S attempt) (net_outcome_error o)
        end in
      (r, backoff attempt ++ [Datagram message] ++ evs)
  end.

Definition send_udp : result Error bytes * list kdc_event :=
  match udp_bind net with
  | Some what => (Err (Io what), [])
  | None => udp_attempts MAX_RETRIES 0 None
  end.

(** [stream.read_exact] of [n] bytes, under the timeout: what is read and what is more. *)
Definition read_exact (n : Z) (p : bytes * stream_end) : result Error (bytes * (bytes * stream_end)) :=
  let '(sent, fin) := p in
  if n <=? len sent then Ok (take (Z.to_nat n) sent, (drop (Z.to_nat n) sent, fin))
  else match fin with
       | Closed => Err Disconnected
       | Broken what => Err (Io what)
       | Stalls => Err Timeout
       end.

Definition send_tcp_once (peer : TcpPeer) : result Error bytes * list kdc_event :=
  match net_outcome_error (peer_connect peer) with
  | Some e => (Err e, [Connection None])
  | None =>
  match peer_nodelay peer with
  | Some what => (Err (Io what), [Connection None])
  | None =>
  match net_outcome_error (peer_write peer) with
  | Some e => (Err e, [Connection None])
  | None =>
      ('(len_buf, rest) ← read_exact 4 (peer_sends peer, peer_end peer);
       let resp_len := of_be len_buf in
       if MAX_KDC_FRAME_SIZE <? resp_len
       then Err (invalid_data "KDC TCP response length {resp_len} exceeds maximum {max}") else
       '(buf, _) ← read_exact resp_len rest;
       Ok buf,
       [Connection (Some (to_be 4 (len message) ++ message))])
  end end end.

Fixpoint tcp_attempts (more attempt : nat) (last_err : option Error) : result Error bytes * list kdc_event :=
  match more with
  | O => (Err (last_error last_err), [])
  | S more =>
      let '(r, evs) := send_tcp_once (tcp_peer net attempt) in
      let '(r', evs') :=
        match r with
        | Ok response => (Ok response, [])
        | Err e => tcp_attempts more (S attempt) (Some e)
        | Panic => (Panic, [])
        end in
      (r', backoff attempt ++ evs ++ evs')
  end.

Definition send_tcp : result Error bytes * list kdc_event := tcp_attempts MAX_RETRIES 0 None.

Definition send_to_kdc : result Error bytes * list kdc_event :=
  let '(r, evs) := send_udp in
  match r with
  | Ok response =>
      match is_response_too_big response with
      | Ok true => let '(r', evs') := send_tcp in (r', evs ++ evs')
      | Ok false => (Ok response, evs)
      | _ => (Panic, evs)
      end
  | Err e => let '(r', evs') := send_tcp in (r', evs ++ evs')
  | Panic => (Panic, evs)
  end.
End network.

(** DNS SRV discovery is a placeholder. *)
Definition discover_kdc (realm : list Z) : list (list Z) := [].

(** ** The scanner is safe *)

Lemma at_index_ok data i : 0 <= i < len data → ∃ v, at_index data i = Ok v ∧ is_u8 v.
Proof.
  intros Hi. unfold at_index. rewrite slice_ok by lia. eexists. split; [done|]. pose proof (of_be_bound (subslice data i (i + 1))) as Hb.
  rewrite len_subslice in Hb by lia. replace (i + 1 - i) with 1 in Hb by lia. change (256 ^ 1) with (2 ^ 8) in Hb. done.
Qed.
Ltac index v H := match goal with |- context [at_index ?d ?i] =>
  let E := fresh in destruct (at_index_ok d i) as (v & E & H); [lia|rewrite E, bind_ok; clear E; unfold in_range in H] end.

Lemma length_bytes_ok n data pos acc :
  0 <= pos → pos + Z.of_nat n <= len data → 0 <= acc → ∃ v, length_bytes n data pos acc = Ok v ∧ 0 <= v.
Proof.
  revert pos acc. induction n as [|n IH]; intros pos acc Hp Hl Ha; [by exists acc|]. cbn [length_bytes]. index b Hb.
  apply IH; [lia|lia|]. apply Z.lor_nonneg. rewrite Z.shiftl_nonneg. lia.
Qed.

Lemma read_der_length_safe data pos :
  0 <= pos → match read_der_length data pos with Ok (n, q) => 0 <= n ∧ pos < q <= len data | Err _ => True | Panic => False end.
Proof.
  intros Hp. unfold read_der_length. case_test; [done|]. bool_prop. index b0 Hf. destruct (b0 ?= 0x80); [done|cbn; lia|].
  case_test; [done|]. bool_prop. assert (0 <= Z.land b0 127) by (apply Z.land_nonneg; lia).
  destruct (length_bytes_ok (Z.to_nat (Z.land b0 127)) data (pos + 1) 0) as (v & -> & Hv); [lia..|]. rewrite bind_ok. cbv zeta. lia.
Qed.
Ltac der_length n q H := match goal with |- context [read_der_length ?d ?i] =>
  let E := fresh in pose proof (read_der_length_safe d i ltac:(lia)) as H;
  destruct (read_der_length d i) as [[n q]|E|]; [rewrite bind_ok|done|done] end.

Lemma kdc_der_integer_safe data pos : 0 <= pos → kdc_der_integer data pos ≠ Panic.
Proof.
  intros Hp. unfold kdc_der_integer. case_test; [done|]. bool_prop. index tag Ht. case_test; [done|]. der_length n q H.
  case_test; [done|]. bool_prop. destruct (length_bytes_ok (Z.to_nat n) data q 0) as (v & -> & _); [lia..|done].
Qed.

Lemma error_code_loop_safe fuel data pos :
  0 <= pos → Z.max 0 (len data - pos) < Z.of_nat fuel → error_code_loop fuel data pos ≠ Panic.
Proof.
  revert pos. induction fuel as [|fuel IH]; intros pos Hp Hf; [lia|]. cbn [error_code_loop]. case_test; [done|]. bool_prop.
  index tag Ht. case_test; [done|]. cbv zeta. der_length n q H. case_test; [apply kdc_der_integer_safe; lia|apply IH; lia].
Qed.

Lemma extract_safe data : extract_krb_error_code data ≠ Panic.
Proof.
  unfold extract_krb_error_code, skip_der_length. case_test; [done|]. bool_prop. index t Ht. case_test; [done|]. der_length n q H.
  rewrite bind_ok. case_test; [done|]. bool_prop. index t' Ht'. case_test; [done|]. der_length n' q' H'. rewrite bind_ok.
  apply error_code_loop_safe; unfold len in *; lia.
Qed.

Lemma too_big_total response : ∃ b, is_response_too_big response = Ok b.
Proof.
  unfold is_response_too_big. destruct response as [|x l] eqn:E; [by eexists|]. cbn [is_empty]. rewrite <- E.
  assert (0 < len response) by (rewrite E, len_cons; pose proof (len_nonneg l); lia). index f Hf.
  case_test; [by eexists|]. pose proof (extract_safe response). destruct (extract_krb_error_code response); [by eexists|by eexists|done].
Qed.

(** ** The scanner is exact on what a KDC sends *)

Lemma at_index_app pre b post d : d = pre ++ [b] ++ post → at_index d (len pre) = Ok (u8_of_byte b).
Proof.
  intros ->. unfold at_index. pose proof (len_nonneg pre). pose proof (len_nonneg post).
  rewrite slice_ok by (rewrite ?len_app; unfold len; cbn [length]; lia). rewrite bind_ok, subslice_app by done.
  f_equal. rewrite of_be_cons. change (of_be []) with 0. rewrite len_nil, Z.pow_0_r. lia.
Qed.

Lemma length_bytes_back bs d pre post acc :
  d = pre ++ bs ++ post → 0 <= acc → length_bytes (length bs) d (len pre) acc = Ok (acc * 256 ^ len bs + of_be bs).
Proof.
  revert pre acc. induction bs as [|b bs IH]; intros pre acc Hd Ha; [rewrite len_nil; cbn [length length_bytes]; change (of_be []) with 0; f_equal; lia|].
  cbn [length length_bytes]. rewrite (at_index_app pre b (bs ++ post) d Hd), bind_ok. pose proof (u8_of_byte_range b) as Hb. unfold in_range in Hb.
  change (len pre + 1) with (len pre + len [b]). rewrite <- len_app. rewrite Z.shiftl_mul_pow2 by lia. change (2 ^ 8) with 256.
  rewrite Z.lor_comm, lor_bytes by lia. rewrite IH by (rewrite <- ?app_assoc; done || lia). f_equal.
  rewrite of_be_cons, len_cons, Z.pow_add_r by (try apply len_nonneg; lia). change (256 ^ 1) with 256. ring.
Qed.

(** The long form, with up to four length bytes. *)
Lemma long_form_back (bs : bytes) d pre post :
  1 <= len bs <= 4 → d = pre ++ (byte_of_u8 (0x80 + len bs) :: bs) ++ post →
  read_der_length d (len pre) = Ok (of_be bs, len pre + 1 + len bs).
Proof.
  intros Hb Hd. unfold read_der_length. pose proof (len_nonneg pre). pose proof (len_nonneg post).
  assert (len d = len pre + 1 + len bs + len post) as Hl by (rewrite Hd, !len_app, len_cons; lia).
  rewrite (proj2 (Z.leb_gt _ _)) by lia. rewrite (at_index_app pre (byte_of_u8 (0x80 + len bs)) (bs ++ post) d Hd).
  rewrite bind_ok, u8_of_byte_of_u8, Z.mod_small by lia. rewrite (proj2 (Z.compare_gt_iff _ _)) by lia.
  assert (Z.land (0x80 + len bs) 0x7f = len bs) as ->.
  { assert (len bs = 1 ∨ len bs = 2 ∨ len bs = 3 ∨ len bs = 4) as Hc by lia. by destruct Hc as [-> |[-> |[-> | ->]]]. }
  cbv zeta. rewrite (proj2 (Z.ltb_ge 4 _)), (proj2 (Z.ltb_ge (len d) _)) by lia. cbn [orb].
  assert (Z.to_nat (len bs) = length bs) as -> by (unfold len; lia).
  replace (len pre + 1) with (len (pre ++ [byte_of_u8 (0x80 + len bs)])) by (rewrite len_app; done).
  rewrite (length_bytes_back bs d _ post 0) by (rewrite <- ?app_assoc; done || lia). by rewrite bind_ok, len_app.
Qed.

Lemma read_der_length_back n d pre post :
  0 <= n < 65536 → d = pre ++ der_length n ++ post → read_der_length d (len pre) = Ok (n, len (pre ++ der_length n)).
Proof.
  intros Hn Hd. pose proof (len_nonneg pre). pose proof (len_nonneg post). unfold der_length in *.
  destruct (Z.ltb_spec n 128); [|destruct (Z.ltb_spec n 256)].
  - unfold read_der_length. assert (len pre < len d) by (rewrite Hd, !len_app; unfold len at 3; cbn [length]; lia).
    rewrite (proj2 (Z.leb_gt _ _)) by lia.
    rewrite (at_index_app pre (byte_of_u8 n) post d Hd), bind_ok, u8_of_byte_of_u8, Z.mod_small by lia.
    rewrite (proj2 (Z.compare_lt_iff _ _)) by lia. by rewrite len_app.
  - rewrite (long_form_back [byte_of_u8 n] d pre post); [|by unfold len|done].
    rewrite of_be_cons, u8_of_byte_of_u8, Z.mod_small by lia. change (of_be []) with 0. rewrite len_nil, len_app.
    unfold len at 2 4. cbn [length]. do 2 f_equal; lia.
  - rewrite (long_form_back [byte_of_u8 (Z.shiftr n 8); byte_of_u8 (Z.land n 255)] d pre post); [|by unfold len|done].
    rewrite !of_be_cons, !u8_of_byte_of_u8. change (of_be []) with 0. rewrite Z.shiftr_div_pow2 by lia.
    change 255 with (Z.ones 8). rewrite Z.land_ones by lia. change (2 ^ 8) with 256. rewrite len_app. unfold len at 1 2 4 6. cbn [length].
    change (256 ^ Z.of_nat 1) with 256. change (256 ^ Z.of_nat 0) with 1. do 2 f_equal; [|lia]. Z.to_euclidean_division_equations; lia.
Qed.

(** A field before the error code is skipped. *)
Lemma skip_field k v fuel d pre post :
  0 <= k < 32 → k ≠ 6 → small v → d = pre ++ der_context k v ++ post →
  error_code_loop (S fuel) d (len pre) = error_code_loop fuel d (len (pre ++ der_context k v)).
Proof.
  intros Hk Hne Hv Hd. unfold der_context, der_tlv in *. fold (context_tag k) in *. destruct (context_tag_spec k Hk) as (Hu & He & Hn).
  cbn [error_code_loop]. pose proof (len_nonneg pre). pose proof (len_nonneg post). pose proof (len_nonneg v). pose proof (len_der_length (len v)).
  assert (len pre < len d) by (rewrite Hd, !len_app; unfold len at 3; cbn [length]; lia).
  rewrite (proj2 (Z.leb_gt _ _)) by lia. rewrite <- !app_assoc in Hd.
  rewrite (at_index_app pre _ _ d Hd), bind_ok, u8_of_byte_of_u8. unfold in_range in Hu. rewrite Z.mod_small by lia. rewrite He, Hn. cbn [Z.eqb Pos.eqb negb].
  change (len pre + 1) with (len pre + len [byte_of_u8 (context_tag k)]). rewrite <- len_app.
  rewrite (read_der_length_back (len v) d (pre ++ [byte_of_u8 (context_tag k)]) (v ++ post)); [|unfold small in Hv; lia|by rewrite Hd, <- !app_assoc].
  rewrite bind_ok. rewrite (proj2 (Z.eqb_neq k 6)) by done. f_equal. rewrite !len_app. lia.
Qed.

Lemma skip_fields (l : list (Z * bytes)) fuel d pre post :
  Forall (λ p, 0 <= p.1 < 32 ∧ p.1 ≠ 6 ∧ small p.2) l → d = pre ++ concat (contexts l) ++ post →
  error_code_loop (length l + fuel) d (len pre) = error_code_loop fuel d (len (pre ++ concat (contexts l))).
Proof.
  intros Hl. revert pre. induction Hl as [|[k v] l (Hk & Hne & Hv) Hl IH]; intros pre Hd; cbn [contexts map concat length Nat.add fst snd] in *;
    [by rewrite app_nil_r|].
  rewrite (skip_field k v _ d pre (concat (contexts l) ++ post)) by (done || by rewrite Hd, <- !app_assoc).
  rewrite IH by (by rewrite Hd, <- !app_assoc). by rewrite <- app_assoc.
Qed.

(** The field with the error code: its bytes, as an unsigned number. *)
Lemma code_field code fuel d pre post :
  - 2 ^ 31 <= code < 2 ^ 31 → d = pre ++ der_context 6 (der_integer code) ++ post →
  error_code_loop (S fuel) d (len pre) = Ok (of_be (integer_body code)).
Proof.
  intros Hc Hd. destruct (integer_body_spec code Hc) as (Hne & Hl & _). unfold der_integer in Hd. cbv zeta in Hd. fold (integer_body code) in Hd.
  set (body := integer_body code) in *. clearbody body. assert (len body ≠ 0) by (destruct body; [done|unfold len; cbn [length]; lia]).
  unfold der_context, der_tlv in Hd. rewrite <- !app_assoc in Hd. pose proof (len_nonneg pre). pose proof (len_nonneg post). pose proof (len_nonneg body).
  set (inner := [byte_of_u8 TAG_INTEGER] ++ der_length (len body) ++ body) in *.
  assert (len inner = 1 + len (der_length (len body)) + len body) as Hi by (unfold inner; rewrite !len_app; unfold len at 1; cbn [length]; lia).
  pose proof (len_der_length (len body)).
  cbn [error_code_loop]. change (Z.lor 160 6) with 0xa6 in *.
  assert (len pre < len d) by (rewrite Hd, !len_app; change (len [byte_of_u8 0xa6]) with 1; change (len [byte_of_u8 TAG_INTEGER]) with 1; pose proof (len_nonneg (der_length (len inner))); lia).
  rewrite (proj2 (Z.leb_gt _ _)) by lia. rewrite (at_index_app pre _ _ d Hd), bind_ok. change (u8_of_byte (byte_of_u8 0xa6)) with 0xa6.
  change (Z.land 0xa6 0xe0 =? 0xa0) with true. change (Z.land 0xa6 0x1f =? 6) with true. cbn [negb].
  change (len pre + 1) with (len pre + len [byte_of_u8 0xa6]). rewrite <- len_app. set (pre1 := pre ++ [byte_of_u8 0xa6]).
  rewrite (read_der_length_back (len inner) d pre1 (inner ++ post)); [|lia|unfold pre1, inner; by rewrite Hd, <- !app_assoc].
  rewrite bind_ok. cbv iota zeta. set (pre2 := pre1 ++ der_length (len inner)).
  assert (d = pre2 ++ [byte_of_u8 TAG_INTEGER] ++ der_length (len body) ++ body ++ post) as Hd2.
  { unfold pre2, pre1. rewrite Hd. by rewrite <- !app_assoc. }
  unfold kdc_der_integer. assert (len d = len pre2 + 1 + len (der_length (len body)) + len body + len post) as Hld.
  { rewrite Hd2, !len_app. change (len [byte_of_u8 TAG_INTEGER]) with 1. lia. }
  pose proof (len_nonneg pre2). rewrite (proj2 (Z.leb_gt _ _)) by lia. rewrite (at_index_app pre2 _ _ d Hd2), bind_ok.
  change (u8_of_byte (byte_of_u8 TAG_INTEGER) =? 2) with true. cbn [negb].
  change (len pre2 + 1) with (len pre2 + len [byte_of_u8 TAG_INTEGER]). rewrite <- len_app.
  rewrite (read_der_length_back (len body) d (pre2 ++ [byte_of_u8 TAG_INTEGER]) (body ++ post)); [|lia|by rewrite Hd2, <- !app_assoc].
  rewrite bind_ok. rewrite (proj2 (Z.ltb_ge (len d) _)), (proj2 (Z.eqb_neq (len body) 0)), (proj2 (Z.ltb_ge 4 _)); [|lia|lia|].
  2: { rewrite !len_app. change (len [byte_of_u8 TAG_INTEGER]) with 1. lia. }
  cbn [orb]. assert (Z.to_nat (len body) = length body) as -> by (unfold len; lia).
  rewrite (length_bytes_back body d _ post 0); [|by rewrite Hd2, <- !app_assoc|lia]. f_equal.
Qed.

Lemma code_is_52 code : - 2 ^ 31 <= code < 2 ^ 31 → (of_be (integer_body code) =? 52) = (code =? 52).
Proof.
  intros Hc. destruct (integer_body_spec code Hc) as (Hne & Hl & Hs). destruct (integer_body code) as [|b bs] eqn:E; [done|].
  unfold signed_be in Hs. pose proof (of_be_bound bs) as Hb. rewrite of_be_cons in *. cbn [sign_of] in Hs. rewrite high_bit_spec in Hs.
  pose proof (pow256_pos (len bs) (len_nonneg bs)). pose proof (u8_of_byte_range b) as Hr. unfold in_range in Hr. rewrite len_cons in *.
  rewrite Z.pow_add_r in Hs by (try apply len_nonneg; lia). change (256 ^ 1) with 256 in Hs.
  apply Bool.eq_iff_eq_true. rewrite !Z.eqb_eq. destruct (Z.leb_spec 128 (u8_of_byte b)); nia.
Qed.

Lemma length_contexts (l : list (Z * bytes)) : (length l <= length (concat (contexts l)))%nat.
Proof.
  unfold contexts. induction l as [|[k v] l IH]; [done|]. cbn [map concat length fst snd]. rewrite length_app.
  assert (1 <= length (der_context k v))%nat by (unfold der_context, der_tlv; cbn [app length]; lia). lia.
Qed.

(** KRB_ERR_RESPONSE_TOO_BIG is recognised in every KRB-ERROR, and nothing else is taken for it. *)
Lemma too_big_exact ctime cusec cname stime susec e :
  let response := krb_error_bytes ctime cusec cname stime susec e in
  - 2 ^ 31 <= ke_error_code e < 2 ^ 31 → small response →
  is_response_too_big response = Ok (ke_error_code e =? KRB_ERR_RESPONSE_TOO_BIG).
Proof.
  intros response Hc Hsm. unfold response, krb_error_bytes in *. clear response.
  set (l1 := [(0, der_integer 5); (1, der_integer 30)] ++ optional 2 ctime ++ optional 3 cusec ++ [(4, stime); (5, susec)]).
  set (l2 := optional 7 (der_general_string <$> ke_crealm e) ++ optional 8 cname ++
    [(9, der_general_string (ke_realm e)); (10, encode_principal_name (ke_sname e))] ++
    optional 11 (der_general_string <$> ke_e_text e) ++ optional 12 (der_octet_string <$> ke_e_data e)).
  assert (krb_error_fields ctime cusec cname stime susec e = l1 ++ [(6, der_integer (ke_error_code e))] ++ l2) as El
    by (unfold krb_error_fields, l1, l2; by rewrite <- !app_assoc).
  rewrite El in *. clear El. unfold der_application in *. change (Z.lor 96 30) with 0x7e in *. apply small_tlv in Hsm as Hsq.
  set (sq := der_sequence _) in *. apply small_sequence in Hsq as Hparts. unfold contexts in Hparts. rewrite map_app in Hparts.
  apply Forall_app in Hparts as [Hp1 _]. set (body := concat (contexts (l1 ++ [(6, der_integer (ke_error_code e))] ++ l2))).
  assert (sq = der_tlv TAG_SEQUENCE body) as Esq by done. pose proof (small_tlv _ _ ltac:(rewrite Esq in Hsq; exact Hsq)) as Hbody.
  unfold small in Hsq, Hbody. pose proof (len_nonneg sq). pose proof (len_nonneg body).
  set (d := der_tlv 0x7e sq). set (p1 := [byte_of_u8 0x7e]). set (p2 := p1 ++ der_length (len sq)). set (p3 := p2 ++ [byte_of_u8 0x30]).
  set (p4 := p3 ++ der_length (len body)).
  assert (d = [] ++ [byte_of_u8 0x7e] ++ der_length (len sq) ++ sq) as D0 by done.
  assert (d = p1 ++ der_length (len sq) ++ sq) as D1 by done.
  assert (d = p2 ++ [byte_of_u8 0x30] ++ der_length (len body) ++ body) as D2
    by (unfold p2; rewrite D1, Esq at 1; by rewrite <- !app_assoc, <- Esq).
  assert (d = p3 ++ der_length (len body) ++ body) as D3 by (unfold p3; by rewrite D2, <- !app_assoc).
  assert (d = p4 ++ concat (contexts l1) ++ der_context 6 (der_integer (ke_error_code e)) ++ concat (contexts l2)) as D4.
  { unfold p4. rewrite D3. unfold body at 2. unfold contexts. rewrite !map_app, !concat_app. cbn [map concat fst snd]. by rewrite app_nil_r, <- !app_assoc. }
  assert (∀ p r, d = p ++ [byte_of_u8 0x30] ++ r → len p < len d) as Hlt.
  { intros p r ->. rewrite !len_app. pose proof (len_nonneg r). change (len [byte_of_u8 48]) with 1. lia. }
  unfold is_response_too_big. change (is_empty d) with false. change 0 with (len (@nil byte)) at 1. rewrite (at_index_app [] _ _ d D0), bind_ok.
  change (u8_of_byte (byte_of_u8 0x7e) =? 0x7e) with true. cbn [negb]. unfold extract_krb_error_code, skip_der_length.
  rewrite (proj2 (Z.leb_gt _ 0)) by (unfold d; rewrite len_der_tlv; pose proof (len_der_length (len sq)); lia).
  change 0 with (len (@nil byte)) at 1. rewrite (at_index_app [] _ _ d D0), bind_ok. change (u8_of_byte (byte_of_u8 0x7e) =? 0x7e) with true. cbn [negb].
  change (read_der_length d 1) with (read_der_length d (len p1)). rewrite (read_der_length_back (len sq) d p1 _ ltac:(lia) D1), !bind_ok. fold p2.
  rewrite (proj2 (Z.leb_gt _ _)) by (by apply (Hlt _ _ D2)). rewrite (at_index_app p2 _ _ d D2), bind_ok.
  change (u8_of_byte (byte_of_u8 0x30) =? 0x30) with true. cbn [negb]. replace (len p2 + 1) with (len p3) by (unfold p3; rewrite len_app; reflexivity).
  rewrite (read_der_length_back (len body) d p3 _ ltac:(lia) D3), !bind_ok. fold p4.
  assert (∃ n, S (length d) = length l1 + S n)%nat as [n ->].
  { exists (length d - length l1)%nat. pose proof (length_contexts l1). rewrite D4, !length_app. lia. }
  rewrite (skip_fields l1 (S n) d p4 (der_context 6 (der_integer (ke_error_code e)) ++ concat (contexts l2))); [|..|exact D4].
  - erewrite code_field; [by rewrite code_is_52|done|]. rewrite D4, <- !app_assoc. reflexivity.
  - clear -Hp1.
    assert (Forall (λ p, 0 <= p.1 < 32 ∧ p.1 ≠ 6) l1) as Hk.
    { unfold l1. cbn [app]. repeat first [apply Forall_nil_2 | apply Forall_cons_2 | apply Forall_optional; [intros b|]]; cbn [fst]; lia. }
    clearbody l1. induction l1 as [|[k v] l IH]; [constructor|]. cbn [map fst snd] in Hp1. apply Forall_cons in Hp1 as [H1%small_tlv H2].
    apply Forall_cons in Hk as [H3 H4]. constructor; [cbn [fst snd] in *; tauto|by apply IH].
Qed.

(** ** The exchange *)

Definition slept (evs : list kdc_event) : Z := foldr (λ e n, match e with Sleep s => s + n | _ => n end) 0 evs.
Definition datagrams (evs : list kdc_event) : list bytes :=
  omap (λ e, match e with Datagram p => Some p | _ => None end) evs.
Definition connections (evs : list kdc_event) : list (option bytes) :=
  omap (λ e, match e with Connection w => Some w | _ => None end) evs.

Lemma slept_app a b : slept (a ++ b) = slept a + slept b.
Proof. induction a as [|[s|p|w] a IH]; cbn [app slept foldr] in *; [done|unfold slept in *; lia|done|done]. Qed.
Lemma datagrams_app a b : datagrams (a ++ b) = datagrams a ++ datagrams b.
Proof. apply omap_app. Qed.
Lemma connections_app a b : connections (a ++ b) = connections a ++ connections b.
Proof. apply omap_app. Qed.

(** What one run may cost: datagrams, connections and seconds slept; and it carries only the request. *)
Definition costs (message : bytes) (evs : list kdc_event) (d c : nat) (s : Z) : Prop :=
  (length (datagrams evs) <= d)%nat ∧ (length (connections evs) <= c)%nat ∧ slept evs <= s ∧
  Forall (λ p, p = message) (datagrams evs) ∧
  Forall (λ w, w = None ∨ w = Some (to_be 4 (len message) ++ message)) (connections evs).

Lemma costs_app message a b d1 c1 s1 d2 c2 s2 :
  costs message a d1 c1 s1 → costs message b d2 c2 s2 → costs message (a ++ b) (d1 + d2) (c1 + c2) (s1 + s2).
Proof.
  intros (H1 & H2 & H3 & H4 & H5) (K1 & K2 & K3 & K4 & K5). unfold costs. rewrite slept_app, datagrams_app, connections_app, !length_app, !Forall_app.
  split_and!; try done; lia.
Qed.
Lemma costs_weaken message evs d c s d' c' s' :
  costs message evs d c s → (d <= d')%nat → (c <= c')%nat → s <= s' → costs message evs d' c' s'.
Proof. intros (H1 & H2 & H3 & H4). intros. split_and!; try done; try lia; apply H4. Qed.
Lemma costs_nil message : costs message [] 0 0 0.
Proof. by split_and!. Qed.

(** The delays before the attempts from [a] on, [n] of them. *)
Fixpoint delays (a n : nat) : Z := match n with O => 0 | S n => slept (backoff a) + delays (S a) n end.
Lemma delays_nonneg a n : 0 <= delays a n.
Proof.
  revert a. induction n as [|n IH]; intros a; cbn [delays]; [done|]. specialize (IH (S a)).
  assert (0 <= slept (backoff a)); [|lia]. destruct a; [done|]. cbn [backoff slept foldr]. unfold RETRY_BASE_DELAY.
  pose proof (Z.pow_nonneg 2 (Z.of_nat a)). lia.
Qed.
Lemma costs_backoff message a : costs message (backoff a) 0 0 (slept (backoff a)).
Proof. by destruct a; split_and!. Qed.

Section exchange.
Variable net : KdcNetwork.
Variable message : bytes.

Lemma udp_attempts_cost more a le :
  let '(r, evs) := udp_attempts net message more a le in r ≠ Panic ∧ costs message evs more 0 (delays a more).
Proof.
  revert a le. induction more as [|more IH]; intros a le; [by split; [|apply costs_nil]|]. cbn [udp_attempts delays].
  assert (∀ (r : result Error bytes) evs, r ≠ Panic ∧ costs message evs more 0 (delays (S a) more) →
    r ≠ Panic ∧ costs message (backoff a ++ [Datagram message] ++ evs) (S more) 0 (slept (backoff a) + delays (S a) more)) as Hgo.
  { intros r evs [Hr Hc]. split; [done|]. apply (costs_app _ _ _ 0 0 _ (S more) 0); [apply costs_backoff|].
    apply (costs_app _ _ _ 1 0 0 more 0 (delays (S a) more)); [by repeat constructor|done]. }
  pose proof (delays_nonneg (S a) more) as Hd.
  assert (∀ le', let '(r, evs) := let '(r, evs) := udp_attempts net message more (S a) le' in (r, backoff a ++ [Datagram message] ++ evs) in
    r ≠ Panic ∧ costs message evs (S more) 0 (slept (backoff a) + delays (S a) more)) as Hrec.
  { intros le'. specialize (IH (S a) le'). destruct (udp_attempts net message more (S a) le') as [r evs]. by apply Hgo. }
  destruct (udp_send net a); [|apply Hrec|apply Hrec]. destruct (udp_recv net a); [|apply Hrec|apply Hrec].
  apply Hgo. split; [done|]. eapply costs_weaken; [apply costs_nil|lia..].
Qed.

(** An answer by UDP is one that was received. *)
Lemma udp_attempts_ok more a le response :
  (udp_attempts net message more a le).1 = Ok response →
  ∃ b buf, (a <= b < a + more)%nat ∧ udp_recv net b = Done buf ∧ response = take (Z.to_nat UDP_MAX_SIZE) buf.
Proof.
  revert a le. induction more as [|more IH]; intros a le; [done|]. cbn [udp_attempts].
  assert (∀ le', (let '(r, evs) := udp_attempts net message more (S a) le' in (r, backoff a ++ [Datagram message] ++ evs)).1 = Ok response →
    ∃ b buf, (a <= b < a + S more)%nat ∧ udp_recv net b = Done buf ∧ response = take (Z.to_nat UDP_MAX_SIZE) buf) as Hrec.
  { intros le' H. specialize (IH (S a) le'). destruct (udp_attempts net message more (S a) le') as [r evs]. destruct (IH H) as (b & buf & Hb & ?).
    exists b, buf. split; [lia|done]. }
  destruct (udp_send net a); [|apply Hrec|apply Hrec]. destruct (udp_recv net a) as [buf|w|] eqn:E; [|apply Hrec|apply Hrec].
  intros [= <-]. exists a, buf. split; [lia|done].
Qed.

Lemma read_exact_ok n p bs rest : read_exact n p = Ok (bs, rest) → 0 <= n → p.1 = bs ++ rest.1 ∧ len bs = n ∧ rest.2 = p.2.
Proof.
  destruct p as [sent fin]. unfold read_exact. destruct (Z.leb_spec n (len sent)) as [Hl|Hl]; [|by destruct fin].
  intros [= <- <-] Hn. cbn [fst snd]. split; [by rewrite take_drop|]. split; [|done]. unfold len in *. rewrite length_take. lia.
Qed.
Lemma read_exact_total n p : read_exact n p ≠ Panic.
Proof. destruct p as [sent []]; unfold read_exact; by destruct (n <=? len sent). Qed.

(** The answer on a connection is the frame the KDC sent, of an admissible length. *)
Definition tcp_framed (response : bytes) (peer : TcpPeer) : Prop :=
  len response <= MAX_KDC_FRAME_SIZE ∧ ∃ rest, peer_sends peer = to_be 4 (len response) ++ response ++ rest.

Lemma to_be_of_be bs : to_be (length bs) (of_be bs) = bs.
Proof. unfold to_be, of_be. rewrite <- (length_rev bs), to_le_of_le. apply rev_involutive. Qed.

Lemma send_tcp_once_spec peer :
  let '(r, evs) := send_tcp_once message peer in
  r ≠ Panic ∧ costs message evs 0 1 0 ∧ ∀ response, r = Ok response → tcp_framed response peer.
Proof.
  assert (costs message [Connection None] 0 1 0) as Hnone by (split_and!; [done|done|done|done|by constructor; [left|constructor]]).
  unfold send_tcp_once. destruct (net_outcome_error (peer_connect peer)); [done|]. destruct (peer_nodelay peer); [done|].
  destruct (net_outcome_error (peer_write peer)); [done|]. split; [|split].
  - pose proof (read_exact_total 4 (peer_sends peer, peer_end peer)). destruct (read_exact 4 _) as [[lb rest]|e|]; [|done|done]. rewrite bind_ok. cbv zeta.
    case_test; [done|]. pose proof (read_exact_total (of_be lb) rest). by destruct (read_exact (of_be lb) rest) as [[? ?]|?|].
  - split_and!; [done|done|done|done|by constructor; [right|constructor]].
  - intros response. destruct (read_exact 4 _) as [[lb rest]|e|] eqn:E1; [|done|done]. rewrite bind_ok. cbv zeta.
    destruct (MAX_KDC_FRAME_SIZE <? of_be lb) eqn:Em; [done|]. bool_prop. destruct (read_exact (of_be lb) rest) as [[buf rest']|e|] eqn:E2; [|done|done].
    rewrite bind_ok. intros [= <-]. apply read_exact_ok in E1 as (P1 & L1 & _); [|done]. apply read_exact_ok in E2 as (P2 & L2 & _); [|apply of_be_bound].
    cbn [fst] in P1. split; [lia|]. exists rest'.1. rewrite P1, P2, L2. rewrite <- (to_be_of_be lb) at 1. by assert (length lb = 4%nat) as -> by (unfold len in L1; lia).
Qed.

Lemma tcp_attempts_spec more a le :
  let '(r, evs) := tcp_attempts net message more a le in
  r ≠ Panic ∧ costs message evs 0 more (delays a more) ∧
  (∀ response, r = Ok response → ∃ b, (a <= b < a + more)%nat ∧ tcp_framed response (tcp_peer net b)) ∧
  (∀ e, r = Err e → ∀ b, (a <= b < a + more)%nat → ∃ e', (send_tcp_once message (tcp_peer net b)).1 = Err e').
Proof.
  revert a le. induction more as [|more IH]; intros a le; [split_and!; [done|apply costs_nil|done|intros; lia]|]. cbn [tcp_attempts delays].
  pose proof (send_tcp_once_spec (tcp_peer net a)) as H1. destruct (send_tcp_once message (tcp_peer net a)) as [r evs] eqn:E1.
  destruct H1 as (Hr & Hc & Hok). pose proof (delays_nonneg (S a) more).
  assert (∀ evs', costs message evs' 0 more (delays (S a) more) →
    costs message (backoff a ++ evs ++ evs') 0 (S more) (slept (backoff a) + delays (S a) more)) as Hgo.
  { intros evs' Hc'. apply (costs_app _ _ _ 0 0 _ 0 (S more)); [apply costs_backoff|]. by apply (costs_app _ _ _ 0 1 0 0 more). }
  destruct r as [response|e|]; [| |done].
  - split_and!; [done|apply Hgo; eapply costs_weaken; [apply costs_nil|lia..]| |done].
    intros ? [= <-]. exists a. split; [lia|by apply Hok].
  - specialize (IH (S a) (Some e)). destruct (tcp_attempts net message more (S a) (Some e)) as [r' evs']. destruct IH as (I1 & I2 & I3 & I4).
    split_and!; [done|by apply Hgo| |].
    + intros response E. destruct (I3 response E) as (b & Hb & Hf). exists b. split; [lia|done].
    + intros e' E b Hb. destruct (decide (b = a)) as [-> |Hne]; [exists e; by rewrite E1|]. apply (I4 e' E). lia.
Qed.
End exchange.

(** ** The theorem *)

(** The exchange with a KDC is bounded, carries only the request, and returns only what was
    received.  Whatever the network does, a request ends without a panic after at most three
    datagrams, three connections and six seconds of back-off, each datagram the request itself
    and each connection the request behind its length; an answer is either a datagram that is
    not KRB_ERR_RESPONSE_TOO_BIG, or exactly the frame a KDC sent on one of the connections, of at
    most a megabyte; and an error means that each of the three connections failed. *)
Theorem kdc_exchange (net : KdcNetwork) (message : bytes) :
  let '(r, evs) := send_to_kdc net message in
  r ≠ Panic ∧ costs message evs 3 3 6 ∧
  (∀ response, r = Ok response →
     (∃ a buf, (a < 3)%nat ∧ udp_recv net a = Done buf ∧ response = take (Z.to_nat UDP_MAX_SIZE) buf ∧
               is_response_too_big response = Ok false) ∨
     (∃ a, (a < 3)%nat ∧ tcp_framed response (tcp_peer net a))) ∧
  (∀ e, r = Err e → ∀ a, (a < 3)%nat → ∃ e', (send_tcp_once message (tcp_peer net a)).1 = Err e').
Proof.
  unfold send_to_kdc. destruct (send_udp net message) as [r evs] eqn:Eu.
  assert (r ≠ Panic ∧ costs message evs 3 0 3 ∧ (∀ response, r = Ok response → ∃ a buf, (a < 3)%nat ∧ udp_recv net a = Done buf ∧
    response = take (Z.to_nat UDP_MAX_SIZE) buf)) as (Hr & Hc & Hok).
  { unfold send_udp in Eu. destruct (udp_bind net).
    - injection Eu as <- <-. split_and!; [done|eapply costs_weaken; [apply costs_nil|lia..]|done].
    - pose proof (udp_attempts_cost net message MAX_RETRIES 0 None) as H1. rewrite Eu in H1. destruct H1 as [H1 H2]. split_and!; [done|done|].
      intros response ->. destruct (udp_attempts_ok net message MAX_RETRIES 0 None response) as (b & buf & Hb & ?); [by rewrite Eu|]. exists b, buf.
      unfold MAX_RETRIES in Hb. split; [lia|done]. }
  pose proof (tcp_attempts_spec net message MAX_RETRIES 0 None) as Ht. fold (send_tcp net message) in Ht.
  destruct (send_tcp net message) as [r' evs']. destruct Ht as (Ht1 & Ht2 & Ht3 & Ht4).
  assert (costs message (evs ++ evs') 3 3 6) as Hcc by by apply (costs_app _ _ _ 3 0 3 0 3 3).
  assert (r' ≠ Panic ∧ costs message (evs ++ evs') 3 3 6 ∧
    (∀ response, r' = Ok response →
       (∃ a buf, (a < 3)%nat ∧ udp_recv net a = Done buf ∧ response = take (Z.to_nat UDP_MAX_SIZE) buf ∧ is_response_too_big response = Ok false) ∨
       (∃ a, (a < 3)%nat ∧ tcp_framed response (tcp_peer net a))) ∧
    (∀ e, r' = Err e → ∀ a, (a < 3)%nat → ∃ e', (send_tcp_once message (tcp_peer net a)).1 = Err e')) as Htcp.
  { split_and!; [done|done| |].
    - intros response E. right. destruct (Ht3 response E) as (b & Hb & Hf). exists b. unfold MAX_RETRIES in Hb. split; [lia|done].
    - intros e E a Ha. apply (Ht4 e E). unfold MAX_RETRIES. lia. }
  destruct r as [response|e|]; [|exact Htcp|done]. destruct (too_big_total response) as [b Eb]. rewrite Eb. destruct b; [exact Htcp|].
  split_and!; [done|eapply costs_weaken; [exact Hc|lia..]| |done].
  intros ? [= <-]. left. destruct (Hok response eq_refl) as (a & buf & ? & ? & ?). by exists a, buf.
Qed.

(** When nothing answers: the delays between the attempts are one and two seconds, on each transport. *)
Definition silence : KdcNetwork :=
  mkKdcNetwork None (λ _, Done ()) (λ _, TimedOut) (λ _, mkTcpPeer TimedOut None TimedOut [] Stalls).
Example backoff_is_one_and_two :
  send_to_kdc silence [x6a] =
  (Err Timeout, [Datagram [x6a]; Sleep 1; Datagram [x6a]; Sleep 2; Datagram [x6a];
                 Connection None; Sleep 1; Connection None; Sleep 2; Connection None]).
Proof. reflexivity. Qed.

(** A host gets the default port, unless it is an IPv6 literal, whose colons pass for a port. *)
Example ports :
  resolve_address (literal "kdc.corp") = literal "kdc.corp:88" ∧ resolve_address (literal "kdc:750") = literal "kdc:750" ∧
  resolve_address (literal "fd00::1") = literal "fd00::1".
Proof. split_and!; vm_compute; reflexivity. Qed.
