(* ===== verification/KrbAuth.v ===== *)
(** * The Kerberos authenticator ([src/auth/kerberos/authenticator.rs])

    The AS exchange, the TGS exchange, the AP-REQ for SESSION_SETUP, the server's answer to it,
    and the same from a credential cache.  The clock, the random bytes and the network of each
    exchange are inputs; the requests sent to the KDC are recorded. *)

From S2P Require Import Prelude Types Fields Pack Utf8 Spnego Ntlm KrbCrypto KrbMessages Ccache KrbTime Kdc.

Definition KEY_USAGE_PA_ENC_TIMESTAMP : Z := 1.
Definition KEY_USAGE_AS_REP_ENC_PART : Z := 3.
Definition KEY_USAGE_AP_REQ_AUTHENTICATOR : Z := 7.
Definition KEY_USAGE_AP_REQ_AUTHENTICATOR_SPNEGO : Z := 11.
Definition KEY_USAGE_TGS_REP_ENC_PART_SESSION_KEY : Z := 8.
Definition KEY_USAGE_TGS_REP_ENC_PART_SUBKEY : Z := 9.
Definition KEY_USAGE_AP_REP_ENC_PART : Z := 12.
Definition KDC_ERR_PREAUTH_REQUIRED : Z := 25.
Definition PA_ENC_TIMESTAMP : Z := 2.
Definition PA_ETYPE_INFO2 : Z := 19.
Definition PA_PAC_REQUEST : Z := 128.

Record KerberosCredentials := mkKerberosCredentials {
  krb_username : list Z; krb_password : list Z; krb_realm : list Z; krb_kdc_address : list Z
}.
Record Authenticator := mkAuthenticator {
  k_credentials : KerberosCredentials;
  k_tgt : option Ticket;
  k_as_session_key : option bytes;
  k_service_ticket : option Ticket;
  k_tgs_session_key : option bytes;
  k_ap_req_bytes : option bytes;
  k_session_key : option bytes;
  k_etype : EncryptionType
}.

Definition Authenticator_new (credentials : KerberosCredentials) : Authenticator :=
  mkAuthenticator credentials None None None None None None Aes256CtsHmacSha196.

Definition auth_token (s : Authenticator) : option bytes := k_ap_req_bytes s.

Definition set_etype (e : EncryptionType) (s : Authenticator) : Authenticator :=
  mkAuthenticator (k_credentials s) (k_tgt s) (k_as_session_key s) (k_service_ticket s) (k_tgs_session_key s)
    (k_ap_req_bytes s) (k_session_key s) e.
Definition set_tgt (t : Ticket) (key : bytes) (s : Authenticator) : Authenticator :=
  mkAuthenticator (k_credentials s) (Some t) (Some key) (k_service_ticket s) (k_tgs_session_key s)
    (k_ap_req_bytes s) (k_session_key s) (k_etype s).
Definition set_service (t : Ticket) (key : bytes) (s : Authenticator) : Authenticator :=
  mkAuthenticator (k_credentials s) (k_tgt s) (k_as_session_key s) (Some t) (Some key)
    (k_ap_req_bytes s) (Some key) (k_etype s).
Definition set_ap_req (tok key : bytes) (s : Authenticator) : Authenticator :=
  mkAuthenticator (k_credentials s) (k_tgt s) (k_as_session_key s) (k_service_ticket s) (k_tgs_session_key s)
    (Some tok) (Some key) (k_etype s).
Definition set_session_key (key : bytes) (s : Authenticator) : Authenticator :=
  mkAuthenticator (k_credentials s) (k_tgt s) (k_as_session_key s) (k_service_ticket s) (k_tgs_session_key s)
    (k_ap_req_bytes s) (Some key) (k_etype s).

(** ** The monad: [&mut self], [?], and the requests sent *)

Record Run := mkRun { self : Authenticator; requests : list bytes }.
Definition auth (A : Type) : Type := Run → result Error A * Run.

#[export] Instance auth_ret : MRet auth := λ A a w, (Ok a, w).
#[export] Instance auth_bind : MBind auth := λ A B k m w,
  match m w with
  | (Ok a, w) => k a w
  | (Err e, w) => (Err e, w)
  | (Panic, w) => (Panic, w)
  end.
Definition lift {A} (r : result Error A) : auth A := λ w, (r, w).
Definition get_self : auth Authenticator := λ w, (Ok (self w), w).
Definition update_self (f : Authenticator → Authenticator) : auth unit :=
  λ w, (Ok (), mkRun (f (self w)) (requests w)).
(** [send_to_kdc], over the network as it is when this request is sent. *)
Definition ask (net : bytes → KdcNetwork) (message : bytes) : auth bytes :=
  λ w, ((send_to_kdc (net message) message).1, mkRun (self w) (requests w ++ [message])).

(** ** DER helpers of the file, which read lengths of at most two bytes *)

Definition parse_der_length_local (data : bytes) : result Error (Z * Z) :=
  if is_empty data then Err (invalid_data "Kerberos: truncated DER length") else
  first ← byte_at data 0;
  if first <? 128 then Ok (first, 1)
  else if first =? 0x81 then
    if len data <? 2 then Err (invalid_data "Kerberos: truncated DER length (0x81)") else
    b ← byte_at data 1;
    Ok (b, 2)
  else if first =? 0x82 then
    if len data <? 3 then Err (invalid_data "Kerberos: truncated DER length (0x82)") else
    b1 ← byte_at data 1;
    b2 ← byte_at data 2;
    Ok (Z.lor (Z.shiftl b1 8) b2, 3)
  else Err (invalid_data "Kerberos: unsupported DER length encoding: 0x{first:02x}").

Definition parse_der_tlv_local (data : bytes) : result Error (Z * bytes * Z) :=
  if is_empty data then Err (invalid_data "Kerberos: truncated DER TLV") else
  tag ← byte_at data 0;
  rest ← slice data 1 (len data);
  '(n, len_bytes) ← parse_der_length_local rest;
  let header_len := 1 + len_bytes in
  let total := header_len + n in
  if len data <? total then Err (invalid_data "Kerberos: DER TLV truncated: need {total} bytes, have {}") else
  value ← slice data header_len total;
  Ok (tag, value, total).

(** [while pos < data.len()]: an element is at least two bytes long. *)
Fixpoint elements_local (fuel : nat) (data : bytes) (pos : Z) (acc : list (Z * bytes)) : result Error (list (Z * bytes)) :=
  match fuel with
  | O => Panic
  | S fuel =>
      if negb (pos <? len data) then Ok acc else
      rest ← slice data pos (len data);
      '(tag, value, consumed) ← parse_der_tlv_local rest;
      elements_local fuel data (pos + consumed) (acc ++ [(tag, value)])
  end.
Definition parse_sequence_fields_local (data : bytes) : result Error (list (Z * bytes)) :=
  elements_local (S (length data)) data 0 [].

Definition parse_der_integer_local (data : bytes) : result Error Z :=
  '(tag, value, _) ← parse_der_tlv_local data;
  if negb (tag =? 0x02) then Err (invalid_data "Kerberos: expected INTEGER (0x02), got 0x{tag:02x}") else
  match value with
  | [] => Err (invalid_data "Kerberos: empty INTEGER")
  | b :: _ =>
      let val := if high_bit b then -1 else 0 in
      Ok (to_signed 32 (foldl (λ val b, to_signed 64 (Z.lor (Z.shiftl val 8) (u8_of_byte b))) val value))
  end.

Definition parse_der_octet_string_local (data : bytes) : result Error bytes :=
  '(tag, value, _) ← parse_der_tlv_local data;
  if negb (tag =? 0x04) then Err (invalid_data "Kerberos: expected OCTET STRING (0x04), got 0x{tag:02x}") else
  Ok value.

(** The same encoders as messages.rs's. *)
Definition encode_encrypted_data_raw (ed : EncryptedData) : bytes :=
  let etype := der_context 0 (der_integer (ed_etype ed)) in
  let cipher := der_context 2 (der_octet_string (ed_cipher ed)) in
  match ed_kvno ed with
  | Some kvno => der_sequence [etype; der_context 1 (der_integer kvno); cipher]
  | None => der_sequence [etype; cipher]
  end.

Definition encode_pa_pac_request (include_pac : bool) : bytes :=
  der_sequence [der_context 0 (if include_pac then [x01; x01; xff] else [x01; x01; x00])].

(** ** The e-data of KDC_ERR_PREAUTH_REQUIRED *)

(** One field of a PA-DATA entry. *)
Definition pa_field (ftag : Z) (fvalue : bytes) (acc : option Z * option bytes) : result Error (option Z * option bytes) :=
  let '(padata_type, padata_value) := acc in
  if ftag =? 0xa1 then v ← parse_der_integer_local fvalue; Ok (Some v, padata_value)
  else if ftag =? 0xa2 then v ← parse_der_octet_string_local fvalue; Ok (padata_type, Some v)
  else Ok acc.

Fixpoint method_loop (fuel : nat) (seq_data : bytes) (pos : Z) (entries : list PaData) : result Error (list PaData) :=
  match fuel with
  | O => Panic
  | S fuel =>
      if negb (pos <? len seq_data) then Ok entries else
      rest ← slice seq_data pos (len seq_data);
      '(entry_tag, entry_data, consumed) ← parse_der_tlv_local rest;
      entries ←
        (if entry_tag =? 0x30 then
           fields ← parse_sequence_fields_local entry_data;
           '(padata_type, padata_value) ← each_field pa_field fields (None, None);
           Ok (match padata_type, padata_value with
               | Some pt, Some pv => entries ++ [mkPaData pt pv]
               | _, _ => entries
               end)
         else Ok entries);
      method_loop fuel seq_data (pos + consumed) entries
  end.

Definition parse_method_data (data : bytes) : result Error (list PaData) :=
  '(tag, seq_data, _) ← parse_der_tlv_local data;
  if negb (tag =? 0x30) then Err (invalid_data "Kerberos: expected SEQUENCE for METHOD-DATA, got 0x{tag:02x}") else
  method_loop (S (length seq_data)) seq_data 0 [].

(** [match (&best, et)]. *)
Definition better_etype (best : option EncryptionType) (et : EncryptionType) : option EncryptionType :=
  match best, et with
  | None, _ => Some et
  | Some Rc4Hmac, Aes256CtsHmacSha196 | Some Rc4Hmac, Aes128CtsHmacSha196 => Some et
  | Some Aes128CtsHmacSha196, Aes256CtsHmacSha196 => Some et
  | _, _ => best
  end.

(** An [etype] field; one that is no integer or no supported type is passed over. *)
Definition etype_field (best : option EncryptionType) (f : Z * bytes) : option EncryptionType :=
  if f.1 =? 0xa0 then
    match parse_der_integer_local f.2 with
    | Ok v => match etype_from_i32 v with Ok et => better_etype best et | _ => best end
    | _ => best
    end
  else best.

Fixpoint etype_loop (fuel : nat) (seq_data : bytes) (pos : Z) (best : option EncryptionType) : result Error (option EncryptionType) :=
  match fuel with
  | O => Panic
  | S fuel =>
      if negb (pos <? len seq_data) then Ok best else
      rest ← slice seq_data pos (len seq_data);
      '(entry_tag, entry_data, consumed) ← parse_der_tlv_local rest;
      best ←
        (if entry_tag =? 0x30 then
           fields ← parse_sequence_fields_local entry_data;
           Ok (foldl etype_field best fields)
         else Ok best);
      etype_loop fuel seq_data (pos + consumed) best
  end.

(** [.ok()?]: an error is [None]. *)
Definition ok_or_none {A} (r : result Error (option A)) : result Error (option A) :=
  match r with Ok o => Ok o | Err _ => Ok None | Panic => Panic end.

Definition parse_etype_info2_best (data : bytes) : result Error (option EncryptionType) :=
  ok_or_none
    ('(tag, seq_data, _) ← parse_der_tlv_local data;
     if negb (tag =? 0x30) then Ok None else
     etype_loop (S (length seq_data)) seq_data 0 None).

(** The first ETYPE-INFO2 entry that has a type the client supports. *)
Fixpoint first_info2 (entries : list PaData) : result Error (option EncryptionType) :=
  match entries with
  | [] => Ok None
  | entry :: entries =>
      if padata_type entry =? PA_ETYPE_INFO2 then
        o ← parse_etype_info2_best (padata_value entry);
        match o with Some etype => Ok (Some etype) | None => first_info2 entries end
      else first_info2 entries
  end.
Definition extract_best_etype (e_data : bytes) : result Error (option EncryptionType) :=
  ok_or_none (entries ← parse_method_data e_data; first_info2 entries).

Definition etype_from_code (code : Z) : result Error EncryptionType :=
  if code =? 18 then Ok Aes256CtsHmacSha196
  else if code =? 17 then Ok Aes128CtsHmacSha196
  else if code =? 23 then Ok Rc4Hmac
  else Err (Auth "unsupported etype {other}").

(** [u32::from_ne_bytes] of four random bytes, without the sign bit. *)
Definition generate_nonce (random : bytes) : Z := Z.land (of_le random) 0x7FFFFFFF.

Definition REQUESTED_ETYPES : list EncryptionType := [Aes256CtsHmacSha196; Aes128CtsHmacSha196; Rc4Hmac].

Definition checksum_type (e : EncryptionType) : Z :=
  match e with Aes256CtsHmacSha196 => 16 | Aes128CtsHmacSha196 => 15 | Rc4Hmac => -138 end.

(** [!response.is_empty() && response[0] == 0x7e]. *)
Definition is_krb_error (response : bytes) : bool :=
  match response with b :: _ => u8_of_byte b =? 0x7e | [] => false end.

(** ** The exchanges *)

(** What an exchange reads from the world: random bytes for the nonce, the clock in microseconds, the
    confounder of each encryption, and the network. *)
Record Inputs := mkInputs {
  in_random : bytes; in_now : Z; in_confounder : EncryptionType → bytes; in_net : bytes → KdcNetwork
}.

Section authenticator.
Context `{KrbPrimitives} `{NtlmPrimitives}.

Definition derive_user_key (c : KerberosCredentials) (etype : EncryptionType) : result Error bytes :=
  let salt := krb_realm c ++ krb_username c in
  match etype with
  | Aes256CtsHmacSha196 => string_to_key_aes (krb_password c) salt 32
  | Aes128CtsHmacSha196 => string_to_key_aes (krb_password c) salt 16
  | Rc4Hmac => Ok (string_to_key_rc4 (krb_password c))
  end.

Definition client_name (c : KerberosCredentials) : PrincipalName := mkPrincipalName 1 [krb_username c].

(** The second AS-REQ, with the encrypted timestamp. *)
Definition preauth_request (c : KerberosCredentials) (nonce : Z) (etype : EncryptionType) (inp : Inputs) : result Error bytes :=
  user_key ← derive_user_key c etype;
  let '(ctime, cusec) := current_kerberos_time (in_now inp) in
  encrypted_timestamp ← kerberos_encrypt user_key KEY_USAGE_PA_ENC_TIMESTAMP (in_confounder inp etype)
                          (encode_pa_enc_timestamp ctime cusec) etype;
  let pa_enc_ts_value := encode_encrypted_data_raw (mkEncryptedData (EncryptionType_code etype) None encrypted_timestamp) in
  let padata := [mkPaData PA_ENC_TIMESTAMP pa_enc_ts_value; mkPaData PA_PAC_REQUEST (encode_pa_pac_request true)] in
  Ok (encode_as_req (client_name c) (krb_realm c) (mkPrincipalName 2 [literal "krbtgt"; krb_realm c]) nonce REQUESTED_ETYPES padata).

(** From the second check for an error on: what the final answer gives. *)
Definition accept_as_rep (c : KerberosCredentials) (response : bytes) : auth unit :=
  if is_krb_error response then
    _ ← lift (parse_krb_error response);
    lift (Err (Auth "Kerberos AS exchange failed: KRB-ERROR code {} ({})"))
  else
  as_rep ← lift (parse_kdc_rep response);
  if negb (kr_msg_type as_rep =? 11) then lift (Err (invalid_data "Kerberos: expected AS-REP (msg_type 11), got {}")) else
  etype ← lift (etype_from_i32 (ed_etype (kr_enc_part as_rep)));
  _ ← update_self (set_etype etype);
  user_key ← lift (derive_user_key c etype);
  enc_part_plain ← lift (kerberos_decrypt user_key KEY_USAGE_AS_REP_ENC_PART (ed_cipher (kr_enc_part as_rep)) etype);
  enc_kdc_rep ← lift (parse_enc_kdc_rep_part enc_part_plain);
  update_self (set_tgt (kr_ticket as_rep) (keyvalue (ep_key enc_kdc_rep))).

Definition as_exchange (inp : Inputs) : auth unit :=
  s ← get_self;
  let c := k_credentials s in
  let sname := mkPrincipalName 2 [literal "krbtgt"; krb_realm c] in
  let nonce := generate_nonce (in_random inp) in
  response ← ask (in_net inp) (encode_as_req (client_name c) (krb_realm c) sname nonce REQUESTED_ETYPES []);
  response ←
    (if is_krb_error response then
       krb_error ← lift (parse_krb_error response);
       if ke_error_code krb_error =? KDC_ERR_PREAUTH_REQUIRED then
         chosen ← lift (match ke_e_data krb_error with
                        | Some e_data => o ← extract_best_etype e_data; Ok (default (k_etype s) o)
                        | None => Ok (k_etype s)
                        end);
         _ ← update_self (set_etype chosen);
         as_req ← lift (preauth_request c nonce chosen inp);
         ask (in_net inp) as_req
       else lift (Err (Auth "Kerberos AS exchange failed: KRB-ERROR code {} ({})"))
     else mret response);
  accept_as_rep c response.

(** The TGS-REQ: the TGT and an authenticator with a checksum of the request's body. *)
Definition tgs_request (c : KerberosCredentials) (tgt : Ticket) (as_session_key : bytes) (etype : EncryptionType)
    (server_hostname : list Z) (inp : Inputs) : result Error bytes :=
  let sname := mkPrincipalName 2 [literal "cifs"; server_hostname] in
  let nonce := generate_nonce (in_random inp) in
  let req_body := encode_tgs_req_body (krb_realm c) sname nonce REQUESTED_ETYPES in
  body_checksum ← compute_checksum as_session_key 6 req_body etype;
  let '(ctime, cusec) := current_kerberos_time (in_now inp) in
  let authenticator_plain :=
    encode_authenticator (krb_realm c) (client_name c) ctime cusec None None (Some (body_checksum, checksum_type etype)) in
  encrypted_authenticator ← kerberos_encrypt as_session_key KEY_USAGE_AP_REQ_AUTHENTICATOR (in_confounder inp etype)
                              authenticator_plain etype;
  let tgt_ap_req := encode_ap_req tgt (mkEncryptedData (EncryptionType_code etype) None encrypted_authenticator) false in
  Ok (encode_tgs_req (krb_realm c) sname nonce REQUESTED_ETYPES tgt_ap_req).

(** Key usage 8, and 9 when that fails. *)
Definition decrypt_tgs_part (as_session_key cipher : bytes) (etype : EncryptionType) : result Error bytes :=
  match kerberos_decrypt as_session_key KEY_USAGE_TGS_REP_ENC_PART_SESSION_KEY cipher etype with
  | Ok plain => Ok plain
  | Err _ => kerberos_decrypt as_session_key KEY_USAGE_TGS_REP_ENC_PART_SUBKEY cipher etype
  | Panic => Panic
  end.

(** [match key.keytype] of a session key, and of the AP-REP's part. *)
Definition key_etype (what : string) (code : Z) : result Error EncryptionType :=
  if code =? 18 then Ok Aes256CtsHmacSha196
  else if code =? 17 then Ok Aes128CtsHmacSha196
  else if code =? 23 then Ok Rc4Hmac
  else Err (Auth what).

Definition tgs_exchange (server_hostname : list Z) (inp : Inputs) : auth unit :=
  s ← get_self;
  match k_tgt s with
  | None => lift (Err (Auth "TGS exchange requires a TGT (run AS exchange first)"))
  | Some tgt =>
  match k_as_session_key s with
  | None => lift (Err (Auth "TGS exchange requires AS session key"))
  | Some as_session_key =>
  tgs_req ← lift (tgs_request (k_credentials s) tgt as_session_key (k_etype s) server_hostname inp);
  response ← ask (in_net inp) tgs_req;
  if is_krb_error response then
    _ ← lift (parse_krb_error response);
    lift (Err (Auth "Kerberos TGS exchange failed: KRB-ERROR code {} ({})"))
  else
  tgs_rep ← lift (parse_kdc_rep response);
  if negb (kr_msg_type tgs_rep =? 13) then lift (Err (invalid_data "Kerberos: expected TGS-REP (msg_type 13), got {}")) else
  enc_part_plain ← lift (decrypt_tgs_part as_session_key (ed_cipher (kr_enc_part tgs_rep)) (k_etype s));
  enc_kdc_rep ← lift (parse_enc_kdc_rep_part enc_part_plain);
  tgs_key_etype ← lift (key_etype "TGS session key has unsupported etype {other}" (keytype (ep_key enc_kdc_rep)));
  update_self (λ s, set_service (kr_ticket tgs_rep) (keyvalue (ep_key enc_kdc_rep)) (set_etype tgs_key_etype s))
  end end.

(** [APPLICATION [0] { OID, 0x0100, AP-REQ }], its length written as [der_length] writes it. *)
Definition gss_mech_token (ap_req : bytes) : bytes :=
  let oid_bytes := drop 2 OID_KERBEROS in
  let inner := [x06] ++ [byte_of_u8 (len oid_bytes)] ++ oid_bytes ++ [x01; x00] ++ ap_req in
  [x60] ++
  (if len inner <? 128 then [byte_of_u8 (len inner)]
   else if len inner <? 256 then [x81; byte_of_u8 (len inner)]
   else [x82; byte_of_u8 (Z.shiftr (len inner) 8); byte_of_u8 (Z.land (len inner) 0xff)]) ++
  inner.

Definition ap_request (c : KerberosCredentials) (service_ticket : Ticket) (key : bytes) (etype : EncryptionType) (inp : Inputs) :
    result Error bytes :=
  let '(ctime, cusec) := current_kerberos_time (in_now inp) in
  let authenticator_plain := encode_authenticator (krb_realm c) (client_name c) ctime cusec None None None in
  encrypted_authenticator ← kerberos_encrypt key KEY_USAGE_AP_REQ_AUTHENTICATOR_SPNEGO (in_confounder inp etype) authenticator_plain etype;
  let ap_req := encode_ap_req service_ticket (mkEncryptedData (EncryptionType_code etype) None encrypted_authenticator) true in
  Ok (wrap_neg_token_init [OID_MS_KERBEROS] (gss_mech_token ap_req)).

Definition build_ap_req (inp : Inputs) : auth unit :=
  s ← get_self;
  match k_service_ticket s with
  | None => lift (Err (Auth "AP-REQ requires a service ticket (run TGS exchange first)"))
  | Some service_ticket =>
  match k_tgs_session_key s with
  | None => lift (Err (Auth "AP-REQ requires TGS session key"))
  | Some tgs_session_key =>
      spnego_token ← lift (ap_request (k_credentials s) service_ticket tgs_session_key (k_etype s) inp);
      update_self (set_ap_req spnego_token tgs_session_key)
  end end.

(** The inputs of the three steps. *)
Record Steps := mkSteps { in_as : Inputs; in_tgs : Inputs; in_ap : Inputs }.

Definition krb_authenticate (server_hostname : list Z) (inp : Steps) : auth unit :=
  _ ← as_exchange (in_as inp);
  _ ← tgs_exchange server_hostname (in_tgs inp);
  build_ap_req (in_ap inp).

(** ** From a credential cache *)

Definition load_service_ticket_from_ccache (cred : CcacheCredential) : auth unit :=
  ticket ← lift (parse_ticket (cc_ticket cred));
  etype ← lift (etype_from_code (cc_key_etype cred));
  update_self (λ s, set_service ticket (cc_key_data cred) (set_etype etype s)).

Definition load_tgt_from_ccache (cred : CcacheCredential) : auth unit :=
  ticket ← lift (parse_ticket (cc_ticket cred));
  etype ← lift (etype_from_code (cc_key_etype cred));
  update_self (λ s, set_tgt ticket (cc_key_data cred) (set_etype etype s)).

Definition authenticate_from_ccache (ccache : CCache) (server_hostname : list Z) (inp : Steps) : auth unit :=
  s ← get_self;
  let realm := krb_realm (k_credentials s) in
  match find_service_ticket (literal "cifs") server_hostname realm ccache with
  | Some svc =>
      _ ← load_service_ticket_from_ccache svc;
      build_ap_req (in_ap inp)
  | None =>
  match find_tgt realm ccache with
  | Some tgt_cred =>
      _ ← load_tgt_from_ccache tgt_cred;
      _ ← tgs_exchange server_hostname (in_tgs inp);
      build_ap_req (in_ap inp)
  | None => lift (Err (Auth "ccache has no TGT or service ticket for realm {realm}"))
  end end.

(** ** The server's answer *)

Definition process_mutual_auth_token (token_bytes : bytes) : auth unit :=
  inner ←
    lift (match token_bytes with
          | b :: _ => if u8_of_byte b =? 0x60 then '(_, gss_inner, _) ← parse_gss_api_wrapper token_bytes; Ok gss_inner else Ok token_bytes
          | [] => Ok token_bytes
          end);
  if len inner <? 2 then lift (Err (invalid_data "Kerberos: mutual auth token too short")) else
  id0 ← lift (byte_at inner 0);
  id1 ← lift (byte_at inner 1);
  krb_data ← lift (slice inner 2 (len inner));
  if (id0 =? 0x02) && (id1 =? 0x00) then
    ap_rep ← lift (parse_ap_rep krb_data);
    s ← get_self;
    match k_session_key s with
    | None => lift (Err (Auth "No session key available to decrypt AP-REP"))
    | Some current_key =>
        etype ← lift (key_etype "AP-REP: unsupported etype {other}" (ed_etype (ar_enc_part ap_rep)));
        plain ← lift (kerberos_decrypt current_key KEY_USAGE_AP_REP_ENC_PART (ed_cipher (ar_enc_part ap_rep)) etype);
        enc_part ← lift (parse_enc_ap_rep_part plain);
        match eap_subkey enc_part with
        | Some server_subkey => update_self (set_session_key (keyvalue server_subkey))
        | None => mret ()
        end
    end
  else if (id0 =? 0x03) && (id1 =? 0x00) then
    (** A KRB-ERROR is logged, parsed or not. *)
    match parse_krb_error krb_data with
    | Ok _ | Err _ => mret ()
    | Panic => lift Panic
    end
  else mret ().

End authenticator.
