(* ===== verification/KrbLogin.v ===== *)
(** * The Kerberos login

    The exchanges of [KrbAuth] against a KDC that follows RFC 4120, and against any network. *)

From S2P Require Import Prelude Types Fields Pack Utf8 Spnego Ntlm KrbCrypto KrbFold KrbProfile KrbMessages KrbWire Ccache KrbTime Kdc KrbAuth.

(** ** The monad *)

Lemma auth_bind_ok {A B} (m : auth A) (k : A → auth B) w a w' : m w = (Ok a, w') → (m ≫= k) w = k a w'.
Proof. intros E. unfold mbind, auth_bind. by rewrite E. Qed.
Lemma lift_bind {A B} (r : result Error A) (k : A → auth B) w a : r = Ok a → (lift r ≫= k) w = k a w.
Proof. by intros ->. Qed.
Lemma ask_bind {B} net m (k : bytes → auth B) w response :
  (send_to_kdc (net m) m).1 = Ok response → (ask net m ≫= k) w = k response (mkRun (self w) (requests w ++ [m])).
Proof. intros E. unfold mbind, auth_bind, ask. by rewrite E. Qed.
Lemma get_bind {B} (k : Authenticator → auth B) w : (get_self ≫= k) w = k (self w) w.
Proof. done. Qed.
Lemma update_bind {B} f (k : unit → auth B) w : (update_self f ≫= k) w = k () (mkRun (f (self w)) (requests w)).
Proof. done. Qed.

(** Each step of a run that succeeded. *)
Lemma auth_bind_inv {A B} (m : auth A) (k : A → auth B) w b w' :
  (m ≫= k) w = (Ok b, w') → ∃ a w1, m w = (Ok a, w1) ∧ k a w1 = (Ok b, w').
Proof. unfold mbind, auth_bind. destruct (m w) as [[a|e|] w1] eqn:E; [|done|done]. intros Hk. by exists a, w1. Qed.
Lemma lift_inv {A} (r : result Error A) w a w' : lift r w = (Ok a, w') → r = Ok a ∧ w' = w.
Proof. unfold lift. by intros [= -> ->]. Qed.
Lemma lift_bind_inv {A B} (r : result Error A) (k : A → auth B) w b w' :
  (lift r ≫= k) w = (Ok b, w') → ∃ a, r = Ok a ∧ k a w = (Ok b, w').
Proof. intros (a & w1 & E & Hk)%auth_bind_inv. apply lift_inv in E as [-> ->]. by exists a. Qed.
Lemma ask_bind_inv {B} net m (k : bytes → auth B) w b w' :
  (ask net m ≫= k) w = (Ok b, w') →
  ∃ response, (send_to_kdc (net m) m).1 = Ok response ∧ k response (mkRun (self w) (requests w ++ [m])) = (Ok b, w').
Proof. intros (r & w1 & E & Hk)%auth_bind_inv. unfold ask in E. injection E as E <-. by exists r. Qed.

(** ** What the client reads of METHOD-DATA *)

Lemma length_local_spec d :
  match parse_der_length_local d with Ok (n, k) => 0 <= n ∧ 1 <= k | Err _ => True | Panic => False end.
Proof.
  unfold parse_der_length_local. destruct d as [|x d']; [done|]. cbn [is_empty]. set (d := x :: d').
  assert (1 <= len d) by (unfold d; rewrite len_cons; pose proof (len_nonneg d'); lia). clearbody d.
  destruct (byte_at_ok d 0) as (v & -> & Hv); [lia|]. rewrite bind_ok. unfold in_range in Hv.
  case_test; [lia|]. case_test; [case_test; [done|]; bool_prop|case_test; [case_test; [done|]; bool_prop|done]].
  - destruct (byte_at_ok d 1) as (b1 & -> & H1); [lia|]. rewrite bind_ok. unfold in_range in H1. lia.
  - destruct (byte_at_ok d 1) as (b1 & -> & H1); [lia|]. rewrite bind_ok. destruct (byte_at_ok d 2) as (b2 & -> & H2); [lia|]. rewrite bind_ok.
    unfold in_range in H1, H2. split; [|lia]. apply Z.lor_nonneg. rewrite Z.shiftl_nonneg. lia.
Qed.

Lemma tlv_local_spec d :
  match parse_der_tlv_local d with Ok (t, v, n) => 2 <= n <= len d ∧ len v <= n - 2 | Err _ => True | Panic => False end.
Proof.
  unfold parse_der_tlv_local. destruct d as [|x d']; [done|]. cbn [is_empty]. set (d := x :: d').
  assert (1 <= len d) by (unfold d; rewrite len_cons; pose proof (len_nonneg d'); lia). clearbody d.
  destruct (byte_at_ok d 0) as (t & -> & _); [lia|]. rewrite bind_ok, slice_ok by lia. rewrite bind_ok.
  pose proof (length_local_spec (subslice d 1 (len d))) as Hl. destruct (parse_der_length_local _) as [[n k]|e|]; [|done|done]. rewrite bind_ok. cbv zeta.
  case_test; [done|]. bool_prop. rewrite slice_ok by lia. rewrite bind_ok, len_subslice by lia. lia.
Qed.
Lemma np_tlv_local d : parse_der_tlv_local d ≠ Panic.
Proof. pose proof (tlv_local_spec d). by destruct (parse_der_tlv_local d) as [[[??]?]|?|]. Qed.
#[export] Hint Resolve np_tlv_local : krb.
Ltac tlv_local t v n :=
  match goal with |- context [parse_der_tlv_local ?d] =>
    let Hs := fresh "Htlv" in pose proof (tlv_local_spec d) as Hs; destruct (parse_der_tlv_local d) as [[[t v] n]|?|]; [rewrite bind_ok|done|done]
  end.

Lemma np_elements fuel d pos acc :
  0 <= pos → Z.max 0 (len d - pos) < Z.of_nat fuel → elements_local fuel d pos acc ≠ Panic.
Proof.
  revert pos acc. induction fuel as [|fuel IH]; intros pos acc Hp Hf; [lia|]. cbn [elements_local].
  destruct (pos <? len d) eqn:E; cbn [negb]; [|done]. bool_prop. rewrite slice_ok by lia. rewrite bind_ok.
  tlv_local t v n. rewrite len_subslice in Htlv by lia. apply IH; lia.
Qed.
Lemma np_sequence_local d : parse_sequence_fields_local d ≠ Panic.
Proof. apply np_elements; unfold len; lia. Qed.
Lemma np_integer_local d : parse_der_integer_local d ≠ Panic.
Proof. unfold parse_der_integer_local. np. Qed.
Lemma np_octets_local d : parse_der_octet_string_local d ≠ Panic.
Proof. unfold parse_der_octet_string_local. np. Qed.
#[export] Hint Resolve np_sequence_local np_integer_local np_octets_local : krb.

Lemma np_method_loop fuel d pos acc :
  0 <= pos → Z.max 0 (len d - pos) < Z.of_nat fuel → method_loop fuel d pos acc ≠ Panic.
Proof.
  revert pos acc. induction fuel as [|fuel IH]; intros pos acc Hp Hf; [lia|]. cbn [method_loop].
  destruct (pos <? len d) eqn:E; cbn [negb]; [|done]. bool_prop. rewrite slice_ok by lia. rewrite bind_ok.
  tlv_local t v n. rewrite len_subslice in Htlv by lia. apply np_bind; [|intros acc'; apply IH; lia].
  apply np_if; [|done]. np. apply np_each. intros ???. unfold pa_field. np.
Qed.
Lemma np_etype_loop fuel d pos best :
  0 <= pos → Z.max 0 (len d - pos) < Z.of_nat fuel → etype_loop fuel d pos best ≠ Panic.
Proof.
  revert pos best. induction fuel as [|fuel IH]; intros pos best Hp Hf; [lia|]. cbn [etype_loop].
  destruct (pos <? len d) eqn:E; cbn [negb]; [|done]. bool_prop. rewrite slice_ok by lia. rewrite bind_ok.
  tlv_local t v n. rewrite len_subslice in Htlv by lia. apply np_bind; [np|intros best'; apply IH; lia].
Qed.

(** A hint that cannot be read is no hint. *)
Lemma extract_total e_data : ∃ o, extract_best_etype e_data = Ok o.
Proof.
  assert (∀ (r : result Error (option EncryptionType)), r ≠ Panic → ∃ o, ok_or_none r = Ok o) as Hok by (intros [o|e|] Hne; [by eexists|by eexists|done]).
  apply Hok. apply np_bind.
  - unfold parse_method_data. tlv_local t v n. apply np_if; [done|]. apply np_method_loop; unfold len; lia.
  - intros entries. induction entries as [|p entries IH]; [done|]. cbn [first_info2]. apply np_if; [|done]. apply np_bind; [|intros [?|]; done].
    unfold parse_etype_info2_best. destruct (Hok (x ← parse_der_tlv_local (padata_value p); let '(tag, seq_data, _) := x in
      if negb (tag =? 0x30) then Ok None else etype_loop (S (length seq_data)) seq_data 0 None)) as [o ->]; [|done].
    tlv_local t v n. apply np_if; [done|]. apply np_etype_loop; unfold len; lia.
Qed.

(** The first byte tells a reply from a KRB-ERROR. *)
Lemma reply_is_no_error padata r : KdcRep_wf r → is_krb_error (kdc_rep_bytes padata r) = false.
Proof. intros [[Em|Em] _]; unfold kdc_rep_bytes, der_application, der_tlv; by rewrite Em. Qed.
Lemma error_is_error ctime cusec cname stime susec e : is_krb_error (krb_error_bytes ctime cusec cname stime susec e) = true.
Proof. done. Qed.

(** ** Keys *)

Section login.
Context `{KrbLaws} `{NtlmLaws}.

#[local] Opaque kerberos_encrypt kerberos_decrypt derive_key_aes dk_derive parse_kdc_rep parse_krb_error
  parse_enc_kdc_rep_part parse_ap_rep parse_enc_ap_rep_part encode_as_req encode_tgs_req encode_ap_req
  encode_authenticator current_kerberos_time kdc_rep_bytes krb_error_bytes enc_part_bytes send_to_kdc extract_best_etype.

(** A password always gives a key that fits its type. *)
Lemma user_key_ok c etype : ∃ key, derive_user_key c etype = Ok key ∧ key_fits key etype.
Proof.
  unfold derive_user_key, string_to_key_aes. destruct etype; [| |by eexists]; cbn [Z.eqb Pos.eqb orb negb].
  - destruct (dk_derive_ok (pbkdf2_hmac_sha1 (utf8_bytes (krb_password c)) (utf8_bytes (krb_realm c ++ krb_username c)) 4096 32)
      [x6b; x65; x72; x62; x65; x72; x6f; x73]) as (k & E & Hl & _); [by unfold valid_aes_key; rewrite pbkdf2_len|done|done|].
    exists k. split; [exact E|]. cbn [key_fits]. rewrite Hl. by apply pbkdf2_len.
  - destruct (dk_derive_ok (pbkdf2_hmac_sha1 (utf8_bytes (krb_password c)) (utf8_bytes (krb_realm c ++ krb_username c)) 4096 16)
      [x6b; x65; x72; x62; x65; x72; x6f; x73]) as (k & E & Hl & _); [by unfold valid_aes_key; rewrite pbkdf2_len|done|done|].
    exists k. split; [exact E|]. cbn [key_fits]. rewrite Hl. by apply pbkdf2_len.
Qed.

Definition confounders_ok (inp : Inputs) : Prop := ∀ e, len (in_confounder inp e) = confounder_len e.

Lemma checksum_ok key usage data etype : key_fits key etype → ∃ c, compute_checksum key usage data etype = Ok c.
Proof.
  intros Hk. unfold compute_checksum. destruct etype; [..|by eexists].
  all: destruct (usage_key_ok key usage x99) as (kc & E & _); [by eapply fits_valid|]; unfold usage_chk; rewrite E, bind_ok.
  all: destruct (hmac_96_ok kc data) as (m & Em & _); by exists m.
Qed.

Lemma preauth_ok c nonce etype inp : confounders_ok inp → ∃ m, preauth_request c nonce etype inp = Ok m.
Proof.
  intros Hc. unfold preauth_request. destruct (user_key_ok c etype) as (uk & -> & Hf). rewrite bind_ok.
  destruct (current_kerberos_time (in_now inp)) as [ctime cusec].
  destruct (profile_round_trip uk KEY_USAGE_PA_ENC_TIMESTAMP (in_confounder inp etype) (encode_pa_enc_timestamp ctime cusec) etype Hf (Hc etype))
    as (ct & -> & _). rewrite bind_ok. by eexists.
Qed.

Lemma tgs_request_ok c tgt key etype host inp :
  key_fits key etype → confounders_ok inp → ∃ m, tgs_request c tgt key etype host inp = Ok m.
Proof.
  intros Hk Hc. unfold tgs_request. cbv zeta. edestruct (checksum_ok key 6) as (cs & Ecs); [exact Hk|]. rewrite Ecs, bind_ok.
  destruct (current_kerberos_time (in_now inp)) as [ctime cusec].
  edestruct (profile_round_trip key KEY_USAGE_AP_REQ_AUTHENTICATOR (in_confounder inp etype)) as (ct & Ect & _); [exact Hk|exact (Hc etype)|].
  rewrite Ect, bind_ok. by eexists.
Qed.

(** The AP-REQ: its authenticator opens with the session key, and names the client and the time. *)
Lemma ap_request_ok c ticket key etype inp :
  key_fits key etype → confounders_ok inp →
  ∃ ct, ap_request c ticket key etype inp
        = Ok (wrap_neg_token_init [OID_MS_KERBEROS] (gss_mech_token (encode_ap_req ticket (mkEncryptedData (EncryptionType_code etype) None ct) true))) ∧
        kerberos_decrypt key KEY_USAGE_AP_REQ_AUTHENTICATOR_SPNEGO ct etype
        = Ok (let '(ctime, cusec) := current_kerberos_time (in_now inp) in
              encode_authenticator (krb_realm c) (client_name c) ctime cusec None None None).
Proof.
  intros Hk Hc. unfold ap_request. destruct (current_kerberos_time (in_now inp)) as [ctime cusec]. cbv zeta.
  edestruct (profile_round_trip key KEY_USAGE_AP_REQ_AUTHENTICATOR_SPNEGO (in_confounder inp etype)) as (ct & Ect & Ed); [exact Hk|exact (Hc etype)|].
  exists ct. rewrite Ect, bind_ok. split; [reflexivity|exact Ed].
Qed.

(** ** An honest KDC *)

(** The answer to a request, through whatever transport. *)
Definition kdc_answers (net : bytes → KdcNetwork) (m response : bytes) : Prop := (send_to_kdc (net m) m).1 = Ok response.

(** The choices the protocol leaves to a KDC in the encrypted part. *)
Record PartChoice := mkPartChoice {
  pc_wrapper : option Z; pc_last_req : bytes; pc_expiration : option bytes; pc_starttime : option bytes;
  pc_renew : option bytes; pc_caddr : option bytes
}.
Definition part_bytes (x : PartChoice) (p : EncKdcRepPart) : bytes :=
  enc_part_bytes (pc_wrapper x)
    (enc_part_fields (pc_last_req x) (pc_expiration x) (pc_starttime x) (pc_renew x) (pc_caddr x) p).

(** A reply of RFC 4120 with the part [p] sealed under the key for the usage. *)
Definition sealed_reply (msg_type : Z) (key : bytes) (usage : Z) (etype : EncryptionType) (rep : KdcRep) (p : EncKdcRepPart)
    (response : bytes) : Prop :=
  ∃ padata x confounder,
    response = kdc_rep_bytes padata rep ∧ small response ∧ KdcRep_wf rep ∧ kr_msg_type rep = msg_type ∧
    EncKdcRepPart_wf p ∧ pc_wrapper x ∈ [None; Some 25; Some 26] ∧ small (part_bytes x p) ∧
    ed_etype (kr_enc_part rep) = EncryptionType_code etype ∧ len confounder = confounder_len etype ∧
    kerberos_encrypt key usage confounder (part_bytes x p) etype = Ok (ed_cipher (kr_enc_part rep)).

Lemma sealed_opens msg_type key usage etype rep p response :
  key_fits key etype → sealed_reply msg_type key usage etype rep p response →
  is_krb_error response = false ∧
  parse_kdc_rep response = Ok (mkKdcRep msg_type (kr_crealm rep) (kr_cname rep) (received (kr_ticket rep)) (kr_enc_part rep)) ∧
  kerberos_decrypt key usage (ed_cipher (kr_enc_part rep)) etype ≫= parse_enc_kdc_rep_part = Ok p ∧
  etype_from_i32 (ed_etype (kr_enc_part rep)) = Ok etype.
Proof.
  intros Hk (padata & x & confounder & -> & Hs & Hw & <- & Hp & Hx & Hsp & He & Hc & Hct). split_and!.
  - by apply reply_is_no_error.
  - by apply kdc_rep_back.
  - destruct (profile_round_trip key usage confounder (part_bytes x p) etype Hk Hc) as (ct & Ect & Ed).
    rewrite Hct in Ect. injection Ect as <-. rewrite Ed, bind_ok. by apply enc_part_back.
  - rewrite He. by destruct etype.
Qed.

(** ** The AS exchange *)

Definition first_request (c : KerberosCredentials) (inp : Inputs) : bytes :=
  encode_as_req (client_name c) (krb_realm c) (mkPrincipalName 2 [literal "krbtgt"; krb_realm c]) (generate_nonce (in_random inp))
    REQUESTED_ETYPES [].

(** The KDC answers at once, or asks for pre-authentication first. *)
Definition as_served (c : KerberosCredentials) (inp : Inputs) (reply : bytes) : Prop :=
  kdc_answers (in_net inp) (first_request c inp) reply ∨
  (∃ ctime cusec cname stime susec e,
     let error := krb_error_bytes ctime cusec cname stime susec e in
     KrbError_wf e ∧ ke_error_code e = KDC_ERR_PREAUTH_REQUIRED ∧ small error ∧
     kdc_answers (in_net inp) (first_request c inp) error ∧
     ∀ etype m, preauth_request c (generate_nonce (in_random inp)) etype inp = Ok m → kdc_answers (in_net inp) m reply).

Lemma as_honest inp w key etype rep p reply :
  let c := k_credentials (self w) in
  derive_user_key c etype = Ok key → key_fits key etype → confounders_ok inp →
  as_served c inp reply → sealed_reply 11 key KEY_USAGE_AS_REP_ENC_PART etype rep p reply →
  ∃ sent e0, as_exchange inp w
    = (Ok (), mkRun (set_tgt (received (kr_ticket rep)) (keyvalue (ep_key p)) (set_etype etype (set_etype e0 (self w)))) sent).
Proof.
  intros c Huk Hf Hconf Hserved Hreply. destruct (sealed_opens _ _ _ _ _ _ _ Hf Hreply) as (Hno & Hparse & Hdec & Het).
  assert (∀ w', k_credentials (self w') = c → accept_as_rep c reply w'
    = (Ok (), mkRun (set_tgt (received (kr_ticket rep)) (keyvalue (ep_key p)) (set_etype etype (self w'))) (requests w'))) as Htail.
  { intros w' Hw'. unfold accept_as_rep. rewrite Hno. rewrite (lift_bind _ _ _ _ Hparse). cbn [kr_msg_type kr_enc_part kr_ticket Z.eqb Pos.eqb negb].
    rewrite (lift_bind _ _ _ _ Het), update_bind, (lift_bind _ _ _ _ Huk).
    destruct (kerberos_decrypt key KEY_USAGE_AS_REP_ENC_PART (ed_cipher (kr_enc_part rep)) etype) as [plain|e|] eqn:Ed; [|done|done].
    rewrite bind_ok in Hdec. rewrite (lift_bind _ _ _ plain eq_refl), (lift_bind _ _ _ _ Hdec). reflexivity. }
  unfold as_exchange. rewrite get_bind. fold c. destruct Hserved as [Hdirect|(ctime & cusec & cname & stime & susec & e & He & Hcode & Hsm & Hfirst & Hsecond)].
  - rewrite (ask_bind _ _ _ _ _ Hdirect), Hno. rewrite (auth_bind_ok (mret reply) _ _ _ _ eq_refl).
    rewrite Htail by done. exists (requests w ++ [first_request c inp]), (k_etype (self w)). by destruct (self w).
  - rewrite (ask_bind _ _ _ _ _ Hfirst), error_is_error.
    assert (parse_krb_error (krb_error_bytes ctime cusec cname stime susec e) = Ok e) as Hpe by by apply krb_error_back.
    assert (∃ e0, match ke_e_data e with Some d => o ← extract_best_etype d; Ok (default (k_etype (self w)) o) | None => Ok (k_etype (self w)) end = Ok e0) as [e0 He0].
    { destruct (ke_e_data e) as [d|]; [|by eexists]. destruct (extract_total d) as [o ->]. rewrite bind_ok. by eexists. }
    destruct (preauth_ok c (generate_nonce (in_random inp)) e0 inp Hconf) as [m Hm].
    set (w2 := mkRun (set_etype e0 (self w)) ((requests w ++ [first_request c inp]) ++ [m])). exists (requests w2), e0.
    rewrite (auth_bind_ok _ _ _ reply w2); [exact (Htail w2 eq_refl)|].
    rewrite (lift_bind _ _ _ _ Hpe). rewrite Hcode, Z.eqb_refl. rewrite (lift_bind _ _ _ _ He0), update_bind, (lift_bind _ _ _ _ Hm).
    unfold ask. rewrite (Hsecond e0 m Hm). reflexivity.
Qed.

(** ** The TGS exchange *)

Definition tgs_served (c : KerberosCredentials) (tgt : Ticket) (key : bytes) (etype : EncryptionType) (host : list Z) (inp : Inputs)
    (reply : bytes) : Prop :=
  ∀ m, tgs_request c tgt key etype host inp = Ok m → kdc_answers (in_net inp) m reply.

Lemma tgs_honest host inp w tgt key etype rep p etype' reply :
  let s := self w in
  k_tgt s = Some tgt → k_as_session_key s = Some key → k_etype s = etype → key_fits key etype → confounders_ok inp →
  tgs_served (k_credentials s) tgt key etype host inp reply →
  sealed_reply 13 key KEY_USAGE_TGS_REP_ENC_PART_SESSION_KEY etype rep p reply → keytype (ep_key p) = EncryptionType_code etype' →
  ∃ sent, tgs_exchange host inp w
    = (Ok (), mkRun (set_service (received (kr_ticket rep)) (keyvalue (ep_key p)) (set_etype etype' (self w))) sent).
Proof.
  intros s Ht Hk He Hf Hconf Hserved Hreply Hkt. destruct (sealed_opens _ _ _ _ _ _ _ Hf Hreply) as (Hno & Hparse & Hdec & _).
  unfold tgs_exchange. rewrite get_bind. fold s. rewrite Ht, Hk, He.
  destruct (tgs_request_ok (k_credentials s) tgt key etype host inp Hf Hconf) as [m Hm]. rewrite (lift_bind _ _ _ _ Hm).
  rewrite (ask_bind _ _ _ _ _ (Hserved m Hm)), Hno, (lift_bind _ _ _ _ Hparse). cbn [kr_msg_type kr_enc_part kr_ticket Z.eqb Pos.eqb negb].
  destruct (kerberos_decrypt key KEY_USAGE_TGS_REP_ENC_PART_SESSION_KEY (ed_cipher (kr_enc_part rep)) etype) as [plain|e|] eqn:Ed; [|done|done].
  rewrite bind_ok in Hdec. assert (decrypt_tgs_part key (ed_cipher (kr_enc_part rep)) etype = Ok plain) as Hp by (unfold decrypt_tgs_part; by rewrite Ed).
  rewrite (lift_bind _ _ _ _ Hp), (lift_bind _ _ _ _ Hdec), Hkt.
  assert (key_etype "TGS session key has unsupported etype {other}" (EncryptionType_code etype') = Ok etype') as Het by by destruct etype'.
  rewrite (lift_bind _ _ _ _ Het). by eexists.
Qed.

(** ** Any KDC *)

(** A part that was sealed under the key for the usage, by the checksum it carries. *)
Definition opened (key : bytes) (usage : Z) (cipher : bytes) (etype : EncryptionType) (p : EncKdcRepPart) : Prop :=
  ∃ plain, kerberos_decrypt key usage cipher etype = Ok plain ∧ parse_enc_kdc_rep_part plain = Ok p.

Lemma accept_as_inv c response w w' :
  accept_as_rep c response w = (Ok (), w') →
  ∃ rep etype key p, parse_kdc_rep response = Ok rep ∧ derive_user_key c etype = Ok key ∧
    opened key KEY_USAGE_AS_REP_ENC_PART (ed_cipher (kr_enc_part rep)) etype p ∧
    self w' = set_tgt (kr_ticket rep) (keyvalue (ep_key p)) (set_etype etype (self w)).
Proof.
  unfold accept_as_rep. destruct (is_krb_error response); [by intros (? & _ & ?)%lift_bind_inv|].
  intros (rep & Hrep & E)%lift_bind_inv. destruct (negb _); [done|]. apply lift_bind_inv in E as (etype & Het & E). rewrite update_bind in E.
  apply lift_bind_inv in E as (key & Hkey & E). apply lift_bind_inv in E as (plain & Hplain & E). apply lift_bind_inv in E as (p & Hp & E).
  injection E as <-. exists rep, etype, key, p. split_and!; [done|done|by exists plain|done].
Qed.

Lemma as_inv inp w w' :
  as_exchange inp w = (Ok (), w') →
  let c := k_credentials (self w) in
  ∃ m response rep etype key p, kdc_answers (in_net inp) m response ∧ parse_kdc_rep response = Ok rep ∧ derive_user_key c etype = Ok key ∧
    opened key KEY_USAGE_AS_REP_ENC_PART (ed_cipher (kr_enc_part rep)) etype p ∧ k_credentials (self w') = c ∧
    k_tgt (self w') = Some (kr_ticket rep) ∧ k_as_session_key (self w') = Some (keyvalue (ep_key p)) ∧ k_etype (self w') = etype.
Proof.
  unfold as_exchange. rewrite get_bind. set (c := k_credentials (self w)). intros (r1 & Hr1 & E)%ask_bind_inv.
  apply auth_bind_inv in E as (response & w1 & E1 & E).
  assert ((∃ m, kdc_answers (in_net inp) m response) ∧ k_credentials (self w1) = c) as [[m Hm] Hc].
  { destruct (is_krb_error r1); [|injection E1 as <- <-; split; [by eexists|done]].
    apply lift_bind_inv in E1 as (e & _ & E1). destruct (_ =? _); [|by apply lift_inv in E1 as [? _]].
    apply lift_bind_inv in E1 as (e0 & _ & E1). rewrite update_bind in E1. apply lift_bind_inv in E1 as (m & _ & E1).
    unfold ask in E1. injection E1 as E1 <-. split; [by exists m|done]. }
  apply accept_as_inv in E as (rep & etype & key & p & H3 & H4 & H5 & E). exists m, response, rep, etype, key, p.
  rewrite E. split_and!; try done. 
Qed.

Lemma key_etype_code what code e : key_etype what code = Ok e → code = EncryptionType_code e.
Proof.
  unfold key_etype. destruct (Z.eqb_spec code 18) as [-> |]; [by intros [= <-]|]. destruct (Z.eqb_spec code 17) as [-> |]; [by intros [= <-]|].
  destruct (Z.eqb_spec code 23) as [-> |]; [by intros [= <-]|done].
Qed.

Lemma tgs_inv host inp w w' :
  tgs_exchange host inp w = (Ok (), w') →
  ∃ tgt key m response rep usage p,
    k_tgt (self w) = Some tgt ∧ k_as_session_key (self w) = Some key ∧
    tgs_request (k_credentials (self w)) tgt key (k_etype (self w)) host inp = Ok m ∧ kdc_answers (in_net inp) m response ∧
    parse_kdc_rep response = Ok rep ∧ kr_msg_type rep = 13 ∧ (usage = 8 ∨ usage = 9) ∧
    opened key usage (ed_cipher (kr_enc_part rep)) (k_etype (self w)) p ∧
    k_credentials (self w') = k_credentials (self w) ∧
    k_service_ticket (self w') = Some (kr_ticket rep) ∧ k_tgs_session_key (self w') = Some (keyvalue (ep_key p)) ∧
    keytype (ep_key p) = EncryptionType_code (k_etype (self w')).
Proof.
  unfold tgs_exchange. rewrite get_bind. destruct (k_tgt (self w)) as [tgt|]; [|done]. destruct (k_as_session_key (self w)) as [key|]; [|done].
  intros (m & Hm & E)%lift_bind_inv. apply ask_bind_inv in E as (response & Hr & E).
  destruct (is_krb_error response); [by apply lift_bind_inv in E as (? & _ & ?)|]. apply lift_bind_inv in E as (rep & Hrep & E).
  destruct (Z.eqb_spec (kr_msg_type rep) 13) as [H13|]; [cbn [negb] in E|done].
  apply lift_bind_inv in E as (plain & Hplain & E). apply lift_bind_inv in E as (p & Hp & E). apply lift_bind_inv in E as (e' & He' & E).
  injection E as <-.
  assert (∃ usage, (usage = 8 ∨ usage = 9) ∧ kerberos_decrypt key usage (ed_cipher (kr_enc_part rep)) (k_etype (self w)) = Ok plain) as (usage & Hu & Hd).
  { unfold decrypt_tgs_part in Hplain. destruct (kerberos_decrypt key KEY_USAGE_TGS_REP_ENC_PART_SESSION_KEY _ _) eqn:E8; [|by exists 9; split; [right|]|done].
    exists 8. split; [by left|]. by rewrite <- Hplain. }
  exists tgt, key, m, response, rep, usage, p. split_and!; try done; [by exists plain|].
  by apply key_etype_code in He'.
Qed.

Lemma build_inv inp w w' :
  build_ap_req inp w = (Ok (), w') →
  ∃ ticket key tok, k_service_ticket (self w) = Some ticket ∧ k_tgs_session_key (self w) = Some key ∧
    ap_request (k_credentials (self w)) ticket key (k_etype (self w)) inp = Ok tok ∧
    self w' = set_ap_req tok key (self w).
Proof.
  unfold build_ap_req. rewrite get_bind. destruct (k_service_ticket (self w)) as [ticket|]; [|done].
  destruct (k_tgs_session_key (self w)) as [key|]; [|done]. intros (tok & Htok & E)%lift_bind_inv. injection E as <-. by exists ticket, key, tok.
Qed.

(** The part carries the checksum that the key gives for the usage. *)
Definition sealed_under (key : bytes) (usage : Z) (cipher : bytes) (etype : EncryptionType) (p : EncKdcRepPart) : Prop :=
  ∃ confounder plain, len confounder = confounder_len etype ∧
    sealing_tag key usage (confounder ++ plain) etype = Ok (tag_of cipher etype) ∧ parse_enc_kdc_rep_part plain = Ok p.

Lemma opened_sealed key usage cipher etype p : key_fits key etype → opened key usage cipher etype p → sealed_under key usage cipher etype p.
Proof.
  intros Hf (plain & Hd & Hp). destruct (profile_authentic key usage cipher etype Hf) as [_ Ha]. destruct (Ha plain Hd) as (conf & Hl & Ht).
  by exists conf, plain.
Qed.

(** A KDC that follows RFC 4120: it answers the AS request or asks for pre-authentication first, seals its AS
    reply under the key of the password and its TGS reply under the session key it issued, and issues
    session keys that fit their types. *)
Record honest_kdc (c : KerberosCredentials) (host : list Z) (inp : Steps) (etype etype' : EncryptionType)
    (rep1 rep2 : KdcRep) (p1 p2 : EncKdcRepPart) : Prop := {
  hk_as : ∃ key reply, derive_user_key c etype = Ok key ∧ as_served c (in_as inp) reply ∧
            sealed_reply 11 key KEY_USAGE_AS_REP_ENC_PART etype rep1 p1 reply;
  hk_key : key_fits (keyvalue (ep_key p1)) etype;
  hk_tgs : ∃ reply, tgs_served c (received (kr_ticket rep1)) (keyvalue (ep_key p1)) etype host (in_tgs inp) reply ∧
             sealed_reply 13 (keyvalue (ep_key p1)) KEY_USAGE_TGS_REP_ENC_PART_SESSION_KEY etype rep2 p2 reply;
  hk_type : keytype (ep_key p2) = EncryptionType_code etype';
  hk_service_key : key_fits (keyvalue (ep_key p2)) etype'
}.
Definition random_ok (inp : Steps) : Prop := confounders_ok (in_as inp) ∧ confounders_ok (in_tgs inp) ∧ confounders_ok (in_ap inp).

(** The authenticator after a login. *)
Definition logged_in_with (c : KerberosCredentials) (inp : Steps) (etype' : EncryptionType) (rep1 rep2 : KdcRep) (p2 : EncKdcRepPart)
    (s : Authenticator) : Prop :=
  k_tgt s = Some (received (kr_ticket rep1)) ∧ k_service_ticket s = Some (received (kr_ticket rep2)) ∧
  k_session_key s = Some (keyvalue (ep_key p2)) ∧
  ∃ ct, auth_token s = Some (wrap_neg_token_init [OID_MS_KERBEROS]
          (gss_mech_token (encode_ap_req (received (kr_ticket rep2)) (mkEncryptedData (EncryptionType_code etype') None ct) true))) ∧
        kerberos_decrypt (keyvalue (ep_key p2)) KEY_USAGE_AP_REQ_AUTHENTICATOR_SPNEGO ct etype'
        = Ok (let '(ctime, cusec) := current_kerberos_time (in_now (in_ap inp)) in
              encode_authenticator (krb_realm c) (client_name c) ctime cusec None None None).

Lemma honest_login host inp w etype etype' rep1 rep2 p1 p2 :
  let c := k_credentials (self w) in
  random_ok inp → honest_kdc c host inp etype etype' rep1 rep2 p1 p2 →
  ∃ w', krb_authenticate host inp w = (Ok (), w') ∧ logged_in_with c inp etype' rep1 rep2 p2 (self w').
Proof.
  intros c (Hc1 & Hc2 & Hc3) [(key1 & reply1 & Hkey & Hserved & Hr1) Hf1 (reply2 & Htgs & Hr2) Hkt Hf2]. unfold krb_authenticate.
  destruct (user_key_ok c etype) as (key & Ek & Hfk). rewrite Hkey in Ek. injection Ek as <-.
  destruct (as_honest (in_as inp) w key1 etype rep1 p1 reply1 Hkey Hfk Hc1 Hserved Hr1) as (sent & e0 & Eas).
  rewrite (auth_bind_ok _ _ _ _ _ Eas). set (w1 := mkRun _ sent).
  destruct (tgs_honest host (in_tgs inp) w1 (received (kr_ticket rep1)) (keyvalue (ep_key p1)) etype rep2 p2 etype' reply2) as [sent2 Etgs]; try done.
  rewrite (auth_bind_ok _ _ _ _ _ Etgs). set (w2 := mkRun _ sent2).
  destruct (ap_request_ok c (received (kr_ticket rep2)) (keyvalue (ep_key p2)) etype' (in_ap inp) Hf2 Hc3) as (ct & Eap & Ed).
  unfold build_ap_req. rewrite get_bind. change (k_service_ticket (self w2)) with (Some (received (kr_ticket rep2))).
  change (k_tgs_session_key (self w2)) with (Some (keyvalue (ep_key p2))). cbv iota.
  change (k_credentials (self w2)) with c. change (k_etype (self w2)) with etype'. rewrite (lift_bind _ _ _ _ Eap).
  eexists. split; [reflexivity|]. do 3 (split; [reflexivity|]). exists ct. split; [reflexivity|exact Ed].
Qed.

(** A lifted step either fails, and nothing changed, or goes on. *)
Lemma lift_case {A B} (P : result Error B * Run → Prop) (r : result Error A) (k : A → auth B) w :
  r ≠ Panic → (∀ e, P (Err e, w)) → (∀ a, r = Ok a → P (k a w)) → P ((lift r ≫= k) w).
Proof. intros Hr He Hk. destruct r as [a|e|]; [by apply Hk|by apply He|done]. Qed.

(** What the server's answer may do. *)
Definition mutual_effect (w : Run) (o : result Error unit * Run) : Prop :=
  o.1 ≠ Panic ∧
  (o.2 = w ∨
   ∃ key etype ap_rep confounder plain part subkey,
     o.1 = Ok () ∧ k_session_key (self w) = Some key ∧ len confounder = confounder_len etype ∧
     sealing_tag key 12 (confounder ++ plain) etype = Ok (tag_of (ed_cipher (ar_enc_part ap_rep)) etype) ∧
     parse_enc_ap_rep_part plain = Ok part ∧ eap_subkey part = Some subkey ∧
     o.2 = mkRun (set_session_key (keyvalue subkey) (self w)) (requests w)).

(** ** The theorems *)

(** Against a KDC that follows RFC 4120 a login with a password succeeds.  Whether the KDC answers
    the first request or asks for pre-authentication, when its AS reply is sealed under the key of
    the password (of any of the three encryption types), its TGS reply under the session key it
    issued, and the session keys fit their types, then [krb_authenticate] returns; it keeps both
    tickets byte for byte, its session key is the one in the TGS reply, and the token is an AP-REQ
    with the service ticket whose authenticator opens under that key and names the client and
    the time of the clock. *)
Theorem kerberos_login_honest (host : list Z) (inp : Steps) (w : Run) (etype etype' : EncryptionType)
    (rep1 rep2 : KdcRep) (p1 p2 : EncKdcRepPart) :
  let c := k_credentials (self w) in
  random_ok inp → honest_kdc c host inp etype etype' rep1 rep2 p1 p2 →
  ∃ w', krb_authenticate host inp w = (Ok (), w') ∧ logged_in_with c inp etype' rep1 rep2 p2 (self w').
Proof. apply honest_login. Qed.

(** C20: the client takes a session key from nobody but a KDC that knows the user's key.  Whatever the
    network answers, when [krb_authenticate] returns, the session key and the service ticket are those
    of a reply whose encrypted part opens under the session key of an AS reply (key usage 8 or 9),
    and the part of that AS reply carries the checksum that the key derived from the password
    gives; the token is the AP-REQ made with that ticket, that key and the key's own type. *)
Theorem kerberos_login_sound (host : list Z) (inp : Steps) (w w' : Run) :
  krb_authenticate host inp w = (Ok (), w') →
  let c := k_credentials (self w) in
  ∃ rep1 etype key1 p1 rep2 usage p2 tok,
    derive_user_key c etype = Ok key1 ∧ key_fits key1 etype ∧
    sealed_under key1 3 (ed_cipher (kr_enc_part rep1)) etype p1 ∧
    (usage = 8 ∨ usage = 9) ∧ opened (keyvalue (ep_key p1)) usage (ed_cipher (kr_enc_part rep2)) etype p2 ∧
    (key_fits (keyvalue (ep_key p1)) etype → sealed_under (keyvalue (ep_key p1)) usage (ed_cipher (kr_enc_part rep2)) etype p2) ∧
    (∃ m1 m2 response1 response2, kdc_answers (in_net (in_as inp)) m1 response1 ∧ parse_kdc_rep response1 = Ok rep1 ∧
       kdc_answers (in_net (in_tgs inp)) m2 response2 ∧ parse_kdc_rep response2 = Ok rep2 ∧
       tgs_request c (kr_ticket rep1) (keyvalue (ep_key p1)) etype host (in_tgs inp) = Ok m2) ∧
    k_session_key (self w') = Some (keyvalue (ep_key p2)) ∧ k_service_ticket (self w') = Some (kr_ticket rep2) ∧
    keytype (ep_key p2) = EncryptionType_code (k_etype (self w')) ∧
    auth_token (self w') = Some tok ∧ ap_request c (kr_ticket rep2) (keyvalue (ep_key p2)) (k_etype (self w')) (in_ap inp) = Ok tok.
Proof.
  intros (? & w1 & Eas & E)%auth_bind_inv c. destruct x. apply auth_bind_inv in E as ([] & w2 & Etgs & Eap).
  apply as_inv in Eas as (m1 & r1 & rep1 & etype & key1 & p1 & A1 & A2 & A3 & A4 & A5 & A6 & A7 & A8).
  apply tgs_inv in Etgs as (tgt & key & m2 & r2 & rep2 & usage & p2 & B1 & B2 & B3 & B4 & B5 & B6 & B7 & B8 & B9 & B10 & B11 & B12).
  apply build_inv in Eap as (ticket & key' & tok & C1 & C2 & C3 & C4). fold c in A3, A5.
  rewrite A6 in B1. injection B1 as <-. rewrite A7 in B2. injection B2 as <-. rewrite B10 in C1. injection C1 as <-. rewrite B11 in C2. injection C2 as <-.
  rewrite A8 in B3, B8. rewrite A5 in B3, B9. rewrite B9 in C3.
  destruct (user_key_ok c etype) as (key & Ek & Hfk). rewrite A3 in Ek. injection Ek as <-.
  exists rep1, etype, key1, p1, rep2, usage, p2, tok. rewrite C4. split_and!; try done.
  - by apply opened_sealed.
  - intros Hf. by apply opened_sealed.
  - by exists m1, m2, r1, r2.
Qed.

(** The server's answer changes the session key only to a subkey it sealed under the old one.  With a
    session key of an AES size no token makes [process_mutual_auth_token] panic, and whatever the
    token, either nothing of the authenticator changes, or the token is an AP-REP that opens
    under the present session key (usage 12) and the session key becomes the subkey inside. *)
Theorem mutual_auth_sound (tok : bytes) (w : Run) :
  (∀ key, k_session_key (self w) = Some key → valid_aes_key key = true) →
  mutual_effect w (process_mutual_auth_token tok w).
Proof.
  intros Hkey. assert (∀ (r : result Error unit), r ≠ Panic → mutual_effect w (r, w)) as Hsame by (intros r Hr; split; [done|by left]).
  assert (∀ e, mutual_effect w (Err e, w)) as Herr by (intros e; by apply Hsame).
  unfold process_mutual_auth_token. apply lift_case; [|done|].
  { destruct tok as [|b tok]; [done|]. apply np_if; [|done]. apply np_bind; [auto with krb|]. by intros [[??]?]. }
  intros inner _. destruct (Z.ltb_spec (len inner) 2); [apply Herr|].
  destruct (byte_at_ok inner 0) as (id0 & E0 & _); [lia|]. destruct (byte_at_ok inner 1) as (id1 & E1 & _); [lia|].
  rewrite (lift_bind _ _ _ _ E0), (lift_bind _ _ _ _ E1). rewrite slice_ok by lia. rewrite (lift_bind _ _ _ _ eq_refl).
  set (krb_data := subslice inner 2 (len inner)). destruct (_ && _).
  - apply lift_case; [auto with krb|done|]. intros ap_rep _. rewrite get_bind. destruct (k_session_key (self w)) as [key|] eqn:Ek; [|apply Herr].
    specialize (Hkey key eq_refl). apply lift_case; [unfold key_etype; by repeat case_match|done|]. intros etype _.
    destruct (valid_authentic key KEY_USAGE_AP_REP_ENC_PART (ed_cipher (ar_enc_part ap_rep)) etype (λ _, Hkey)) as [Hnp Ha].
    apply lift_case; [exact Hnp|done|]. intros plain Hplain. destruct (Ha plain Hplain) as (conf & Hl & Ht).
    apply lift_case; [auto with krb|done|]. intros part Hpart. destruct (eap_subkey part) as [subkey|] eqn:Es; [|by apply Hsame].
    split; [done|]. right. by exists key, etype, ap_rep, conf, plain, part, subkey.
  - destruct (_ && _); [|by apply Hsame]. pose proof (np_krb_error krb_data) as Hnp.
    destruct (parse_krb_error krb_data); [by apply Hsame|by apply Hsame|done].
Qed.

End login.

(** ** A login, with the toy cipher of [KrbProfile] *)

#[local] Existing Instance toy_ntlm.
#[local] Existing Instance toy_ntlm_laws.

Definition alice : KerberosCredentials := mkKerberosCredentials (literal "alice") (literal "secret") (literal "CORP") (literal "kdc").
Definition fresh : Run := mkRun (Authenticator_new alice) [].

Definition value_of (r : result Error bytes) : bytes := match r with Ok b => b | _ => [] end.
Definition plain_choice : PartChoice := mkPartChoice (Some 25) [x30; x00] None None None None.
Definition part_with (t : Z) (key : bytes) (nonce : Z) : EncKdcRepPart :=
  mkEncKdcRepPart (mkEncryptionKey t key) nonce 0 (literal "20240101000000Z") (literal "20240101100000Z") (literal "CORP") sample_name.
Definition seal_part (key : bytes) (usage : Z) (p : EncKdcRepPart) : bytes :=
  value_of (kerberos_encrypt key usage (zeros 16) (part_bytes plain_choice p) Aes256CtsHmacSha196).
Definition reply_with (msg_type : Z) (cipher : bytes) : KdcRep :=
  mkKdcRep msg_type (literal "CORP") (client_name alice) (mkTicket 5 (literal "CORP") sample_name sample_enc None)
    (mkEncryptedData 18 None cipher).

Definition alice_key : bytes := value_of (derive_user_key alice Aes256CtsHmacSha196).
Definition part1 : EncKdcRepPart := part_with 18 (repeat xaa 32) 1.
Definition part2 : EncKdcRepPart := part_with 17 (repeat xbb 16) 2.
Definition rep1 : KdcRep := reply_with 11 (seal_part alice_key 3 part1).
Definition rep2 : KdcRep := reply_with 13 (seal_part (repeat xaa 32) 8 part2).
Definition needs_preauth : bytes :=
  krb_error_bytes None None None [x30; x00] [x30; x00] (mkKrbError 25 None (literal "CORP") sample_name None None).

(** A KDC that answers by datagram. *)
Definition udp_only (response : bytes) : KdcNetwork :=
  mkKdcNetwork None (λ _, Done ()) (λ _, Done response) (λ _, mkTcpPeer TimedOut None TimedOut [] Stalls).
Definition inputs_with (net : bytes → KdcNetwork) : Inputs := mkInputs (zeros 4) 1709210096123456 (λ e, zeros (confounder_len e)) net.
Definition asks_first (reply : bytes) (m : bytes) : KdcNetwork :=
  udp_only (if bool_decide (m = first_request alice (inputs_with (λ _, silence))) then needs_preauth else reply).
Definition alice_steps : Steps :=
  mkSteps (inputs_with (asks_first (kdc_rep_bytes None rep1))) (inputs_with (λ _, udp_only (kdc_rep_bytes None rep2))) (inputs_with (λ _, silence)).

Lemma sample_name_wf : PrincipalName_wf sample_name.
Proof. split; [by vm_compute|by repeat constructor]. Qed.
Lemma part_with_wf t key nonce : - 2 ^ 31 <= t < 2 ^ 31 → is_u32 nonce → EncKdcRepPart_wf (part_with t key nonce).
Proof.
  intros Ht Hn. split; [exact Ht|]. split; [exact Hn|]. split; [by vm_compute|]. do 3 (split; [by repeat constructor|]). apply sample_name_wf.
Qed.
Lemma reply_with_wf t cipher : t = 11 ∨ t = 13 → KdcRep_wf (reply_with t cipher).
Proof.
  intros Ht. split; [exact Ht|]. split; [by repeat constructor|]. split; [split; [by vm_compute|by repeat constructor]|].
  split; [|split; [by vm_compute|by intros k]]. split; [by vm_compute|]. split; [by repeat constructor|]. split; [apply sample_name_wf|].
  split; [by vm_compute|]. intros k [= <-]. by vm_compute.
Qed.

Lemma sealed_sample t key usage p :
  t = 11 ∨ t = 13 → EncKdcRepPart_wf p → small (part_bytes plain_choice p) → small (kdc_rep_bytes None (reply_with t (seal_part key usage p))) →
  kerberos_encrypt key usage (zeros 16) (part_bytes plain_choice p) Aes256CtsHmacSha196 = Ok (seal_part key usage p) →
  sealed_reply t key usage Aes256CtsHmacSha196 (reply_with t (seal_part key usage p)) p (kdc_rep_bytes None (reply_with t (seal_part key usage p))).
Proof.
  intros Ht Hp Hs1 Hs2 He. exists None, plain_choice, (zeros 16). split; [reflexivity|]. split; [exact Hs2|].
  split; [by apply reply_with_wf|]. split; [reflexivity|]. split; [exact Hp|]. split; [apply elem_of_cons; right; apply elem_of_cons; by left|]. split; [exact Hs1|].
  split; [reflexivity|]. split; [reflexivity|exact He].
Qed.

Lemma alice_random : random_ok alice_steps.
Proof. by split_and!; intros []. Qed.
Lemma alice_kdc : honest_kdc alice (literal "nas.corp") alice_steps Aes256CtsHmacSha196 Aes128CtsHmacSha196 rep1 rep2 part1 part2.
Proof.
  split.
  - exists alice_key, (kdc_rep_bytes None rep1). split; [vm_compute; reflexivity|]. split.
    + right. exists None, None, None, [x30; x00], [x30; x00], (mkKrbError 25 None (literal "CORP") sample_name None None).
      split; [split; [by vm_compute|]; split; [by repeat constructor|]; split; [apply sample_name_wf|done]|].
      split; [reflexivity|]. split; [by vm_compute|]. split; [vm_compute; reflexivity|].
      intros [] m Hm; vm_compute in Hm; injection Hm as <-; vm_compute; reflexivity.
    + apply sealed_sample; [by left|by apply part_with_wf|by vm_compute|by vm_compute|vm_compute; reflexivity].
  - reflexivity.
  - exists (kdc_rep_bytes None rep2). split; [intros m _; vm_compute; reflexivity|].
    apply sealed_sample; [by right|by apply part_with_wf|by vm_compute|by vm_compute|vm_compute; reflexivity].
  - reflexivity.
  - reflexivity.
Qed.

Lemma kerberos_login_honest_witness :
  ∃ w', krb_authenticate (literal "nas.corp") alice_steps fresh = (Ok (), w') ∧ k_session_key (self w') = Some (repeat xbb 16).
Proof.
  destruct (kerberos_login_honest (literal "nas.corp") alice_steps fresh Aes256CtsHmacSha196 Aes128CtsHmacSha196 rep1 rep2 part1 part2
    alice_random alice_kdc) as (w' & E & _ & _ & Hk & _).
  exists w'. split; [exact E|exact Hk].
Defined.

Definition logged_in : Run := (krb_authenticate (literal "nas.corp") alice_steps fresh).2.
Lemma kerberos_login_sound_witness :
  ∃ rep etype key p, derive_user_key alice etype = Ok key ∧ sealed_under key 3 (ed_cipher (kr_enc_part rep)) etype p.
Proof.
  assert (krb_authenticate (literal "nas.corp") alice_steps fresh = (Ok (), logged_in)) as E by (vm_compute; reflexivity).
  destruct (kerberos_login_sound (literal "nas.corp") alice_steps fresh logged_in E) as (rep & etype & key & p & ? & ? & ? & ? & H1 & _ & H2 & _).
  exists rep, etype, key, p. split; [exact H1|exact H2].
Defined.

Lemma mutual_auth_sound_witness : mutual_effect logged_in (process_mutual_auth_token [x02; x00] logged_in).
Proof. apply mutual_auth_sound. intros key E. vm_compute in E. injection E as <-. reflexivity. Defined.

(** The nonce of a reply is not compared with the one sent: this login accepted 1 for 0. *)
Example nonce_is_not_checked :
  generate_nonce (in_random (in_as alice_steps)) = 0 ∧ ep_nonce part1 = 1 ∧
  (krb_authenticate (literal "nas.corp") alice_steps fresh).1 = Ok ().
Proof. split_and!; vm_compute; reflexivity. Qed.

(** After the AS exchange the encryption type is that of the reply, not of the session key in it: a key of
    another type is used with the wrong profile, and one of another size panics. *)
Definition steps_with_key (t : Z) (key : bytes) : Steps :=
  mkSteps (inputs_with (λ _, udp_only (kdc_rep_bytes None (reply_with 11 (seal_part alice_key 3 (part_with t key 1))))))
    (inputs_with (λ _, silence)) (inputs_with (λ _, silence)).
Example session_key_type_ignored :
  let '(r, w) := as_exchange (in_as (steps_with_key 17 (repeat xbb 16))) fresh in
  r = Ok () ∧ k_as_session_key (self w) = Some (repeat xbb 16) ∧ k_etype (self w) = Aes256CtsHmacSha196.
Proof. vm_compute. done. Qed.
Example odd_session_key_panics : (krb_authenticate (literal "nas.corp") (steps_with_key 18 [x01]) fresh).1 = Panic.
Proof. vm_compute. reflexivity. Qed.
