(* ===== verification/KrbSession.v ===== *)
(** * Session setup with Kerberos ([src/client/session.rs])

    The authenticator of [KrbAuth] behind the interface that session setup uses, and the two ways
    to a session with it.  The theorem joins the three parties: a KDC that follows RFC 4120, the
    client, and a server that opens the AP-REQ with the key of the ticket. *)

From S2P Require Import Prelude Types Fields Pack Codec Utf8 Header Signing Kdf Ntlm Spnego Transform Compound Session Negotiate Connection Request Pipeline Exec Setup KrbCrypto KrbFold KrbProfile KrbMessages KrbWire Ccache KrbTime Kdc KrbAuth KrbLogin.

Section setup.
Context `{KrbPrimitives} `{NtlmPrimitives} `{MacPrimitives} `{Sha512}.

#[export] Instance krb_authenticator : KerberosAuthenticator Run := {|
  krb_token w := auth_token (self w);
  krb_process_mutual_auth_token t w := process_mutual_auth_token t w;
  krb_session_key w := k_session_key (self w)
|}.

Definition setup_kerberos (credentials : KerberosCredentials) (server_hostname : list Z) (inp : Steps) : io Setup Session :=
  let '(r, auth) := krb_authenticate server_hostname inp (mkRun (Authenticator_new credentials) []) in
  io_lift r ;;
  setup_kerberos_with_auth auth.

Definition setup_kerberos_from_ccache (credentials : KerberosCredentials) (server_hostname : list Z) (ccache : CCache) (inp : Steps) :
    io Setup Session :=
  let '(r, auth) := authenticate_from_ccache ccache server_hostname inp (mkRun (Authenticator_new credentials) []) in
  io_lift r ;;
  setup_kerberos_with_auth auth.

End setup.

(** ** A server that opens the AP-REQ (RFC 4120, section 3.2.3) *)

Definition ap_req_field (ftag : Z) (fvalue : bytes) (acc : option bytes * option EncryptedData) :
    result Error (option bytes * option EncryptedData) :=
  let '(ticket, enc) := acc in
  if ftag =? 0xa3 then Ok (Some fvalue, enc)
  else if ftag =? 0xa4 then v ← parse_encrypted_data fvalue; Ok (ticket, Some v)
  else Ok acc.

(** The ticket's bytes and the encrypted authenticator. *)
Definition read_ap_req (data : bytes) : result Error (bytes * EncryptedData) :=
  inner ← expect_tlv 0x6e "not an AP-REQ" data;
  seq_data ← expect_tlv TAG_SEQUENCE "not a SEQUENCE" inner;
  fields ← parse_sequence_fields seq_data;
  '(ticket, enc) ← each_field ap_req_field fields (None, None);
  ticket ← ok_or_data ticket "no ticket";
  enc ← ok_or_data enc "no authenticator";
  Ok (ticket, enc).

Section service.
Context `{KrbPrimitives} `{NtlmPrimitives} `{MacPrimitives} `{Sha512}.
(** The session key in a ticket that the service can open. *)
Variable tickets : bytes → option bytes.

(** The key of a token that a client of the service sent. *)
Definition service_accepts (token : bytes) : option bytes :=
  resp ← ok_of (parse_neg_token_resp token);
  mech_token ← response_token resp;
  '(_, rest, _) ← ok_of (parse_gss_api_wrapper mech_token);
  if negb (bool_decide (take 2 rest = [x01; x00])) then None else
  '(ticket, enc) ← ok_of (read_ap_req (drop 2 rest));
  key ← tickets ticket;
  etype ← ok_of (etype_from_i32 (ed_etype enc));
  _ ← ok_of (kerberos_decrypt key 11 (ed_cipher enc) etype);
  Some key.

Definition service_session (dialect : Dialect) (cipher : option Cipher) (hash request : bytes) : option ServerKeys :=
  q ← ok_of (unpack_body SessionSetupRequest (drop 64 request));
  key ← service_accepts (ssq_security_buffer q);
  server_keys dialect cipher (take 16 key) (sha512 (hash ++ request)).
End service.

(** ** What it reads *)

Lemma ap_req_back ticket ed mutual :
  EncryptedData_wf ed → small (encode_ap_req ticket ed mutual) →
  read_ap_req (encode_ap_req ticket ed mutual)
  = Ok (match tkt_raw_bytes ticket with Some b => b | None => encode_ticket ticket end, ed).
Proof.
  intros He Hs. set (raw := match tkt_raw_bytes ticket with Some b => b | None => encode_ticket ticket end).
  set (opts := der_bit_string [if mutual then x20 else x00; x00; x00; x00] 0).
  set (l := [(0, der_integer 5); (1, der_integer 14); (2, opts); (3, raw); (4, encode_encrypted_data ed)]).
  assert (encode_ap_req ticket ed mutual = der_tlv 0x6e (der_sequence (contexts l))) as E by done.
  rewrite E in *. apply small_tlv in Hs as Hs'. unfold read_ap_req. rewrite expect_back by done. rewrite bind_ok.
  unfold l in Hs'. small_parts Hs'.
  rewrite (record_back ap_req_field l _ _ (Some raw, Some ed)); [done|by repeat constructor|by apply small_tlv in Hs|].
  unfold l. read_fields ap_req_field.
Qed.

Lemma gss_token_bytes ap_req : gss_mech_token ap_req = gss_bytes (drop 2 OID_KERBEROS) ([x01; x00] ++ ap_req).
Proof.
  unfold gss_mech_token, gss_bytes, der_application. cbv zeta. change (Z.lor 96 0) with 0x60. unfold der_tlv at 1, der_length at 1.
  change (der_tlv 6 (drop 2 OID_KERBEROS)) with ([x06] ++ [byte_of_u8 (len (drop 2 OID_KERBEROS))] ++ drop 2 OID_KERBEROS).
  rewrite <- !app_assoc. reflexivity.
Qed.

Lemma etype_code_back e : etype_from_i32 (EncryptionType_code e) = Ok e.
Proof. by destruct e. Qed.

Section accepts.
Context `{KrbPrimitives} `{NtlmPrimitives}.

Lemma token_accepted (tickets : bytes → option bytes) ticket ct etype key plain raw :
  let ap_req := encode_ap_req ticket (mkEncryptedData (EncryptionType_code etype) None ct) true in
  len (gss_mech_token ap_req) < 65300 → tkt_raw_bytes ticket = Some raw → tickets raw = Some key →
  kerberos_decrypt key 11 ct etype = Ok plain →
  service_accepts tickets (wrap_neg_token_init [OID_MS_KERBEROS] (gss_mech_token ap_req)) = Some key.
Proof.
  intros ap_req Hl Hraw Hk Hd. unfold service_accepts. change OID_MS_KERBEROS with (der_tlv 6 (drop 2 OID_MS_KERBEROS)).
  rewrite neg_token_init_back; [|done|change (len (concat [])) with 0; lia]. cbn [ok_of mbind option_bind response_token].
  assert (small (gss_bytes (drop 2 OID_KERBEROS) ([x01; x00] ++ ap_req))) as Hs by (rewrite <- gss_token_bytes; unfold small; lia).
  rewrite gss_token_bytes, gss_back by done. cbn [ok_of mbind option_bind]. change (take 2 ([x01; x00] ++ ap_req)) with [x01; x00].
  rewrite bool_decide_true by done. cbn [negb]. change (drop 2 ([x01; x00] ++ ap_req)) with ap_req.
  apply small_tlv, small_app in Hs as [_ Hs]. apply small_app in Hs as [_ Hs]. unfold ap_req in *.
  rewrite ap_req_back by (done || (split; [by destruct etype|by intros k])). cbn [ok_of mbind option_bind]. rewrite Hraw, Hk.
  cbn [ok_of mbind option_bind ed_etype ed_cipher]. rewrite etype_code_back. cbn [ok_of mbind option_bind]. rewrite Hd. reflexivity.
Qed.
End accepts.

(** ** Setup *)

Lemma take_16_key (k : bytes) : (if len k >? 16 then take 16 k else k) = take 16 k.
Proof. rewrite Z.gtb_ltb. destruct (Z.ltb_spec 16 (len k)); [done|]. rewrite take_ge; [done|]. unfold len in *. lia. Qed.

Lemma len_spnego_init oids token : len token <= len (wrap_neg_token_init oids token).
Proof.
  unfold wrap_neg_token_init. cbv zeta. repeat (rewrite len_der_tlv || rewrite len_app).
  repeat match goal with |- context [len (der_length ?n)] => pose proof (len_der_length n); generalize dependent (len (der_length n)); intros end.
  pose proof (len_nonneg (concat oids)). repeat match goal with |- context [len ?l] => lazymatch goal with _ : 0 <= len l |- _ => fail | _ => pose proof (len_nonneg l) end end. lia.
Qed.

Section agreement.
Context `{KrbLaws} `{NtlmLaws} `{MacLaws} `{Sha512}.

(** A single round that succeeds, without a token of the server, establishes the session with the
    authenticator's key. *)
Lemma kerberos_round auth s p tok key id n f r rest :
  auth_token (self auth) = Some tok → k_session_key (self auth) = Some key →
  su_params s = Some p → su_answers s = (id, n, Reply f) :: rest → command (fr_header f) = SessionSetup →
  status (fr_header f) = NtStatus.SUCCESS → unpack_body SessionSetupResponse (fr_body f) = Ok r → ssr_security_buffer r = [] →
  let raw := setup_raw id n (su_crypto s) (su_previous_session_id s) tok in
  setup_kerberos_with_auth auth s
  = establish p (PreauthHasher_update raw (su_hasher s)) (session_id (fr_header f)) (ssr_session_flags r) (take 16 key)
      (su_set_crypto (λ c, with_session_id c (session_id (fr_header f))) (su_exchange raw s)).
Proof.
  intros Ht Hk Hp Ha C S U B raw. unfold setup_kerberos_with_auth, require_params.
  rewrite (io_bind_ok _ _ s p s) by (rewrite (io_bind_ok _ _ s (Some p) s); [done|by unfold get; rewrite Hp]).
  cbn [krb_token krb_authenticator]. rewrite Ht. rewrite (io_bind_ok _ _ s (su_hasher s) s) by done.
  rewrite (io_bind_ok _ _ s (su_previous_session_id s) s) by done.
  rewrite (io_bind_ok _ _ s (f, raw) (su_exchange raw s)) by (by rewrite (execute_setup _ _ s _ _ _ _ Ha)).
  cbv beta iota zeta. rewrite (bool_decide_true _ C), S, Z.eqb_refl. cbn [negb andb].
  set (s1 := su_exchange raw s). set (s2 := su_set_crypto (λ c, with_session_id c (session_id (fr_header f))) s1).
  rewrite (io_bind_ok _ _ s1 tt s2) by done. rewrite (io_bind_ok _ _ s2 r s2) by (unfold io_lift; by rewrite U).
  rewrite B. cbn [is_empty]. rewrite (io_bind_ok _ _ s2 auth s2) by done. cbn [krb_session_key krb_authenticator]. rewrite Hk.
  rewrite take_16_key. reflexivity.
Qed.

#[local] Opaque krb_authenticate kerberos_decrypt encode_ap_req gss_mech_token wrap_neg_token_init server_keys establish setup_raw
  encode_authenticator current_kerberos_time encode_ticket unpack_body service_accepts.

(** The server's side: from the request to the keys. *)
Lemma service_agrees tickets p hash id n c prev tok key ks :
  is_u64 prev → len tok < 65300 → service_accepts tickets tok = Some key →
  let raw := setup_raw id n c prev tok in
  server_keys (np_dialect p) (np_cipher p) (take 16 key) (sha512 (hash ++ raw)) = Some ks →
  service_session tickets (np_dialect p) (np_cipher p) hash raw = Some ks.
Proof.
  intros Hprev Hlen Hacc raw Hks. unfold service_session, raw.
  rewrite (setup_raw_read id n c prev tok Hprev) by (pose proof (len_nonneg tok); unfold in_range; lia).
  cbn [ok_of mbind option_bind setup_request ssq_security_buffer]. rewrite Hacc. exact Hks.
Qed.

(** The client's side, once logged in. *)
Lemma setup_after_login credentials host inp w s p tok key id n f r rest :
  krb_authenticate host inp (mkRun (Authenticator_new credentials) []) = (Ok (), w) →
  auth_token (self w) = Some tok → k_session_key (self w) = Some key →
  su_params s = Some p → su_answers s = (id, n, Reply f) :: rest → command (fr_header f) = SessionSetup →
  status (fr_header f) = NtStatus.SUCCESS → unpack_body SessionSetupResponse (fr_body f) = Ok r → ssr_security_buffer r = [] →
  let raw := setup_raw id n (su_crypto s) (su_previous_session_id s) tok in
  ∃ ks s', let session := the_session p (session_id (fr_header f)) (ssr_session_flags r) ks in
    server_keys (np_dialect p) (np_cipher p) (take 16 key) (sha512 (PreauthHasher_value (su_hasher s) ++ raw)) = Some ks ∧
    setup_kerberos credentials host inp s = Some (Ok session, s') ∧ su_sent s' = su_sent s ++ [raw] ∧
    su_session s' = Some session ∧ su_previous_session_id s' = 0 ∧
    in_force session (the_cipher p) (su_crypto s) (su_crypto s') ∧ cs_session_id (su_crypto s') = session_id (fr_header f).
Proof.
  intros Ew Htok Hkey Hp Ha C S U B raw.
  destruct (establish_ok p (PreauthHasher_update raw (su_hasher s)) (session_id (fr_header f)) (ssr_session_flags r) (take 16 key)
    (su_set_crypto (λ c, with_session_id c (session_id (fr_header f))) (su_exchange raw s)))
    as (ks & s' & Eks & Eest & Hses & Hprev' & Hsent & _ & Hforce & Hsid).
  exists ks, s'. cbv zeta. split; [exact Eks|]. split.
  { unfold setup_kerberos. rewrite Ew. rewrite (io_bind_ok _ _ s tt s) by reflexivity.
    rewrite (kerberos_round w s p tok key id n f r rest Htok Hkey Hp Ha C S U B). exact Eest. }
  split; [rewrite Hsent; reflexivity|]. split; [exact Hses|]. split; [exact Hprev'|]. split; [exact Hforce|]. rewrite Hsid. reflexivity.
Qed.

End agreement.

(** ** A witness *)

Definition alice_setup : Setup :=
  mkSetup (Some toy_params) PreauthHasher_new CryptoState_new 0 None true false [] [(1, 1, Reply (setup_answer NtStatus.SUCCESS 4 []))].
Definition alice_tickets (ticket : bytes) : option bytes :=
  if bool_decide (ticket = encode_ticket (kr_ticket rep2)) then Some (repeat xbb 16) else None.

