(* ===== verification/Tcp.v ===== *)
(** * The TCP transport ([src/transport/tcp.rs])

    Framing of messages on a byte stream.  What the sockets do is an input: the write half is
    told how each write goes, the read half gives the bytes in whatever segments they arrive. *)

From S2P Require Import Prelude Types.

Definition MAX_FRAME_SIZE : Z := 16 * 1024 * 1024.

(** ** The sockets *)

(** How a [write_all] or a [flush] goes: completely, or an error after some bytes. *)
Inductive write_outcome := Written | WriteFails (after : Z) (what : string).

(** The write half: what is on the wire, and how the coming writes go. *)
Record WriteHalf := mkWriteHalf { on_wire : bytes; outcomes : list write_outcome }.

(** What a read of the socket gives; reading nothing, or past the last arrival, is the end of the stream. *)
Inductive arrival := Segment (b : bytes) | ReadFails (what : string).

(** [writer.write_all(data).await.map_err(Error::Io)] *)
Definition write_all (data : bytes) (w : WriteHalf) : result Error unit * WriteHalf :=
  match outcomes w with
  | WriteFails after what :: rest =>
      (Err (Io what), mkWriteHalf (on_wire w ++ take (Z.to_nat after) data) rest)
  | outs => (Ok tt, mkWriteHalf (on_wire w ++ data) (tail outs))
  end.

(** [reader.read_exact(&mut buf).await] for a buffer of [need] bytes, with its error mapping. *)
Fixpoint socket_read_exact (need : Z) (r : list arrival) : result Error bytes * list arrival :=
  if need <=? 0 then (Ok [], r)
  else
    match r with
    | [] => (Err Disconnected, [])
    | ReadFails what :: rest => (Err (Io what), rest)
    | Segment s :: rest =>
        if is_empty s then (Err Disconnected, rest)
        else if need <? len s
        then (Ok (take (Z.to_nat need) s), Segment (drop (Z.to_nat need) s) :: rest)
        else
          match socket_read_exact (need - len s) rest with
          | (Ok b, rest) => (Ok (s ++ b), rest)
          | failed => failed
          end
    end.

(** ** [TcpTransport] *)

Inductive dial_outcome := DialTimesOut | DialFails (what : string) | NodelayFails (what : string) | Dialed (r : list arrival) (w : WriteHalf).

Definition tcp_connect (o : dial_outcome) : result Error (list arrival * WriteHalf) :=
  match o with
  | DialTimesOut => Err Timeout
  | DialFails what | NodelayFails what => Err (Io what)
  | Dialed r w => Ok (r, w)
  end.

(** The four bytes before a message. *)
Definition frame_header (length : Z) : bytes :=
  [x00; byte_of_u8 (Z.shiftr length 16); byte_of_u8 (Z.shiftr length 8); byte_of_u8 length].

Definition send (data : bytes) (w : WriteHalf) : result Error unit * WriteHalf :=
  if len data >? MAX_FRAME_SIZE
  then (Err (invalid_data "message size {} exceeds maximum frame size {}"), w)
  else
    match write_all (frame_header (len data)) w with
    | (Ok _, w) =>
        match write_all data w with
        | (Ok _, w) => write_all [] w  (* flush *)
        | failed => failed
        end
    | failed => failed
    end.

Definition receive (r : list arrival) : result Error bytes * list arrival :=
  match socket_read_exact 4 r with
  | (Ok [b0; b1; b2; b3], r) =>
      if negb (u8_of_byte b0 =? 0)
      then (Err (invalid_data "invalid transport frame: first byte must be 0x00, got 0x{:02X}"), r)
      else
        let msg_len := Z.lor (Z.lor (Z.shiftl (u8_of_byte b1) 16) (Z.shiftl (u8_of_byte b2) 8)) (u8_of_byte b3) in
        if msg_len >? MAX_FRAME_SIZE
        then (Err (invalid_data "frame length {} exceeds maximum {}"), r)
        else socket_read_exact msg_len r
  | (Ok _, r) => (Panic, r)
  | (Err e, r) => (Err e, r)
  | (Panic, r) => (Panic, r)
  end.

(** Messages sent, and frames taken from the stream, one after the other. *)
Fixpoint send_all (ms : list bytes) (w : WriteHalf) : result Error unit * WriteHalf :=
  match ms with
  | [] => (Ok tt, w)
  | m :: ms => match send m w with (Ok _, w) => send_all ms w | failed => failed end
  end.
Fixpoint receive_all (n : nat) (r : list arrival) : list (result Error bytes) * list arrival :=
  match n with
  | O => ([], r)
  | S n => let '(m, r) := receive r in let '(ms, r) := receive_all n r in (m :: ms, r)
  end.

(** ** Lemmas *)

(** The stream as bytes, when nothing fails on it. *)
Definition stream (r : list arrival) : bytes :=
  concat (map (λ a, match a with Segment s => s | ReadFails _ => [] end) r).
Definition steady_arrival (a : arrival) : Prop :=
  match a with Segment s => s ≠ [] | ReadFails _ => False end.

(** [socket_read_exact] gives the next bytes of the stream however they are cut up ... *)
Lemma socket_read_exact_ok r : ∀ b rest, Forall steady_arrival r → stream r = b ++ rest →
  ∃ r', socket_read_exact (len b) r = (Ok b, r') ∧ Forall steady_arrival r' ∧ stream r' = rest.
Proof.
  induction r as [|a r IH]; intros b rest Hr E.
  - symmetry in E. apply app_nil in E as [-> ->]. by exists [].
  - apply Forall_cons in Hr as [Ha Hr]. destruct a as [s|]; [|done]. cbn in Ha.
    change (stream (Segment s :: r)) with (s ++ stream r) in E. cbn [socket_read_exact].
    destruct (Z.leb_spec (len b) 0) as [Hb|Hb].
    { pose proof (len_nonneg b). assert (b = []) as -> by (apply len_0_nil; lia).
      exists (Segment s :: r). split; [done|]. by split; [constructor|]. }
    destruct s as [|x s0] eqn:Es; [done|]. rewrite <-Es in *. replace (is_empty s) with false by by rewrite Es.
    destruct (Z.ltb_spec (len b) (len s)) as [Hl|Hl]; unfold len in *.
    + assert (b = take (length b) s) as Eb.
      { assert (take (length b) (s ++ stream r) = take (length b) (b ++ rest)) as Et by by rewrite E.
        rewrite take_app_length in Et. rewrite <-Et at 1. rewrite take_app_le by lia. done. }
      assert (rest = drop (length b) s ++ stream r) as ->.
      { assert (drop (length b) (s ++ stream r) = drop (length b) (b ++ rest)) as Et by by rewrite E.
        rewrite drop_app_length in Et. rewrite <-Et. apply drop_app_le. lia. }
      rewrite Nat2Z.id. exists (Segment (drop (length b) s) :: r). split; [by rewrite <-Eb|]. split; [|done].
      constructor; [|done]. cbn. intros En. apply (f_equal length) in En. rewrite length_drop in En. cbn in En. lia.
    + assert (b = s ++ drop (length s) b) as Eb.
      { assert (take (length s) (s ++ stream r) = take (length s) (b ++ rest)) as Et by by rewrite E.
        rewrite take_app_length, take_app_le in Et by lia. rewrite Et at 1. by rewrite take_drop. }
      assert (stream r = drop (length s) b ++ rest) as Er.
      { rewrite Eb in E at 1. rewrite <-app_assoc in E. by apply app_inv_head in E. }
      destruct (IH _ _ Hr Er) as (r' & E1 & Hr' & Es'). exists r'. split; [|done].
      replace (Z.of_nat (length b) - Z.of_nat (length s)) with (Z.of_nat (length (drop (length s) b)))
        by (rewrite length_drop; lia).
      rewrite E1. by rewrite <-Eb.
Qed.

(** ... and nothing else; it never panics. *)
Lemma socket_read_exact_inv r : ∀ need m r', socket_read_exact need r = (m, r') →
  m ≠ Panic ∧ ∀ b, m = Ok b → 0 <= need → len b = need ∧ stream r = b ++ stream r'.
Proof.
  induction r as [|a r IH]; intros need m r'; cbn [socket_read_exact].
  - destruct (Z.leb_spec need 0); intros [= <- <-]; (split; [done|]); intros b [= <-] Hn.
    split; [rewrite len_nil; lia|done].
  - destruct (Z.leb_spec need 0).
    { intros [= <- <-]. split; [done|]. intros b [= <-] Hn. split; [rewrite len_nil; lia|done]. }
    destruct a as [s|w]; [|intros [= <- <-]; by split].
    destruct (is_empty s) eqn:Ee; [intros [= <- <-]; by split|].
    destruct (Z.ltb_spec need (len s)) as [Hl|Hl].
    + intros [= <- <-]. split; [done|]. intros b [= <-] Hn. unfold len in *. split; [rewrite length_take; lia|].
      change (stream (Segment s :: r)) with (s ++ stream r).
      change (stream (Segment (drop (Z.to_nat need) s) :: r)) with (drop (Z.to_nat need) s ++ stream r).
      by rewrite app_assoc, take_drop.
    + destruct (socket_read_exact (need - len s) r) as [m0 r0] eqn:E0. destruct (IH _ _ _ E0) as [Hp Hok].
      destruct m0 as [b0|e|]; [|intros [= <- <-]; by split|done].
      intros [= <- <-]. split; [done|]. intros b [= <-] Hn. destruct (Hok b0 eq_refl ltac:(lia)) as [Hlen Hs].
      split; [rewrite len_app; lia|]. change (stream (Segment s :: r)) with (s ++ stream r). by rewrite Hs, app_assoc.
Qed.

(** The length in a header. *)
Definition header_length (b1 b2 b3 : byte) : Z :=
  Z.lor (Z.lor (Z.shiftl (u8_of_byte b1) 16) (Z.shiftl (u8_of_byte b2) 8)) (u8_of_byte b3).

Lemma lor_disjoint a b n : 0 <= n → 0 <= b < 2 ^ n → Z.lor (a * 2 ^ n) b = a * 2 ^ n + b.
Proof.
  intros Hn Hb. rewrite <-Z.shiftl_mul_pow2 by done.
  assert (Z.land (Z.shiftl a n) b = 0) as E.
  { apply Z.bits_inj'. intros i Hi. rewrite Z.land_spec, Z.bits_0. destruct (Z.lt_ge_cases i n).
    - by rewrite Z.shiftl_spec_low.
    - destruct (decide (b = 0)) as [->|]; [by rewrite Z.bits_0, andb_false_r|].
      rewrite (Z.bits_above_log2 b i); [apply andb_false_r|lia|]. apply Z.log2_lt_pow2; [lia|].
      apply Z.lt_le_trans with (2 ^ n); [lia|]. apply Z.pow_le_mono_r; lia. }
  pose proof (Z.add_lor_land (Z.shiftl a n) b). lia.
Qed.

Lemma header_length_eq b1 b2 b3 :
  header_length b1 b2 b3 = u8_of_byte b1 * 65536 + u8_of_byte b2 * 256 + u8_of_byte b3.
Proof.
  unfold header_length. pose proof (u8_of_byte_range b1). pose proof (u8_of_byte_range b2). pose proof (u8_of_byte_range b3).
  unfold in_range in *. change (2 ^ 8) with 256 in *. rewrite !Z.shiftl_mul_pow2 by done.
  rewrite (lor_disjoint (u8_of_byte b1) (u8_of_byte b2 * 2 ^ 8) 16) by (change (2 ^ 16) with 65536; change (2 ^ 8) with 256; lia).
  replace (u8_of_byte b1 * 2 ^ 16 + u8_of_byte b2 * 2 ^ 8) with ((u8_of_byte b1 * 2 ^ 8 + u8_of_byte b2) * 2 ^ 8) by lia.
  rewrite lor_disjoint by (change (2 ^ 8) with 256; lia). change (2 ^ 8) with 256. lia.
Qed.

Lemma frame_header_length n : 0 <= n < 2 ^ 24 →
  header_length (byte_of_u8 (Z.shiftr n 16)) (byte_of_u8 (Z.shiftr n 8)) (byte_of_u8 n) = n.
Proof.
  intros Hn. rewrite header_length_eq, !u8_of_byte_of_u8, !Z.shiftr_div_pow2 by lia.
  change (2 ^ 16) with 65536. change (2 ^ 8) with 256. Z.to_euclidean_division_equations; lia.
Qed.

(** One frame at the front of the stream. *)
Lemma receive_ok m rest r : len m < 2 ^ 24 → Forall steady_arrival r → stream r = frame_header (len m) ++ m ++ rest →
  ∃ r', receive r = (Ok m, r') ∧ Forall steady_arrival r' ∧ stream r' = rest.
Proof.
  intros Hm Hr E. destruct (socket_read_exact_ok r (frame_header (len m)) (m ++ rest) Hr E) as (r1 & E1 & Hr1 & Es1).
  change (len (frame_header (len m))) with 4 in E1. unfold receive. rewrite E1. unfold frame_header.
  cbv zeta. fold (header_length (byte_of_u8 (Z.shiftr (len m) 16)) (byte_of_u8 (Z.shiftr (len m) 8)) (byte_of_u8 (len m))).
  pose proof (len_nonneg m). rewrite frame_header_length by lia.
  replace (len m >? MAX_FRAME_SIZE) with false
    by (symmetry; rewrite Z.gtb_ltb; apply Z.ltb_ge; change MAX_FRAME_SIZE with (2 ^ 24); lia).
  change (negb (u8_of_byte x00 =? 0)) with false. cbv iota. by apply socket_read_exact_ok.
Qed.

Lemma receive_all_ok ms : ∀ rest r, Forall (λ m : bytes, len m < 2 ^ 24) ms → Forall steady_arrival r →
  stream r = concat (map (λ m, frame_header (len m) ++ m) ms) ++ rest →
  ∃ r', receive_all (length ms) r = (map Ok ms, r') ∧ Forall steady_arrival r' ∧ stream r' = rest.
Proof.
  induction ms as [|m ms IH]; intros rest r Hm Hr E; [by exists r|].
  apply Forall_cons in Hm as [Hm Hms]. cbn [map concat] in E. rewrite <-!app_assoc in E.
  destruct (receive_ok m _ r Hm Hr E) as (r1 & E1 & Hr1 & Es1).
  destruct (IH rest r1 Hms Hr1 Es1) as (r' & E2 & Hr' & Es'). exists r'.
  cbn [length receive_all map]. by rewrite E1, E2.
Qed.

(** Without faults, [send] puts one frame on the wire. *)
Lemma send_ok m bs : len m < 2 ^ 24 →
  send m (mkWriteHalf bs []) = (Ok tt, mkWriteHalf (bs ++ frame_header (len m) ++ m) []).
Proof.
  intros Hm. unfold send. replace (len m >? MAX_FRAME_SIZE) with false
    by (symmetry; rewrite Z.gtb_ltb; apply Z.ltb_ge; change MAX_FRAME_SIZE with (2 ^ 24); lia).
  unfold write_all. cbn [outcomes on_wire tail]. by rewrite app_nil_r, app_assoc.
Qed.
Lemma send_all_ok ms : ∀ bs, Forall (λ m : bytes, len m < 2 ^ 24) ms →
  send_all ms (mkWriteHalf bs []) = (Ok tt, mkWriteHalf (bs ++ concat (map (λ m, frame_header (len m) ++ m) ms)) []).
Proof.
  induction ms as [|m ms IH]; intros bs Hm; [by rewrite app_nil_r|].
  apply Forall_cons in Hm as [Hm Hms]. cbn [send_all map concat]. rewrite send_ok, IH by done. by rewrite <-app_assoc.
Qed.

(** What a failing [send] leaves on the wire is a prefix of the frame. *)
Lemma write_all_inv data w r w' : write_all data w = (r, w') →
  r ≠ Panic ∧ ∃ k, on_wire w' = on_wire w ++ take k data ∧ (is_ok r = true → take k data = data).
Proof.
  unfold write_all. destruct (outcomes w) as [|[|after what] rest]; intros [= <- <-]; split; try done;
    [exists (length data)|exists (length data)|exists (Z.to_nat after)]; rewrite ?firstn_all; by split.
Qed.

Lemma send_inv m w r w' : len m <= MAX_FRAME_SIZE → send m w = (r, w') →
  r ≠ Panic ∧ ∃ k, on_wire w' = on_wire w ++ take k (frame_header (len m) ++ m) ∧
    (is_ok r = true → on_wire w' = on_wire w ++ frame_header (len m) ++ m).
Proof.
  intros Hm. unfold send.
  replace (len m >? MAX_FRAME_SIZE) with false by (symmetry; rewrite Z.gtb_ltb; apply Z.ltb_ge; lia).
  destruct (write_all (frame_header (len m)) w) as [r1 w1] eqn:E1. destruct (write_all_inv _ _ _ _ E1) as (H1 & k1 & O1 & K1).
  destruct r1 as [[]|e|]; [|intros [= <- <-]|done].
  - specialize (K1 eq_refl). rewrite K1 in O1.
    destruct (write_all m w1) as [r2 w2] eqn:E2. destruct (write_all_inv _ _ _ _ E2) as (H2 & k2 & O2 & K2).
    destruct r2 as [[]|e|]; [|intros [= <- <-]|done].
    + specialize (K2 eq_refl). intros E3. destruct (write_all_inv _ _ _ _ E3) as (H3 & k3 & O3 & _).
      rewrite take_nil, app_nil_r, O2, O1, K2, <-app_assoc in O3. split; [done|].
      exists (length (frame_header (len m) ++ m)). rewrite firstn_all, O3. by split.
    + split; [done|]. exists (4 + k2)%nat. split; [|done]. rewrite O2, O1, <-app_assoc. by f_equal.
  - split; [done|]. exists (Nat.min k1 4). split; [|done]. rewrite O1. f_equal.
    rewrite take_app_le by (cbn; lia). rewrite <-take_take. f_equal.
Qed.

(** ** Properties *)

(** C31: the transport delivers messages.  Whatever messages of less than 16 MiB are sent, and
    however the network cuts the bytes up on the way, the receiver gets exactly these messages in
    this order, and then learns that the connection was closed. *)
Theorem tcp_delivers (ms : list bytes) (r : list arrival) :
  Forall (λ m : bytes, len m < 2 ^ 24) ms → Forall steady_arrival r →
  stream r = on_wire (send_all ms (mkWriteHalf [] [])).2 →
  ∃ r', receive_all (length ms) r = (map Ok ms, r') ∧ receive r' = (Err Disconnected, []).
Proof.
  intros Hm Hr E. rewrite send_all_ok in E by done. cbn [snd on_wire app] in E. rewrite <-(app_nil_r (concat _)) in E.
  destruct (receive_all_ok ms [] r Hm Hr E) as (r' & E1 & Hr' & Es'). exists r'. split; [done|].
  destruct r' as [|[s|] r']; [done| |by inversion Hr']. apply Forall_cons in Hr' as [Hs _]. cbn in Hs.
  change (stream (Segment s :: r')) with (s ++ stream r') in Es'. by apply app_nil in Es' as [-> _].
Qed.

(** Two messages, one of them empty, in three segments that respect no boundary. *)
Lemma tcp_delivers_witness :
  let ms := [[x01; x02; x03]; []] in
  let r := [Segment [x00; x00]; Segment [x00; x03; x01]; Segment [x02; x03; x00; x00; x00; x00]] in
  stream r = on_wire (send_all ms (mkWriteHalf [] [])).2 ∧
  ∃ r', receive_all 2 r = (map Ok ms, r') ∧ receive r' = (Err Disconnected, []).
Proof.
  cbv zeta. split; [reflexivity|].
  refine (tcp_delivers [[x01; x02; x03]; []]
    [Segment [x00; x00]; Segment [x00; x03; x01]; Segment [x02; x03; x00; x00; x00; x00]] _ _ _);
    [repeat constructor; reflexivity|repeat constructor; cbn; discriminate|reflexivity].
Defined.

(** Whatever arrives, [receive] does not panic, never sets aside 16 MiB or more, and what it
    returns was on the stream behind a header that announces it. *)
Theorem receive_sound r m r' : receive r = (m, r') →
  m ≠ Panic ∧ ∀ b, m = Ok b → len b < 2 ^ 24 ∧ stream r = frame_header (len b) ++ b ++ stream r'.
Proof.
  unfold receive. destruct (socket_read_exact 4 r) as [h r1] eqn:E1. destruct (socket_read_exact_inv _ _ _ _ E1) as [Hp Hok].
  destruct h as [h|e|]; [|intros [= <- <-]; by split|done].
  destruct (Hok h eq_refl ltac:(lia)) as [Hl Hs]. unfold len in Hl. clear Hok Hp E1.
  destruct h as [|b0 [|b1 [|b2 [|b3 [|? ?]]]]]; try (cbn in Hl; lia).
  destruct (Z.eqb_spec (u8_of_byte b0) 0) as [E0|]; cbn [negb]; [|intros [= <- <-]; by split].
  fold (header_length b1 b2 b3). destruct (header_length b1 b2 b3 >? MAX_FRAME_SIZE); [intros [= <- <-]; by split|].
  intros E2. destruct (socket_read_exact_inv _ _ _ _ E2) as [Hp Hok]. split; [done|]. intros b ->.
  pose proof (u8_of_byte_range b1). pose proof (u8_of_byte_range b2). pose proof (u8_of_byte_range b3). unfold in_range in *.
  pose proof (header_length_eq b1 b2 b3) as Eh.
  destruct (Hok b eq_refl ltac:(lia)) as [Hlb Hsb]. split; [lia|]. rewrite Hs, Hsb. f_equal. rewrite Hlb, Eh. unfold frame_header.
  rewrite <-(byte_of_u8_of_byte b0), E0. change (byte_of_u8 0) with x00.
  rewrite !Z.shiftr_div_pow2 by lia. change (2 ^ 16) with 65536. change (2 ^ 8) with 256.
  assert (∀ z, byte_of_u8 z = byte_of_u8 (z mod 256)) as Hmod by (intros z; unfold byte_of_u8; by rewrite Z.mod_mod).
  do 2 f_equal; [|f_equal; [|f_equal]].
  - rewrite <-(byte_of_u8_of_byte b1) at 1. f_equal. Z.to_euclidean_division_equations; lia.
  - rewrite <-(byte_of_u8_of_byte b2) at 1. symmetry. rewrite Hmod. f_equal. Z.to_euclidean_division_equations; lia.
  - rewrite <-(byte_of_u8_of_byte b3) at 1. symmetry. rewrite Hmod. f_equal. Z.to_euclidean_division_equations; lia.
Qed.

(** A message of exactly [MAX_FRAME_SIZE] bytes passes the check of [send], and its header
    announces an empty message: the three bytes of the length cannot hold 2^24. *)
Theorem full_frame_loses_its_length m bs : len m = MAX_FRAME_SIZE →
  send m (mkWriteHalf bs []) = (Ok tt, mkWriteHalf (bs ++ [x00; x00; x00; x00] ++ m) []).
Proof.
  intros Hm. unfold send. rewrite Hm. cbn [Z.gtb]. change (MAX_FRAME_SIZE >? MAX_FRAME_SIZE) with false. cbv iota.
  change (frame_header MAX_FRAME_SIZE) with [x00; x00; x00; x00].
  unfold write_all. cbn [outcomes on_wire tail]. by rewrite app_nil_r, app_assoc.
Qed.
