(* ===== verification/WriteQueue.v ===== *)
(** * The writer task ([src/client/connection.rs])

    Every outgoing frame goes through one queue to one task, the only one that touches the write
    half of the socket.  A caller of [send_and_count] puts its frame in the queue and waits for the
    acknowledgment; the caller may be dropped at either of its two waits.  The model is a
    step relation over callers, queue, writer and socket; what the socket does is an input. *)

From S2P Require Import Prelude Types Signing Transform Credits Connection Liveness Tcp Request.

Definition WRITE_QUEUE_DEPTH : Z := 256.

Record WriteJob := mkWriteJob {
  job_bytes : bytes;
  job_command : Command;
  job_queued_at : Z;
  (** the channel of the acknowledgment *)
  job_done : nat
}.

(** The oneshot channel a caller waits on. *)
Inductive Ack := AckPending | AckGiven (r : result Error unit) | AckSenderGone | AckReceiverGone.

(** A call of [send_and_count] that has not returned: the queue it cloned, and whether its frame has
    been accepted there. *)
Record Caller := mkCaller { ca_queue : nat; ca_job : WriteJob; ca_accepted : bool }.

(** How a write goes: it runs to its end, or the deadline passes when some bytes are out. *)
Inductive write_event := Completes | TimesOut (after : Z).

Section queue.
Context {Sem : Type} `{Semaphore Sem}.

Record Plumbing := mkPlumbing {
  pl_inner : Inner (Sem := Sem);
  (** the queue behind [write_tx], by number, its frames, and whether its writer still runs *)
  write_tx : nat;
  pl_queue : list WriteJob;
  pl_writer : bool;
  pl_half : WriteHalf;
  pl_acks : gmap nat Ack;
  pl_callers : gmap nat Caller;
  send_queue_depth : Z;
  send_timeout : option Z
}.
Implicit Types s : Plumbing.

Definition Plumbing_new (w : WriteHalf) : Plumbing :=
  mkPlumbing Inner_new 0 [] true w ∅ ∅ 0 (Some SEND_TIMEOUT).

Definition set_callers (f : gmap nat Caller → gmap nat Caller) (s : Plumbing) : Plumbing :=
  mkPlumbing (pl_inner s) (write_tx s) (pl_queue s) (pl_writer s) (pl_half s) (pl_acks s) (f (pl_callers s))
    (send_queue_depth s) (send_timeout s).
Definition set_acks (f : gmap nat Ack → gmap nat Ack) (s : Plumbing) : Plumbing :=
  mkPlumbing (pl_inner s) (write_tx s) (pl_queue s) (pl_writer s) (pl_half s) (f (pl_acks s)) (pl_callers s)
    (send_queue_depth s) (send_timeout s).
Definition set_queue (q : list WriteJob) (s : Plumbing) : Plumbing :=
  mkPlumbing (pl_inner s) (write_tx s) q (pl_writer s) (pl_half s) (pl_acks s) (pl_callers s)
    (send_queue_depth s) (send_timeout s).
Definition set_half (w : WriteHalf) (s : Plumbing) : Plumbing :=
  mkPlumbing (pl_inner s) (write_tx s) (pl_queue s) (pl_writer s) w (pl_acks s) (pl_callers s)
    (send_queue_depth s) (send_timeout s).
Definition set_inner (f : Inner (Sem := Sem) → Inner (Sem := Sem)) (s : Plumbing) : Plumbing :=
  mkPlumbing (f (pl_inner s)) (write_tx s) (pl_queue s) (pl_writer s) (pl_half s) (pl_acks s) (pl_callers s)
    (send_queue_depth s) (send_timeout s).
Definition add_depth (n : Z) (s : Plumbing) : Plumbing :=
  mkPlumbing (pl_inner s) (write_tx s) (pl_queue s) (pl_writer s) (pl_half s) (pl_acks s) (pl_callers s)
    (send_queue_depth s + n) (send_timeout s).
Definition set_send_timeout (after : option Z) (s : Plumbing) : Plumbing :=
  mkPlumbing (pl_inner s) (write_tx s) (pl_queue s) (pl_writer s) (pl_half s) (pl_acks s) (pl_callers s)
    (send_queue_depth s) after.

(** ** Acknowledgments *)

Definition ack_send (ch : nat) (r : result Error unit) (acks : gmap nat Ack) : gmap nat Ack :=
  match acks !! ch with Some AckPending => <[ch := AckGiven r]> acks | _ => acks end.
Definition ack_drop (acks : gmap nat Ack) (j : WriteJob) : gmap nat Ack :=
  match acks !! job_done j with Some AckPending => <[job_done j := AckSenderGone]> acks | _ => acks end.

(** The receiving end of the queue is dropped, and the frames in it with it. *)
Definition close_queue (s : Plumbing) : Plumbing :=
  mkPlumbing (pl_inner s) (write_tx s) [] false (pl_half s) (foldl ack_drop (pl_acks s) (pl_queue s)) (pl_callers s)
    (send_queue_depth s) (send_timeout s).

(** ** [send_and_count] *)

(** Up to [write_tx.send(job).await]. *)
Definition begin_send (data : bytes) (c : Command) (now : Z) (ch : nat) (s : Plumbing) : Plumbing :=
  add_depth 1
    (set_callers <[ch := mkCaller (write_tx s) (mkWriteJob data c now ch) false]>
      (set_acks <[ch := AckPending]> s)).

(** The frame is accepted when there is room; the call fails when the queue it holds is retired;
    [None] while the queue is full. *)
Definition enqueue (ch : nat) (ca : Caller) (s : Plumbing) : option (option (result Error unit) * Plumbing) :=
  if negb (Nat.eqb (ca_queue ca) (write_tx s) && pl_writer s)
  then Some (Some (Err Disconnected), set_callers (delete ch) (add_depth (-1) s))
  else if len (pl_queue s) <? WRITE_QUEUE_DEPTH
  then Some (None, set_callers <[ch := mkCaller (ca_queue ca) (ca_job ca) true]>
                     (set_queue (pl_queue s ++ [ca_job ca]) s))
  else None.

(** After [done_rx.await]; [None] while there is no acknowledgment. *)
Definition collect_ack (ch : nat) (ca : Caller) (s : Plumbing) : option (result Error unit * Plumbing) :=
  let s' := set_callers (delete ch) (add_depth (-1) s) in
  match pl_acks s !! ch with
  | Some (AckGiven (Ok _)) => Some (Ok tt, set_inner (bump wire_bytes_sent (len (job_bytes (ca_job ca)))) s')
  | Some (AckGiven r) => Some (r, s')
  | Some AckPending => None
  | _ => Some (Err Disconnected, s')
  end.

(** The future of the call is dropped at one of its two waits. *)
Definition abandon (ch : nat) (s : Plumbing) : Plumbing :=
  set_callers (delete ch) (set_acks <[ch := AckReceiverGone]> s).

(** ** [writer_loop] *)

Definition frame (m : bytes) : bytes := frame_header (len m) ++ m.

(** [sender.send(&job.bytes)], under the deadline if there is one; [None] when it never returns. *)
Definition timed_send (deadline : option Z) (ev : write_event) (now : Z) (j : WriteJob) (w : WriteHalf) :
    option (result Error unit * WriteHalf) :=
  match ev with
  | Completes => Some (send (job_bytes j) w)
  | TimesOut after =>
      if len (job_bytes j) >? MAX_FRAME_SIZE then Some (send (job_bytes j) w)
      else match deadline with
           | Some _ =>
               Some (Err (SendTimeout (job_command j) (len (job_bytes j)) (since now (job_queued_at j))),
                     mkWriteHalf (on_wire w ++ take (Z.to_nat after) (frame (job_bytes j))) (outcomes w))
           | None => None
           end
  end.

Definition fatal (r : result Error unit) : bool :=
  match r with Err (SendTimeout _ _ _) | Err (Io _) => true | _ => false end.

(** One round of the loop: [None] when the queue is empty or the write never returns. *)
Definition writer_turn (ev : write_event) (now : Z) (s : Plumbing) : option Plumbing :=
  match pl_writer s, pl_queue s with
  | true, j :: q =>
      match timed_send (send_timeout s) ev now j (pl_half s) with
      | None => None
      | Some (r, w) =>
          let s := set_half w (set_queue q s) in
          let s := if fatal r then set_inner (bump send_failures 1) s else s in
          let s := set_acks (ack_send (job_done j) r) s in
          if fatal r then Some (close_queue (set_inner (fan_error_to_waiters Disconnected) s)) else Some s
      end
  | _, _ => None
  end.

(** ** [install_transport] with [spawn_plumbing]: a new queue and a new writer; the old one is aborted. *)
Definition install_plumbing (w : WriteHalf) (s : Plumbing) : Plumbing :=
  let s := close_queue s in
  mkPlumbing (install_transport (pl_inner s)) (S (write_tx s)) [] true w (pl_acks s) (pl_callers s)
    (send_queue_depth s) (send_timeout s).

(** ** Steps *)

Inductive queue_event :=
| Begins (j : WriteJob)
| Accepted (j : WriteJob)
| Returns (ch : nat) (r : result Error unit)
| Abandoned (ch : nat)
| Writes (ev : write_event) (now : Z)
| Installs
| Elsewhere.

Inductive queue_step : Plumbing → queue_event → Plumbing → Prop :=
| step_begin s data c now ch :
    pl_acks s !! ch = None →
    queue_step s (Begins (mkWriteJob data c now ch)) (begin_send data c now ch s)
| step_accept s ch ca s' :
    pl_callers s !! ch = Some ca → ca_accepted ca = false → enqueue ch ca s = Some (None, s') →
    queue_step s (Accepted (ca_job ca)) s'
| step_refused s ch ca r s' :
    pl_callers s !! ch = Some ca → ca_accepted ca = false → enqueue ch ca s = Some (Some r, s') →
    queue_step s (Returns ch r) s'
| step_collect s ch ca r s' :
    pl_callers s !! ch = Some ca → ca_accepted ca = true → collect_ack ch ca s = Some (r, s') →
    queue_step s (Returns ch r) s'
| step_abandon s ch ca :
    pl_callers s !! ch = Some ca → queue_step s (Abandoned ch) (abandon ch s)
| step_write s ev now s' :
    writer_turn ev now s = Some s' → queue_step s (Writes ev now) s'
| step_install s outs :
    queue_step s Installs (install_plumbing (mkWriteHalf [] outs) s)
| step_send_timeout s after : queue_step s Elsewhere (set_send_timeout after s)
(** what other tasks do to the shared state: teardowns included, reviving is [step_install] *)
| step_inner s f :
    (in_disconnected (pl_inner s) = true → in_disconnected (f (pl_inner s)) = true) →
    queue_step s Elsewhere (set_inner f s).

(** What happened, in order, and where it led. *)
Inductive queue_run : list queue_event → Plumbing → Prop :=
| run_new outs : queue_run [] (Plumbing_new (mkWriteHalf [] outs))
| run_step evs s e s' : queue_run evs s → queue_step s e s' → queue_run (evs ++ [e]) s'.

(** The frames the present queue has accepted, in order. *)
Fixpoint accepted_since (acc : list WriteJob) (evs : list queue_event) : list WriteJob :=
  match evs with
  | [] => acc
  | Accepted j :: evs => accepted_since (acc ++ [j]) evs
  | Installs :: evs => accepted_since [] evs
  | _ :: evs => accepted_since acc evs
  end.
Definition accepted (evs : list queue_event) : list WriteJob := accepted_since [] evs.

Fixpoint abandonments (evs : list queue_event) : Z :=
  match evs with
  | [] => 0
  | Abandoned _ :: evs => 1 + abandonments evs
  | _ :: evs => abandonments evs
  end.

(** Frames that are too long are refused before a byte is written. *)
Definition sendable (j : WriteJob) : bool := len (job_bytes j) <=? MAX_FRAME_SIZE.
Definition frames (js : list WriteJob) : bytes := concat (map (λ j, if sendable j then frame (job_bytes j) else []) js).

(** ** Lemmas *)

Lemma accepted_snoc evs e :
  accepted (evs ++ [e]) = match e with Accepted j => accepted evs ++ [j] | Installs => [] | _ => accepted evs end.
Proof.
  unfold accepted. assert (∀ acc, accepted_since acc (evs ++ [e])
    = match e with Accepted j => accepted_since acc evs ++ [j] | Installs => [] | _ => accepted_since acc evs end) as Hacc; [|apply Hacc].
  induction evs as [|x evs IH]; intros acc; [by destruct e|]. destruct x; cbn [app accepted_since]; apply IH.
Qed.
Lemma abandonments_snoc evs e :
  abandonments (evs ++ [e]) = abandonments evs + match e with Abandoned _ => 1 | _ => 0 end.
Proof. induction evs as [|x evs IH]; [by destruct e|]. destruct x; cbn [app abandonments]; lia. Qed.

Lemma frames_snoc js j : frames (js ++ [j]) = frames js ++ if sendable j then frame (job_bytes j) else [].
Proof.
  unfold frames. rewrite map_app, concat_app. f_equal. apply app_nil_r.
Qed.

Definition pending (a : option Ack) : bool := match a with Some AckPending => true | _ => false end.
Lemma pending_Some a : pending a = true ↔ a = Some AckPending.
Proof. by destruct a as [[]|]. Qed.

Lemma ack_send_lookup ch r acks c :
  ack_send ch r acks !! c = if bool_decide (c = ch) && pending (acks !! c) then Some (AckGiven r) else acks !! c.
Proof.
  unfold ack_send. case_bool_decide as Hc; [subst c|]; destruct (acks !! ch) as [[]|] eqn:E; rewrite ?E; try done.
  - by rewrite lookup_insert_eq.
  - by rewrite lookup_insert_ne.
Qed.

(** Dropping frames settles exactly their own acknowledgments. *)
Lemma ack_drop_lookup acks j c :
  ack_drop acks j !! c = if bool_decide (c = job_done j) && pending (acks !! c) then Some AckSenderGone else acks !! c.
Proof.
  unfold ack_drop. case_bool_decide as Hc; [subst c|]; destruct (acks !! job_done j) as [[]|] eqn:E; rewrite ?E; try done.
  - by rewrite lookup_insert_eq.
  - by rewrite lookup_insert_ne.
Qed.
Lemma ack_drops_lookup q : ∀ acks c,
  foldl ack_drop acks q !! c
  = if bool_decide (c ∈ map job_done q) && pending (acks !! c) then Some AckSenderGone else acks !! c.
Proof.
  induction q as [|j q IH]; intros acks c; cbn [foldl map].
  - rewrite bool_decide_false; [done|]. apply not_elem_of_nil.
  - rewrite IH, ack_drop_lookup, (bool_decide_ext (c ∈ job_done j :: map job_done q) _ (elem_of_cons _ _ _)), bool_decide_or.
    destruct (bool_decide (c = job_done j)), (pending (acks !! c)) eqn:Ep; cbn [andb orb]; rewrite ?Ep, ?andb_false_r; done.
Qed.

(** ** The invariant *)

Record queue_inv (acc done : list WriteJob) (s : Plumbing) : Prop := {
  qi_wire : if pl_writer s then acc = done ++ pl_queue s ∧ on_wire (pl_half s) = frames done
            else pl_queue s = [] ∧ in_disconnected (pl_inner s) = true ∧
                 ∃ j rest k, acc = done ++ j :: rest ∧ sendable j = true ∧
                   on_wire (pl_half s) = frames done ++ take k (frame (job_bytes j));
  qi_named : ∀ ch ca, pl_callers s !! ch = Some ca → job_done (ca_job ca) = ch ∧ (ca_queue ca <= write_tx s)%nat;
  qi_fresh : ∀ ch ca, pl_callers s !! ch = Some ca → ca_accepted ca = false →
    pl_acks s !! ch = Some AckPending ∧ ch ∉ map job_done (pl_queue s);
  qi_pending : ∀ ch ca, pl_callers s !! ch = Some ca → ca_accepted ca = true →
    pl_acks s !! ch = Some AckPending → ca_queue ca = write_tx s ∧ ca_job ca ∈ pl_queue s;
  qi_alloc : ∀ ch, ch ∈ map job_done (pl_queue s) ∨ is_Some (pl_callers s !! ch) → is_Some (pl_acks s !! ch);
  qi_nodup : NoDup (map job_done (pl_queue s));
  qi_truth : ∀ ch ca, pl_callers s !! ch = Some ca → pl_acks s !! ch = Some (AckGiven (Ok tt)) →
    ca_queue ca = write_tx s → ca_job ca ∈ done ∧ sendable (ca_job ca) = true
}.

(** The queue is dropped: nobody waits any more. *)
Lemma close_queue_settles acc done s ch ca : queue_inv acc done s → pl_callers s !! ch = Some ca →
  ca_accepted ca = true → pl_acks (close_queue s) !! ch ≠ Some AckPending.
Proof.
  intros I Hc Ha. cbn. rewrite ack_drops_lookup. destruct (pending (pl_acks s !! ch)) eqn:Ep.
  - pose proof (proj1 (pending_Some _) Ep) as Hp. destruct (qi_pending _ _ _ I _ _ Hc Ha Hp) as [_ Hin].
    rewrite bool_decide_true; [done|]. rewrite <-(proj1 (qi_named _ _ _ I _ _ Hc)). by apply list_elem_of_fmap_2.
  - rewrite andb_false_r. intros Hp%pending_Some. congruence.
Qed.

Lemma close_queue_fresh acc done s ch ca : queue_inv acc done s → pl_callers s !! ch = Some ca →
  ca_accepted ca = false → pl_acks (close_queue s) !! ch = Some AckPending.
Proof.
  intros I Hc Ha. destruct (qi_fresh _ _ _ I _ _ Hc Ha) as [Hp Hn]. cbn. by rewrite ack_drops_lookup, bool_decide_false.
Qed.

Lemma begin_inv acc done s data c now ch :
  pl_acks s !! ch = None → queue_inv acc done s → queue_inv acc done (begin_send data c now ch s).
Proof.
  intros Hf I. pose proof I as [W N F Q A D T].
  assert (ch ∉ map job_done (pl_queue s)) as Hq by (intros Hin; destruct (A ch (or_introl Hin)); congruence).
  split; cbn [begin_send add_depth set_callers set_acks pl_writer pl_queue pl_half pl_inner pl_callers pl_acks write_tx]; [done| | | | |done|].
  - intros k ca [[<- <-]|[Hk Hc]]%lookup_insert_Some; [by split|by apply N].
  - intros k ca [[<- <-]|[Hk Hc]]%lookup_insert_Some Ha; [by rewrite lookup_insert_eq|]. rewrite lookup_insert_ne by done. by eapply F.
  - intros k ca [[<- <-]|[Hk Hc]]%lookup_insert_Some Ha; [done|]. rewrite lookup_insert_ne by done. by apply Q.
  - intros k Hk. destruct (decide (k = ch)) as [->|]; [by rewrite lookup_insert_eq|]. rewrite !lookup_insert_ne in * by done. by apply A.
  - intros k ca [[<- <-]|[Hk Hc]]%lookup_insert_Some; [by rewrite lookup_insert_eq|]. rewrite lookup_insert_ne by done. by apply T.
Qed.

(** A call that returns, or is dropped, takes nothing else with it. *)
Lemma leave_inv acc done s ch : queue_inv acc done s → queue_inv acc done (set_callers (delete ch) s).
Proof.
  intros [W N F Q A D T]. split; cbn [set_callers pl_writer pl_queue pl_half pl_inner pl_callers pl_acks write_tx]; try done;
    [intros k ca [Hk Hc]%lookup_delete_Some; eauto..| |intros k ca [Hk Hc]%lookup_delete_Some; eauto].
  intros k [Hk|[ca [Hk Hc]%lookup_delete_Some]]; apply A; eauto.
Qed.
Lemma depth_inv acc done s n : queue_inv acc done s → queue_inv acc done (add_depth n s).
Proof. by intros [W N F Q A D T]. Qed.
Lemma inner_inv acc done s f : (in_disconnected (pl_inner s) = true → in_disconnected (f (pl_inner s)) = true) →
  queue_inv acc done s → queue_inv acc done (set_inner f s).
Proof.
  intros Hf [W N F Q A D T]. split; try done. cbn. destruct (pl_writer s); [done|].
  destruct W as (W1 & W2 & W3). by split_and!; [|apply Hf|].
Qed.

Lemma abandon_inv acc done s ch ca : pl_callers s !! ch = Some ca →
  queue_inv acc done s → queue_inv acc done (abandon ch s).
Proof.
  intros Hch [W N F Q A D T]. split; cbn [abandon set_callers set_acks pl_writer pl_queue pl_half pl_inner pl_callers pl_acks write_tx]; try done.
  - intros k c [Hk Hc]%lookup_delete_Some. by apply N.
  - intros k c [Hk Hc]%lookup_delete_Some. rewrite lookup_insert_ne by done. by apply F.
  - intros k c [Hk Hc]%lookup_delete_Some. rewrite lookup_insert_ne by done. by apply Q.
  - intros k Hk. destruct (decide (k = ch)) as [->|]; [by rewrite lookup_insert_eq|]. rewrite lookup_insert_ne, lookup_delete_ne in * by done. by apply A.
  - intros k c [Hk Hc]%lookup_delete_Some. rewrite lookup_insert_ne by done. by apply T.
Qed.

Lemma accept_inv acc done s ch ca s' : pl_callers s !! ch = Some ca → ca_accepted ca = false →
  enqueue ch ca s = Some (None, s') → queue_inv acc done s → queue_inv (acc ++ [ca_job ca]) done s'.
Proof.
  intros Hch Ha E I. pose proof I as [W N F Q A D T]. unfold enqueue in E.
  destruct (Nat.eqb_spec (ca_queue ca) (write_tx s)) as [Eg|]; [|done].
  destruct (pl_writer s) eqn:Ew; [|done]. cbn [andb negb] in E. destruct (_ <? _); [|done]. injection E as <-.
  destruct (F _ _ Hch Ha) as [Hp Hn]. destruct (N _ _ Hch) as [Ej Hle].
  split; cbn [set_callers set_queue pl_writer pl_queue pl_half pl_inner pl_callers pl_acks write_tx]; rewrite ?Ew, ?map_app.
  - destruct W as [-> HW]. by rewrite <-app_assoc.
  - intros k c [[<- <-]|[Hk Hc]]%lookup_insert_Some; [done|by apply N].
  - intros k c [[<- <-]|[Hk Hc]]%lookup_insert_Some Hc2; [done|]. destruct (F _ _ Hc Hc2) as [Hp2 Hn2]. split; [done|].
    intros [?|Hin]%elem_of_app; [done|]. apply list_elem_of_singleton in Hin. congruence.
  - intros k c [[<- <-]|[Hk Hc]]%lookup_insert_Some Hc2 Hc3; [split; [done|]; apply elem_of_app; right; left|].
    destruct (Q _ _ Hc Hc2 Hc3). split; [done|]. apply elem_of_app. by left.
  - intros k [[Hk|Hk]%elem_of_app|Hk]; [by apply A; left|apply list_elem_of_singleton in Hk; subst k; by rewrite Ej, Hp|].
    apply A. right. destruct (decide (k = ch)) as [->|]; [by eexists|]. by rewrite lookup_insert_ne in Hk.
  - apply NoDup_app. split_and!; [done| |apply NoDup_singleton]. intros k Hk Hk2%list_elem_of_singleton. subst k. congruence.
  - intros k c [[<- <-]|[Hk Hc]]%lookup_insert_Some Hc2 Hc3; [congruence|]. by eapply T.
Qed.

(** ** The writer *)

Lemma send_err m w e w' : len m <= MAX_FRAME_SIZE → send m w = (Err e, w') → ∃ what, e = Io what.
Proof.
  intros Hm. unfold send. replace (len m >? MAX_FRAME_SIZE) with false by (symmetry; rewrite Z.gtb_ltb; apply Z.ltb_ge; lia).
  assert (∀ d v r v', write_all d v = (r, v') → r = Ok tt ∨ ∃ what, r = Err (Io what)) as Hw.
  { intros d v r v'. unfold write_all. destruct (outcomes v) as [|[|] ?]; intros [= <- <-]; eauto. }
  destruct (write_all _ w) as [r1 w1] eqn:E1. destruct (Hw _ _ _ _ E1) as [->|[what ->]]; [|intros [= <- <-]; eauto].
  destruct (write_all m w1) as [r2 w2] eqn:E2. destruct (Hw _ _ _ _ E2) as [->|[what ->]]; [|intros [= <- <-]; eauto].
  intros E3. destruct (Hw _ _ _ _ E3) as [?|[what [= ->]]]; [done|eauto].
Qed.

(** A frame is written whole, or not at all, or the write was fatal. *)
Lemma timed_send_inv d ev now j w r w' : timed_send d ev now j w = Some (r, w') →
  if fatal r then sendable j = true ∧ ∃ k, on_wire w' = on_wire w ++ take k (frame (job_bytes j))
  else on_wire w' = on_wire w ++ (if sendable j then frame (job_bytes j) else []) ∧ (r = Ok tt ↔ sendable j = true).
Proof.
  assert (send (job_bytes j) w = (r, w') → if fatal r then sendable j = true ∧ ∃ k, on_wire w' = on_wire w ++ take k (frame (job_bytes j))
    else on_wire w' = on_wire w ++ (if sendable j then frame (job_bytes j) else []) ∧ (r = Ok tt ↔ sendable j = true)) as Hs.
  { intros E. unfold sendable. destruct (Z.leb_spec (len (job_bytes j)) MAX_FRAME_SIZE) as [Hl|Hl].
    - destruct (send_inv _ _ _ _ Hl E) as (Hp & k & Hk & Hok). destruct r as [[]|e|]; [by split; [apply Hok|]| |done].
      destruct (send_err _ _ _ _ Hl E) as [what ->]. split; [done|by exists k].
    - unfold send in E. replace (len (job_bytes j) >? MAX_FRAME_SIZE) with true in E by (symmetry; rewrite Z.gtb_ltb; apply Z.ltb_lt; lia).
      injection E as <- <-. cbn. by rewrite app_nil_r. }
  unfold timed_send. destruct ev as [|after]; [intros [= E]; by apply Hs|].
  destruct (Z.gtb_spec (len (job_bytes j)) MAX_FRAME_SIZE) as [Hl|Hl]; [intros [= E]; by apply Hs|].
  destruct d as [d|]; [|done]. intros [= <- <-]. cbn [fatal on_wire]. split; [by apply Z.leb_le|]. by eexists.
Qed.

(** The queue after its head was taken, acknowledged with [r]. *)
Lemma taken_inv acc done s j q r w : pl_writer s = true → pl_queue s = j :: q → queue_inv acc done s →
  on_wire w = frames (done ++ [j]) → (r = Ok tt → sendable j = true) →
  queue_inv acc (done ++ [j]) (set_acks (ack_send (job_done j) r) (set_half w (set_queue q s))).
Proof.
  intros Ew Eq I Hw Hr. pose proof I as [W N F Q A D T]. rewrite Ew, Eq in *. destruct W as [-> HW].
  cbn [map] in *. apply NoDup_cons in D as [Dj D].
  split; cbn [set_acks set_half set_queue pl_writer pl_queue pl_half pl_inner pl_callers pl_acks write_tx]; rewrite ?Ew.
  - by rewrite <-app_assoc.
  - done.
  - intros k c Hc Ha. destruct (F _ _ Hc Ha) as [Hp Hn]. apply not_elem_of_cons in Hn as [Hn1 Hn2].
    by rewrite ack_send_lookup, bool_decide_false.
  - intros k c Hc Ha. rewrite ack_send_lookup. destruct (pending (pl_acks s !! k)) eqn:Ep; [|rewrite andb_false_r; intros ?%pending_Some; congruence].
    case_bool_decide as Hk; cbn [andb]; [done|]. intros Hp. destruct (Q _ _ Hc Ha Hp) as [Hg Hin]. split; [done|].
    apply elem_of_cons in Hin as [<-|Hin]; [|done]. by rewrite (proj1 (N _ _ Hc)) in Hk.
  - intros k Hk. rewrite ack_send_lookup. case_match; [done|]. apply A. destruct Hk as [Hk|Hk]; [left; by right|by right].
  - done.
  - intros k c Hc. rewrite ack_send_lookup. destruct (bool_decide (k = job_done j) && pending (pl_acks s !! k)) eqn:Eb.
    + intros [= ->] Hg. apply andb_true_iff in Eb as [->%bool_decide_eq_true Ep%pending_Some].
      destruct (ca_accepted c) eqn:Ea; [|by destruct (F _ _ Hc Ea) as [_ []%not_elem_of_cons]].
      destruct (Q _ _ Hc Ea Ep) as [_ [->|Hin]%elem_of_cons].
      * split; [apply elem_of_app; right; left|by apply Hr].
      * destruct Dj. rewrite <-(proj1 (N _ _ Hc)). by apply list_elem_of_fmap_2.
    + intros Hg Hq. destruct (T _ _ Hc Hg Hq). split; [|done]. apply elem_of_app. by left.
Qed.

(** The queue when a write of its head was fatal. *)
Lemma broken_inv acc done s j q r w f : pl_writer s = true → pl_queue s = j :: q → queue_inv acc done s →
  sendable j = true → (∃ k, on_wire w = on_wire (pl_half s) ++ take k (frame (job_bytes j))) → r ≠ Ok tt →
  (∀ i, in_disconnected (f i) = true) →
  queue_inv acc done (close_queue (set_inner f (set_acks (ack_send (job_done j) r) (set_half w (set_queue q s))))).
Proof.
  intros Ew Eq I Hj [k Hw] Hr Hf. pose proof I as [W N F Q A D T]. rewrite Ew, Eq in *. destruct W as [-> HW].
  cbn [map] in *. apply NoDup_cons in D as [Dj D].
  split; cbn [close_queue set_inner set_acks set_half set_queue pl_writer pl_queue pl_half pl_inner pl_callers pl_acks write_tx]; rewrite ?Ew.
  - split; [done|]. split; [apply Hf|]. exists j, q, k. split; [done|]. split; [done|]. by rewrite Hw, HW.
  - done.
  - intros c ca Hc Ha. destruct (F _ _ Hc Ha) as [Hp [Hn1 Hn2]%not_elem_of_cons]. split; [|apply not_elem_of_nil].
    rewrite ack_drops_lookup, ack_send_lookup, (bool_decide_false (c ∈ _)), (bool_decide_false (c = _)) by done. done.
  - intros c ca Hc Ha. rewrite ack_drops_lookup, ack_send_lookup.
    destruct (pending (pl_acks s !! c)) eqn:Ep.
    + destruct (Q _ _ Hc Ha (proj1 (pending_Some _) Ep)) as [_ Hin%(list_elem_of_fmap_2 job_done)].
      rewrite (proj1 (N _ _ Hc)) in Hin. apply elem_of_cons in Hin as [->|Hin].
      * rewrite (bool_decide_true (job_done j = _)) by done. cbn [andb pending]. by rewrite andb_false_r.
      * rewrite (bool_decide_true (c ∈ _)) by done. case_bool_decide; cbn [andb pending]; [|by rewrite Ep]. done.
    + rewrite !andb_false_r, Ep, andb_false_r. intros ?%pending_Some. congruence.
  - intros c [Hc|Hc]; [by apply elem_of_nil in Hc|]. rewrite ack_drops_lookup. case_match; [done|]. rewrite ack_send_lookup.
    case_match; [done|]. apply A. by right.
  - constructor.
  - intros c ca Hc. rewrite ack_drops_lookup, ack_send_lookup. destruct (bool_decide (c = job_done j) && pending (pl_acks s !! c)).
    + cbn [pending]. rewrite andb_false_r. congruence.
    + destruct (_ && _); [done|]. by apply T.
Qed.

Lemma writer_turn_inv acc done s ev now s' : writer_turn ev now s = Some s' → queue_inv acc done s →
  ∃ done', queue_inv acc done' s'.
Proof.
  intros E I. unfold writer_turn in E. destruct (pl_writer s) eqn:Ew; [|done]. destruct (pl_queue s) as [|j q] eqn:Eq; [done|].
  destruct (timed_send (send_timeout s) ev now j (pl_half s)) as [[r w]|] eqn:Es; [|done].
  pose proof (timed_send_inv _ _ _ _ _ _ _ Es) as Hs. destruct (fatal r) eqn:Ef; injection E as <-.
  - destruct Hs as [Hj Hk]. exists done. change (set_acks ?g (set_inner ?h ?x)) with (set_inner h (set_acks g x)).
    apply (broken_inv acc done s j q r w (λ i, fan_error_to_waiters Disconnected (bump send_failures 1 i))); try done.
    by intros ->.
  - destruct Hs as [Hw Hr]. exists (done ++ [j]). apply taken_inv; [done..| |by apply Hr].
    pose proof (qi_wire _ _ _ I) as W. rewrite Ew in W. by rewrite Hw, (proj2 W), frames_snoc.
Qed.

Lemma install_inv acc done s outs : queue_inv acc done s →
  queue_inv [] [] (install_plumbing (mkWriteHalf [] outs) s).
Proof.
  intros I. pose proof I as [W N F Q A D T]. unfold install_plumbing.
  split; cbn [pl_writer pl_queue pl_half pl_inner pl_callers pl_acks write_tx on_wire]; cbn [close_queue pl_callers write_tx].
  - by split.
  - intros ch ca Hc. destruct (N _ _ Hc). split; [done|lia].
  - intros ch ca Hc Ha. split; [by eapply close_queue_fresh|apply not_elem_of_nil].
  - intros ch ca Hc Ha Hp. exfalso. by eapply close_queue_settles.
  - intros ch [Hc|Hc]; [by apply elem_of_nil in Hc|]. cbn [close_queue pl_acks]. rewrite ack_drops_lookup. destruct (_ && _); [by eexists|]. apply A. by right.
  - constructor.
  - intros ch ca Hc _ Hg. destruct (N _ _ Hc). lia.
Qed.

Lemma queue_run_inv evs s : queue_run evs s → ∃ done, queue_inv (accepted evs) done s.
Proof.
  induction 1 as [outs|evs s e s' R [done I] St].
  - exists []. split; cbn; try done; [intros ? [H0|[? H0]]; [by apply elem_of_nil in H0|discriminate H0]|constructor].
  - rewrite accepted_snoc. destruct St.
    + exists done. by apply begin_inv.
    + exists done. by eapply accept_inv.
    + exists done. unfold enqueue in H2. destruct (negb _); [|by destruct (_ <? _)]. injection H2 as <- <-. by apply leave_inv, depth_inv.
    + exists done. unfold collect_ack in H2. assert (queue_inv (accepted evs) done (set_callers (delete ch) (add_depth (-1) s))) by by apply leave_inv, depth_inv.
      destruct (pl_acks s !! ch) as [[|[[]|e|]| |]|]; try discriminate; injection H2 as <- <-; try done. by apply inner_inv.
    + exists done. by eapply abandon_inv.
    + by eapply writer_turn_inv.
    + exists []. by eapply install_inv.
    + exists done. by destruct I.
    + exists done. by apply inner_inv.
Qed.

(** ** The writer makes progress *)

(** Rounds of the writer, whatever each write does, as far as there is something to write. *)
Fixpoint write_turns (writes : list (write_event * Z)) (s : Plumbing) : Plumbing :=
  match writes with
  | [] => s
  | (ev, now) :: writes =>
      match writer_turn ev now s with Some s' => write_turns writes s' | None => s end
  end.

Lemma writer_turn_keeps ev now s s' : writer_turn ev now s = Some s' →
  (length (pl_queue s') < length (pl_queue s))%nat ∧ pl_callers s' = pl_callers s ∧ write_tx s' = write_tx s ∧
  send_timeout s' = send_timeout s.
Proof.
  unfold writer_turn. destruct (pl_writer s); [|done]. destruct (pl_queue s) as [|j q]; [done|].
  destruct (timed_send _ _ _ _ _) as [[r w]|]; [|done]. destruct (fatal r); intros [= <-]; cbn; split_and!; try done; lia.
Qed.
Lemma writer_turn_progress ev now s : send_timeout s ≠ None → pl_writer s = true → pl_queue s ≠ [] →
  is_Some (writer_turn ev now s).
Proof.
  intros Ht Hw Hq. unfold writer_turn. rewrite Hw. destruct (pl_queue s) as [|j q]; [done|].
  destruct (send_timeout s) as [d|]; [|done]. unfold timed_send.
  destruct ev; [destruct (send _ _) as [r w]; destruct (fatal r); eauto|].
  destruct (_ >? _); [destruct (send _ _) as [r w]; destruct (fatal r); eauto|]. cbn [fatal]. eauto.
Qed.

Lemma write_turns_drain writes : ∀ evs s, queue_run evs s → send_timeout s ≠ None →
  (length (pl_queue s) <= length writes)%nat →
  ∃ evs', let s' := write_turns writes s in queue_run evs' s' ∧ pl_queue s' = [] ∧ pl_callers s' = pl_callers s ∧
    write_tx s' = write_tx s.
Proof.
  induction writes as [|[ev now] writes IH]; intros evs s R Ht Hl; cbn [write_turns length] in *.
  - exists evs. by destruct (pl_queue s); [|cbn in Hl; lia].
  - destruct (writer_turn ev now s) as [s'|] eqn:E.
    + destruct (writer_turn_keeps _ _ _ _ E) as (Hq & Hc & Hx & Hs).
      destruct (IH (evs ++ [Writes ev now]) s') as (evs' & R' & Q' & C' & X'); [by econstructor; [|constructor]|by rewrite Hs|lia|].
      exists evs'. by rewrite <-Hc, <-Hx.
    + exists evs. split; [done|]. split; [|done]. destruct (queue_run_inv _ _ R) as [done I].
      destruct (pl_writer s) eqn:Ew; [|pose proof (qi_wire _ _ _ I) as W; rewrite Ew in W; apply W].
      destruct (decide (pl_queue s = [])) as [|Hq]; [done|]. destruct (writer_turn_progress ev now s Ht Ew Hq). congruence.
Qed.

Lemma frames_elem js j : j ∈ js → sendable j = true → ∃ a b, frames js = a ++ frame (job_bytes j) ++ b.
Proof.
  intros (l1 & l2 & ->)%list_elem_of_split Hj. exists (frames l1), (frames l2). unfold frames.
  rewrite map_app, concat_app. cbn [map concat]. by rewrite Hj.
Qed.

Lemma frames_short js : Forall (λ j, len (job_bytes j) < 2 ^ 24) js →
  frames js = concat (map (λ m, frame_header (len m) ++ m) (map job_bytes js)).
Proof.
  intros Hj. unfold frames. rewrite map_map. f_equal. apply map_ext_in. intros j Hin%list_elem_of_In.
  rewrite Forall_forall in Hj. specialize (Hj j Hin). unfold sendable. rewrite (proj2 (Z.leb_le _ _)); [done|].
  change MAX_FRAME_SIZE with (2 ^ 24). lia.
Qed.

(** ** Properties *)



(** The gauge of frames that are queued counts the calls inside [send_and_count] and, for ever,
    every call that was dropped there. *)
Theorem queue_depth_counts_the_dropped evs s : queue_run evs s →
  send_queue_depth s = Z.of_nat (size (pl_callers s)) + abandonments evs.
Proof.
  induction 1 as [outs|evs s e s' R IH St]; [done|]. rewrite abandonments_snoc.
  assert (∀ ch ca, pl_callers s !! ch = Some ca → Z.of_nat (size (delete ch (pl_callers s))) = Z.of_nat (size (pl_callers s)) - 1) as Hdel.
  { intros ch ca Hc. rewrite map_size_delete_Some by by eexists. enough (size (pl_callers s) ≠ 0%nat) by lia.
    intros E%map_size_empty_inv. rewrite E, lookup_empty in Hc. done. }
  destruct St as [s data c now ch Hf|s ch ca s' Hc Ha E|s ch ca r s' Hc Ha E|s ch ca r s' Hc Ha E|s ch ca Hc|s ev now s' E|s outs|s after|s f Hf].
  - cbn. rewrite map_size_insert_None; [lia|]. destruct (pl_callers s !! ch) as [ca|] eqn:Ec; [|done].
    destruct (queue_run_inv _ _ R) as [done I]. destruct (qi_alloc _ _ _ I ch) as [a ?]; [by right; eexists|]. congruence.
  - unfold enqueue in E. destruct (negb _); [done|]. destruct (_ <? _); [|done]. injection E as <-. cbn.
    rewrite map_size_insert_Some by by eexists. lia.
  - unfold enqueue in E. destruct (negb _); [|by destruct (_ <? _)]. injection E as <- <-. cbn. rewrite (Hdel _ _ Hc). lia.
  - unfold collect_ack in E. destruct (pl_acks s !! ch) as [[|[[]|?|]| |]|]; try discriminate; injection E as <- <-; cbn; rewrite (Hdel _ _ Hc); lia.
  - cbn. rewrite (Hdel _ _ Hc). lia.
  - assert (send_queue_depth s' = send_queue_depth s) as -> by
      (revert E; unfold writer_turn; repeat case_match; intros; by simplify_eq).
    destruct (writer_turn_keeps _ _ _ _ E) as (_ & -> & _). lia.
  - cbn. lia.
  - cbn. lia.
  - cbn. lia.
Qed.

End queue.

(** ** Witnesses and examples *)

(** Two calls; the first is dropped while its frame waits in the queue. *)
Definition toy_call (ch : nat) (b : byte) (s : Plumbing (Sem := Z * bool)) : Plumbing :=
  let s := begin_send [b] Echo 0 ch s in
  match enqueue ch (mkCaller (write_tx s) (mkWriteJob [b] Echo 0 ch) false) s with
  | Some (_, s) => s
  | None => s
  end.
Definition toy_start : Plumbing (Sem := Z * bool) := Plumbing_new (mkWriteHalf [] []).
Definition toy_job (ch : nat) (b : byte) : WriteJob := mkWriteJob [b] Echo 0 ch.
Definition toy_queued : Plumbing := toy_call 1 x22 (abandon 0 (toy_call 0 x11 toy_start)).
Definition toy_events : list queue_event :=
  ((([] ++ [Begins (toy_job 0 x11)]) ++ [Accepted (toy_job 0 x11)]) ++ [Abandoned 0])
    ++ [Begins (toy_job 1 x22)] ++ [Accepted (toy_job 1 x22)].

Lemma toy_call_run evs ch b s : queue_run evs s → pl_acks s !! ch = None → pl_writer s = true → pl_queue s = [] ∨ (∃ j, pl_queue s = [j]) →
  queue_run ((evs ++ [Begins (toy_job ch b)]) ++ [Accepted (toy_job ch b)]) (toy_call ch b s).
Proof.
  intros R Hf Hw Hq.
  assert (queue_run (evs ++ [Begins (toy_job ch b)]) (begin_send [b] Echo 0 ch s)) as R1 by (by econstructor; [|apply step_begin]).
  eapply run_step; [done|]. unfold toy_call. cbv zeta. set (s1 := begin_send [b] Echo 0 ch s) in *.
  apply (step_accept s1 ch (mkCaller (write_tx s1) (toy_job ch b) false)); [|done|].
  - apply lookup_insert_eq.
  - unfold enqueue. cbn [ca_queue ca_job]. change (pl_writer s1) with (pl_writer s). change (pl_queue s1) with (pl_queue s).
    rewrite Nat.eqb_refl, Hw. destruct Hq as [->|[j ->]]; done.
Qed.

Lemma toy_run : queue_run toy_events toy_queued.
Proof.
  unfold toy_events. rewrite app_assoc. apply toy_call_run; [|done|done|right; by eexists].
  eapply run_step; [apply toy_call_run; [apply run_new|done|done|by left]|].
  by eapply (step_abandon _ 0%nat (mkCaller 0 (toy_job 0 x11) true)).
Qed.



(** The frame of the dropped call is written all the same, before the other. *)
Example abandoned_frame_is_sent :
  on_wire (pl_half (write_turns [(Completes, 1); (Completes, 2)] toy_queued)) = frame [x11] ++ frame [x22].
Proof. reflexivity. Qed.

(** ... its bytes are never counted, and the gauge never comes back to zero ... *)
Example abandoned_send_is_not_counted :
  option_map (λ p, (metrics (pl_inner p.2) wire_bytes_sent, send_queue_depth p.2))
    (collect_ack 1 (mkCaller 0 (toy_job 1 x22) true) (write_turns [(Completes, 1); (Completes, 2)] toy_queued)) = Some (1, 1).
Proof. reflexivity. Qed.

(** ... and the credit it spent is refunded when its reservation is dropped: a connection that
    holds one credit sends two requests that cost one each, and still holds it. *)
Example abandoned_send_overspends :
  let i0 := Inner_new (Sem := Z * bool) in
  let '(r1, i1) := reserve_now 1 i0 in
  let s1 := toy_call 0 x11 (set_inner (λ _, i1) toy_start) in
  let s2 := set_inner (unwind 1 None) (abandon 0 s1) in
  let '(r2, i2) := reserve_now 1 (pl_inner s2) in
  let s3 := toy_call 1 x22 (set_inner (λ _, i2) s2) in
  let s4 := write_turns [(Completes, 1); (Completes, 2)] (set_inner (unwind 1 None) (abandon 1 s3)) in
  available (in_credits i0) = 1 ∧ r1 = Reserved ∧ r2 = Reserved ∧ on_wire (pl_half s4) = frame [x11] ++ frame [x22]
  ∧ available (in_credits (pl_inner s4)) = 1.
Proof. vm_compute. by split_and!. Qed.
