(* ===== verification/Probing.v ===== *)
(** * Waiting for credits, dispatching and probing ([src/client/connection.rs])

    [Inner::reserve_credits] with its bounded wait, [CreditPool::reserve], [Connection::dispatch]
    and its parts, [echo_probe] and [keepalive_loop].  What other tasks do while one of these
    waits is an argument: a list of rounds, each with what happened before it and the time. *)

From S2P Require Import Prelude Types Pack Codec Header Signing Transform Compound Credits Oplock Connection Liveness Request.

Definition CREDIT_STARVATION_RECHECK : Z := 250 * ms.

Section probing.
Context {Sem : Type} `{Semaphore Sem, MacPrimitives, AeadPrimitives, Lz4}.
Implicit Types i : Inner (Sem := Sem).
Implicit Types t : Timed (Sem := Sem).

(** ** Waiting for credits *)

(** A turn of the wait: what other tasks did, whether the pool was replaced since the wait began,
    whether the semaphore, which serves in order, has come to this request, and the time. *)
Record CreditRound := mkCreditRound {
  cr_others : Inner (Sem := Sem) → Inner (Sem := Sem);
  cr_replaced : bool;
  cr_turn : bool;
  cr_at : Z
}.

(** [CreditPool::reserve], polled: it is bound to the semaphore that was current when the wait
    began, which a revival closes before it replaces it. *)
Definition reserve (charge : Z) (r : CreditRound) i : option (result Error unit) * Inner (Sem := Sem) :=
  if cr_replaced r || is_closed (in_credits i) then (Some (Err Disconnected), i)
  else if cr_turn r then
    match try_reserve charge (in_credits i) with
    | (true, p) => (Some (Ok tt), set_credits (λ _, p) i)
    | (false, _) => (None, i)
    end
  else (None, i).

Definition starvation (charge waited : Z) i : Error :=
  CreditStarvation charge (available (in_credits i)) waited.

(** The loop: [None] while it still waits. *)
Fixpoint wait_for_credits (charge started deadline : Z) (rounds : list CreditRound) i :
    option (result Error CreditReservation) * Inner (Sem := Sem) :=
  match rounds with
  | [] => (None, i)
  | r :: rounds =>
      match reserve charge r (cr_others r i) with
      | (Some (Ok _), i) => (Some (Ok (CreditReservation_new charge)), i)
      | (Some (Err _), i) => (Some (Err Disconnected), i)
      | (Some Panic, i) => (Some Panic, i)
      | (None, i) =>
          if bool_decide (waiters i = ∅) || (cr_at r >=? deadline)
          then (Some (Err (starvation charge (since (cr_at r) started) i)), bump credit_starvations 1 i)
          else wait_for_credits charge started deadline rounds i
      end
  end.

Definition reserve_credits (charge now : Z) (rounds : list CreditRound) i :
    option (result Error CreditReservation) * Inner (Sem := Sem) :=
  match reserve_now charge i with
  | (Reserved, i) => (Some (Ok (CreditReservation_new charge)), i)
  | (Refused e, i) => (Some (Err e), i)
  | (MustWait, i) => wait_for_credits charge now (now + wait_timeout (in_credits i) * ms) rounds i
  end.

(** ** Dispatching *)

(** [others]: what happens while the frame waits for the writer. *)
Definition dispatch_reserved (c : Command) (body : Writer unit) (tree : option Z) (charge : Z)
    (compression : bool) (now : Z) (ch : nat) (sent : bytes → result Error unit)
    (others : Inner (Sem := Sem) → Inner (Sem := Sem)) i :
    send_outcome (WaiterGuard * bytes) * Inner (Sem := Sem) :=
  if in_disconnected i then (Failed Disconnected, unwind charge None i)
  else
    let '(msg_id, i) := allocate_msg_id charge i in
    let h := request_header c msg_id charge false tree (Some (default 0 tree)) i in
    match pack_message h body with
    | Err e => (Failed e, unwind charge None i)
    | Panic => (Crashed, i)
    | Ok msg =>
        match register_waiter msg_id c now ch i with
        | (Err e, i) => (Failed e, unwind charge None i)
        | (Panic, i) => (Crashed, i)
        | (Ok g, i) =>
            match seal compression msg msg_id i with
            | (Err e, i) => (Failed e, unwind charge (Some g) i)
            | (Panic, i) => (Crashed, i)
            | (Ok wire, i) =>
                match send_and_count sent wire (others i) with
                | (Err e, i) => (Failed e, unwind charge (Some g) i)
                | (Panic, i) => (Crashed, i)
                | (Ok _, i) => (Sent (g, wire), mark_sent [msg_id] now i)
                end
            end
        end
    end.

Definition dispatch_with_credits (c : Command) (body : Writer unit) (tree : option Z) (credit_charge : Z)
    (compression : bool) (now : Z) (rounds : list CreditRound) (ch : nat) (sent : bytes → result Error unit)
    (others : Inner (Sem := Sem) → Inner (Sem := Sem)) i :
    send_outcome (WaiterGuard * bytes) * Inner (Sem := Sem) :=
  if in_disconnected i then (Failed Disconnected, i)
  else
    let charge := Z.max credit_charge 1 in
    match reserve_credits charge now rounds i with
    | (None, i) => (Parked, i)
    | (Some (Err e), i) => (Failed e, i)
    | (Some Panic, i) => (Crashed, i)
    | (Some (Ok _), i) => dispatch_reserved c body tree charge compression now ch sent others i
    end.

Definition dispatch (c : Command) (body : Writer unit) (tree : option Z) :=
  dispatch_with_credits c body tree 1.

(** ** Probing *)

Inductive ProbeOutcome := Alive | Silent | Skipped | Broken.

Definition EchoRequest_body : Writer unit := pack mkTrivialMessage.

Inductive probe_state := Concluded (o : ProbeOutcome) | Asked (g : WaiterGuard) | ProbeCrashed.

(** [echo_probe] up to the wait for the answer. *)
Definition launch_probe (compression : bool) (now : Z) (ch : nat) (sent : bytes → result Error unit)
    (others : Inner (Sem := Sem) → Inner (Sem := Sem)) i : probe_state * Inner (Sem := Sem) :=
  if in_disconnected i then (Concluded Broken, i)
  else
    match try_reserve 1 (in_credits i) with
    | (false, _) => (Concluded Skipped, bump keepalive_probes_skipped 1 i)
    | (true, p) =>
        match dispatch_reserved Echo EchoRequest_body None 1 compression now ch sent others (set_credits (λ _, p) i) with
        | (Sent (g, _), i) => (Asked g, bump keepalive_probes_sent 1 i)
        | (Failed _, i) =>
            if in_disconnected i then (Concluded Broken, i)
            else (Concluded Skipped, bump keepalive_probes_skipped 1 i)
        | (_, i) => (ProbeCrashed, i)
        end
    end.

(** [tokio::time::timeout(budget, guard.recv())]: the answer, [Some None] when the time is over, [None]
    while neither. *)
Fixpoint recv_within (deadline : Z) (g : WaiterGuard) (trace : list ((Inner (Sem := Sem) → Inner (Sem := Sem)) * Z)) i :
    option (option (result Error Frame)) * Inner (Sem := Sem) :=
  match trace with
  | [] => (None, i)
  | (others, now) :: trace =>
      let i := others i in
      match channels i !! g_rx g ≫= recv_result with
      | Some r => (Some (Some r), i)
      | None => if now >=? deadline then (Some None, i) else recv_within deadline g trace i
      end
  end.

(** What the answer says; the guard is dropped at the end. *)
Definition conclude_probe (g : WaiterGuard) (answer : option (result Error Frame)) i : ProbeOutcome * Inner (Sem := Sem) :=
  match answer with
  | Some (Ok _) => (Alive, guard_drop g i)
  | Some (Err Disconnected) | Some (Err (ServerUnresponsive _)) => (Broken, guard_drop g i)
  | Some (Err _) | Some Panic => (Alive, guard_drop g i)
  | None => (Silent, guard_drop g (bump keepalive_failures 1 i))
  end.

Definition echo_probe (budget : Z) (compression : bool) (now : Z) (ch : nat) (sent : bytes → result Error unit)
    (others : Inner (Sem := Sem) → Inner (Sem := Sem)) (sent_at : Z)
    (trace : list ((Inner (Sem := Sem) → Inner (Sem := Sem)) * Z)) i : option (result Error ProbeOutcome) * Inner (Sem := Sem) :=
  match launch_probe compression now ch sent others i with
  | (Concluded o, i) => (Some (Ok o), i)
  | (ProbeCrashed, i) => (Some Panic, i)
  | (Asked g, i) =>
      match recv_within (sent_at + budget) g trace i with
      | (Some answer, i) => let '(o, i) := conclude_probe g answer i in (Some (Ok o), i)
      | (None, i) => (None, i)
      end
  end.

(** ** [keepalive_loop] *)

(** A round: what happened during its sleep, the time it woke, and how its probe goes if it sends one. *)
Record KeepaliveRound := mkKeepaliveRound {
  kr_others : Timed (Sem := Sem) → Timed (Sem := Sem);
  kr_at : Z;
  kr_compression : bool;
  kr_channel : nat;
  kr_sent : bytes → result Error unit;
  kr_sending : Inner (Sem := Sem) → Inner (Sem := Sem);
  kr_sent_at : Z;
  kr_trace : list ((Inner (Sem := Sem) → Inner (Sem := Sem)) * Z)
}.

(** Whether the task has ended, by itself or in a panic, and the state. *)
Inductive task_state := Runs | Ended | Panicked.

Fixpoint keepalive_loop (rounds : list KeepaliveRound) t : task_state * Timed (Sem := Sem) :=
  match rounds with
  | [] => (Runs, t)
  | r :: rounds =>
      let t := kr_others r t in
      if in_disconnected (tm_inner t) then (Ended, t)
      else
        let '(probe, t) := keepalive_round (kr_at r) t in
        match probe, keepalive_after t with
        | true, Some after =>
            match echo_probe after (kr_compression r) (kr_at r) (kr_channel r) (kr_sent r) (kr_sending r)
                    (kr_sent_at r) (kr_trace r) (tm_inner t) with
            | (Some (Ok Broken), i) => (Ended, on_inner (λ _, i) t)
            | (Some (Ok _), i) => keepalive_loop rounds (on_inner (λ _, i) t)
            | (Some (Err _), i) => (Ended, on_inner (λ _, i) t)
            | (Some Panic, i) => (Panicked, on_inner (λ _, i) t)
            | (None, i) => (Runs, on_inner (λ _, i) t)
            end
        | _, _ => keepalive_loop rounds t
        end
  end.

(** ** Lemmas *)

(** What other tasks did during the rounds. *)
Definition elapse (rounds : list CreditRound) i : Inner (Sem := Sem) := foldl (λ i r, cr_others r i) i rounds.

(** The rounds come at most [late] apart. *)
Fixpoint punctual (late prev : Z) (rounds : list CreditRound) : Prop :=
  match rounds with
  | [] => True
  | r :: rounds => prev <= cr_at r <= prev + late ∧ punctual late (cr_at r) rounds
  end.

(** How the wait can have ended with its last round. *)
Definition wait_ends (charge started deadline : Z) (r : CreditRound) i0 (res : result Error CreditReservation) i : Prop :=
  match res with
  | Ok reservation =>
      reservation = CreditReservation_new charge ∧ try_reserve charge (in_credits i0) = (true, in_credits i) ∧
      is_closed (in_credits i0) = false
  | Err e =>
      in_credits i = in_credits i0 ∧
      (e = Disconnected ∧ (cr_replaced r = true ∨ is_closed (in_credits i0) = true) ∨
       e = starvation charge (since (cr_at r) started) i0 ∧ (waiters i0 = ∅ ∨ deadline <= cr_at r))
  | Panic => False
  end.

Lemma wait_for_credits_inv charge started deadline rounds : ∀ i res i',
  wait_for_credits charge started deadline rounds i = (res, i') →
  match res with
  | None => i' = elapse rounds i ∧ Forall (λ r, cr_at r < deadline ∧ cr_replaced r = false) rounds
  | Some res => ∃ before r after, rounds = before ++ r :: after ∧
      Forall (λ r, cr_at r < deadline ∧ cr_replaced r = false) before ∧
      wait_ends charge started deadline r (elapse (before ++ [r]) i) res i'
  end.
Proof.
  induction rounds as [|r rounds IH]; intros i res i' E; cbn [wait_for_credits] in E; [injection E as <- <-; by split|].
  unfold reserve in E. destruct (cr_replaced r) eqn:Er; cbn [orb] in E.
  { injection E as <- <-. exists [], r, rounds. split; [done|]. split; [done|]. split; [done|]. by left; split; [|left]. }
  destruct (is_closed (in_credits (cr_others r i))) eqn:Ec.
  { injection E as <- <-. exists [], r, rounds. split; [done|]. split; [done|]. split; [done|]. by left; split; [|right]. }
  assert (∀ j res i', j = cr_others r i →
    (if bool_decide (waiters j = ∅) || (cr_at r >=? deadline)
     then (Some (Err (starvation charge (since (cr_at r) started) j)), bump credit_starvations 1 j)
     else wait_for_credits charge started deadline rounds j) = (res, i') →
    match res with
    | None => i' = elapse (r :: rounds) i ∧ Forall (λ r, cr_at r < deadline ∧ cr_replaced r = false) (r :: rounds)
    | Some res => ∃ before r' after, r :: rounds = before ++ r' :: after ∧
        Forall (λ r, cr_at r < deadline ∧ cr_replaced r = false) before ∧
        wait_ends charge started deadline r' (elapse (before ++ [r']) i) res i'
    end) as Hwait.
  { intros j res0 j' -> E2. destruct (bool_decide_reflect (waiters (cr_others r i) = ∅)) as [Hw|Hw]; cbn [orb] in E2.
    { injection E2 as <- <-. exists [], r, rounds. split; [done|]. split; [done|]. split; [done|]. by right; split; [|left]. }
    destruct (Z.geb_spec (cr_at r) deadline) as [Hd|Hd].
    { injection E2 as <- <-. exists [], r, rounds. split; [done|]. split; [done|]. split; [done|]. by right; split; [|right]. }
    specialize (IH _ _ _ E2). destruct res0 as [res0|].
    - destruct IH as (before & r' & after & -> & Hb & Hw'). exists (r :: before), r', after. split; [done|]. by split; [constructor|].
    - destruct IH as [-> Hf]. split; [done|]. by constructor. }
  destruct (cr_turn r); [|by eapply Hwait].
  destruct (try_reserve charge (in_credits (cr_others r i))) as [[] p] eqn:Et; [|by eapply Hwait].
  injection E as <- <-. exists [], r, rounds. split; [done|]. split; [done|]. by split_and!.
Qed.

Lemma punctual_before late rounds : ∀ prev before r after deadline, punctual late prev rounds → rounds = before ++ r :: after →
  prev < deadline → Forall (λ r, cr_at r < deadline ∧ cr_replaced r = false) before → prev <= cr_at r < deadline + late.
Proof.
  induction rounds as [|x rounds IH]; intros prev before r after deadline Hp E Hd Hb; [by destruct before|]. destruct Hp as [Hx Hp].
  destruct before as [|y before]; injection E as -> E; [lia|]. apply Forall_cons in Hb as [[Hy _] Hb].
  specialize (IH _ _ _ _ deadline Hp E Hy Hb). lia.
Qed.

(** ** Dispatching is executing without the wait *)

Context `{!SemaphoreLaws Sem}.

(** A dispatch puts on the wire what [execute_with_credits] would, and leaves the same state. *)
Theorem dispatch_sends_the_same c body tree charge compression now ch sent i x i' :
  execute_send c body tree charge compression now ch sent i = (Sent x, i') ↔
  dispatch_with_credits c body tree charge compression now [] ch sent (λ i, i) i = (Sent x, i').
Proof.
  unfold execute_send, execute_reserved, dispatch_with_credits, reserve_credits, dispatch_reserved.
  destruct (in_disconnected i) eqn:Ed; [done|]. destruct (reserve_now _ i) as [[|e|] i1] eqn:Er; [|done|done].
  apply reserve_now_ok in Er as [_ Ei]. assert (in_disconnected i1 = false) as -> by by rewrite Ei.
  destruct (allocate_msg_id _ i1) as [id i2]. destruct (pack_message _ body) as [msg|e|]; [|done..].
  destruct (register_waiter id c now ch i2) as [[g|e|] i3]; [|done..].
  destruct (seal compression msg id i3) as [[wire|e|] i4]; [|done..].
  by destruct (send_and_count sent wire i4) as [[[]|e|] i5].
Qed.

Lemma seal_keeps_alive compression msg id i r i' :
  seal compression msg id i = (r, i') → in_disconnected i' = in_disconnected i.
Proof.
  unfold seal. destruct (cs_should_encrypt (crypto i)).
  - destruct (encrypt_bytes msg (crypto i)) as [r0 c0]. by intros [= <- <-].
  - destruct (if cs_should_sign (crypto i) then _ else _); [|by intros [= <- <-]..].
    case_test; [|by intros [= <- <-]]. destruct (compress_message _ _); by intros [= <- <-].
Qed.

(** Dropping a guard takes its own waiter and channel only. *)
Lemma guard_drop_spares g i : (∀ w, waiters i !! g_msg_id g = Some w → w_tx w = g_rx g) →
  in_disconnected (guard_drop g i) = in_disconnected i ∧ in_credits (guard_drop g i) = in_credits i ∧
  waiters (guard_drop g i) = delete (g_msg_id g) (waiters i) ∧
  ∀ c, c ≠ g_rx g → channels (guard_drop g i) !! c = channels i !! c.
Proof.
  intros Hw. unfold guard_drop. destruct (waiters i !! g_msg_id g) as [w|] eqn:Ew.
  - split; [done|]. split; [done|]. split; [done|]. intros c Hc.
    cbn [channels set_channels set_abandoned set_waiters]. unfold rx_drop. rewrite lookup_insert_ne by done.
    rewrite (Hw w eq_refl). unfold tx_drop. destruct (channels i !! g_rx g) as [[]|]; try done. by apply lookup_insert_ne.
  - split; [done|]. split; [done|]. split; [by cbn; rewrite delete_id|]. intros c Hc. cbn. by apply lookup_insert_ne.
Qed.

Abbreviation on_hand i := (available_permits (permits (in_credits i))).

Lemma dispatch_reserved_spares c body tree charge compression now ch sent i r i' :
  0 <= charge → in_disconnected i = false → waiters i !! next_message_id i = None →
  dispatch_reserved c body tree charge compression now ch sent (λ i, i) i = (r, i') →
  (r ≠ Crashed → in_disconnected i' = false ∧ (∀ k, k ≠ ch → channels i' !! k = channels i !! k)) ∧
  match r with
  | Sent (g, _) => g = mkWaiterGuard (next_message_id i) ch ∧ in_credits i' = in_credits i ∧
      ∀ id, id ≠ next_message_id i → waiters i' !! id = waiters i !! id
  | Failed _ => waiters i' = waiters i ∧ on_hand i' = on_hand i + charge
  | Parked => False
  | Crashed => True
  end.
Proof.
  intros Hc Hd Hw. unfold dispatch_reserved. rewrite Hd. unfold allocate_msg_id. set (i1 := bump _ _ _).
  assert (∀ j, on_hand (unwind charge None j) = on_hand j + charge) as Hu.
  { intros j. cbn. unfold refund. by apply grant_permits. }
  destruct (pack_message _ body) as [msg|e|]; [|intros [= <- <-]; split; [done|]; split; [done|]; apply (Hu i1)|by intros [= <- <-]].
  unfold register_waiter, insert_waiter. change (in_disconnected i1) with (in_disconnected i). rewrite Hd.
  change (waiters (set_channels _ i1)) with (waiters i). rewrite Hw. set (w := mkWaiter ch c now None now None).
  set (g := mkWaiterGuard (next_message_id i) ch). set (i2 := set_waiters _ _).
  destruct (seal compression msg (next_message_id i) i2) as [sl i3] eqn:Es.
  pose proof (seal_frame _ _ _ _ _ _ Es) as (W3 & C3 & H3 & _). pose proof (seal_keeps_alive _ _ _ _ _ _ Es) as D3.
  assert (∀ k, k ≠ ch → channels i3 !! k = channels i !! k) as Hch.
  { intros k Hk. rewrite H3. cbn. by apply lookup_insert_ne. }
  assert (∀ j, waiters j = waiters i3 → channels j = channels i3 → in_disconnected j = in_disconnected i3 → in_credits j = in_credits i3 →
    let j' := unwind charge (Some g) j in
    in_disconnected j' = false ∧ (∀ k, k ≠ ch → channels j' !! k = channels i !! k) ∧ waiters j' = waiters i ∧ on_hand j' = on_hand i + charge) as Hun.
  { intros j Wj Hj Dj Cj. destruct (guard_drop_spares g j) as (G1 & G2 & G3 & G4).
    { intros w0. rewrite Wj, W3. cbn. rewrite lookup_insert_eq. by intros [= <-]. }
    cbv zeta. split_and!.
    - change (in_disconnected (guard_drop g j) = false). rewrite G1, Dj, D3. exact Hd.
    - intros k Hk. change (channels (guard_drop g j) !! k = channels i !! k). rewrite G4, Hj by done. by apply Hch.
    - change (waiters (guard_drop g j) = waiters i). rewrite G3, Wj, W3. cbn. by rewrite delete_insert_id.
    - change (on_hand (unwind charge None (guard_drop g j)) = on_hand i + charge). rewrite Hu, G2, Cj, C3. done. }
  destruct sl as [wire|e|]; [|intros [= <- <-]; by destruct (Hun i3 eq_refl eq_refl eq_refl eq_refl) as (? & ? & ? & ?)|by intros [= <- <-]].
  destruct (send_and_count sent wire i3) as [rs i4] eqn:En. pose proof (send_and_count_inv _ _ _ _ _ En) as I4.
  destruct rs as [[]|e|]; [|subst i4; intros [= <- <-]; by destruct (Hun i3 eq_refl eq_refl eq_refl eq_refl) as (? & ? & ? & ?)|by intros [= <- <-]].
  destruct I4 as [_ ->]. intros [= <- <-]. split.
  - intros _. split; [cbn; by rewrite D3|]. intros k Hk. by apply Hch.
  - split; [done|]. split; [by cbn; rewrite C3|]. intros id Hid. cbn. rewrite lookup_alter_ne by done. rewrite W3. cbn.
    by apply lookup_insert_ne.
Qed.

Lemma recv_within_bounded deadline g trace : ∀ i i', recv_within deadline g trace i = (None, i') →
  Forall (λ p, p.2 < deadline) trace.
Proof.
  induction trace as [|[others now] trace IH]; intros i i' E; [constructor|]. cbn [recv_within] in E.
  destruct (channels (others i) !! g_rx g ≫= recv_result); [done|]. destruct (Z.geb_spec now deadline); [done|].
  constructor; [done|]. by eapply IH.
Qed.

Lemma conclude_spares id ch answer j out j' : (∀ w, waiters j !! id = Some w → w_tx w = ch) →
  conclude_probe (mkWaiterGuard id ch) answer j = (out, j') →
  in_disconnected j' = in_disconnected j ∧ in_credits j' = in_credits j ∧
  waiters j' = delete id (waiters j) ∧ (∀ k, k ≠ ch → channels j' !! k = channels j !! k) ∧
  (out = Broken → answer = Some (Err Disconnected) ∨ ∃ d, answer = Some (Err (ServerUnresponsive d))).
Proof.
  intros Hj E. set (g := mkWaiterGuard id ch) in *.
  assert (∃ x, j' = guard_drop g x ∧ waiters x = waiters j ∧ in_disconnected x = in_disconnected j ∧
    in_credits x = in_credits j ∧ channels x = channels j ∧
    (out = Broken → answer = Some (Err Disconnected) ∨ ∃ d, answer = Some (Err (ServerUnresponsive d))))
    as (x & -> & X1 & X2 & X3 & X4 & Hb).
  { destruct answer as [[f|e|]|]; [|destruct e| |]; injection E as <- <-;
      first [by exists j|by exists (bump keepalive_failures 1 j)|exists j; split_and!; try done; eauto]. }
  destruct (guard_drop_spares g x) as (G1 & G2 & G3 & G4); [rewrite X1; exact Hj|]. by rewrite G1, G2, G3, X1, X2, X3, <-X4.
Qed.

(** ** Properties *)

(** C13: waiting for credits is bounded.  Whatever other tasks do, and as long as the
    recheck comes at most [late] after the one before: a request that waits for credits has its
    answer less than its deadline plus [late] after it began.  It gets exactly its charge out of
    the pool, or an error that takes nothing: [Disconnected] only when the pool was closed or
    replaced, starvation only when no response is outstanding that could carry a grant or when the deadline has
    passed; while it still waits, the deadline has not. *)
Theorem credit_wait_bounded charge now late rounds i res i' i'' :
  0 < wait_timeout (in_credits i) → punctual late now rounds → reserve_now charge i = (MustWait, i') →
  reserve_credits charge now rounds i = (res, i'') →
  let deadline := now + wait_timeout (in_credits i) * ms in
  match res with
  | None => Forall (λ r, cr_at r < deadline) rounds
  | Some res => ∃ before r after, rounds = before ++ r :: after ∧ now <= cr_at r < deadline + late ∧
      wait_ends charge now deadline r (elapse (before ++ [r]) i') res i''
  end.
Proof.
  intros Ht Hp Er E deadline. unfold reserve_credits in E. rewrite Er in E.
  assert (in_credits i' = in_credits i) as Hc.
  { unfold reserve_now in Er. destruct (try_reserve charge (in_credits i)) as [[] p]; [done|]. repeat case_test; try done. by injection Er as <-. }
  rewrite Hc in E. fold deadline in E. assert (now < deadline) by (unfold deadline, ms; lia).
  apply wait_for_credits_inv in E. destruct res as [res|].
  - destruct E as (before & r & after & Hr & Hb & Hw). exists before, r, after. split; [done|]. split; [|done].
    by eapply punctual_before.
  - destruct E as [_ Hf]. eapply Forall_impl; [exact Hf|]. by intros r [? _].
Qed.


End probing.

(** ** Witnesses and examples *)

(** One request is on the wire and no credit is left; the grant comes with the second recheck. *)
Definition starved : Inner (Sem := Z * bool) :=
  set_waiters (λ _, {[7 := mkWaiter 0 Read 0 (Some 0) 0 None]}) (set_credits (λ p, (try_reserve 1 p).2) Inner_new).
Definition toy_rounds : list (CreditRound (Sem := Z * bool)) :=
  [mkCreditRound (λ i, i) false true (250 * ms); mkCreditRound (set_credits (grant 5)) false true (500 * ms)].

Lemma credit_wait_bounded_witness :
  ∃ before r after, toy_rounds = before ++ r :: after ∧ 0 <= cr_at r < 30000 * ms + 250 * ms ∧
    wait_ends 2 0 (30000 * ms) r (elapse (before ++ [r]) (reserve_now 2 starved).2)
      (Ok (CreditReservation_new 2)) (reserve_credits 2 0 toy_rounds starved).2.
Proof.
  apply (credit_wait_bounded 2 0 (250 * ms) toy_rounds starved (Some (Ok (CreditReservation_new 2))) (reserve_now 2 starved).2);
    [done|by vm_compute; split_and!|reflexivity|reflexivity].
Defined.


(** With nothing outstanding a request fails at once; a server that grants nothing is given up on. *)
Example starved_at_once :
  (reserve_credits 2 0 [] (Inner_new (Sem := Z * bool))).1 = Some (Err (CreditStarvation 2 1 0)).
Proof. reflexivity. Qed.
Example starved_in_the_end :
  (reserve_credits 2 0 [mkCreditRound (λ i, i) false true (250 * ms); mkCreditRound (λ i, i) false true (30000 * ms)] starved).1
  = Some (Err (CreditStarvation 2 0 (30000 * ms))).
Proof. reflexivity. Qed.
Example probe_needs_a_credit :
  (launch_probe false 9 1 (λ _, Ok tt) (λ i, i) starved).1 = Concluded Skipped.
Proof. reflexivity. Qed.
