(* ===== verification/Calls.v ===== *)
(** * Whole requests ([src/client/connection.rs])

    [execute], [execute_with_credits] and [execute_compound]: reserving credits, sending, and
    awaiting the answers, with the counters around them.  What other tasks do during each wait, and the
    time, are arguments, as in [Probing] and [Liveness]. *)

From S2P Require Import Prelude Types Pack Codec Header Signing Transform Compound Credits Oplock Connection Liveness Request Probing.

Section calls.
Context {Sem : Type} `{Semaphore Sem, !SemaphoreLaws Sem, MacPrimitives, AeadPrimitives, Lz4}.
Implicit Types i : Inner (Sem := Sem).
Implicit Types t : Timed (Sem := Sem).

Abbreviation trace := (list ((Timed (Sem := Sem) → Timed (Sem := Sem)) * Z)).

Definition put_inner (i : Inner (Sem := Sem)) t : Timed (Sem := Sem) := on_inner (λ _, i) t.

(** [if result.is_err() { requests_returned_err += 1 }] *)
Definition count_error {A} (x : option (result Error A) * Timed (Sem := Sem)) : option (result Error A) * Timed (Sem := Sem) :=
  match x with
  | (Some (Err e), t) => (Some (Err e), on_inner (bump requests_returned_err 1) t)
  | x => x
  end.

(** [rounds]: the wait for credits, over at [now]; [tr]: the wait for the answer. *)
Definition execute_with_credits_inner (c : Command) (body : Writer unit) (tree : option Z) (credit_charge : Z)
    (compression : bool) (asked : Z) (rounds : list CreditRound) (now : Z) (ch : nat)
    (sent : bytes → result Error unit) (tr : trace) t : option (result Error Frame) * Timed (Sem := Sem) :=
  if in_disconnected (tm_inner t) then (Some (Err Disconnected), t)
  else
    let charge := Z.max credit_charge 1 in
    match reserve_credits charge asked rounds (tm_inner t) with
    | (None, i) => (None, put_inner i t)
    | (Some (Err e), i) => (Some (Err e), put_inner i t)
    | (Some Panic, i) => (Some Panic, put_inner i t)
    | (Some (Ok _), i) =>
        match execute_reserved c body tree charge compression now ch sent i with
        | (Sent (g, _), i) => await_response g c tr (put_inner i t)
        | (Failed e, i) => (Some (Err e), put_inner i t)
        | (_, i) => (Some Panic, put_inner i t)
        end
    end.

Definition execute_with_credits (c : Command) (body : Writer unit) (tree : option Z) (credit_charge : Z)
    (compression : bool) (asked : Z) (rounds : list CreditRound) (now : Z) (ch : nat)
    (sent : bytes → result Error unit) (tr : trace) t : option (result Error Frame) * Timed (Sem := Sem) :=
  count_error (execute_with_credits_inner c body tree credit_charge compression asked rounds now ch sent tr t).

Definition connection_execute (c : Command) (body : Writer unit) (tree : option Z) :=
  execute_with_credits c body tree 1.

(** The answers of a compound, one guard after the other. *)
Fixpoint await_all (gs : list (WaiterGuard * Command)) (trs : list trace) t :
    option (list (result Error Frame)) * Timed (Sem := Sem) :=
  match gs with
  | [] => (Some [], t)
  | (g, c) :: gs =>
      match await_response g c (hd [] trs) t with
      | (None, t) => (None, t)
      | (Some r, t) =>
          match await_all gs (tl trs) t with
          | (Some rs, t) => (Some (r :: rs), t)
          | (None, t) => (None, t)
          end
      end
  end.

Definition execute_compound_inner (ops : list CompoundOp) (asked : Z) (rounds : list CreditRound) (now : Z) (chs : list nat)
    (sent : bytes → result Error unit) (trs : list trace) t : option (result Error (list (result Error Frame))) * Timed (Sem := Sem) :=
  match ops with
  | [] => (Some (Err (invalid_data "compound request must have at least one operation")), t)
  | _ =>
      if in_disconnected (tm_inner t) then (Some (Err Disconnected), t)
      else
        let charge := total_charge ops in
        match reserve_credits charge asked rounds (tm_inner t) with
        | (None, i) => (None, put_inner i t)
        | (Some (Err e), i) => (Some (Err e), put_inner i t)
        | (Some Panic, i) => (Some Panic, put_inner i t)
        | (Some (Ok _), i) =>
            match compound_reserved ops charge now chs sent i with
            | (Sent (gs, _), i) =>
                match await_all (zip gs (map op_command ops)) trs (put_inner i t) with
                | (Some rs, t) => (Some (Ok rs), t)
                | (None, t) => (None, t)
                end
            | (Failed e, i) => (Some (Err e), put_inner i t)
            | (_, i) => (Some Panic, put_inner i t)
            end
        end
  end.

Definition connection_execute_compound (ops : list CompoundOp) (asked : Z) (rounds : list CreditRound) (now : Z) (chs : list nat)
    (sent : bytes → result Error unit) (trs : list trace) t : option (result Error (list (result Error Frame))) * Timed (Sem := Sem) :=
  count_error (execute_compound_inner ops asked rounds now chs sent trs (on_inner (bump compound_requests_sent 1) t)).

(** ** A request that returns is gone *)

Definition gone (g : WaiterGuard) i : Prop :=
  waiters i !! g_msg_id g = None ∧ channels i !! g_rx g = Some ChReceiverGone.

Lemma guard_drop_gone g i : gone g (guard_drop g i).
Proof.
  unfold gone, guard_drop. destruct (waiters i !! g_msg_id g) as [w|] eqn:Ew.
  - cbn. rewrite lookup_delete_eq. unfold rx_drop. by rewrite lookup_insert_eq.
  - cbn. split; [done|]. unfold rx_drop. by rewrite lookup_insert_eq.
Qed.

Lemma await_response_loop_gone timeout g tr : ∀ extended t r t',
  await_response_loop timeout g extended tr t = (Some r, t') → r ≠ Panic → gone g (tm_inner t').
Proof.
  induction tr as [|[others now] tr IH]; intros extended t r t' E Hr; [done|]. cbn [await_response_loop] in E.
  destruct (channels _ !! _ ≫= recv_result); [injection E as <- <-; apply guard_drop_gone|].
  destruct (await_tick _ _ _ _ _) as [[[ext|e]|e|] t1]; [by eapply IH|injection E as <- <-; apply guard_drop_gone..|by injection E as <- <-].
Qed.

Lemma long_poll_tick_gone budget refresh g now t r t' :
  long_poll_tick budget refresh g now t = (Some r, t') → r ≠ Panic → gone g (tm_inner t').
Proof.
  unfold long_poll_tick. destruct (waiter_idle_for _ _ _); [|done].
  destruct (match budget with None => _ | Some _ => _ end) as [verdict|e|]; [|intros [= <- <-]; intros; apply guard_drop_gone|by intros [= <- <-]].
  destruct (q ← verdict; _) as [quiet|]; [intros [= <- <-]; intros; apply guard_drop_gone|].
  destruct (r ← refresh; _); [|done]. destruct (channels _ !! _ ≫= recv_result) as [[f|e|]|]; intros [= <- <-]; intros; apply guard_drop_gone.
Qed.
Lemma await_long_poll_loop_gone budget refresh g tr : ∀ t r t',
  await_long_poll_loop budget refresh g tr t = (Some r, t') → r ≠ Panic → gone g (tm_inner t').
Proof.
  induction tr as [|[others now] tr IH]; intros t r t' E Hr; [done|]. cbn [await_long_poll_loop] in E.
  destruct (channels _ !! _ ≫= recv_result); [injection E as <- <-; apply guard_drop_gone|].
  assert (match long_poll_tick budget refresh g now (others t) with
          | (None, t) => await_long_poll_loop budget refresh g tr t | x => x end = (Some r, t') → gone g (tm_inner t')) as Ht.
  { destruct (long_poll_tick _ _ _ _ _) as [[r1|] t1] eqn:Et; [|by intros; eapply IH].
    intros [= -> ->]. by eapply long_poll_tick_gone. }
  destruct budget, refresh; try by apply Ht. by eapply IH.
Qed.
Lemma recv_loop_gone g tr : ∀ t r t', recv_loop g tr t = (Some r, t') → gone g (tm_inner t').
Proof.
  induction tr as [|[others now] tr IH]; intros t r t' E; [done|]. cbn [recv_loop] in E.
  destruct (channels _ !! _ ≫= recv_result); [injection E as <- <-; apply guard_drop_gone|by eapply IH].
Qed.

Lemma await_response_gone g c tr t r t' : await_response g c tr t = (Some r, t') → r ≠ Panic → gone g (tm_inner t').
Proof.
  unfold await_response. destruct (response_timeout t) as [timeout|]; [|intros; by eapply recv_loop_gone].
  destruct (is_long_poll c); [|apply await_response_loop_gone].
  destruct (await_long_poll_loop _ _ _ _ _) as [[[[f|]|e|]|] t1] eqn:E; intros [= <- <-] Hr; try done;
    by eapply await_long_poll_loop_gone.
Qed.

(** ** Compounds *)

Lemma build_sub_requests_length ops : ∀ related i built i',
  build_sub_requests ops related i = (Ok built, i') → length built = length ops.
Proof.
  induction ops as [|op ops IH]; intros related i built i' E; cbn [build_sub_requests] in E; [by injection E as <- <-|].
  destruct (allocate_msg_id _ i) as [id i1]. destruct (pack_message _ _) as [msg|e|]; [|done..].
  destruct (build_sub_requests ops true i1) as [[l|e|] i2] eqn:E2; [|done..]. injection E as <- <-. cbn. by rewrite (IH _ _ _ _ E2).
Qed.

Lemma register_all_length now ids : ∀ cmds chs gs i gs' i',
  register_all ids cmds now chs gs i = (Ok gs', i') → (length ids <= length cmds)%nat → (length ids <= length chs)%nat →
  length gs' = (length gs + length ids)%nat.
Proof.
  induction ids as [|id ids IH]; intros [|c cmds] [|ch chs] gs i gs' i' E H1' H2'; cbn [register_all length] in *; try lia;
    try by (injection E as <- <-; lia).
  destruct (register_waiter id c now ch i) as [[g|e|] i1]; [|done..].
  rewrite (IH _ _ _ _ _ _ E), length_app by lia. cbn. lia.
Qed.

Lemma await_all_answers gs : ∀ trs t rs t', await_all gs trs t = (Some rs, t') → length rs = length gs ∧
  ∀ k g c r, gs !! k = Some (g, c) → rs !! k = Some r → ∃ t1 t2, await_response g c (nth k trs []) t1 = (Some r, t2).
Proof.
  induction gs as [|[g c] gs IH]; intros trs t rs t' E; cbn [await_all] in E; [injection E as <- <-; by split|].
  destruct (await_response g c (hd [] trs) t) as [[r|] t1] eqn:Er; [|done].
  destruct (await_all gs (tl trs) t1) as [[rs'|] t2] eqn:Ea; [|done]. injection E as <- <-.
  destruct (IH _ _ _ _ Ea) as [Hl Hk]. split; [by cbn; rewrite Hl|].
  intros [|k] g0 c0 r0 Hg Hr; cbn in Hg, Hr; [injection Hg as <- <-; injection Hr as <-|].
  - exists t, t1. by destruct trs.
  - destruct (Hk _ _ _ _ Hg Hr) as (t3 & t4 & E4). exists t3, t4. by destruct trs; cbn in *; [destruct k|].
Qed.

(** ** Properties *)

(** A compound that was sent gives one answer per operation, in the order of the operations, each
    the one its own waiter received or the reason it was given up on. *)
Theorem compound_answers_in_order ops asked rounds now chs sent trs t rs t' : (length ops <= length chs)%nat →
  connection_execute_compound ops asked rounds now chs sent trs t = (Some (Ok rs), t') →
  ∃ i gs wire i', compound_reserved ops (total_charge ops) now chs sent i = (Sent (gs, wire), i') ∧
    length gs = length ops ∧ length rs = length ops ∧
    ∀ k g op r, gs !! k = Some g → ops !! k = Some op → rs !! k = Some r →
      ∃ t1 t2, await_response g (op_command op) (nth k trs []) t1 = (Some r, t2).
Proof.
  intros Hch E. unfold connection_execute_compound, execute_compound_inner in E. destruct ops as [|op0 ops0]; [done|].
  set (ops := op0 :: ops0) in *. set (t0 := on_inner _ t) in *. destruct (in_disconnected (tm_inner t0)); [done|].
  destruct (reserve_credits _ asked rounds (tm_inner t0)) as [[[res|e|]|] i] eqn:Er; [|done..].
  destruct (compound_reserved ops (total_charge ops) now chs sent i) as [[[gs wire]|e| |] i'] eqn:Es; [|done..].
  destruct (await_all _ trs (put_inner i' t0)) as [[rs0|] t1] eqn:Ea; cbn [count_error] in E; [|done]. injection E as <- <-.
  assert (length gs = length ops) as Hg.
  { unfold compound_reserved in Es. destruct (build_sub_requests _ _ i) as [[built|e|] i2] eqn:Eb; [|done..].
    apply build_sub_requests_length in Eb. destruct (subs ← link_sub_requests _; _) as [subs|e|]; [|done..].
    destruct (register_all _ _ _ _ _ i2) as [[gs'|e|] i3] eqn:Eg; [|done..].
    apply register_all_length in Eg; [|rewrite !length_map; lia|rewrite length_map; lia]. rewrite length_map in Eg.
    destruct (if cs_should_encrypt (crypto i3) then _ else _) as [[w|e|] i4]; [|done..].
    destruct (send_and_count sent w i4) as [[u|e|] i5]; [|done..]. injection Es as <- <- <-. cbn [length plus] in Eg. lia. }
  destruct (await_all_answers _ _ _ _ _ Ea) as [Hl Hk]. rewrite length_zip_with, length_map in Hl.
  exists i, gs, wire, i'. split; [done|]. split; [done|]. split; [lia|].
  intros k g op r Kg Ko Kr. apply (Hk k g (op_command op) r); [|done].
  apply lookup_zip_with_Some. exists g, (op_command op). split; [done|]. split; [done|].
  by rewrite list_lookup_fmap, Ko.
Qed.

(** A request that returns leaves nothing behind.  However long it waited for credits and for its answer, and whatever
    other tasks did meanwhile: a request that was sent and has returned, with an answer or an
    error, has no waiter any more and its channel is closed; one that was not sent took no waiter; and every error is counted
    once. *)
Theorem returned_request_is_gone c body tree charge compression asked rounds now ch sent tr t r t' :
  (∀ i j, reserve_credits (Z.max charge 1) asked rounds (tm_inner t) = (j, i) → waiters i !! next_message_id i = None) →
  execute_with_credits c body tree charge compression asked rounds now ch sent tr t = (Some r, t') → r ≠ Panic →
  ∃ t0, t' = (if is_err r then on_inner (bump requests_returned_err 1) t0 else t0) ∧
    (in_disconnected (tm_inner t) = true ∧ t0 = t ∧ r = Err Disconnected ∨
     ∃ res i, reserve_credits (Z.max charge 1) asked rounds (tm_inner t) = (Some res, i) ∧
       ((∃ e, res = Err e ∧ r = Err e ∧ tm_inner t0 = i) ∨
        (∃ e i1, execute_reserved c body tree (Z.max charge 1) compression now ch sent i = (Failed e, i1) ∧
           r = Err e ∧ tm_inner t0 = i1 ∧ waiters i1 = waiters i) ∨
        (∃ g wire i1, execute_reserved c body tree (Z.max charge 1) compression now ch sent i = (Sent (g, wire), i1) ∧
           await_response g c tr (put_inner i1 t) = (Some r, t0) ∧ gone g (tm_inner t0)))).
Proof.
  intros Hfree E Hr. unfold execute_with_credits in E.
  destruct (execute_with_credits_inner _ _ _ _ _ _ _ _ _ _ _ t) as [r0 t0] eqn:E0.
  assert (r0 = Some r ∧ t' = if is_err r then on_inner (bump requests_returned_err 1) t0 else t0) as [-> Ht].
  { destruct r0 as [[f|e|]|]; cbn [count_error] in E; by simplify_eq. }
  exists t0. split; [done|]. clear E Ht. unfold execute_with_credits_inner in E0.
  destruct (in_disconnected (tm_inner t)); [injection E0 as <- <-; by left|]. right.
  destruct (reserve_credits _ asked rounds (tm_inner t)) as [[[res|e|]|] i] eqn:Er; [| | by injection E0 as <- <-|done];
    specialize (Hfree _ _ eq_refl); eexists _, i; (split; [done|]).
  - right. destruct (execute_reserved _ _ _ _ _ _ _ _ i) as [[[g wire]|e| |] i1] eqn:Ex; [| |by injection E0 as <- <-..].
    + right. exists g, wire, i1. split; [done|]. split; [done|]. by eapply await_response_gone.
    + left. injection E0 as <- <-. exists e, i1. split; [done|]. split; [done|]. split; [done|].
      apply execute_reserved_failed in Ex as [Hw _]; [done|lia|done].
  - left. injection E0 as <- <-. by exists e.
Qed.

End calls.

(** ** Witness *)

(** An ECHO that is answered with an error. *)
Abbreviation toy_call := (execute_with_credits (Sem := Z * bool) Echo EchoRequest_body None 1 false 0 [] 0 0 (λ _, Ok tt)
  [(on_inner (route_one 0 (Err SessionExpired)), 5)] (Timed_new 0)).

Lemma returned_request_is_gone_witness :
  ∃ t', toy_call = (Some (Err SessionExpired), t') ∧ metrics (tm_inner t') requests_returned_err = 1 ∧
    ∃ t0, t' = on_inner (bump requests_returned_err 1) t0.
Proof.
  assert (toy_call.1 = Some (Err SessionExpired) ∧ metrics (tm_inner toy_call.2) requests_returned_err = 1) as [E1 E2] by (vm_compute; by split).
  destruct toy_call as [r t'] eqn:E. cbn [fst snd] in E1, E2. subst r. exists t'. split; [reflexivity|]. split; [exact E2|].
  destruct (returned_request_is_gone (Sem := Z * bool) Echo EchoRequest_body None 1 false 0 [] 0 0 (λ _, Ok tt)
    [(on_inner (route_one 0 (Err SessionExpired)), 5)] (Timed_new 0) (Err SessionExpired) t') as (t0 & Ht & _); [|exact E|discriminate|by exists t0].
  intros i j Ei. assert (waiters (reserve_credits (Z.max 1 1) 0 [] (tm_inner (Timed_new (Sem := Z * bool) 0))).2
    !! next_message_id (reserve_credits (Z.max 1 1) 0 [] (tm_inner (Timed_new (Sem := Z * bool) 0))).2 = None) as Hn by (vm_compute; reflexivity). by rewrite Ei in Hn.
Defined.
