(* ===== verification/CopyFiles.v ===== *)
(** * Server-side copies of files ([src/client/copy.rs])

    Opening the two files, asking for the resume key, copying with [Copy], flushing and
    closing. *)

From S2P Require Import Prelude Types Pack Codec Header FileIo Create Ioctl Copy Pipeline Tree Script.

Section files.
Context {C : Type} `{Wire C} (t : Tree).

(** [conn.execute(Command::Ioctl, &req, Some(self.tree_id))] *)
Definition ioctl_exec (c : C) (req : IoctlRequest) : result Error (Z * bytes) * C :=
  execute_with_credits c (tree_id t) (OpIoctl req) 1.

Definition resume_key_request (source : FileId) : IoctlRequest :=
  mkIoctlRequest FSCTL_SRV_REQUEST_RESUME_KEY source 0 32 SMB2_0_IOCTL_IS_FSCTL [].

Definition request_resume_key (source : FileId) : io (World C) bytes :=
  '(status, body) ← execute (tree_id t) (OpIoctl (resume_key_request source));
  if negb (status =? NtStatus.SUCCESS) then io_err (Protocol status Types.Ioctl)
  else
    ioctl_resp ← io_lift (unpack_body IoctlResponse body);
    resume ← io_lift (unpack_body SrvRequestResumeKeyResponse (ior_output_data ioctl_resp));
    mret (srk_resume_key resume).

(** [server_side_copy_range] on the connection; [rounds] as in [Copy]. *)
Definition copy_range (rounds : nat) (dest : FileId) (key : bytes) (source_offset dest_offset length : Z) :
    io (World C) Z := λ w,
  match server_side_copy_range ioctl_exec dest key rounds source_offset dest_offset length (w_conn w) with
  | None => None
  | Some (r, c) => Some (r, mkWorld c (w_events w))
  end.

(** The copy itself, between opening and closing. *)
Definition copy_opened (rounds : nat) (src_id dst_id : FileId) (source_offset dest_offset length : Z) : io (World C) Z :=
  key ← request_resume_key src_id;
  copied ← copy_range rounds dst_id key source_offset dest_offset length;
  flush_handle t dst_id ;;
  mret copied.

Definition copy_paths (rounds : nat) (source_path dest_path : list Z) (truncate_dest : bool)
    (source_offset dest_offset : Z) (length : option Z) : io (World C) Z :=
  '(src_id, src_size) ← open_file t source_path;
  dst_open ← attempt (if truncate_dest then open_readwrite_overwrite t dest_path else open_file_readwrite t dest_path);
  match dst_open with
  | Err e => _ ← attempt (close_handle t src_id); io_err e
  | Panic => io_lift Panic
  | Ok (dst_id, _) =>
      let len := match length with Some n => n | None => src_size end in
      result ← attempt (copy_opened rounds src_id dst_id source_offset dest_offset len);
      _ ← attempt (close_handle t dst_id);
      _ ← attempt (close_handle t src_id);
      io_lift result
  end.

Definition server_side_copy_file (rounds : nat) (source_path dest_path : list Z) : io (World C) Z :=
  copy_paths rounds source_path dest_path true 0 0 None.
Definition server_side_copy_file_range (rounds : nat) (source_path : list Z) (source_offset : Z) (dest_path : list Z)
    (dest_offset length : Z) : io (World C) Z :=
  copy_paths rounds source_path dest_path false source_offset dest_offset (Some length).

(** ** The loop sends nothing but IOCTLs *)

Lemma copy_chunks_rel (R : C → C → Prop) dest key c chunks r c' :
  (∀ c, R c c) → (∀ c req r c', ioctl_exec c req = (r, c') → R c c') →
  copy_chunks ioctl_exec dest key c chunks = (r, c') → R c c'.
Proof.
  intros Hr He. unfold copy_chunks. destruct (copychunk_request _ _ _) as [req|e|]; try (intros [= <- <-]; apply Hr).
  destruct (ioctl_exec c req) as [x c1] eqn:E. apply He in E. destruct x as [[s b]|e|]; by intros [= <- <-].
Qed.

Lemma copy_loop_rel (R : C → C → Prop) dest key rounds : 
  (∀ c, R c c) → (∀ a b c, R a b → R b c → R a c) → (∀ c req r c', ioctl_exec c req = (r, c') → R c c') →
  ∀ src dst n limits copied c r c', copy_loop ioctl_exec dest key rounds src dst n limits copied c = Some (r, c') → R c c'.
Proof.
  intros Hr Ht He. induction rounds as [|rounds IH]; intros src dst n limits copied c r c'; cbn [copy_loop];
    (destruct (copied <? n); [|intros [= <- <-]; apply Hr]); [done|].
  destruct (_ ≫= _) as [[chunks batch_len]|e|]; [|intros [= <- <-]; apply Hr|intros [= <- <-]; apply Hr].
  destruct (_ || _); [intros [= <- <-]; apply Hr|].
  destruct (copy_chunks ioctl_exec dest key c chunks) as [o c1] eqn:Ec.
  apply (copy_chunks_rel R) in Ec; [|done|done].
  destruct o as [[x|limits']|e|]; [| |intros [= <- <-]; exact Ec|intros [= <- <-]; exact Ec].
  - destruct (_ =? 0); [intros [= <- <-]; exact Ec|]. intros E%IH. by eapply Ht.
  - destruct (decide _); [intros [= <- <-]; exact Ec|]. intros E%IH. by eapply Ht.
Qed.

Lemma copy_range_rel (R : C → C → Prop) rounds dest key src dst n w r w' :
  (∀ c, R c c) → (∀ a b c, R a b → R b c → R a c) → (∀ c req r c', ioctl_exec c req = (r, c') → R c c') →
  copy_range rounds dest key src dst n w = Some (r, w') → R (w_conn w) (w_conn w').
Proof.
  intros Hr Ht He. unfold copy_range, server_side_copy_range. destruct (n =? 0); [intros [= <- <-]; apply Hr|].
  destruct (copy_loop _ _ _ _ _ _ _ _ _ _) as [[x c1]|] eqn:E; [|done]. intros [= <- <-].
  by eapply copy_loop_rel in E.
Qed.

End files.

(** ** What leaves the client *)

(** Whatever the script answers, [m] sends some [xs] and returns [r] with [P r xs]. *)
Definition emits {A} (m : io (World Script) A) (P : result Error A → list sent → Prop) : Prop :=
  ∀ w r w', m w = Some (r, w') → ∃ xs, sc_sent (w_conn w') = sc_sent (w_conn w) ++ xs ∧ P r xs.

Lemma emits_weaken {A} (m : io (World Script) A) (P Q : result Error A → list sent → Prop) :
  emits m P → (∀ r xs, P r xs → Q r xs) → emits m Q.
Proof. intros Hm HPQ w r w' E. destruct (Hm _ _ _ E) as (xs & Hs & Hp). exists xs. auto. Qed.
Lemma emits_lift {A} (r : result Error A) : emits (io_lift r) (λ r' xs, r' = r ∧ xs = []).
Proof. intros w r' w' [= <- <-]. exists []. by rewrite app_nil_r. Qed.
Lemma emits_bind {A B} (m : io (World Script) A) (k : A → io (World Script) B) P Q :
  emits m P → (∀ a, emits (k a) (Q a)) →
  emits (m ≫= k) (λ r xs, (∃ a ys zs, xs = ys ++ zs ∧ P (Ok a) ys ∧ Q a r zs) ∨ (∃ e, r = Err e ∧ P (Err e) xs) ∨ (r = Panic ∧ P Panic xs)).
Proof.
  intros Hm Hk w r w' [(a & w1 & E1 & E2)|[(e & E1 & ->)|[E1 ->]]]%io_bind_inv;
    destruct (Hm _ _ _ E1) as (xs & Hs & Hp); [|exists xs; by eauto 6..].
  destruct (Hk a _ _ _ E2) as (ys & Hs2 & Hq). exists (xs ++ ys). rewrite Hs2, Hs, app_assoc. split; [done|]. left. eauto 8.
Qed.
Lemma emits_attempt {A} (m : io (World Script) A) P :
  emits m P → emits (attempt m) (λ r xs, (∃ r1, r = Ok r1 ∧ r1 ≠ Panic ∧ P r1 xs) ∨ (r = Panic ∧ P Panic xs)).
Proof.
  intros Hm w r w' (r1 & E & [[-> ->]|[Hr ->]])%attempt_inv; destruct (Hm _ _ _ E) as (xs & Hs & Hp); exists xs; eauto 8.
Qed.
Lemma emits_execute tree op : emits (execute tree op) (λ r xs, r ≠ Panic ∧ xs = [One tree op 1]).
Proof.
  intros w r w'. unfold execute, execute_charged. cbn. unfold script_execute.
  destruct (sc_answers (w_conn w)) as [|[e|s b] l]; intros [= <- <-]; exists [One tree op 1]; by split_and!.
Qed.

(** No request, and no panic. *)
Definition silent {A} (m : io (World Script) A) : Prop := emits m (λ r xs, r ≠ Panic ∧ xs = []).
(** The one request [x], and no panic. *)
Definition only {A} (x : sent) (m : io (World Script) A) : Prop := emits m (λ r xs, r ≠ Panic ∧ xs = [x]).

Lemma silent_lift {A} (r : result Error A) : r ≠ Panic → silent (io_lift r).
Proof. intros Hr. eapply emits_weaken; [apply emits_lift|]. by intros r' xs [-> ->]. Qed.
Lemma silent_bind {A B} (m : io (World Script) A) (k : A → io (World Script) B) :
  silent m → (∀ a, silent (k a)) → silent (m ≫= k).
Proof.
  intros Hm Hk. eapply emits_weaken; [exact (emits_bind _ _ _ _ Hm Hk)|].
  intros r xs [(a & ys & zs & -> & [_ ->] & ? & ->)|[(e & -> & _ & ->)|[_ [? _]]]]; done.
Qed.
Lemma only_bind {A B} x (m : io (World Script) A) (k : A → io (World Script) B) :
  only x m → (∀ a, silent (k a)) → only x (m ≫= k).
Proof.
  intros Hm Hk. eapply emits_weaken; [exact (emits_bind _ _ _ _ Hm Hk)|].
  intros r xs [(a & ys & zs & -> & [_ ->] & ? & ->)|[(e & -> & _ & ->)|[_ [? _]]]]; done.
Qed.
Lemma only_execute tree op : only (One tree op 1) (execute tree op).
Proof. apply emits_execute. Qed.

Section closing.
Context (t : Tree).

Definition sends_create (req : CreateRequest) : sent := One (tree_id t) (OpCreate req) 1.
Definition sends_close (id : FileId) : sent := One (tree_id t) (OpClose (mkCloseRequest 0 id)) 1.
Definition sends_flush (id : FileId) : sent := One (tree_id t) (OpFlush (mkFlushRequest id)) 1.

Lemma only_open_with req : only (sends_create req) (open_with t req).
Proof.
  apply only_bind; [apply only_execute|]. intros [s b]. case_match; [by apply silent_lift|].
  apply silent_lift, (unpack_body_no_panic CreateResponse).
Qed.
Lemma only_open {A} req (f : CreateResponse → A) : only (sends_create req) (resp ← open_with t req; mret (f resp)).
Proof. apply only_bind; [apply only_open_with|]. intros resp. by apply (silent_lift (Ok (f resp))). Qed.
Lemma only_flush id : only (sends_flush id) (flush_handle t id).
Proof. apply only_bind; [apply only_execute|]. intros [s b]. case_match; [by apply silent_lift|by apply (silent_lift (Ok tt))]. Qed.
Lemma only_close id : only (sends_close id) (close_handle t id).
Proof.
  intros w r w' E. unfold close_handle in E. apply io_bind_inv in E as [(? & w1 & [= <- <-] & E)|[(e & ? & _)|[? _]]]; [|done|done].
  assert (only (sends_close id) ('(status, _) ← execute (tree_id t) (OpClose (mkCloseRequest 0 id));
    if negb (status =? NtStatus.SUCCESS) then io_err (Protocol status Close) else mret tt)) as Ho.
  { apply only_bind; [apply only_execute|]. intros [s b]. case_match; [by apply silent_lift|by apply (silent_lift (Ok tt))]. }
  destruct (Ho _ _ _ E) as (xs & Hs & Hp). by exists xs.
Qed.

(** Requests that leave no handle behind. *)
Definition harmless (x : sent) : Prop :=
  match x with One tid (OpIoctl _) _ | One tid (OpFlush _) _ => tid = tree_id t | _ => False end.

Lemma resume_key_no_panic b : unpack_body SrvRequestResumeKeyResponse b ≠ Panic.
Proof.
  unfold unpack_body, unpack, SrvRequestResumeKeyResponse_unpack.
  pose proof (rok_start (read_bytes RESUME_KEY_LEN) _ b (rok_read_bytes RESUME_KEY_LEN ltac:(done))) as Hs.
  by destruct (read_bytes RESUME_KEY_LEN (ReadCursor_new b)) as [[k c]|e|].
Qed.
Lemma emits_resume_key id : emits (request_resume_key t id) (λ r xs, Forall harmless xs).
Proof.
  eapply emits_weaken.
  - apply (only_bind (One (tree_id t) (OpIoctl (resume_key_request id)) 1)); [apply only_execute|]. intros [s b].
    case_match; [by apply silent_lift|]. apply silent_bind; [apply silent_lift, (unpack_body_no_panic IoctlResponse)|].
    intros resp. apply silent_bind; [apply silent_lift, resume_key_no_panic|].
    intros k. by apply (silent_lift (Ok _)).
  - intros r xs [_ ->]. by constructor.
Qed.

Lemma emits_copy_range rounds dest key src dst n :
  emits (copy_range t rounds dest key src dst n) (λ r xs, Forall harmless xs).
Proof.
  intros w r w' E.
  apply (copy_range_rel t (λ s s', ∃ xs, sc_sent s' = sc_sent s ++ xs ∧ Forall harmless xs)) in E; [done| | |].
  - intros s. exists []. by rewrite app_nil_r.
  - intros s1 s2 s3 (xs & -> & Hx) (ys & -> & Hy). exists (xs ++ ys). rewrite app_assoc. split; [done|]. by apply Forall_app.
  - intros s req r1 s'. unfold ioctl_exec. cbn. unfold script_execute.
    destruct (sc_answers s) as [|a l]; intros [= _ <-]; eexists; (split; [done|]); by constructor.
Qed.

Lemma emits_copy_opened rounds src_id dst_id so d_o n :
  emits (copy_opened t rounds src_id dst_id so d_o n)
    (λ r xs, Forall harmless xs ∧ (is_ok r = true → last xs = Some (sends_flush dst_id))).
Proof.
  unfold copy_opened. eapply emits_weaken.
  { apply (emits_bind _ _ _ (λ _ r xs, Forall harmless xs ∧ (is_ok r = true → last xs = Some (sends_flush dst_id)))
      (emits_resume_key src_id)). intros key.
    eapply emits_weaken.
    { apply (emits_bind _ _ _ (λ _ r xs, Forall harmless xs ∧ (is_ok r = true → last xs = Some (sends_flush dst_id)))
        (emits_copy_range rounds dst_id key so d_o n)). intros copied.
      eapply emits_weaken; [apply (only_bind (sends_flush dst_id)); [apply only_flush|intros _; by apply (silent_lift (Ok copied))]|].
      intros r xs [_ ->]. split; [by constructor|done]. }
    intros r xs [(a & ys & zs & -> & Hy & Hz & Hl)|[(e & -> & Hp)|[-> Hp]]]; [|done|done].
    split; [by apply Forall_app|]. intros Hr. rewrite last_app. by rewrite Hl. }
  intros r xs [(a & ys & zs & -> & Hy & Hz & Hl)|[(e & -> & Hp)|[-> Hp]]]; [|done|done].
  split; [by apply Forall_app|]. intros Hr. rewrite last_app. by rewrite Hl.
Qed.

Lemma only_close_attempt id w r w' : attempt (close_handle t id) w = Some (r, w') →
  (∃ x, r = Ok x) ∧ sc_sent (w_conn w') = sc_sent (w_conn w) ++ [sends_close id].
Proof.
  intros E. destruct (emits_attempt _ _ (only_close id) _ _ _ E) as (xs & Hs & [(r1 & -> & _ & _ & ->)|[_ [? _]]]); [|done].
  by split; [eexists|].
Qed.

(** The CREATE that opens the destination. *)
Definition dest_create (truncate_dest : bool) (dest_path : list Z) : CreateRequest :=
  readwrite_create (format_path t dest_path) (if truncate_dest then FileOverwriteIf else FileOpenIf).
Definition open_dest (truncate_dest : bool) (dest_path : list Z) : io (World Script) (FileId * Z) :=
  if truncate_dest then open_readwrite_overwrite t dest_path else open_file_readwrite t dest_path.

Lemma only_open_dest truncate dest_path : only (sends_create (dest_create truncate dest_path)) (open_dest truncate dest_path).
Proof. unfold open_dest, dest_create. destruct truncate; apply (only_open _ (λ resp, (crr_file_id resp, crr_end_of_file resp))). Qed.

(** A server-side copy leaks no handle.  Whatever the server answers, a copy by paths that
    returns has closed every handle it opened: the source when the destination could not be opened,
    and both, the destination first, when the copy ran, whether it succeeded or failed; between
    them it sent copy requests and at most one FLUSH, which is there when it reports success. *)
Theorem copy_leaks_no_handle rounds source_path dest_path truncate so d_o n w r w' :
  copy_paths t rounds source_path dest_path truncate so d_o n w = Some (r, w') → r ≠ Panic →
  let c1 := sends_create (read_create (format_path t source_path)) in
  let c2 := sends_create (dest_create truncate dest_path) in
  ∃ xs, sc_sent (w_conn w') = sc_sent (w_conn w) ++ xs ∧
    ((is_err r = true ∧ xs = [c1]) ∨
     ∃ src_id size w1, open_file t source_path w = Some (Ok (src_id, size), w1) ∧
       ((is_err r = true ∧ xs = [c1; c2; sends_close src_id]) ∨
        ∃ dst_id size2 w2 mid, open_dest truncate dest_path w1 = Some (Ok (dst_id, size2), w2) ∧
          xs = [c1; c2] ++ mid ++ [sends_close dst_id; sends_close src_id] ∧ Forall harmless mid ∧
          (is_ok r = true → last mid = Some (sends_flush dst_id)))).
Proof.
  intros E Hr c1 c2. unfold copy_paths in E.
  pose proof (only_open (read_create (format_path t source_path)) (λ resp, (crr_file_id resp, crr_end_of_file resp))) as Ho.
  apply io_bind_inv in E as [([src_id size] & w1 & E1 & E)|[(e & E1 & ->)|[E1 ->]]]; [| |done];
    destruct (Ho _ _ _ E1) as (xs1 & Hs1 & _ & ->); [|exists [c1]; split; [done|by left]].
  fold (open_dest truncate dest_path) in E.
  apply io_bind_inv in E as [(ro & w2 & E2 & E)|[(e & E2 & ->)|[E2 ->]]]; [| |done].
  2: { destruct (emits_attempt _ _ (only_open_dest truncate dest_path) _ _ _ E2) as (? & _ & [(? & ? & _)|[? _]]); done. }
  destruct (emits_attempt _ _ (only_open_dest truncate dest_path) _ _ _ E2) as (xs2 & Hs2 & [(r2 & [= ->] & Hr2 & _ & ->)|[? _]]); [|done].
  destruct r2 as [[dst_id size2]|e|]; [| |done].
  - apply attempt_inv in E2 as (r2' & E2 & [[_ ?]|[_ [= <-]]]); [done|].
    apply io_bind_inv in E as [(result & w3 & E3 & E)|[(e & E3 & ->)|[E3 ->]]]; [| |done].
    2: { apply attempt_inv in E3 as (? & _ & [[_ ?]|[_ ?]]); done. }
    destruct (emits_attempt _ _ (emits_copy_opened _ _ _ _ _ _) _ _ _ E3) as (mid & Hs3 & [(r3 & [= ->] & Hr3 & Hm & Hl)|[? _]]); [|done].
    apply io_bind_inv in E as [(x4 & w4 & [_ Hs4]%only_close_attempt & E)|[(e & [[? ?] _]%only_close_attempt & _)|[[[? ?] _]%only_close_attempt _]]]; [|done|done].
    apply io_bind_inv in E as [(x5 & w5 & [_ Hs5]%only_close_attempt & E)|[(e & [[? ?] _]%only_close_attempt & _)|[[[? ?] _]%only_close_attempt _]]]; [|done|done].
    injection E as <- <-. exists ([c1; c2] ++ mid ++ [sends_close dst_id; sends_close src_id]). split.
    { rewrite Hs5, Hs4, Hs3, Hs2, Hs1, <- !app_assoc. done. }
    right. exists src_id, size, w1. split; [done|]. right. exists dst_id, size2, w2, mid. by split_and!.
  - apply io_bind_inv in E as [(x4 & w4 & [_ Hs4]%only_close_attempt & E)|[(e' & [[? ?] _]%only_close_attempt & _)|[[[? ?] _]%only_close_attempt _]]]; [|done|done].
    injection E as <- <-. exists [c1; c2; sends_close src_id]. split.
    { rewrite Hs4, Hs2, Hs1, <- !app_assoc. done. }
    right. exists src_id, size, w1. split; [done|]. by left.
Qed.

End closing.

(** ** What a copy leaves in the destination *)

Section exact.
Context {C : Type} `{Wire C} (t : Tree).
(** The bytes of the source file, and those behind a handle. *)
Context (source : Z → byte) (dest : FileId → C → Z → byte).
Context (Hserver : ∀ key d, len key = 24 → faithful_server (ioctl_exec t) d key source (dest d)).

(** Requests that write nothing. *)
Definition passive (op : FileOp) : Prop :=
  match op with
  | OpFlush _ | OpClose _ => True
  | OpIoctl m => ioq_ctl_code m = FSCTL_SRV_REQUEST_RESUME_KEY
  | _ => False
  end.
Context (Hpassive : ∀ c op n d x, passive op → dest d (execute_with_credits c (tree_id t) op n).2 x = dest d c x).
Context (Hforget : ∀ c f d x, dest d (forget_oplock c f) x = dest d c x).

(** [m] leaves every file as it was. *)
Definition leaves {A} (m : io (World C) A) : Prop :=
  ∀ w r w', m w = Some (r, w') → ∀ d x, dest d (w_conn w') x = dest d (w_conn w) x.

Lemma leaves_lift {A} (r : result Error A) : leaves (io_lift r).
Proof. by intros w r' w' [= <- <-]. Qed.
Lemma leaves_bind {A B} (m : io (World C) A) (k : A → io (World C) B) : leaves m → (∀ a, leaves (k a)) → leaves (m ≫= k).
Proof.
  intros Hm Hk w r w' [(a & w1 & E1 & E2)|[(e & E1 & ->)|[E1 ->]]]%io_bind_inv d x;
    [rewrite (Hk a _ _ _ E2)|..]; by rewrite (Hm _ _ _ E1).
Qed.
Lemma leaves_attempt {A} (m : io (World C) A) : leaves m → leaves (attempt m).
Proof. intros Hm w r w' (r1 & E & _)%attempt_inv. by apply Hm in E. Qed.
Lemma leaves_execute op : passive op → leaves (execute (tree_id t) op).
Proof.
  intros Hp w r w'. unfold execute, execute_charged. pose proof (Hpassive (w_conn w) op 1) as Hx.
  destruct (execute_with_credits _ _ op 1) as [r1 c1]. intros [= <- <-] d x. by apply (Hx d x Hp).
Qed.
Lemma leaves_flush id : leaves (flush_handle t id).
Proof. apply leaves_bind; [by apply leaves_execute|]. intros [s b]. case_match; [apply leaves_lift|apply (leaves_lift (Ok tt))]. Qed.
Lemma leaves_close id : leaves (close_handle t id).
Proof.
  apply leaves_bind; [intros w r w' [= <- <-] d x; apply Hforget|]. intros _.
  apply leaves_bind; [by apply leaves_execute|]. intros [s b]. case_match; [apply leaves_lift|apply (leaves_lift (Ok tt))].
Qed.
Lemma leaves_resume_key id : leaves (request_resume_key t id).
Proof.
  apply leaves_bind; [by apply leaves_execute|]. intros [s b]. case_match; [apply leaves_lift|].
  apply leaves_bind; [apply leaves_lift|]. intros resp. apply leaves_bind; [apply leaves_lift|]. intros k.
  apply (leaves_lift (Ok _)).
Qed.

Lemma resume_key_len id w key w' : request_resume_key t id w = Some (Ok key, w') → len key = 24.
Proof.
  intros [([s b] & w1 & _ & E)|[(e & _ & ?)|[_ ?]]]%io_bind_inv; [|done|done]. case_match; [done|].
  apply io_bind_inv in E as [(resp & w2 & _ & E)|[(e & _ & ?)|[_ ?]]]; [|done|done].
  apply io_bind_inv in E as [(k & w3 & E1 & E)|[(e & _ & ?)|[_ ?]]]; [|done|done]. injection E as <- <-.
  injection E1 as E1 <-. revert E1. unfold unpack_body, unpack, SrvRequestResumeKeyResponse_unpack.
  pose proof (rok_start (read_bytes RESUME_KEY_LEN) _ (ior_output_data resp) (rok_read_bytes RESUME_KEY_LEN ltac:(done))) as Hs.
  destruct (read_bytes RESUME_KEY_LEN _) as [[k0 c]|e|]; [|done|done]. by intros [= <-].
Qed.

Lemma copy_opened_exact rounds src_id dst_id so d_o n w k w' :
  0 <= so → 0 <= d_o → 0 <= n → so + n <= 2 ^ 64 → d_o + n <= 2 ^ 64 →
  copy_opened t rounds src_id dst_id so d_o n w = Some (Ok k, w') →
  k = n ∧ ∀ x, dest dst_id (w_conn w') x = if (d_o <=? x) && (x <? d_o + n) then source (so + (x - d_o)) else dest dst_id (w_conn w) x.
Proof.
  intros Hs Hd Hn Hso Hdo [(key & w1 & E1 & E)|[(e & _ & ?)|[_ ?]]]%io_bind_inv; [|done|done].
  pose proof (resume_key_len _ _ _ _ E1) as Hk. pose proof (leaves_resume_key _ _ _ _ E1 dst_id) as L1.
  apply io_bind_inv in E as [(copied & w2 & E2 & E)|[(e & _ & ?)|[_ ?]]]; [|done|done].
  apply io_bind_inv in E as [(? & w3 & E3 & E)|[(e & _ & ?)|[_ ?]]]; [|done|done]. injection E as <- <-.
  pose proof (leaves_flush _ _ _ _ E3 dst_id) as L3.
  unfold copy_range, server_side_copy_range in E2. destruct (Z.eqb_spec n 0) as [->|Hz].
  - injection E2 as <- <-. split; [done|]. intros y. rewrite L3, L1. by replace ((_ <=? y) && _) with false by lia.
  - destruct (copy_loop _ _ _ _ _ _ _ _ _ _) as [[r c2]|] eqn:Ec; [|done]. injection E2 as -> <-.
    apply (copy_loop_correct (ioctl_exec t) dst_id key source (dest dst_id) (Hserver key dst_id Hk) Hk) in Ec as [_ Hok];
      [|by vm_compute|done|done|lia|done|done].
    destruct (Hok copied eq_refl) as [-> Hx]. split; [done|]. intros y. rewrite L3. cbn [w_conn]. rewrite Hx. unfold blit. rewrite !Z.add_0_r, Z.sub_0_r, L1.
    done.
Qed.


End exact.

(** ** Concrete copies *)

Definition copy_tree : Tree := mkTree 5 [100] [115] false false.
Definition opened_file (id size : Z) : bytes :=
  body_of (mkCreateResponse OplockNone 0 FileOpened (mkFileTime 0) (mkFileTime 0) (mkFileTime 0) (mkFileTime 0)
    0 size 0 (mkFileId id id) []).

(** A server without server-side copy: both handles are closed before the error is reported. *)
Definition no_copy_script : Script :=
  mkScript [] [Answered 0 (opened_file 1 10); Answered 0 (opened_file 2 0); Answered NtStatus.NOT_SUPPORTED [];
               Answered 0 []; Refused Disconnected] [].

Lemma copy_leaks_no_handle_witness : ∃ w' mid,
  server_side_copy_file copy_tree 3 [97] [98] (mkWorld no_copy_script []) = Some (Err (Protocol NtStatus.NOT_SUPPORTED Types.Ioctl), w') ∧
  sc_sent (w_conn w') = [sends_create copy_tree (read_create [97]); sends_create copy_tree (dest_create copy_tree true [98])]
    ++ mid ++ [sends_close copy_tree (mkFileId 2 2); sends_close copy_tree (mkFileId 1 1)] ∧
  Forall (harmless copy_tree) mid.
Proof.
  assert (∃ w', server_side_copy_file copy_tree 3 [97] [98] (mkWorld no_copy_script [])
    = Some (Err (Protocol NtStatus.NOT_SUPPORTED Types.Ioctl), w') ∧ length (sc_sent (w_conn w')) = 5%nat) as (w' & E & Hn)
    by (eexists; split; vm_compute; reflexivity).
  destruct (copy_leaks_no_handle copy_tree 3 [97] [98] true 0 0 None _ _ _ E) as (xs & Hs & Hc); [discriminate|].
  cbn [w_conn no_copy_script sc_sent app] in Hs.
  destruct Hc as [[_ ->]|(src_id & size & w1 & E1 & [[_ ->]|(dst_id & size2 & w2 & mid & E2 & -> & Hm & _)])];
    [rewrite Hs in Hn; discriminate Hn|rewrite Hs in Hn; discriminate Hn|].
  exists w', mid. split; [exact E|]. split; [|exact Hm].
  assert (src_id = mkFileId 1 1 ∧ dst_id = mkFileId 2 2) as [-> ->]; [|exact Hs].
  assert (w1 = mkWorld (mkScript (sc_sent (w_conn w1)) (tail (sc_answers no_copy_script)) []) [] ∧ src_id = mkFileId 1 1) as [Ew ->].
  { clear E2. revert E1. vm_compute. intros [= <- _ <-]. split; reflexivity. }
  split; [reflexivity|]. clear E1. rewrite Ew in E2. revert E2. generalize (sc_sent (w_conn w1)). intros log. vm_compute.
  intros [= <- _ _]. reflexivity.
Defined.

(** A server whose copy requests are those of [Copy.toy_execute]. *)
Record CopyDisk := mkCopyDisk { cd_dest : Z → byte }.

Definition copy_disk_ioctl (c : CopyDisk) (m : IoctlRequest) : result Error (Z * bytes) * CopyDisk :=
  if ioq_ctl_code m =? FSCTL_SRV_REQUEST_RESUME_KEY
  then (Ok (NtStatus.SUCCESS, body_of (mkIoctlResponse FSCTL_SRV_REQUEST_RESUME_KEY (ioq_file_id m) 0
          (body_of (mkSrvRequestResumeKeyResponse (zeros 24))))), c)
  else let '(r, d) := toy_execute (cd_dest c) m in (r, mkCopyDisk d).

#[local] Instance copy_disk_wire : Wire CopyDisk := {
  transfer_sizes _ := Some (65536, 65536);
  transact_size _ := Some 65536;
  execute_with_credits c _ op _ :=
    match op with
    | OpCreate m => (Ok (NtStatus.SUCCESS, opened_file (if crq_create_disposition m is FileOpen then 1 else 7) 10), c)
    | OpIoctl m => copy_disk_ioctl c m
    | _ => (Ok (NtStatus.SUCCESS, []), c)
    end;
  execute_compound c _ := (Err Disconnected, c);
  forget_oplock c _ := c
}.

Lemma copy_disk_faithful key d : len key = 24 → faithful_server (ioctl_exec copy_tree) d key toy_source (λ c, cd_dest c).
Proof.
  intros Hk. destruct (toy_execute_faithful d key) as [H1 H2 H3]. unfold ioctl_exec. cbn. unfold copy_disk_ioctl. split.
  - intros s req ch p s' status body r c E Hu Hp Hcode. rewrite Hcode in E. cbn [Z.eqb Pos.eqb] in E.
    change (FSCTL_SRV_COPYCHUNK =? FSCTL_SRV_REQUEST_RESUME_KEY) with false in E. cbv iota in E.
    destruct (toy_execute (cd_dest s) req) as [r0 d0] eqn:Et. injection E as -> <-. by eapply H1.
  - intros s req s' status body. destruct (_ =? _); [by intros [= <- _ <-]|].
    destruct (toy_execute (cd_dest s) req) as [r0 d0] eqn:Et. intros [= -> <-]. by eapply H2.
  - intros s req s'. destruct (_ =? _); [done|]. destruct (toy_execute (cd_dest s) req) as [r0 d0] eqn:Et.
    intros [= -> <-]. by eapply H3.
Qed.

Lemma copy_disk_passive (c : CopyDisk) op n (d : FileId) x :
  passive op → cd_dest (execute_with_credits c (tree_id copy_tree) op n).2 x = cd_dest c x.
Proof.
  destruct op; cbn [passive]; try done. intros Hp. change (execute_with_credits c _ _ n) with (copy_disk_ioctl c m).
  unfold copy_disk_ioctl. by rewrite Hp.
Qed.

