(* ===== verification/Loops.v ===== *)
(** * The instrumented listing and the sequential transfer loops of [src/client/tree.rs]

    [list_directory_instrumented] with its trace, [read_loop] and [write_loop].  What the clock
    shows around each request is an input. *)

From S2P Require Import Prelude Types Pack Codec Name Header FileIo Create Query Pipeline Transfer Tree Script Listing Disk Stream Readers Upload.

(** ** The instrumented listing *)

Record QueryStep := mkQueryStep { qs_elapsed : Z; qs_entries : Z; qs_bytes : Z; qs_no_more_files : bool }.
Record ListingTrace := mkListingTrace {
  lt_create : Z; lt_queries : list QueryStep; lt_close : Z; lt_query_buffer_len : Z; lt_entries : Z
}.

Definition query_total (tr : ListingTrace) : Z := foldr (λ q n, qs_elapsed q + n) 0 (lt_queries tr).
Definition trace_total (tr : ListingTrace) : Z := lt_create tr + query_total tr + lt_close tr.
Definition trace_round_trips (tr : ListingTrace) : Z := 1 + len (lt_queries tr) + 1.

Section instrumented.
Context {C : Type} `{Wire C} (t : Tree).
(** How long CREATE, the i-th QUERY_DIRECTORY and CLOSE took. *)
Context (create_time close_time : Z) (query_time : nat → Z).

Fixpoint instrumented_rounds (rounds : nat) (file_id : FileId) (buffer_len : Z) (restart : bool)
    (queries : list QueryStep) (all_entries : list DirectoryEntry) :
    io (World C) (list QueryStep * list DirectoryEntry) :=
  match rounds with
  | O => λ _, None
  | S rounds =>
      outcome ← query_directory_step t file_id restart buffer_len;
      let elapsed := query_time (length queries) in
      match outcome with
      | Entries entries bytes =>
          instrumented_rounds rounds file_id buffer_len false
            (queries ++ [mkQueryStep elapsed (len entries) bytes false]) (all_entries ++ entries)
      | NoMoreFiles bytes => mret (queries ++ [mkQueryStep elapsed 0 bytes true], all_entries)
      end
  end.

Definition list_directory_instrumented (rounds : nat) (path : list Z) (query_buffer_len_opt : option Z) :
    io (World C) (list DirectoryEntry * ListingTrace) :=
  buffer_len ← match query_buffer_len_opt with Some n => mret n | None => query_buffer_len end;
  file_id ← open_directory t path;
  query_result ← attempt (instrumented_rounds rounds file_id buffer_len true [] []);
  close_result ← attempt (close_handle t file_id);
  '(queries, all_entries) ← io_lift query_result;
  io_lift close_result ;;
  mret (all_entries, mkListingTrace create_time queries close_time buffer_len (len all_entries)).

(** The result without what was measured. *)
Definition unmeasured {A B} (r : option (result Error (A * B) * World C)) : option (result Error A * World C) :=
  match r with
  | None => None
  | Some (Ok (a, _), w) => Some (Ok a, w)
  | Some (Err e, w) => Some (Err e, w)
  | Some (Panic, w) => Some (Panic, w)
  end.
Definition unmeasured2 {A B} (r : option (result Error (B * A) * World C)) : option (result Error A * World C) :=
  match r with
  | None => None
  | Some (Ok (_, a), w) => Some (Ok a, w)
  | Some (Err e, w) => Some (Err e, w)
  | Some (Panic, w) => Some (Panic, w)
  end.

Lemma instrumented_rounds_plain rounds : ∀ fid n restart qs acc w,
  query_rounds t rounds fid n restart acc w = unmeasured2 (instrumented_rounds rounds fid n restart qs acc w).
Proof.
  induction rounds as [|rounds IH]; intros fid n restart qs acc w; [done|]. cbn [query_rounds instrumented_rounds].
  unfold mbind, io_bind. destruct (query_directory_step t fid restart n w) as [[[o|e|] w1]|]; [|done|done|done].
  destruct o; [apply IH|done].
Qed.

(** Pages, then the end. *)
Definition trace_shape (qs : list QueryStep) (entries : Z) : Prop :=
  ∃ pages end_, qs = pages ++ [end_] ∧ Forall (λ q, qs_no_more_files q = false) pages ∧
    qs_no_more_files end_ = true ∧ qs_entries end_ = 0 ∧
    foldr (λ q n, qs_entries q + n) 0 pages = entries.

Lemma sum_app (f : QueryStep → Z) l1 l2 :
  foldr (λ q n, f q + n) 0 (l1 ++ l2) = foldr (λ q n, f q + n) 0 l1 + foldr (λ q n, f q + n) 0 l2.
Proof. induction l1 as [|q l1 IH]; cbn [app foldr]; [done|]. rewrite IH. lia. Qed.

(** The i-th step took what the clock showed for it. *)
Definition timed (qs : list QueryStep) : Prop := ∀ i q, qs !! i = Some q → qs_elapsed q = query_time i.

Lemma timed_snoc qs n b last : timed qs → timed (qs ++ [mkQueryStep (query_time (length qs)) n b last]).
Proof.
  intros Hq i q Hi. apply lookup_app_Some in Hi as [Hi|[Hl Hi]]; [by apply Hq|].
  apply list_lookup_singleton_Some in Hi as [Hz <-]. cbn. f_equal. lia.
Qed.

Lemma instrumented_rounds_trace rounds : ∀ fid n restart qs acc w qs' acc' w',
  Forall (λ q, qs_no_more_files q = false) qs → foldr (λ q n, qs_entries q + n) 0 qs = len acc → timed qs →
  instrumented_rounds rounds fid n restart qs acc w = Some (Ok (qs', acc'), w') →
  trace_shape qs' (len acc') ∧ timed qs'.
Proof.
  induction rounds as [|rounds IH]; intros fid n restart qs acc w qs' acc' w' Hq Hs Ht; cbn [instrumented_rounds]; [done|].
  intros [(o & w1 & _ & E)|[(e & _ & ?)|[_ ?]]]%io_bind_inv; [|done|done]. cbv zeta in E. destruct o as [es b|b].
  - eapply IH; [| | |exact E].
    + apply Forall_app; split; [done|by constructor].
    + rewrite sum_app, Hs, len_app. cbn. lia.
    + by apply timed_snoc.
  - injection E as <- <- <-. split; [|by apply timed_snoc]. eexists _, _. by split_and!.
Qed.

End instrumented.

(** A connection that keeps its negotiated sizes. *)
Definition keeps_sizes (C : Type) `{Wire C} : Prop :=
  ∀ c tree op n, transact_size (execute_with_credits c tree op n).2 = transact_size c.

Lemma open_directory_sizes `{Wire C} t path (w : World C) r w' : keeps_sizes C →
  open_directory t path w = Some (r, w') → transact_size (w_conn w') = transact_size (w_conn w).
Proof.
  intros Hk E. unfold open_directory, open_with, execute, execute_charged, mbind, io_bind in E.
  pose proof (Hk (w_conn w) (tree_id t) (OpCreate (directory_create (format_path t path))) 1) as Hs.
  destruct (execute_with_credits _ _ _ _) as [[[s b]|e|] c]; cbn [snd] in Hs.
  - destruct (negb _); [by injection E as <- <-|]. unfold io_lift in E.
    destruct (unpack_body CreateResponse b); by injection E as <- <-.
  - by injection E as <- <-.
  - by injection E as <- <-.
Qed.

(** The instrumented listing is the listing.  It sends the same requests and returns the same
    entries or the same error as [list_directory]; and its trace is true: one step per query in
    order with the time the clock showed, all of them pages but the last, which is the end of the
    directory, and the entries of the pages add up to the entries returned. *)
Theorem instrumented_listing_equiv `{Wire C} (t : Tree) (create_time close_time : Z) (query_time : nat → Z)
    rounds path (w : World C) : keeps_sizes C →
  list_directory t rounds path w
    = unmeasured (list_directory_instrumented t create_time close_time query_time rounds path None w) ∧
  ∀ entries tr w', list_directory_instrumented t create_time close_time query_time rounds path None w = Some (Ok (entries, tr), w') →
    lt_entries tr = len entries ∧ trace_shape (lt_queries tr) (len entries) ∧ timed query_time (lt_queries tr) ∧
    lt_create tr = create_time ∧ lt_close tr = close_time ∧ trace_round_trips tr = len (lt_queries tr) + 2.
Proof.
  intros Hk. split.
  - unfold list_directory, list_directory_instrumented.
    destruct (open_directory t path w) as [[r w1]|] eqn:Eo.
    2: { unfold mbind, io_bind, query_buffer_len. by rewrite Eo. }
    pose proof (open_directory_sizes _ _ _ _ _ Hk Eo) as Hs.
    destruct r as [fid|e|]; [|unfold mbind, io_bind, query_buffer_len; by rewrite Eo..].
    rewrite (io_bind_ok _ _ _ _ _ Eo).
    unfold query_buffer_len at 1. rewrite (io_bind_ok _ _ w _ w eq_refl), (io_bind_ok _ _ _ _ _ Eo).
    unfold query_directory_loop, query_buffer_len, mbind, io_bind. unfold attempt at 1 3. rewrite Hs.
    rewrite (instrumented_rounds_plain t query_time rounds fid _ true [] [] w1).
    destruct (instrumented_rounds t query_time rounds fid _ true [] [] w1) as [[[[qs es]|e|] w2]|]; [| |done|done];
      cbn [unmeasured2]; (destruct (attempt (close_handle t fid) w2) as [[[[x|x|]|e'|] w3]|]; done).
  - intros entries tr w' E. unfold list_directory_instrumented in E.
    apply io_bind_inv in E as [(n & w0 & _ & E)|[(e & _ & ?)|[_ ?]]]; [|done|done].
    apply io_bind_inv in E as [(fid & w1 & _ & E)|[(e & _ & ?)|[_ ?]]]; [|done|done].
    apply io_bind_inv in E as [(qr & w2 & E2 & E)|[(e & _ & ?)|[_ ?]]]; [|done|done].
    apply io_bind_inv in E as [(cr & w3 & _ & E)|[(e & _ & ?)|[_ ?]]]; [|done|done].
    apply io_bind_inv in E as [([qs es] & w4 & [= -> <-] & E)|[(e & _ & ?)|[_ ?]]]; [|done|done].
    apply io_bind_inv in E as [(? & w5 & _ & E)|[(e & _ & ?)|[_ ?]]]; [|done|done]. injection E as <- <- <-.
    apply attempt_inv in E2 as (r2 & E2 & [[_ ?]|[_ [= <-]]]); [done|].
    apply instrumented_rounds_trace in E2 as [Hsh Ht]; [|done|done|done].
    split_and!; try done. unfold trace_round_trips. cbn. lia.
Qed.

(** A directory of two pages, three files, listed in three queries. *)
Lemma instrumented_listing_equiv_witness :
  let w := mkWorld (mkScript [] (Answered NtStatus.SUCCESS (body_of sample_opened)
       :: map page [[sample_record 10 [97]; sample_record 20 [98; 99]]; [sample_record 30 [100]]]
       ++ [Answered NtStatus.NO_MORE_FILES []; Answered NtStatus.SUCCESS []]) []) [] in
  ∃ entries tr w', list_directory_instrumented sample_tree 7 8 (λ i, Z.of_nat i + 1) 3 [115] None w = Some (Ok (entries, tr), w') ∧
    list_directory sample_tree 3 [115] w = Some (Ok entries, w') ∧ len entries = 3 ∧ trace_total tr = 21 ∧ trace_round_trips tr = 5.
Proof.
  set (w := mkWorld _ _).
  assert (∃ entries tr w', list_directory_instrumented sample_tree 7 8 (λ i, Z.of_nat i + 1) 3 [115] None w = Some (Ok (entries, tr), w')
    ∧ len entries = 3 ∧ trace_total tr = 21 ∧ trace_round_trips tr = 5) as (entries & tr & w' & E & Hn)
    by (eexists _, _, _; split_and!; vm_compute; reflexivity).
  exists entries, tr, w'. cbv zeta. split; [exact E|]. split; [|exact Hn].
  destruct (instrumented_listing_equiv sample_tree 7 8 (λ i, Z.of_nat i + 1) 3 [115] w) as [Hl _]; [|rewrite Hl, E; reflexivity].
  intros c tree op n. unfold transact_size. reflexivity.
Defined.

(** ** Sequential transfers *)

Section loops.
Context {C : Type} `{Wire C} (t : Tree).

(** The [loop]: a round adds at least a byte or is the last. *)
Fixpoint read_loop_rounds (fuel : nat) (file_id : FileId) (file_size max_read offset : Z) (data : bytes) : io (World C) bytes :=
  let remaining := sat_sub file_size offset in
  if remaining =? 0 then mret data
  else
    match fuel with
    | O => io_lift Panic
    | S fuel =>
        let chunk_size := trunc 32 (Z.min remaining max_read) in
        '(status, body) ← execute (tree_id t) (OpRead (read_request file_id chunk_size offset));
        if status =? NtStatus.END_OF_FILE then mret data
        else if negb (status =? NtStatus.SUCCESS) then io_err (Protocol status Read)
        else
          resp ← io_lift (unpack_body ReadResponse body);
          if is_empty (rdr_data resp) then mret data
          else read_loop_rounds fuel file_id file_size max_read (offset + len (rdr_data resp)) (data ++ rdr_data resp)
    end.
Definition read_loop (file_id : FileId) (file_size : Z) : io (World C) bytes :=
  max_read ← max_read_size;
  read_loop_rounds (Z.to_nat file_size) file_id file_size max_read 0 [].

(** [while offset < data.len()]: a round moves on by a chunk. *)
Fixpoint write_loop_rounds (fuel : nat) (file_id : FileId) (data : bytes) (max_write total_written offset : Z) : io (World C) Z :=
  if offset <? len data then
    match fuel with
    | O => io_lift Panic
    | S fuel =>
        let remaining := len data - offset in
        let chunk_size := Z.min remaining max_write in
        chunk ← io_lift (slice data offset (offset + chunk_size));
        '(status, body) ← execute (tree_id t) (OpWrite (write_request file_id offset chunk));
        if negb (status =? NtStatus.SUCCESS) then io_err (Protocol status Write)
        else
          resp ← io_lift (unpack_body WriteResponse body);
          write_loop_rounds fuel file_id data max_write (total_written + wrr_count resp) (offset + chunk_size)
    end
  else mret total_written.
Definition write_loop (file_id : FileId) (data : bytes) : io (World C) Z :=
  max_write ← max_write_size;
  write_loop_rounds (length data) file_id data max_write 0 0.

End loops.

Section loops_correct.
Context {C : Type} `{FileServer C} (t : Tree).

Lemma read_loop_rounds_correct fuel fid F max_read offset data (w : World C) r w' :
  content (w_conn w) fid = F → 0 <= offset <= len F → 0 < max_read < 2 ^ 32 → len F - offset <= Z.of_nat fuel →
  read_loop_rounds t fuel fid (len F) max_read offset data w = Some (r, w') →
  r ≠ Panic ∧ content (w_conn w') fid = F ∧ ∀ d, r = Ok d → d = data ++ subslice F offset (len F).
Proof.
  revert offset data w. induction fuel as [|fuel IH]; intros offset data w Hc Ho Hm Hf; cbn [read_loop_rounds]; unfold sat_sub;
    destruct (Z.eqb_spec (Z.max 0 (len F - offset)) 0) as [Hz|Hz].
  1, 3: (assert (offset = len F) as -> by lia; intros [= <- <-]; split; [done|]; split; [done|];
         intros d [= <-]; unfold subslice; by rewrite Z.sub_diag, app_nil_r).
  { lia. }
  rewrite Z.max_r by lia. rewrite trunc_small by (unfold in_range; lia).
  intros [([status body] & w1 & Ex & Ek)|[(e & Ex & ->)|[Ex ->]]]%io_bind_inv;
    (eapply (read_step t _ F) in Ex as (Hnp & Hc1 & _ & Hans); [|done|lia|lia]); [|done|done].
  destruct (Hans _ _ eq_refl) as [Hne Hok].
  replace (status =? NtStatus.END_OF_FILE) with false in Ek by (symmetry; by apply Z.eqb_neq).
  destruct (status =? NtStatus.SUCCESS) eqn:Es; cbn [negb] in Ek; [|by injection Ek as <- <-]. bool_prop.
  unfold mbind, io_bind, io_lift in Ek.
  destruct (unpack_body ReadResponse body) as [resp|e|] eqn:Eu;
    [|by injection Ek as <- <-|by apply (unpack_body_no_panic ReadResponse) in Eu].
  destruct (Hok Es resp eq_refl) as (Hd & Hl & Hin & Hs). set (n := len (rdr_data resp)) in *.
  assert (0 < n) by (unfold n; destruct (rdr_data resp); [done|rewrite len_cons; pose proof (len_nonneg l); lia]).
  replace (is_empty (rdr_data resp)) with false in Ek by (by destruct (rdr_data resp)).
  apply IH in Ek as (Hnp' & Hc' & Hd'); [|done|lia..].
  split; [done|]. split; [done|]. intros d ->%Hd'. rewrite <- app_assoc. f_equal. rewrite Hs.
  apply subslice_join; lia.
Qed.

Lemma write_loop_rounds_correct fuel fid old data max_write total offset (w : World C) r w' :
  0 < max_write → 0 <= offset <= len data → len data - offset <= Z.of_nat fuel → 0 <= total <= offset →
  (total = offset → patched old (content (w_conn w) fid) 0 (take (Z.to_nat offset) data)) →
  write_loop_rounds t fuel fid data max_write total offset w = Some (r, w') →
  r ≠ Panic ∧ ∀ n, r = Ok n → n <= len data ∧ (n = len data → patched old (content (w_conn w') fid) 0 data).
Proof.
  revert total offset w. induction fuel as [|fuel IH]; intros total offset w Hm Ho Hf Ht Hp; cbn [write_loop_rounds];
    destruct (Z.ltb_spec offset (len data)) as [Hlt|Hge]; try lia.
  1, 3: (assert (offset = len data) as -> by lia; intros [= <- <-]; split; [done|]; intros n [= <-]; split; [lia|];
         intros ->; specialize (Hp eq_refl); by rewrite take_ge in Hp by (unfold len; lia)).
  cbv zeta. set (k := Z.min (len data - offset) max_write). rewrite slice_ok by lia.
  intros [(chunk & w0 & [= <- <-] & E)|[(e & ? & _)|[? _]]]%io_bind_inv; [|done|done].
  apply io_bind_inv in E as [([status body] & w1 & Ex & Ek)|[(e & Ex & ->)|[Ex ->]]];
    apply execute_inv in Ex as (Ex & _ & Hnp); [|done|done].
  destruct (Z.eqb_spec status NtStatus.SUCCESS) as [->|]; cbn [negb] in Ek; [|by injection Ek as <- <-].
  unfold mbind, io_bind, io_lift in Ek.
  destruct (unpack_body WriteResponse body) as [resp|e|] eqn:Eu;
    [|by injection Ek as <- <-|by apply (unpack_body_no_panic WriteResponse) in Eu].
  destruct (fs_write _ _ _ _ _ _ _ Ex Eu) as [Hcount Hw]. cbn [wrq_data wrq_file_id wrq_offset write_request] in *.
  rewrite len_subslice in Hcount by lia. eapply IH; [done| | | | |exact Ek]; [lia|lia|lia|].
  intros Heq. assert (total = offset) as -> by lia. assert (wrr_count resp = k) as Hk by lia. rewrite Hk in Hw.
  assert (take (Z.to_nat k) (subslice data offset (offset + k)) = take (Z.to_nat k) (drop (Z.to_nat offset) data)) as Etk.
  { unfold subslice. rewrite take_take. f_equal. lia. }
  rewrite Etk in Hw. eapply patched_extend; [lia|lia|lia|by apply Hp|exact Hw].
Qed.

(** The sequential loops are exact: a successful [read_loop] returns the whole file however the server
    cuts its answers up, and a [write_loop] that reports all bytes has stored exactly them; both
    stay within their rounds and do not panic. *)
Theorem sequential_loops_correct fid (w : World C) :
  (∀ r w', read_loop t fid (len (content (w_conn w) fid)) w = Some (r, w') →
     r ≠ Panic ∧ content (w_conn w') fid = content (w_conn w) fid ∧ ∀ d, r = Ok d → d = content (w_conn w) fid) ∧
  (∀ data r w', write_loop t fid data w = Some (r, w') →
     r ≠ Panic ∧ ∀ n, r = Ok n → n <= len data ∧
       (n = len data → patched (content (w_conn w) fid) (content (w_conn w') fid) 0 data)).
Proof.
  split.
  - intros r w'. unfold read_loop, max_read_size, mbind, io_bind. set (F := content (w_conn w) fid). intros E.
    apply (read_loop_rounds_correct _ _ F) in E as (Hp & Hc & Hd); [|done|pose proof (len_nonneg F); lia| |pose proof (len_nonneg F); lia].
    + split; [done|]. split; [done|]. intros d ->%Hd. cbn [app]. unfold subslice. rewrite take_ge; [done|].
      rewrite length_drop. unfold len. lia.
    + destruct (transfer_sizes (w_conn w)) as [[a b]|] eqn:Es; [apply fs_sizes in Es; lia|lia].
  - intros data r w'. unfold write_loop, max_write_size, mbind, io_bind. intros E.
    eapply (write_loop_rounds_correct _ _ (content (w_conn w) fid)); [| | | | |exact E]; try (pose proof (len_nonneg data); unfold len; lia).
    + destruct (transfer_sizes (w_conn w)) as [[a b]|] eqn:Es; [apply fs_sizes in Es; lia|lia].
    + intros _. change (take (Z.to_nat 0) data) with (@nil byte). split; [done|]. split; [intros i Hi; unfold len in Hi; cbn in Hi; lia|done].
Qed.

End loops_correct.
