(* ===== verification/Batch.v ===== *)
(** * Batches of operations ([src/client/pipeline.rs])

    [Pipeline]: a list of operations run one after the other on one tree, with one result each. *)

From S2P Require Import Prelude Types Pack Codec Header FileIo Create Query Pipeline Tree Script Listing Metadata Disk.

Inductive Op :=
| ReadFile (path : list Z)
| WriteFile (path : list Z) (data : bytes)
| Delete (path : list Z)
| ListDirectory (path : list Z)
| Stat (path : list Z).

Inductive OpResult :=
| FileData (path : list Z) (data : bytes)
| OpWritten (path : list Z) (bytes_written : Z)
| Deleted (path : list Z)
| DirEntries (path : list Z) (entries : list DirectoryEntry)
| OpStat (path : list Z) (info : FileInfo)
| OpError (path : list Z) (error : Error).

Definition op_path (op : Op) : list Z :=
  match op with ReadFile p | WriteFile p _ | Delete p | ListDirectory p | Stat p => p end.
Definition result_path (r : OpResult) : list Z :=
  match r with FileData p _ | OpWritten p _ | Deleted p | DirEntries p _ | OpStat p _ | OpError p _ => p end.

Section batch.
Context {C : Type} `{Wire C} (t : Tree).
(** The pages a listing may take (see [Listing]). *)
Context (rounds : nat).

(** [match self.tree.op(..).await { Ok(a) => f(a), Err(e) => OpResult::Error { path, error: e } }] *)
Definition or_error {A} (path : list Z) (m : io (World C) A) (f : A → OpResult) : io (World C) OpResult :=
  r ← attempt m;
  match r with
  | Ok a => mret (f a)
  | Err e => mret (OpError path e)
  | Panic => io_lift Panic
  end.

Definition execute_one (op : Op) : io (World C) OpResult :=
  match op with
  | ReadFile path => or_error path (read_file t path) (FileData path)
  | WriteFile path data => or_error path (write_file t path data) (OpWritten path)
  | Delete path => or_error path (delete_file t path) (λ _, Deleted path)
  | ListDirectory path => or_error path (list_directory t rounds path) (DirEntries path)
  | Stat path => or_error path (stat t path) (OpStat path)
  end.

Fixpoint execute_loop (ops : list Op) (results : list OpResult) : io (World C) (list OpResult) :=
  match ops with
  | [] => mret results
  | op :: ops => result ← execute_one op; execute_loop ops (results ++ [result])
  end.
Definition batch_execute (ops : list Op) : io (World C) (list OpResult) := execute_loop ops [].

(** ** Lemmas *)

(** What one operation does when it is run by itself, as its result. *)
Definition alone (op : Op) (r : OpResult) (w w' : World C) : Prop :=
  match op, r with
  | ReadFile p, FileData p' d => p' = p ∧ read_file t p w = Some (Ok d, w')
  | WriteFile p d, OpWritten p' n => p' = p ∧ write_file t p d w = Some (Ok n, w')
  | Delete p, Deleted p' => p' = p ∧ delete_file t p w = Some (Ok tt, w')
  | ListDirectory p, DirEntries p' l => p' = p ∧ list_directory t rounds p w = Some (Ok l, w')
  | Stat p, OpStat p' i => p' = p ∧ stat t p w = Some (Ok i, w')
  | ReadFile p, OpError p' e => p' = p ∧ read_file t p w = Some (Err e, w')
  | WriteFile p d, OpError p' e => p' = p ∧ write_file t p d w = Some (Err e, w')
  | Delete p, OpError p' e => p' = p ∧ delete_file t p w = Some (Err e, w')
  | ListDirectory p, OpError p' e => p' = p ∧ list_directory t rounds p w = Some (Err e, w')
  | Stat p, OpError p' e => p' = p ∧ stat t p w = Some (Err e, w')
  | _, _ => False
  end.

(** A run of operations, each from where the previous one left the connection. *)
Inductive runs : list Op → World C → list OpResult → World C → Prop :=
| runs_nil w : runs [] w [] w
| runs_cons op r ops rs w w1 w' : alone op r w w1 → runs ops w1 rs w' → runs (op :: ops) w (r :: rs) w'.

Lemma or_error_inv {A} path (m : io (World C) A) f w r w' : or_error path m f w = Some (r, w') →
  (∃ a, m w = Some (Ok a, w') ∧ r = Ok (f a)) ∨ (∃ e, m w = Some (Err e, w') ∧ r = Ok (OpError path e)) ∨
  (m w = Some (Panic, w') ∧ r = Panic).
Proof. unfold or_error, mbind, io_bind, attempt. destruct (m w) as [[[a|e|] w1]|]; intros [= <- <-]; eauto 8. Qed.

Lemma execute_one_alone op w r w' : execute_one op w = Some (Ok r, w') → alone op r w w'.
Proof.
  destruct op; cbn [execute_one]; intros [(a & E & [= ->])|[(e & E & [= ->])|[_ ?]]]%or_error_inv; try done.
  by destruct a.
Qed.
Lemma alone_execute_one op w r w' : alone op r w w' → execute_one op w = Some (Ok r, w').
Proof.
  destruct op, r; cbn [alone execute_one]; try done; intros [-> E]; unfold or_error, mbind, io_bind, attempt; by rewrite E.
Qed.

Lemma execute_loop_runs ops : ∀ acc w rs w',
  execute_loop ops acc w = Some (Ok rs, w') ↔ ∃ rs', rs = acc ++ rs' ∧ runs ops w rs' w'.
Proof.
  induction ops as [|op ops IH]; intros acc w rs w'; cbn [execute_loop]; split.
  - intros [= <- <-]. exists []. split; [by rewrite app_nil_r|constructor].
  - intros (rs' & -> & Hr). inversion Hr; subst. by rewrite app_nil_r.
  - intros [(r & w1 & E1 & E)|[(e & _ & ?)|[_ ?]]]%io_bind_inv; [|done|done].
    apply IH in E as (rs' & -> & Hr). exists (r :: rs'). split; [by rewrite <- app_assoc|].
    econstructor; [by apply execute_one_alone|done].
  - intros (rs' & -> & Hr). inversion Hr as [|? r ? rs1 ? w1 ? Ha Hr1]; subst.
    unfold mbind, io_bind. rewrite (alone_execute_one _ _ _ _ Ha). apply IH. exists rs1. by rewrite <- app_assoc.
Qed.

Lemma alone_path op r w w' : alone op r w w' → result_path r = op_path op.
Proof. destruct op, r; cbn; try done; by intros [-> _]. Qed.

Lemma runs_app ops1 ops2 w rs w' : runs (ops1 ++ ops2) w rs w' ↔
  ∃ rs1 rs2 w1, rs = rs1 ++ rs2 ∧ runs ops1 w rs1 w1 ∧ runs ops2 w1 rs2 w'.
Proof.
  revert w rs. induction ops1 as [|op ops1 IH]; intros w rs; cbn [app]; split.
  - intros Hr. exists [], rs, w. split; [done|]. split; [constructor|done].
  - intros (rs1 & rs2 & w1 & -> & H1 & H2). by inversion H1; subst.
  - intros Hr. inversion Hr as [|? r ? rs0 ? w0 ? Ha H0]; subst. apply IH in H0 as (rs1 & rs2 & w1 & -> & H1 & H2).
    exists (r :: rs1), rs2, w1. split; [done|]. split; [by econstructor|done].
  - intros (rs1 & rs2 & w1 & -> & H1 & H2). inversion H1 as [|? r ? rs0 ? w0 ? Ha H0]; subst. cbn [app].
    econstructor; [done|]. apply IH. by exists rs0, rs2, w1.
Qed.

End batch.

(** ** Properties *)

(** A batch is its operations one at a time.  A batch gives one result per operation, in
    the order of the operations and for their paths; each result is exactly what the operation gives
    when it is run by itself on the connection as its predecessors left it; an operation that fails
    becomes an error result and the ones after it still run; and running a batch in two halves
    is the same as running it at once. *)
Theorem batch_refines `{Wire C} (t : Tree) (rounds : nat) (ops : list Op) (w : World C) rs w' :
  batch_execute t rounds ops w = Some (Ok rs, w') →
  runs t rounds ops w rs w' ∧ map result_path rs = map op_path ops ∧
  ∀ ops1 ops2, ops = ops1 ++ ops2 → ∃ rs1 rs2 w1,
    rs = rs1 ++ rs2 ∧ batch_execute t rounds ops1 w = Some (Ok rs1, w1) ∧ batch_execute t rounds ops2 w1 = Some (Ok rs2, w').
Proof.
  intros (rs' & -> & Hr)%execute_loop_runs. cbn [app]. split; [done|]. split.
  - induction Hr as [|op r ops rs w w1 w' Ha _ IH]; [done|]. cbn [map]. by rewrite IH, (alone_path _ _ _ _ _ _ Ha).
  - intros ops1 ops2 ->. apply runs_app in Hr as (rs1 & rs2 & w1 & -> & H1 & H2). exists rs1, rs2, w1. split; [done|].
    split; apply execute_loop_runs; by eexists.
Qed.

(** A write, a deletion that the server does not do, and a read that still sees what was written. *)
Lemma batch_refines_witness : ∃ w' e,
  let ops := [WriteFile [97] [x01; x02]; Delete [97]; ReadFile [97]] in
  let rs := [OpWritten [97] 2; OpError [97] e; FileData [97] [x01; x02]] in
  let w := mkWorld (disk_of 65536 []) [] in
  batch_execute share 1 ops w = Some (Ok rs, w') ∧ runs share 1 ops w rs w' ∧ map result_path rs = map op_path ops.
Proof.
  assert (∃ w' e, batch_execute share 1 [WriteFile [97] [x01; x02]; Delete [97]; ReadFile [97]] (mkWorld (disk_of 65536 []) [])
    = Some (Ok [OpWritten [97] 2; OpError [97] e; FileData [97] [x01; x02]], w')) as (w' & e & E)
    by (eexists _, _; vm_compute; reflexivity).
  exists w', e. cbv zeta. split; [exact E|].
  destruct (batch_refines share 1 _ _ _ _ E) as (H1 & H2 & _). exact (conj H1 H2).
Defined.
