(* ===== verification/Client.v ===== *)
(** * The client facade ([src/client/mod.rs])

    [SmbClient]: one primary connection, further connections for DFS targets, and the file
    operations of [Tree] with the two ways to repeat them: on the target of a DFS referral, and,
    for operations that change nothing, on a connection that was revived.

    A connection is what the components below show of it, behind the interface [ClientConn].
    The connections that dialling gives, with the random values of their handshakes, are a list of
    inputs, and so are the schedule of pipelined requests and the clock.  A method that takes
    [&mut Tree] has the caller's tree in its state. *)

From stdpp Require Import pretty.
From S2P Require Import Prelude Types Pack Codec Name Utf8 Header FileIo Create Query Signing Kdf Ntlm Transform Connection Request Pipeline Exec Setup Rpc Dfs Tree Share Shares Listing Metadata Stream Upload Watcher Tcp CopyFiles.

(** ** Configuration *)

Record ClientConfig := mkClientConfig {
  cf_addr : list Z;
  cf_timeout : Z;
  cf_username : list Z;
  cf_password : list Z;
  cf_domain : list Z;
  cf_auto_reconnect : bool;
  cf_compression : bool;
  cf_dfs_enabled : bool;
  cf_dfs_target_overrides : gmap (list Z) (list Z)
}.

Record ClientReviver := mkClientReviver {
  cr_addr : list Z; cr_timeout : Z; cr_compression : bool;
  cr_username : list Z; cr_password : list Z; cr_domain : list Z
}.

Definition ClientReviver_from_config (config : ClientConfig) : ClientReviver :=
  mkClientReviver (cf_addr config) (cf_timeout config) (cf_compression config)
    (cf_username config) (cf_password config) (cf_domain config).

(** ** Connections *)

(** A connection as the client uses it: the requests on files, the exchanges of [Exec], the
    handshake of [Setup], and its revival ([reconnect_if_needed] of [Revival]). *)
Class ClientConn (C : Type) := {
  conn_wire :: Wire C;
  conn_dialog : C → Dialog;
  conn_set_dialog : Dialog → C → C;
  conn_setup : C → Setup;
  conn_set_setup : Setup → C → C;
  can_reconnect : C → bool;
  set_reviver : ClientReviver → C → C;
  mark_dead : C → C;
  reconnect_if_needed : C → option (result Error unit * C)
}.

(** The views do not get into each other's way, and a revival ends with a result. *)
Class ClientConnLaws (C : Type) `{ClientConn C} := {
  dialog_set_dialog d c : conn_dialog (conn_set_dialog d c) = d;
  setup_set_dialog d c : conn_setup (conn_set_dialog d c) = conn_setup c;
  setup_set_setup s c : conn_setup (conn_set_setup s c) = s;
  dialog_set_setup s c : conn_dialog (conn_set_setup s c) = conn_dialog c;
  reconnect_calm c r c' : reconnect_if_needed c = Some (r, c') → r ≠ Panic
}.

Section views.
Context {C : Type} `{ClientConn C}.

Definition over_dialog {A} (m : io Dialog A) : io C A := λ c,
  match m (conn_dialog c) with
  | None => None
  | Some (r, d) => Some (r, conn_set_dialog d c)
  end.
Definition over_setup {A} (m : io Setup A) : io C A := λ c,
  match m (conn_setup c) with
  | None => None
  | Some (r, s) => Some (r, conn_set_setup s c)
  end.

Definition current_session (c : C) : option Session := su_session (conn_setup c).
Definition should_encrypt (c : C) : bool := cs_should_encrypt (su_crypto (conn_setup c)).
Definition conn_params (c : C) : option NegotiatedParams := su_params (conn_setup c).
Definition conn_activate_encryption (enc_key dec_key : bytes) (ci : Cipher) (c : C) : C :=
  conn_set_setup (su_set_crypto (activate_encryption enc_key dec_key ci) (conn_setup c)) c.
Definition set_compression_requested (requested : bool) : io Setup unit := modify (λ s,
  mkSetup (su_params s) (su_hasher s) (su_crypto s) (su_previous_session_id s) (su_session s)
    requested (su_compression_enabled s) (su_sent s) (su_answers s)).

End views.

(** ** The client *)

Section client.
Context {C : Type} `{ClientConn C}.
Context `{MacPrimitives} `{Sha512} `{NtlmPrimitives}.
Context (to_uppercase to_lowercase : list Z → list Z) (now : Z).

Record ConnectionEntry := mkConnectionEntry { ce_conn : C; ce_session : Session }.

Record SmbClient := mkSmbClient {
  sc_config : ClientConfig;
  sc_conn : C;
  sc_session : Session;
  sc_primary_server : list Z;
  sc_extra_connections : gmap (list Z) ConnectionEntry;
  sc_dfs_resolver : DfsResolver;
  sc_reconnects : Z
}.

(** What dialling an address gives, with the random values used on that connection. *)
Record Dial := mkDial { dl_result : result Error C; dl_guid : Guid; dl_salt : bytes; dl_entropy : Entropy }.

(** The client with its surroundings: the schedule, the dials to come, the addresses dialled. *)
Record ClientWorld := mkClientWorld {
  cw_client : SmbClient;
  cw_events : list event;
  cw_dials : list Dial;
  cw_dialled : list (list Z)
}.
Implicit Types w : ClientWorld.

Definition set_client (c : SmbClient) w : ClientWorld := mkClientWorld c (cw_events w) (cw_dials w) (cw_dialled w).
Definition set_conn (conn : C) (c : SmbClient) : SmbClient :=
  mkSmbClient (sc_config c) conn (sc_session c) (sc_primary_server c) (sc_extra_connections c)
    (sc_dfs_resolver c) (sc_reconnects c).
Definition set_session (s : Session) (c : SmbClient) : SmbClient :=
  mkSmbClient (sc_config c) (sc_conn c) s (sc_primary_server c) (sc_extra_connections c)
    (sc_dfs_resolver c) (sc_reconnects c).
Definition set_extra (m : gmap (list Z) ConnectionEntry) (c : SmbClient) : SmbClient :=
  mkSmbClient (sc_config c) (sc_conn c) (sc_session c) (sc_primary_server c) m
    (sc_dfs_resolver c) (sc_reconnects c).
Definition set_resolver (r : DfsResolver) (c : SmbClient) : SmbClient :=
  mkSmbClient (sc_config c) (sc_conn c) (sc_session c) (sc_primary_server c) (sc_extra_connections c)
    r (sc_reconnects c).

Definition get_client {A} (f : SmbClient → A) : io ClientWorld A := λ w, Some (Ok (f (cw_client w)), w).
Definition modify_client (f : SmbClient → SmbClient) : io ClientWorld unit := λ w,
  Some (Ok tt, set_client (f (cw_client w)) w).

(** *** The connection of a server *)

(** Where the connection to [addr] is kept; [None] is what [expect] panics on. *)
Definition connection_to (addr : list Z) (c : SmbClient) : option C :=
  if bool_decide (addr = sc_primary_server c) then Some (sc_conn c)
  else ce_conn <$> sc_extra_connections c !! addr.
Definition put_connection (addr : list Z) (conn : C) (c : SmbClient) : SmbClient :=
  if bool_decide (addr = sc_primary_server c) then set_conn conn c
  else set_extra (alter (λ e, mkConnectionEntry conn (ce_session e)) addr (sc_extra_connections c)) c.

Definition connection_for_tree (t : Tree) (c : SmbClient) : option C := connection_to (server t) c.

(** Code that borrows the connection to [addr] from the client. *)
Definition on_connection {A} (missing : result Error A) (addr : list Z) (m : io (World C) A) : io ClientWorld A := λ w,
  match connection_to addr (cw_client w) with
  | None => Some (missing, w)
  | Some conn =>
      match m (mkWorld conn (cw_events w)) with
      | None => None
      | Some (r, wc) =>
          Some (r, mkClientWorld (put_connection addr (w_conn wc) (cw_client w)) (w_events wc) (cw_dials w) (cw_dialled w))
      end
  end.
(** Code on the connection alone. *)
Definition in_world {A} (m : io C A) : io (World C) A := λ wc,
  match m (w_conn wc) with
  | None => None
  | Some (r, c) => Some (r, mkWorld c (w_events wc))
  end.
(** [&mut self.conn] *)
Definition on_primary {A} (m : io (World C) A) : io ClientWorld A :=
  addr ← get_client sc_primary_server; on_connection Panic addr m.

(** *** Connecting *)

(** TCP connect, negotiate and session setup, as [SmbClient::connect] and [ensure_connection] do them. *)
Definition open_connection (config : ClientConfig) (d : Dial) : option (result Error (C * Session)) :=
  match dl_result d with
  | Err e => Some (Err e)
  | Panic => Some Panic
  | Ok conn =>
      match over_setup (set_compression_requested (cf_compression config) ;;
                      connection_negotiate (dl_guid d) (dl_salt d) ;;
                      setup to_uppercase (dl_entropy d) (cf_username config) (cf_password config) (cf_domain config)) conn with
      | None => None
      | Some (Ok session, conn) => Some (Ok (conn, session))
      | Some (Err e, _) => Some (Err e)
      | Some (Panic, _) => Some Panic
      end
  end.

Definition SmbClient_connect (config : ClientConfig) (d : Dial) : option (result Error SmbClient) :=
  match open_connection config d with
  | None => None
  | Some (Err e) => Some (Err e)
  | Some Panic => Some Panic
  | Some (Ok (conn, session)) =>
      let conn := if cf_auto_reconnect config then set_reviver (ClientReviver_from_config config) conn else conn in
      Some (Ok (mkSmbClient config conn session (cf_addr config) ∅ DfsResolver_new 0))
  end.

(** [connect] of the module, with its defaults. *)
Definition connect_config (addr username password : list Z) : ClientConfig :=
  mkClientConfig addr (5 * 1000000000) username password [] false true true ∅.
Definition module_connect (addr username password : list Z) (d : Dial) : option (result Error SmbClient) :=
  SmbClient_connect (connect_config addr username password) d.

(** The reviver that the client installs: what it does with a dialled socket. *)
Definition reviver_dial (o : dial_outcome) : result Error (list arrival * WriteHalf) := tcp_connect o.
Definition reauthenticate (r : ClientReviver) (client_guid : Guid) (salt : bytes) (e : Entropy) : io Setup unit :=
  set_compression_requested (cr_compression r) ;;
  connection_negotiate client_guid salt ;;
  setup to_uppercase e (cr_username r) (cr_password r) (cr_domain r) ;;
  mret tt.

(** *** Sessions and shares *)

Definition refresh_session : io ClientWorld unit := modify_client (λ c,
  match current_session (sc_conn c) with
  | Some current =>
      if negb (se_session_id current =? se_session_id (sc_session c)) then set_session current c else c
  | None => c
  end).

Definition client_list_shares : io ClientWorld (list ShareInfo) := on_primary (in_world (over_dialog Shares.list_shares)).

Definition with_server (t : Tree) (addr : list Z) : Tree :=
  mkTree (tree_id t) (share_name t) addr (is_dfs t) (encrypt_data t).

(** The keys of [session] on a connection that does not encrypt yet. *)
Definition encrypt_for_share (session : Session) (c : C) : C :=
  match se_encryption_key session, se_decryption_key session with
  | Some enc_key, Some dec_key =>
      let cipher := match conn_params c with
                    | Some p => match np_cipher p with Some ci => ci | None => Aes128Ccm end
                    | None => Aes128Ccm
                    end in
      conn_activate_encryption enc_key dec_key cipher c
  | _, _ => c
  end.

Definition connect_share (share : list Z) : io ClientWorld Tree :=
  refresh_session ;;
  tree ← on_primary (in_world (over_dialog (Share.connect share)));
  primary ← get_client sc_primary_server;
  let tree := with_server tree primary in
  modify_client (λ c,
    if encrypt_data tree && negb (should_encrypt (sc_conn c))
    then set_conn (encrypt_for_share (sc_session c) (sc_conn c)) c else c) ;;
  mret tree.

Definition disconnect_share (t : Tree) : io ClientWorld unit :=
  on_connection Panic (server t) (in_world (over_dialog (Share.disconnect t))).

(** *** Reconnecting *)

Definition reconnect : io ClientWorld unit :=
  modify_client (λ c, mkSmbClient (sc_config c) (sc_conn c) (sc_session c) (sc_primary_server c)
    (sc_extra_connections c) (sc_dfs_resolver c) (trunc 64 (sc_reconnects c + 1))) ;;
  modify_client (λ c, if negb (can_reconnect (sc_conn c))
    then set_conn (set_reviver (ClientReviver_from_config (sc_config c)) (sc_conn c)) c else c) ;;
  modify_client (λ c, set_conn (mark_dead (sc_conn c)) c) ;;
  on_primary (in_world reconnect_if_needed) ;;
  refresh_session ;;
  modify_client (λ c, mkSmbClient (sc_config c) (sc_conn c) (sc_session c) (cf_addr (sc_config c))
    ∅ (sc_dfs_resolver c) (sc_reconnects c)).

(** *** DFS *)

Definition ensure_connection (target_addr : list Z) : io ClientWorld unit := λ w,
  let c := cw_client w in
  if bool_decide (target_addr = sc_primary_server c) then Some (Ok tt, w)
  else if bool_decide (is_Some (sc_extra_connections c !! target_addr)) then Some (Ok tt, w)
  else
    let dialled := cw_dialled w ++ [target_addr] in
    match cw_dials w with
    | [] => None
    | d :: dials =>
        match open_connection (sc_config c) d with
        | None => None
        | Some (Err e) => Some (Err e, mkClientWorld c (cw_events w) dials dialled)
        | Some Panic => Some (Panic, mkClientWorld c (cw_events w) dials dialled)
        | Some (Ok (conn, session)) =>
            Some (Ok tt, mkClientWorld
              (set_extra (<[target_addr := mkConnectionEntry conn session]> (sc_extra_connections c)) c)
              (cw_events w) dials dialled)
        end
    end.

Definition ensure_tree (target_addr share : list Z) : io ClientWorld Tree :=
  tree ← on_connection (Err (invalid_data "DFS: no connection for target")) target_addr
           (in_world (over_dialog (Share.connect share)));
  mret (with_server tree target_addr).

(** [host:port] of a target. *)
Definition target_address (config : ClientConfig) (resolved : ResolvedPath) : list Z :=
  match cf_dfs_target_overrides config !! rp_server resolved with
  | Some addr => addr
  | None => rp_server resolved ++ [Name.COLON] ++ literal (pretty (rp_port resolved))
  end.

(** The targets in turn: the first one with a connection and a tree. *)
Fixpoint try_targets (targets : list ResolvedPath) (last_error : option Error) : io ClientWorld (Tree * list Z) :=
  match targets with
  | [] => io_err (match last_error with Some e => e | None => invalid_data "DFS: no targets in referral" end)
  | resolved :: targets =>
      config ← get_client sc_config;
      let target_addr := target_address config resolved in
      reached ← attempt (ensure_connection target_addr);
      match reached with
      | Ok _ =>
          joined ← attempt (ensure_tree target_addr (rp_share resolved));
          match joined with
          | Ok new_tree => mret (new_tree, Name.decode_path (rp_remaining_path resolved))
          | Err e => try_targets targets (Some e)
          | Panic => io_lift Panic
          end
      | Err e => try_targets targets (Some e)
      | Panic => io_lift Panic
      end
  end.

(** The referral for [unc_path], through the connection to [addr]. *)
Definition resolve_on (addr unc_path : list Z) : io ClientWorld (list ResolvedPath) := λ w,
  match connection_to addr (cw_client w) with
  | None => Some (Panic, w)
  | Some conn =>
      match resolve to_lowercase unc_path now (sc_dfs_resolver (cw_client w), conn_dialog conn) with
      | None => None
      | Some (r, (resolver, d)) =>
          Some (r, set_client (set_resolver resolver (put_connection addr (conn_set_dialog d conn) (cw_client w))) w)
      end
  end.

(** A call: the caller's tree with the client. *)
Abbreviation Call := (Tree * ClientWorld)%type.
Definition on_client {A} (m : io ClientWorld A) : io Call A := λ '(t, w),
  match m w with None => None | Some (r, w) => Some (r, (t, w)) end.
Definition the_tree : io Call Tree := λ '(t, w), Some (Ok t, (t, w)).
Definition set_tree (t : Tree) : io Call unit := λ '(_, w), Some (Ok tt, (t, w)).

Definition hostname (addr : list Z) : list Z :=
  match Name.split Name.COLON addr with h :: _ => h | [] => addr end.

(** [\\host\share\path] *)
Definition dfs_unc_path (t : Tree) (path : list Z) : list Z :=
  [Name.BACKSLASH; Name.BACKSLASH] ++ hostname (server t) ++ [Name.BACKSLASH] ++ share_name t
  ++ [Name.BACKSLASH] ++ Name.encode_path path.

Definition handle_dfs_redirect (original_path : list Z) : io Call (list Z) :=
  t ← the_tree;
  resolved_list ← on_client (resolve_on (server t) (dfs_unc_path t original_path));
  '(new_tree, path) ← on_client (try_targets resolved_list None);
  set_tree new_tree ;;
  mret path.

(** *** Repeating an operation *)

Definition should_retry_dfs (c : SmbClient) (e : Error) : bool :=
  cf_dfs_enabled (sc_config c) && match kind e with KDfsReferral => true | _ => false end.

Definition session_is_gone (c : SmbClient) (e : Error) : bool :=
  cf_auto_reconnect (sc_config c) && can_reconnect (sc_conn c)
  && match e with Disconnected | ServerUnresponsive _ => true | _ => false end.

Definition recover_tree : io Call unit :=
  t ← the_tree;
  primary ← on_client (get_client sc_primary_server);
  if negb (bool_decide (server t = primary)) then io_err Disconnected
  else
    on_client (on_primary (in_world reconnect_if_needed)) ;;
    on_client refresh_session ;;
    fresh ← on_client (connect_share (share_name t));
    set_tree fresh.

(** [let conn = self.connection_for_tree(tree); tree.op(conn, ..).await] *)
Definition on_tree_conn {A} (op : Tree → io (World C) A) : io Call A :=
  t ← the_tree; on_client (on_connection Panic (server t) (op t)).

(** The body of the methods that change something on the server. *)
Definition redirecting {A} (op : list Z → Tree → io (World C) A) (path : list Z) : io Call A :=
  result ← attempt (on_tree_conn (op path));
  c ← on_client (get_client (λ c, c));
  match result with
  | Err e =>
      if should_retry_dfs c e
      then new_path ← handle_dfs_redirect path; on_tree_conn (op new_path)
      else io_err e
  | other => io_lift other
  end.

(** The body of the methods that change nothing. *)
Definition replaying {A} (op : list Z → Tree → io (World C) A) (path : list Z) : io Call A :=
  result ← attempt (on_tree_conn (op path));
  c ← on_client (get_client (λ c, c));
  match result with
  | Err e =>
      if should_retry_dfs c e
      then new_path ← handle_dfs_redirect path; on_tree_conn (op new_path)
      else if session_is_gone c e
      then recover_tree ;; on_tree_conn (op path)
      else io_err e
  | other => io_lift other
  end.

(** *** The methods *)

Definition client_list_directory (rounds : nat) (path : list Z) : io Call (list DirectoryEntry) :=
  replaying (λ p t, Listing.list_directory t rounds p) path.
Definition client_read_file (path : list Z) : io Call bytes := replaying (λ p t, Tree.read_file t p) path.
Definition client_read_file_compound (path : list Z) : io Call bytes :=
  replaying (λ p t, Tree.read_file_compound t p) path.
Definition client_read_file_pipelined (path : list Z) : io Call bytes :=
  replaying (λ p t, Tree.read_file_pipelined t p) path.
Definition client_stat (path : list Z) : io Call FileInfo := replaying (λ p t, Metadata.stat t p) path.
Definition client_fs_info : io Call FsInfo := replaying (λ _ t, Metadata.fs_info t) [].

Definition client_write_file (path : list Z) (data : bytes) : io Call Z :=
  redirecting (λ p t, Tree.write_file t p data) path.
Definition client_write_file_compound (path : list Z) (data : bytes) : io Call Z :=
  redirecting (λ p t, Tree.write_file_compound t p data) path.
Definition client_write_file_pipelined (path : list Z) (data : bytes) : io Call Z :=
  redirecting (λ p t, Tree.write_file_pipelined t p data) path.
Definition client_delete_file (path : list Z) : io Call unit := redirecting (λ p t, Metadata.delete_file t p) path.
Definition client_delete_directory (path : list Z) : io Call unit :=
  redirecting (λ p t, Metadata.delete_directory t p) path.
Definition client_create_directory (path : list Z) : io Call unit :=
  redirecting (λ p t, Tree.create_directory t p) path.
Definition client_rename (from to : list Z) : io Call unit := redirecting (λ p t, Metadata.rename t p to) from.

(** Without any repetition. *)
Definition client_delete_files (paths : list (list Z)) : io Call (list (result Error unit)) :=
  on_tree_conn (λ t, Metadata.delete_files t paths).
Definition client_stat_files (paths : list (list Z)) : io Call (list (result Error FileInfo)) :=
  on_tree_conn (λ t, Metadata.stat_files t paths).
Definition client_rename_files (renames : list (list Z * list Z)) : io Call (list (result Error unit)) :=
  on_tree_conn (λ t, Metadata.rename_files t renames).
Definition client_read_file_with_progress (path : list Z) (on_progress : list Progress → bool) : io Call bytes :=
  on_tree_conn (λ t, Tree.read_file_pipelined_with_progress t path on_progress).
Definition client_write_file_streamed (path : list Z) (source : list source_item) : io Call Z :=
  on_tree_conn (λ t, Tree.write_file_streamed t path source).
Definition client_flush_file (file_id : FileId) : io Call unit := on_tree_conn (λ t, Tree.flush_handle t file_id).

(** On the primary connection, whatever the server of the tree. *)
Definition client_download (t : Tree) (path : list Z) : io ClientWorld FileDownload := on_primary (Stream.download t path).
Definition client_upload (t : Tree) (path : list Z) (data : bytes) : io ClientWorld FileUpload :=
  on_primary (Upload.upload t path data).
Definition client_write_file_with_progress (t : Tree) (path : list Z) (data : bytes)
    (on_progress : list Progress → bool) : io ClientWorld Z :=
  on_primary (Upload.write_file_with_progress t path data on_progress).
Definition client_open_file_reader (t : Tree) (path : list Z) : io ClientWorld FileReader :=
  on_primary (Stream.open_file_reader t path).
Definition client_watch (t : Tree) (path : list Z) (recursive : bool) : io ClientWorld Watcher :=
  on_primary (Watcher.watch t path recursive).
Definition create_file_writer (t : Tree) (path : list Z) : io ClientWorld FileWriter :=
  on_primary (Stream.open_file_writer t path).
Definition create_file_writer_exclusive (t : Tree) (path : list Z) : io ClientWorld FileWriter :=
  on_primary (Stream.open_file_writer_exclusive t path).
Definition create_file_writer_at (t : Tree) (path : list Z) (offset : Z) : io ClientWorld FileWriter :=
  on_primary (Stream.open_file_writer_at t path offset).
(** On the connection of the tree, which they do not change. *)
Definition client_server_side_copy_file (rounds : nat) (t : Tree) (source_path dest_path : list Z) : io ClientWorld Z :=
  on_connection Panic (server t) (CopyFiles.server_side_copy_file t rounds source_path dest_path).
Definition client_server_side_copy_file_range (rounds : nat) (t : Tree) (source_path : list Z) (source_offset : Z)
    (dest_path : list Z) (dest_offset length : Z) : io ClientWorld Z :=
  on_connection Panic (server t)
    (CopyFiles.server_side_copy_file_range t rounds source_path source_offset dest_path dest_offset length).

End client.
