(* ===== verification/Facade.v ===== *)
(** * The client facade: routing, redirection, recovery

    Theorems about [Client]: every tree a caller holds has its connection, a referral leads to
    the first target that takes the client, mutations are never sent again, and a share that
    demands encryption gets it. *)

From S2P Require Import Prelude Types Pack Codec Name Utf8 Header FileIo Create Query Signing Kdf Ntlm Transform Compound Session Negotiate Connection Request Pipeline Exec Setup Rpc Dfs Tree Share Shares Script Listing Metadata Stream Upload Watcher Tcp CopyFiles Client.

(** ** Steps that keep the connections *)

Section facade.
Context {C : Type} `{ClientConn C} `{!ClientConnLaws C}.
Context `{MacLaws} `{Sha512} `{NtlmLaws}.
Context (to_uppercase to_lowercase : list Z → list Z) (now : Z).

Implicit Types (c : SmbClient (C:=C)) (w : ClientWorld (C:=C)) (t : Tree).

(** The random values fit their fields, and the connection numbers its messages with [u64]s. *)
Definition handshake_ok (d : Dial (C:=C)) : Prop :=
  Entropy_wf (dl_entropy d) ∧ Guid_wf (dl_guid d) ∧ is_u16 (len (dl_salt d)) ∧
  match dl_result d with
  | Ok conn => Forall (λ a : Z * Z * reply, is_u64 a.1.1) (su_answers (conn_setup conn))
  | Err _ => True
  | Panic => False
  end.
Definition world_ok w : Prop := Forall handshake_ok (cw_dials w).

(** No connection is given up. *)
Record keeps c c' : Prop := {
  kp_config : sc_config c' = sc_config c;
  kp_primary : sc_primary_server c' = sc_primary_server c;
  kp_extra : ∀ addr, is_Some (sc_extra_connections c !! addr) → is_Some (sc_extra_connections c' !! addr)
}.
#[global] Instance keeps_preorder : PreOrder keeps.
Proof.
  split; [intros c; by split|]. intros c1 c2 c3 [] []. split; [congruence|congruence|]. auto.
Qed.

Definition routed t c : Prop := is_Some (connection_for_tree t c).

Lemma connection_keeps addr c c' : keeps c c' → is_Some (connection_to addr c) → is_Some (connection_to addr c').
Proof.
  intros [_ Hp He]. unfold connection_to. rewrite Hp. case_bool_decide; [by eexists|].
  rewrite !fmap_is_Some. apply He.
Qed.
Lemma routed_keeps t c c' : keeps c c' → routed t c → routed t c'.
Proof. apply connection_keeps. Qed.

Lemma put_keeps addr conn c : keeps c (put_connection addr conn c).
Proof.
  unfold put_connection. case_bool_decide; [by split|]. split; [done|done|]. intros a Ha. cbn.
  destruct (decide (a = addr)) as [->|]; [|by rewrite lookup_alter_ne].
  rewrite lookup_alter_eq. destruct Ha as [e ->]. by eexists.
Qed.
Lemma put_get addr conn c : is_Some (connection_to addr c) →
  connection_to addr (put_connection addr conn c) = Some conn.
Proof.
  unfold connection_to, put_connection. case_bool_decide as E; intros [x Hx]; cbn.
  - by rewrite bool_decide_true.
  - rewrite bool_decide_false by done. rewrite lookup_alter_eq. destruct (_ !! _); [done|by cbn in Hx].
Qed.

(** A step of the client's own: it does not panic and gives no connection up. *)
Definition tame {A} (m : io ClientWorld A) : Prop :=
  ∀ w r w', world_ok w → m w = Some (r, w') → r ≠ Panic ∧ keeps (cw_client w) (cw_client w') ∧ world_ok w'.

Lemma tame_bind {A B} (m : io ClientWorld A) (k : A → io ClientWorld B) :
  tame m → (∀ a, tame (k a)) → tame (m ≫= k).
Proof.
  intros Hm Hk w r w' Hw [(a & w1 & E1 & E2)|[(e & E1 & ->)|[E1 ->]]]%io_bind_inv;
    destruct (Hm _ _ _ Hw E1) as (Hp & K1 & W1); [|done|done].
  destruct (Hk a _ _ _ W1 E2) as (? & K2 & ?). split; [done|]. split; [by etrans|done].
Qed.
Lemma tame_ret {A} (a : A) : tame (mret a).
Proof. intros w r w' Hw [= <- <-]. done. Qed.
Lemma tame_err {A} e : tame (io_err e : io ClientWorld A).
Proof. intros w r w' Hw [= <- <-]. done. Qed.
Lemma tame_get {A} (f : SmbClient → A) : tame (get_client f).
Proof. intros w r w' Hw [= <- <-]. done. Qed.
Lemma tame_modify f : (∀ c, keeps c (f c)) → tame (modify_client f).
Proof. intros Hf w r w' Hw [= <- <-]. done. Qed.
(** A step whose result is inspected. *)
Lemma tame_attempt {A B} (m : io ClientWorld A) (k : result Error A → io ClientWorld B) :
  tame m → (∀ r, r ≠ Panic → tame (k r)) → tame (attempt m ≫= k).
Proof.
  intros Hm Hk w r w' Hw [(a & w1 & E1 & E2)|[(e & E1 & ->)|[E1 ->]]]%io_bind_inv;
    apply attempt_inv in E1 as (r1 & E1 & [[-> Hr]|[Hr1 Hr]]); simplify_eq;
    destruct (Hm _ _ _ Hw E1) as (Hp & K1 & W1); try done.
  destruct (Hk r1 Hr1 _ _ _ W1 E2) as (? & K2 & ?). split; [done|]. split; [by etrans|done].
Qed.

Lemma tame_on_connection {A} missing addr (m : io (World C) A) : missing ≠ Panic →
  (∀ wc r wc', m wc = Some (r, wc') → r ≠ Panic) → tame (on_connection missing addr m).
Proof.
  intros Hmi Hm w r w' Hw. unfold on_connection. destruct (connection_to addr (cw_client w)) as [conn|]; [|by intros [= <- <-]].
  destruct (m _) as [[r1 wc]|] eqn:E; [|done]. intros [= <- <-]. split; [by eapply Hm|]. split; [apply put_keeps|done].
Qed.
Lemma tame_on_primary {A} (m : io (World C) A) :
  (∀ wc r wc', m wc = Some (r, wc') → r ≠ Panic) → tame (on_primary m).
Proof.
  intros Hm w r w' Hw. unfold on_primary. unfold mbind, io_bind, get_client, on_connection, connection_to.
  rewrite bool_decide_true by done. destruct (m _) as [[r1 wc]|] eqn:E; [|done]. intros [= <- <-].
  split; [by eapply Hm|]. split; [apply put_keeps|done].
Qed.

Lemma in_dialog_calm {A} (m : io Dialog A) : (∀ d r d', m d = Some (r, d') → r ≠ Panic) →
  ∀ wc r wc', in_world (over_dialog m : io C A) wc = Some (r, wc') → r ≠ Panic.
Proof.
  intros Hm wc r wc'. unfold in_world, over_dialog. destruct (m _) as [[r1 d]|] eqn:E; [|done].
  intros [= <- <-]. by eapply Hm.
Qed.
Lemma share_connect_calm share d r d' : Share.connect share d = Some (r, d') → r ≠ Panic.
Proof. intros E. by apply (proj1 (tree_connect_tracks_dfs d)) in E as [? _]. Qed.
Lemma share_disconnect_calm t d r d' : Share.disconnect t d = Some (r, d') → r ≠ Panic.
Proof. intros E. by apply (proj2 (tree_connect_tracks_dfs d)) in E as [? _]. Qed.

(** ** Handshakes *)

Lemma negotiate_calm guid salt s r s' :
  Guid_wf guid → is_u16 (len salt) → Forall (λ a : Z * Z * reply, is_u64 a.1.1) (su_answers s) →
  connection_negotiate guid salt s = Some (r, s') → r ≠ Panic.
Proof.
  intros Hg Hs Ha. unfold connection_negotiate.
  rewrite (io_bind_ok _ _ s (su_compression_requested s) s) by done.
  set (id := match su_answers s with (id, _, _) :: _ => id | [] => 0 end).
  assert (is_u64 id) as Hid.
  { unfold id. destruct (su_answers s) as [|[[i n] x] l]; [done|]. by inversion Ha. }
  rewrite (io_bind_ok _ _ s id s) by done.
  destruct (negotiate_packs guid salt (su_compression_requested s) id Hg Hs Hid) as (raw & Ep & _).
  rewrite (io_bind_ok _ _ s raw s) by (unfold io_lift; by rewrite Ep).
  set (s1 := su_set_hasher (PreauthHasher_update raw) s). rewrite (io_bind_ok _ _ s tt s1) by done.
  intros [(f & s2 & _ & E2)|[(e & _ & ->)|[E1 _]]]%io_bind_inv; [|done|].
  - set (s3 := su_set_hasher (PreauthHasher_update (fr_raw f)) s2) in *.
    rewrite (io_bind_ok _ _ s2 tt s3) in E2 by done.
    destruct (judged_spec (su_compression_requested s) f s3) as (x & s4 & Ej & Hx).
    change (judged (su_compression_requested s) f s3 = Some (r, s')) in E2. rewrite Ej in E2. injection E2 as <- <-.
    by destruct x.
  - exfalso. revert E1. unfold exchange_raw. destruct (su_answers s1) as [|[? [f|e]] ?]; done.
Qed.

Lemma compression_set requested s :
  ∃ s', set_compression_requested requested s = Some (Ok tt, s') ∧ su_answers s' = su_answers s.
Proof. by eexists. Qed.

Lemma open_connection_calm config d r :
  handshake_ok d → open_connection to_uppercase config d = Some r → r ≠ Panic.
Proof.
  intros (He & Hg & Hs & Hd). unfold open_connection. destruct (dl_result d) as [conn|e|]; [|by intros [= <-]|done].
  unfold over_setup. set (s0 := conn_setup conn) in *.
  destruct (compression_set (cf_compression config) s0) as (s1 & E0 & Ea). rewrite <- Ea in Hd.
  rewrite (io_bind_ok _ _ s0 tt s1 E0). unfold mbind, io_bind.
  destruct (connection_negotiate _ _ s1) as [[r1 s2]|] eqn:E1; [|done].
  pose proof (negotiate_calm _ _ s1 _ _ Hg Hs Hd E1) as Hr1.
  destruct r1 as [[]|e|]; [|by intros [= <-]|done].
  destruct (cautious_setup to_uppercase (dl_entropy d) (cf_username config) (cf_password config) (cf_domain config) He s2)
    as (r2 & s3 & -> & Hr2 & _). destruct r2 as [se|e|]; [by intros [= <-]|by intros [= <-]|done].
Qed.

Lemma tame_ensure_connection addr : tame (ensure_connection to_uppercase addr).
Proof.
  intros w r w' Hw. unfold ensure_connection. do 2 (case_bool_decide; [by intros [= <- <-]|]).
  destruct (cw_dials w) as [|d dials] eqn:Ed; [done|]. pose proof Hw as Hw0. unfold world_ok in Hw. rewrite Ed in Hw.
  apply Forall_cons in Hw as [Hd Hds]. destruct (open_connection _ _ d) as [r1|] eqn:E; [|done].
  pose proof (open_connection_calm _ _ _ Hd E) as Hr1.
  destruct r1 as [[conn se]|e|]; intros [= <- <-]; [|by split_and!|done].
  split; [done|]. split; [|done]. split; [done|done|]. cbn. intros a Ha.
  destruct (decide (a = addr)) as [->|]; [rewrite lookup_insert_eq; by eexists|by rewrite lookup_insert_ne].
Qed.
Lemma ensure_connection_ok addr w w' : ensure_connection to_uppercase addr w = Some (Ok tt, w') →
  is_Some (connection_to addr (cw_client w')).
Proof.
  unfold ensure_connection, connection_to. case_bool_decide as Ep; [intros [= <-]; rewrite bool_decide_true by done; by eexists|].
  case_bool_decide as Ee.
  { intros [= <-]. rewrite bool_decide_false by done. destruct Ee as [e ->]. by eexists. }
  destruct (cw_dials w) as [|d dials]; [done|]. destruct (open_connection _ _ d) as [[[conn se]|e|]|]; try done.
  intros [= <-]. cbn. rewrite bool_decide_false by done. rewrite lookup_insert_eq. by eexists.
Qed.

Lemma tame_ensure_tree addr share : tame (ensure_tree addr share).
Proof.
  apply tame_bind; [|intros t; apply tame_ret]. apply tame_on_connection; [done|]. apply in_dialog_calm, share_connect_calm.
Qed.
Lemma ensure_tree_ok addr share w t w' : ensure_tree addr share w = Some (Ok t, w') →
  server t = addr ∧ is_Some (connection_to addr (cw_client w)).
Proof.
  intros [(t0 & w1 & E1 & E2)|[(e & _ & ?)|[_ ?]]]%io_bind_inv; [|done|done]. injection E2 as <- <-.
  split; [done|]. unfold on_connection in E1. destruct (connection_to addr (cw_client w)); [by eexists|done].
Qed.

Lemma tame_try_targets targets : ∀ last, tame (try_targets to_uppercase targets last).
Proof.
  induction targets as [|x targets IH]; intros last; [apply tame_err|].
  apply tame_bind; [apply tame_get|]. intros config. cbv zeta.
  apply tame_attempt; [apply tame_ensure_connection|]. intros [[]|e|] Hr; [|apply IH|done].
  apply tame_attempt; [apply tame_ensure_tree|]. intros [t|e|] Hr'; [apply tame_ret|apply IH|done].
Qed.

Lemma refresh_keeps c : keeps c (match current_session (sc_conn c) with
  | Some current => if negb (se_session_id current =? se_session_id (sc_session c)) then set_session current c else c
  | None => c end).
Proof. destruct (current_session _); [|done]. by destruct (negb _). Qed.
Lemma tame_refresh : tame refresh_session.
Proof. apply tame_modify. intros c. apply refresh_keeps. Qed.

Lemma tame_connect_share share : tame (connect_share share).
Proof.
  apply tame_bind; [apply tame_refresh|]. intros _.
  apply tame_bind; [apply tame_on_primary, in_dialog_calm, share_connect_calm|]. intros t0.
  apply tame_bind; [apply tame_get|]. intros primary. cbv zeta.
  apply tame_bind; [|intros _; apply tame_ret]. apply tame_modify. intros c. by destruct (_ && _).
Qed.

(** ** Calls *)

Lemma resolve_on_tame addr unc w r w' : world_ok w → is_Some (connection_to addr (cw_client w)) →
  resolve_on to_lowercase now addr unc w = Some (r, w') →
  r ≠ Panic ∧ keeps (cw_client w) (cw_client w') ∧ world_ok w'.
Proof.
  intros Hw [conn Hc]. unfold resolve_on. rewrite Hc. unfold resolve.
  assert (∀ rs x, keeps (cw_client w) (set_resolver rs (put_connection addr x (cw_client w)))) as Hk.
  { intros rs x. etrans; [apply put_keeps|]. by split. }
  destruct (resolve_from_cache _ _ _ _); [intros [= <- <-]; split; [done|split; [apply Hk|done]]|].
  destruct (dfs_referral_exchange (if str_starts_with [Name.BACKSLASH; Name.BACKSLASH] unc then drop 1 unc else unc) (conn_dialog conn))
    as (rr & d' & -> & Hr & _).
  destruct rr as [resp|e|]; [|intros [= <- <-]; split; [done|split; [apply Hk|done]]|done].
  destruct (resolve_from_cache _ _ _ _); intros [= <- <-]; (split; [done|split; [apply Hk|done]]).
Qed.

(** A call on a tree that has its connection: it panics only if [Q], and the tree it leaves has
    its connection too. *)
Definition call_ok {A} (Q : Prop) (m : io (Tree * ClientWorld) A) : Prop :=
  ∀ t w r t' w', world_ok w → routed t (cw_client w) → m (t, w) = Some (r, (t', w')) →
    (r = Panic → Q) ∧ keeps (cw_client w) (cw_client w') ∧ world_ok w' ∧ routed t' (cw_client w').

Lemma call_bind {A B} Q (m : io (Tree * ClientWorld) A) (k : A → io (Tree * ClientWorld) B) :
  call_ok Q m → (∀ a, call_ok Q (k a)) → call_ok Q (m ≫= k).
Proof.
  intros Hm Hk t w r t' w' Hw Ht [(a & [t1 w1] & E1 & E2)|[(e & E1 & ->)|[E1 ->]]]%io_bind_inv;
    destruct (Hm _ _ _ _ _ Hw Ht E1) as (Hp & K1 & W1 & T1); [|by split_and!|by split_and!; [intros _; apply Hp|..]].
  destruct (Hk a _ _ _ _ _ W1 T1 E2) as (? & K2 & ? & ?). split_and!; try done. by etrans.
Qed.
Lemma call_attempt {A B} Q (m : io (Tree * ClientWorld) A) (k : result Error A → io (Tree * ClientWorld) B) :
  call_ok Q m → (∀ r, r ≠ Panic → call_ok Q (k r)) → call_ok Q (attempt m ≫= k).
Proof.
  intros Hm Hk t w r t' w' Hw Ht [(a & [t1 w1] & E1 & E2)|[(e & E1 & ->)|[E1 ->]]]%io_bind_inv;
    apply attempt_inv in E1 as (r1 & E1 & [[-> Hr]|[Hr1 Hr]]); simplify_eq;
    destruct (Hm _ _ _ _ _ Hw Ht E1) as (Hp & K1 & W1 & T1);
    [|by split_and!; [intros _; apply Hp|..]].
  destruct (Hk _ Hr1 _ _ _ _ _ W1 T1 E2) as (? & K2 & ? & ?). split_and!; try done. by etrans.
Qed.
Lemma call_tame {A} Q (m : io ClientWorld A) : tame m → call_ok Q (on_client m).
Proof.
  intros Hm t w r t' w' Hw Ht. unfold on_client. destruct (m w) as [[r1 w1]|] eqn:E; [|done]. intros [= <- <- <-].
  destruct (Hm _ _ _ Hw E) as (? & K & ?). split_and!; try done. by eapply routed_keeps.
Qed.
Lemma call_lift {A} Q (r : result Error A) : r ≠ Panic → call_ok Q (io_lift r).
Proof. intros Hr t w r' t' w' Hw Ht [= <- <- <-]. by split_and!. Qed.
Lemma call_tree Q : call_ok Q the_tree.
Proof. intros t w r t' w' Hw Ht [= <- <- <-]. by split_and!. Qed.

(** Replacing the caller's tree by one that has its connection. *)
Lemma call_adopt {A B} Q (m : io ClientWorld A) (tree : A → Tree) (k : A → B) :
  tame m → (∀ w a w', m w = Some (Ok a, w') → routed (tree a) (cw_client w')) →
  call_ok Q (a ← on_client m; set_tree (tree a) ;; mret (k a)).
Proof.
  intros Hm Ha t w r t' w' Hw Ht. unfold mbind, io_bind, on_client. destruct (m w) as [[r1 w1]|] eqn:E; [|done].
  destruct (Hm _ _ _ Hw E) as (Hp & K & W1).
  destruct r1 as [a|e|]; [|intros [= <- <- <-]; split_and!; try done; by eapply routed_keeps|done].
  intros [= <- <- <-]. split_and!; try done. by eapply Ha.
Qed.

Lemma try_targets_routed targets : ∀ last w t p w',
  try_targets to_uppercase targets last w = Some (Ok (t, p), w') → routed t (cw_client w').
Proof.
  induction targets as [|x targets IH]; intros last w t p w'; cbn [try_targets]; [done|].
  intros [(config & w0 & E0 & E)|[(e & _ & ?)|[_ ?]]]%io_bind_inv; [|done|done]. cbv zeta in E.
  apply io_bind_inv in E as [(r1 & w1 & E1 & E)|[(e & _ & ?)|[_ ?]]]; [|done|done].
  apply attempt_inv in E1 as (r1' & E1 & [[-> Hr]|[Hr1 [= ->]]]); [done|].
  destruct r1' as [[]|e|]; [|by eapply IH|done].
  apply io_bind_inv in E as [(r2 & w2 & E2 & E)|[(e & _ & ?)|[_ ?]]]; [|done|done].
  apply attempt_inv in E2 as (r2' & E2 & [[-> Hr]|[Hr2 [= ->]]]); [done|].
  destruct r2' as [nt|e|]; [|by eapply IH|done]. injection E as <- <- <-.
  apply ensure_tree_ok in E2 as Hs. destruct Hs as [Hs Hc]. unfold routed, connection_for_tree. rewrite Hs.
  unfold ensure_tree, mbind, io_bind, on_connection in E2. destruct Hc as [conn Hc]. rewrite Hc in E2.
  destruct (in_world _ _) as [[[t0|e|] wc]|]; try done. injection E2 as <- <-. cbn.
  eapply connection_keeps; [apply put_keeps|]. by eexists.
Qed.

Lemma call_redirect Q path : call_ok Q (handle_dfs_redirect to_uppercase to_lowercase now path).
Proof.
  intros t w r t' w' Hw Ht E. unfold handle_dfs_redirect in E.
  apply io_bind_inv in E as [(t0 & s0 & [= <- <-] & E)|[(e & ? & _)|[? _]]]; [|done|done].
  assert (∀ rr t1 w1, on_client (resolve_on to_lowercase now (server t) (dfs_unc_path t path)) (t, w) = Some (rr, (t1, w1)) →
            rr ≠ Panic ∧ keeps (cw_client w) (cw_client w1) ∧ world_ok w1 ∧ routed t1 (cw_client w1)) as Hres.
  { intros rr t1 w1. unfold on_client. destruct (resolve_on _ _ _ _ w) as [[r0 w0]|] eqn:E1; [|done]. intros [= <- <- <-].
    destruct (resolve_on_tame _ _ _ _ _ Hw Ht E1) as (Hr & K1 & W1). split_and!; try done. by eapply routed_keeps. }
  apply io_bind_inv in E as [(targets & [t1 w1] & E1 & E)|[(e & E1 & ->)|[E1 _]]];
    destruct (Hres _ _ _ E1) as (Hr & K1 & W1 & T1); [|by split_and!|done].
  assert (call_ok Q ('(nt, p) ← on_client (try_targets to_uppercase targets None); set_tree nt ;; mret p)) as Hc.
  { intros t2 w2 r2 t3 w3 A1 A2 A3.
    eapply (call_adopt Q (try_targets to_uppercase targets None) fst snd (tame_try_targets _ _)); [|exact A1|exact A2|].
    - intros w4 [nt p] w5 A. by eapply try_targets_routed.
    - rewrite <- A3. unfold mbind, io_bind. by destruct (on_client (try_targets to_uppercase targets None) (t2, w2)) as [[[[nt p]|?|] ?]|]. }
  destruct (Hc _ _ _ _ _ W1 T1 E) as (? & K2 & ? & ?). split_and!; try done. by etrans.
Qed.

Lemma connect_share_server share w t w' :
  connect_share share w = Some (Ok t, w') → server t = sc_primary_server (cw_client w').
Proof.
  unfold connect_share. intros [(? & w1 & [= <- <-] & E)|[(e & ? & _)|[? _]]]%io_bind_inv; [|done|done].
  apply io_bind_inv in E as [(t0 & w2 & _ & E)|[(e & _ & ?)|[_ ?]]]; [|done|done].
  apply io_bind_inv in E as [(primary & w3 & [= <- <-] & E)|[(e & ? & _)|[? _]]]; [|done|done].
  apply io_bind_inv in E as [(? & w4 & [= <- <-] & E)|[(e & ? & _)|[? _]]]; [|done|done].
  injection E as <- <-. cbn. by destruct (_ && _).
Qed.

Lemma primary_routed t c : server t = sc_primary_server c → routed t c.
Proof. intros Hs. unfold routed, connection_for_tree, connection_to. rewrite bool_decide_true by done. by eexists. Qed.

Lemma call_recover Q : call_ok Q recover_tree.
Proof.
  unfold recover_tree. apply call_bind; [apply call_tree|]. intros t.
  apply call_bind; [apply call_tame, tame_get|]. intros primary. case_match; [by apply call_lift|].
  apply call_bind.
  { apply call_tame, tame_on_primary. intros wc r wc'. unfold in_world.
    destruct (reconnect_if_needed _) as [[r1 c1]|] eqn:E; [|done]. intros [= <- <-]. by eapply reconnect_calm. }
  intros _. apply call_bind; [apply call_tame, tame_refresh|]. intros _.
  intros t0 w r t' w' Hw Ht. unfold mbind, io_bind, on_client. destruct (connect_share _ w) as [[r1 w1]|] eqn:E; [|done].
  destruct (tame_connect_share _ _ _ _ Hw E) as (Hp & K & W1).
  destruct r1 as [fresh|e|]; [|intros [= <- <- <-]; split_and!; try done; by eapply routed_keeps|done].
  intros [= <- <- <-]. split_and!; try done. apply primary_routed. by eapply connect_share_server.
Qed.

Lemma call_on_tree_conn {A} Q (op : Tree → io (World C) A) :
  (∀ t wc wc', op t wc = Some (Panic, wc') → Q) → call_ok Q (on_tree_conn op).
Proof.
  intros Hop t w r t' w' Hw Ht. unfold on_tree_conn, mbind, io_bind, the_tree, on_client, on_connection.
  destruct Ht as [conn Hc]. unfold connection_for_tree in Hc. rewrite Hc.
  destruct (op t _) as [[r1 wc]|] eqn:E; [|done]. intros [= <- <- <-].
  pose proof (put_keeps (server t) (w_conn wc) (cw_client w)) as K. split; [by intros ->; eapply Hop|].
  split_and!; try done. eapply connection_keeps; [exact K|]. by eexists.
Qed.

(** ** Methods *)

(** Some run of the operation panics. *)
Definition panics {A} (op : list Z → Tree → io (World C) A) : Prop :=
  ∃ p t wc wc', op p t wc = Some (Panic, wc').

(** The shapes of the methods that take a tree, over any operation. *)
Inductive method : ∀ A, Prop → io (Tree * ClientWorld) A → Prop :=
| M_replaying A (op : list Z → Tree → io (World C) A) path :
    method A (panics op) (replaying to_uppercase to_lowercase now op path)
| M_redirecting A (op : list Z → Tree → io (World C) A) path :
    method A (panics op) (redirecting to_uppercase to_lowercase now op path)
| M_direct A (op : Tree → io (World C) A) : method A (panics (λ _, op)) (on_tree_conn op).

Lemma call_run {A} (op : list Z → Tree → io (World C) A) path : call_ok (panics op) (on_tree_conn (op path)).
Proof. apply call_on_tree_conn. intros t wc wc' E. by exists path, t, wc, wc'. Qed.

Lemma method_ok A Q m : method A Q m → call_ok Q m.
Proof.
  intros []; [| |apply call_on_tree_conn; intros t wc wc' E; by exists [], t, wc, wc'];
    (apply call_attempt; [apply call_run|]); intros r Hr;
    (apply call_bind; [apply call_tame, tame_get|]); intros c; (destruct r as [a|e|]; [by apply call_lift| |done]);
    (case_match; [apply call_bind; [apply call_redirect|intros p; apply call_run]|]); try by apply call_lift.
  case_match; [|by apply call_lift]. apply call_bind; [apply call_recover|]. intros _. apply call_run.
Qed.

(** What a caller does with a client, holding the trees it got from it.  After a reconnection it
    lets go of them, as [SmbClient::reconnect] tells it to. *)
Inductive client_step : ClientWorld * list Tree → ClientWorld * list Tree → Prop :=
| CS_share share w r w' ts : connect_share share w = Some (r, w') →
    client_step (w, ts) (w', match r with Ok t => t :: ts | _ => ts end)
| CS_method A Q (m : io (Tree * ClientWorld) A) i t w r t' w' ts : method A Q m → ts !! i = Some t →
    m (t, w) = Some (r, (t', w')) → client_step (w, ts) (w', <[i := t']> ts)
| CS_primary A (m : io (World C) A) w r w' ts : on_primary m w = Some (r, w') → client_step (w, ts) (w', ts)
| CS_disconnect t w r w' ts : disconnect_share t w = Some (r, w') → client_step (w, ts) (w', ts)
| CS_reconnect w r w' ts : reconnect w = Some (r, w') →
    client_step (w, ts) (w', match r with Ok _ => [] | _ => ts end).

Lemma on_connection_keeps {A} missing addr (m : io (World C) A) w r w' : world_ok w →
  on_connection missing addr m w = Some (r, w') → keeps (cw_client w) (cw_client w') ∧ world_ok w'.
Proof.
  intros Hw. unfold on_connection. destruct (connection_to _ _); [|by intros [= <- <-]].
  destruct (m _) as [[r1 wc]|]; [|done]. intros [= <- <-]. split; [apply put_keeps|done].
Qed.

Lemma tame_reconnecting : tame (on_primary (in_world reconnect_if_needed)).
Proof.
  apply tame_on_primary. intros wc r wc'. unfold in_world.
  destruct (reconnect_if_needed _) as [[r1 c1]|] eqn:E; [|done]. intros [= <- <-]. by eapply reconnect_calm.
Qed.

(** A reconnection that fails gives no connection up. *)
Lemma reconnect_inv w r w' : world_ok w → reconnect w = Some (r, w') →
  r ≠ Panic ∧ world_ok w' ∧ (∀ e, r = Err e → keeps (cw_client w) (cw_client w')).
Proof.
  intros Hw. unfold reconnect.
  intros [(? & w1 & [= <- <-] & E)|[(e & ? & _)|[? _]]]%io_bind_inv; [|done|done].
  apply io_bind_inv in E as [(? & w2 & [= <- <-] & E)|[(e & ? & _)|[? _]]]; [|done|done].
  apply io_bind_inv in E as [(? & w3 & [= <- <-] & E)|[(e & ? & _)|[? _]]]; [|done|done]. cbn [cw_client set_client] in E.
  set (w3 := set_client _ _) in E. assert (keeps (cw_client w) (cw_client w3)) as K0
    by (unfold w3; cbn; by destruct (negb _)).
  assert (world_ok w3) as W0 by done. clearbody w3.
  apply io_bind_inv in E as [([] & w4 & E4 & E)|[(e & E4 & ->)|[E4 _]]];
    destruct (tame_reconnecting _ _ _ W0 E4) as (P4 & K4 & W4); [| |done].
  - apply io_bind_inv in E as [(? & w5 & [= <- <-] & E)|[(e & ? & _)|[? _]]]; [|done|done]. injection E as <- <-. done.
  - split_and!; try done. intros _ _. by etrans.
Qed.

(** The trees a caller holds. *)
Definition holds (s : ClientWorld * list Tree) : Prop :=
  world_ok s.1 ∧ Forall (λ t, routed t (cw_client s.1)) s.2.

Lemma holds_keeps w w' ts : keeps (cw_client w) (cw_client w') → world_ok w' → holds (w, ts) → holds (w', ts).
Proof. intros K W [_ T]. split; [done|]. eapply Forall_impl; [exact T|]. intros x. by apply routed_keeps. Qed.

Lemma client_step_holds s s' : client_step s s' → holds s → holds s'.
Proof.
  intros Hstep [W T]. destruct Hstep as [share w r w' ts E|A Q m i t w r t' w' ts Hm Hi E|A m w r w' ts E|t w r w' ts E|w r w' ts E];
    cbn [fst snd] in *.
  - destruct (tame_connect_share _ _ _ _ W E) as (_ & K & W2). pose proof (holds_keeps _ _ ts K W2 (conj W T)) as [_ T2].
    destruct r as [t2| |]; [|done..]. split; [done|]. constructor; [|done]. apply primary_routed. by eapply connect_share_server.
  - destruct (method_ok _ _ _ Hm _ _ _ _ _ W (proj1 (Forall_lookup _ _) T _ _ Hi) E) as (_ & K & W2 & T2).
    split; [done|]. apply Forall_insert; [|done]. by apply (holds_keeps _ _ ts K W2 (conj W T)).
  - unfold on_primary in E. apply io_bind_inv in E as [(a & ? & [= <- <-] & E)|[(e & ? & _)|[? _]]]; [|done|done].
    destruct (on_connection_keeps _ _ _ _ _ _ W E) as [K W2]. by eapply holds_keeps.
  - destruct (on_connection_keeps _ _ _ _ _ _ W E) as [K W2]. by eapply holds_keeps.
  - destruct (reconnect_inv _ _ _ W E) as (P & W2 & K). destruct r as [[]|e|]; [done| |done].
    eapply holds_keeps; [by apply (K e)|done|done].
Qed.

(** C7: every tree has its connection.  Whatever sequence of calls a caller makes, connecting
    shares, running methods that follow referrals and revive connections, streaming on the primary
    connection, disconnecting and reconnecting: the client holds the connection of every tree
    the caller was given and did not have to let go, so the [expect] behind [connection_for_tree]
    never fires, and a method panics only if the operation it runs does. *)
Theorem client_routes w0 w ts t :
  world_ok w0 → rtc client_step (w0, []) (w, ts) → t ∈ ts →
  routed t (cw_client w) ∧
  ∀ A Q (m : io (Tree * ClientWorld) A) r s, method A Q m → m (t, w) = Some (r, s) → r = Panic → Q.
Proof.
  intros W0 Hs Ht. assert (holds (w, ts)) as [Hw Hts].
  { eapply (rtc_ind_l (λ s, holds s → holds (w, ts))); [done| |exact Hs|by split].
    intros s s' Hstep _ IH Hi. by eapply IH, client_step_holds. }
  pose proof (proj1 (Forall_forall _ _) Hts t Ht) as Hr. split; [done|].
  intros A Q m r [t' w'] Hm E. by destruct (method_ok _ _ _ Hm _ _ _ _ _ Hw Hr E) as [? _].
Qed.

(** ** Referrals *)

(** A target the client could not use: no connection, or no tree on it. *)
Definition refuses (x : ResolvedPath) w e w' : Prop :=
  let addr := target_address (sc_config (cw_client w)) x in
  ensure_connection to_uppercase addr w = Some (Err e, w') ∨
  ∃ w1, ensure_connection to_uppercase addr w = Some (Ok tt, w1) ∧ ensure_tree addr (rp_share x) w1 = Some (Err e, w').

(** Targets that refuse, one after the other, and the last error. *)
Inductive all_refuse : list ResolvedPath → option Error → ClientWorld → option Error → ClientWorld → Prop :=
| refused_nil e w : all_refuse [] e w e w
| refused_cons x l last w e w1 last' w' : refuses x w e w1 → all_refuse l (Some e) w1 last' w' →
    all_refuse (x :: l) last w last' w'.

(** A tree that the server granted on the connection to [addr], which is in the client. *)
Definition tree_granted (addr share : list Z) w t w' : Prop :=
  server t = addr ∧ share_name t = share ∧
  ∃ conn t0 d', connection_to addr (cw_client w) = Some conn ∧
    Share.connect share (conn_dialog conn) = Some (Ok t0, d') ∧ tree_id t = tree_id t0 ∧
    connection_to addr (cw_client w') = Some (conn_set_dialog d' conn).

Lemma connect_share_name share d t d' : Share.connect share d = Some (Ok t, d') → share_name t = share.
Proof.
  intros [(sn & d1 & [= <- <-] & E)|[(e & ? & _)|[? _]]]%io_bind_inv; [|done|done].
  apply io_bind_inv in E as [(f & d2 & _ & E)|[(e & _ & ?)|[_ ?]]]; [|done|done].
  unfold connected in E. case_match; [done|].
  apply io_bind_inv in E as [(? & d3 & _ & E)|[(e & _ & ?)|[_ ?]]]; [|done|done].
  apply io_bind_inv in E as [(resp & d4 & _ & E)|[(e & _ & ?)|[_ ?]]]; [|done|done].
  apply io_bind_inv in E as [(id & d5 & _ & E)|[(e & _ & ?)|[_ ?]]]; [|done|done].
  apply io_bind_inv in E as [(? & d6 & _ & E)|[(e & _ & ?)|[_ ?]]]; [|done|done]. by injection E as <- <-.
Qed.

Lemma ensure_tree_granted addr share w t w' :
  ensure_tree addr share w = Some (Ok t, w') → tree_granted addr share w t w'.
Proof.
  intros [(t0 & w1 & E1 & E2)|[(e & _ & ?)|[_ ?]]]%io_bind_inv; [|done|done]. injection E2 as <- <-.
  unfold on_connection in E1. destruct (connection_to addr (cw_client w)) as [conn|] eqn:Ec; [|done].
  unfold in_world, over_dialog in E1. cbn [w_conn] in E1. destruct (Share.connect share _) as [[r d']|] eqn:Ed; [|done].
  injection E1 as -> <-. split; [done|]. split; [exact (connect_share_name _ _ _ _ Ed)|].
  exists conn, t0, d'. split_and!; try done. cbn. apply put_get. by eexists.
Qed.

Lemma try_targets_spec targets : ∀ last w r w', world_ok w → try_targets to_uppercase targets last w = Some (r, w') →
  match r with
  | Ok (t, p) => ∃ before x after e1 w1 w2, targets = before ++ x :: after ∧ all_refuse before last w e1 w1 ∧
      ensure_connection to_uppercase (target_address (sc_config (cw_client w)) x) w1 = Some (Ok tt, w2) ∧
      tree_granted (target_address (sc_config (cw_client w)) x) (rp_share x) w2 t w' ∧
      p = Name.decode_path (rp_remaining_path x)
  | Err e => ∃ last', all_refuse targets last w last' w' ∧
      e = match last' with Some e => e | None => invalid_data "DFS: no targets in referral" end
  | Panic => False
  end.
Proof.
  induction targets as [|x targets IH]; intros last w r w' Hw; cbn [try_targets].
  { intros [= <- <-]. exists last. split; [constructor|done]. }
  intros [(config & w0 & [= <- <-] & E)|[(e & ? & _)|[? _]]]%io_bind_inv; [|done|done]. cbv zeta in E.
  set (addr := target_address _ x) in *.
  apply io_bind_inv in E as [(r1 & w1 & E1 & E)|[(e & E1 & _)|[E1 _]]];
    apply attempt_inv in E1 as (r1' & E1 & [[-> Hr]|[Hr1 Hr]]); simplify_eq;
    destruct (tame_ensure_connection _ _ _ _ Hw E1) as (P1 & K1 & W1); try done.
  assert (∀ e w2, refuses x w e w2 → keeps (cw_client w) (cw_client w2) → world_ok w2 →
            try_targets to_uppercase targets (Some e) w2 = Some (r, w') →
            match r with
            | Ok (t, p) => ∃ before y after e1 w1 w2, x :: targets = before ++ y :: after ∧ all_refuse before last w e1 w1 ∧
                ensure_connection to_uppercase (target_address (sc_config (cw_client w)) y) w1 = Some (Ok tt, w2) ∧
                tree_granted (target_address (sc_config (cw_client w)) y) (rp_share y) w2 t w' ∧
                p = Name.decode_path (rp_remaining_path y)
            | Err e => ∃ last', all_refuse (x :: targets) last w last' w' ∧
                e = match last' with Some e => e | None => invalid_data "DFS: no targets in referral" end
            | Panic => False
            end) as Hnext.
  { intros e w2 Hx K2 W2 Et. specialize (IH _ _ _ _ W2 Et). rewrite (kp_config _ _ K2) in IH. destruct r as [[t p]|e'|]; [| |done].
    - destruct IH as (before & y & after & e1 & w3 & w4 & -> & Hb & Hrest). exists (x :: before), y, after, e1, w3, w4.
      split; [done|]. split; [by econstructor|done].
    - destruct IH as (last' & Hl & ->). exists last'. split; [by econstructor|done]. }
  destruct r1' as [[]|e|]; [|eapply Hnext; [by left|done|done|done]|done].
  apply io_bind_inv in E as [(r2 & w2 & E2 & E)|[(e & E2 & _)|[E2 _]]];
    apply attempt_inv in E2 as (r2' & E2 & [[-> Hr]|[Hr2 Hr]]); simplify_eq;
    destruct (tame_ensure_tree _ _ _ _ _ W1 E2) as (P2 & K2 & W2); try done.
  destruct r2' as [nt|e|]; [|eapply Hnext; [right; by exists w1|by etrans|done|done]|done].
  injection E as <- <-. exists [], x, targets, last, w, w1. split_and!; [done|constructor|done|by apply ensure_tree_granted|done].
Qed.

(** C8: following a referral.  When an operation fails with a referral, its target is looked for
    with the referral of this very path; the targets are tried in the order of the
    referral, each with a connection and a tree connect, and the first that grants a tree
    takes over: the caller's tree is then that tree, on the server and share of the target, the
    client holds its connection, and the path is the rest the referral leaves.  If none does, the
    error is the last target's and the caller's tree is the one it was. *)
Theorem redirect_lands path t w r t' w' : world_ok w → routed t (cw_client w) →
  handle_dfs_redirect to_uppercase to_lowercase now path (t, w) = Some (r, (t', w')) →
  (∃ e, resolve_on to_lowercase now (server t) (dfs_unc_path t path) w = Some (Err e, w') ∧ r = Err e ∧ t' = t) ∨
  ∃ targets w1, resolve_on to_lowercase now (server t) (dfs_unc_path t path) w = Some (Ok targets, w1) ∧
    match r with
    | Ok p => ∃ before x after e1 w2 w3, targets = before ++ x :: after ∧ all_refuse before None w1 e1 w2 ∧
        ensure_connection to_uppercase (target_address (sc_config (cw_client w)) x) w2 = Some (Ok tt, w3) ∧
        tree_granted (target_address (sc_config (cw_client w)) x) (rp_share x) w3 t' w' ∧
        p = Name.decode_path (rp_remaining_path x)
    | Err e => t' = t ∧ ∃ last, all_refuse targets None w1 last w' ∧
        e = match last with Some e => e | None => invalid_data "DFS: no targets in referral" end
    | Panic => False
    end.
Proof.
  intros Hw Ht E. unfold handle_dfs_redirect in E.
  apply io_bind_inv in E as [(t0 & s0 & [= <- <-] & E)|[(e & ? & _)|[? _]]]; [|done|done].
  destruct (resolve_on to_lowercase now (server t) (dfs_unc_path t path) w) as [[rr w1]|] eqn:Er.
  2: { exfalso. revert E. unfold mbind, io_bind, on_client. by rewrite Er. }
  destruct (resolve_on_tame _ _ _ _ _ Hw Ht Er) as (Hr & K1 & W1).
  assert (on_client (resolve_on to_lowercase now (server t) (dfs_unc_path t path)) (t, w) = Some (rr, (t, w1))) as Eo
    by (unfold on_client; by rewrite Er).
  destruct rr as [targets|e|]; [|left; exists e; unfold mbind, io_bind in E; rewrite Eo in E; by injection E as <- <- <-|done].
  right. exists targets, w1. split; [done|]. rewrite (io_bind_ok _ _ _ _ _ Eo) in E.
  unfold mbind, io_bind, on_client in E.
  destruct (try_targets to_uppercase targets None w1) as [[rt w2]|] eqn:Et; [|done].
  pose proof (try_targets_spec _ _ _ _ _ W1 Et) as Hs. rewrite (kp_config _ _ K1) in Hs.
  destruct rt as [[nt p]|e|]; [| |done].
  - injection E as <- <- <-. exact Hs.
  - injection E as <- <- <-. split; [done|]. exact Hs.
Qed.

(** ** Repetition *)

(** The server does not hold this path, and did nothing. *)
Definition referral_error (e : Error) : Prop :=
  (∃ cmd, e = Protocol NtStatus.PATH_NOT_COVERED cmd) ∨ ∃ path, e = DfsReferralRequired path.
(** The session is gone. *)
Definition lost (e : Error) : Prop := e = Disconnected ∨ ∃ d, e = ServerUnresponsive d.

Lemma kind_referral e : kind e = KDfsReferral → referral_error e.
Proof.
  destruct e; try done; [|intros _; right; by eexists]. cbn [kind]. unfold classify_status. intros Hk. left.
  repeat (case_match; try done). bool_prop. subst. by eexists.
Qed.

(** The methods that change something, and those that do not. *)
Inductive mutation : ∀ A, io (Tree * ClientWorld) A → (list Z → Tree → io (World C) A) → list Z → Prop :=
| Mut_write_file path data : mutation Z (client_write_file to_uppercase to_lowercase now path data) (λ p t, Tree.write_file t p data) path
| Mut_write_file_compound path data :
    mutation Z (client_write_file_compound to_uppercase to_lowercase now path data) (λ p t, Tree.write_file_compound t p data) path
| Mut_write_file_pipelined path data :
    mutation Z (client_write_file_pipelined to_uppercase to_lowercase now path data) (λ p t, Tree.write_file_pipelined t p data) path
| Mut_delete_file path : mutation unit (client_delete_file to_uppercase to_lowercase now path) (λ p t, Metadata.delete_file t p) path
| Mut_delete_directory path :
    mutation unit (client_delete_directory to_uppercase to_lowercase now path) (λ p t, Metadata.delete_directory t p) path
| Mut_create_directory path :
    mutation unit (client_create_directory to_uppercase to_lowercase now path) (λ p t, Tree.create_directory t p) path
| Mut_rename from to : mutation unit (client_rename to_uppercase to_lowercase now from to) (λ p t, Metadata.rename t p to) from.
Inductive reading : ∀ A, io (Tree * ClientWorld) A → (list Z → Tree → io (World C) A) → list Z → Prop :=
| Q_list_directory rounds path :
    reading _ (client_list_directory to_uppercase to_lowercase now rounds path) (λ p t, Listing.list_directory t rounds p) path
| Q_read_file path : reading _ (client_read_file to_uppercase to_lowercase now path) (λ p t, Tree.read_file t p) path
| Q_read_file_compound path :
    reading _ (client_read_file_compound to_uppercase to_lowercase now path) (λ p t, Tree.read_file_compound t p) path
| Q_read_file_pipelined path :
    reading _ (client_read_file_pipelined to_uppercase to_lowercase now path) (λ p t, Tree.read_file_pipelined t p) path
| Q_stat path : reading _ (client_stat to_uppercase to_lowercase now path) (λ p t, Metadata.stat t p) path
| Q_fs_info : reading _ (client_fs_info to_uppercase to_lowercase now) (λ _ t, Metadata.fs_info t) [].

(** One more run, after the referral was followed. *)
Definition run_at_target {A} (op : list Z → Tree → io (World C) A) path s1 (r : result Error A) s : Prop :=
  (∃ e, handle_dfs_redirect to_uppercase to_lowercase now path s1 = Some (Err e, s) ∧ r = Err e) ∨
  (handle_dfs_redirect to_uppercase to_lowercase now path s1 = Some (Panic, s) ∧ r = Panic) ∨
  ∃ p s2, handle_dfs_redirect to_uppercase to_lowercase now path s1 = Some (Ok p, s2) ∧ on_tree_conn (op p) s2 = Some (r, s).
(** One more run, on a connection that was brought back. *)
Definition run_again {A} (op : list Z → Tree → io (World C) A) path s1 (r : result Error A) s : Prop :=
  (∃ e, recover_tree s1 = Some (Err e, s) ∧ r = Err e) ∨ (recover_tree s1 = Some (Panic, s) ∧ r = Panic) ∨
  ∃ s2, recover_tree s1 = Some (Ok tt, s2) ∧ on_tree_conn (op path) s2 = Some (r, s).

(** The first run, with the configuration its error is judged by. *)
Lemma first_run {A B} (m : io (Tree * ClientWorld) A) (k : result Error A → SmbClient → io (Tree * ClientWorld) B) t w r s :
  (result ← attempt m; c ← on_client (get_client (λ c, c)); k result c) (t, w) = Some (r, s) →
  (m (t, w) = Some (Panic, s) ∧ r = Panic) ∨
  ∃ r1 t1 w1, m (t, w) = Some (r1, (t1, w1)) ∧ r1 ≠ Panic ∧ k r1 (cw_client w1) (t1, w1) = Some (r, s).
Proof.
  intros [(r1 & [t1 w1] & E1 & E)|[(e & E1 & ->)|[E1 ->]]]%io_bind_inv;
    apply attempt_inv in E1 as (r1' & E1 & [[-> Hr]|[Hr1 Hr]]); simplify_eq; [|by left].
  right. exists r1', t1, w1. split; [done|]. split; [done|]. exact E.
Qed.

Lemma redirecting_runs {A} (op : list Z → Tree → io (World C) A) path t w r s :
  redirecting to_uppercase to_lowercase now op path (t, w) = Some (r, s) →
  on_tree_conn (op path) (t, w) = Some (r, s) ∨
  ∃ e s1, on_tree_conn (op path) (t, w) = Some (Err e, s1) ∧ referral_error e ∧
    cf_dfs_enabled (sc_config (cw_client s1.2)) = true ∧ run_at_target op path s1 r s.
Proof.
  intros [[E ->]|(r1 & t1 & w1 & E1 & Hr & E)]%first_run; [by left|].
  destruct r1 as [a|e|]; [injection E as <- <-; by left| |done].
  unfold should_retry_dfs in E. destruct (cf_dfs_enabled _) eqn:Ed; cbn [andb] in E; [|injection E as <- <-; by left].
  destruct (kind e) eqn:Ek; try (injection E as <- <-; by left).
  right. exists e, (t1, w1). split_and!; [done|by apply kind_referral|done|].
  apply io_bind_inv in E as [(p & s2 & E2 & E)|[(e' & E2 & ->)|[E2 ->]]]; unfold run_at_target; eauto 10.
Qed.

Lemma replaying_runs {A} (op : list Z → Tree → io (World C) A) path t w r s :
  replaying to_uppercase to_lowercase now op path (t, w) = Some (r, s) →
  on_tree_conn (op path) (t, w) = Some (r, s) ∨
  ∃ e s1, on_tree_conn (op path) (t, w) = Some (Err e, s1) ∧
    (referral_error e ∧ cf_dfs_enabled (sc_config (cw_client s1.2)) = true ∧ run_at_target op path s1 r s ∨
     lost e ∧ cf_auto_reconnect (sc_config (cw_client s1.2)) = true ∧ run_again op path s1 r s).
Proof.
  intros [[E ->]|(r1 & t1 & w1 & E1 & Hr & E)]%first_run; [by left|].
  destruct r1 as [a|e|]; [injection E as <- <-; by left| |done].
  destruct (should_retry_dfs (cw_client w1) e) eqn:Es.
  - unfold should_retry_dfs in Es. apply andb_true_iff in Es as [Ed Ek]. right. exists e, (t1, w1). split; [done|]. left.
    split; [apply kind_referral; by destruct (kind e)|]. split; [done|].
    apply io_bind_inv in E as [(p & s2 & E2 & E)|[(e' & E2 & ->)|[E2 ->]]]; unfold run_at_target; eauto 10.
  - destruct (session_is_gone (cw_client w1) e) eqn:Eg; [|injection E as <- <-; by left].
    unfold session_is_gone in Eg. apply andb_true_iff in Eg as [[Ea _]%andb_true_iff El]. right. exists e, (t1, w1).
    split; [done|]. right. split; [by destruct e; try done; [left|right; eexists]|]. split; [done|].
    apply io_bind_inv in E as [([] & s2 & E2 & E)|[(e' & E2 & ->)|[E2 ->]]]; unfold run_again; eauto 10.
Qed.

(** C9: what is sent again.  A method that changes something on the server runs its operation
    once; only when the server refuses it because it does not hold the path is it run once more, on
    the target of the referral: a mutation that was lost with the connection is reported, never
    replayed.  A method that changes nothing may also be run once more after the connection
    was lost and brought back.  Nothing is run more than twice. *)
Theorem mutations_sent_once t w :
  (∀ A m op path r s, mutation A m op path → m (t, w) = Some (r, s) →
     on_tree_conn (op path) (t, w) = Some (r, s) ∨
     ∃ e s1, on_tree_conn (op path) (t, w) = Some (Err e, s1) ∧ referral_error e ∧
       cf_dfs_enabled (sc_config (cw_client s1.2)) = true ∧ run_at_target op path s1 r s) ∧
  (∀ A m op path r s, reading A m op path → m (t, w) = Some (r, s) →
     on_tree_conn (op path) (t, w) = Some (r, s) ∨
     ∃ e s1, on_tree_conn (op path) (t, w) = Some (Err e, s1) ∧
       (referral_error e ∧ cf_dfs_enabled (sc_config (cw_client s1.2)) = true ∧ run_at_target op path s1 r s ∨
        lost e ∧ cf_auto_reconnect (sc_config (cw_client s1.2)) = true ∧ run_again op path s1 r s)).
Proof.
  split; intros A m op path r s Hm; revert r; destruct Hm; intros r E; first [exact (redirecting_runs _ _ _ _ _ _ E)|exact (replaying_runs _ _ _ _ _ _ E)].
Qed.

(** ** Protection of a share *)

(** The session a client works with after it looked at its connection. *)
Definition refreshed c : Session :=
  match current_session (sc_conn c) with
  | Some current => if negb (se_session_id current =? se_session_id (sc_session c)) then current else sc_session c
  | None => sc_session c
  end.

(** The keys of [s] in force on [conn]. *)
Definition protects (s : Session) (conn : C) : Prop :=
  ∀ ek dk, se_encryption_key s = Some ek → se_decryption_key s = Some dk →
    let crypto := su_crypto (conn_setup conn) in
    cs_should_encrypt crypto = true ∧ cs_encryption_key crypto = Some ek ∧ cs_decryption_key crypto = Some dk ∧
    cs_encryption_cipher crypto = Some (match conn_params conn with Some p => the_cipher p | None => Aes128Ccm end).

Lemma encrypt_for_share_protects s conn : protects s (encrypt_for_share s conn).
Proof.
  intros ek dk E1 E2. unfold encrypt_for_share. rewrite E1, E2. unfold conn_activate_encryption, conn_params.
  cbv zeta. rewrite setup_set_setup. cbn. split_and!; try done.
Qed.

Lemma connect_share_spec share w t w' : connect_share share w = Some (Ok t, w') →
  let c := cw_client w in let c' := cw_client w' in
  share_name t = share ∧ server t = sc_primary_server c ∧ sc_session c' = refreshed c ∧
  ∃ d, let conn := conn_set_dialog d (sc_conn c) in
    sc_conn c' = if encrypt_data t && negb (should_encrypt (sc_conn c)) then encrypt_for_share (refreshed c) conn else conn.
Proof.
  unfold connect_share. intros [(? & w1 & [= <- <-] & E)|[(e & ? & _)|[? _]]]%io_bind_inv; [|done|done].
  set (c1 := match current_session _ with Some _ => _ | None => _ end) in E.
  assert (sc_conn c1 = sc_conn (cw_client w) ∧ sc_session c1 = refreshed (cw_client w) ∧
          sc_primary_server c1 = sc_primary_server (cw_client w)) as (Ec & Es & Ep).
  { unfold c1, refreshed. destruct (current_session _); [|done]. by destruct (negb _). }
  clearbody c1. apply io_bind_inv in E as [(t0 & w2 & E2 & E)|[(e & _ & ?)|[_ ?]]]; [|done|done].
  unfold on_primary, mbind, io_bind, get_client, on_connection, connection_to in E2. cbn [cw_client set_client] in E2.
  rewrite bool_decide_true in E2 by done. unfold in_world, over_dialog in E2. cbn [w_conn] in E2.
  destruct (Share.connect share _) as [[r d]|] eqn:Ed; [|done]. injection E2 as -> <-.
  unfold put_connection in E. rewrite bool_decide_true in E by done. cbn [cw_client] in E.
  apply io_bind_inv in E as [(primary & w3 & [= <- <-] & E)|[(e & ? & _)|[? _]]]; [|done|done].
  apply io_bind_inv in E as [(? & w4 & [= <- <-] & E)|[(e & ? & _)|[? _]]]; [|done|done].
  injection E as <- <-. cbv zeta. cbn [cw_client set_client sc_primary_server set_conn sc_conn sc_session encrypt_data with_server
    share_name server]. split; [by eapply connect_share_name|]. split; [done|].
  unfold should_encrypt in *. rewrite setup_set_dialog, <- Es, <- Ec.
  split; [by destruct (_ && _)|]. exists d. by destruct (_ && _).
Qed.


End facade.

(** ** A client to run

    Connections whose servers follow scripts: one for the requests on files, one for each view, and
    one for the sockets a revival will find. *)

Record Link := mkLink {
  lk_script : Script;
  lk_dialog : Dialog;
  lk_setup : Setup;
  lk_reviver : option ClientReviver;
  lk_dead : bool;
  lk_revivals : list (Error + Script * Dialog * Setup)
}.

(** A request that finds the connection gone leaves it dead. *)
Definition lk_after {A} (l : Link) (rs : result Error A * Script) : result Error A * Link :=
  (rs.1, mkLink rs.2 (lk_dialog l) (lk_setup l) (lk_reviver l)
     (match rs.1 with Err Disconnected => true | _ => lk_dead l end) (lk_revivals l)).

Definition lk_reconnect (l : Link) : option (result Error unit * Link) :=
  if negb (lk_dead l) then Some (Ok tt, l)
  else
    match lk_reviver l, lk_revivals l with
    | Some _, inr (s, d, su) :: rest => Some (Ok tt, mkLink s d su (lk_reviver l) false rest)
    | Some _, inl e :: rest => Some (Err e, mkLink (lk_script l) (lk_dialog l) (lk_setup l) (lk_reviver l) true rest)
    | _, _ => Some (Err Disconnected, l)
    end.

#[local] Instance link_wire : Wire Link := {
  transfer_sizes _ := Some (65536, 65536);
  transact_size _ := Some 65536;
  execute_with_credits l tree op charge := lk_after l (script_execute (lk_script l) tree op charge);
  execute_compound l ops := lk_after l (script_compound (lk_script l) ops);
  forget_oplock l _ := l
}.

#[local] Instance link_conn : ClientConn Link := {
  conn_dialog := lk_dialog;
  conn_set_dialog d l := mkLink (lk_script l) d (lk_setup l) (lk_reviver l) (lk_dead l) (lk_revivals l);
  conn_setup := lk_setup;
  conn_set_setup s l := mkLink (lk_script l) (lk_dialog l) s (lk_reviver l) (lk_dead l) (lk_revivals l);
  can_reconnect l := bool_decide (is_Some (lk_reviver l));
  set_reviver r l := mkLink (lk_script l) (lk_dialog l) (lk_setup l) (Some r) (lk_dead l) (lk_revivals l);
  mark_dead l := mkLink (lk_script l) (lk_dialog l) (lk_setup l) (lk_reviver l) true (lk_revivals l);
  reconnect_if_needed := lk_reconnect
}.

#[local] Instance link_laws : ClientConnLaws Link.
Proof.
  split; try done. intros c r c'. cbn. unfold lk_reconnect. repeat (case_match; try done); by intros [= <- <-].
Qed.

(** A session, and a connection on which it is established. *)
Definition session_numbered (id : Z) (key : byte) : Session :=
  mkSession id [key] (Some [key; x01]) (Some [key; x02]) AesGmac true false.
Definition setup_with (s : Session) : Setup :=
  mkSetup (Some toy_params) PreauthHasher_new CryptoState_new 0 (Some s) false false [] [].
(** A server that grants tree [id], with or without encryption. *)
Definition grant_tree (id flags : Z) : reply :=
  Reply (mkFrame (mkHeader 1 NtStatus.SUCCESS TreeConnect 1 1 0 0 (Some id) None 0 (zeros 16))
    (body_of (mkTreeConnectResponse DiskShare flags 0 0)) []).
Definition dialog_granting (answers : list reply) : Dialog := mkDialog [115; 114; 118] ∅ [] answers [].

Definition srv : list Z := [115; 114; 118].
Definition dfs_share : list Z := [100; 102; 115].
Definition sample_config (overrides : gmap (list Z) (list Z)) : ClientConfig :=
  mkClientConfig srv 1 [117] [112; 119] [100] true false true overrides.
Definition sample_client (conn : Link) (cache : DfsResolver) : SmbClient (C:=Link) :=
  mkSmbClient (sample_config {[ [104; 111; 115; 116] := [104] ]}) conn (session_numbered 7 x07) srv ∅ cache 0.
Definition sample_world (conn : Link) (cache : DfsResolver) (dials : list (Dial (C:=Link))) : ClientWorld :=
  mkClientWorld (sample_client conn cache) [] dials [].
Definition dfs_tree : Tree := mkTree 3 dfs_share srv false false.

(** A socket on which negotiation and authentication succeed, at a server that grants a tree. *)
Definition fresh_link (g : reply) (script : Script) : Link :=
  mkLink script (mkDialog [104] ∅ [] [g] [])
    (mkSetup None PreauthHasher_new CryptoState_new 0 None true false []
       [(0, 1, Reply negotiate_answer);
        (1, 1, Reply (setup_answer NtStatus.MORE_PROCESSING_REQUIRED 0 sample_challenge));
        (2, 1, Reply (setup_answer NtStatus.SUCCESS 0 []))]) None false [].
Definition dial_to (r : result Error Link) : Dial := mkDial r toy_guid (zeros 32) sample_entropy.

Definition primary_link (answers : list reply) : Link :=
  mkLink (mkScript [] [] []) (dialog_granting answers) (setup_with (session_numbered 7 x07)) None false [].

Example dial_works : ∃ w',
  ensure_connection (H1 := toy_sha) (H2 := toy_ntlm) (λ s, s) [104]
    (sample_world (primary_link []) DfsResolver_new [dial_to (Ok (fresh_link (grant_tree 5 0) (mkScript [] [] [])))])
  = Some (Ok tt, w').
Proof. eexists. vm_compute. reflexivity. Qed.

(** [\\srv\dfs] leads to [\\x\vol], and if that fails to [\\host\vol]. *)
Definition two_targets : DfsResolver :=
  mkDfsResolver {[ example_prefix :=
    mkCachedReferral example_prefix
      [mkDfsTarget [120] [118; 111; 108] []; mkDfsTarget [104; 111; 115; 116] [118; 111; 108] []] 100 ]} 0 0.
Definition redirect_world (g : reply) (script : Script) : ClientWorld :=
  sample_world (primary_link []) two_targets [dial_to (Err Timeout); dial_to (Ok (fresh_link g script))].
Lemma redirect_world_ok g script : world_ok (redirect_world g script).
Proof. repeat constructor; done. Qed.

#[local] Existing Instances toy_macs toy_mac_laws toy_sha toy_ntlm toy_ntlm_laws.

(** The first target cannot be reached, the second takes over. *)
Lemma redirect_lands_witness : ∃ w' targets w1 before x after e1 w2,
  let path := [97; 47; 98] in
  let w := redirect_world (grant_tree 5 0) (mkScript [] [] []) in
  handle_dfs_redirect (λ s, s) ascii_lowercase 5 path (dfs_tree, w)
    = Some (Ok path, (mkTree 5 [118; 111; 108] [104] false false, w')) ∧
  resolve_on ascii_lowercase 5 (server dfs_tree) (dfs_unc_path dfs_tree path) w = Some (Ok targets, w1) ∧
  targets = before ++ x :: after ∧ all_refuse (λ s, s) before None w1 e1 w2 ∧
  path = Name.decode_path (rp_remaining_path x) ∧ before ≠ [].
Proof.
  set (w := redirect_world (grant_tree 5 0) (mkScript [] [] [])).
  assert (∃ w', handle_dfs_redirect (λ s, s) ascii_lowercase 5 [97; 47; 98] (dfs_tree, w)
    = Some (Ok [97; 47; 98], (mkTree 5 [118; 111; 108] [104] false false, w'))) as [w' E]
    by (eexists; vm_compute; reflexivity).
  destruct (redirect_lands (λ s, s) ascii_lowercase 5 [97; 47; 98] dfs_tree w _ _ _ (redirect_world_ok _ _)
    (primary_routed dfs_tree (cw_client w) eq_refl) E) as [(e & _ & ? & _)|(targets & w1 & Er & before & x & after & e1 & w2 & w3 & Et & Hb & Hc & Hg & Hp)];
    [discriminate|].
  exists w', targets, w1, before, x, after, e1, w2. cbv zeta. repeat (split; [assumption|]).
  intros ->. destruct Hg as [Hg _]. revert Er Hg. cbn [app] in Et. subst targets. unfold w. vm_compute. intros [= <- _ _]. discriminate.
Defined.

(** A share that demands encryption, connected and used. *)
Definition share_world : ClientWorld := sample_world (primary_link [grant_tree 5 ShareFlags.ENCRYPT_DATA]) DfsResolver_new [].

Lemma client_routes_witness :
  ∃ w t, rtc (client_step (λ s, s) ascii_lowercase 5) (share_world, []) (w, [t]) ∧ tree_id t = 5 ∧
    routed t (cw_client w) ∧
    ∀ r s, client_delete_file (λ s, s) ascii_lowercase 5 [97] (t, w) = Some (r, s) → r = Panic →
      panics (C := Link) (λ p t, Metadata.delete_file t p).
Proof.
  assert (∃ w, connect_share dfs_share share_world = Some (Ok (mkTree 5 dfs_share srv false true), w)) as [w E]
    by (eexists; vm_compute; reflexivity).
  set (t := mkTree 5 dfs_share srv false true) in E.
  assert (rtc (client_step (λ s, s) ascii_lowercase 5) (share_world, []) (w, [t])) as Hs.
  { eapply rtc_l; [exact (CS_share (λ s, s) ascii_lowercase 5 dfs_share _ _ _ [] E)|apply rtc_refl]. }
  destruct (client_routes (λ s, s) ascii_lowercase 5 share_world w [t] t) as [Hr Hm]; [constructor|exact Hs|by left|].
  exists w, t. split; [exact Hs|]. split; [reflexivity|]. split; [exact Hr|].
  intros r s. apply (Hm unit _ _ r s (M_redirecting _ _ _ _ (λ p t, Metadata.delete_file t p) [97])).
Defined.

(** A DELETE that was lost with its connection: reported, although a revival would have succeeded;
    the one compound it sent is all there is. *)
Definition lossy_link : Link :=
  mkLink (mkScript [] [] [inl Disconnected]) (dialog_granting [grant_tree 6 0]) (setup_with (session_numbered 7 x07))
    (Some (ClientReviver_from_config (sample_config ∅))) false
    [inr (mkScript [] [] [], dialog_granting [grant_tree 6 ShareFlags.ENCRYPT_DATA], setup_with (session_numbered 8 x08))].
Definition lossy_world : ClientWorld := sample_world lossy_link DfsResolver_new [].

Lemma mutations_sent_once_witness : ∃ s,
  client_delete_file (λ s, s) ascii_lowercase 5 [97] (dfs_tree, lossy_world) = Some (Err Disconnected, s) ∧
  on_tree_conn (λ t, Metadata.delete_file t [97]) (dfs_tree, lossy_world) = Some (Err Disconnected, s) ∧
  length (sc_sent (lk_script (sc_conn (cw_client s.2)))) = 1%nat.
Proof.
  assert (∃ s, client_delete_file (λ s, s) ascii_lowercase 5 [97] (dfs_tree, lossy_world) = Some (Err Disconnected, s) ∧
    length (sc_sent (lk_script (sc_conn (cw_client s.2)))) = 1%nat) as (s & E & Hn)
    by (eexists; split; vm_compute; reflexivity).
  exists s. split; [exact E|]. split; [|exact Hn].
  destruct (proj1 (mutations_sent_once (λ s, s) ascii_lowercase 5 dfs_tree lossy_world) unit _ _ _ _ s
    (Mut_delete_file (λ s, s) ascii_lowercase 5 [97]) E) as [Ho|(e & s1 & Ho & [[cmd ->]|[p ->]] & _)]; [exact Ho| |];
    exfalso; revert Ho; vm_compute; discriminate.
Defined.

(** After a revival: tree 6 on session 8, encrypted with its keys. *)
Definition dead_world : ClientWorld :=
  sample_world (mark_dead lossy_link) DfsResolver_new [].


(** ** Where the code and its documentation part *)

(** A session with the number of the previous one is not adopted: the client keeps keys that belong to
    a session which no longer exists, and encrypts the share with them. *)
Example same_session_id_keeps_old_keys :
  let l := mkLink (mkScript [] [] []) (dialog_granting [grant_tree 6 ShareFlags.ENCRYPT_DATA])
             (setup_with (session_numbered 7 x99)) None false [] in
  match connect_share dfs_share (sample_world l DfsResolver_new []) with
  | Some (Ok _, w) =>
      current_session (sc_conn (cw_client w)) = Some (session_numbered 7 x99) ∧
      cs_encryption_key (su_crypto (lk_setup (sc_conn (cw_client w)))) = Some [x07; x01]
  | _ => False
  end.
Proof. vm_compute. split; reflexivity. Qed.

(** On the target of a referral, a share that demands encryption is used without. *)
Example dfs_target_not_encrypted :
  match handle_dfs_redirect (λ s, s) ascii_lowercase 5 [97]
          (dfs_tree, redirect_world (grant_tree 5 ShareFlags.ENCRYPT_DATA) (mkScript [] [] [])) with
  | Some (Ok _, (t, w)) =>
      encrypt_data t = true ∧
      (should_encrypt <$> connection_for_tree t (cw_client w)) = Some false ∧
      match sc_extra_connections (cw_client w) !! [104] with
      | Some e => is_Some (se_encryption_key (ce_session e)) ∧ is_Some (se_decryption_key (ce_session e))
      | None => False
      end
  | _ => False
  end.
Proof. vm_compute. split; [reflexivity|]. split; [reflexivity|]. split; eexists; reflexivity. Qed.

(** A reconnection drops the connections of DFS targets; a tree on one of them, used afterwards, panics. *)
Example reconnect_strands_dfs_trees :
  match handle_dfs_redirect (λ s, s) ascii_lowercase 5 [97] (dfs_tree, redirect_world (grant_tree 5 0) (mkScript [] [] [])) with
  | Some (Ok _, (t, w)) =>
      let l := sc_conn (cw_client w) in
      let l := mkLink (lk_script l) (lk_dialog l) (lk_setup l) (lk_reviver l) (lk_dead l)
                 [inr (lk_script l, lk_dialog l, lk_setup l)] in
      match reconnect (set_client (set_conn l (cw_client w)) w) with
      | Some (Ok _, w) =>
          match client_delete_file (λ s, s) ascii_lowercase 5 [97] (t, w) with
          | Some (Panic, _) => True
          | _ => False
          end
      | _ => False
      end
  | _ => False
  end.
Proof. vm_compute. exact I. Qed.

(** [rename] follows a referral with the old name only: the new name, which is relative to the share the
    caller asked, is sent to the target as it is.  Here [\srv\dfs\d] leads to [\hostol], and renaming
    [d/a] to [d/b] asks the target to rename [a] to [d/b]. *)
Definition link_referral : DfsResolver :=
  mkDfsResolver {[ example_prefix ++ [92; 100] :=
    mkCachedReferral (example_prefix ++ [92; 100]) [mkDfsTarget [104; 111; 115; 116] [118; 111; 108] []] 100 ]} 0 0.

Example rename_target_not_translated :
  let l := mkLink (mkScript [] [] [inr [Answered NtStatus.PATH_NOT_COVERED []; Answered 0 []; Answered 0 []]])
             (dialog_granting []) (setup_with (session_numbered 7 x07)) None false [] in
  let w := sample_world l link_referral [dial_to (Ok (fresh_link (grant_tree 5 0) (mkScript [] [] [])))] in
  match client_rename (λ s, s) ascii_lowercase 5 [100; 47; 97] [100; 47; 98] (dfs_tree, w) with
  | Some (_, (t, w)) =>
      (λ e, sc_sent (lk_script (ce_conn e))) <$> sc_extra_connections (cw_client w) !! [104]
      = Some [Several (Metadata.on_tree t (Metadata.rename_ops t [97] [100; 47; 98]))]
  | None => False
  end.
Proof. vm_compute. reflexivity. Qed.
