(* ===== verification/Diagnostics.v ===== *)
(** * Snapshots of a running client ([src/client/diagnostics.rs])

    The data of [diagnostics.rs] and the functions that fill it: [Connection::diagnostics],
    [Connection::outstanding_requests], [DfsResolver::cache_entries], [SmbClient::diagnostics].
    The text they are printed as is left out. *)

From Stdlib Require Import Sorted.
From S2P Require Import Prelude Types Pack Signing Transform Credits Header Compound Connection Routing Liveness Exec Dfs Setup Pipeline Client.

(** ** Data *)

Record OutstandingRequest := mkOutstandingRequest {
  or_command : Command;
  or_message_id : Z;
  or_age : Z;
  or_sent_age : option Z;
  or_async_id : option Z
}.

Record NegotiatedSummary := mkNegotiatedSummary {
  ns_dialect : Dialect;
  ns_max_read_size : Z;
  ns_max_write_size : Z;
  ns_max_transact_size : Z;
  ns_server_guid : Guid;
  ns_signing_required : bool;
  ns_capabilities : Z;
  ns_gmac_negotiated : bool;
  ns_cipher : option Cipher;
  ns_compression_supported : bool
}.

Record CreditInfo := mkCreditInfo {
  ci_available : Z;
  ci_in_flight : Z;
  ci_next_message_id : Z;
  ci_send_queue_depth : Z
}.
Record SigningInfo := mkSigningInfo { si_active : bool; si_algorithm : option SigningAlgorithm }.
Record EncryptionInfo := mkEncryptionInfo { ei_active : bool; ei_cipher : option Cipher }.
Record CompressionInfo := mkCompressionInfo { co_requested : bool; co_negotiated : bool }.
Record SessionDiagnostics := mkSessionDiagnostics {
  sd_session_id : Z;
  sd_should_sign : bool;
  sd_should_encrypt : bool;
  sd_signing_algorithm : SigningAlgorithm
}.
Record DfsCacheEntry := mkDfsCacheEntry {
  de_path_prefix : list Z;
  de_target_count : Z;
  de_expires_in : option Z
}.
Record ClientMetricsSnapshot := mkClientMetricsSnapshot {
  cm_reconnects : Z;
  cm_dfs_referrals_resolved : Z;
  cm_dfs_cache_hits : Z
}.
Record ClientInfo := mkClientInfo {
  cl_primary_server : list Z;
  cl_timeout : Z;
  cl_auto_reconnect : bool;
  cl_dfs_enabled : bool;
  cl_metrics : ClientMetricsSnapshot
}.
(** A [MetricsSnapshot] has the value of every counter. *)
Record ConnectionDiagnostics := mkConnectionDiagnostics {
  cd_server : list Z;
  cd_negotiated : option NegotiatedSummary;
  cd_credits : CreditInfo;
  cd_signing : SigningInfo;
  cd_encryption : EncryptionInfo;
  cd_compression : CompressionInfo;
  cd_rtt_estimate : option Z;
  cd_disconnected : bool;
  cd_dfs_trees : list Z;
  cd_session : option SessionDiagnostics;
  cd_metrics : Metrics;
  cd_outstanding : list OutstandingRequest
}.
Record Diagnostics := mkDiagnostics {
  dg_client : ClientInfo;
  dg_primary : ConnectionDiagnostics;
  dg_extra_connections : list ConnectionDiagnostics;
  dg_dfs_cache : list DfsCacheEntry
}.

Section connection.
Context {Sem : Type} `{Semaphore Sem}.

(** The fields of the shared state a snapshot reads besides those of [Connection]. *)
Record Observed := mkObserved {
  ob_inner : Inner (Sem := Sem);
  ob_server_name : list Z;
  ob_params : option NegotiatedParams;
  ob_estimated_rtt : option Z;
  ob_compression_requested : bool;
  ob_compression_enabled : bool;
  ob_send_queue_depth : Z
}.
Implicit Types o : Observed.

Definition describe (now : Z) (p : Z * Waiter) : OutstandingRequest :=
  mkOutstandingRequest (w_command p.2) p.1 (since now (w_registered_at p.2)) (since now <$> w_sent_at p.2) (w_async_id p.2).

(** [out.sort_by_key(|r| Reverse(r.age))]: stable, the oldest first. *)
Fixpoint insert_by_age (x : OutstandingRequest) (l : list OutstandingRequest) : list OutstandingRequest :=
  match l with
  | [] => [x]
  | y :: l => if or_age x >=? or_age y then x :: y :: l else y :: insert_by_age x l
  end.
Definition sort_by_age (l : list OutstandingRequest) : list OutstandingRequest := foldr insert_by_age [] l.

(** [order]: the waiters in the order the hash map yields them. *)
Definition outstanding_requests (now : Z) (order : list (Z * Waiter)) : list OutstandingRequest :=
  sort_by_age (map (describe now) order).

Definition summary (p : NegotiatedParams) : NegotiatedSummary :=
  mkNegotiatedSummary (np_dialect p) (np_max_read_size p) (np_max_write_size p) (np_max_transact_size p)
    (np_server_guid p) (np_signing_required p) (np_capabilities p) (np_gmac_negotiated p) (np_cipher p)
    (np_compression_supported p).

Definition connection_diagnostics (now : Z) (order : list (Z * Waiter)) (trees : list Z) o : ConnectionDiagnostics :=
  let i := ob_inner o in
  mkConnectionDiagnostics (ob_server_name o) (summary <$> ob_params o)
    (mkCreditInfo (available (in_credits i)) (Z.of_nat (size (waiters i))) (next_message_id i) (ob_send_queue_depth o))
    (mkSigningInfo (cs_should_sign (crypto i)) (cs_signing_algorithm (crypto i)))
    (mkEncryptionInfo (cs_should_encrypt (crypto i)) (cs_encryption_cipher (crypto i)))
    (mkCompressionInfo (ob_compression_requested o) (ob_compression_enabled o))
    (ob_estimated_rtt o) (in_disconnected i) trees None (metrics i) (outstanding_requests now order).

(** ** What is reported *)

Lemma insert_by_age_perm x l : insert_by_age x l ≡ₚ x :: l.
Proof.
  induction l as [|y l IH]; [done|]. cbn. destruct (or_age x >=? or_age y); [done|]. rewrite IH. apply Permutation_swap.
Qed.
Lemma sort_by_age_perm l : sort_by_age l ≡ₚ l.
Proof. induction l as [|x l IH]; [done|]. cbn. by rewrite insert_by_age_perm, IH. Qed.

Definition oldest_first : list OutstandingRequest → Prop := StronglySorted (λ x y, or_age y <= or_age x).

Lemma insert_by_age_sorted x l : oldest_first l → oldest_first (insert_by_age x l).
Proof.
  induction 1 as [|y l Hl IH Hy]; cbn; [by repeat constructor|].
  destruct (Z.geb_spec (or_age x) (or_age y)) as [Hx|Hx].
  - constructor; [by constructor|]. constructor; [done|]. eapply Forall_impl; [exact Hy|]. cbn. lia.
  - constructor; [done|]. rewrite insert_by_age_perm. constructor; [cbn; lia|done].
Qed.
Lemma sort_by_age_sorted l : oldest_first (sort_by_age l).
Proof. induction l as [|x l IH]; [constructor|]. by apply insert_by_age_sorted. Qed.

(** The requests in flight are reported once each, the oldest first, and as many as the gauge says;
    one is reported as not sent exactly when its frame has not reached the transport; and the
    snapshot of a connection that was torn down, or revived, still has every counter. *)
Theorem snapshot_exact now order trees o : order ≡ₚ map_to_list (waiters (ob_inner o)) →
  let d := connection_diagnostics now order trees o in
  oldest_first (cd_outstanding d) ∧ len (cd_outstanding d) = ci_in_flight (cd_credits d) ∧
  (∀ r, r ∈ cd_outstanding d ↔ ∃ id w, waiters (ob_inner o) !! id = Some w ∧ r = describe now (id, w)) ∧
  (∀ r, r ∈ cd_outstanding d → (or_sent_age r = None ↔ ∃ w, waiters (ob_inner o) !! or_message_id r = Some w ∧ w_sent_at w = None)) ∧
  (∀ e, metrics (fan_error_to_waiters e (ob_inner o)) = cd_metrics d) ∧ metrics (install_transport (ob_inner o)) = cd_metrics d.
Proof.
  intros Ho d.
  assert (∀ r, r ∈ cd_outstanding d ↔ ∃ id w, waiters (ob_inner o) !! id = Some w ∧ r = describe now (id, w)) as Hr.
  { intros r. cbn. unfold outstanding_requests. rewrite sort_by_age_perm, list_elem_of_fmap. setoid_rewrite Ho. split.
    - intros ([id w] & -> & Hin%elem_of_map_to_list). eauto.
    - intros (id & w & Hw & ->). exists (id, w). split; [done|]. by apply elem_of_map_to_list. }
  split; [apply sort_by_age_sorted|]. split.
  { cbn. unfold len, outstanding_requests. by rewrite sort_by_age_perm, length_map, Ho, length_map_to_list. }
  split; [done|]. split; [|done].
  intros r (id & w & Hw & ->)%Hr. cbn. rewrite fmap_None. split; [by exists w|].
  intros (w' & Hw' & Hs). by simplify_eq.
Qed.

End connection.

(** ** The client *)

Definition cache_entries (now : Z) (order : list (list Z * CachedReferral)) : list DfsCacheEntry :=
  map (λ p, mkDfsCacheEntry (cr_dfs_path_prefix p.2) (len (cr_targets p.2))
              (if cr_expires_at p.2 >? now then Some (cr_expires_at p.2 - now) else None)) order.

Definition counters (r : DfsResolver) : Z * Z := (cache_hits r, referrals_resolved r).

Definition session_for (s : Session) : SessionDiagnostics :=
  mkSessionDiagnostics (se_session_id s) (se_should_sign s) (se_should_encrypt s) (se_signing_algorithm s).

Definition attach_session (s : SessionDiagnostics) (d : ConnectionDiagnostics) : ConnectionDiagnostics :=
  mkConnectionDiagnostics (cd_server d) (cd_negotiated d) (cd_credits d) (cd_signing d) (cd_encryption d)
    (cd_compression d) (cd_rtt_estimate d) (cd_disconnected d) (cd_dfs_trees d) (Some s) (cd_metrics d) (cd_outstanding d).

Section client.
Context {C : Type} `{ClientConn C} (of_connection : C → ConnectionDiagnostics).

(** [entries], [cached]: the two maps in the order they are iterated. *)
Definition client_diagnostics (now : Z) (entries : list (list Z * ConnectionEntry (C := C)))
    (cached : list (list Z * CachedReferral)) (c : SmbClient (C := C)) : Diagnostics :=
  let '(hits, resolved) := counters (sc_dfs_resolver c) in
  let config := sc_config c in
  mkDiagnostics
    (mkClientInfo (sc_primary_server c) (cf_timeout config) (cf_auto_reconnect config) (cf_dfs_enabled config)
       (mkClientMetricsSnapshot (sc_reconnects c) resolved hits))
    (attach_session (session_for (sc_session c)) (of_connection (sc_conn c)))
    (map (λ e, attach_session (session_for (ce_session e.2)) (of_connection (ce_conn e.2))) entries)
    (cache_entries now cached).

End client.

(** ** Counters *)

(** A forged response to a message id that nobody waits for is a signature failure and a stray
    response, but no error that was routed: the failures are no part of [responses_routed_err]. *)
Example forged_stray_is_not_routed :
  let m := metrics (receive_turn (Ok (Header_layout (Routing.toy_response 9 0))) 200
                      (set_crypto toy_signing (Inner_new (Sem := Z * bool)))).2 in
  m signature_failures = 1 ∧ m responses_stray = 1 ∧ m responses_routed_err = 0.
Proof. vm_compute. done. Qed.
