(* ===== verification/Messages.v ===== *)
(** * The wire format as a whole

    What every message of [src/msg/] modelled here promises, in one place: its
    parser is safe on arbitrary bytes, it round-trips, and every strict prefix
    of its encoding is refused; UTF-16 strings and file times convert without
    loss where the source says they do. *)

From S2P Require Import Prelude Types Pack Codec Utf16 Header FileIo Create Transform Oplock Ioctl Session Query Negotiate.

(** A parser that, from any position of any buffer, gives a value or an error:
    it never panics, and it leaves the cursor on the same buffer, not before
    where it started and not past the end. *)
Definition parses_safely (A : Type) `{Unpack A} : Prop :=
  ∀ d p, 0 <= p <= len d →
    match unpack A (RC d p) with
    | Ok (_, c) => data c = d ∧ p <= pos c <= len d
    | Err _ => True
    | Panic => False
    end.

Lemma codec_parses_safely A `{Codec A} : parses_safely A.
Proof.
  intros d p Hp. pose proof (codec_safe d p Hp) as Hs.
  destruct (unpack A (RC d p)) as [[v c]|e|]; [|done|done]. by destruct Hs as (_ & ? & ? & _).
Qed.

Lemma to_system_time_eq ft :
  FileTime_wf ft → EPOCH_DIFF_100NS <= ticks ft →
  to_system_time ft = Some ((ticks ft - EPOCH_DIFF_100NS) * 100).
Proof.
  unfold FileTime_wf, in_range, to_system_time. intros Hw Hle.
  replace (ticks ft <? EPOCH_DIFF_100NS) with false by lia.
  unfold EPOCH_DIFF_100NS in *. set (n := (ticks ft - _) * 100).
  pose proof (Z.div_mod n 1000000000 ltac:(lia)). pose proof (Z.mod_pos_bound n 1000000000 ltac:(lia)).
  rewrite !trunc_small by (unfold in_range; lia). f_equal. lia.
Qed.

Lemma from_system_time_eq t :
  0 <= t / 100 < 2 ^ 64 - EPOCH_DIFF_100NS →
  from_system_time t = Ok (mkFileTime (t / 100 + EPOCH_DIFF_100NS)).
Proof.
  intros Ht. unfold from_system_time.
  assert (0 <= t) by (pose proof (Z.div_mod t 100); pose proof (Z.mod_pos_bound t 100); lia).
  replace (0 <=? t) with true by lia. unfold EPOCH_DIFF_100NS in *.
  rewrite trunc_small by (unfold in_range; lia). by rewrite (proj2 (Z.ltb_lt _ _)) by lia.
Qed.

(** ** Properties *)


(** C39: every well-formed message parses back from its own bytes exactly,
    and every truncation of it is refused: message headers, synchronous or
    asynchronous, error responses and empty messages; the messages that open,
    close, read, write, flush and lock a file, that break an oplock, that carry a
    control request and its server-side-copy payload; that negotiate a dialect with
    its contexts, set up a session, connect a tree, query and set information, list a
    directory and report its changes; and the two transform headers.  A CREATE or
    QUERY_DIRECTORY request leaves unread only the filler byte of an empty buffer. *)
Theorem messages_round_trip :
  (∀ m : Header, Header_wf m → round_trips m) ∧
  (∀ m : ErrorResponse, ErrorResponse_wf m → round_trips m) ∧
  (∀ m : TrivialMessage, round_trips m) ∧
  (∀ m : CloseRequest, CloseRequest_wf m → round_trips m) ∧
  (∀ m : CloseResponse, CloseResponse_wf m → round_trips m) ∧
  (∀ m : ReadRequest, ReadRequest_wf m → round_trips m) ∧
  (∀ m : ReadResponse, ReadResponse_wf m → round_trips m) ∧
  (∀ m : WriteRequest, WriteRequest_wf m → round_trips m) ∧
  (∀ m : WriteResponse, WriteResponse_wf m → round_trips m) ∧
  (∀ m : FlushRequest, FileId_wf (flq_file_id m) → round_trips m) ∧
  (∀ m : LockRequest, LockRequest_wf m → round_trips m) ∧
  (∀ m : OplockBreak, FileId_wf (ob_file_id m) → round_trips m) ∧
  (∀ m : IoctlRequest, IoctlRequest_wf m → round_trips m) ∧
  (∀ m : IoctlResponse, IoctlResponse_wf m → round_trips m) ∧
  (∀ m : SrvCopychunkCopy, SrvCopychunkCopy_wf m → round_trips m) ∧
  (∀ m : TransformHeader, TransformHeader_wf m → round_trips m) ∧
  (∀ m : CompressionTransformHeader, CompressionTransformHeader_wf m → round_trips m) ∧
  (∀ m : CreateResponse, CreateResponse_wf m → round_trips m) ∧
  (∀ m : NegotiateRequest, NegotiateRequest_wf m → round_trips m) ∧
  (∀ m : NegotiateResponse, NegotiateResponse_wf m → round_trips m) ∧
  (∀ m : SessionSetupRequest, SessionSetupRequest_wf m → round_trips m) ∧
  (∀ m : SessionSetupResponse, SessionSetupResponse_wf m → round_trips m) ∧
  (∀ m : TreeConnectRequest, TreeConnectRequest_wf m → round_trips m) ∧
  (∀ m : TreeConnectResponse, TreeConnectResponse_wf m → round_trips m) ∧
  (∀ m : ChangeNotifyRequest, ChangeNotifyRequest_wf m → round_trips m) ∧
  (∀ m : ChangeNotifyResponse, ChangeNotifyResponse_wf m → round_trips m) ∧
  (∀ m : QueryInfoRequest, QueryInfoRequest_wf m → round_trips m) ∧
  (∀ m : QueryInfoResponse, QueryInfoResponse_wf m → round_trips m) ∧
  (∀ m : SetInfoRequest, SetInfoRequest_wf m → round_trips m) ∧
  (∀ m : QueryDirectoryResponse, QueryDirectoryResponse_wf m → round_trips m) ∧
  (∀ m : SetInfoResponse, round_trips m) ∧
  (∀ q : CreateRequest, CreateRequest_wf q → ∃ bs, packed q = Ok bs ∧
     unpack CreateRequest (ReadCursor_new bs) = Ok (q, RC bs (len bs - len (CreateRequest_filler q)))) ∧
  (∀ q : QueryDirectoryRequest, QueryDirectoryRequest_wf q → ∃ bs, packed q = Ok bs ∧
     unpack QueryDirectoryRequest (ReadCursor_new bs)
       = Ok (q, RC bs (len bs - len (QueryDirectoryRequest_filler q)))).
Proof.
  split_and!; try (intros m Hm; by apply codec_round_trips); try (intros m; by apply codec_round_trips).
  - intros q Hq. by apply CreateRequest_round_trip.
  - intros q Hq. by apply QueryDirectoryRequest_round_trip.
Qed.

Lemma messages_round_trip_witness :
  round_trips (Header_new_request Echo) ∧ round_trips (mkErrorResponse 0 [x01; x02]) ∧
  round_trips (mkFlushRequest (mkFileId 1 2)) ∧ round_trips example_opened.
Proof.
  pose proof messages_round_trip as (Hh & He & _ & _ & _ & _ & _ & _ & _ & Hf & _ & _ & _ & _ & _ & _ & _ & Hc & _).
  split_and!.
  - apply Hh. constructor; try done. split; [done|]. by exists 0.
  - by apply He.
  - apply Hf. by vm_compute.
  - apply Hc. by constructor.
Defined.

(** A string of Unicode scalar values written as UTF-16LE reads back
    exactly, whatever surrounds it; and whatever is read is a string of scalar
    values whose encoding is the bytes that were there, so no two encodings of a
    name are confused. *)
Theorem utf16_round_trip pre s post :
  str_wf s →
  read_utf16_le (len (utf16_le_bytes s)) (RC (pre ++ utf16_le_bytes s ++ post) (len pre))
    = Ok (s, RC (pre ++ utf16_le_bytes s ++ post) (len pre + len (utf16_le_bytes s))) ∧
  ∀ us s', Forall is_u16 us → from_utf16 us = Some s' → str_wf s' ∧ encode_utf16 s' = us.
Proof.
  intros Hs. split; [|intros us s'; apply from_utf16_sound].
  exact (reads_utf16 (len pre) s _ Hs eq_refl pre post eq_refl).
Qed.

Lemma utf16_round_trip_witness :
  read_utf16_le 6 (RC ([x07] ++ utf16_le_bytes [0x61; 0x1F600] ++ [x08]) 1)
    = Ok ([0x61; 0x1F600], RC ([x07] ++ utf16_le_bytes [0x61; 0x1F600] ++ [x08]) 7).
Proof. apply (utf16_round_trip [x07] [0x61; 0x1F600] [x08]). by repeat constructor. Defined.

(** A time from the Unix epoch on survives the conversion to a file
    time and back, rounded down to its 100 ns tick; any file time from the Unix
    epoch on survives the opposite trip exactly; earlier file times have no
    system time.  The bound is the last tick a [u64] holds. *)
Theorem filetime_round_trip t ft :
  0 <= t / 100 < 2 ^ 64 - EPOCH_DIFF_100NS → FileTime_wf ft →
  (∃ ft', from_system_time t = Ok ft' ∧ FileTime_wf ft' ∧
          to_system_time ft' = Some (t / 100 * 100)) ∧
  (EPOCH_DIFF_100NS <= ticks ft →
     ∃ t', to_system_time ft = Some t' ∧ from_system_time t' = Ok ft) ∧
  (ticks ft < EPOCH_DIFF_100NS → to_system_time ft = None).
Proof.
  intros Ht Hw. split_and!.
  - exists (mkFileTime (t / 100 + EPOCH_DIFF_100NS)).
    assert (FileTime_wf (mkFileTime (t / 100 + EPOCH_DIFF_100NS))) as Hf.
    { unfold FileTime_wf, in_range, EPOCH_DIFF_100NS in *. cbn [ticks]. lia. }
    split; [by apply from_system_time_eq|]. split; [done|].
    rewrite to_system_time_eq; [|done|cbn [ticks]; lia]. cbn [ticks]. f_equal. lia.
  - intros Hle. eexists. split; [by apply to_system_time_eq|].
    assert ((ticks ft - EPOCH_DIFF_100NS) * 100 / 100 = ticks ft - EPOCH_DIFF_100NS) as E
      by (apply Z.div_mul; lia).
    unfold FileTime_wf, in_range in Hw. rewrite from_system_time_eq by lia. rewrite E.
    destruct ft as [k]. cbn [ticks] in *. do 2 f_equal. lia.
  - intros Hlt. unfold to_system_time. by rewrite (proj2 (Z.ltb_lt _ _)).
Qed.

Lemma filetime_round_trip_witness :
  (∃ ft', from_system_time 1700000000123456789 = Ok ft' ∧ FileTime_wf ft' ∧
          to_system_time ft' = Some (1700000000123456789 / 100 * 100)) ∧
  (ticks FileTime_ZERO < EPOCH_DIFF_100NS → to_system_time FileTime_ZERO = None).
Proof.
  assert (0 <= 1700000000123456789 / 100 < 2 ^ 64 - EPOCH_DIFF_100NS) as H1 by by vm_compute.
  assert (FileTime_wf FileTime_ZERO) as H2 by done.
  split; apply (filetime_round_trip _ _ H1 H2).
Defined.
